(* ===== verification/_CoqProject ===== *)
-Q . S2P
Prelude.v
Codec.v
Bits.v
AllocCore.v
Allocator.v
Crc32c.v
Extents.v
Shield.v
Device.v
AllocRuntime.v
AllocRuns.v
AllocSync.v
JournalRecord.v
JournalBlock.v
Superblock.v
Journal.v
JournalRun.v
JournalRing.v
JournalCrash.v
Inode.v
TriePage.v
Trie.v
TrieStore.v
TrieShape.v
TrieOps.v
TrieInsert.v
TrieFind.v
TrieRemove.v
TrieWalk.v
TrieDir.v
MetaCache.v
MetaSync.v
InodeTable.v
InodeAlloc.v
TrieBridge.v
XattrDisk.v
Xattr.v
XattrChain.v
XattrRead.v
XattrOps.v
XattrMap.v
XattrBridge.v
PosixAcl.v
Btree.v
BtreeBuild.v
BtreeIndex.v
ExtentIndex.v
ExtentRebuild.v
ExtentBridge.v
