(* ===== verification/Prelude.v ===== *)
(** * BrieFS utilities: a verification development

    BrieFS is a journaling file system with a kernel module; this repository has
    its user-space programs in Go: mkfs, fsck and a FUSE bridge (src/fuse) that
    mounts a volume.  They share the library src/briefs, which has the on-disk
    structures and the algorithms on them.  The development translates parts of
    src/briefs and src/fuse into functions and proves what they do.

    ** Conventions

    A w-bit integer is a [Z] with the wrap-around written out ([u16], [u32],
    [u64]), a byte slice is a [list Z], a block has 4096 bytes.  A Go function
    returns [res]: a value, an error, or a panic (an index or slice out of
    range); theorems that say "no panic" exclude the last.  Stateful code passes
    its state; the directory tries and the attributes use state monads with
    weakest preconditions ([wp], [xwp]).  A method that holds one mutex from
    beginning to end is one step.  The operating system is a parameter that says
    which block writes fail and what the block holds then; clocks, the UUID
    library and random numbers are parameters.

    ** Parts and files

    - On-disk structures (briefs/gen_disk.go): Codec.  Inode adds
      briefs/inode.go, Superblock briefs/superblock.go.
    - Allocators (briefs/allocator_core.go, briefs/allocator.go, the Allocator
      of fuse/fs.go, fuse/meta_shield.go): Bits, AllocCore, Allocator,
      AllocRuntime, AllocRuns, AllocSync, Shield.
    - Checksums (briefs/crc32c.go): Crc32c.
    - Extent lists and run lists (fuse/file_ops.go, fuse/extent_ops.go,
      fuse/runlist.go): Extents.
    - Block device (fuse/device.go): Device.
    - Journal (briefs/journal_record.go, journal_replay.go, journal_write.go):
      JournalRecord, JournalBlock, Journal (the code), JournalRun (what every
      run keeps), JournalRing (its invariant), JournalCrash (its theorems).
    - Directory tries (briefs/trie_disk.go, briefs/trie_walk.go, fuse/trie.go,
      fuse/trie_mutate.go, readdir in fuse/dir_ops.go): TriePage, Trie (the
      code), TrieStore, TrieShape, TrieOps (the abstraction), TrieInsert,
      TrieFind, TrieRemove, TrieWalk, TrieDir, TrieBridge.
    - Deferred metadata (fuse/cache.go): MetaCache runs the drain alone,
      MetaSync among concurrent operations.
    - Inode table (InodeManager of fuse/fs.go, the slot writers of
      fuse/file_ops.go and fuse/cache.go): InodeTable.  Allocating and freeing
      inodes (fuse/inode_alloc.go): InodeAlloc.
    - Extended attributes (briefs/xattr_disk.go, fuse/xattr.go): XattrDisk,
      Xattr, XattrOps (the code), XattrChain, XattrRead, XattrMap, XattrBridge.
    - POSIX ACLs and privileges (fuse/posix_acl.go, setXattrOp of fuse/xattr.go,
      removePrivs of fuse/extent_ops.go, the tests of fuse/caller_status.go):
      PosixAcl.
    - Extent trees (briefs/btree.go, briefs/btree_build.go,
      fuse/extent_rebuild.go): Btree, BtreeBuild, BtreeIndex, ExtentIndex,
      ExtentRebuild, ExtentBridge.

    ** How the parts meet

    A client is proved against a class of operations with laws, which the files
    named ...Bridge discharge with the theorems of the components behind it:
    [TrieWorld] and [XattrWorld] by the runtime allocator, the deferred metadata
    and the inode table, [Bridge] by the allocator and the block device,
    [BlockAlloc] by the allocation of the extent index over any [Bridge].  The
    journal calls the bridge through [JournalHooks].  In TrieBridge and
    XattrBridge the journal is a parameter of which only this is assumed: writing
    a record and syncing do no more than commit.  The laws of [InodeWorld] are
    shown to hold in a small world only, not over the bridge.  The journal runtime itself is not plugged in there.

    ** What the theorems show

    - Structures, records, journal blocks, pool images, chains of attributes
      and ACLs are read back as what was written.
    - The allocators implement a set of free blocks; the scan for runs agrees
      with a scan bit by bit; a successful Sync after any failed ones leaves
      the pool on disk.
    - The journal implements an abstract log, which says when records are
      committed, retired or lost; a sync is atomic at every crash point while the
      ring has room.
    - Insertion, lookup, update, removal and listing implement a map from names
      to entries, in tries that share pages.
    - One drain among operations that keep to blocks they own ends, never
      overwrites the data of a block's next owner, and keeps what readers see of
      metadata, except in a block that was brought back to the content of the
      drain's snapshot behind its write.
    - Setting and removing attributes implement a map for every inode; ACLs and
      modes agree; writing an inode changes no other slot; the number of a new
      inode was free, and one is free again only once that is journaled.
    - A rebuilt extent tree holds the new extents.
    - Walks of tries and extent trees end, whatever the links between the blocks.
    - The theorems of kind error prove what the code gets wrong: a full ring, two
      overlapping drains, the window of a drain, the stale leaf link, values of
      65536 bytes, and names that no attribute block has room for.

    ** Bounds and fuel

    Recursion that is not structural takes fuel, and theorems say that enough of
    it gives the result.  The layout of attributes needs two rounds per entry,
    since a fresh block has room for any name within the limit, so that fuel
    [S (S n)] is enough; the theorem about long names is that no fuel is.  The
    walk of an attribute chain stops at the code's own bound of 1024 blocks, so
    that 1026 rounds are enough.  The walk of a trie hands out at most 128 nodes
    for every block of the device, that of an extent tree is cut by the depth
    guard of the code.

    ** Not modelled

    - fsck and mkfs (src/cmd): their passes are written over the library that is
      modelled here, but they have not been translated.
    - The handlers of the FUSE protocol that create, link, rename and remove
      files, the operations that move file data, and the handlers that apply a
      journal record at a mount: they compose the parts above, and the
      composition has not been translated.
    - Seeding the pool of trie pages at replay.
    - Locks other than as steps, except in MetaSync; write-back tracking and
      fsync, which do not change contents; what a device loses from its cache.
    - Reading the caller's status from /proc, ioctls, command lines, the code
      generator, and memory statistics: no file system state. *)

From stdpp Require Import base numbers list option gmap.
From Stdlib Require Import ZArith Lia.

Local Open Scope Z_scope.

(** ** Results of Go functions

    A Go function of the repository returns a value, returns an [error], or
    panics (an index or a slice expression out of range, a failed allocation).
    [res E A] keeps the three apart; [E] is the component's own type of
    errors. *)
Inductive res (E A : Type) : Type :=
| Ret (a : A)
| Err (e : E)
| Panic.
Arguments Ret {E A} a.
Arguments Err {E A} e.
Arguments Panic {E A}.

#[export] Instance res_ret E : MRet (res E) := fun A a => Ret a.
#[export] Instance res_bind E : MBind (res E) := fun A B f r =>
  match r with Ret a => f a | Err e => Err e | Panic => Panic end.

Lemma bind_ret {E A B} (f : A -> res E B) (a : A) : mbind f (Ret a) = f a.
Proof. reflexivity. Qed.

(** The errors of the operating system that the bridge returns. *)
Inductive errno := ENOSPC | EEXIST | ENOENT | ENAMETOOLONG | ENODATA | ERANGE | E2BIG | EROFS.

(** An index expression [l[i]]: out of range it panics. *)
Definition index {E A} (l : list A) (i : Z) : res E A :=
  if decide (0 <= i) then
    match l !! Z.to_nat i with Some a => Ret a | None => Panic end
  else Panic.

(** An assignment [l[i] = a]: out of range it panics. *)
Definition store {E A} (l : list A) (i : Z) (a : A) : res E (list A) :=
  if decide (0 <= i < Z.of_nat (length l)) then Ret (<[Z.to_nat i := a]> l)
  else Panic.

(** ** Machine integers *)
Definition u8 (z : Z) : Z := z mod 2 ^ 8.
Definition u16 (z : Z) : Z := z mod 2 ^ 16.
Definition u32 (z : Z) : Z := z mod 2 ^ 32.
Definition u64 (z : Z) : Z := z mod 2 ^ 64.

(** [int64(x)] for a uint64 [x]; [int(x)] is the same *)
Definition int64 (x : Z) : Z := if x <? 2 ^ 63 then x else x - 2 ^ 64.

Definition is_u8 (z : Z) : Prop := 0 <= z < 2 ^ 8.
Definition is_u16 (z : Z) : Prop := 0 <= z < 2 ^ 16.
Definition is_u32 (z : Z) : Prop := 0 <= z < 2 ^ 32.
Definition is_u64 (z : Z) : Prop := 0 <= z < 2 ^ 64.

Lemma u64_small z : is_u64 z -> u64 z = z.
Proof. apply Z.mod_small. Qed.

Lemma u32_small z : is_u32 z -> u32 z = z.
Proof. apply Z.mod_small. Qed.

Lemma u16_small z : is_u16 z -> u16 z = z.
Proof. apply Z.mod_small. Qed.

Lemma u64_range z : is_u64 (u64 z).
Proof. apply Z.mod_pos_bound. lia. Qed.

Lemma u32_range z : is_u32 (u32 z).
Proof. apply Z.mod_pos_bound. lia. Qed.

Lemma u16_range z : is_u16 (u16 z).
Proof. apply Z.mod_pos_bound. lia. Qed.

(** ** Byte strings

    A [[]byte] is a list of integers; [bytes] says that each is a byte. *)
Definition bytes (l : list Z) : Prop := Forall is_u8 l.

(** The same, decided by evaluation. *)
Definition bytesb (l : list Z) : bool := forallb (fun z => (0 <=? z) && (z <? 256)) l.

Lemma bytesb_bytes l : bytesb l = true -> bytes l.
Proof.
  intros H. apply Forall_forall. intros z Hz. apply list_elem_of_In in Hz.
  apply (proj1 (forallb_forall _ _) H) in Hz. unfold is_u8. lia.
Qed.

Definition zeros (n : nat) : list Z := replicate n 0.

(** [binary.LittleEndian.PutUint16/32/64] and [Uint16/32/64]: the [n] low
    bytes of [v], least significant first, and the number they spell. *)
Fixpoint le_put (n : nat) (v : Z) : list Z :=
  match n with
  | O => []
  | S n' => v mod 256 :: le_put n' (v / 256)
  end.

Fixpoint le_get (l : list Z) : Z :=
  match l with
  | [] => 0
  | b :: l' => b + 256 * le_get l'
  end.

(** [copy(dst[pos:], src)] for [pos <= len dst]: the bytes of [src] that fit. *)
Definition blit {A} (pos : nat) (src dst : list A) : list A :=
  take pos dst ++ take (length dst - pos) src ++ drop (pos + length src) dst.

(** [data[lo:hi]] for indices in range. *)
Definition slice {A} (lo hi : nat) (l : list A) : list A :=
  take (hi - lo) (drop lo l).

Section bytes_lemmas.

Lemma bytes_app l k : bytes (l ++ k) <-> bytes l /\ bytes k.
Proof. apply Forall_app. Qed.

Lemma bytes_zeros n : bytes (zeros n).
Proof. apply Forall_replicate. unfold is_u8. lia. Qed.

Lemma bytes_take n l : bytes l -> bytes (take n l).
Proof. apply Forall_take. Qed.

Lemma bytes_drop n l : bytes l -> bytes (drop n l).
Proof. apply Forall_drop. Qed.

Lemma length_zeros n : length (zeros n) = n.
Proof. apply length_replicate. Qed.

Lemma zeros_app n m : zeros (n + m) = zeros n ++ zeros m.
Proof. apply replicate_add. Qed.

Lemma length_le_put n v : length (le_put n v) = n.
Proof. revert v. induction n; intros; simpl; auto. Qed.

Lemma bytes_le_put n v : bytes (le_put n v).
Proof.
  revert v. induction n as [|n IH]; intros v; simpl; constructor.
  - unfold is_u8. pose proof (Z.mod_pos_bound v 256). lia.
  - apply IH.
Qed.

Lemma le_get_put n v : 0 <= v < 2 ^ (8 * Z.of_nat n) -> le_get (le_put n v) = v.
Proof.
  revert v. induction n as [|n IH]; intros v Hv; simpl; [simpl in Hv; lia|].
  rewrite IH.
  - pose proof (Z.div_mod v 256). lia.
  - replace (8 * Z.of_nat (S n)) with (8 * Z.of_nat n + 8) in Hv by lia.
    rewrite Z.pow_add_r in Hv by lia.
    split; [apply Z.div_pos; lia | apply Z.div_lt_upper_bound; lia].
Qed.

Lemma le_get_range l : bytes l -> 0 <= le_get l < 2 ^ (8 * Z.of_nat (length l)).
Proof.
  induction 1 as [|b l Hb Hl IH]; simpl le_get; [simpl; lia|].
  replace (8 * Z.of_nat (length (b :: l))) with (8 * Z.of_nat (length l) + 8)
    by (simpl length; lia).
  rewrite Z.pow_add_r by lia. unfold is_u8 in Hb. lia.
Qed.

Lemma le_put_get l : bytes l -> le_put (length l) (le_get l) = l.
Proof.
  induction 1 as [|b l Hb Hl IH]; simpl; [done|].
  unfold is_u8 in Hb. f_equal.
  - replace (b + 256 * le_get l) with (b + le_get l * 256) by lia.
    rewrite Z.mod_add by lia. apply Z.mod_small. lia.
  - replace (b + 256 * le_get l) with (b + le_get l * 256) by lia.
    rewrite Z.div_add by lia. rewrite (Z.div_small b) by lia. exact IH.
Qed.

End bytes_lemmas.

#[global] Arguments le_put : simpl never.

Section slice_lemmas.
Context {A : Type}.
Implicit Types l k src dst : list A.

Lemma length_blit pos src dst :
  (pos <= length dst)%nat -> length (blit pos src dst) = length dst.
Proof.
  intros H. unfold blit. rewrite !length_app, !length_take, length_drop. lia.
Qed.

Lemma blit_app (pre src mid post : list A) :
  length mid = length src ->
  blit (length pre) src (pre ++ mid ++ post) = pre ++ src ++ post.
Proof.
  intros Hm. unfold blit. rewrite take_app_length, !length_app.
  rewrite (take_ge src) by lia.
  rewrite drop_app_ge, Nat.add_comm, Nat.add_sub by lia.
  by rewrite <- Hm, drop_app_length.
Qed.

Lemma blit_app_r (pre src dst : list A) (n : nat) :
  blit (length pre + n) src (pre ++ dst) = pre ++ blit n src dst.
Proof.
  unfold blit. rewrite length_app, take_app_add, <- !app_assoc. f_equal. f_equal. f_equal; [f_equal; lia|].
  rewrite drop_app_ge by lia. f_equal. lia.
Qed.

Lemma slice_app (pre mid post : list A) :
  slice (length pre) (length pre + length mid) (pre ++ mid ++ post) = mid.
Proof.
  unfold slice. rewrite drop_app_length.
  replace (length pre + length mid - length pre)%nat with (length mid) by lia.
  by rewrite take_app_length.
Qed.

Lemma slice_app' (pre mid post : list A) a n :
  length pre = a -> length mid = n -> slice a (a + n) (pre ++ mid ++ post) = mid.
Proof. intros <- <-. apply slice_app. Qed.

Lemma length_slice lo hi l :
  (lo <= hi <= length l)%nat -> length (slice lo hi l) = (hi - lo)%nat.
Proof. intros H. unfold slice. rewrite length_take, length_drop. lia. Qed.

(** Reading beside what [blit] wrote, and reading it. *)
Lemma slice_blit_other pos src dst a b :
  (pos + length src <= length dst)%nat -> (b <= pos \/ pos + length src <= a)%nat ->
  slice a b (blit pos src dst) = slice a b dst.
Proof.
  intros Hl Hd. assert (Ht : length (take pos dst) = pos) by (rewrite length_take; lia).
  assert (Hs : blit pos src dst = take pos dst ++ src ++ drop (pos + length src) dst)
    by (unfold blit; by rewrite (take_ge src) by lia).
  unfold slice. rewrite Hs. destruct Hd as [Hd|Hd].
  - destruct (decide (b <= a)%nat); [by replace (b - a)%nat with O by lia|].
    rewrite drop_app_le by lia. rewrite take_app_le by (rewrite length_drop; lia).
    rewrite !take_drop_commute, take_take. f_equal. f_equal. lia.
  - rewrite app_assoc, drop_app_ge by (rewrite length_app; lia). rewrite length_app, drop_drop, Ht.
    f_equal. f_equal. lia.
Qed.

Lemma slice_blit_same pos src dst :
  (pos + length src <= length dst)%nat -> slice pos (pos + length src) (blit pos src dst) = src.
Proof.
  intros Hl. unfold blit. rewrite (take_ge src) by lia. apply slice_app'; [|done]. rewrite length_take. lia.
Qed.

End slice_lemmas.

Lemma blit_zeros src n :
  (length src <= n)%nat -> blit 0 src (zeros n) = src ++ zeros (n - length src).
Proof.
  intros H. unfold blit, zeros. rewrite length_replicate, take_0, take_ge by lia.
  by rewrite drop_replicate.
Qed.

Lemma store_head {E A} (x y : A) l : store (E := E) (x :: l) 0 y = Ret (y :: l).
Proof. unfold store. by rewrite decide_True by (simpl; lia). Qed.

Lemma elem_of_concat {A} (x : A) (ls : list (list A)) :
  x ∈ concat ls <-> exists l, x ∈ l /\ l ∈ ls.
Proof.
  rewrite list_elem_of_In, in_concat. split; intros (l & H1 & H2); exists l;
    rewrite !list_elem_of_In in *; auto.
Qed.

Lemma prefix_snoc_inv {A} (k l : list A) x :
  k `prefix_of` l ++ [x] -> k = l ++ [x] \/ k `prefix_of` l.
Proof.
  intros [m E]. destruct m as [|y m _] using rev_ind; [rewrite app_nil_r in E; auto|].
  rewrite app_assoc in E. apply app_inj_tail in E as [-> _]. right. by exists m.
Qed.

Create HintDb briefs.
Create Rewrite HintDb briefs_len.
#[export] Hint Resolve bytes_zeros bytes_le_put bytes_take bytes_drop : briefs.
#[export] Hint Resolve u64_range u32_range u16_range : briefs.
#[export] Hint Rewrite length_le_put length_zeros @length_app @length_take
  @length_drop @length_insert : briefs_len.

(** Lengths: rewrite them all, then linear arithmetic. *)
Ltac len := autorewrite with briefs_len in *; simpl length in *; lia.

Lemma size_list_le (l : list Z) : (size (list_to_set l : gset Z) <= length l)%nat.
Proof.
  induction l as [|x l IH]; [done|]. cbn. rewrite size_union_alt, size_singleton.
  pose proof (subseteq_size (list_to_set l ∖ {[x]} : gset Z) (list_to_set l) ltac:(set_solver)). lia.
Qed.

(** ** Byte slices *)
Definition xlen (buf : list Z) : Z := Z.of_nat (length buf).

(** [copy(buf[off:], src)] and [l[lo:hi]]. *)
Definition copy_at {E} (buf : list Z) (off : Z) (src : list Z) : res E (list Z) :=
  if off <=? xlen buf then Ret (blit (Z.to_nat off) src buf) else Panic.
Definition subslice {E} (l : list Z) (lo hi : Z) : res E (list Z) :=
  if (lo <=? hi) && (hi <=? xlen l) then Ret (slice (Z.to_nat lo) (Z.to_nat hi) l) else Panic.

Lemma copy_at_ok {E} buf off src : off <= xlen buf -> copy_at (E := E) buf off src = Ret (blit (Z.to_nat off) src buf).
Proof. intros H. unfold copy_at. by rewrite (proj2 (Z.leb_le _ _) H). Qed.
Lemma subslice_ok {E} l lo hi : lo <= hi <= xlen l -> subslice (E := E) l lo hi = Ret (slice (Z.to_nat lo) (Z.to_nat hi) l).
Proof. intros [H1 H2]. unfold subslice. by rewrite (proj2 (Z.leb_le _ _) H1), (proj2 (Z.leb_le _ _) H2). Qed.
