(* ===== verification/Codec.v ===== *)
(** * The on-disk codec (briefs/gen_disk.go)

    The 23 on-disk structures, the [MarshalBinary] and [UnmarshalBinary]
    methods that cmd/gendisk generates for them, and the proof that they are
    inverse to each other on values that fit their fields.  A structure is an
    instance of [Codec]: its size, the sequence of writes of its
    [MarshalBinary], and the sequence of reads of its [UnmarshalBinary].  The
    two sequences are transcribed separately, since the generated code has
    them separately; [CodecOk] states that they agree. *)

From stdpp Require Import base numbers list option.
From Stdlib Require Import ZArith Lia.
From S2P Require Import Prelude.

Local Open Scope Z_scope.

(** [fmt.Errorf("... data too short: %d < %d", len(data), s.Size())] *)
Inductive codec_error :=
| ErrTooShort (have want : nat).

(** ** Writing *)

(** One write of a [MarshalBinary]: an integer of [n] bytes, or the copy of a
    byte array of [n] bytes. *)
Inductive field :=
| PutUint (n : nat) (v : Z)
| PutBytes (n : nat) (l : list Z).

Abbreviation PutUint8 := (PutUint 1).
Abbreviation PutUint16 := (PutUint 2).
Abbreviation PutUint32 := (PutUint 4).
Abbreviation PutUint64 := (PutUint 8).

Definition field_width (f : field) : nat :=
  match f with PutUint n _ => n | PutBytes n _ => n end.

Definition field_bytes (f : field) : list Z :=
  match f with PutUint n v => le_put n v | PutBytes _ l => l end.

Definition field_ok (f : field) : Prop :=
  match f with
  | PutUint n v => 0 <= v < 2 ^ (8 * Z.of_nat n)
  | PutBytes n l => length l = n /\ bytes l
  end.

(** One write at [pos]: [binary.LittleEndian.PutUint..(data[pos:], v)] panics
    when fewer than [n] bytes are left; [copy(data[pos:], l[:])] panics only
    when [pos] is beyond the end.  Both are followed by [pos += n]. *)
Definition put_field (c : list Z * nat) (f : field) : res codec_error (list Z * nat) :=
  let '(data, pos) := c in
  match f with
  | PutUint n v =>
      if decide (pos + n <= length data)%nat
      then Ret (blit pos (le_put n v) data, (pos + n)%nat) else Panic
  | PutBytes n l =>
      if decide (pos <= length data)%nat
      then Ret (blit pos l data, (pos + n)%nat) else Panic
  end.

Fixpoint put_fields (c : list Z * nat) (fs : list field) : res codec_error (list Z * nat) :=
  match fs with
  | [] => Ret c
  | f :: fs' => c' ← put_field c f; put_fields c' fs'
  end.

(** ** Reading *)

(** A reader consumes a prefix of [data[pos:]] and returns what is left. *)
Definition dec (A : Type) : Type := list Z -> res codec_error (A * list Z).

#[export] Instance dec_ret : MRet dec := fun A a data => Ret (a, data).
#[export] Instance dec_bind : MBind dec := fun A B f d data =>
  '(a, data') ← d data; f a data'.

Definition Uint (n : nat) : dec Z := fun data =>
  if decide (n <= length data)%nat
  then Ret (le_get (take n data), drop n data) else Panic.

Abbreviation Uint8 := (Uint 1).
Abbreviation Uint16 := (Uint 2).
Abbreviation Uint32 := (Uint 4).
Abbreviation Uint64 := (Uint 8).

(** [copy(s.Field[:], data[pos:pos+n])] for a field that is an [n]-byte array *)
Definition Bytes (n : nat) : dec (list Z) := fun data =>
  if decide (n <= length data)%nat
  then Ret (take n data, drop n data) else Panic.

(** The loop over an array field of [k] integers of [n] bytes. *)
Fixpoint Uints (n k : nat) : dec (list Z) :=
  match k with
  | O => mret []
  | S k' => v ← Uint n; vs ← Uints n k'; mret (v :: vs)
  end.

(** ** Structures *)
Class Codec (A : Type) := {
  Size : nat;
  fields : A -> list field;
  decoder : dec A;
}.
Arguments Size A {_}.

Definition MarshalBinary {A} `{Codec A} (s : A) : res codec_error (list Z) :=
  '(data, _) ← put_fields (zeros (Size A), O) (fields s); Ret data.

Definition UnmarshalBinary {A} `{Codec A} (data : list Z) : res codec_error A :=
  if decide (length data < Size A)%nat
  then Err (ErrTooShort (length data) (Size A))
  else '(s, _) ← decoder data; Ret s.

(** [b, _ := r.MarshalBinary(); return b], the body of the [Marshal]
    adapters: the error is nil for every value that fits its fields. *)
Definition Marshal {A} `{Codec A} (r : A) : list Z :=
  match MarshalBinary r with Ret b => b | _ => [] end.

(** [r := &T{}; if err := r.UnmarshalBinary(b); err != nil { return nil }; return r] *)
Definition unmarshal {A} `{Codec A} (b : list Z) : res codec_error (option A) :=
  match UnmarshalBinary b with
  | Ret r => Ret (Some r)
  | Err _ => Ret None
  | Panic => Panic
  end.

(** [var x T; _ = x.UnmarshalBinary(b)]: a short buffer leaves the zero value. *)
Definition unmarshal_into {A} `{Codec A} (zero : A) (b : list Z) : A :=
  match UnmarshalBinary b with Ret x => x | _ => zero end.

(** The bytes of a structure, in order. *)
Definition encode {A} `{Codec A} (s : A) : list Z := concat (field_bytes <$> fields s).

(** Every field fits its width, and the array fields have their length. *)
Definition codec_wf {A} `{Codec A} (s : A) : Prop :=
  Forall field_ok (fields s) /\ sum_list (field_width <$> fields s) = Size A.

(** What a structure's reads owe to its writes. *)
Class CodecOk (A : Type) `{Codec A} : Prop := {
  decode_encode (s : A) rest :
    codec_wf s -> decoder (encode s ++ rest) = Ret (s, rest);
  decode_total data :
    bytes data -> (Size A <= length data)%nat ->
    exists s rest, decoder data = Ret (s, rest) /\ codec_wf s /\ data = encode s ++ rest;
}.

(** ** Generic lemmas *)

Lemma field_bytes_length f : field_ok f -> length (field_bytes f) = field_width f.
Proof. destruct f; simpl; [by rewrite length_le_put | tauto]. Qed.

Lemma field_bytes_bytes f : field_ok f -> bytes (field_bytes f).
Proof. destruct f; simpl; [intros; apply bytes_le_put | tauto]. Qed.

Lemma fields_length fs :
  Forall field_ok fs ->
  length (concat (field_bytes <$> fs)) = sum_list (field_width <$> fs).
Proof.
  induction 1 as [|f fs Hf _ IH]; [done|]. csimpl.
  by rewrite length_app, IH, field_bytes_length.
Qed.

Lemma put_field_app pre f (post : nat) :
  field_ok f ->
  put_field (pre ++ zeros (field_width f + post), length pre) f
  = Ret (pre ++ field_bytes f ++ zeros post, (length pre + field_width f)%nat).
Proof.
  intros Hf. pose proof (field_bytes_length f Hf) as Hl. rewrite zeros_app.
  assert (Hb : blit (length pre) (field_bytes f)
     (pre ++ zeros (field_width f) ++ zeros post) = pre ++ field_bytes f ++ zeros post)
    by (apply blit_app; by rewrite length_zeros).
  destruct f as [n v|n l]; simpl in *; rewrite Hb;
    rewrite decide_True by (rewrite !length_app, !length_zeros; lia); done.
Qed.

#[local] Arguments put_field : simpl never.

Lemma put_fields_app fs : forall pre,
  Forall field_ok fs ->
  put_fields (pre ++ zeros (sum_list (field_width <$> fs)), length pre) fs
  = Ret (pre ++ concat (field_bytes <$> fs),
         (length pre + sum_list (field_width <$> fs))%nat).
Proof.
  induction fs as [|f fs IH]; intros pre Hfs; csimpl.
  - unfold zeros. simpl. by rewrite !app_nil_r, Nat.add_0_r.
  - apply Forall_cons_1 in Hfs as [Hf Hfs]. rewrite put_field_app by done. csimpl.
    pose proof (field_bytes_length f Hf) as Hl.
    specialize (IH (pre ++ field_bytes f) Hfs).
    rewrite length_app, Hl, <- !app_assoc in IH. unfold mbind, res_bind.
    rewrite IH. f_equal. f_equal. lia.
Qed.

Lemma Uint_app n v rest :
  0 <= v < 2 ^ (8 * Z.of_nat n) -> Uint n (le_put n v ++ rest) = Ret (v, rest).
Proof.
  intros Hv. unfold Uint. rewrite decide_True by len.
  rewrite take_app_length', drop_app_length' by (symmetry; apply length_le_put).
  by rewrite le_get_put.
Qed.

Lemma Bytes_app n l rest : length l = n -> Bytes n (l ++ rest) = Ret (l, rest).
Proof.
  intros <-. unfold Bytes. rewrite decide_True by len.
  by rewrite take_app_length, drop_app_length.
Qed.

Lemma Uints_app n k vs rest :
  length vs = k -> Forall field_ok (PutUint n <$> vs) ->
  Uints n k (concat (field_bytes <$> (PutUint n <$> vs)) ++ rest) = Ret (vs, rest).
Proof.
  intros <-. induction vs as [|v vs IH]; intros Hok; [done|].
  csimpl in *. apply Forall_cons_1 in Hok as [Hv Hok]. simpl in Hv.
  unfold mbind, dec_bind, mbind, res_bind. rewrite <- app_assoc, Uint_app by done.
  by rewrite IH.
Qed.

Lemma Uint_total n data :
  bytes data -> (n <= length data)%nat ->
  exists v rest, Uint n data = Ret (v, rest) /\ data = le_put n v ++ rest /\
    0 <= v < 2 ^ (8 * Z.of_nat n) /\ bytes rest.
Proof.
  intros Hb Hn. assert (Ht : length (take n data) = n) by len.
  pose proof (bytes_take n data Hb) as Hbt.
  pose proof (le_put_get _ Hbt) as Hp. pose proof (le_get_range _ Hbt) as Hr.
  rewrite Ht in Hp, Hr.
  exists (le_get (take n data)), (drop n data). unfold Uint. rewrite decide_True by lia.
  split_and!; auto with briefs; try lia. by rewrite Hp, take_drop.
Qed.

Lemma Bytes_total n data :
  bytes data -> (n <= length data)%nat ->
  exists l rest, Bytes n data = Ret (l, rest) /\ data = l ++ rest /\
    length l = n /\ bytes l /\ bytes rest.
Proof.
  intros Hb Hn. exists (take n data), (drop n data). unfold Bytes.
  rewrite decide_True by lia.
  split_and!; auto with briefs; [by rewrite take_drop | len].
Qed.

Lemma Uints_total n k : forall data,
  bytes data -> (k * n <= length data)%nat ->
  exists vs rest, Uints n k data = Ret (vs, rest) /\
    data = concat (field_bytes <$> (PutUint n <$> vs)) ++ rest /\
    length vs = k /\ Forall field_ok (PutUint n <$> vs) /\ bytes rest.
Proof.
  induction k as [|k IH]; intros data Hb Hn.
  - exists [], data. by split_and!; try constructor.
  - destruct (Uint_total n data) as (v & r & E & -> & Hv & Hr); [done|lia|].
    destruct (IH r) as (vs & r' & E' & -> & Hl & Hok & Hr'); [done|len|].
    exists (v :: vs), r'. simpl. unfold mbind, dec_bind, mbind, res_bind.
    rewrite E, E'. csimpl. rewrite <- app_assoc.
    split_and!; try done; [lia | by constructor].
Qed.

(** ** Step lemmas for the instances

    [decodes d fs s]: reading the bytes of the writes [fs] gives [s].
    [yields d m R]: reading [m] bytes succeeds, and the value read and the
    writes that would produce those bytes are related by [R]. *)
Section steps.
Context {A : Type}.

Definition decodes (d : dec A) (fs : list field) (s : A) : Prop :=
  forall rest, d (concat (field_bytes <$> fs) ++ rest) = Ret (s, rest).

Definition yields (d : dec A) (m : nat) (R : A -> list field -> Prop) : Prop :=
  forall data, bytes data -> (m <= length data)%nat ->
  exists s fs rest, d data = Ret (s, rest) /\ data = concat (field_bytes <$> fs) ++ rest /\
    Forall field_ok fs /\ sum_list (field_width <$> fs) = m /\ R s fs.

Lemma decodes_ret s : decodes (mret s) [] s.
Proof. by intros rest. Qed.

Lemma decodes_Uint n v (k : Z -> dec A) fs s :
  field_ok (PutUint n v) -> decodes (k v) fs s ->
  decodes (v' ← Uint n; k v') (PutUint n v :: fs) s.
Proof.
  intros Hv Hk rest. csimpl. unfold mbind at 1, dec_bind.
  rewrite <- app_assoc, Uint_app by done. apply Hk.
Qed.

Lemma decodes_Bytes n l (k : list Z -> dec A) fs s :
  field_ok (PutBytes n l) -> decodes (k l) fs s ->
  decodes (l' ← Bytes n; k l') (PutBytes n l :: fs) s.
Proof.
  intros Hl Hk rest. csimpl. unfold mbind at 1, dec_bind.
  rewrite <- app_assoc, Bytes_app by apply Hl. apply Hk.
Qed.

Lemma decodes_Uints n m vs (k : list Z -> dec A) fs s :
  length vs = m -> Forall field_ok (PutUint n <$> vs) -> decodes (k vs) fs s ->
  decodes (vs' ← Uints n m; k vs') ((PutUint n <$> vs) ++ fs) s.
Proof.
  intros Hl Hok Hk rest. rewrite fmap_app, concat_app, <- app_assoc.
  unfold mbind at 1, dec_bind. rewrite Uints_app by done. apply Hk.
Qed.

Lemma yields_ret s (R : A -> list field -> Prop) : R s [] -> yields (mret s) 0 R.
Proof. intros HR data _ _. exists s, [], data. by split_and!; try constructor. Qed.

Lemma yields_Uint n m (k : Z -> dec A) R :
  (n <= m)%nat ->
  (forall v, yields (k v) (m - n) (fun s fs => R s (PutUint n v :: fs))) ->
  yields (v ← Uint n; k v) m R.
Proof.
  intros Hnm Hk data Hb Hl.
  destruct (Uint_total n data) as (v & r & E & -> & Hv & Hr); [done|lia|].
  destruct (Hk v r) as (s & fs & rest & Ek & -> & Hok & Hw & HR); [done|len|].
  exists s, (PutUint n v :: fs), rest. unfold mbind at 1, dec_bind. rewrite E. csimpl.
  rewrite <- app_assoc. split_and!; try done; [by constructor | lia].
Qed.

Lemma yields_Bytes n m (k : list Z -> dec A) R :
  (n <= m)%nat ->
  (forall l, yields (k l) (m - n) (fun s fs => R s (PutBytes n l :: fs))) ->
  yields (l ← Bytes n; k l) m R.
Proof.
  intros Hnm Hk data Hb Hl.
  destruct (Bytes_total n data) as (l & r & E & -> & Hn & Hbl & Hr); [done|lia|].
  destruct (Hk l r) as (s & fs & rest & Ek & -> & Hok & Hw & HR); [done|len|].
  exists s, (PutBytes n l :: fs), rest. unfold mbind at 1, dec_bind. rewrite E. csimpl.
  rewrite <- app_assoc. split_and!; try done; [by constructor | lia].
Qed.

Lemma sum_widths_Uints n (vs : list Z) :
  sum_list (field_width <$> (PutUint n <$> vs)) = (length vs * n)%nat.
Proof. induction vs; csimpl; lia. Qed.

Lemma yields_Uints n j m (k : list Z -> dec A) R :
  (j * n <= m)%nat ->
  (forall vs, yields (k vs) (m - j * n) (fun s fs => R s ((PutUint n <$> vs) ++ fs))) ->
  yields (vs ← Uints n j; k vs) m R.
Proof.
  intros Hnm Hk data Hb Hl.
  destruct (Uints_total n j data) as (vs & r & E & -> & Hn & Hok1 & Hr); [done|lia|].
  pose proof (fields_length _ Hok1) as Hw1. rewrite sum_widths_Uints, Hn in Hw1.
  destruct (Hk vs r) as (s & fs & rest & Ek & -> & Hok & Hw & HR); [done|len|].
  exists s, ((PutUint n <$> vs) ++ fs), rest. unfold mbind at 1, dec_bind. rewrite E.
  rewrite !fmap_app, concat_app, <- app_assoc, sum_list_with_app.
  split_and!; try done; [by apply Forall_app |].
  rewrite sum_widths_Uints. lia.
Qed.

End steps.

(** Peel the writes off one by one; the side conditions are the well-formedness
    of the value. *)
Ltac peel Hok :=
  repeat match type of Hok with
  | Forall _ (_ :: _) => let H := fresh "Hf" in apply Forall_cons_1 in Hok as [H Hok]
  | Forall _ (_ ++ _) => let H := fresh "Hf" in apply Forall_app in Hok as [H Hok]
  end.

Ltac solve_decodes :=
  repeat first
    [ simple apply decodes_Uint; [assumption|]
    | simple apply decodes_Bytes; [assumption|]
    | simple apply decodes_Uints; [lia|assumption|]
    | simple apply decodes_ret ].

Ltac solve_yields :=
  repeat first
    [ simple apply yields_Uint; [lia | intros ?; simpl Nat.sub]
    | simple apply yields_Bytes; [lia | intros ?; simpl Nat.sub]
    | simple apply yields_Uints; [lia | intros ?; simpl Nat.sub]
    | simple apply yields_ret; reflexivity ].

Lemma codec_ok_intro {A} `{Codec A} :
  (forall s, codec_wf s -> decodes decoder (fields s) s) ->
  yields decoder (Size A) (fun s fs => fs = fields s) ->
  CodecOk A.
Proof.
  intros Hd Hy. split.
  - intros s rest Hs. by apply Hd.
  - intros data Hb Hl. destruct (Hy data Hb Hl) as (s & fs & rest & E & Hdata & Hok & Hw & ->).
    by exists s, rest.
Qed.

Tactic Notation "codec_ok" reference(inst) reference(marshal) reference(unmarshal) :=
  apply codec_ok_intro; unfold codec_wf, fields, decoder, Size, inst;
  [ let s := fresh "s" in let Hok := fresh "Hok" in let Hw := fresh "Hw" in
    intros s [Hok Hw]; destruct s; unfold marshal, unmarshal in *;
    repeat rewrite ?fmap_app, ?fmap_cons, ?sum_list_with_app, ?sum_widths_Uints in Hw;
    cbn -[fmap field_ok Uint Bytes Uints mbind mret] in Hok |- *;
    cbn in Hw; peel Hok; solve_decodes
  | unfold marshal, unmarshal; solve_yields ].

(** ** AllocHeader *)
Record AllocHeader := mkAllocHeader {
  ah_Magic : Z; ah_Version : Z; ah_L0Words : Z; ah_L1Words : Z;
  ah_L2Words : Z; ah_BlockCount : Z; ah_FreeCount : Z;
}.

Definition AllocHeader_MarshalBinary (s : AllocHeader) : list field :=
  [PutUint32 (ah_Magic s);
   PutUint32 (ah_Version s);
   PutUint64 (ah_L0Words s);
   PutUint64 (ah_L1Words s);
   PutUint64 (ah_L2Words s);
   PutUint64 (ah_BlockCount s);
   PutUint64 (ah_FreeCount s)].

Definition AllocHeader_UnmarshalBinary : dec AllocHeader :=
  Magic ← Uint32;
  Version ← Uint32;
  L0Words ← Uint64;
  L1Words ← Uint64;
  L2Words ← Uint64;
  BlockCount ← Uint64;
  FreeCount ← Uint64;
  mret (mkAllocHeader Magic Version L0Words L1Words L2Words BlockCount
    FreeCount).

#[export] Instance AllocHeader_codec : Codec AllocHeader :=
  {| Size := 48; fields := AllocHeader_MarshalBinary; decoder := AllocHeader_UnmarshalBinary |}.

#[export] Instance AllocHeader_codec_ok : CodecOk AllocHeader.
Proof. codec_ok AllocHeader_codec AllocHeader_MarshalBinary AllocHeader_UnmarshalBinary. Qed.

(** ** BtreeIdxEntry *)
Record BtreeIdxEntry := mkBtreeIdxEntry {
  bi_Child : Z; bi_HighKey : Z;
}.

Definition BtreeIdxEntry_MarshalBinary (s : BtreeIdxEntry) : list field :=
  [PutUint64 (bi_Child s);
   PutUint64 (bi_HighKey s)].

Definition BtreeIdxEntry_UnmarshalBinary : dec BtreeIdxEntry :=
  Child ← Uint64;
  HighKey ← Uint64;
  mret (mkBtreeIdxEntry Child HighKey).

#[export] Instance BtreeIdxEntry_codec : Codec BtreeIdxEntry :=
  {| Size := 16; fields := BtreeIdxEntry_MarshalBinary; decoder := BtreeIdxEntry_UnmarshalBinary |}.

#[export] Instance BtreeIdxEntry_codec_ok : CodecOk BtreeIdxEntry.
Proof. codec_ok BtreeIdxEntry_codec BtreeIdxEntry_MarshalBinary BtreeIdxEntry_UnmarshalBinary. Qed.

(** ** BtreeNodeHeader *)
Record BtreeNodeHeader := mkBtreeNodeHeader {
  bn_Magic : Z; bn_Flags : Z; bn_Level : Z; bn_NumKeys : Z; bn__Pad : Z;
  bn_NextLeaf : Z;
}.

Definition BtreeNodeHeader_MarshalBinary (s : BtreeNodeHeader) : list field :=
  [PutUint32 (bn_Magic s);
   PutUint32 (bn_Flags s);
   PutUint16 (bn_Level s);
   PutUint16 (bn_NumKeys s);
   PutUint32 (bn__Pad s);
   PutUint64 (bn_NextLeaf s)].

Definition BtreeNodeHeader_UnmarshalBinary : dec BtreeNodeHeader :=
  Magic ← Uint32;
  Flags ← Uint32;
  Level ← Uint16;
  NumKeys ← Uint16;
  _Pad ← Uint32;
  NextLeaf ← Uint64;
  mret (mkBtreeNodeHeader Magic Flags Level NumKeys _Pad NextLeaf).

#[export] Instance BtreeNodeHeader_codec : Codec BtreeNodeHeader :=
  {| Size := 24; fields := BtreeNodeHeader_MarshalBinary; decoder := BtreeNodeHeader_UnmarshalBinary |}.

#[export] Instance BtreeNodeHeader_codec_ok : CodecOk BtreeNodeHeader.
Proof. codec_ok BtreeNodeHeader_codec BtreeNodeHeader_MarshalBinary BtreeNodeHeader_UnmarshalBinary. Qed.

(** ** Checkpoint *)
Record Checkpoint := mkCheckpoint {
  cp_Seq : Z; cp_RecordCount : Z; cp_Reserved1 : Z; cp_LogSequenceEnd : Z;
  cp_TrieRootNode : Z; cp_FreeDataCount : Z; cp_FreeInodeCount : Z;
  cp_Reserved2 : Z;
}.

Definition Checkpoint_MarshalBinary (s : Checkpoint) : list field :=
  [PutUint64 (cp_Seq s);
   PutUint32 (cp_RecordCount s);
   PutUint32 (cp_Reserved1 s);
   PutUint64 (cp_LogSequenceEnd s);
   PutUint64 (cp_TrieRootNode s);
   PutUint64 (cp_FreeDataCount s);
   PutUint64 (cp_FreeInodeCount s);
   PutUint64 (cp_Reserved2 s)].

Definition Checkpoint_UnmarshalBinary : dec Checkpoint :=
  Seq ← Uint64;
  RecordCount ← Uint32;
  Reserved1 ← Uint32;
  LogSequenceEnd ← Uint64;
  TrieRootNode ← Uint64;
  FreeDataCount ← Uint64;
  FreeInodeCount ← Uint64;
  Reserved2 ← Uint64;
  mret (mkCheckpoint Seq RecordCount Reserved1 LogSequenceEnd TrieRootNode
    FreeDataCount FreeInodeCount Reserved2).

#[export] Instance Checkpoint_codec : Codec Checkpoint :=
  {| Size := 56; fields := Checkpoint_MarshalBinary; decoder := Checkpoint_UnmarshalBinary |}.

#[export] Instance Checkpoint_codec_ok : CodecOk Checkpoint.
Proof. codec_ok Checkpoint_codec Checkpoint_MarshalBinary Checkpoint_UnmarshalBinary. Qed.

(** ** Extent *)
Record Extent := mkExtent {
  ext_Offset : Z; ext_Phys : Z; ext_Len : Z; ext_Flags : Z; ext_Pad : Z;
}.

Definition Extent_MarshalBinary (s : Extent) : list field :=
  [PutUint64 (ext_Offset s);
   PutUint64 (ext_Phys s);
   PutUint64 (ext_Len s);
   PutUint32 (ext_Flags s);
   PutUint32 (ext_Pad s)].

Definition Extent_UnmarshalBinary : dec Extent :=
  Offset ← Uint64;
  Phys ← Uint64;
  Len ← Uint64;
  Flags ← Uint32;
  Pad ← Uint32;
  mret (mkExtent Offset Phys Len Flags Pad).

#[export] Instance Extent_codec : Codec Extent :=
  {| Size := 32; fields := Extent_MarshalBinary; decoder := Extent_UnmarshalBinary |}.

#[export] Instance Extent_codec_ok : CodecOk Extent.
Proof. codec_ok Extent_codec Extent_MarshalBinary Extent_UnmarshalBinary. Qed.

(** ** Inode *)
Record Inode := mkInode {
  ino_InodeNumber : Z; ino_Magic : Z; ino_Filemode : Z; ino_Uid : Z;
  ino_Gid : Z; ino__Pad0 : Z; ino_FileSize : Z; ino_CtimeSec : Z;
  ino_CtimeNsec : Z; ino_AtimeSec : Z; ino_AtimeNsec : Z; ino_MtimeSec : Z;
  ino_MtimeNsec : Z; ino_CreationTimeSec : Z; ino_CreationTimeNsec : Z;
  ino_Nlinks : Z; ino_NumExtentsInline : Z; ino_ExtentInlineBase : Z;
  ino_NumExtentsTotal : Z; ino_inlineRegion : list Z; ino_XattrOffset : Z;
  ino_XattrSize : Z; ino_ParentInode : Z; ino_Unused : Z; ino_Flags : Z;
  ino_DirTrieRoot : Z; ino_Rdev : Z; ino_Generation : Z; ino_UserFlags : Z;
  ino_Reserved : list Z;
}.

Definition Inode_MarshalBinary (s : Inode) : list field :=
  [PutUint64 (ino_InodeNumber s);
   PutUint64 (ino_Magic s);
   PutUint32 (ino_Filemode s);
   PutUint32 (ino_Uid s);
   PutUint32 (ino_Gid s);
   PutUint32 (ino__Pad0 s);
   PutUint64 (ino_FileSize s);
   PutUint64 (ino_CtimeSec s);
   PutUint64 (ino_CtimeNsec s);
   PutUint64 (ino_AtimeSec s);
   PutUint64 (ino_AtimeNsec s);
   PutUint64 (ino_MtimeSec s);
   PutUint64 (ino_MtimeNsec s);
   PutUint64 (ino_CreationTimeSec s);
   PutUint64 (ino_CreationTimeNsec s);
   PutUint32 (ino_Nlinks s);
   PutUint32 (ino_NumExtentsInline s);
   PutUint64 (ino_ExtentInlineBase s);
   PutUint64 (ino_NumExtentsTotal s);
   PutBytes 256 (ino_inlineRegion s);
   PutUint64 (ino_XattrOffset s);
   PutUint64 (ino_XattrSize s);
   PutUint64 (ino_ParentInode s);
   PutUint32 (ino_Unused s);
   PutUint32 (ino_Flags s);
   PutUint64 (ino_DirTrieRoot s);
   PutUint64 (ino_Rdev s);
   PutUint64 (ino_Generation s);
   PutUint32 (ino_UserFlags s);
   PutBytes 68 (ino_Reserved s)].

Definition Inode_UnmarshalBinary : dec Inode :=
  InodeNumber ← Uint64;
  Magic ← Uint64;
  Filemode ← Uint32;
  Uid ← Uint32;
  Gid ← Uint32;
  _Pad0 ← Uint32;
  FileSize ← Uint64;
  CtimeSec ← Uint64;
  CtimeNsec ← Uint64;
  AtimeSec ← Uint64;
  AtimeNsec ← Uint64;
  MtimeSec ← Uint64;
  MtimeNsec ← Uint64;
  CreationTimeSec ← Uint64;
  CreationTimeNsec ← Uint64;
  Nlinks ← Uint32;
  NumExtentsInline ← Uint32;
  ExtentInlineBase ← Uint64;
  NumExtentsTotal ← Uint64;
  inlineRegion ← Bytes 256;
  XattrOffset ← Uint64;
  XattrSize ← Uint64;
  ParentInode ← Uint64;
  Unused ← Uint32;
  Flags ← Uint32;
  DirTrieRoot ← Uint64;
  Rdev ← Uint64;
  Generation ← Uint64;
  UserFlags ← Uint32;
  Reserved ← Bytes 68;
  mret (mkInode InodeNumber Magic Filemode Uid Gid _Pad0 FileSize CtimeSec
    CtimeNsec AtimeSec AtimeNsec MtimeSec MtimeNsec CreationTimeSec
    CreationTimeNsec Nlinks NumExtentsInline ExtentInlineBase
    NumExtentsTotal inlineRegion XattrOffset XattrSize ParentInode Unused
    Flags DirTrieRoot Rdev Generation UserFlags Reserved).

#[export] Instance Inode_codec : Codec Inode :=
  {| Size := 512; fields := Inode_MarshalBinary; decoder := Inode_UnmarshalBinary |}.

#[export] Instance Inode_codec_ok : CodecOk Inode.
Proof. codec_ok Inode_codec Inode_MarshalBinary Inode_UnmarshalBinary. Qed.

(** ** JournalBlockHeader *)
Record JournalBlockHeader := mkJournalBlockHeader {
  jb_Magic : Z; jb_BlockSeq : Z; jb_RecordCount : Z; jb_Reserved : Z;
}.

Definition JournalBlockHeader_MarshalBinary (s : JournalBlockHeader) : list field :=
  [PutUint32 (jb_Magic s);
   PutUint32 (jb_BlockSeq s);
   PutUint32 (jb_RecordCount s);
   PutUint32 (jb_Reserved s)].

Definition JournalBlockHeader_UnmarshalBinary : dec JournalBlockHeader :=
  Magic ← Uint32;
  BlockSeq ← Uint32;
  RecordCount ← Uint32;
  Reserved ← Uint32;
  mret (mkJournalBlockHeader Magic BlockSeq RecordCount Reserved).

#[export] Instance JournalBlockHeader_codec : Codec JournalBlockHeader :=
  {| Size := 16; fields := JournalBlockHeader_MarshalBinary; decoder := JournalBlockHeader_UnmarshalBinary |}.

#[export] Instance JournalBlockHeader_codec_ok : CodecOk JournalBlockHeader.
Proof. codec_ok JournalBlockHeader_codec JournalBlockHeader_MarshalBinary JournalBlockHeader_UnmarshalBinary. Qed.

(** ** JrnDirUpdate *)
Record JrnDirUpdate := mkJrnDirUpdate {
  jdu_ParentIno : Z; jdu_ChildIno : Z; jdu_NameLen : Z; jdu_Name : list Z;
  jdu_Op : Z; jdu_FType : Z; jdu_Reserved : list Z; jdu__Pad : list Z;
}.

Definition JrnDirUpdate_MarshalBinary (s : JrnDirUpdate) : list field :=
  [PutUint64 (jdu_ParentIno s);
   PutUint64 (jdu_ChildIno s);
   PutUint32 (jdu_NameLen s);
   PutBytes 255 (jdu_Name s);
   PutUint8 (jdu_Op s);
   PutUint8 (jdu_FType s);
   PutBytes 1 (jdu_Reserved s);
   PutBytes 2 (jdu__Pad s)].

Definition JrnDirUpdate_UnmarshalBinary : dec JrnDirUpdate :=
  ParentIno ← Uint64;
  ChildIno ← Uint64;
  NameLen ← Uint32;
  Name ← Bytes 255;
  Op ← Uint8;
  FType ← Uint8;
  Reserved ← Bytes 1;
  _Pad ← Bytes 2;
  mret (mkJrnDirUpdate ParentIno ChildIno NameLen Name Op FType Reserved
    _Pad).

#[export] Instance JrnDirUpdate_codec : Codec JrnDirUpdate :=
  {| Size := 280; fields := JrnDirUpdate_MarshalBinary; decoder := JrnDirUpdate_UnmarshalBinary |}.

#[export] Instance JrnDirUpdate_codec_ok : CodecOk JrnDirUpdate.
Proof. codec_ok JrnDirUpdate_codec JrnDirUpdate_MarshalBinary JrnDirUpdate_UnmarshalBinary. Qed.

(** ** JrnExtentAlloc *)
Record JrnExtentAlloc := mkJrnExtentAlloc {
  jea_Ino : Z; jea_Offset : Z; jea_Length : Z; jea_PhysStart : Z;
  jea_ExtentIndex : Z; jea_Reserved : list Z;
}.

Definition JrnExtentAlloc_MarshalBinary (s : JrnExtentAlloc) : list field :=
  [PutUint64 (jea_Ino s);
   PutUint64 (jea_Offset s);
   PutUint64 (jea_Length s);
   PutUint64 (jea_PhysStart s);
   PutUint32 (jea_ExtentIndex s);
   PutBytes 44 (jea_Reserved s)].

Definition JrnExtentAlloc_UnmarshalBinary : dec JrnExtentAlloc :=
  Ino ← Uint64;
  Offset ← Uint64;
  Length ← Uint64;
  PhysStart ← Uint64;
  ExtentIndex ← Uint32;
  Reserved ← Bytes 44;
  mret (mkJrnExtentAlloc Ino Offset Length PhysStart ExtentIndex
    Reserved).

#[export] Instance JrnExtentAlloc_codec : Codec JrnExtentAlloc :=
  {| Size := 80; fields := JrnExtentAlloc_MarshalBinary; decoder := JrnExtentAlloc_UnmarshalBinary |}.

#[export] Instance JrnExtentAlloc_codec_ok : CodecOk JrnExtentAlloc.
Proof. codec_ok JrnExtentAlloc_codec JrnExtentAlloc_MarshalBinary JrnExtentAlloc_UnmarshalBinary. Qed.

(** ** JrnExtentFree *)
Record JrnExtentFree := mkJrnExtentFree {
  jef_Ino : Z; jef_Offset : Z; jef_PhysStart : Z; jef_Length : Z;
  jef_Reserved : list Z;
}.

Definition JrnExtentFree_MarshalBinary (s : JrnExtentFree) : list field :=
  [PutUint64 (jef_Ino s);
   PutUint64 (jef_Offset s);
   PutUint64 (jef_PhysStart s);
   PutUint64 (jef_Length s);
   PutBytes 48 (jef_Reserved s)].

Definition JrnExtentFree_UnmarshalBinary : dec JrnExtentFree :=
  Ino ← Uint64;
  Offset ← Uint64;
  PhysStart ← Uint64;
  Length ← Uint64;
  Reserved ← Bytes 48;
  mret (mkJrnExtentFree Ino Offset PhysStart Length Reserved).

#[export] Instance JrnExtentFree_codec : Codec JrnExtentFree :=
  {| Size := 80; fields := JrnExtentFree_MarshalBinary; decoder := JrnExtentFree_UnmarshalBinary |}.

#[export] Instance JrnExtentFree_codec_ok : CodecOk JrnExtentFree.
Proof. codec_ok JrnExtentFree_codec JrnExtentFree_MarshalBinary JrnExtentFree_UnmarshalBinary. Qed.

(** ** JrnInodeAlloc *)
Record JrnInodeAlloc := mkJrnInodeAlloc {
  jia_Ino : Z; jia_Mode : Z; jia_Nlink : Z; jia_Uid : Z; jia_Gid : Z;
  jia_Reserved1 : Z; jia__Pad : Z; jia_Reserved2 : Z;
}.

Definition JrnInodeAlloc_MarshalBinary (s : JrnInodeAlloc) : list field :=
  [PutUint64 (jia_Ino s);
   PutUint32 (jia_Mode s);
   PutUint32 (jia_Nlink s);
   PutUint32 (jia_Uid s);
   PutUint32 (jia_Gid s);
   PutUint32 (jia_Reserved1 s);
   PutUint32 (jia__Pad s);
   PutUint64 (jia_Reserved2 s)].

Definition JrnInodeAlloc_UnmarshalBinary : dec JrnInodeAlloc :=
  Ino ← Uint64;
  Mode ← Uint32;
  Nlink ← Uint32;
  Uid ← Uint32;
  Gid ← Uint32;
  Reserved1 ← Uint32;
  _Pad ← Uint32;
  Reserved2 ← Uint64;
  mret (mkJrnInodeAlloc Ino Mode Nlink Uid Gid Reserved1 _Pad Reserved2).

#[export] Instance JrnInodeAlloc_codec : Codec JrnInodeAlloc :=
  {| Size := 40; fields := JrnInodeAlloc_MarshalBinary; decoder := JrnInodeAlloc_UnmarshalBinary |}.

#[export] Instance JrnInodeAlloc_codec_ok : CodecOk JrnInodeAlloc.
Proof. codec_ok JrnInodeAlloc_codec JrnInodeAlloc_MarshalBinary JrnInodeAlloc_UnmarshalBinary. Qed.

(** ** JrnInodeFree *)
Record JrnInodeFree := mkJrnInodeFree {
  jif_Ino : Z; jif_Reserved : list Z; jif__Pad : Z; jif_Reserved2 : Z;
}.

Definition JrnInodeFree_MarshalBinary (s : JrnInodeFree) : list field :=
  [PutUint64 (jif_Ino s)] ++
  (PutUint32 <$> jif_Reserved s) ++
  [PutUint32 (jif__Pad s);
   PutUint64 (jif_Reserved2 s)].

Definition JrnInodeFree_UnmarshalBinary : dec JrnInodeFree :=
  Ino ← Uint64;
  Reserved ← Uints 4 3;
  _Pad ← Uint32;
  Reserved2 ← Uint64;
  mret (mkJrnInodeFree Ino Reserved _Pad Reserved2).

#[export] Instance JrnInodeFree_codec : Codec JrnInodeFree :=
  {| Size := 32; fields := JrnInodeFree_MarshalBinary; decoder := JrnInodeFree_UnmarshalBinary |}.

#[export] Instance JrnInodeFree_codec_ok : CodecOk JrnInodeFree.
Proof. codec_ok JrnInodeFree_codec JrnInodeFree_MarshalBinary JrnInodeFree_UnmarshalBinary. Qed.

(** ** JrnInodeFull *)
Record JrnInodeFull := mkJrnInodeFull {
  jfull_Ino : Z; jfull_InodeData : list Z; jfull_Reserved : list Z;
}.

Definition JrnInodeFull_MarshalBinary (s : JrnInodeFull) : list field :=
  [PutUint64 (jfull_Ino s);
   PutBytes 512 (jfull_InodeData s);
   PutBytes 40 (jfull_Reserved s)].

Definition JrnInodeFull_UnmarshalBinary : dec JrnInodeFull :=
  Ino ← Uint64;
  InodeData ← Bytes 512;
  Reserved ← Bytes 40;
  mret (mkJrnInodeFull Ino InodeData Reserved).

#[export] Instance JrnInodeFull_codec : Codec JrnInodeFull :=
  {| Size := 560; fields := JrnInodeFull_MarshalBinary; decoder := JrnInodeFull_UnmarshalBinary |}.

#[export] Instance JrnInodeFull_codec_ok : CodecOk JrnInodeFull.
Proof. codec_ok JrnInodeFull_codec JrnInodeFull_MarshalBinary JrnInodeFull_UnmarshalBinary. Qed.

(** ** JrnInodeUpdate *)
Record JrnInodeUpdate := mkJrnInodeUpdate {
  jiu_Ino : Z; jiu_Mode : Z; jiu_Nlink : Z; jiu_Uid : Z; jiu_Gid : Z;
  jiu_FileSize : Z; jiu_ATimeSec : Z; jiu_ATimeNsec : Z; jiu_MTimeSec : Z;
  jiu_MTimeNsec : Z; jiu_CTimeSec : Z; jiu_CTimeNsec : Z; jiu_Flags : Z;
  jiu_Reserved : Z; jiu_Generation : Z;
}.

Definition JrnInodeUpdate_MarshalBinary (s : JrnInodeUpdate) : list field :=
  [PutUint64 (jiu_Ino s);
   PutUint32 (jiu_Mode s);
   PutUint32 (jiu_Nlink s);
   PutUint32 (jiu_Uid s);
   PutUint32 (jiu_Gid s);
   PutUint64 (jiu_FileSize s);
   PutUint64 (jiu_ATimeSec s);
   PutUint64 (jiu_ATimeNsec s);
   PutUint64 (jiu_MTimeSec s);
   PutUint64 (jiu_MTimeNsec s);
   PutUint64 (jiu_CTimeSec s);
   PutUint64 (jiu_CTimeNsec s);
   PutUint32 (jiu_Flags s);
   PutUint32 (jiu_Reserved s);
   PutUint64 (jiu_Generation s)].

Definition JrnInodeUpdate_UnmarshalBinary : dec JrnInodeUpdate :=
  Ino ← Uint64;
  Mode ← Uint32;
  Nlink ← Uint32;
  Uid ← Uint32;
  Gid ← Uint32;
  FileSize ← Uint64;
  ATimeSec ← Uint64;
  ATimeNsec ← Uint64;
  MTimeSec ← Uint64;
  MTimeNsec ← Uint64;
  CTimeSec ← Uint64;
  CTimeNsec ← Uint64;
  Flags ← Uint32;
  Reserved ← Uint32;
  Generation ← Uint64;
  mret (mkJrnInodeUpdate Ino Mode Nlink Uid Gid FileSize ATimeSec
    ATimeNsec MTimeSec MTimeNsec CTimeSec CTimeNsec Flags Reserved
    Generation).

#[export] Instance JrnInodeUpdate_codec : Codec JrnInodeUpdate :=
  {| Size := 96; fields := JrnInodeUpdate_MarshalBinary; decoder := JrnInodeUpdate_UnmarshalBinary |}.

#[export] Instance JrnInodeUpdate_codec_ok : CodecOk JrnInodeUpdate.
Proof. codec_ok JrnInodeUpdate_codec JrnInodeUpdate_MarshalBinary JrnInodeUpdate_UnmarshalBinary. Qed.

(** ** JrnSymlinkPrefix *)
Record JrnSymlinkPrefix := mkJrnSymlinkPrefix {
  jsp_Ino : Z; jsp_Phys : Z; jsp_TargetLen : Z;
}.

Definition JrnSymlinkPrefix_MarshalBinary (s : JrnSymlinkPrefix) : list field :=
  [PutUint64 (jsp_Ino s);
   PutUint64 (jsp_Phys s);
   PutUint32 (jsp_TargetLen s)].

Definition JrnSymlinkPrefix_UnmarshalBinary : dec JrnSymlinkPrefix :=
  Ino ← Uint64;
  Phys ← Uint64;
  TargetLen ← Uint32;
  mret (mkJrnSymlinkPrefix Ino Phys TargetLen).

#[export] Instance JrnSymlinkPrefix_codec : Codec JrnSymlinkPrefix :=
  {| Size := 20; fields := JrnSymlinkPrefix_MarshalBinary; decoder := JrnSymlinkPrefix_UnmarshalBinary |}.

#[export] Instance JrnSymlinkPrefix_codec_ok : CodecOk JrnSymlinkPrefix.
Proof. codec_ok JrnSymlinkPrefix_codec JrnSymlinkPrefix_MarshalBinary JrnSymlinkPrefix_UnmarshalBinary. Qed.

(** ** JrnTrieAlloc *)
Record JrnTrieAlloc := mkJrnTrieAlloc {
  jta_Block : Z; jta_Op : Z; jta_Reserved : Z;
}.

Definition JrnTrieAlloc_MarshalBinary (s : JrnTrieAlloc) : list field :=
  [PutUint64 (jta_Block s);
   PutUint32 (jta_Op s);
   PutUint32 (jta_Reserved s)].

Definition JrnTrieAlloc_UnmarshalBinary : dec JrnTrieAlloc :=
  Block ← Uint64;
  Op ← Uint32;
  Reserved ← Uint32;
  mret (mkJrnTrieAlloc Block Op Reserved).

#[export] Instance JrnTrieAlloc_codec : Codec JrnTrieAlloc :=
  {| Size := 16; fields := JrnTrieAlloc_MarshalBinary; decoder := JrnTrieAlloc_UnmarshalBinary |}.

#[export] Instance JrnTrieAlloc_codec_ok : CodecOk JrnTrieAlloc.
Proof. codec_ok JrnTrieAlloc_codec JrnTrieAlloc_MarshalBinary JrnTrieAlloc_UnmarshalBinary. Qed.

(** ** JrnXattrPrefix *)
Record JrnXattrPrefix := mkJrnXattrPrefix {
  jxp_Ino : Z; jxp_PhysBlk : Z; jxp_UsedSize : Z;
}.

Definition JrnXattrPrefix_MarshalBinary (s : JrnXattrPrefix) : list field :=
  [PutUint64 (jxp_Ino s);
   PutUint64 (jxp_PhysBlk s);
   PutUint32 (jxp_UsedSize s)].

Definition JrnXattrPrefix_UnmarshalBinary : dec JrnXattrPrefix :=
  Ino ← Uint64;
  PhysBlk ← Uint64;
  UsedSize ← Uint32;
  mret (mkJrnXattrPrefix Ino PhysBlk UsedSize).

#[export] Instance JrnXattrPrefix_codec : Codec JrnXattrPrefix :=
  {| Size := 20; fields := JrnXattrPrefix_MarshalBinary; decoder := JrnXattrPrefix_UnmarshalBinary |}.

#[export] Instance JrnXattrPrefix_codec_ok : CodecOk JrnXattrPrefix.
Proof. codec_ok JrnXattrPrefix_codec JrnXattrPrefix_MarshalBinary JrnXattrPrefix_UnmarshalBinary. Qed.

(** ** RecordHeader *)
Record RecordHeader := mkRecordHeader {
  rh_Type : Z; rh_Flags : Z; rh_DataLen : Z; rh_Checksum : Z;
}.

Definition RecordHeader_MarshalBinary (s : RecordHeader) : list field :=
  [PutUint32 (rh_Type s);
   PutUint32 (rh_Flags s);
   PutUint32 (rh_DataLen s);
   PutUint32 (rh_Checksum s)].

Definition RecordHeader_UnmarshalBinary : dec RecordHeader :=
  Type_ ← Uint32;
  Flags ← Uint32;
  DataLen ← Uint32;
  Checksum ← Uint32;
  mret (mkRecordHeader Type_ Flags DataLen Checksum).

#[export] Instance RecordHeader_codec : Codec RecordHeader :=
  {| Size := 16; fields := RecordHeader_MarshalBinary; decoder := RecordHeader_UnmarshalBinary |}.

#[export] Instance RecordHeader_codec_ok : CodecOk RecordHeader.
Proof. codec_ok RecordHeader_codec RecordHeader_MarshalBinary RecordHeader_UnmarshalBinary. Qed.

(** ** SuperblockLayout *)
Record SuperblockLayout := mkSuperblockLayout {
  sb_Magic : Z; sb_MajorVer : Z; sb_MinorVer : Z; sb_PatchVer : Z;
  sb_TotalBlocks : Z; sb_DataBlocks : Z; sb_BlockSize : Z; sb_InodeSize : Z;
  sb_BlocksGrp : Z; sb_InodesGrp : Z; sb_FSCreated : Z; sb_FSLastMount : Z;
  sb_FSLastChkpt : Z; sb_FreeDataBlks : Z; sb_FreeInodes : Z; sb_RootIno : Z;
  sb_FeatCompat : Z; sb_FeatROCompat : Z; sb_FeatIncompat : Z;
  sb_UUID : list Z; sb_EATOffset : Z; sb_EATBlocks : Z; sb_TrieRootBlock : Z;
  sb_TrieBlocksUsed : Z; sb_TrieNodePoolStart : Z; sb_TrieNodePoolSize : Z;
  sb_InodeBMOffset : Z; sb_InodeBMBlocks : Z; sb_InodeTableOffset : Z;
  sb_JournalOffset : Z; sb_JournalBlocks : Z; sb_CheckpointSeq : Z;
  sb_JournalLogStart : Z; sb_JournalLogEnd : Z; sb_ReservedJournal : list Z;
  sb_Label : list Z; sb_Reserved : list Z;
}.

Definition SuperblockLayout_MarshalBinary (s : SuperblockLayout) : list field :=
  [PutUint64 (sb_Magic s);
   PutUint64 (sb_MajorVer s);
   PutUint64 (sb_MinorVer s);
   PutUint64 (sb_PatchVer s);
   PutUint64 (sb_TotalBlocks s);
   PutUint64 (sb_DataBlocks s);
   PutUint64 (sb_BlockSize s);
   PutUint64 (sb_InodeSize s);
   PutUint64 (sb_BlocksGrp s);
   PutUint64 (sb_InodesGrp s);
   PutUint64 (sb_FSCreated s);
   PutUint64 (sb_FSLastMount s);
   PutUint64 (sb_FSLastChkpt s);
   PutUint64 (sb_FreeDataBlks s);
   PutUint64 (sb_FreeInodes s);
   PutUint64 (sb_RootIno s);
   PutUint64 (sb_FeatCompat s);
   PutUint64 (sb_FeatROCompat s);
   PutUint64 (sb_FeatIncompat s);
   PutBytes 16 (sb_UUID s);
   PutUint64 (sb_EATOffset s);
   PutUint64 (sb_EATBlocks s);
   PutUint64 (sb_TrieRootBlock s);
   PutUint64 (sb_TrieBlocksUsed s);
   PutUint64 (sb_TrieNodePoolStart s);
   PutUint64 (sb_TrieNodePoolSize s);
   PutUint64 (sb_InodeBMOffset s);
   PutUint64 (sb_InodeBMBlocks s);
   PutUint64 (sb_InodeTableOffset s);
   PutUint64 (sb_JournalOffset s);
   PutUint64 (sb_JournalBlocks s);
   PutUint64 (sb_CheckpointSeq s);
   PutUint64 (sb_JournalLogStart s);
   PutUint64 (sb_JournalLogEnd s)] ++
  (PutUint64 <$> sb_ReservedJournal s) ++
  [PutBytes 64 (sb_Label s);
   PutBytes 648 (sb_Reserved s)].

Definition SuperblockLayout_UnmarshalBinary : dec SuperblockLayout :=
  Magic ← Uint64;
  MajorVer ← Uint64;
  MinorVer ← Uint64;
  PatchVer ← Uint64;
  TotalBlocks ← Uint64;
  DataBlocks ← Uint64;
  BlockSize ← Uint64;
  InodeSize ← Uint64;
  BlocksGrp ← Uint64;
  InodesGrp ← Uint64;
  FSCreated ← Uint64;
  FSLastMount ← Uint64;
  FSLastChkpt ← Uint64;
  FreeDataBlks ← Uint64;
  FreeInodes ← Uint64;
  RootIno ← Uint64;
  FeatCompat ← Uint64;
  FeatROCompat ← Uint64;
  FeatIncompat ← Uint64;
  UUID ← Bytes 16;
  EATOffset ← Uint64;
  EATBlocks ← Uint64;
  TrieRootBlock ← Uint64;
  TrieBlocksUsed ← Uint64;
  TrieNodePoolStart ← Uint64;
  TrieNodePoolSize ← Uint64;
  InodeBMOffset ← Uint64;
  InodeBMBlocks ← Uint64;
  InodeTableOffset ← Uint64;
  JournalOffset ← Uint64;
  JournalBlocks ← Uint64;
  CheckpointSeq ← Uint64;
  JournalLogStart ← Uint64;
  JournalLogEnd ← Uint64;
  ReservedJournal ← Uints 8 4;
  Label ← Bytes 64;
  Reserved ← Bytes 648;
  mret (mkSuperblockLayout Magic MajorVer MinorVer PatchVer TotalBlocks
    DataBlocks BlockSize InodeSize BlocksGrp InodesGrp FSCreated FSLastMount
    FSLastChkpt FreeDataBlks FreeInodes RootIno FeatCompat FeatROCompat
    FeatIncompat UUID EATOffset EATBlocks TrieRootBlock TrieBlocksUsed
    TrieNodePoolStart TrieNodePoolSize InodeBMOffset InodeBMBlocks
    InodeTableOffset JournalOffset JournalBlocks CheckpointSeq
    JournalLogStart JournalLogEnd ReservedJournal Label Reserved).

#[export] Instance SuperblockLayout_codec : Codec SuperblockLayout :=
  {| Size := 1024; fields := SuperblockLayout_MarshalBinary; decoder := SuperblockLayout_UnmarshalBinary |}.

#[export] Instance SuperblockLayout_codec_ok : CodecOk SuperblockLayout.
Proof. codec_ok SuperblockLayout_codec SuperblockLayout_MarshalBinary SuperblockLayout_UnmarshalBinary. Qed.

(** ** TriePage *)
Record TriePage := mkTriePage {
  tp_Magic : Z; tp_Version : Z; tp_LiveCount : Z; tp_FreeNameOff : Z;
  tp_FreeSlots : Z;
}.

Definition TriePage_MarshalBinary (s : TriePage) : list field :=
  [PutUint32 (tp_Magic s);
   PutUint32 (tp_Version s);
   PutUint16 (tp_LiveCount s);
   PutUint16 (tp_FreeNameOff s);
   PutUint64 (tp_FreeSlots s)].

Definition TriePage_UnmarshalBinary : dec TriePage :=
  Magic ← Uint32;
  Version ← Uint32;
  LiveCount ← Uint16;
  FreeNameOff ← Uint16;
  FreeSlots ← Uint64;
  mret (mkTriePage Magic Version LiveCount FreeNameOff FreeSlots).

#[export] Instance TriePage_codec : Codec TriePage :=
  {| Size := 20; fields := TriePage_MarshalBinary; decoder := TriePage_UnmarshalBinary |}.

#[export] Instance TriePage_codec_ok : CodecOk TriePage.
Proof. codec_ok TriePage_codec TriePage_MarshalBinary TriePage_UnmarshalBinary. Qed.

(** ** TrieSlot *)
Record TrieSlot := mkTrieSlot {
  ts_FirstChild : Z; ts_NextSibling : Z; ts_Inode : Z; ts_NameLen : Z;
  ts_NameOffset : Z; ts_Depth : Z; ts_NodeType : Z; ts_ByteVal : Z;
  ts_FType : Z; ts_Flags : Z; ts_ChildCount : Z;
}.

Definition TrieSlot_MarshalBinary (s : TrieSlot) : list field :=
  [PutUint64 (ts_FirstChild s);
   PutUint64 (ts_NextSibling s);
   PutUint64 (ts_Inode s);
   PutUint16 (ts_NameLen s);
   PutUint16 (ts_NameOffset s);
   PutUint8 (ts_Depth s);
   PutUint8 (ts_NodeType s);
   PutUint8 (ts_ByteVal s);
   PutUint8 (ts_FType s);
   PutUint16 (ts_Flags s);
   PutUint16 (ts_ChildCount s)].

Definition TrieSlot_UnmarshalBinary : dec TrieSlot :=
  FirstChild ← Uint64;
  NextSibling ← Uint64;
  Inode ← Uint64;
  NameLen ← Uint16;
  NameOffset ← Uint16;
  Depth ← Uint8;
  NodeType ← Uint8;
  ByteVal ← Uint8;
  FType ← Uint8;
  Flags ← Uint16;
  ChildCount ← Uint16;
  mret (mkTrieSlot FirstChild NextSibling Inode NameLen NameOffset Depth
    NodeType ByteVal FType Flags ChildCount).

#[export] Instance TrieSlot_codec : Codec TrieSlot :=
  {| Size := 36; fields := TrieSlot_MarshalBinary; decoder := TrieSlot_UnmarshalBinary |}.

#[export] Instance TrieSlot_codec_ok : CodecOk TrieSlot.
Proof. codec_ok TrieSlot_codec TrieSlot_MarshalBinary TrieSlot_UnmarshalBinary. Qed.

(** ** XattrEntry *)
Record XattrEntry := mkXattrEntry {
  xe_NameLen : Z; xe_ValueLen : Z; xe_NameOffset : Z; xe_ValueOffset : Z;
}.

Definition XattrEntry_MarshalBinary (s : XattrEntry) : list field :=
  [PutUint16 (xe_NameLen s);
   PutUint16 (xe_ValueLen s);
   PutUint16 (xe_NameOffset s);
   PutUint16 (xe_ValueOffset s)].

Definition XattrEntry_UnmarshalBinary : dec XattrEntry :=
  NameLen ← Uint16;
  ValueLen ← Uint16;
  NameOffset ← Uint16;
  ValueOffset ← Uint16;
  mret (mkXattrEntry NameLen ValueLen NameOffset ValueOffset).

#[export] Instance XattrEntry_codec : Codec XattrEntry :=
  {| Size := 8; fields := XattrEntry_MarshalBinary; decoder := XattrEntry_UnmarshalBinary |}.

#[export] Instance XattrEntry_codec_ok : CodecOk XattrEntry.
Proof. codec_ok XattrEntry_codec XattrEntry_MarshalBinary XattrEntry_UnmarshalBinary. Qed.

(** ** XattrHeader *)
Record XattrHeader := mkXattrHeader {
  xh_Magic : Z; xh_Version : Z; xh_UsedSize : Z; xh_EntryCount : Z;
  xh_NextBlock : Z; xh_Flags : Z; xh_Reserved : Z;
}.

Definition XattrHeader_MarshalBinary (s : XattrHeader) : list field :=
  [PutUint32 (xh_Magic s);
   PutUint32 (xh_Version s);
   PutUint32 (xh_UsedSize s);
   PutUint32 (xh_EntryCount s);
   PutUint64 (xh_NextBlock s);
   PutUint32 (xh_Flags s);
   PutUint32 (xh_Reserved s)].

Definition XattrHeader_UnmarshalBinary : dec XattrHeader :=
  Magic ← Uint32;
  Version ← Uint32;
  UsedSize ← Uint32;
  EntryCount ← Uint32;
  NextBlock ← Uint64;
  Flags ← Uint32;
  Reserved ← Uint32;
  mret (mkXattrHeader Magic Version UsedSize EntryCount NextBlock Flags
    Reserved).

#[export] Instance XattrHeader_codec : Codec XattrHeader :=
  {| Size := 32; fields := XattrHeader_MarshalBinary; decoder := XattrHeader_UnmarshalBinary |}.

#[export] Instance XattrHeader_codec_ok : CodecOk XattrHeader.
Proof. codec_ok XattrHeader_codec XattrHeader_MarshalBinary XattrHeader_UnmarshalBinary. Qed.

(** ** Consequences for every structure *)
Section codec_laws.
Context {A : Type} `{CodecOk A}.
Implicit Types s : A.

Lemma encode_length s : codec_wf s -> length (encode s) = Size A.
Proof. intros [Hok Hw]. unfold encode. by rewrite fields_length. Qed.

Lemma encode_bytes s : codec_wf s -> bytes (encode s).
Proof.
  intros [Hok _]. unfold encode. clear - Hok.
  induction Hok; csimpl; [constructor|].
  apply bytes_app. auto using field_bytes_bytes.
Qed.

Lemma MarshalBinary_encode s : codec_wf s -> MarshalBinary s = Ret (encode s).
Proof.
  intros [Hok Hw]. unfold MarshalBinary. rewrite <- Hw.
  pose proof (put_fields_app (fields s) [] Hok) as E. simpl in E. by rewrite E.
Qed.

Lemma UnmarshalBinary_encode s rest :
  codec_wf s -> UnmarshalBinary (encode s ++ rest) = Ret s.
Proof.
  intros Hs. unfold UnmarshalBinary. pose proof (encode_length s Hs).
  rewrite decide_False by len. by rewrite decode_encode.
Qed.

Lemma UnmarshalBinary_short data :
  (length data < Size A)%nat ->
  UnmarshalBinary (A := A) data = Err (ErrTooShort (length data) (Size A)).
Proof. intros Hl. unfold UnmarshalBinary. by rewrite decide_True. Qed.

Lemma UnmarshalBinary_total data :
  bytes data -> (Size A <= length data)%nat ->
  exists s, UnmarshalBinary data = Ret s /\ codec_wf s /\ encode s = take (Size A) data.
Proof.
  intros Hb Hl. destruct (decode_total data Hb Hl) as (s & rest & E & Hs & ->).
  exists s. split_and!; [|done|].
  - unfold UnmarshalBinary. rewrite decide_False by lia. by rewrite E.
  - by rewrite take_app_length' by (by rewrite encode_length).
Qed.

End codec_laws.

Section marshal_lemmas.
Context {A : Type} `{CodecOk A}.

Lemma Marshal_encode (r : A) : codec_wf r -> Marshal r = encode r.
Proof. intros Hr. unfold Marshal. by rewrite MarshalBinary_encode. Qed.

Lemma unmarshal_encode (r : A) rest : codec_wf r -> unmarshal (encode r ++ rest) = Ret (Some r).
Proof. intros Hr. unfold unmarshal. by rewrite UnmarshalBinary_encode. Qed.

Lemma unmarshal_Marshal (r : A) : codec_wf r -> unmarshal (Marshal r) = Ret (Some r).
Proof.
  intros Hr. rewrite Marshal_encode by done.
  pose proof (unmarshal_encode r [] Hr) as E. by rewrite app_nil_r in E.
Qed.

Lemma length_Marshal (r : A) : codec_wf r -> length (Marshal r) = Size A.
Proof. intros Hr. by rewrite Marshal_encode, encode_length. Qed.

Lemma bytes_Marshal (r : A) : codec_wf r -> bytes (Marshal r).
Proof. intros Hr. rewrite Marshal_encode by done. by apply encode_bytes. Qed.

End marshal_lemmas.

Ltac codec_wf_tac :=
  split; [|reflexivity]; repeat (apply Forall_cons_2; [simpl; lia|]); apply Forall_nil_2.

(** ** Arrays of structures

    Structures laid out one after another from some offset of a buffer, as in
    the inline region of an inode, a leaf or an index node. *)
Section struct_array.
Context {A : Type} `{CodecOk A}.
Implicit Types (l : list A) (s zero : A).

Definition structs_image (l : list A) : list Z := concat (encode <$> l).

Definition structs_wf (l : list A) : Prop := Forall (fun s : A => codec_wf s) l.

Lemma unmarshal_into_encode zero s rest :
  codec_wf s -> unmarshal_into zero (encode s ++ rest) = s.
Proof. intros Hs. unfold unmarshal_into. by rewrite UnmarshalBinary_encode. Qed.

Lemma structs_image_app l k : structs_image (l ++ k) = structs_image l ++ structs_image k.
Proof. unfold structs_image. by rewrite fmap_app, concat_app. Qed.

Lemma structs_image_cons s l : structs_image (s :: l) = encode s ++ structs_image l.
Proof. done. Qed.

Lemma length_structs_image l :
  structs_wf l -> length (structs_image l) = (length l * Size A)%nat.
Proof.
  induction 1 as [|s l Hs _ IH]; [done|].
  rewrite structs_image_cons, length_app, encode_length, IH by done. done.
Qed.

Lemma bytes_structs_image l : structs_wf l -> bytes (structs_image l).
Proof.
  induction 1 as [|s l Hs _ IH]; [constructor|].
  rewrite structs_image_cons. apply bytes_app. split; [by apply encode_bytes|done].
Qed.

(** Writing the structure that follows those already laid out. *)
Lemma blit_struct (pre : list Z) l s (old rest : list Z) :
  structs_wf l -> codec_wf s -> length old = Size A ->
  blit (length pre + length l * Size A) (Marshal s) (pre ++ structs_image l ++ old ++ rest)
  = pre ++ structs_image (l ++ [s]) ++ rest.
Proof.
  intros Hl Hs Ho. rewrite Marshal_encode by done.
  rewrite app_assoc, <- length_structs_image, <- length_app by done.
  rewrite blit_app by (by rewrite encode_length).
  rewrite structs_image_app, structs_image_cons. simpl. by rewrite <- !app_assoc.
Qed.

(** Reading structure [i]. *)
Lemma drop_struct (pre : list Z) l i s (rest : list Z) :
  structs_wf l -> l !! i = Some s ->
  drop (length pre + i * Size A) (pre ++ structs_image l ++ rest)
  = encode s ++ structs_image (drop (S i) l) ++ rest.
Proof.
  intros Hl Hi. rewrite <- (take_drop_middle l i s Hi) at 1.
  pose proof (lookup_lt_Some _ _ _ Hi).
  assert (Ht : length (structs_image (take i l)) = (i * Size A)%nat).
  { rewrite length_structs_image by (by apply Forall_take). rewrite length_take. f_equal. lia. }
  rewrite structs_image_app, structs_image_cons, <- !app_assoc.
  rewrite drop_app_ge by lia.
  replace (length pre + i * Size A - length pre)%nat with (i * Size A)%nat by lia.
  by rewrite <- Ht, drop_app_length.
Qed.

Lemma read_struct zero (pre : list Z) l i s (rest : list Z) :
  structs_wf l -> l !! i = Some s ->
  unmarshal_into zero (drop (length pre + i * Size A) (pre ++ structs_image l ++ rest)) = s.
Proof.
  intros Hl Hi. rewrite (drop_struct _ _ _ s) by done. apply unmarshal_into_encode.
  unfold structs_wf in Hl. rewrite Forall_lookup in Hl. by apply (Hl i).
Qed.

(** Replacing structure [i]. *)
Lemma blit_struct_at (pre : list Z) l i s old (rest : list Z) :
  structs_wf l -> codec_wf s -> l !! i = Some old ->
  blit (length pre + i * Size A) (encode s) (pre ++ structs_image l ++ rest)
  = pre ++ structs_image (<[i := s]> l) ++ rest.
Proof.
  intros Hl Hs Hi. pose proof (lookup_lt_Some _ _ _ Hi).
  assert (Ho : codec_wf old) by (unfold structs_wf in Hl; rewrite Forall_lookup in Hl; by apply (Hl i)).
  rewrite insert_take_drop, <- (take_drop_middle l i old Hi) at 1 by done.
  assert (Ht : length (structs_image (take i l)) = (i * Size A)%nat).
  { rewrite length_structs_image by (by apply Forall_take). rewrite length_take. f_equal. lia. }
  rewrite !structs_image_app, !structs_image_cons, <- !app_assoc.
  rewrite (app_assoc pre), (app_assoc pre _ (encode s ++ _)), <- Ht, <- length_app.
  apply blit_app. by rewrite !encode_length.
Qed.

End struct_array.

(** The structures, as one indexed family, so that a statement about all of
    them is one theorem. *)
Inductive disk_struct :=
| SAllocHeader
| SBtreeIdxEntry
| SBtreeNodeHeader
| SCheckpoint
| SExtent
| SInode
| SJournalBlockHeader
| SJrnDirUpdate
| SJrnExtentAlloc
| SJrnExtentFree
| SJrnInodeAlloc
| SJrnInodeFree
| SJrnInodeFull
| SJrnInodeUpdate
| SJrnSymlinkPrefix
| SJrnTrieAlloc
| SJrnXattrPrefix
| SRecordHeader
| SSuperblockLayout
| STriePage
| STrieSlot
| SXattrEntry
| SXattrHeader.

Definition struct_type (i : disk_struct) : Type :=
  match i with
  | SAllocHeader => AllocHeader
  | SBtreeIdxEntry => BtreeIdxEntry
  | SBtreeNodeHeader => BtreeNodeHeader
  | SCheckpoint => Checkpoint
  | SExtent => Extent
  | SInode => Inode
  | SJournalBlockHeader => JournalBlockHeader
  | SJrnDirUpdate => JrnDirUpdate
  | SJrnExtentAlloc => JrnExtentAlloc
  | SJrnExtentFree => JrnExtentFree
  | SJrnInodeAlloc => JrnInodeAlloc
  | SJrnInodeFree => JrnInodeFree
  | SJrnInodeFull => JrnInodeFull
  | SJrnInodeUpdate => JrnInodeUpdate
  | SJrnSymlinkPrefix => JrnSymlinkPrefix
  | SJrnTrieAlloc => JrnTrieAlloc
  | SJrnXattrPrefix => JrnXattrPrefix
  | SRecordHeader => RecordHeader
  | SSuperblockLayout => SuperblockLayout
  | STriePage => TriePage
  | STrieSlot => TrieSlot
  | SXattrEntry => XattrEntry
  | SXattrHeader => XattrHeader
  end.

#[export] Instance struct_codec i : Codec (struct_type i) :=
  match i with
  | SAllocHeader => AllocHeader_codec
  | SBtreeIdxEntry => BtreeIdxEntry_codec
  | SBtreeNodeHeader => BtreeNodeHeader_codec
  | SCheckpoint => Checkpoint_codec
  | SExtent => Extent_codec
  | SInode => Inode_codec
  | SJournalBlockHeader => JournalBlockHeader_codec
  | SJrnDirUpdate => JrnDirUpdate_codec
  | SJrnExtentAlloc => JrnExtentAlloc_codec
  | SJrnExtentFree => JrnExtentFree_codec
  | SJrnInodeAlloc => JrnInodeAlloc_codec
  | SJrnInodeFree => JrnInodeFree_codec
  | SJrnInodeFull => JrnInodeFull_codec
  | SJrnInodeUpdate => JrnInodeUpdate_codec
  | SJrnSymlinkPrefix => JrnSymlinkPrefix_codec
  | SJrnTrieAlloc => JrnTrieAlloc_codec
  | SJrnXattrPrefix => JrnXattrPrefix_codec
  | SRecordHeader => RecordHeader_codec
  | SSuperblockLayout => SuperblockLayout_codec
  | STriePage => TriePage_codec
  | STrieSlot => TrieSlot_codec
  | SXattrEntry => XattrEntry_codec
  | SXattrHeader => XattrHeader_codec
  end.

#[export] Instance struct_codec_ok i : CodecOk (struct_type i).
Proof. destruct i; simpl; apply _. Qed.

(** C15 Every on-disk structure whose fields fit their widths is marshalled
    without error or panic to exactly its declared size, and unmarshalling the
    result, with anything behind it, gives the structure back. *)
Theorem disk_marshal_unmarshal (i : disk_struct) (s : struct_type i) (rest : list Z)
    (Hwf : codec_wf s) :
  exists b, MarshalBinary s = Ret b /\ length b = Size (struct_type i) /\ bytes b /\
    UnmarshalBinary (b ++ rest) = Ret s.
Proof.
  exists (encode s).
  split_and!; [by apply MarshalBinary_encode | by apply encode_length |
    by apply encode_bytes | by apply UnmarshalBinary_encode].
Qed.

Lemma disk_marshal_unmarshal_witness :
  let e : struct_type SExtent := mkExtent 7 1000 3 1 0 in
  exists b, MarshalBinary e = Ret b /\ length b = 32%nat /\ bytes b /\
    UnmarshalBinary (b ++ [255]) = Ret e.
Proof.
  intros e. apply (disk_marshal_unmarshal SExtent e [255]).
  split; [|reflexivity]. repeat constructor; simpl; lia.
Defined.

(** C16 Unmarshalling is total on byte strings: a short buffer is reported with
    its length and the size wanted, and any other one decodes to a structure
    whose fields fit their widths and which marshals back to the very bytes
    that were read. *)
Theorem disk_unmarshal_marshal (i : disk_struct) (data : list Z) (Hb : bytes data) :
  ((length data < Size (struct_type i))%nat ->
   UnmarshalBinary (A := struct_type i) data
   = Err (ErrTooShort (length data) (Size (struct_type i)))) /\
  ((Size (struct_type i) <= length data)%nat ->
   exists s : struct_type i, UnmarshalBinary data = Ret s /\ codec_wf s /\
     MarshalBinary s = Ret (take (Size (struct_type i)) data)).
Proof.
  split; [apply UnmarshalBinary_short|]. intros Hl.
  destruct (UnmarshalBinary_total data Hb Hl) as (s & E & Hs & Ht).
  exists s. split_and!; [done..|]. by rewrite MarshalBinary_encode, Ht.
Qed.

Lemma disk_unmarshal_marshal_witness :
  UnmarshalBinary (A := Extent) [1; 2; 3] = Err (ErrTooShort 3 32) /\
  exists s : XattrEntry, UnmarshalBinary (zeros 10) = Ret s /\ codec_wf s /\
    MarshalBinary s = Ret (zeros 8).
Proof.
  split.
  - apply (disk_unmarshal_marshal SExtent [1; 2; 3]); [|simpl; lia].
    repeat constructor; unfold is_u8; lia.
  - apply (disk_unmarshal_marshal SXattrEntry (zeros 10)); [apply bytes_zeros|simpl; lia].
Defined.
