(* ===== verification/Bits.v ===== *)
(** * Words and bitmaps

    The operations of math/bits and of Go's bit operators that the allocator
    uses, on 64-bit words held as [Z], and bitmaps: lists of such words read
    as one long sequence of bits.  [bit l i] is bit [i] of the bitmap [l], and
    [upd l i v] is [l] with that bit set to [v]. *)

From stdpp Require Import base numbers list option gmap.
From Stdlib Require Import ZArith Lia.
From S2P Require Import Prelude.

Local Open Scope Z_scope.

(** ** Go's operators on uint64 *)

(** [a << n]: bits shifted out are lost, so a shift by 64 or more gives 0. *)
Definition shl64 (a n : Z) : Z := u64 (Z.shiftl a n).

(** [^a] *)
Definition not64 (a : Z) : Z := Z.lxor a (2 ^ 64 - 1).

(** [bits.OnesCount64] *)
Definition OnesCount64 (w : Z) : Z :=
  Z.of_nat (length (filter (fun b => Z.testbit w b = true) (seqZ 0 64))).

(** [bits.TrailingZeros64]: 64 for the word 0 *)
Definition TrailingZeros64 (w : Z) : Z :=
  match list_find (fun b => Z.testbit w b = true) (seqZ 0 64) with
  | Some (_, b) => b
  | None => 64
  end.

(** ** Bitmaps *)

Definition word (l : list Z) (i : Z) : Z := default 0 (l !! Z.to_nat i).
Definition bit (l : list Z) (i : Z) : bool := Z.testbit (word l (i / 64)) (i mod 64).

Definition upd_word (w b : Z) (v : bool) : Z :=
  if v then Z.setbit w b else Z.clearbit w b.

Definition upd (l : list Z) (i : Z) (v : bool) : list Z :=
  <[Z.to_nat (i / 64) := upd_word (word l (i / 64)) (i mod 64) v]> l.

Definition words (l : list Z) : Prop := Forall is_u64 l.

(** The bits of word number [w] that are set in [m], as bit numbers. *)
Definition word_bits (w m : Z) : gset Z :=
  list_to_set ((fun b => w * 64 + b) <$> filter (fun b => Z.testbit m b = true) (seqZ 0 64)).

Section words.

Lemma div_mod_64 i : i = 64 * (i / 64) + i mod 64 /\ 0 <= i mod 64 < 64.
Proof. split; [apply Z.div_mod; lia | apply Z.mod_pos_bound; lia]. Qed.

Lemma div64_add w b : 0 <= b < 64 -> (w * 64 + b) / 64 = w /\ (w * 64 + b) mod 64 = b.
Proof. intros Hb. pose proof (div_mod_64 (w * 64 + b)). lia. Qed.

Lemma is_u64_testbit w : is_u64 w <-> 0 <= w /\ forall b, 64 <= b -> Z.testbit w b = false.
Proof.
  split.
  - intros [H0 H1]. split; [done|]. intros b Hb.
    destruct (decide (w = 0)) as [->|]; [apply Z.testbit_0_l|].
    apply Z.bits_above_log2; [lia|]. assert (Z.log2 w < 64) by (apply Z.log2_lt_pow2; lia). lia.
  - intros [H0 H1]. split; [done|]. destruct (decide (w = 0)) as [->|]; [lia|].
    apply Z.log2_lt_pow2; [lia|]. apply Z.nle_gt. intros Hl.
    specialize (H1 _ Hl). rewrite Z.bit_log2 in H1; [done|lia].
Qed.

Lemma word_ext w1 w2 :
  is_u64 w1 -> is_u64 w2 -> (forall b, 0 <= b < 64 -> Z.testbit w1 b = Z.testbit w2 b) -> w1 = w2.
Proof.
  intros H1 H2 Hb. apply Z.bits_inj_iff'. intros b Hb0.
  destruct (decide (b < 64)); [apply Hb; lia|].
  apply is_u64_testbit in H1 as [_ E1]. apply is_u64_testbit in H2 as [_ E2].
  by rewrite E1, E2 by lia.
Qed.

Lemma word_nonzero w : is_u64 w -> w <> 0 <-> exists b, 0 <= b < 64 /\ Z.testbit w b = true.
Proof.
  intros Hw. split.
  - intros Hn. exists (Z.log2 w). destruct Hw. split; [|apply Z.bit_log2; lia].
    split; [apply Z.log2_nonneg | apply Z.log2_lt_pow2; lia].
  - intros (b & _ & Hb) ->. by rewrite Z.testbit_0_l in Hb.
Qed.

Lemma testbit_upd_word w b v b' :
  0 <= b -> 0 <= b' -> Z.testbit (upd_word w b v) b' = if decide (b = b') then v else Z.testbit w b'.
Proof.
  intros Hb Hb'. destruct v; simpl;
    [rewrite Z.setbit_eqb by lia | rewrite Z.clearbit_eqb by lia];
    case_decide as E; [by rewrite (proj2 (Z.eqb_eq _ _) E)| |
      rewrite (proj2 (Z.eqb_eq _ _) E); by rewrite andb_false_r |];
    rewrite (proj2 (Z.eqb_neq _ _) E); simpl; auto using andb_true_r.
Qed.

Lemma upd_word_u64 w b v : is_u64 w -> 0 <= b < 64 -> is_u64 (upd_word w b v).
Proof.
  intros [H0 H1]%is_u64_testbit Hb. apply is_u64_testbit. split.
  - apply Z.bits_iff_nonneg_ex. exists 64. intros m Hm.
    rewrite testbit_upd_word, decide_False by lia. apply H1. lia.
  - intros b' Hb'. rewrite testbit_upd_word, decide_False by lia. by apply H1.
Qed.

Lemma upd_word_id w b v : is_u64 w -> 0 <= b < 64 -> Z.testbit w b = v -> upd_word w b v = w.
Proof.
  intros Hw Hb Hv. apply word_ext; auto using upd_word_u64. intros b' Hb'.
  rewrite testbit_upd_word by lia. by case_decide; subst.
Qed.

Lemma shl64_1 b : 0 <= b < 64 -> shl64 1 b = 2 ^ b.
Proof.
  intros Hb. unfold shl64. rewrite Z.shiftl_1_l, u64_small; [done|].
  split; [lia|]. apply Z.pow_lt_mono_r; lia.
Qed.

(** [w & (1<<b)], [w | (1<<b)] and [w &^ (1<<b)] *)
Lemma land_shl64 w b : 0 <= b < 64 -> (Z.land w (shl64 1 b) =? 0) = negb (Z.testbit w b).
Proof.
  intros Hb. rewrite shl64_1 by done. apply eq_true_iff_eq.
  rewrite Z.eqb_eq, negb_true_iff. split; intros H.
  - rewrite <- (Z.bits_0 b), <- H, Z.land_spec, Z.pow2_bits_true by lia. by rewrite andb_true_r.
  - apply Z.bits_inj_iff'. intros b' Hb'. rewrite Z.land_spec, Z.bits_0, Z.pow2_bits_eqb by lia.
    destruct (b =? b') eqn:E; [|apply andb_false_r]. apply Z.eqb_eq in E as <-. by rewrite H.
Qed.

Lemma lor_shl64 w b : 0 <= b < 64 -> Z.lor w (shl64 1 b) = upd_word w b true.
Proof. intros Hb. by rewrite shl64_1, <- Z.shiftl_1_l by done. Qed.

Lemma ldiff_shl64 w b : 0 <= b < 64 -> Z.ldiff w (shl64 1 b) = upd_word w b false.
Proof. intros Hb. by rewrite shl64_1, <- Z.shiftl_1_l by done. Qed.

(** The test [w|(1<<b) == 1<<b] that the word was empty. *)
Lemma upd_word_eq_shl64 w b :
  is_u64 w -> 0 <= b < 64 -> Z.testbit w b = false ->
  (upd_word w b true =? shl64 1 b) = (w =? 0).
Proof.
  intros Hw Hb Hf. rewrite shl64_1 by done. apply eq_true_iff_eq. rewrite !Z.eqb_eq.
  split; [|intros ->; unfold upd_word, Z.setbit; by rewrite Z.shiftl_1_l].
  intros E. apply word_ext; [done|unfold is_u64; lia|]. intros b' Hb'. rewrite Z.bits_0.
  destruct (decide (b = b')) as [<-|Hne]; [done|].
  pose proof (testbit_upd_word w b true b') as Ht. rewrite decide_False, E in Ht by done.
  rewrite <- Ht, Z.pow2_bits_false by lia. done.
Qed.

End words.

Section bitmaps.
Implicit Types l : list Z.

Lemma words_word l i : words l -> is_u64 (word l i).
Proof.
  intros Hl. unfold word. destruct (l !! Z.to_nat i) eqn:E; simpl; [|unfold is_u64; lia].
  by eapply Forall_lookup_1.
Qed.

Lemma word_out l i : Z.of_nat (length l) <= i -> word l i = 0.
Proof. intros H. unfold word. by rewrite lookup_ge_None_2 by lia. Qed.

Lemma lookup_word l i :
  0 <= i < Z.of_nat (length l) -> l !! Z.to_nat i = Some (word l i).
Proof.
  intros H. unfold word. destruct (lookup_lt_is_Some_2 l (Z.to_nat i)) as [x E]; [lia|].
  by rewrite E.
Qed.

Lemma index_word {E} l i :
  0 <= i < Z.of_nat (length l) -> index (E := E) l i = Ret (word l i).
Proof.
  intros H. unfold index. rewrite decide_True by lia. by rewrite lookup_word.
Qed.

Lemma store_word {E} l i x :
  0 <= i < Z.of_nat (length l) -> store (E := E) l i x = Ret (<[Z.to_nat i := x]> l).
Proof. intros H. unfold store. by rewrite decide_True. Qed.

Lemma word_insert l i j x :
  0 <= i < Z.of_nat (length l) -> 0 <= j ->
  word (<[Z.to_nat i := x]> l) j = if decide (i = j) then x else word l j.
Proof.
  intros Hi Hj. unfold word. case_decide as E.
  - subst. by rewrite list_lookup_insert_eq by lia.
  - by rewrite list_lookup_insert_ne by lia.
Qed.

Lemma words_insert l i x : words l -> is_u64 x -> words (<[i := x]> l).
Proof. intros. by apply Forall_insert. Qed.

Lemma bit_out l i : 64 * Z.of_nat (length l) <= i -> bit l i = false.
Proof.
  intros H. unfold bit. rewrite word_out; [apply Z.bits_0|].
  apply Z.div_le_lower_bound; lia.
Qed.

Lemma bit_word l w b : 0 <= b < 64 -> bit l (w * 64 + b) = Z.testbit (word l w) b.
Proof. intros Hb. unfold bit. by destruct (div64_add w b Hb) as [-> ->]. Qed.

Lemma bitmap_ext l1 l2 :
  words l1 -> words l2 -> length l1 = length l2 ->
  (forall i, 0 <= i < 64 * Z.of_nat (length l1) -> bit l1 i = bit l2 i) -> l1 = l2.
Proof.
  intros H1 H2 Hl Hb. apply list_eq_same_length with (length l1); [done..|].
  intros i x y Hi Hx Hy.
  assert (Ex : word l1 (Z.of_nat i) = x) by (unfold word; by rewrite Nat2Z.id, Hx).
  assert (Ey : word l2 (Z.of_nat i) = y) by (unfold word; by rewrite Nat2Z.id, Hy).
  apply word_ext; [by eapply Forall_lookup_1 in Hx | by eapply Forall_lookup_1 in Hy|].
  intros b Hb'. rewrite <- Ex, <- Ey, <- !bit_word by done. apply Hb. lia.
Qed.

Lemma bit_insert l w x i :
  0 <= w < Z.of_nat (length l) -> 0 <= i ->
  bit (<[Z.to_nat w := x]> l) i
  = if decide (w = i / 64) then Z.testbit x (i mod 64) else bit l i.
Proof.
  intros Hw Hi. unfold bit. rewrite word_insert by (auto; apply Z.div_pos; lia).
  by case_decide.
Qed.

Lemma bit_upd l i v j :
  0 <= i < 64 * Z.of_nat (length l) -> 0 <= j ->
  bit (upd l i v) j = if decide (i = j) then v else bit l j.
Proof.
  intros Hi Hj. pose proof (div_mod_64 i) as [Ei ?]. pose proof (div_mod_64 j) as [Ej ?].
  unfold upd. rewrite bit_insert by lia. case_decide as E.
  - rewrite testbit_upd_word by lia. repeat case_decide; try done; [lia..|].
    unfold bit. by rewrite E.
  - rewrite decide_False; [done|]. congruence.
Qed.

Lemma length_upd l i v : length (upd l i v) = length l.
Proof. apply length_insert. Qed.

Lemma words_upd l i v : words l -> words (upd l i v).
Proof.
  intros Hl. pose proof (div_mod_64 i). apply words_insert; [done|].
  apply upd_word_u64; [by apply words_word | lia].
Qed.

Lemma upd_id l i v :
  words l -> 0 <= i < 64 * Z.of_nat (length l) -> bit l i = v -> upd l i v = l.
Proof.
  intros Hl Hi Hv. apply bitmap_ext; auto using words_upd, length_upd.
  intros j Hj. rewrite length_upd in Hj. rewrite bit_upd by lia. by case_decide; subst.
Qed.

Lemma word_upd l i v j :
  0 <= i < 64 * Z.of_nat (length l) -> 0 <= j ->
  word (upd l i v) j = if decide (i / 64 = j) then upd_word (word l j) (i mod 64) v else word l j.
Proof.
  intros Hi Hj. pose proof (div_mod_64 i). unfold upd. rewrite word_insert by lia.
  by case_decide; subst.
Qed.

Lemma word_nonzero_bit l w :
  words l -> word l w <> 0 <-> exists b, 0 <= b < 64 /\ bit l (w * 64 + b) = true.
Proof.
  intros Hl. rewrite word_nonzero by (by apply words_word).
  split; intros (b & Hb & E); exists b; (split; [done|]); by rewrite bit_word in *.
Qed.

End bitmaps.

(** ** Counting and searching *)
Section counting.

Lemma TrailingZeros64_spec w :
  is_u64 w -> w <> 0 ->
  0 <= TrailingZeros64 w < 64 /\ Z.testbit w (TrailingZeros64 w) = true /\
  forall b, 0 <= b < TrailingZeros64 w -> Z.testbit w b = false.
Proof.
  intros Hw Hn. unfold TrailingZeros64.
  destruct (list_find _ _) as [[i b]|] eqn:E.
  - apply list_find_Some in E as (Hi & Hb & Hlt).
    apply lookup_seqZ in Hi as [-> Hi]. split_and!; [lia..|done|].
    intros b' Hb'. apply not_true_iff_false. apply (Hlt (Z.to_nat b') b'); [|lia].
    apply lookup_seqZ. lia.
  - apply list_find_None in E. apply word_nonzero in Hn as (b & Hb & Hbit); [|done].
    rewrite Forall_forall in E. destruct (E b); [apply elem_of_seqZ; lia | done].
Qed.

Lemma elem_of_word_bits w m i :
  i ∈ word_bits w m <-> i / 64 = w /\ Z.testbit m (i mod 64) = true.
Proof.
  unfold word_bits. rewrite elem_of_list_to_set, list_elem_of_fmap. split.
  - intros (b & -> & [Hb Hs]%list_elem_of_filter). apply elem_of_seqZ in Hs.
    by destruct (div64_add w b) as [-> ->]; [lia|].
  - intros [<- Hb]. pose proof (div_mod_64 i). exists (i mod 64). split; [lia|].
    apply list_elem_of_filter. split; [done|]. apply elem_of_seqZ. lia.
Qed.

Lemma size_word_bits w m : Z.of_nat (size (word_bits w m)) = OnesCount64 m.
Proof.
  unfold word_bits, OnesCount64. rewrite size_list_to_set, length_fmap; [done|].
  apply NoDup_fmap_2; [intros x y; lia|]. apply NoDup_filter, NoDup_seqZ.
Qed.

Lemma OnesCount64_bound m : 0 <= OnesCount64 m <= 64.
Proof.
  unfold OnesCount64. pose proof (length_filter (fun b => Z.testbit m b = true) (seqZ 0 64)) as H.
  rewrite length_seqZ in H. lia.
Qed.

(** Setting or clearing one bit. *)
Lemma OnesCount64_upd w b v : 0 <= b < 64 -> Z.testbit w b = negb v ->
  OnesCount64 (upd_word w b v) = OnesCount64 w + (if v then 1 else -1).
Proof.
  intros Hb Hw. rewrite <- !(size_word_bits 0).
  assert (Hin : forall m i, i ∈ word_bits 0 m <-> 0 <= i < 64 /\ Z.testbit m i = true).
  { intros m i. rewrite elem_of_word_bits. split.
    - intros [Hi Hm]. pose proof (div_mod_64 i). rewrite Z.mod_small in Hm by lia. split; [lia|done].
    - intros [Hi Hm]. by rewrite Z.div_small, Z.mod_small by lia. }
  destruct v; cbn [negb] in Hw.
  - replace (word_bits 0 (upd_word w b true)) with ({[b]} ∪ word_bits 0 w).
    + rewrite size_union, size_singleton; [lia|]. apply disjoint_singleton_l. rewrite Hin. intros [_ ?]. congruence.
    + apply set_eq. intros i. rewrite elem_of_union, elem_of_singleton, !Hin.
      destruct (decide (0 <= i < 64)); [|lia]. rewrite testbit_upd_word by lia.
      case_decide; subst; intuition.
  - replace (word_bits 0 w) with ({[b]} ∪ word_bits 0 (upd_word w b false)).
    + rewrite size_union, size_singleton; [lia|]. apply disjoint_singleton_l. rewrite Hin, testbit_upd_word by lia.
      rewrite decide_True by done. intros [_ ?]. done.
    + apply set_eq. intros i. rewrite elem_of_union, elem_of_singleton, !Hin.
      destruct (decide (0 <= i < 64)); [|lia]. rewrite testbit_upd_word by lia.
      case_decide; subst; intuition.
Qed.

End counting.
