(* ===== verification/AllocCore.v ===== *)
(** * The allocator's bit math (briefs/allocator_core.go)

    Both allocators of the program, the batch one of mkfs and fsck
    (briefs/allocator.go) and the runtime one of the FUSE bridge (fuse/fs.go),
    keep a three-level bitmap: a set bit of L2 is a free block, a set bit of L1
    a nonzero word of L2, a set bit of L0 a nonzero word of L1.  This file has
    the operations they share, the invariant, and the abstraction of a pyramid
    to the set of its free blocks, against which every operation is specified. *)

From stdpp Require Import base numbers list option gmap.
From Stdlib Require Import ZArith Lia.
From S2P Require Import Prelude Bits.

Local Open Scope Z_scope.

(** The three levels and the counters ([AllocBuilder]; [fuse.Allocator] has the
    same five fields beside its device, lock and dirty flag). *)
Record pyramid := mkPyramid {
  L0 : list Z; L1 : list Z; L2 : list Z;
  BlockCount : Z; FreeCount : Z;
}.

Inductive alloc_error :=
| ErrNoFree
| ErrExhausted (free_count : Z).

(** ** Operations *)

Definition AllocLevelWords (blockCount : Z) : Z * Z * Z :=
  let l2 := u64 (blockCount + 63) / 64 in
  let l1 := u64 (l2 + 63) / 64 in
  let l0 := u64 (l1 + 63) / 64 in
  let l0 := if l0 <? 1 then 1 else l0 in
  let l1 := if l1 <? 1 then 1 else l1 in
  let l2 := if l2 <? 1 then 1 else l2 in
  (l0, l1, l2).

Definition AllocMarkAllocated (P : pyramid) (relBlock : Z) : res alloc_error (pyramid * bool) :=
  if BlockCount P <=? relBlock then Ret (P, false) else
  let w2 := relBlock / 64 in
  let b2 := relBlock mod 64 in
  x ← index (L2 P) w2;
  if Z.land x (shl64 1 b2) =? 0 then Ret (P, false) else
  let x := Z.ldiff x (shl64 1 b2) in
  l2 ← store (L2 P) w2 x;
  let freeCount := u64 (FreeCount P - 1) in
  if x =? 0 then
    let w1 := w2 / 64 in
    let b1 := w2 mod 64 in
    y ← index (L1 P) w1;
    let y := Z.ldiff y (shl64 1 b1) in
    l1 ← store (L1 P) w1 y;
    if y =? 0 then
      let w0 := w1 / 64 in
      let b0 := w1 mod 64 in
      z ← index (L0 P) w0;
      l0 ← store (L0 P) w0 (Z.ldiff z (shl64 1 b0));
      Ret (mkPyramid l0 l1 l2 (BlockCount P) freeCount, true)
    else Ret (mkPyramid (L0 P) l1 l2 (BlockCount P) freeCount, true)
  else Ret (mkPyramid (L0 P) (L1 P) l2 (BlockCount P) freeCount, true).

Definition AllocMarkFree (P : pyramid) (relBlock : Z) : res alloc_error (pyramid * bool) :=
  if BlockCount P <=? relBlock then Ret (P, false) else
  let w2 := relBlock / 64 in
  let b2 := relBlock mod 64 in
  x ← index (L2 P) w2;
  if negb (Z.land x (shl64 1 b2) =? 0) then Ret (P, false) else
  let x := Z.lor x (shl64 1 b2) in
  l2 ← store (L2 P) w2 x;
  let freeCount := u64 (FreeCount P + 1) in
  if x =? shl64 1 b2 then
    let w1 := w2 / 64 in
    let b1 := w2 mod 64 in
    y ← index (L1 P) w1;
    let y := Z.lor y (shl64 1 b1) in
    l1 ← store (L1 P) w1 y;
    if y =? shl64 1 b1 then
      let w0 := w1 / 64 in
      let b0 := w1 mod 64 in
      z ← index (L0 P) w0;
      l0 ← store (L0 P) w0 (Z.lor z (shl64 1 b0));
      Ret (mkPyramid l0 l1 l2 (BlockCount P) freeCount, true)
    else Ret (mkPyramid (L0 P) l1 l2 (BlockCount P) freeCount, true)
  else Ret (mkPyramid (L0 P) (L1 P) l2 (BlockCount P) freeCount, true).

(** The mask of the bits of word [w] that lie in the run of [n] blocks from
    [first], whose first and last words are [wStart] and [wEnd]. *)
Definition run_mask (first n wStart wEnd w : Z) : Z :=
  let mask := not64 0 in
  let mask := if w =? wStart then Z.ldiff mask (u64 (shl64 1 (first mod 64) - 1)) else mask in
  if w =? wEnd then
    let hi := u64 (first + n - 1) mod 64 in
    Z.land mask (u64 (shl64 1 (hi + 1) - 1))
  else mask.

(** One iteration of the loop of [AllocMarkFreeRun] over the words of the run. *)
Definition free_run_word (P : pyramid) (w mask : Z) : res alloc_error (pyramid * Z) :=
  x ← index (L2 P) w;
  let added := Z.ldiff mask x in
  if added =? 0 then Ret (P, 0) else
  '(l0, l1) ←
    (if x =? 0 then
       let w1 := w / 64 in
       let b1 := w mod 64 in
       y ← index (L1 P) w1;
       l0 ← (if y =? 0 then
               z ← index (L0 P) (w1 / 64);
               store (L0 P) (w1 / 64) (Z.lor z (shl64 1 (w1 mod 64)))
             else Ret (L0 P));
       l1 ← store (L1 P) w1 (Z.lor y (shl64 1 b1));
       Ret (l0, l1)
     else Ret (L0 P, L1 P));
  l2 ← store (L2 P) w (Z.lor x mask);
  Ret (mkPyramid l0 l1 l2 (BlockCount P) (u64 (FreeCount P + OnesCount64 added)),
       OnesCount64 added).

(** [for w := wStart; w <= wEnd; w++]: [k] words are left. *)
Fixpoint free_run_loop (P : pyramid) (first n wStart wEnd w : Z) (k : nat) (freed : Z)
    : res alloc_error (pyramid * Z) :=
  match k with
  | O => Ret (P, freed)
  | S k' =>
      '(P', added) ← free_run_word P w (run_mask first n wStart wEnd w);
      free_run_loop P' first n wStart wEnd (w + 1) k' (u64 (freed + added))
  end.

Definition AllocMarkFreeRun (P : pyramid) (first n : Z) : res alloc_error (pyramid * Z) :=
  if (n =? 0) || (BlockCount P <=? first) then Ret (P, 0) else
  let n := if u64 (BlockCount P - first) <? n then u64 (BlockCount P - first) else n in
  let wStart := first / 64 in
  let wEnd := u64 (first + n - 1) / 64 in
  free_run_loop P first n wStart wEnd wStart (Z.to_nat (wEnd - wStart + 1)) 0.

Definition AllocIsAllocated (l2 : list Z) (blockCount rel : Z) : bool :=
  if blockCount <=? rel then false else
  let w := rel / 64 in
  match l2 !! Z.to_nat w with
  | None => false
  | Some x => Z.land x (shl64 1 (rel mod 64)) =? 0
  end.

(** ** Invariant and abstraction *)

Definition free_set (P : pyramid) : gset Z :=
  list_to_set (filter (fun i => bit (L2 P) i = true) (seqZ 0 (BlockCount P))).

(** [up] has a set bit for every nonzero word of [down], and no other. *)
Definition summary (up down : list Z) : Prop :=
  forall i, 0 <= i -> bit up i = negb (word down i =? 0).

Definition lens (P : pyramid) : Z * Z * Z :=
  (Z.of_nat (length (L0 P)), Z.of_nat (length (L1 P)), Z.of_nat (length (L2 P))).

(** The levels agree with each other; the counter is left open. *)
Record shape (P : pyramid) : Prop := {
  wf_bc : 0 < BlockCount P <= 2 ^ 64 - 64;
  wf_lens : lens P = AllocLevelWords (BlockCount P);
  wf_w0 : words (L0 P);
  wf_w1 : words (L1 P);
  wf_w2 : words (L2 P);
  wf_s0 : summary (L0 P) (L1 P);
  wf_s1 : summary (L1 P) (L2 P);
  wf_tail : forall i, BlockCount P <= i -> bit (L2 P) i = false;
}.

Record wf (P : pyramid) : Prop := {
  wf_shape : shape P;
  wf_count : FreeCount P = Z.of_nat (size (free_set P));
}.

(** Replace word [w] of L2 and bring the summaries up to date: what each
    operation's propagation must amount to. *)
Definition set_word (P : pyramid) (w x fc : Z) : pyramid :=
  let l1 := upd (L1 P) w (negb (x =? 0)) in
  mkPyramid (upd (L0 P) (w / 64) (negb (word l1 (w / 64) =? 0))) l1
    (<[Z.to_nat w := x]> (L2 P)) (BlockCount P) fc.

(** ** The shape of a pyramid *)

Lemma AllocLevelWords_bounds bc l0 l1 l2 :
  0 < bc <= 2 ^ 64 - 64 -> AllocLevelWords bc = (l0, l1, l2) ->
  (1 <= l0 /\ 1 <= l1 /\ 1 <= l2) /\
  bc <= 64 * l2 < bc + 64 /\ l2 <= 64 * l1 < l2 + 64 /\ l1 <= 64 * l0 < l1 + 64.
Proof.
  intros Hbc. unfold AllocLevelWords.
  rewrite (u64_small (bc + 63)) by (unfold is_u64; lia).
  pose proof (div_mod_64 (bc + 63)). set (d2 := (bc + 63) / 64) in *.
  rewrite (u64_small (d2 + 63)) by (unfold is_u64; lia).
  pose proof (div_mod_64 (d2 + 63)). set (d1 := (d2 + 63) / 64) in *.
  rewrite (u64_small (d1 + 63)) by (unfold is_u64; lia).
  pose proof (div_mod_64 (d1 + 63)). set (d0 := (d1 + 63) / 64) in *.
  rewrite !(proj2 (Z.ltb_ge _ _)) by lia. intros [= <- <- <-]. lia.
Qed.

Section shape.
Context (P : pyramid) (HP : shape P).

Lemma shape_bounds :
  BlockCount P <= 64 * Z.of_nat (length (L2 P)) < BlockCount P + 64 /\
  Z.of_nat (length (L2 P)) <= 64 * Z.of_nat (length (L1 P)) < Z.of_nat (length (L2 P)) + 64 /\
  Z.of_nat (length (L1 P)) <= 64 * Z.of_nat (length (L0 P)) < Z.of_nat (length (L1 P)) + 64.
Proof.
  pose proof (AllocLevelWords_bounds _ _ _ _ (wf_bc P HP) (eq_sym (wf_lens P HP))). lia.
Qed.

Lemma elem_of_free_set i : i ∈ free_set P <-> 0 <= i /\ bit (L2 P) i = true.
Proof using HP.
  unfold free_set. rewrite elem_of_list_to_set, list_elem_of_filter, elem_of_seqZ.
  split; [intros [? ?]; split; [lia|done]|]. intros [Hi Hb]. split; [done|]. split; [done|].
  apply Z.nle_gt. intros Hle. by rewrite (wf_tail P HP) in Hb by lia.
Qed.

Lemma free_set_range i : i ∈ free_set P -> 0 <= i < BlockCount P.
Proof. unfold free_set. rewrite elem_of_list_to_set, list_elem_of_filter, elem_of_seqZ. lia. Qed.

Lemma size_free_set : Z.of_nat (size (free_set P)) <= BlockCount P.
Proof using HP.
  unfold free_set. rewrite size_list_to_set by apply NoDup_filter, NoDup_seqZ.
  pose proof (length_filter (fun i => bit (L2 P) i = true) (seqZ 0 (BlockCount P))) as H.
  rewrite length_seqZ in H. pose proof (wf_bc P HP). lia.
Qed.

(** Two pyramids of the same size with the same free blocks are the same. *)
Lemma shape_ext Q :
  shape Q -> BlockCount Q = BlockCount P -> free_set Q = free_set P ->
  L0 Q = L0 P /\ L1 Q = L1 P /\ L2 Q = L2 P.
Proof using HP.
  intros HQ Hbc Hfs.
  pose proof (wf_lens P HP) as LP. pose proof (wf_lens Q HQ) as LQ.
  rewrite Hbc, <- LP in LQ. injection LQ as E0 E1 E2.
  apply Nat2Z.inj in E0, E1, E2.
  assert (H2 : L2 Q = L2 P).
  { apply bitmap_ext; [apply HQ | apply HP | done |]. intros i Hi. apply eq_true_iff_eq.
    assert (Hq : i ∈ free_set Q <-> bit (L2 Q) i = true).
    { unfold free_set. rewrite elem_of_list_to_set, list_elem_of_filter, elem_of_seqZ.
      split; [tauto|]. intros Hb. split; [done|]. split; [lia|]. apply Z.nle_gt. intros Hle.
      by rewrite (wf_tail Q HQ) in Hb by lia. }
    rewrite <- Hq, Hfs, elem_of_free_set. split; [tauto|]. intros; split; [lia|done]. }
  assert (H1 : L1 Q = L1 P).
  { apply bitmap_ext; [apply HQ | apply HP | done |]. intros i Hi.
    by rewrite (wf_s1 Q HQ), (wf_s1 P HP), H2 by lia. }
  assert (H0 : L0 Q = L0 P).
  { apply bitmap_ext; [apply HQ | apply HP | done |]. intros i Hi.
    by rewrite (wf_s0 Q HQ), (wf_s0 P HP), H1 by lia. }
  done.
Qed.

(** ** Replacing a word *)
Context (w x fc : Z).
Context (Hw : 0 <= w < Z.of_nat (length (L2 P))).
Context (Hx : is_u64 x).
Context (Htail : forall b, 0 <= b < 64 -> BlockCount P <= w * 64 + b -> Z.testbit x b = false).

Lemma summary_upd up down i y :
  summary up down -> words up -> 0 <= i < Z.of_nat (length down) ->
  Z.of_nat (length down) <= 64 * Z.of_nat (length up) ->
  summary (upd up i (negb (y =? 0))) (<[Z.to_nat i := y]> down).
Proof using.
  clear. intros Hs Hu Hi Hl j Hj. rewrite bit_upd, word_insert by lia.
  case_decide; [done | by apply Hs].
Qed.

Lemma upd_as_insert (l : list Z) i v :
  0 <= i < 64 * Z.of_nat (length l) ->
  upd l i v = <[Z.to_nat (i / 64) := word (upd l i v) (i / 64)]> l.
Proof using.
  clear. intros Hi. pose proof (div_mod_64 i). rewrite word_upd, decide_True by lia. done.
Qed.

Lemma set_word_shape : shape (set_word P w x fc).
Proof using Hw Hx Htail HP.
  pose proof shape_bounds as (B2 & B1 & B0). pose proof (wf_lens P HP) as HL.
  pose proof (div_mod_64 w) as [Ew Hm].
  unfold set_word. split; simpl.
  - apply HP.
  - rewrite <- HL. unfold lens. simpl. by rewrite !length_upd, length_insert.
  - apply words_upd, HP.
  - apply words_upd, HP.
  - apply words_insert; [apply HP | done].
  - rewrite (upd_as_insert (L1 P)) at 2 by lia.
    apply summary_upd; [apply HP | apply HP | lia | lia].
  - apply summary_upd; [apply HP | apply HP | lia | lia].
  - intros i Hi. pose proof (wf_bc P HP). rewrite bit_insert by lia.
    pose proof (div_mod_64 i). case_decide; [|by apply HP]. apply Htail; lia.
Qed.

End shape.

Lemma elem_of_free_set_set_word P w x fc i :
  shape P -> 0 <= w < Z.of_nat (length (L2 P)) -> shape (set_word P w x fc) ->
  i ∈ free_set (set_word P w x fc) <->
  if decide (w = i / 64) then 0 <= i /\ Z.testbit x (i mod 64) = true else i ∈ free_set P.
Proof.
  intros HP Hw HS. rewrite (elem_of_free_set _ HS). simpl.
  destruct (decide (0 <= i)) as [Hi|Hi].
  - rewrite bit_insert by done. case_decide; [done|]. by rewrite (elem_of_free_set P HP).
  - case_decide; [tauto|]. rewrite (elem_of_free_set P HP). tauto.
Qed.

(** Setting the bits of a mask frees exactly those blocks, clearing them
    allocates them; in both cases the counter follows. *)
Section masks.
Context (P : pyramid) (HP : wf P) (w m : Z).
Context (Hw : 0 <= w < Z.of_nat (length (L2 P))).

Lemma set_mask_wf :
  is_u64 m -> (forall b, 0 <= b < 64 -> Z.testbit m b = true ->
    w * 64 + b < BlockCount P /\ Z.testbit (word (L2 P) w) b = false) ->
  let Q := set_word P w (Z.lor (word (L2 P) w) m) (u64 (FreeCount P + OnesCount64 m)) in
  wf Q /\ free_set Q = free_set P ∪ word_bits w m /\ FreeCount Q = FreeCount P + OnesCount64 m.
Proof using HP Hw.
  intros Hm Hnew Q. destruct HP as [HS HC].
  assert (Hx : is_u64 (Z.lor (word (L2 P) w) m)).
  { pose proof (words_word (L2 P) w (wf_w2 P HS)) as [A1 A2]%is_u64_testbit.
    apply is_u64_testbit in Hm as [B1 B2]. apply is_u64_testbit.
    split; [by apply Z.lor_nonneg|]. intros b Hb. by rewrite Z.lor_spec, A2, B2. }
  assert (HQ : shape Q).
  { apply set_word_shape; try done. intros b Hb Ht. rewrite Z.lor_spec.
    apply orb_false_intro; [|apply not_true_iff_false; intros E; apply Hnew in E; lia].
    rewrite <- bit_word by done. by apply HS. }
  assert (HF : free_set Q = free_set P ∪ word_bits w m).
  { apply set_eq. intros i. rewrite elem_of_union, elem_of_word_bits.
    unfold Q. rewrite elem_of_free_set_set_word by done.
    pose proof (div_mod_64 i). case_decide as E; [|intuition congruence].
    rewrite Z.lor_spec, orb_true_iff, (elem_of_free_set P HS). unfold bit. rewrite <- E.
    assert (E' : w = i / 64 -> 0 <= i) by lia. intuition. }
  assert (Hdis : free_set P ## word_bits w m).
  { intros i [_ Hf]%(elem_of_free_set P HS) [<- Hb]%elem_of_word_bits.
    pose proof (div_mod_64 i). apply Hnew in Hb as [_ Hb]; [|lia]. unfold bit in Hf. congruence. }
  pose proof (size_union _ _ Hdis) as Hsz. rewrite <- HF in Hsz.
  pose proof (size_word_bits w m). pose proof (size_free_set Q HQ) as Hle.
  pose proof (wf_bc P HS). change (BlockCount Q) with (BlockCount P) in Hle.
  assert (HC' : FreeCount Q = FreeCount P + OnesCount64 m)
    by (unfold Q; simpl; apply u64_small; unfold is_u64; lia).
  split_and!; [|done|done]. split; [done | lia].
Qed.

Lemma clear_mask_wf :
  is_u64 m -> (forall b, 0 <= b < 64 -> Z.testbit m b = true ->
    Z.testbit (word (L2 P) w) b = true) ->
  let Q := set_word P w (Z.ldiff (word (L2 P) w) m) (u64 (FreeCount P - OnesCount64 m)) in
  wf Q /\ free_set Q = free_set P ∖ word_bits w m /\ FreeCount Q = FreeCount P - OnesCount64 m.
Proof using HP Hw.
  intros Hm Hsub Q. destruct HP as [HS HC].
  assert (Hx : is_u64 (Z.ldiff (word (L2 P) w) m)).
  { pose proof (words_word (L2 P) w (wf_w2 P HS)) as [A1 A2]%is_u64_testbit.
    apply is_u64_testbit. split; [apply Z.ldiff_nonneg; lia|].
    intros b Hb. by rewrite Z.ldiff_spec, A2. }
  assert (HQ : shape Q).
  { apply set_word_shape; try done. intros b Hb Ht. rewrite Z.ldiff_spec, <- bit_word by done.
    by rewrite (wf_tail P HS). }
  assert (HF : free_set Q = free_set P ∖ word_bits w m).
  { apply set_eq. intros i. rewrite elem_of_difference, elem_of_word_bits.
    unfold Q. rewrite elem_of_free_set_set_word by done.
    pose proof (div_mod_64 i). case_decide as E; [|intuition congruence].
    rewrite Z.ldiff_spec, andb_true_iff, negb_true_iff, (elem_of_free_set P HS).
    unfold bit. rewrite <- E. destruct (Z.testbit m (i mod 64)); intuition congruence. }
  assert (Hss : word_bits w m ⊆ free_set P).
  { intros i [<- Hb]%elem_of_word_bits. apply (elem_of_free_set P HS).
    pose proof (div_mod_64 i). split; [lia|]. apply Hsub; [lia|done]. }
  pose proof (size_word_bits w m) as Hs. apply subseteq_size in Hss as Hle.
  pose proof (size_difference _ _ Hss) as Hsz. rewrite <- HF in Hsz.
  pose proof (size_free_set P HS). pose proof (wf_bc P HS).
  assert (HC' : FreeCount Q = FreeCount P - OnesCount64 m)
    by (unfold Q; simpl; apply u64_small; unfold is_u64; lia).
  split_and!; [|done|done]. split; [done | lia].
Qed.

End masks.

(** ** Propagation: when the summaries do not change *)
Section propagation.
Context (P : pyramid) (HP : shape P) (w x fc : Z).
Context (Hw : 0 <= w < Z.of_nat (length (L2 P))).

Lemma w_bounds : 0 <= w < 64 * Z.of_nat (length (L1 P)) /\
  0 <= w / 64 < Z.of_nat (length (L1 P)) /\ 0 <= w / 64 < 64 * Z.of_nat (length (L0 P)) /\
  0 <= w / 64 / 64 < Z.of_nat (length (L0 P)).
Proof using HP Hw.
  pose proof (shape_bounds P HP). pose proof (div_mod_64 w).
  pose proof (div_mod_64 (w / 64)). lia.
Qed.

Lemma set_word_keep1 :
  bit (L1 P) w = negb (x =? 0) ->
  set_word P w x fc = mkPyramid (L0 P) (L1 P) (<[Z.to_nat w := x]> (L2 P)) (BlockCount P) fc.
Proof using HP Hw.
  intros E. pose proof w_bounds as (A & B & C & D). unfold set_word.
  rewrite (upd_id (L1 P)) by (apply HP || done).
  rewrite (upd_id (L0 P)); [done | apply HP | lia |]. apply HP. lia.
Qed.

Lemma set_word_keep0 :
  let y := upd_word (word (L1 P) (w / 64)) (w mod 64) (negb (x =? 0)) in
  bit (L0 P) (w / 64) = negb (y =? 0) ->
  set_word P w x fc = mkPyramid (L0 P) (<[Z.to_nat (w / 64) := y]> (L1 P))
    (<[Z.to_nat w := x]> (L2 P)) (BlockCount P) fc.
Proof using HP Hw.
  intros y E. pose proof w_bounds as (A & B & C & D). unfold set_word.
  rewrite word_upd, decide_True by lia. rewrite (upd_id (L0 P)); [done | apply HP | lia | done].
Qed.

Lemma set_word_all :
  let y := upd_word (word (L1 P) (w / 64)) (w mod 64) (negb (x =? 0)) in
  set_word P w x fc = mkPyramid
    (<[Z.to_nat (w / 64 / 64) :=
        upd_word (word (L0 P) (w / 64 / 64)) ((w / 64) mod 64) (negb (y =? 0))]> (L0 P))
    (<[Z.to_nat (w / 64) := y]> (L1 P)) (<[Z.to_nat w := x]> (L2 P)) (BlockCount P) fc.
Proof using HP Hw.
  intros y. pose proof w_bounds as (A & B & C & D). unfold set_word.
  by rewrite word_upd, decide_True by lia.
Qed.

End propagation.

Lemma word_bits_shl64 w b : 0 <= b < 64 -> word_bits w (shl64 1 b) = {[w * 64 + b]}.
Proof.
  intros Hb. rewrite shl64_1 by done. apply set_eq. intros i.
  rewrite elem_of_word_bits, elem_of_singleton. pose proof (div_mod_64 i).
  rewrite Z.pow2_bits_eqb, Z.eqb_eq by lia. lia.
Qed.

Lemma OnesCount64_shl64 b : 0 <= b < 64 -> OnesCount64 (shl64 1 b) = 1.
Proof.
  intros Hb. by rewrite <- (size_word_bits 0), word_bits_shl64, size_singleton.
Qed.

Lemma shl64_u64 a b : is_u64 (shl64 a b).
Proof. apply u64_range. Qed.

Lemma testbit_shl64 b b' :
  0 <= b < 64 -> 0 <= b' -> Z.testbit (shl64 1 b) b' = true <-> b' = b.
Proof. intros Hb Hb'. rewrite shl64_1, Z.pow2_bits_eqb, Z.eqb_eq by lia. lia. Qed.

(** Read and write words that are known to exist. *)
Ltac step_words :=
  cbn [mbind res_bind];
  repeat
    (lazymatch goal with
     | |- context [index ?l ?i ≫= _] => rewrite (index_word l i) by lia
     | |- context [store ?l ?i ?x ≫= _] => rewrite (store_word l i x) by lia
     end; cbn [mbind res_bind]).

(** ** The operations are word replacements *)
Section mark.
Context (P : pyramid) (HP : wf P) (rel : Z) (Hrel : 0 <= rel < BlockCount P).

Lemma rel_bounds : 0 <= rel / 64 < Z.of_nat (length (L2 P)) /\ 0 <= rel mod 64 < 64.
Proof using HP Hrel.
  pose proof (shape_bounds P (wf_shape P HP)). pose proof (div_mod_64 rel). lia.
Qed.

Lemma AllocMarkAllocated_set_word :
  bit (L2 P) rel = true ->
  AllocMarkAllocated P rel = Ret (set_word P (rel / 64)
    (Z.ldiff (word (L2 P) (rel / 64)) (shl64 1 (rel mod 64))) (u64 (FreeCount P - 1)), true).
Proof using HP Hrel.
  intros Hb. pose proof (wf_shape P HP) as HS. pose proof rel_bounds as [Hw Hm].
  pose proof (w_bounds P HS _ Hw) as (A & B & C & D).
  pose proof (div_mod_64 (rel / 64)) as [_ E1]. pose proof (div_mod_64 (rel / 64 / 64)) as [_ E0].
  unfold AllocMarkAllocated. rewrite (proj2 (Z.leb_gt _ _)) by lia. step_words.
  rewrite land_shl64 by lia. fold (bit (L2 P) rel). rewrite Hb. step_words.
  assert (B1 : bit (L1 P) (rel / 64) = true).
  { rewrite (wf_s1 P HS) by lia. apply negb_true_iff, Z.eqb_neq, word_nonzero.
    - apply words_word, HS.
    - by exists (rel mod 64). }
  assert (B0 : bit (L0 P) (rel / 64 / 64) = true).
  { rewrite (wf_s0 P HS) by lia. apply negb_true_iff, Z.eqb_neq, word_nonzero.
    - apply words_word, HS.
    - by exists ((rel / 64) mod 64). }
  destruct (Z.ldiff _ _ =? 0) eqn:Ex; step_words.
  - rewrite !(ldiff_shl64 _ ((rel / 64) mod 64)) by lia.
    destruct (upd_word _ _ _ =? 0) eqn:Ey; step_words.
    + rewrite set_word_all by done. rewrite Ex. cbn [negb]. rewrite Ey. cbn [negb].
      by rewrite !(ldiff_shl64 _ ((rel / 64 / 64) mod 64)) by lia.
    + rewrite set_word_keep0; [by rewrite Ex | done | done |].
      rewrite Ex. cbn [negb]. by rewrite Ey.
  - by rewrite set_word_keep1 by (by rewrite ?Ex).
Qed.

Lemma AllocMarkFree_set_word :
  bit (L2 P) rel = false ->
  AllocMarkFree P rel = Ret (set_word P (rel / 64)
    (Z.lor (word (L2 P) (rel / 64)) (shl64 1 (rel mod 64))) (u64 (FreeCount P + 1)), true).
Proof using HP Hrel.
  intros Hb. pose proof (wf_shape P HP) as HS. pose proof rel_bounds as [Hw Hm].
  pose proof (w_bounds P HS _ Hw) as (A & B & C & D).
  pose proof (div_mod_64 (rel / 64)) as [_ E1]. pose proof (div_mod_64 (rel / 64 / 64)) as [_ E0].
  pose proof (words_word (L2 P) (rel / 64) (wf_w2 P HS)) as U2.
  pose proof (words_word (L1 P) (rel / 64 / 64) (wf_w1 P HS)) as U1.
  assert (Xn : upd_word (word (L2 P) (rel / 64)) (rel mod 64) true <> 0).
  { apply word_nonzero; [by apply upd_word_u64|]. exists (rel mod 64). split; [done|].
    by rewrite testbit_upd_word, decide_True by lia. }
  unfold AllocMarkFree. rewrite (proj2 (Z.leb_gt _ _)) by lia. step_words.
  rewrite land_shl64 by lia. fold (bit (L2 P) rel). rewrite Hb. cbn [negb]. step_words.
  rewrite !(lor_shl64 _ (rel mod 64)) by lia. rewrite upd_word_eq_shl64 by done.
  apply Z.eqb_neq in Xn.
  assert (B1 : bit (L1 P) (rel / 64) = negb (word (L2 P) (rel / 64) =? 0)) by (apply HS; lia).
  destruct (word (L2 P) (rel / 64) =? 0) eqn:Ex; step_words.
  - assert (Yn : upd_word (word (L1 P) (rel / 64 / 64)) ((rel / 64) mod 64) true <> 0).
    { apply word_nonzero; [by apply upd_word_u64|]. exists ((rel / 64) mod 64). split; [done|].
      by rewrite testbit_upd_word, decide_True by lia. }
    apply Z.eqb_neq in Yn. rewrite !(lor_shl64 _ ((rel / 64) mod 64)) by lia.
    rewrite upd_word_eq_shl64 by done.
    assert (B0 : bit (L0 P) (rel / 64 / 64) = negb (word (L1 P) (rel / 64 / 64) =? 0))
      by (apply HS; lia).
    destruct (word (L1 P) (rel / 64 / 64) =? 0) eqn:Ey; step_words.
    + rewrite set_word_all by done. rewrite Xn. cbn [negb]. rewrite Yn. cbn [negb].
      by rewrite !(lor_shl64 _ ((rel / 64 / 64) mod 64)) by lia.
    + rewrite set_word_keep0; [by rewrite Xn | done | done |].
      rewrite Xn. cbn [negb]. by rewrite Yn.
  - rewrite set_word_keep1; [done | done | done |]. by rewrite Xn.
Qed.

End mark.

(** ** Specifications against the set of free blocks *)

Lemma wf_ext P Q :
  wf P -> wf Q -> BlockCount Q = BlockCount P -> free_set Q = free_set P -> Q = P.
Proof.
  intros [HP CP] [HQ CQ] Hb Hf. destruct (shape_ext P HP Q HQ Hb Hf) as (E0 & E1 & E2).
  destruct P, Q; simpl in *. congruence.
Qed.

Lemma AllocMarkAllocated_spec P rel :
  wf P -> 0 <= rel ->
  exists Q, AllocMarkAllocated P rel = Ret (Q, bool_decide (rel ∈ free_set P)) /\ wf Q /\
    BlockCount Q = BlockCount P /\ free_set Q = free_set P ∖ {[rel]}.
Proof.
  intros HP Hrel. pose proof (wf_shape P HP) as HS.
  destruct (decide (rel ∈ free_set P)) as [Hin|Hout].
  - pose proof (free_set_range P rel Hin) as Hr.
    pose proof Hin as [_ Hb]%(elem_of_free_set P HS).
    destruct (rel_bounds P HP rel Hr) as [Hw Hm].
    rewrite bool_decide_true, (AllocMarkAllocated_set_word P HP) by done.
    destruct (clear_mask_wf P HP (rel / 64) (shl64 1 (rel mod 64))) as (HQ & HF & HC);
      [done | apply shl64_u64 | |].
    { intros b Hb' ->%testbit_shl64; [done|lia|lia]. }
    rewrite OnesCount64_shl64 in HQ, HF by done. clear HC. eexists. split_and!; [done|done|done|].
    rewrite HF, word_bits_shl64 by done. pose proof (div_mod_64 rel).
    by replace (rel / 64 * 64 + rel mod 64) with rel by lia.
  - exists P. rewrite bool_decide_false by done. split_and!; [|done|done|set_solver].
    unfold AllocMarkAllocated. destruct (BlockCount P <=? rel) eqn:E; [done|].
    apply Z.leb_gt in E. destruct (rel_bounds P HP rel) as [Hw Hm]; [lia|].
    step_words. rewrite land_shl64 by done. fold (bit (L2 P) rel).
    rewrite (elem_of_free_set P HS) in Hout. by destruct (bit (L2 P) rel); [destruct Hout|].
Qed.

Lemma AllocMarkFree_noop P rel :
  wf P -> 0 <= rel -> BlockCount P <= rel \/ rel ∈ free_set P ->
  AllocMarkFree P rel = Ret (P, false).
Proof.
  intros HP Hrel Hno. unfold AllocMarkFree. destruct (BlockCount P <=? rel) eqn:E; [done|].
  apply Z.leb_gt in E. destruct (rel_bounds P HP rel) as [Hw Hm]; [lia|].
  step_words. rewrite land_shl64 by done. fold (bit (L2 P) rel).
  destruct Hno as [?|[_ ->]%(elem_of_free_set P (wf_shape P HP))]; [lia|done].
Qed.

Lemma AllocMarkFree_spec P rel :
  wf P -> 0 <= rel ->
  exists Q, AllocMarkFree P rel
    = Ret (Q, bool_decide (rel < BlockCount P /\ rel ∉ free_set P)) /\ wf Q /\
    BlockCount Q = BlockCount P /\
    free_set Q = free_set P ∪ (if decide (rel < BlockCount P) then {[rel]} else ∅).
Proof.
  intros HP Hrel. pose proof (wf_shape P HP) as HS.
  case_decide as Hlt; [destruct (decide (rel ∈ free_set P)) as [Hin|Hout]|].
  - exists P. rewrite AllocMarkFree_noop, bool_decide_false by tauto.
    split_and!; [done..|set_solver].
  - rewrite bool_decide_true by done. destruct (rel_bounds P HP rel) as [Hw Hm]; [lia|].
    assert (Hb : bit (L2 P) rel = false).
    { apply not_true_iff_false. intros Hb. apply Hout. by apply (elem_of_free_set P HS). }
    rewrite AllocMarkFree_set_word by done. pose proof (div_mod_64 rel).
    destruct (set_mask_wf P HP (rel / 64) (shl64 1 (rel mod 64)) Hw) as (HQ & HF & HC);
      [apply shl64_u64 | |].
    { intros b Hb' ->%testbit_shl64; [|lia|lia]. split; [lia|done]. }
    rewrite OnesCount64_shl64 in HQ, HF by done. clear HC. eexists. split_and!; [done|done|done|].
    rewrite HF, word_bits_shl64 by done.
    by replace (rel / 64 * 64 + rel mod 64) with rel by lia.
  - exists P. rewrite AllocMarkFree_noop, bool_decide_false by (lia || tauto).
    split_and!; [done..|set_solver].
Qed.

(** ** Runs *)

Lemma low_mask k : 0 <= k <= 64 -> u64 (shl64 1 k - 1) = Z.ones k.
Proof.
  intros Hk. rewrite Z.ones_equiv. destruct (decide (k = 64)) as [->|]; [done|].
  rewrite shl64_1 by lia. rewrite u64_small; [lia|].
  assert (0 < 2 ^ k < 2 ^ 64) by (split; [lia | apply Z.pow_lt_mono_r; lia]). unfold is_u64. lia.
Qed.

Lemma run_mask_u64 first n s e w : is_u64 (run_mask first n s e w).
Proof.
  assert (Hm : forall m, is_u64 (Z.ldiff (not64 0) m)).
  { intros m. apply is_u64_testbit. split; [apply Z.ldiff_nonneg; left; done|].
    intros b Hb. rewrite Z.ldiff_spec. change (not64 0) with (Z.ones 64).
    by rewrite Z.testbit_ones_nonneg, (proj2 (Z.ltb_ge _ _)) by lia. }
  assert (H0 : is_u64 (not64 0)) by (unfold is_u64; done).
  assert (Hl : forall a m, is_u64 a -> is_u64 (Z.land a m)).
  { intros a m [A1 A2]%is_u64_testbit. apply is_u64_testbit.
    split; [apply Z.land_nonneg; auto|]. intros b Hb. by rewrite Z.land_spec, A2. }
  unfold run_mask. destruct (w =? s), (w =? e); auto.
Qed.

Lemma run_mask_spec first n w b :
  0 <= first -> 0 < n -> first + n < 2 ^ 64 -> 0 <= b < 64 ->
  first / 64 <= w <= (first + n - 1) / 64 ->
  Z.testbit (run_mask first n (first / 64) (u64 (first + n - 1) / 64) w) b = true <->
  first <= w * 64 + b < first + n.
Proof.
  intros H1 H2 H3 Hb Hw. unfold run_mask. rewrite !(u64_small (first + n - 1)) by (unfold is_u64; lia).
  pose proof (div_mod_64 first). pose proof (div_mod_64 (first + n - 1)).
  rewrite !low_mask by lia. change (not64 0) with (Z.ones 64).
  destruct (w =? first / 64) eqn:Es; destruct (w =? (first + n - 1) / 64) eqn:Ee;
    rewrite ?Z.eqb_eq, ?Z.eqb_neq in *; rewrite ?Z.land_spec, ?Z.ldiff_spec;
    rewrite !Z.testbit_ones_nonneg by lia;
    rewrite ?andb_true_iff, ?negb_true_iff, ?Z.ltb_lt, ?Z.ltb_ge; lia.
Qed.

Lemma free_run_word_set_word P w m :
  wf P -> 0 <= w < Z.of_nat (length (L2 P)) -> Z.ldiff m (word (L2 P) w) <> 0 ->
  free_run_word P w m = Ret (set_word P w (Z.lor (word (L2 P) w) m)
    (u64 (FreeCount P + OnesCount64 (Z.ldiff m (word (L2 P) w)))),
    OnesCount64 (Z.ldiff m (word (L2 P) w))).
Proof.
  intros HP Hw Hadd. pose proof (wf_shape P HP) as HS.
  pose proof (w_bounds P HS _ Hw) as (A & B & C & D).
  pose proof (div_mod_64 w) as [_ E1]. pose proof (div_mod_64 (w / 64)) as [_ E0].
  pose proof (words_word (L1 P) (w / 64) (wf_w1 P HS)) as U1.
  assert (Xn : (Z.lor (word (L2 P) w) m =? 0) = false).
  { apply Z.eqb_neq. intros [_ Em]%Z.lor_eq_0_iff. apply Hadd. by rewrite Em, Z.ldiff_0_l. }
  assert (Yn : (upd_word (word (L1 P) (w / 64)) (w mod 64) true =? 0) = false).
  { apply Z.eqb_neq, word_nonzero; [by apply upd_word_u64|]. exists (w mod 64).
    split; [done|]. by rewrite testbit_upd_word, decide_True by lia. }
  apply Z.eqb_neq in Hadd. unfold free_run_word. step_words. rewrite Hadd.
  assert (B1 : bit (L1 P) w = negb (word (L2 P) w =? 0)) by (apply HS; lia).
  assert (B0 : bit (L0 P) (w / 64) = negb (word (L1 P) (w / 64) =? 0)) by (apply HS; lia).
  destruct (word (L2 P) w =? 0) eqn:Ex; step_words.
  - rewrite !(lor_shl64 _ (w mod 64)) by done.
    destruct (word (L1 P) (w / 64) =? 0) eqn:Ey; step_words.
    + rewrite set_word_all by done. rewrite Xn. cbn [negb]. rewrite Yn. cbn [negb].
      by rewrite lor_shl64 by done.
    + rewrite set_word_keep0; [by rewrite Xn | done | done |].
      rewrite Xn. cbn [negb]. by rewrite Yn.
  - rewrite set_word_keep1; [done | done | done |]. by rewrite Xn.
Qed.

Lemma free_run_word_spec P w m :
  wf P -> 0 <= w < Z.of_nat (length (L2 P)) -> is_u64 m ->
  (forall b, 0 <= b < 64 -> Z.testbit m b = true -> w * 64 + b < BlockCount P) ->
  exists Q, free_run_word P w m = Ret (Q, FreeCount Q - FreeCount P) /\ wf Q /\
    BlockCount Q = BlockCount P /\ free_set Q = free_set P ∪ word_bits w m.
Proof.
  intros HP Hw Hm Hr. pose proof (wf_shape P HP) as HS.
  pose proof (w_bounds P HS _ Hw) as (A & B & C & D).
  set (x := word (L2 P) w). assert (Ux : is_u64 x) by apply words_word, HS.
  assert (Hadd : is_u64 (Z.ldiff m x)).
  { apply is_u64_testbit in Hm as [M1 M2]. apply is_u64_testbit.
    split; [apply Z.ldiff_nonneg; auto|]. intros b Hb. by rewrite Z.ldiff_spec, M2. }
  destruct (set_mask_wf P HP w (Z.ldiff m x) Hw) as (HQ & HF & HC); [done| |].
  { intros b Hb. rewrite Z.ldiff_spec, andb_true_iff, negb_true_iff. naive_solver. }
  fold x in HQ, HF, HC.
  assert (Elor : Z.lor x (Z.ldiff m x) = Z.lor x m).
  { apply Z.bits_inj_iff'. intros b Hb. rewrite !Z.lor_spec, Z.ldiff_spec.
    by destruct (Z.testbit x b), (Z.testbit m b). }
  assert (Ebits : free_set P ∪ word_bits w (Z.ldiff m x) = free_set P ∪ word_bits w m).
  { apply set_eq. intros i. rewrite !elem_of_union, !elem_of_word_bits, Z.ldiff_spec.
    rewrite andb_true_iff, negb_true_iff, (elem_of_free_set P HS). unfold bit.
    pose proof (div_mod_64 i). destruct (decide (i / 64 = w)) as [<-|]; [|tauto]. fold x.
    destruct (Z.testbit x (i mod 64)) eqn:?; intuition (congruence || lia). }
  rewrite Elor in HQ, HF, HC. rewrite Ebits in HF.
  set (Q := set_word P w (Z.lor x m) (u64 (FreeCount P + OnesCount64 (Z.ldiff m x)))) in *.
  destruct (decide (Z.ldiff m x = 0)) as [Ea|Ea].
  - exists P. unfold free_run_word. step_words. fold x. rewrite Ea. simpl.
    rewrite Z.sub_diag. split_and!; [done..|]. rewrite <- Ebits, Ea.
    apply set_eq. intros i. rewrite elem_of_union, elem_of_word_bits, Z.bits_0.
    intuition congruence.
  - exists Q. rewrite free_run_word_set_word by done. fold x. fold Q.
    split_and!; [|done..]. do 2 f_equal. lia.
Qed.

(** The blocks of a run from word [w] on. *)
Definition run_from (first n w : Z) : gset Z :=
  list_to_set (filter (fun i => w <= i / 64) (seqZ first n)).

Lemma elem_of_run_from first n w i :
  i ∈ run_from first n w <-> first <= i < first + n /\ w <= i / 64.
Proof.
  unfold run_from. rewrite elem_of_list_to_set, list_elem_of_filter, elem_of_seqZ. lia.
Qed.

Lemma free_run_loop_spec first n k : forall P w freed,
  wf P -> 0 <= first -> 0 < n -> first + n <= BlockCount P ->
  first / 64 <= w -> Z.of_nat k = (first + n - 1) / 64 - w + 1 ->
  0 <= freed <= FreeCount P ->
  exists Q, free_run_loop P first n (first / 64) (u64 (first + n - 1) / 64) w k freed
    = Ret (Q, freed + (FreeCount Q - FreeCount P)) /\ wf Q /\
    BlockCount Q = BlockCount P /\ free_set Q = free_set P ∪ run_from first n w.
Proof.
  induction k as [|k IH]; intros P w freed HP Hf Hn Hbc Hw Hk Hfr; cbn [free_run_loop].
  - exists P. rewrite Z.sub_diag, Z.add_0_r. split_and!; [done..|].
    assert (E : run_from first n w = ∅); [|rewrite E; set_solver].
    apply set_eq. intros i. rewrite elem_of_run_from. split; [|set_solver]. intros [Hi Hge].
    pose proof (Z.div_le_mono i (first + n - 1) 64). lia.
  - pose proof (wf_bc P (wf_shape P HP)) as Hb. pose proof (shape_bounds P (wf_shape P HP)).
    pose proof (div_mod_64 first). pose proof (div_mod_64 (first + n - 1)).
    pose proof (fun b => run_mask_spec first n w b Hf Hn) as Hmask.
    destruct (free_run_word_spec P w (run_mask first n (first / 64) (u64 (first + n - 1) / 64) w))
      as (Q & E & HQ & Hbq & Hfq); [done|lia|apply run_mask_u64| |].
    { intros b Hb' Ht. apply Hmask in Ht; lia. }
    rewrite E. cbn [mbind res_bind].
    assert (Hle : FreeCount P <= FreeCount Q).
    { rewrite (wf_count P HP), (wf_count Q HQ), Hfq. apply inj_le, subseteq_size. set_solver. }
    assert (Hu : FreeCount Q < 2 ^ 64).
    { rewrite (wf_count Q HQ). pose proof (size_free_set Q (wf_shape Q HQ)). lia. }
    rewrite (u64_small (freed + _)) by (unfold is_u64; lia).
    destruct (IH Q (w + 1) (freed + (FreeCount Q - FreeCount P))) as (R & E' & HR & Hbr & Hfr');
      try (done || lia).
    exists R. rewrite E'. split_and!; [f_equal; f_equal; lia | done | congruence |].
    rewrite Hfr', Hfq, <- (assoc_L (∪)). f_equal. apply set_eq. intros i.
    rewrite elem_of_union, elem_of_word_bits, !elem_of_run_from. pose proof (div_mod_64 i).
    split.
    + intros [[Ei Ht]|?]; [|lia]. apply Hmask in Ht; lia.
    + intros [Hi Hge]. destruct (decide (i / 64 = w)) as [Ei|]; [left|right; lia].
      split; [done|]. apply Hmask; lia.
Qed.

(** The run, cut off at the end of the volume. *)
Definition run_set (P : pyramid) (first n : Z) : gset Z :=
  list_to_set (filter (fun i => i < first + n) (seqZ first (BlockCount P - first))).

Lemma elem_of_run_set P first n i :
  i ∈ run_set P first n <-> first <= i < first + n /\ i < BlockCount P.
Proof.
  unfold run_set. rewrite elem_of_list_to_set, list_elem_of_filter, elem_of_seqZ. lia.
Qed.

Lemma AllocMarkFreeRun_spec P first n :
  wf P -> is_u64 first -> is_u64 n ->
  exists Q, AllocMarkFreeRun P first n = Ret (Q, FreeCount Q - FreeCount P) /\ wf Q /\
    BlockCount Q = BlockCount P /\ free_set Q = free_set P ∪ run_set P first n.
Proof.
  intros HP [Hf Hf'] [Hn Hn']. pose proof (wf_bc P (wf_shape P HP)) as Hb. unfold AllocMarkFreeRun.
  destruct ((n =? 0) || (BlockCount P <=? first)) eqn:E.
  - exists P. rewrite Z.sub_diag. split_and!; [done..|].
    rewrite orb_true_iff, Z.eqb_eq, Z.leb_le in E.
    assert (Er : run_set P first n = ∅); [|rewrite Er; set_solver].
    apply set_eq. intros i. rewrite elem_of_run_set. split; [lia|set_solver].
  - rewrite orb_false_iff, Z.eqb_neq, Z.leb_gt in E. destruct E as [E1 E2].
    rewrite (u64_small (BlockCount P - first)) by (unfold is_u64; lia).
    set (n' := if BlockCount P - first <? n then BlockCount P - first else n).
    assert (Hn'' : 0 < n' <= n /\ first + n' <= BlockCount P /\
      (n' = n \/ first + n' = BlockCount P)).
    { unfold n'. destruct (BlockCount P - first <? n) eqn:El;
        rewrite ?Z.ltb_lt, ?Z.ltb_ge in El; lia. }
    pose proof (div_mod_64 first). pose proof (div_mod_64 (first + n' - 1)).
    destruct (free_run_loop_spec first n' (Z.to_nat (u64 (first + n' - 1) / 64 - first / 64 + 1))
      P (first / 64) 0) as (Q & EQ & HQ & Hbq & Hfq); try (done || lia).
    { rewrite u64_small by (unfold is_u64; lia). lia. }
    { rewrite (wf_count P HP). lia. }
    exists Q. rewrite EQ. split_and!; [done..|]. rewrite Hfq. f_equal.
    apply set_eq. intros i. rewrite elem_of_run_from, elem_of_run_set.
    pose proof (Z.div_le_mono first i 64). lia.
Qed.

Lemma AllocIsAllocated_spec P rel :
  wf P -> 0 <= rel ->
  AllocIsAllocated (L2 P) (BlockCount P) rel
  = bool_decide (rel < BlockCount P /\ rel ∉ free_set P).
Proof.
  intros HP Hrel. unfold AllocIsAllocated. destruct (BlockCount P <=? rel) eqn:E.
  - apply Z.leb_le in E. by rewrite bool_decide_false by lia.
  - apply Z.leb_gt in E. destruct (rel_bounds P HP rel) as [Hw Hm]; [lia|].
    rewrite lookup_word, land_shl64 by done. fold (bit (L2 P) rel). symmetry.
    apply eq_true_iff_eq. rewrite bool_decide_eq_true, negb_true_iff.
    rewrite (elem_of_free_set P (wf_shape P HP)).
    destruct (bit (L2 P) rel); intuition (congruence || lia).
Qed.
