(* ===== verification/Allocator.v ===== *)
(** * The batch allocator (briefs/allocator.go)

    [AllocBuilder]: construction of a fresh pyramid, the search for a free
    block, and the pool image that mkfs and fsck write and that
    [ReadAllocatorBitmap] reads back. *)

From stdpp Require Import base numbers list option gmap.
From Stdlib Require Import ZArith Lia.
From S2P Require Import Prelude Codec Bits AllocCore.

Local Open Scope Z_scope.

Definition AllocMagic : Z := 0x4249544D.

(** One level of a fresh pyramid: [n] words of ones, the last one cut off
    after [total] bits. *)
Definition full_level (n total : Z) : list Z :=
  let l := replicate (Z.to_nat n) (not64 0) in
  let tail := total mod 64 in
  if tail =? 0 then l else <[(length l - 1)%nat := u64 (shl64 1 tail - 1)]> l.

Definition NewAllocBuilder (dataBlockCount : Z) : pyramid :=
  let '(l0Words, l1Words, l2Words) := AllocLevelWords dataBlockCount in
  mkPyramid (full_level l0Words l1Words) (full_level l1Words l2Words)
    (full_level l2Words dataBlockCount) dataBlockCount dataBlockCount.

Definition MarkAllocated (b : pyramid) (relBlock : Z) : res alloc_error pyramid :=
  '(b', _) ← AllocMarkAllocated b relBlock; Ret b'.

Definition MarkFree (b : pyramid) (relBlock : Z) : res alloc_error pyramid :=
  '(b', _) ← AllocMarkFree b relBlock; Ret b'.

Definition IsAllocated (b : pyramid) (relBlock : Z) : bool :=
  AllocIsAllocated (L2 b) (BlockCount b) relBlock.

Definition NewDataAllocBuilder (dataBlockCount : Z) : res alloc_error pyramid :=
  let b := NewAllocBuilder dataBlockCount in
  if 0 <? dataBlockCount then MarkAllocated b 0 else Ret b.

Definition allocWordBlocks (words : Z) : Z :=
  let blk := u64 (u64 (words * 8) + 4095) / 4096 in
  if blk <? 1 then 1 else blk.

Definition wordBlocks (words : list Z) : Z := allocWordBlocks (Z.of_nat (length words)).

Definition NbBlocks (b : pyramid) : Z :=
  1 + wordBlocks (L0 b) + wordBlocks (L1 b) + wordBlocks (L2 b).

Definition AllocPoolBlocks (blockCount : Z) : Z :=
  let '(l0, l1, l2) := AllocLevelWords blockCount in
  1 + allocWordBlocks l0 + allocWordBlocks l1 + allocWordBlocks l2.

(** The body of the search loop of [AllocateBlock] for one word of L0: [None]
    is its [continue]. *)
Definition probe (b : pyramid) (w0 : Z) : option Z :=
  let x0 := word (L0 b) w0 in
  if x0 =? 0 then None else
  let w1 := u64 (w0 * 64 + TrailingZeros64 x0) in
  if Z.of_nat (length (L1 b)) <=? w1 then None else
  let l1Word := word (L1 b) w1 in
  if l1Word =? 0 then None else
  let w2 := u64 (w1 * 64 + TrailingZeros64 l1Word) in
  if Z.of_nat (length (L2 b)) <=? w2 then None else
  let l2Word := word (L2 b) w2 in
  if l2Word =? 0 then None else
  let block := u64 (w2 * 64 + TrailingZeros64 l2Word) in
  if BlockCount b <=? block then None else Some block.

(** [for w0 := 0; w0 < len(b.L0); w0++], [k] words to go *)
Fixpoint search (b : pyramid) (w0 : Z) (k : nat) : option Z :=
  match k with
  | O => None
  | S k' => match probe b w0 with
            | Some block => Some block
            | None => search b (w0 + 1) k'
            end
  end.

Definition AllocateBlock (b : pyramid) : res alloc_error (pyramid * Z) :=
  if FreeCount b =? 0 then Err ErrNoFree else
  match search b 0 (length (L0 b)) with
  | Some block => b' ← MarkAllocated b block; Ret (b', block)
  | None => Err (ErrExhausted (FreeCount b))
  end.

(** ** A fresh pyramid *)

Lemma length_full_level n total : length (full_level n total) = Z.to_nat n.
Proof.
  unfold full_level. destruct (total mod 64 =? 0); rewrite ?length_insert; apply length_replicate.
Qed.

Lemma words_full_level n total : words (full_level n total).
Proof.
  assert (H : words (replicate (Z.to_nat n) (not64 0))) by (by apply Forall_replicate).
  unfold full_level. destruct (total mod 64 =? 0); [done|].
  apply words_insert; [done|apply u64_range].
Qed.

Lemma bit_full_level n total i :
  1 <= n -> 64 * (n - 1) < total <= 64 * n -> 0 <= i ->
  bit (full_level n total) i = bool_decide (i < total).
Proof.
  intros Hn Ht Hi. pose proof (div_mod_64 i). pose proof (div_mod_64 total).
  destruct (decide (64 * n <= i)).
  { rewrite bit_out, bool_decide_false by (rewrite ?length_full_level; lia). done. }
  assert (Hr : word (replicate (Z.to_nat n) (not64 0)) (i / 64) = Z.ones 64).
  { unfold word. by rewrite lookup_replicate_2 by lia. }
  unfold full_level. destruct (total mod 64 =? 0) eqn:E.
  - apply Z.eqb_eq in E. unfold bit. rewrite Hr, Z.testbit_ones_nonneg by lia.
    rewrite (proj2 (Z.ltb_lt _ _)), bool_decide_true by lia. done.
  - apply Z.eqb_neq in E. rewrite length_replicate, low_mask by lia.
    replace (Z.to_nat n - 1)%nat with (Z.to_nat (n - 1)) by lia.
    rewrite bit_insert by (rewrite ?length_replicate; lia). case_decide as En.
    + rewrite Z.testbit_ones_nonneg by lia. apply eq_true_iff_eq.
      rewrite Z.ltb_lt, bool_decide_eq_true. lia.
    + unfold bit. rewrite Hr, Z.testbit_ones_nonneg by lia.
      rewrite (proj2 (Z.ltb_lt _ _)), bool_decide_true by lia. done.
Qed.

Lemma word_full_level n total i :
  1 <= n -> 64 * (n - 1) < total <= 64 * n -> 0 <= i ->
  (word (full_level n total) i =? 0) = negb (bool_decide (i < n)).
Proof.
  intros Hn Ht Hi. case_bool_decide as E; simpl.
  - apply Z.eqb_neq, word_nonzero_bit; [apply words_full_level|]. exists 0.
    split; [lia|]. rewrite bit_full_level, bool_decide_true by lia. done.
  - apply Z.eqb_eq, word_out. rewrite length_full_level. lia.
Qed.

Lemma summary_full n0 n1 total :
  1 <= n0 -> 64 * (n0 - 1) < n1 <= 64 * n0 -> 64 * (n1 - 1) < total <= 64 * n1 ->
  summary (full_level n0 n1) (full_level n1 total).
Proof.
  intros H0 H1 H2 i Hi. rewrite bit_full_level, word_full_level by lia. by rewrite negb_involutive.
Qed.

Lemma NewAllocBuilder_wf bc :
  0 < bc <= 2 ^ 64 - 64 ->
  wf (NewAllocBuilder bc) /\ BlockCount (NewAllocBuilder bc) = bc /\
  free_set (NewAllocBuilder bc) = list_to_set (seqZ 0 bc).
Proof.
  intros Hbc. unfold NewAllocBuilder.
  destruct (AllocLevelWords bc) as [[l0 l1] l2] eqn:E.
  pose proof (AllocLevelWords_bounds _ _ _ _ Hbc E) as ((? & ? & ?) & ? & ? & ?).
  set (P := mkPyramid _ _ _ _ _).
  assert (HS : shape P).
  { split; simpl; auto using words_full_level.
    - rewrite E. unfold lens. simpl. rewrite !length_full_level. repeat f_equal; lia.
    - apply summary_full; lia.
    - apply summary_full; lia.
    - intros i Hi. by rewrite bit_full_level, bool_decide_false by lia. }
  assert (HF : free_set P = list_to_set (seqZ 0 bc)).
  { apply set_eq. intros i. rewrite (elem_of_free_set P HS). simpl.
    rewrite elem_of_list_to_set, elem_of_seqZ.
    destruct (decide (0 <= i)); [|lia]. rewrite bit_full_level, bool_decide_eq_true by lia. lia. }
  split_and!; [|done|done]. split; [done|]. rewrite HF, size_list_to_set by apply NoDup_seqZ.
  rewrite length_seqZ. simpl. lia.
Qed.

(** ** The search *)

(** The least set bit of a bitmap, in the first nonzero word. *)
Lemma least_bit l w :
  words l -> 0 <= w -> (forall w', 0 <= w' < w -> word l w' = 0) -> word l w <> 0 ->
  let i := w * 64 + TrailingZeros64 (word l w) in
  0 <= i /\ bit l i = true /\ forall j, 0 <= j < i -> bit l j = false.
Proof.
  intros Hl Hw Hz Hn i. pose proof (words_word l w Hl) as Hu.
  destruct (TrailingZeros64_spec _ Hu Hn) as (Ht & Hb & Hlt).
  split_and!; [lia | by unfold i; rewrite bit_word |]. intros j Hj. unfold i in Hj.
  pose proof (div_mod_64 j) as [Ej Hm]. unfold bit.
  destruct (decide (j / 64 = w)) as [E|]; [rewrite E; apply Hlt; lia|].
  rewrite Hz by lia. apply Z.bits_0.
Qed.

Lemma summary_least up down i :
  summary up down -> bit up i = true -> 0 <= i -> (forall j, 0 <= j < i -> bit up j = false) ->
  0 <= i < Z.of_nat (length down) /\ word down i <> 0 /\
  forall j, 0 <= j < i -> word down j = 0.
Proof.
  intros Hs Hb Hi Hl. rewrite Hs, negb_true_iff, Z.eqb_neq in Hb by done.
  split_and!; [done| |done|].
  - apply Z.nle_gt. intros Hle. by apply Hb, word_out.
  - intros j Hj. specialize (Hl j Hj). rewrite Hs, negb_false_iff, Z.eqb_eq in Hl by lia. done.
Qed.

(** [i] is the least element of [s]. *)
Definition least (s : gset Z) (i : Z) : Prop := i ∈ s /\ forall j, j ∈ s -> i <= j.

Section search.
Context (P : pyramid) (HP : wf P).

(** From the first nonzero word of L0, the lowest set bits lead down to the
    least free block. *)
Lemma descend w0 :
  0 <= w0 -> (forall w, 0 <= w < w0 -> word (L0 P) w = 0) -> word (L0 P) w0 <> 0 ->
  let w1 := w0 * 64 + TrailingZeros64 (word (L0 P) w0) in
  let w2 := w1 * 64 + TrailingZeros64 (word (L1 P) w1) in
  let b := w2 * 64 + TrailingZeros64 (word (L2 P) w2) in
  (0 <= w1 < Z.of_nat (length (L1 P)) /\ word (L1 P) w1 <> 0) /\
  (0 <= w2 < Z.of_nat (length (L2 P)) /\ word (L2 P) w2 <> 0) /\
  0 <= b < BlockCount P /\ least (free_set P) b.
Proof using HP.
  intros Hw0 Hz Hn w1 w2 b. pose proof (wf_shape P HP) as HS.
  destruct (least_bit (L0 P) w0) as (A0 & A1 & A2); [apply HS|done..|].
  fold w1 in A0, A1, A2.
  destruct (summary_least _ _ w1 (wf_s0 P HS) A1 A0 A2) as (B0 & B1 & B2).
  destruct (least_bit (L1 P) w1) as (C0 & C1 & C2); [apply HS|lia|done..|].
  fold w2 in C0, C1, C2.
  destruct (summary_least _ _ w2 (wf_s1 P HS) C1 C0 C2) as (D0 & D1 & D2).
  destruct (least_bit (L2 P) w2) as (E0 & E1 & E2); [apply HS|lia|done..|].
  fold b in E0, E1, E2.
  assert (Hin : b ∈ free_set P) by (by apply (elem_of_free_set P HS)).
  pose proof (free_set_range P b Hin) as Hr.
  split_and!; try done; try lia. split; [done|]. intros j [Hj Hb]%(elem_of_free_set P HS). apply Z.nlt_ge. intros Hlt.
  by rewrite E2 in Hb by lia.
Qed.

Lemma probe_least w0 :
  0 <= w0 -> (forall w, 0 <= w < w0 -> word (L0 P) w = 0) -> word (L0 P) w0 <> 0 ->
  exists b, probe P w0 = Some b /\ least (free_set P) b.
Proof using HP.
  intros Hw0 Hz Hn. pose proof (wf_bc P (wf_shape P HP)) as Hbc.
  pose proof (shape_bounds P (wf_shape P HP)).
  destruct (descend w0 Hw0 Hz Hn) as ((A0 & A1) & (B0 & B1) & C0 & C1).
  eexists. split; [|exact C1]. unfold probe. rewrite (proj2 (Z.eqb_neq _ _) Hn).
  rewrite (u64_small (w0 * 64 + _)) by (unfold is_u64; lia).
  rewrite (proj2 (Z.leb_gt _ _)), (proj2 (Z.eqb_neq _ _) A1) by lia.
  rewrite (u64_small (_ * 64 + TrailingZeros64 (word (L1 P) _))) by (unfold is_u64; lia).
  rewrite (proj2 (Z.leb_gt _ _)), (proj2 (Z.eqb_neq _ _) B1) by lia.
  rewrite u64_small by (unfold is_u64; lia). by rewrite (proj2 (Z.leb_gt _ _)) by lia.
Qed.

Lemma search_least k : forall w0,
  0 <= w0 -> Z.of_nat (length (L0 P)) = w0 + Z.of_nat k ->
  (forall w, 0 <= w < w0 -> word (L0 P) w = 0) -> free_set P <> ∅ ->
  exists b, search P w0 k = Some b /\ least (free_set P) b.
Proof using HP.
  pose proof (wf_shape P HP) as HS.
  induction k as [|k IH]; intros w0 Hw Hk Hz Hne; simpl.
  - exfalso. apply set_choose_L in Hne as (i & [Hi Hb]%(elem_of_free_set P HS)).
    pose proof (div_mod_64 i) as [Ei Hm]. pose proof (div_mod_64 (i / 64)).
    assert (B1 : bit (L1 P) (i / 64) = true).
    { rewrite (wf_s1 P HS) by lia. apply negb_true_iff, Z.eqb_neq.
      intros E. unfold bit in Hb. rewrite E in Hb. by rewrite Z.bits_0 in Hb. }
    assert (B0 : bit (L0 P) (i / 64 / 64) = true).
    { rewrite (wf_s0 P HS) by lia. apply negb_true_iff, Z.eqb_neq.
      intros E. unfold bit in B1. rewrite E in B1. by rewrite Z.bits_0 in B1. }
    pose proof (div_mod_64 (i / 64 / 64)) as [E3 ?].
    unfold bit in B0. rewrite Hz in B0; [by rewrite Z.bits_0 in B0|].
    split; [lia|]. apply Z.nle_gt. intros Hle. rewrite word_out in B0 by lia.
    by rewrite Z.bits_0 in B0.
  - destruct (decide (word (L0 P) w0 = 0)) as [E|E].
    + assert (Hp : probe P w0 = None) by (unfold probe; by rewrite E).
      rewrite Hp. apply IH; [lia|lia| |done]. intros w Hw'.
      destruct (decide (w = w0)) as [->|]; [done|]. apply Hz. lia.
    + destruct (probe_least w0) as (b & -> & Hb); [done..|]. by exists b.
Qed.

Lemma AllocateBlock_spec :
  (free_set P = ∅ /\ AllocateBlock P = Err ErrNoFree) \/
  exists Q b, AllocateBlock P = Ret (Q, b) /\ least (free_set P) b /\ wf Q /\
    BlockCount Q = BlockCount P /\ free_set Q = free_set P ∖ {[b]}.
Proof using HP.
  unfold AllocateBlock. rewrite (wf_count P HP).
  destruct (decide (free_set P = ∅)) as [E|E].
  - left. split; [done|]. by rewrite E, size_empty.
  - right. rewrite (proj2 (Z.eqb_neq _ _)).
    2:{ intros Hs. apply E, leibniz_equiv, size_empty_iff. lia. }
    destruct (search_least (length (L0 P)) 0) as (b & -> & Hb); [lia..|done|].
    pose proof (free_set_range P b (proj1 Hb)).
    destruct (AllocMarkAllocated_spec P b HP) as (Q & Eq & HQ & Hbq & Hfq); [lia|].
    exists Q, b. unfold MarkAllocated. by rewrite Eq.
Qed.

End search.

(** ** The pool image *)

Inductive pool_error :=
| ErrHeaderRead (block : Z)
| ErrHeaderDecode (e : codec_error)
| ErrBadMagic (magic : Z)
| ErrLevelRead (level block : Z).

(** The writes [binary.LittleEndian.PutUint64(buf[j*8:], w)] of the words of
    one block, from word [j] on. *)
Fixpoint put_words (buf : list Z) (j : nat) (ws : list Z) : list Z :=
  match ws with
  | [] => buf
  | w :: ws' => put_words (blit (j * 8) (le_put 8 w) buf) (S j) ws'
  end.

(** [blockSize >= 8] in every call (the division by [wordsPerBlock] would
    panic otherwise). *)
Definition PackAllocWords (words : list Z) (blockSize : Z) : list (list Z) :=
  let wordsPerBlock := blockSize / 8 in
  let len := Z.of_nat (length words) in
  let nBlocks := u64 (len + wordsPerBlock - 1) / wordsPerBlock in
  (fun i =>
     let start := i * wordsPerBlock in
     let n := if len <? start + wordsPerBlock then len - start else wordsPerBlock in
     put_words (zeros (Z.to_nat blockSize)) 0
       (take (Z.to_nat n) (drop (Z.to_nat start) words))) <$> seqZ 0 nBlocks.

(** [blocks[startBlock+i] = buf] for each packed block *)
Fixpoint store_blocks (blocks : list (list Z)) (start : Z) (bufs : list (list Z))
    : res pool_error (list (list Z)) :=
  match bufs with
  | [] => Ret blocks
  | buf :: bufs' => blocks' ← store blocks start buf; store_blocks blocks' (start + 1) bufs'
  end.

Definition packWords (blocks : list (list Z)) (words : list Z) (startBlock : Z)
    : res pool_error (list (list Z)) :=
  store_blocks blocks startBlock (PackAllocWords words 4096).

Definition pool_header (b : pyramid) : AllocHeader :=
  mkAllocHeader AllocMagic 1 (Z.of_nat (length (L0 b))) (Z.of_nat (length (L1 b)))
    (Z.of_nat (length (L2 b))) (BlockCount b) (FreeCount b).

Definition WriteBlocks (b : pyramid) : res pool_error (list (list Z)) :=
  let blocks := replicate (Z.to_nat (NbBlocks b)) [] in
  let hdrData := match MarshalBinary (pool_header b) with Ret d => d | _ => [] end in
  blocks ← store blocks 0 (blit 0 (take 48 hdrData) (zeros 4096));
  blocks ← packWords blocks (L0 b) 1;
  let l0Blocks := wordBlocks (L0 b) in
  blocks ← packWords blocks (L1 b) (1 + l0Blocks);
  let l1Blocks := wordBlocks (L1 b) in
  packWords blocks (L2 b) (1 + l0Blocks + l1Blocks).

(** Reading: [r] stands for the [io.ReaderAt]; [r off] is the block read at
    byte offset [off], [None] for a read error. *)
Section reading.
Context (r : Z -> option (list Z)).

Definition ReadAllocatorHeader (poolBlock blockSize : Z) : res pool_error AllocHeader :=
  match r (int64 (u64 (poolBlock * blockSize))) with
  | None => Err (ErrHeaderRead poolBlock)
  | Some buf =>
      match UnmarshalBinary (A := AllocHeader) buf with
      | Ret h => if ah_Magic h =? AllocMagic then Ret h else Err (ErrBadMagic (ah_Magic h))
      | Err e => Err (ErrHeaderDecode e)
      | Panic => Panic
      end
  end.

(** Word [j] of a block, [binary.LittleEndian.Uint64(buf[j*8:])] *)
Definition get_words (buf : list Z) (k : nat) : list Z :=
  (fun j => le_get (slice (j * 8) (j * 8 + 8) buf)) <$> seq 0 k.

(** The loop over the [k] remaining blocks of a level of [total] words. *)
Fixpoint read_level (level start blockSize wordsPerBlock total i : Z) (k : nat)
    : res pool_error (list Z) :=
  match k with
  | O => Ret []
  | S k' =>
      match r (int64 (u64 (u64 (start + i) * blockSize))) with
      | None => Err (ErrLevelRead level (start + i))
      | Some buf =>
          let n := Z.min wordsPerBlock (total - i * wordsPerBlock) in
          rest ← read_level level start blockSize wordsPerBlock total (i + 1) k';
          Ret (get_words buf (Z.to_nat n) ++ rest)
      end
  end.

(** [make([]uint64, n)] panics beyond the address space of 2^48 bytes. *)
Definition read_words (level start blockSize total : Z) : res pool_error (list Z) :=
  if 2 ^ 45 <? total then Panic else
  let wordsPerBlock := blockSize / 8 in
  let blocks := u64 (total + wordsPerBlock - 1) / wordsPerBlock in
  read_level level start blockSize wordsPerBlock total 0 (Z.to_nat blocks).

Definition ReadAllocatorBitmap (poolBlock blockSize : Z)
    : res pool_error (list Z * list Z * list Z * AllocHeader) :=
  hdr ← ReadAllocatorHeader poolBlock blockSize;
  let wordsPerBlock := blockSize / 8 in
  let l0Blocks := u64 (ah_L0Words hdr + wordsPerBlock - 1) / wordsPerBlock in
  l0 ← read_words 0 (u64 (poolBlock + 1)) blockSize (ah_L0Words hdr);
  let l1Start := u64 (poolBlock + 1 + l0Blocks) in
  let l1Blocks := u64 (ah_L1Words hdr + wordsPerBlock - 1) / wordsPerBlock in
  l1 ← read_words 1 l1Start blockSize (ah_L1Words hdr);
  let l2Start := u64 (l1Start + l1Blocks) in
  l2 ← read_words 2 l2Start blockSize (ah_L2Words hdr);
  Ret (l0, l1, l2, hdr).

End reading.

(** The blocks of a level, by cutting its words into chunks. *)
Definition pack_chunk (ws : list Z) : list Z :=
  concat (le_put 8 <$> ws) ++ zeros (4096 - 8 * length ws).

Lemma length_concat_le (ws : list Z) : length (concat (le_put 8 <$> ws)) = (8 * length ws)%nat.
Proof.
  induction ws as [|w ws IH]; [done|]. rewrite fmap_cons. cbn [concat length].
  rewrite length_app, length_le_put, IH. lia.
Qed.

Lemma put_words_app ws : forall (pre post : list Z) j,
  length pre = (j * 8)%nat -> (8 * length ws <= length post)%nat ->
  put_words (pre ++ post) j ws = pre ++ concat (le_put 8 <$> ws) ++ drop (8 * length ws) post.
Proof.
  induction ws as [|w ws IH]; intros pre post j Hj Hl; [done|].
  rewrite fmap_cons. cbn [put_words concat length] in *.
  rewrite <- (take_drop 8 post) at 1. rewrite <- Hj.
  rewrite blit_app by (rewrite length_le_put, length_take; lia).
  rewrite app_assoc, IH by (rewrite ?length_app, ?length_le_put, ?length_drop; lia).
  rewrite drop_drop, <- !app_assoc. repeat f_equal. lia.
Qed.

Lemma put_words_zeros ws n :
  (8 * length ws <= n)%nat ->
  put_words (zeros n) 0 ws = concat (le_put 8 <$> ws) ++ zeros (n - 8 * length ws).
Proof.
  intros H. pose proof (put_words_app ws [] (zeros n) 0 eq_refl) as E.
  rewrite length_zeros in E. rewrite app_nil_l in E. rewrite E by done.
  unfold zeros at 1. by rewrite drop_replicate.
Qed.

Lemma get_words_chunk (ws : list Z) (rest : list Z) :
  words ws -> get_words (concat (le_put 8 <$> ws) ++ rest) (length ws) = ws.
Proof.
  intros Hw. unfold get_words. apply list_eq. intros i. rewrite list_lookup_fmap.
  destruct (decide (i < length ws)%nat) as [Hi|Hi].
  - rewrite lookup_seq_lt by done. simpl.
    destruct (lookup_lt_is_Some_2 ws i Hi) as [w Ew]. rewrite Ew. f_equal.
    pose proof (take_drop_middle ws i w Ew) as Hsplit. rewrite <- Hsplit at 1.
    rewrite fmap_app, concat_app, fmap_cons. cbn [concat]. rewrite <- !app_assoc.
    set (pre := concat (le_put 8 <$> take i ws)).
    assert (Hp : length pre = (i * 8)%nat)
      by (unfold pre; rewrite length_concat_le, length_take; lia).
    rewrite slice_app' by (done || apply length_le_put). apply le_get_put.
    exact (Forall_lookup_1 _ _ _ _ Hw Ew).
  - rewrite lookup_ge_None_2 by (rewrite length_seq; lia).
    by rewrite lookup_ge_None_2 by lia.
Qed.

(** Words [512 i .. 512 i + 511] of a level, and the number of its blocks. *)
Definition chunk (ws : list Z) (i : Z) : list Z := take 512 (drop (Z.to_nat (512 * i)) ws).
Definition level_blocks (len : Z) : Z := (len + 511) / 512.

Lemma level_blocks_bounds len :
  0 <= len -> len <= 512 * level_blocks len < len + 512.
Proof.
  intros H. unfold level_blocks. pose proof (Z.div_mod (len + 511) 512).
  pose proof (Z.mod_pos_bound (len + 511) 512). lia.
Qed.

Lemma PackAllocWords_chunks ws :
  Z.of_nat (length ws) < 2 ^ 60 ->
  PackAllocWords ws 4096
  = (fun i => pack_chunk (chunk ws i)) <$> seqZ 0 (level_blocks (Z.of_nat (length ws))).
Proof.
  intros Hlen. unfold PackAllocWords. change (4096 / 8) with 512.
  set (len := Z.of_nat (length ws)) in *. rewrite u64_small by (unfold is_u64; lia).
  replace (len + 512 - 1) with (len + 511) by lia. fold (level_blocks len).
  apply list_fmap_ext. intros k i Hk. apply lookup_seqZ in Hk as [-> Hk]. rewrite Z.add_0_l.
  pose proof (level_blocks_bounds len).
  assert (E : take (Z.to_nat (if len <? Z.of_nat k * 512 + 512 then len - Z.of_nat k * 512 else 512))
    (drop (Z.to_nat (Z.of_nat k * 512)) ws) = chunk ws (Z.of_nat k)).
  { unfold chunk. replace (Z.of_nat k * 512) with (512 * Z.of_nat k) by lia.
    destruct (len <? _) eqn:El; [|by apply Z.ltb_ge in El].
    apply Z.ltb_lt in El. rewrite !take_ge; [done|..]; rewrite length_drop; unfold len in *; lia. }
  rewrite E. change (Z.to_nat 4096) with 4096%nat. apply put_words_zeros.
  unfold chunk. rewrite length_take. lia.
Qed.

Lemma allocWordBlocks_level len :
  1 <= len < 2 ^ 60 -> allocWordBlocks len = level_blocks len.
Proof.
  intros H. unfold allocWordBlocks. rewrite (u64_small (len * 8)) by (unfold is_u64; lia).
  rewrite u64_small by (unfold is_u64; lia). pose proof (level_blocks_bounds len).
  assert (E : (len * 8 + 4095) / 4096 = level_blocks len).
  { symmetry. apply Z.div_unique with (len * 8 + 4095 - 4096 * level_blocks len); lia. }
  rewrite E. by rewrite (proj2 (Z.ltb_ge _ _)) by lia.
Qed.

Section read_back.
Context (r : Z -> option (list Z)) (level start : Z) (ws : list Z).
Context (Hws : words ws) (Hlen : Z.of_nat (length ws) <= 2 ^ 45).
Context (Hstart : 0 <= start).
Context (Hdev : (start + level_blocks (Z.of_nat (length ws))) * 4096 < 2 ^ 63).
Context (Hr : forall i, 0 <= i < level_blocks (Z.of_nat (length ws)) ->
  r ((start + i) * 4096) = Some (pack_chunk (chunk ws i))).

Lemma read_level_chunks k : forall i,
  0 <= i -> Z.of_nat k = level_blocks (Z.of_nat (length ws)) - i ->
  read_level r level start 4096 512 (Z.of_nat (length ws)) i k
  = Ret (drop (Z.to_nat (512 * i)) ws).
Proof using Hws Hstart Hdev Hr.
  pose proof (level_blocks_bounds (Z.of_nat (length ws))) as Hb.
  induction k as [|k IH]; intros i Hi Hk; cbn [read_level].
  - rewrite drop_ge; [done|lia].
  - rewrite (u64_small (start + i)) by (unfold is_u64; lia).
    rewrite u64_small by (unfold is_u64; lia). unfold int64. rewrite (proj2 (Z.ltb_lt _ _)) by lia.
    rewrite Hr by lia. rewrite IH by lia. cbn [mbind res_bind].
    set (c := chunk ws i).
    assert (Hc : Z.to_nat (512 `min` (Z.of_nat (length ws) - i * 512)) = length c)
      by (unfold c, chunk; rewrite length_take, length_drop; lia).
    rewrite Hc. unfold pack_chunk. rewrite get_words_chunk.
    + f_equal. unfold c, chunk. rewrite <- (take_drop 512 (drop (Z.to_nat (512 * i)) ws)) at 2.
      rewrite drop_drop. do 3 f_equal. lia.
    + unfold c, chunk. by apply Forall_take, Forall_drop.
Qed.

Lemma read_words_chunks :
  read_words r level start 4096 (Z.of_nat (length ws)) = Ret ws.
Proof using All.
  pose proof (level_blocks_bounds (Z.of_nat (length ws))) as Hb.
  unfold read_words. rewrite (proj2 (Z.ltb_ge _ _)) by lia. change (4096 / 8) with 512.
  rewrite u64_small by (unfold is_u64; lia).
  replace (Z.of_nat (length ws) + 512 - 1) with (Z.of_nat (length ws) + 511) by lia.
  fold (level_blocks (Z.of_nat (length ws))). rewrite read_level_chunks by lia. done.
Qed.

End read_back.

(** Storing a list of blocks at their place in a longer list. *)
Lemma store_blocks_app bufs : forall pre mid post,
  length mid = length bufs ->
  store_blocks (pre ++ mid ++ post) (Z.of_nat (length pre)) bufs = Ret (pre ++ bufs ++ post).
Proof.
  induction bufs as [|b bufs IH]; intros pre mid post Hl; simpl.
  - by destruct mid.
  - destruct mid as [|m mid]; [done|]. unfold store.
    rewrite decide_True by (rewrite length_app; simpl; lia). cbn [mbind res_bind].
    rewrite Nat2Z.id, insert_app_r_alt, Nat.sub_diag by lia. simpl.
    specialize (IH (pre ++ [b]) mid post). rewrite length_app, <- !app_assoc in IH. simpl in IH.
    replace (Z.of_nat (length pre) + 1) with (Z.of_nat (length pre + 1)) by lia.
    apply IH. simpl in Hl. lia.
Qed.

Definition header_block (b : pyramid) : list Z := encode (pool_header b) ++ zeros (4096 - 48).
Definition level_image (ws : list Z) : list (list Z) :=
  (fun i => pack_chunk (chunk ws i)) <$> seqZ 0 (level_blocks (Z.of_nat (length ws))).

Lemma length_level_image ws :
  Z.of_nat (length (level_image ws)) = level_blocks (Z.of_nat (length ws)).
Proof.
  unfold level_image. rewrite length_fmap, length_seqZ.
  pose proof (level_blocks_bounds (Z.of_nat (length ws))). lia.
Qed.

Section image.
Context (P : pyramid) (HP : wf P) (Hbc : BlockCount P <= 2 ^ 51).

Lemma level_lens :
  1 <= Z.of_nat (length (L0 P)) <= 2 ^ 45 /\ 1 <= Z.of_nat (length (L1 P)) <= 2 ^ 45 /\
  1 <= Z.of_nat (length (L2 P)) <= 2 ^ 45.
Proof using HP Hbc.
  pose proof (shape_bounds P (wf_shape P HP)). pose proof (wf_bc P (wf_shape P HP)). lia.
Qed.

Lemma pool_header_wf : codec_wf (pool_header P).
Proof using HP Hbc.
  pose proof level_lens. pose proof (wf_bc P (wf_shape P HP)).
  pose proof (size_free_set P (wf_shape P HP)) as Hs. rewrite <- (wf_count P HP) in Hs.
  assert (0 <= FreeCount P) by (rewrite (wf_count P HP); lia).
  split; [|reflexivity]. unfold fields, AllocHeader_codec, AllocHeader_MarshalBinary, AllocMagic.
  repeat (apply Forall_cons_2; [simpl; unfold AllocMagic; lia|]). apply Forall_nil_2.
Qed.

Lemma NbBlocks_eq :
  NbBlocks P = 1 + level_blocks (Z.of_nat (length (L0 P))) +
    level_blocks (Z.of_nat (length (L1 P))) + level_blocks (Z.of_nat (length (L2 P))).
Proof using HP Hbc.
  pose proof level_lens. unfold NbBlocks, wordBlocks. by rewrite !allocWordBlocks_level by lia.
Qed.

Lemma pack_replicate pre ws k :
  Z.of_nat (length ws) < 2 ^ 60 ->
  packWords (pre ++ replicate (length (level_image ws) + k) []) ws (Z.of_nat (length pre))
  = Ret (pre ++ level_image ws ++ replicate k []).
Proof.
  intros Hl. unfold packWords. rewrite PackAllocWords_chunks by done. fold (level_image ws).
  rewrite replicate_add. apply store_blocks_app. by rewrite length_replicate.
Qed.

Lemma WriteBlocks_eq :
  WriteBlocks P
  = Ret (header_block P :: level_image (L0 P) ++ level_image (L1 P) ++ level_image (L2 P)).
Proof using HP Hbc.
  pose proof level_lens as (N0 & N1 & N2).
  pose proof (length_level_image (L0 P)) as I0. pose proof (length_level_image (L1 P)) as I1.
  pose proof (length_level_image (L2 P)) as I2.
  unfold WriteBlocks. rewrite NbBlocks_eq, <- I0, <- I1, <- I2.
  set (n0 := length (level_image (L0 P))). set (n1 := length (level_image (L1 P))).
  set (n2 := length (level_image (L2 P))).
  replace (Z.to_nat _) with (1 + (n0 + (n1 + (n2 + 0))))%nat by lia.
  pose proof (encode_length _ pool_header_wf) as Hl. cbn [Size AllocHeader_codec] in Hl.
  rewrite MarshalBinary_encode by apply pool_header_wf. rewrite take_ge by (rewrite Hl; done).
  rewrite blit_zeros, Hl by (rewrite Hl; lia). fold (header_block P).
  cbn [Nat.add replicate]. rewrite store_head. cbn [mbind res_bind].
  pose proof (pack_replicate [header_block P] (L0 P) (n1 + (n2 + 0))) as E0.
  pose proof (pack_replicate (header_block P :: level_image (L0 P)) (L1 P) (n2 + 0)) as E1.
  pose proof (pack_replicate (header_block P :: level_image (L0 P) ++ level_image (L1 P))
    (L2 P) 0) as E2.
  simpl in E0, E1, E2. rewrite length_app in E2. rewrite <- !app_assoc in E2.
  unfold wordBlocks. rewrite !allocWordBlocks_level, <- I0, <- I1 by lia.
  fold n0 n1 n2 in E0, E1, E2 |- *.
  change (Z.of_nat 1) with 1 in E0. rewrite E0 by lia. cbn [mbind res_bind].
  replace (1 + Z.of_nat n0) with (Z.of_nat (S n0)) by lia. rewrite E1 by lia. cbn [mbind res_bind].
  replace (Z.of_nat (S n0) + Z.of_nat n1) with (Z.of_nat (S (n0 + n1))) by lia.
  rewrite E2 by lia. by rewrite app_nil_r.
Qed.

End image.

Lemma ReadAllocatorHeader_image r P poolBlock :
  wf P -> BlockCount P <= 2 ^ 51 -> 0 <= poolBlock -> poolBlock * 4096 < 2 ^ 63 ->
  r (poolBlock * 4096) = Some (header_block P) ->
  ReadAllocatorHeader r poolBlock 4096 = Ret (pool_header P).
Proof.
  intros HP Hbc Hp Hlt Hr. unfold ReadAllocatorHeader.
  rewrite u64_small by (unfold is_u64; lia). unfold int64. rewrite (proj2 (Z.ltb_lt _ _)) by lia.
  rewrite Hr. unfold header_block. by rewrite UnmarshalBinary_encode by (by apply pool_header_wf).
Qed.

(** A block of the image is a block of one of its levels. *)
Lemma image_lookup P k ws pre post :
  header_block P :: level_image (L0 P) ++ level_image (L1 P) ++ level_image (L2 P)
    = pre ++ level_image ws ++ post ->
  0 <= k < level_blocks (Z.of_nat (length ws)) ->
  (header_block P :: level_image (L0 P) ++ level_image (L1 P) ++ level_image (L2 P))
    !! (length pre + Z.to_nat k)%nat = Some (pack_chunk (chunk ws k)).
Proof.
  intros -> Hk. pose proof (length_level_image ws). rewrite lookup_app_r, lookup_app_l by lia.
  replace (length pre + Z.to_nat k - length pre)%nat with (Z.to_nat k) by lia.
  unfold level_image. rewrite list_lookup_fmap.
  by rewrite (proj2 (lookup_seqZ 0 _ _ k)) by lia.
Qed.

(** Reading a device that holds the image of the pool at block [pb]. *)
Lemma ReadAllocatorBitmap_image (P : pyramid) (r : Z -> option (list Z)) (pb : Z) :
  wf P -> BlockCount P <= 2 ^ 51 -> 0 <= pb -> (pb + NbBlocks P) * 4096 < 2 ^ 63 ->
  (forall i buf,
     (header_block P :: level_image (L0 P) ++ level_image (L1 P) ++ level_image (L2 P)) !! i = Some buf ->
     r ((pb + Z.of_nat i) * 4096) = Some buf) ->
  ReadAllocatorBitmap r pb 4096 = Ret (L0 P, L1 P, L2 P, pool_header P).
Proof.
  intros HP Hbc Hp Hfit Hr. pose proof (wf_shape P HP) as HS.
  pose proof (level_lens P HP Hbc) as (N0 & N1 & N2).
  pose proof (length_level_image (L0 P)) as I0. pose proof (length_level_image (L1 P)) as I1.
  pose proof (NbBlocks_eq P HP Hbc) as Hnb.
  pose proof (level_blocks_bounds (Z.of_nat (length (L0 P)))) as B0.
  pose proof (level_blocks_bounds (Z.of_nat (length (L1 P)))) as B1.
  pose proof (level_blocks_bounds (Z.of_nat (length (L2 P)))) as B2.
  unfold ReadAllocatorBitmap.
  rewrite (ReadAllocatorHeader_image r P) by
    (done || lia || (rewrite <- (Hr 0%nat) by done; f_equal; lia)).
  cbn [mbind res_bind pool_header ah_L0Words ah_L1Words ah_L2Words]. change (4096 / 8) with 512.
  rewrite !(u64_small (Z.of_nat _ + 512 - 1)) by (unfold is_u64; lia).
  replace (Z.of_nat (length (L0 P)) + 512 - 1) with (Z.of_nat (length (L0 P)) + 511) by lia.
  replace (Z.of_nat (length (L1 P)) + 512 - 1) with (Z.of_nat (length (L1 P)) + 511) by lia.
  fold (level_blocks (Z.of_nat (length (L0 P)))). fold (level_blocks (Z.of_nat (length (L1 P)))).
  rewrite !u64_small by (unfold is_u64; lia || (rewrite u64_small by (unfold is_u64; lia); lia)).
  pose proof (image_lookup P) as Him.
  rewrite (read_words_chunks r 0 (pb + 1) (L0 P)); cycle 1; try (apply HS || lia).
  { intros i Hi. erewrite <- Hr; [|apply (Him i _ [header_block P] _ eq_refl Hi)].
    f_equal. simpl length. lia. }
  cbn [mbind res_bind].
  rewrite (read_words_chunks r 1 _ (L1 P)); cycle 1; try (apply HS || lia).
  { intros i Hi. erewrite <- Hr; [|apply (Him i _ (header_block P :: level_image (L0 P)) _ eq_refl Hi)].
    f_equal. simpl length. lia. }
  cbn [mbind res_bind].
  rewrite (read_words_chunks r 2 _ (L2 P)); cycle 1; try (apply HS || lia); [|done].
  intros i Hi. erewrite <- Hr;
    [|apply (Him i (L2 P) (header_block P :: level_image (L0 P) ++ level_image (L1 P)) [])].
  + f_equal. simpl length. rewrite length_app. lia.
  + by rewrite app_nil_r, <- app_comm_cons, <- app_assoc.
  + done.
Qed.

(** The pool image round trip.  The blocks that [WriteBlocks] produces for a
    well-formed allocator are as many as [NbBlocks] says, each of 4096 bytes,
    and [ReadAllocatorBitmap] on any device that holds them from [poolBlock] on
    returns the three levels and the header's counts. *)
Theorem pool_image_roundtrip (P : pyramid) (HP : wf P) (Hbc : BlockCount P <= 2 ^ 51) :
  exists blocks, WriteBlocks P = Ret blocks /\
    Z.of_nat (length blocks) = NbBlocks P /\ NbBlocks P = AllocPoolBlocks (BlockCount P) /\
    forall (r : Z -> option (list Z)) (poolBlock : Z),
      0 <= poolBlock -> (poolBlock + NbBlocks P) * 4096 < 2 ^ 63 ->
      (forall i buf, blocks !! i = Some buf -> r ((poolBlock + Z.of_nat i) * 4096) = Some buf) ->
      ReadAllocatorBitmap r poolBlock 4096 = Ret (L0 P, L1 P, L2 P, pool_header P).
Proof.
  pose proof (length_level_image (L0 P)) as I0. pose proof (length_level_image (L1 P)) as I1.
  pose proof (length_level_image (L2 P)) as I2. pose proof (NbBlocks_eq P HP Hbc) as Hnb.
  eexists. split_and!; [by apply WriteBlocks_eq| | |].
  - cbn [length]. rewrite !length_app. lia.
  - unfold NbBlocks, AllocPoolBlocks. by rewrite <- (wf_lens P (wf_shape P HP)).
  - intros r pb Hp Hfit Hr. by apply ReadAllocatorBitmap_image.
Qed.

(** A pool of 100 blocks, read back from a device that holds its image at
    block 0. *)
Lemma pool_image_roundtrip_witness :
  let P := NewAllocBuilder 100 in
  exists blocks, WriteBlocks P = Ret blocks /\ Z.of_nat (length blocks) = 4 /\
    ReadAllocatorBitmap (fun off => blocks !! Z.to_nat (off / 4096)) 0 4096
    = Ret ([1], [3], [2 ^ 64 - 1; 2 ^ 36 - 1], pool_header P).
Proof.
  intros P. destruct (NewAllocBuilder_wf 100) as (HP & _ & _); [lia|].
  destruct (pool_image_roundtrip P HP) as (blocks & E & Hl & _ & Hread); [done|].
  exists blocks. split_and!; [done | by rewrite Hl |].
  apply Hread; [lia | done |]. intros i buf Hi.
  cbn beta. by rewrite Z.div_mul, Z.add_0_l, Nat2Z.id by lia.
Defined.

(** ** The abstract allocator

    A volume of [bc] blocks with a set of free ones, and the operations the
    rest of the program uses.  [spec_step bc s op out s'] is what an operation
    may do; [run_op] is what the code does. *)
Inductive alloc_op :=
| OpMarkAllocated (rel : Z)
| OpMarkFree (rel : Z)
| OpMarkFreeRun (first n : Z)
| OpAllocateBlock.

Inductive alloc_out :=
| OutChanged (b : bool)
| OutFreed (n : Z)
| OutBlock (rel : Z)
| OutFull.

Inductive spec_step (bc : Z) (s : gset Z) : alloc_op -> alloc_out -> gset Z -> Prop :=
| spec_mark_allocated rel :
    spec_step bc s (OpMarkAllocated rel) (OutChanged (bool_decide (rel ∈ s))) (s ∖ {[rel]})
| spec_mark_free rel :
    0 <= rel < bc ->
    spec_step bc s (OpMarkFree rel) (OutChanged (bool_decide (rel ∉ s))) (s ∪ {[rel]})
| spec_mark_free_out rel :
    bc <= rel -> spec_step bc s (OpMarkFree rel) (OutChanged false) s
| spec_mark_free_run first n s' :
    (forall i, i ∈ s' <-> i ∈ s \/ first <= i < first + n /\ i < bc) ->
    spec_step bc s (OpMarkFreeRun first n) (OutFreed (Z.of_nat (size (s' ∖ s)))) s'
| spec_allocate_block rel :
    least s rel -> spec_step bc s OpAllocateBlock (OutBlock rel) (s ∖ {[rel]})
| spec_allocate_full :
    s = ∅ -> spec_step bc s OpAllocateBlock OutFull s.

Inductive spec_run (bc : Z) : gset Z -> list (alloc_op * alloc_out) -> gset Z -> Prop :=
| spec_run_nil s : spec_run bc s [] s
| spec_run_cons s op out s' tr s'' :
    spec_step bc s op out s' -> spec_run bc s' tr s'' -> spec_run bc s ((op, out) :: tr) s''.

Definition run_op (P : pyramid) (op : alloc_op) : res alloc_error (pyramid * alloc_out) :=
  match op with
  | OpMarkAllocated rel => '(Q, b) ← AllocMarkAllocated P rel; Ret (Q, OutChanged b)
  | OpMarkFree rel => '(Q, b) ← AllocMarkFree P rel; Ret (Q, OutChanged b)
  | OpMarkFreeRun first n => '(Q, k) ← AllocMarkFreeRun P first n; Ret (Q, OutFreed k)
  | OpAllocateBlock =>
      match AllocateBlock P with
      | Err ErrNoFree => Ret (P, OutFull)
      | r => '(Q, b) ← r; Ret (Q, OutBlock b)
      end
  end.

Fixpoint run_ops (P : pyramid) (ops : list alloc_op)
    : res alloc_error (pyramid * list (alloc_op * alloc_out)) :=
  match ops with
  | [] => Ret (P, [])
  | op :: ops' =>
      '(Q, out) ← run_op P op;
      '(R, tr) ← run_ops Q ops';
      Ret (R, (op, out) :: tr)
  end.

Definition op_ok (op : alloc_op) : Prop :=
  match op with
  | OpMarkAllocated rel | OpMarkFree rel => is_u64 rel
  | OpMarkFreeRun first n => is_u64 first /\ is_u64 n
  | OpAllocateBlock => True
  end.

Lemma free_count_diff P Q :
  wf P -> wf Q -> free_set P ⊆ free_set Q ->
  FreeCount Q - FreeCount P = Z.of_nat (size (free_set Q ∖ free_set P)).
Proof.
  intros HP HQ Hs. rewrite (wf_count P HP), (wf_count Q HQ), size_difference by done.
  apply subseteq_size in Hs. lia.
Qed.

Lemma run_op_refines P op :
  wf P -> op_ok op ->
  exists Q out, run_op P op = Ret (Q, out) /\ wf Q /\ BlockCount Q = BlockCount P /\
    spec_step (BlockCount P) (free_set P) op out (free_set Q).
Proof.
  intros HP Hop. destruct op as [rel|rel|first n|]; simpl in *.
  - destruct (AllocMarkAllocated_spec P rel HP) as (Q & -> & HQ & Hb & Hf); [apply Hop|].
    exists Q. eexists. split_and!; [done..|]. rewrite Hf. constructor.
  - destruct (AllocMarkFree_spec P rel HP) as (Q & -> & HQ & Hb & Hf); [apply Hop|].
    exists Q. eexists. split_and!; [done..|]. rewrite Hf. case_decide as Hlt.
    + rewrite (bool_decide_ext _ (rel ∉ free_set P)) by tauto. constructor. destruct Hop. lia.
    + rewrite bool_decide_false, union_empty_r_L by tauto. constructor. lia.
  - destruct Hop as [H1 H2].
    destruct (AllocMarkFreeRun_spec P first n HP H1 H2) as (Q & -> & HQ & Hb & Hf).
    exists Q. eexists. split_and!; [done..|].
    rewrite free_count_diff by (done || set_solver). constructor.
    intros i. by rewrite Hf, elem_of_union, elem_of_run_set.
  - destruct (AllocateBlock_spec P HP) as [[He ->]|(Q & b & -> & Hl & HQ & Hb & Hf)].
    + exists P, OutFull. split_and!; [done..|]. by constructor.
    + exists Q. eexists. split_and!; [done..|]. rewrite Hf. by constructor.
Qed.

(** C9 Refinement.  Starting from a well-formed allocator, any sequence of
    operations, with any uint64 arguments, runs without panicking and without
    an inconsistency error, ends in a well-formed allocator of the same size,
    and every result returned along the way is one the abstract set of free
    blocks allows: the operations mark exactly the blocks asked for, count
    exactly the blocks that changed, and a search returns the least free block
    and fails only when there is none. *)
Theorem allocator_refines_free_set (ops : list alloc_op) (P : pyramid)
    (HP : wf P) (Hops : Forall op_ok ops) :
  exists Q tr, run_ops P ops = Ret (Q, tr) /\ wf Q /\ BlockCount Q = BlockCount P /\
    tr.*1 = ops /\ spec_run (BlockCount P) (free_set P) tr (free_set Q).
Proof.
  revert P HP. induction Hops as [|op ops Hop _ IH]; intros P HP.
  - exists P, []. split_and!; try done. constructor.
  - destruct (run_op_refines P op HP Hop) as (Q & out & E & HQ & Hb & Hst).
    destruct (IH Q HQ) as (R & tr & E' & HR & Hb' & Hops & Hrun).
    exists R, ((op, out) :: tr). simpl. rewrite E. cbn [mbind res_bind]. rewrite E'.
    split_and!; [done | done | congruence | by f_equal/= |].
    econstructor; [done|]. by rewrite <- Hb.
Qed.

Lemma allocator_refines_free_set_witness :
  exists Q tr, run_ops (NewAllocBuilder 130) [OpMarkAllocated 0; OpAllocateBlock; OpMarkFreeRun 0 200]
    = Ret (Q, tr) /\ wf Q /\ tr.*2 = [OutChanged true; OutBlock 1; OutFreed 2].
Proof.
  destruct (NewAllocBuilder_wf 130) as (HP & _ & _); [lia|].
  destruct (allocator_refines_free_set
    [OpMarkAllocated 0; OpAllocateBlock; OpMarkFreeRun 0 200] _ HP) as (Q & tr & E & HQ & _ & _ & _).
  { repeat constructor; lia. }
  exists Q, tr. split_and!; [done|done|].
  apply (f_equal (fun r => match r with Ret (_, tr) => tr.*2 | _ => [] end)) in E.
  rewrite <- E. vm_compute. reflexivity.
Defined.

(** ** The run operation against its one-block reference *)

(** [AllocMarkFree] on [k] consecutive blocks from [i], counting the changes. *)
Fixpoint mark_free_each (P : pyramid) (i : Z) (k : nat) (freed : Z)
    : res alloc_error (pyramid * Z) :=
  match k with
  | O => Ret (P, freed)
  | S k' => '(Q, b) ← AllocMarkFree P i;
            mark_free_each Q (i + 1) k' (freed + Z.b2z b)
  end.

Lemma mark_free_each_spec k : forall P i freed,
  wf P -> 0 <= i ->
  exists Q, mark_free_each P i k freed = Ret (Q, freed + (FreeCount Q - FreeCount P)) /\ wf Q /\
    BlockCount Q = BlockCount P /\ free_set Q = free_set P ∪ run_set P i (Z.of_nat k).
Proof.
  induction k as [|k IH]; intros P i freed HP Hi; cbn [mark_free_each].
  - exists P. split_and!; [f_equal; f_equal; lia|done|done|]. apply set_eq. intros j.
    rewrite elem_of_union, elem_of_run_set. intuition lia.
  - destruct (AllocMarkFree_spec P i HP Hi) as (Q & -> & HQ & Hb & Hf). cbn [mbind res_bind].
    set (b := bool_decide _).
    assert (Hc : FreeCount Q = FreeCount P + Z.b2z b).
    { rewrite (wf_count P HP), (wf_count Q HQ), Hf. subst b. case_decide as Hlt.
      - case_bool_decide as Ho.
        + rewrite size_union by set_solver. rewrite size_singleton. simpl. lia.
        + assert (Hin : i ∈ free_set P) by (apply dec_stable; tauto).
          replace (free_set P ∪ {[i]}) with (free_set P) by set_solver. simpl. lia.
      - rewrite bool_decide_false, union_empty_r_L by tauto. simpl. lia. }
    destruct (IH Q (i + 1) (freed + Z.b2z b) HQ) as (R & -> & HR & Hb' & Hf'); [lia|].
    exists R. split_and!; [f_equal; f_equal; lia | done | congruence |].
    rewrite Hf', Hf. apply set_eq. intros j.
    rewrite !elem_of_union, !elem_of_run_set, Hb.
    case_decide; rewrite ?elem_of_singleton, ?elem_of_empty; intuition lia.
Qed.

(** The optimised run operation is the one-block operation repeated:
    [AllocMarkFreeRun] over [n] blocks from [first] leaves exactly the same
    three levels and the same counter, and returns the same number of newly
    freed blocks, as calling [AllocMarkFree] on each block in turn, for every
    uint64 [first] and [n], whether or not the run leaves the volume. *)
Theorem AllocMarkFreeRun_is_iterated (P : pyramid) (first n : Z)
    (HP : wf P) (Hf : is_u64 first) (Hn : is_u64 n) :
  AllocMarkFreeRun P first n = mark_free_each P first (Z.to_nat n) 0.
Proof.
  destruct (AllocMarkFreeRun_spec P first n HP Hf Hn) as (Q & -> & HQ & Hb & Hfs).
  destruct (mark_free_each_spec (Z.to_nat n) P first 0 HP) as (R & -> & HR & Hb' & Hfs');
    [apply Hf|].
  rewrite Z2Nat.id in Hfs' by apply Hn.
  rewrite (wf_ext R Q HR HQ) by congruence. done.
Qed.

Lemma AllocMarkFreeRun_is_iterated_witness :
  exists P, AllocMarkFreeRun P 60 10 = mark_free_each P 60 10 0 /\
    AllocMarkFreeRun P 60 10 = Ret (NewAllocBuilder 100, 1).
Proof.
  destruct (NewAllocBuilder_wf 100) as (HP & _ & _); [lia|].
  destruct (AllocMarkAllocated_spec _ 64 HP) as (Q & E & HQ & _ & _); [lia|].
  exists Q. split.
  - apply (AllocMarkFreeRun_is_iterated Q 60 10 HQ); unfold is_u64; lia.
  - assert (EQ : Q = match AllocMarkAllocated (NewAllocBuilder 100) 64 with
                     | Ret (Q, _) => Q | _ => Q end) by (by rewrite E).
    rewrite EQ. vm_compute. reflexivity.
Defined.

(** A fresh data allocator of at least one block has every block free except
    block 0, which is reserved because 0 is the failure value of the search;
    hence the search on it returns block 1, or reports that nothing is free
    when block 0 is the only one. *)
Theorem NewDataAllocBuilder_reserves_zero (bc : Z) (Hbc : 0 < bc <= 2 ^ 64 - 64) :
  exists P, NewDataAllocBuilder bc = Ret P /\ wf P /\ BlockCount P = bc /\
    FreeCount P = bc - 1 /\ (forall i, i ∈ free_set P <-> 1 <= i < bc) /\
    (bc = 1 -> AllocateBlock P = Err ErrNoFree) /\
    (1 < bc -> exists Q, AllocateBlock P = Ret (Q, 1)).
Proof.
  destruct (NewAllocBuilder_wf bc Hbc) as (HN & Hb & Hf). unfold NewDataAllocBuilder.
  rewrite (proj2 (Z.ltb_lt _ _)) by lia. unfold MarkAllocated.
  destruct (AllocMarkAllocated_spec _ 0 HN) as (P & -> & HP & Hb' & Hf'); [lia|].
  assert (Hin : forall i, i ∈ free_set P <-> 1 <= i < bc).
  { intros i. rewrite Hf', Hf, elem_of_difference, elem_of_list_to_set, elem_of_seqZ,
      elem_of_singleton. lia. }
  exists P. split_and!; try done; try congruence.
  - rewrite (wf_count P HP), Hf', size_difference, size_singleton, Hf.
    + rewrite size_list_to_set, length_seqZ by apply NoDup_seqZ. lia.
    + intros i ->%elem_of_singleton. rewrite Hf. apply elem_of_list_to_set, elem_of_seqZ. lia.
  - intros ->. destruct (AllocateBlock_spec P HP) as [[_ ->]|(Q & b & _ & [Hl _] & _)]; [done|].
    apply Hin in Hl. lia.
  - intros Hlt. assert (H1 : 1 ∈ free_set P) by (apply Hin; lia).
    destruct (AllocateBlock_spec P HP) as [[He _]|(Q & b & -> & [Hl Hle] & _)]; [set_solver|].
    exists Q. apply Hin in Hl. apply Hle in H1. do 2 f_equal. lia.
Qed.

Lemma NewDataAllocBuilder_reserves_zero_witness :
  exists P, NewDataAllocBuilder 66 = Ret P /\ wf P /\ FreeCount P = 65 /\
    exists Q, AllocateBlock P = Ret (Q, 1).
Proof.
  destruct (NewDataAllocBuilder_reserves_zero 66) as (P & E & HP & _ & Hc & _ & _ & Hn); [lia|].
  exists P. split_and!; [done | done | done | apply Hn; lia].
Defined.
