(* ===== verification/Crc32c.v ===== *)
(** * The checksum (briefs/crc32c.go)

    The table-driven checksum of journal records and B+ tree nodes: that the
    table computes the bitwise recurrence, that checksums chain, and how strong
    the resulting code is. *)

From stdpp Require Import base numbers list option.
From Stdlib Require Import ZArith Lia.
From S2P Require Import Prelude Codec.

Local Open Scope Z_scope.

Definition crc32cPolynomial : Z := 0x1EDC6F41.

(** One round of the inner loop that fills the table. *)
Definition crc_bit (crc : Z) : Z :=
  if Z.land crc 1 =? 0 then Z.shiftr crc 1
  else Z.lxor (Z.shiftr crc 1) crc32cPolynomial.

Definition crc32cTable : list Z := (fun i => Nat.iter 8 crc_bit i) <$> seqZ 0 256.

(** [^crc] on uint32 *)
Definition not32 (crc : Z) : Z := Z.lxor crc (2 ^ 32 - 1).

Definition crc_step (crc b : Z) : Z :=
  let idx := Z.land (Z.lxor crc b) 0xFF in
  Z.lxor (Z.shiftr crc 8) (default 0 (crc32cTable !! Z.to_nat idx)).

Definition Crc32c (crc : Z) (data : list Z) : Z :=
  match data with
  | [] => crc
  | _ => not32 (foldl crc_step (not32 crc) data)
  end.

Definition ComputeJournalRecordChecksum (recordType flags : Z) (data : list Z) : Z :=
  let c := Crc32c 0 (le_put 4 recordType) in
  let c := Crc32c c (le_put 4 flags) in
  let c := Crc32c c (le_put 4 (u32 (Z.of_nat (length data)))) in
  Crc32c c data.

Definition ExtentChainHeaderSize : nat := 16.
Definition ExtentChainChecksumOffset : nat := ExtentChainHeaderSize + 127 * 32.

Inductive crc_error := ErrChecksumMismatch.

(** [binary.LittleEndian.Uint64(buf[ExtentChainChecksumOffset:])]: panics on a
    buffer without room for the field *)
Definition ReadChainChecksum (buf : list Z) : res crc_error Z :=
  if decide (ExtentChainChecksumOffset + 8 <= length buf)%nat
  then Ret (le_get (slice ExtentChainChecksumOffset (ExtentChainChecksumOffset + 8) buf))
  else Panic.

Definition ComputeChainChecksum (buf : list Z) (blockSize : Z) : Z :=
  if (Z.of_nat (length buf) <? blockSize) || (blockSize <? Z.of_nat ExtentChainChecksumOffset)
  then 0 else Crc32c 0 (take ExtentChainChecksumOffset buf).

Definition VerifyChainChecksum (buf : list Z) (blockSize : Z) : res crc_error unit :=
  stored ← ReadChainChecksum buf;
  if stored =? 0 then Ret tt else
  if stored =? ComputeChainChecksum buf blockSize then Ret tt else Err ErrChecksumMismatch.

(** The bitwise definition that the table stands for: the byte is added to
    the low end of the register, which is then shifted out bit by bit. *)
Definition crc_step_bitwise (crc b : Z) : Z := Nat.iter 8 crc_bit (Z.lxor crc b).

(** ** The recurrence is linear *)

Lemma crc_bit_testbit v :
  crc_bit v = Z.lxor (Z.shiftr v 1) (if Z.testbit v 0 then crc32cPolynomial else 0).
Proof.
  unfold crc_bit. change 1 with (Z.ones 1) at 1. rewrite Z.land_ones by lia.
  rewrite Z.bit0_odd. change (2 ^ 1) with 2. rewrite Zmod_odd.
  destruct (Z.odd v); simpl; [done|]. by rewrite Z.lxor_0_r.
Qed.

Lemma crc_bit_lxor a b : crc_bit (Z.lxor a b) = Z.lxor (crc_bit a) (crc_bit b).
Proof.
  rewrite !crc_bit_testbit, Z.shiftr_lxor, Z.lxor_spec. apply Z.bits_inj. intros k.
  rewrite !Z.lxor_spec.
  destruct (Z.testbit a 0), (Z.testbit b 0); simpl; rewrite ?Z.bits_0;
    destruct (Z.testbit (Z.shiftr a 1) k), (Z.testbit (Z.shiftr b 1) k),
      (Z.testbit crc32cPolynomial k); done.
Qed.

Lemma crc_bits_lxor n a b :
  Nat.iter n crc_bit (Z.lxor a b) = Z.lxor (Nat.iter n crc_bit a) (Nat.iter n crc_bit b).
Proof. induction n as [|n IH]; simpl; [done|]. by rewrite IH, crc_bit_lxor. Qed.

(** Low bits that are zero are only shifted out. *)
Lemma crc_bits_shiftl n a : Nat.iter n crc_bit (Z.shiftl a (Z.of_nat n)) = a.
Proof.
  revert a. induction n as [|n IH]; intros a; [apply Z.shiftl_0_r|].
  rewrite Nat.iter_succ_r.
  assert (E : crc_bit (Z.shiftl a (Z.of_nat (S n))) = Z.shiftl a (Z.of_nat n)).
  { rewrite crc_bit_testbit, Z.shiftl_spec_low, Z.lxor_0_r by lia.
    rewrite Z.shiftr_shiftl_l by lia. f_equal. lia. }
  by rewrite E, IH.
Qed.

Lemma split_low8 v : 0 <= v -> v = Z.lxor (Z.shiftl (Z.shiftr v 8) 8) (Z.land v 0xFF).
Proof.
  intros Hv. change 0xFF with (Z.ones 8). apply Z.bits_inj_iff'. intros k Hk.
  rewrite Z.lxor_spec, Z.land_spec, Z.testbit_ones_nonneg by lia.
  destruct (decide (k < 8)).
  - rewrite Z.shiftl_spec_low, (proj2 (Z.ltb_lt _ _)), andb_true_r by lia. by rewrite xorb_false_l.
  - rewrite Z.shiftl_spec, Z.shiftr_spec, (proj2 (Z.ltb_ge _ _)), andb_false_r by lia.
    rewrite xorb_false_r. f_equal. lia.
Qed.

Lemma table_lookup i :
  0 <= i < 256 -> default 0 (crc32cTable !! Z.to_nat i) = Nat.iter 8 crc_bit i.
Proof.
  intros Hi. unfold crc32cTable. rewrite list_lookup_fmap.
  by rewrite (proj2 (lookup_seqZ 0 256 (Z.to_nat i) i)) by lia.
Qed.

Lemma crc_step_eq crc b : is_u32 crc -> is_u8 b -> crc_step crc b = crc_step_bitwise crc b.
Proof.
  intros Hc Hb. unfold crc_step, crc_step_bitwise.
  set (v := Z.lxor crc b).
  assert (Hv : 0 <= v) by (apply Z.lxor_nonneg; unfold is_u32, is_u8 in *; lia).
  rewrite table_lookup.
  2:{ change 0xFF with (Z.ones 8). rewrite Z.land_ones by lia. apply Z.mod_pos_bound. lia. }
  rewrite (split_low8 v Hv) at 2. rewrite crc_bits_lxor.
  change 8 with (Z.of_nat 8) at 3. rewrite crc_bits_shiftl. f_equal.
  unfold v. rewrite Z.shiftr_lxor. rewrite (Z.shiftr_eq_0 b), Z.lxor_0_r; [done|apply Hb|].
  destruct (decide (b = 0)) as [->|]; [done|]. apply Z.log2_lt_pow2; unfold is_u8 in Hb; lia.
Qed.

(** ** The register *)

Lemma bits_above a n k : 0 <= n <= k -> 0 <= a < 2 ^ n -> Z.testbit a k = false.
Proof. intros Hn Ha. by apply (Z.bounded_iff_bits_nonneg n); lia. Qed.

Lemma lxor_lt a b n : 0 <= n -> 0 <= a < 2 ^ n -> 0 <= b < 2 ^ n -> 0 <= Z.lxor a b < 2 ^ n.
Proof.
  intros Hn Ha Hb. assert (H0 : 0 <= Z.lxor a b) by (apply Z.lxor_nonneg; lia).
  split; [done|]. apply Z.bounded_iff_bits_nonneg; [done..|]. intros k Hk.
  by rewrite Z.lxor_spec, !(bits_above _ n) by lia.
Qed.

Lemma shiftr1 v : Z.shiftr v 1 = v / 2.
Proof. by rewrite Z.shiftr_div_pow2 by lia. Qed.

(** A round loses the low bit; the polynomial has 29 bits. *)
Lemma crc_bit_lt n v : 29 <= n -> 0 <= v < 2 ^ (n + 1) -> 0 <= crc_bit v < 2 ^ n.
Proof.
  intros Hn Hv. rewrite Z.pow_add_r in Hv by lia.
  assert (Hp : 2 ^ 29 <= 2 ^ n) by (apply Z.pow_le_mono_r; lia).
  rewrite crc_bit_testbit. apply lxor_lt; [lia| |].
  - rewrite shiftr1. split; [apply Z.div_pos; lia | apply Z.div_lt_upper_bound; lia].
  - destruct (Z.testbit v 0); unfold crc32cPolynomial; lia.
Qed.

Lemma crc_bits_29 n v : 0 <= v < 2 ^ 29 -> 0 <= Nat.iter n crc_bit v < 2 ^ 29.
Proof.
  intros Hv. induction n as [|n IH]; simpl; [done|]. apply crc_bit_lt; [lia|].
  change (2 ^ (29 + 1)) with (2 * 2 ^ 29). lia.
Qed.

Lemma crc_bits_8 v : is_u32 v -> 0 <= Nat.iter 8 crc_bit v < 2 ^ 29.
Proof.
  intros Hv. change (Nat.iter 8 crc_bit v) with (Nat.iter (5 + 3) crc_bit v).
  rewrite Nat.iter_add. apply crc_bits_29. cbn [Nat.iter].
  apply (crc_bit_lt 29); [lia|]. apply (crc_bit_lt 30); [lia|]. by apply (crc_bit_lt 31).
Qed.

(** On registers below 2^29 no round loses information. *)
Lemma crc_bit_nonzero v : 0 < v < 2 ^ 29 -> crc_bit v <> 0.
Proof.
  intros Hv. rewrite crc_bit_testbit, shiftr1, Z.bit0_odd.
  pose proof (Z.div_mod v 2) as Hd. rewrite Zmod_odd in Hd. destruct (Z.odd v).
  - intros E%Z.lxor_eq. unfold crc32cPolynomial in E. lia.
  - rewrite Z.lxor_0_r. lia.
Qed.

Lemma crc_bits_nonzero n v : 0 < v < 2 ^ 29 -> Nat.iter n crc_bit v <> 0.
Proof.
  intros Hv. induction n as [|n IH]; simpl; [lia|].
  apply crc_bit_nonzero. pose proof (crc_bits_29 n v). lia.
Qed.

Lemma crc_step_range crc b : is_u32 crc -> is_u8 b -> 0 <= crc_step crc b < 2 ^ 29.
Proof.
  intros Hc Hb. rewrite crc_step_eq by done. apply crc_bits_8. apply lxor_lt; [lia|done|].
  unfold is_u8 in Hb. lia.
Qed.

Lemma crc_fold_bitwise data : forall crc,
  is_u32 crc -> bytes data ->
  foldl crc_step crc data = foldl crc_step_bitwise crc data /\
  (data <> [] -> 0 <= foldl crc_step crc data < 2 ^ 29).
Proof.
  induction data as [|b data IH]; intros crc Hc Hd; [done|].
  apply Forall_cons_1 in Hd as [Hb Hd]. pose proof (crc_step_range crc b Hc Hb) as Hr.
  simpl. rewrite <- crc_step_eq by done.
  destruct (IH (crc_step crc b)) as [E Hn]; [unfold is_u32; lia|done|].
  split; [done|]. intros _. destruct data; [done|]. by apply Hn.
Qed.

(** Feeding a string is one long division of the string as a number. *)
Lemma lxor_shiftl8 b v : is_u8 b -> Z.lxor b (Z.shiftl v 8) = b + 256 * v.
Proof.
  intros Hb. rewrite <- Z.add_nocarry_lxor.
  - rewrite Z.shiftl_mul_pow2 by lia. lia.
  - apply Z.bits_inj_iff'. intros k Hk. rewrite Z.land_spec, Z.bits_0.
    destruct (decide (k < 8)); [rewrite (Z.shiftl_spec_low _ _ k) by lia; apply andb_false_r|].
    by rewrite (bits_above b 8) by (done || lia).
Qed.

Lemma crc_fold_division data : forall crc,
  bytes data ->
  foldl crc_step_bitwise crc data = Nat.iter (8 * length data) crc_bit (Z.lxor crc (le_get data)).
Proof.
  induction data as [|b data IH]; intros crc Hd; [simpl; by rewrite Z.lxor_0_r|].
  apply Forall_cons_1 in Hd as [Hb Hd]. cbn [foldl le_get length]. rewrite IH by done.
  rewrite <- lxor_shiftl8, <- Z.lxor_assoc by done. unfold crc_step_bitwise.
  replace (8 * S (length data))%nat with (8 * length data + 8)%nat by lia.
  rewrite Nat.iter_add. f_equal. rewrite (crc_bits_lxor 8 (Z.lxor crc b)). f_equal.
  change (Z.shiftl (le_get data) 8) with (Z.shiftl (le_get data) (Z.of_nat 8)).
  by rewrite crc_bits_shiftl.
Qed.

Lemma not32_involutive v : not32 (not32 v) = v.
Proof. unfold not32. by rewrite Z.lxor_assoc, Z.lxor_nilpotent, Z.lxor_0_r. Qed.

Lemma not32_u32 v : is_u32 v -> is_u32 (not32 v).
Proof. intros Hv. apply lxor_lt; [lia|done|]. lia. Qed.

Lemma not32_sub v : is_u32 v -> not32 v = 2 ^ 32 - 1 - v.
Proof.
  intros Hv. unfold not32. change (2 ^ 32 - 1) with (Z.ones 32).
  rewrite Z.sub_nocarry_ldiff; apply Z.bits_inj_iff'; intros k Hk;
    rewrite ?Z.lxor_spec, !Z.ldiff_spec, ?Z.bits_0, !Z.testbit_ones_nonneg by lia;
    destruct (k <? 32) eqn:E.
  - by destruct (Z.testbit v k).
  - apply Z.ltb_ge in E. by rewrite (bits_above v 32) by (done || lia).
  - apply andb_false_r.
  - apply Z.ltb_ge in E. by rewrite (bits_above v 32) by (done || lia).
Qed.

(** ** Theorems *)

Lemma Crc32c_app crc a b : Crc32c (Crc32c crc a) b = Crc32c crc (a ++ b).
Proof.
  destruct a as [|x a]; [done|]. destruct b as [|y b]; [by rewrite app_nil_r|].
  unfold Crc32c. rewrite <- app_comm_cons. by rewrite not32_involutive, app_comm_cons, foldl_app.
Qed.

Lemma Crc32c_range crc data :
  is_u32 crc -> bytes data -> data <> [] -> 0xE0000000 <= Crc32c crc data < 2 ^ 32.
Proof.
  intros Hc Hd Hn. destruct (crc_fold_bitwise data (not32 crc)) as [_ Hr]; [by apply not32_u32|done|].
  specialize (Hr Hn). destruct data as [|b data]; [done|]. unfold Crc32c.
  rewrite not32_sub by (unfold is_u32; lia). lia.
Qed.

Lemma le_get_inj x y : bytes x -> bytes y -> length x = length y -> le_get x = le_get y -> x = y.
Proof. intros Hx Hy Hl E. by rewrite <- (le_put_get x), <- (le_put_get y), Hl, E. Qed.

(** Two strings that differ only in a window of at most three bytes. *)
Lemma Crc32c_window crc pre x y post :
  is_u32 crc -> bytes (pre ++ x ++ post) -> bytes (pre ++ y ++ post) ->
  length x = length y -> (length x <= 3)%nat ->
  Crc32c crc (pre ++ x ++ post) = Crc32c crc (pre ++ y ++ post) -> x = y.
Proof.
  intros Hc Hx Hy Hl H3 E.
  assert (Hfold : forall l, bytes l -> not32 (Crc32c crc l) = foldl crc_step_bitwise (not32 crc) l).
  { intros l Hl'. destruct (crc_fold_bitwise l (not32 crc)) as [<- _]; [by apply not32_u32|done|].
    destruct l; [done|]. unfold Crc32c. apply not32_involutive. }
  apply (f_equal not32) in E. rewrite !Hfold, !foldl_app in E by done.
  apply bytes_app in Hx as [_ [Hbx Hp]%bytes_app]. apply bytes_app in Hy as [_ [Hby _]%bytes_app].
  set (c := foldl _ _ pre) in E. rewrite !(crc_fold_division post) in E by done.
  apply Z.lxor_eq_0_iff in E. rewrite <- crc_bits_lxor in E.
  rewrite !(crc_fold_division _ c), <- Hl in E by done.
  assert (Ed : forall p q t, Z.lxor (Z.lxor p t) (Z.lxor q t) = Z.lxor p q).
  { intros p q t. apply Z.bits_inj. intros k. rewrite !Z.lxor_spec.
    by destruct (Z.testbit p k), (Z.testbit q k), (Z.testbit t k). }
  rewrite Ed, <- crc_bits_lxor, <- Nat.iter_add in E.
  rewrite !(Z.lxor_comm c), Ed in E.
  apply le_get_inj; [done..|]. apply Z.lxor_eq_0_iff. apply dec_stable. intros Hne.
  assert (Hlt : forall l, bytes l -> length l = length x -> 0 <= le_get l < 2 ^ 29).
  { intros l Hb Hll. pose proof (le_get_range l Hb) as Hr. rewrite Hll in Hr.
    assert (2 ^ (8 * Z.of_nat (length x)) <= 2 ^ 24) by (apply Z.pow_le_mono_r; lia). lia. }
  pose proof (lxor_lt (le_get x) (le_get y) 29 ltac:(lia) (Hlt x Hbx eq_refl) (Hlt y Hby (eq_sym Hl))).
  by apply (crc_bits_nonzero (8 * length post + 8 * length x) (Z.lxor (le_get x) (le_get y))); [lia|].
Qed.

(** The table-driven checksum is the bitwise one, and checksums chain:
    continuing a checksum over a second buffer is the checksum of the two
    buffers joined.  In particular the four chained calls that compute a journal
    record's checksum are one checksum over the record's type, flags, length
    and payload. *)
Theorem Crc32c_bitwise_and_chained (crc recordType flags : Z) (a b : list Z)
    (Hc : is_u32 crc) (Ha : bytes a) (Hne : a <> []) :
  Crc32c crc a = not32 (foldl crc_step_bitwise (not32 crc) a) /\
  Crc32c (Crc32c crc a) b = Crc32c crc (a ++ b) /\
  ComputeJournalRecordChecksum recordType flags b
  = Crc32c 0 (le_put 4 recordType ++ le_put 4 flags ++
              le_put 4 (u32 (Z.of_nat (length b))) ++ b).
Proof.
  split_and!.
  - destruct (crc_fold_bitwise a (not32 crc)) as [<- _]; [by apply not32_u32|done|].
    by destruct a.
  - apply Crc32c_app.
  - unfold ComputeJournalRecordChecksum. by rewrite !Crc32c_app, ?app_assoc.
Qed.

Lemma Crc32c_bitwise_and_chained_witness :
  Crc32c 0 [49; 50; 51; 52; 53; 54; 55; 56; 57] = 0xF28417BE /\
  Crc32c (Crc32c 0 [49; 50; 51; 52]) [53; 54; 55; 56; 57] = 0xF28417BE.
Proof.
  split; [vm_compute; reflexivity|].
  assert (Hb : bytes [49; 50; 51; 52]) by (repeat constructor; unfold is_u8; lia).
  destruct (Crc32c_bitwise_and_chained 0 0 0 [49; 50; 51; 52] [53; 54; 55; 56; 57])
    as (_ & -> & _); [unfold is_u32; lia | done | done |].
  vm_compute. reflexivity.
Defined.

(** The checksum detects every corruption confined to a window of three
    consecutive bytes, anywhere in a message of any length. *)
Theorem Crc32c_detects_three_bytes (crc : Z) (pre x y post : list Z)
    (Hc : is_u32 crc) (Hx : bytes (pre ++ x ++ post)) (Hy : bytes (pre ++ y ++ post))
    (Hl : length x = length y) (H3 : (length x <= 3)%nat) (Hne : x <> y) :
  Crc32c crc (pre ++ x ++ post) <> Crc32c crc (pre ++ y ++ post).
Proof. intros E. by apply Hne, (Crc32c_window crc pre x y post). Qed.

Lemma Crc32c_detects_three_bytes_witness :
  Crc32c 0 ([7] ++ [1; 2; 3] ++ [9; 9]) <> Crc32c 0 ([7] ++ [1; 0; 4] ++ [9; 9]).
Proof.
  apply Crc32c_detects_three_bytes; try done;
    try (repeat constructor; unfold is_u8; lia); unfold is_u32; simpl; lia.
Defined.

(** Three bytes is the limit.  The recurrence shifts right but adds the
    polynomial in its unreflected form, so the register holds only 29 bits:
    the top three bits of every checksum are set, and adding the four bytes
    83 DE B8 3D to any place of a message leaves its checksum unchanged. *)
Theorem Crc32c_has_29_bits (crc : Z) (pre post : list Z)
    (Hc : is_u32 crc) (Hpre : bytes pre) (Hpost : bytes post) :
  (pre <> [] -> 0xE0000000 <= Crc32c crc pre < 2 ^ 32) /\
  Crc32c crc (pre ++ [0x83; 0xDE; 0xB8; 0x3D] ++ post)
  = Crc32c crc (pre ++ [0; 0; 0; 0] ++ post).
Proof.
  split; [by apply Crc32c_range|]. rewrite <- !(Crc32c_app _ pre).
  set (c := Crc32c crc pre).
  assert (Hu : is_u32 c).
  { unfold c. destruct pre as [|b pre]; [done|].
    destruct (Crc32c_range crc (b :: pre) Hc Hpre); [done|]. unfold is_u32. lia. }
  assert (E : foldl crc_step_bitwise (not32 c) [0x83; 0xDE; 0xB8; 0x3D]
              = foldl crc_step_bitwise (not32 c) [0; 0; 0; 0]).
  { rewrite !crc_fold_division by (repeat constructor; unfold is_u8; lia).
    rewrite !crc_bits_lxor. f_equal. }
  assert (Hb : forall l, bytes l -> foldl crc_step (not32 c) l = foldl crc_step_bitwise (not32 c) l).
  { intros l Hl. apply crc_fold_bitwise; [by apply not32_u32|done]. }
  rewrite <- !Crc32c_app. f_equal. unfold Crc32c. f_equal.
  rewrite !Hb by (repeat constructor; unfold is_u8; lia). exact E.
Qed.

Lemma Crc32c_has_29_bits_witness :
  Crc32c 0 ([1] ++ [0x83; 0xDE; 0xB8; 0x3D] ++ [2]) = Crc32c 0 ([1] ++ [0; 0; 0; 0] ++ [2]).
Proof.
  apply (Crc32c_has_29_bits 0 [1] [2]); try (repeat constructor; unfold is_u8; lia).
Defined.

(** ** Sealed blocks

    B+ tree nodes and xattr blocks carry the checksum of their first 4080 bytes
    in the eight bytes that follow (briefs/btree.go, [SetBtreeNodeChecksum]). *)

Definition SetBtreeNodeChecksum (buf : list Z) (blockSize : Z) : res crc_error (list Z) :=
  if decide (ExtentChainChecksumOffset + 8 <= length buf)%nat
  then Ret (blit ExtentChainChecksumOffset (le_put 8 (ComputeChainChecksum buf blockSize)) buf)
  else Panic.

Inductive btree_crc_error := ErrBtreeChecksum.

(** The node verification: a short buffer is a mismatch, and a stored zero is a
    legacy block, which verifies. *)
Definition VerifyBtreeNodeChecksum (buf : list Z) (blockSize : Z) : res btree_crc_error unit :=
  if (Z.of_nat (length buf) <? blockSize) || (blockSize <? Z.of_nat ExtentChainChecksumOffset)
  then Err ErrBtreeChecksum else
  match ReadChainChecksum buf with
  | Ret stored =>
      if stored =? 0 then Ret tt else
      if negb (stored =? ComputeChainChecksum buf blockSize) then Err ErrBtreeChecksum else Ret tt
  | _ => Panic
  end.

#[global] Opaque ExtentChainChecksumOffset.

Lemma checksum_offset : ExtentChainChecksumOffset = 4080%nat.
Proof. reflexivity. Qed.

(** A 4096-byte block as its covered part, its checksum field and its slack. *)
Section sealed.
Context (body field slack : list Z).
Context (Hbody : length body = ExtentChainChecksumOffset) (Hfield : length field = 8%nat).
Context (Hslack : length slack = 8%nat) (Hbytes : bytes body).

Lemma sealed_length : length (body ++ field ++ slack) = 4096%nat.
Proof using Hbody Hfield Hslack. rewrite !length_app, Hbody, Hfield, Hslack, checksum_offset. done. Qed.

Lemma ComputeChainChecksum_body :
  ComputeChainChecksum (body ++ field ++ slack) 4096 = Crc32c 0 body.
Proof using Hbody Hfield Hslack.
  unfold ComputeChainChecksum. rewrite sealed_length, checksum_offset. simpl Z.of_nat.
  rewrite (proj2 (Z.ltb_ge _ _)), (proj2 (Z.ltb_ge _ _)) by lia. cbn [orb].
  rewrite take_app_length' by (rewrite Hbody; apply checksum_offset). done.
Qed.

Lemma ReadChainChecksum_field : ReadChainChecksum (body ++ field ++ slack) = Ret (le_get field).
Proof using Hbody Hfield Hslack.
  unfold ReadChainChecksum. rewrite decide_True by (rewrite sealed_length, checksum_offset; lia).
  by rewrite slice_app'.
Qed.

Lemma SetBtreeNodeChecksum_body :
  SetBtreeNodeChecksum (body ++ field ++ slack) 4096
  = Ret (body ++ le_put 8 (Crc32c 0 body) ++ slack).
Proof using Hbody Hfield Hslack.
  unfold SetBtreeNodeChecksum. rewrite decide_True by (rewrite sealed_length, checksum_offset; lia).
  rewrite ComputeChainChecksum_body. f_equal. rewrite <- Hbody. apply blit_app.
  by rewrite length_le_put.
Qed.

End sealed.

Lemma Crc32c_body_range body :
  length body = ExtentChainChecksumOffset -> bytes body -> 0xE0000000 <= Crc32c 0 body < 2 ^ 32.
Proof.
  intros Hbody Hbytes. apply Crc32c_range; [unfold is_u32; lia | done |].
  intros ->. by rewrite checksum_offset in Hbody.
Qed.

(** What both verifications make of a block whose checksum field holds [stored]. *)
Lemma verify_stored body slack stored :
  length body = ExtentChainChecksumOffset -> length slack = 8%nat -> bytes body ->
  0 < stored < 2 ^ 64 ->
  let blk := body ++ le_put 8 stored ++ slack in
  (stored = Crc32c 0 body -> VerifyBtreeNodeChecksum blk 4096 = Ret tt /\
                             VerifyChainChecksum blk 4096 = Ret tt) /\
  (stored <> Crc32c 0 body -> VerifyBtreeNodeChecksum blk 4096 = Err ErrBtreeChecksum /\
                              VerifyChainChecksum blk 4096 = Err ErrChecksumMismatch).
Proof.
  intros Hb Hs Hby Hst blk. pose proof (length_le_put 8 stored) as Hf.
  assert (Hr : ReadChainChecksum blk = Ret stored).
  { unfold blk. rewrite ReadChainChecksum_field by done. rewrite le_get_put; [done|]. simpl. lia. }
  assert (Hg : (Z.of_nat (length blk) <? 4096) || (4096 <? Z.of_nat ExtentChainChecksumOffset) = false).
  { unfold blk. rewrite (sealed_length body _ slack Hb Hf Hs), checksum_offset. reflexivity. }
  assert (Hc : ComputeChainChecksum blk 4096 = Crc32c 0 body) by (by apply ComputeChainChecksum_body).
  unfold VerifyBtreeNodeChecksum, VerifyChainChecksum. rewrite Hg, Hr, !Hc. cbn [mbind res_bind].
  rewrite (proj2 (Z.eqb_neq stored 0)) by lia.
  split; intros E; [by rewrite (proj2 (Z.eqb_eq _ _) E) | by rewrite (proj2 (Z.eqb_neq _ _) E)].
Qed.

(** C38 Sealing a block protects it.  After [SetBtreeNodeChecksum] a 4096-byte
    block verifies under both verification routines, and its checksum is never
    zero, so it can never be taken for a legacy block without one; if
    afterwards up to three consecutive bytes of the covered region are altered
    to other byte values, both routines report a mismatch. *)
Theorem sealed_block_protected (pre x post field slack : list Z)
    (Hbody : length (pre ++ x ++ post) = ExtentChainChecksumOffset)
    (Hfield : length field = 8%nat) (Hslack : length slack = 8%nat)
    (Hbytes : bytes (pre ++ x ++ post)) :
  exists stored, 0 < stored < 2 ^ 32 /\
    SetBtreeNodeChecksum ((pre ++ x ++ post) ++ field ++ slack) 4096
    = Ret ((pre ++ x ++ post) ++ le_put 8 stored ++ slack) /\
    VerifyBtreeNodeChecksum ((pre ++ x ++ post) ++ le_put 8 stored ++ slack) 4096 = Ret tt /\
    VerifyChainChecksum ((pre ++ x ++ post) ++ le_put 8 stored ++ slack) 4096 = Ret tt /\
    forall y, bytes y -> length y = length x -> (length x <= 3)%nat -> y <> x ->
      VerifyBtreeNodeChecksum ((pre ++ y ++ post) ++ le_put 8 stored ++ slack) 4096
      = Err ErrBtreeChecksum /\
      VerifyChainChecksum ((pre ++ y ++ post) ++ le_put 8 stored ++ slack) 4096
      = Err ErrChecksumMismatch.
Proof.
  pose proof (Crc32c_body_range _ Hbody Hbytes) as Hr.
  exists (Crc32c 0 (pre ++ x ++ post)). split; [lia|].
  split; [by apply SetBtreeNodeChecksum_body|].
  destruct (verify_stored (pre ++ x ++ post) slack (Crc32c 0 (pre ++ x ++ post))) as [Hok _];
    [done..|lia|].
  destruct (Hok eq_refl) as [-> ->]. split_and!; [done..|]. intros y Hy Hl H3 Hne.
  assert (Hyb : bytes (pre ++ y ++ post)).
  { apply bytes_app in Hbytes as [? [_ ?]%bytes_app]. by rewrite !bytes_app. }
  apply verify_stored; [|done..|lia|]; [by rewrite <- Hbody, !length_app, Hl|].
  intros E. apply Hne. symmetry. by apply (Crc32c_window 0 pre x y post).
Qed.

Lemma sealed_block_protected_witness :
  exists stored, VerifyBtreeNodeChecksum (([] ++ [0; 0] ++ zeros 4078) ++ le_put 8 stored ++ zeros 8) 4096
    = Ret tt /\
    VerifyBtreeNodeChecksum (([] ++ [5; 0] ++ zeros 4078) ++ le_put 8 stored ++ zeros 8) 4096
    = Err ErrBtreeChecksum.
Proof.
  destruct (sealed_block_protected [] [0; 0] (zeros 4078) (zeros 8) (zeros 8))
    as (stored & _ & _ & Hok & _ & Hbad).
  - rewrite checksum_offset. reflexivity.
  - reflexivity.
  - reflexivity.
  - apply bytes_app. split; [constructor|]. apply bytes_app.
    split; [repeat constructor; unfold is_u8; lia | apply bytes_zeros].
  - exists stored. split; [exact Hok|]. apply Hbad; [|done|simpl; lia|done].
    repeat constructor; unfold is_u8; lia.
Defined.
