(* ===== verification/Extents.v ===== *)
(** * Extent lists (fuse/file_ops.go, fuse/extent_ops.go, fuse/runlist.go)

    The sorted extent list of a file and the operations that edit it: lookup,
    insertion with merging, removal of a range, the shifts of COLLAPSE_RANGE
    and INSERT_RANGE, and the conversion of one unwritten block.  An extent
    list stands for a map from file blocks to physical blocks and flags
    ([blk_at]); every operation is specified by what it does to that map.

    The Go code edits its slice in place; each caller owns the slice it passes
    (a clone of the cached tree, or a list just built), so the operations are
    functions from lists to lists here. *)

From stdpp Require Import base numbers list option sorting sets gmap.
From Stdlib Require Import ZArith Lia.
From S2P Require Import Prelude Codec.

Local Open Scope Z_scope.

Definition ExtentFlagUnwritten : Z := 1.

(** ** Operations *)

(** The loop of a binary search over [lo, hi): the least index from which the
    monotone predicate [p] holds.  [sort.Search] and the loop of [lookupExtent]
    are both this; [fuel] bounds the number of rounds by the interval's length. *)
Fixpoint search_loop (p : nat -> bool) (fuel lo hi : nat) : nat :=
  match fuel with
  | O => lo
  | S fuel' =>
      if (lo <? hi)%nat then
        let mid := ((lo + hi) / 2)%nat in
        if p mid then search_loop p fuel' lo mid else search_loop p fuel' (mid + 1)%nat hi
      else lo
  end.

Definition offset_at (exts : list Extent) (i : nat) : Z :=
  match exts !! i with Some e => ext_Offset e | None => 0 end.

Definition lookupExtent (exts : list Extent) (iblock : Z) : option Extent :=
  let lo := search_loop (fun i => negb (offset_at exts i <=? iblock))
              (length exts) 0 (length exts) in
  match lo with
  | O => None
  | S k => match exts !! k with
           | Some ext => if iblock <? u64 (ext_Offset ext + ext_Len ext) then Some ext else None
           | None => None
           end
  end.

(** The two extents are contiguous in offset and phys and share flags. *)
Definition mergeable (a b : Extent) : bool :=
  (u64 (ext_Offset a + ext_Len a) =? ext_Offset b) &&
  (u64 (ext_Phys a + ext_Len a) =? ext_Phys b) && (ext_Flags a =? ext_Flags b).

(** [a.Len += b.Len] *)
Definition grow (a b : Extent) : Extent :=
  mkExtent (ext_Offset a) (ext_Phys a) (u64 (ext_Len a + ext_Len b)) (ext_Flags a) (ext_Pad a).

(** The part of [insertExtentSorted] after the left neighbour was refused. *)
Definition insert_right (exts : list Extent) (i : nat) (ext : Extent) : list Extent :=
  match exts !! i with
  | Some rgt =>
      if mergeable ext rgt then
        <[i := mkExtent (ext_Offset ext) (ext_Phys ext) (u64 (ext_Len rgt + ext_Len ext))
                 (ext_Flags rgt) (ext_Pad rgt)]> exts
      else take i exts ++ ext :: drop i exts
  | None => take i exts ++ ext :: drop i exts
  end.

Definition insertExtentSorted (exts : list Extent) (ext : Extent) : list Extent :=
  let i := search_loop (fun i => ext_Offset ext <=? offset_at exts i)
             (length exts) 0 (length exts) in
  match (match i with O => None | S k => exts !! k end) with
  | Some lft =>
      if mergeable lft ext then
        let lft := grow lft ext in
        let exts := <[(i - 1)%nat := lft]> exts in
        match exts !! i with
        | Some rgt =>
            if mergeable lft rgt then
              let exts := <[(i - 1)%nat := grow lft rgt]> exts in
              take i exts ++ drop (i + 1) exts
            else exts
        | None => exts
        end
      else insert_right exts i ext
  | None => insert_right exts i ext
  end.

(** ** Runs of blocks (fuse/runlist.go) *)
Record blockRun := mkRun { run_first : Z; run_n : Z }.

Definition addRun (runs : list blockRun) (first n : Z) : list blockRun :=
  if n =? 0 then runs else
  match last runs with
  | Some l =>
      if u64 (run_first l + run_n l) =? first
      then <[(length runs - 1)%nat := mkRun (run_first l) (u64 (run_n l + n))]> runs
      else runs ++ [mkRun first n]
  | None => runs ++ [mkRun first n]
  end.

Definition addBlock (runs : list blockRun) (x : Z) : list blockRun :=
  match last runs with
  | Some l =>
      if u64 (run_first l + run_n l) =? x
      then <[(length runs - 1)%nat := mkRun (run_first l) (u64 (run_n l + 1))]> runs
      else runs ++ [mkRun x 1]
  | None => runs ++ [mkRun x 1]
  end.

Definition count (runs : list blockRun) : Z :=
  foldl (fun n r => u64 (n + run_n r)) 0 runs.

(** ** Removal of a range *)

(** One iteration of [freeExtentRange]: the pieces kept and the run freed. *)
Definition free_one (ext : Extent) (startBlk endBlk : Z) : list Extent * list blockRun :=
  let extEnd := u64 (ext_Offset ext + ext_Len ext) in
  if (extEnd <=? startBlk) || (endBlk <=? ext_Offset ext) then ([ext], []) else
  let ovStart := if ext_Offset ext <? startBlk then startBlk else ext_Offset ext in
  let ovEnd := if endBlk <? extEnd then endBlk else extEnd in
  let freed :=
    if negb (ext_Phys ext =? 0) && (ovStart <? ovEnd)
    then [mkRun (u64 (ext_Phys ext + u64 (ovStart - ext_Offset ext))) (u64 (ovEnd - ovStart))]
    else [] in
  let before :=
    if ext_Offset ext <? ovStart
    then [mkExtent (ext_Offset ext) (ext_Phys ext) (u64 (ovStart - ext_Offset ext))
            (ext_Flags ext) 0]
    else [] in
  let after :=
    if ovEnd <? extEnd
    then [mkExtent ovEnd (u64 (ext_Phys ext + u64 (ovEnd - ext_Offset ext)))
            (u64 (extEnd - ovEnd)) (ext_Flags ext) 0]
    else [] in
  (before ++ after, freed).

Fixpoint freeExtentRange (exts : list Extent) (startBlk endBlk : Z)
    : list Extent * list blockRun :=
  match exts with
  | [] => ([], [])
  | ext :: exts' =>
      let '(kept, freed) := free_one ext startBlk endBlk in
      let '(kept', freed') := freeExtentRange exts' startBlk endBlk in
      (kept ++ kept', freed ++ freed')
  end.

(** ** Shifts *)

(** One iteration of [shiftExtents] for COLLAPSE_RANGE ([dir < 0]). *)
Definition collapse_one (e : Extent) (S L : Z) : list Extent * list blockRun :=
  let o := ext_Offset e in
  let eend := u64 (ext_Offset e + ext_Len e) in
  let SL := u64 (S + L) in
  if eend <=? S then ([e], [])
  else if SL <=? o then
    ([mkExtent (u64 (o - L)) (ext_Phys e) (ext_Len e) (ext_Flags e) (ext_Pad e)], [])
  else if (S <=? o) && (eend <=? SL) then
    ([], if negb (ext_Phys e =? 0) then [mkRun (ext_Phys e) (u64 (eend - o))] else [])
  else
    let before :=
      if o <? S then [mkExtent o (ext_Phys e) (u64 (S - o)) (ext_Flags e) 0] else [] in
    let midStart := if o <? S then S else o in
    let midEnd := if SL <? eend then SL else eend in
    let freed :=
      if (midStart <? midEnd) && negb (ext_Phys e =? 0)
      then [mkRun (u64 (ext_Phys e + u64 (midStart - o))) (u64 (midEnd - midStart))] else [] in
    let after :=
      if SL <? eend
      then [mkExtent S (u64 (ext_Phys e + u64 (SL - o))) (u64 (eend - SL)) (ext_Flags e) 0]
      else [] in
    (before ++ after, freed).

(** One iteration for INSERT_RANGE. *)
Definition insert_one (e : Extent) (S L : Z) : list Extent :=
  let o := ext_Offset e in
  let eend := u64 (ext_Offset e + ext_Len e) in
  if eend <=? S then [e]
  else if S <=? o then
    [mkExtent (u64 (o + L)) (ext_Phys e) (ext_Len e) (ext_Flags e) (ext_Pad e)]
  else
    [mkExtent o (ext_Phys e) (u64 (S - o)) (ext_Flags e) 0;
     mkExtent (u64 (S + L)) (u64 (ext_Phys e + u64 (S - o))) (u64 (eend - S)) (ext_Flags e) 0].

Definition shift_one (e : Extent) (S L dir : Z) : list Extent * list blockRun :=
  if dir <? 0 then collapse_one e S L else (insert_one e S L, []).

Definition shiftExtents (exts : list Extent) (S L dir : Z) : list Extent * list blockRun :=
  let raw := concat ((fun e => fst (shift_one e S L dir)) <$> exts) in
  let freed := concat ((fun e => snd (shift_one e S L dir)) <$> exts) in
  (foldl insertExtentSorted [] raw, freed).

(** ** Conversion of an unwritten block *)

(** The replacement of the extent [e], already taken out of [exts]. *)
Definition split_at (exts : list Extent) (e : Extent) (iblock : Z) : list Extent :=
  let exts :=
    if ext_Offset e <? iblock
    then insertExtentSorted exts
           (mkExtent (ext_Offset e) (ext_Phys e) (u64 (iblock - ext_Offset e)) ExtentFlagUnwritten 0)
    else exts in
  let exts := insertExtentSorted exts
    (mkExtent iblock (u64 (ext_Phys e + u64 (iblock - ext_Offset e))) 1 0 0) in
  let extEnd := u64 (ext_Offset e + ext_Len e) in
  let after := u64 (iblock + 1) in
  if after <? extEnd
  then insertExtentSorted exts
         (mkExtent after (u64 (ext_Phys e + u64 (after - ext_Offset e))) (u64 (extEnd - after))
            ExtentFlagUnwritten 0)
  else exts.

Definition splitUnwrittenAt (exts : list Extent) (ext : Extent) (iblock : Z) : list Extent :=
  match list_find (fun e => ext_Offset e = ext_Offset ext /\ ext_Phys e = ext_Phys ext) exts with
  | Some (i, e) => split_at (take i exts ++ drop (i + 1) exts) e iblock
  | None => exts
  end.

(** ** Denotation *)

(** The end of an extent, without wrap-around. *)
Definition eend (e : Extent) : Z := ext_Offset e + ext_Len e.

Definition covers (e : Extent) (b : Z) : Prop := ext_Offset e <= b < eend e.

#[export] Instance covers_dec e b : Decision (covers e b).
Proof. unfold covers. apply _. Defined.

(** Where the extent puts block [b]: its physical block and flags. *)
Definition place (e : Extent) (b : Z) : Z * Z := (ext_Phys e + (b - ext_Offset e), ext_Flags e).

Fixpoint blk_at (exts : list Extent) (b : Z) : option (Z * Z) :=
  match exts with
  | [] => None
  | e :: exts' => if decide (covers e b) then Some (place e b) else blk_at exts' b
  end.

(** An extent of a file: nonempty, mapped, and within 64 bits. *)
Record ext_ok (e : Extent) : Prop := {
  ok_offset : 0 <= ext_Offset e;
  ok_len : 0 < ext_Len e;
  ok_end : eend e < 2 ^ 64;
  ok_phys : 0 < ext_Phys e;
  ok_phys_end : ext_Phys e + ext_Len e < 2 ^ 64;
}.

Definition before (a b : Extent) : Prop := eend a <= ext_Offset b.

(** Sorted by offset, and disjoint. *)
Definition exts_ok (exts : list Extent) : Prop :=
  Forall ext_ok exts /\ StronglySorted before exts.

(** The blocks of a list of runs, in order. *)
Definition run_blocks (runs : list blockRun) : list Z :=
  concat ((fun r => seqZ (run_first r) (run_n r)) <$> runs).

(** ** Binary search *)
Lemma search_loop_spec (p : nat -> bool) (n : nat) :
  (forall i j, (i <= j < n)%nat -> p i = true -> p j = true) ->
  forall fuel lo hi, (hi - lo <= fuel)%nat -> (lo <= hi <= n)%nat ->
  (forall i, (i < lo)%nat -> p i = false) ->
  (forall i, (hi <= i < n)%nat -> p i = true) ->
  let r := search_loop p fuel lo hi in
  (lo <= r <= hi)%nat /\ (forall i, (i < r)%nat -> p i = false) /\
  (forall i, (r <= i < n)%nat -> p i = true).
Proof.
  intros Hm. induction fuel as [|fuel IH]; intros lo hi Hf Hb Hlo Hhi; cbn [search_loop].
  - split_and!; try lia; [done|]. intros i Hi. apply Hhi. lia.
  - destruct (lo <? hi)%nat eqn:E.
    + apply Nat.ltb_lt in E. pose proof (Nat.div_mod_eq (lo + hi) 2).
      pose proof (Nat.mod_upper_bound (lo + hi) 2). set (mid := ((lo + hi) / 2)%nat) in *.
      destruct (p mid) eqn:Ep.
      * destruct (IH lo mid) as (? & ? & ?); [lia|lia|done| |split_and!; lia || done].
        intros i Hi. apply (Hm mid); [lia|done].
      * destruct (IH (mid + 1)%nat hi) as (? & ? & ?); [lia|lia| |done|split_and!; lia || done].
        intros i Hi. destruct (p i) eqn:Ei; [|done].
        rewrite (Hm i mid) in Ep by (lia || done). done.
    + apply Nat.ltb_ge in E. split_and!; try lia; [done|]. intros i Hi. apply Hhi. lia.
Qed.

(** ** The map of an extent list *)

Lemma blk_at_app l1 l2 b :
  blk_at (l1 ++ l2) b = match blk_at l1 b with Some x => Some x | None => blk_at l2 b end.
Proof. induction l1 as [|e l1 IH]; simpl; [done|]. by case_decide. Qed.

Lemma blk_at_None l b : blk_at l b = None <-> forall e, e ∈ l -> ~ covers e b.
Proof.
  induction l as [|e l IH]; simpl; [split; [set_solver|done]|]. case_decide as Hc.
  - split; [done|]. intros H. by destruct (H e (list_elem_of_here _ _)).
  - rewrite IH. split; [intros H e' [->|]%elem_of_cons; auto | set_solver].
Qed.

Lemma blk_at_Some l b x :
  blk_at l b = Some x -> exists e, e ∈ l /\ covers e b /\ x = place e b.
Proof.
  induction l as [|e l IH]; simpl; [done|]. case_decide.
  - intros [= <-]. exists e. set_solver.
  - intros H1. destruct (IH H1) as (e' & ? & ? & ?). exists e'. set_solver.
Qed.

Lemma exts_ok_app l1 l2 :
  exts_ok (l1 ++ l2) <->
  exts_ok l1 /\ exts_ok l2 /\ forall a b, a ∈ l1 -> b ∈ l2 -> before a b.
Proof. unfold exts_ok. rewrite Forall_app, StronglySorted_app. tauto. Qed.

Lemma exts_ok_cons e l :
  exts_ok (e :: l) <-> ext_ok e /\ exts_ok l /\ forall b, b ∈ l -> before e b.
Proof.
  unfold exts_ok. rewrite Forall_cons, StronglySorted_cons, !Forall_forall. tauto.
Qed.

Lemma exts_ok_nil : exts_ok [].
Proof. split; constructor. Qed.

Lemma exts_ok_elem l e : exts_ok l -> e ∈ l -> ext_ok e.
Proof. intros [H _]. rewrite Forall_forall in H. auto. Qed.

Lemma blk_at_elem l e b : exts_ok l -> e ∈ l -> covers e b -> blk_at l b = Some (place e b).
Proof.
  intros Hok Hin Hc. apply list_elem_of_split in Hin as (l1 & l2 & ->).
  apply exts_ok_app in Hok as (_ & _ & Hb). rewrite blk_at_app. simpl.
  rewrite (proj2 (blk_at_None l1 b)), decide_True; [done|done|].
  intros a Ha Hca. specialize (Hb a e Ha (list_elem_of_here _ _)).
  unfold before, covers, eend in *. lia.
Qed.

(** Cutting a sorted list at a monotone predicate on offsets. *)
Lemma search_split l (q : Z -> bool) :
  exts_ok l -> (forall x y, x <= y -> q x = true -> q y = true) ->
  exists l1 l2, l = l1 ++ l2 /\
    search_loop (fun i => q (offset_at l i)) (length l) 0 (length l) = length l1 /\
    (forall e, e ∈ l1 -> q (ext_Offset e) = false) /\
    (forall e, e ∈ l2 -> q (ext_Offset e) = true).
Proof.
  intros Hok Hq.
  assert (Hmono : forall i j, (i <= j < length l)%nat -> offset_at l i <= offset_at l j).
  { intros i j Hij. unfold offset_at.
    destruct (lookup_lt_is_Some_2 l i) as [a Ea]; [lia|].
    destruct (lookup_lt_is_Some_2 l j) as [c Ec]; [lia|]. rewrite Ea, Ec.
    destruct (decide (i = j)) as [->|Hne]; [simplify_eq; lia|].
    pose proof (take_drop (S i) l) as Htd. rewrite <- Htd in Hok.
    apply exts_ok_app in Hok as (H1 & _ & Hb).
    assert (Ha : a ∈ take (S i) l).
    { apply list_elem_of_lookup. exists i. rewrite lookup_take_lt by lia. done. }
    assert (Hc : c ∈ drop (S i) l).
    { apply list_elem_of_lookup. exists (j - S i)%nat. rewrite lookup_drop.
      by replace (S i + (j - S i))%nat with j by lia. }
    specialize (Hb a c Ha Hc). pose proof (exts_ok_elem _ _ H1 Ha) as [? ? ? ? ?].
    unfold before, eend in *. lia. }
  destruct (search_loop_spec (fun i => q (offset_at l i)) (length l)) with
    (fuel := length l) (lo := 0%nat) (hi := length l) as (Hr & Hlo & Hhi); try lia.
  { intros i j Hij. apply Hq, Hmono. lia. }
  set (r := search_loop _ _ _ _) in *.
  exists (take r l), (drop r l). split_and!; [by rewrite take_drop | by rewrite length_take_le by lia|..].
  - intros e [i Hi]%list_elem_of_lookup. apply lookup_take_Some in Hi as [Hi Hlt].
    specialize (Hlo i Hlt). unfold offset_at in Hlo. by rewrite Hi in Hlo.
  - intros e [i Hi]%list_elem_of_lookup. rewrite lookup_drop in Hi.
    assert (Hlt : (r + i < length l)%nat) by (by apply lookup_lt_Some in Hi).
    specialize (Hhi (r + i)%nat ltac:(lia)). unfold offset_at in Hhi. by rewrite Hi in Hhi.
Qed.

Lemma lookupExtent_spec l b :
  exts_ok l -> 
  match lookupExtent l b with
  | Some e => e ∈ l /\ covers e b
  | None => blk_at l b = None
  end.
Proof.
  intros Hok. destruct (search_split l (fun o => negb (o <=? b)) Hok) as (l1 & l2 & -> & Hs & H1 & H2).
  { intros x y Hxy. rewrite !negb_true_iff, !Z.leb_gt. lia. }
  unfold lookupExtent. rewrite Hs.
  assert (N2 : forall e, e ∈ l2 -> ~ covers e b).
  { intros e He Hc. specialize (H2 e He). rewrite negb_true_iff, Z.leb_gt in H2.
    unfold covers in Hc. lia. }
  destruct l1 as [|e l1 _] using rev_ind; simpl; [by apply blk_at_None|].
  rewrite length_app, Nat.add_comm. simpl.
  rewrite <- app_assoc, lookup_app_r, Nat.sub_diag by lia. simpl.
  assert (He : e ∈ (l1 ++ [e]) ++ l2) by set_solver.
  pose proof (exts_ok_elem _ _ Hok He) as [? ? ? ? ?].
  specialize (H1 e ltac:(set_solver)). rewrite negb_false_iff, Z.leb_le in H1.
  fold (eend e). rewrite u64_small by (unfold is_u64, eend in *; lia).
  destruct (b <? eend e) eqn:E.
  - apply Z.ltb_lt in E. split; [set_solver|]. unfold covers. lia.
  - apply Z.ltb_ge in E. apply blk_at_None. intros a Ha Hc.
    apply elem_of_app in Ha as [Ha|[->|Ha]%elem_of_cons]; [|unfold covers in Hc; lia|by eapply N2].
    apply exts_ok_app in Hok as ((_ & _ & Hb)%exts_ok_app & _ & _).
    specialize (Hb a e Ha (list_elem_of_here _ _)). unfold before, covers in *. lia.
Qed.

(** ** Insertion *)

(** [j] is the extent [a] followed by the extent [b]. *)
Definition joined (a b j : Extent) : Prop :=
  ext_Offset j = ext_Offset a /\ ext_Phys j = ext_Phys a /\
  ext_Len j = ext_Len a + ext_Len b /\ ext_Flags j = ext_Flags a.

Lemma mergeable_spec a b :
  ext_ok a ->
  mergeable a b = true <->
  eend a = ext_Offset b /\ ext_Phys a + ext_Len a = ext_Phys b /\ ext_Flags a = ext_Flags b.
Proof.
  intros [? ? ? ? ?]. unfold mergeable, eend in *.
  rewrite !u64_small by (unfold is_u64; lia).
  rewrite !andb_true_iff, !Z.eqb_eq. tauto.
Qed.

Lemma joined_ok l a b j r :
  exts_ok (l ++ a :: b :: r) -> mergeable a b = true -> joined a b j ->
  exts_ok (l ++ j :: r) /\ ext_ok j /\ forall x, blk_at (l ++ j :: r) x = blk_at (l ++ a :: b :: r) x.
Proof.
  intros Hok Hm (J1 & J2 & J3 & J4).
  rewrite exts_ok_app, !exts_ok_cons in Hok.
  destruct Hok as (Hl & (Ha & (Hb & Hr & Hbr) & Har) & Hlr).
  apply (mergeable_spec a b Ha) in Hm as (M1 & M2 & M3).
  destruct Ha as [? ? ? ? ?], Hb as [? ? ? ? ?]. unfold eend in *.
  assert (Hj : ext_ok j) by (split; unfold eend; lia).
  split_and!; [|done|].
  - apply exts_ok_app. split_and!; [done| |].
    + apply exts_ok_cons. split_and!; [done|done|]. intros c Hc. specialize (Hbr c Hc).
      unfold before, eend in *. lia.
    + intros x y Hx [->|Hy]%elem_of_cons; [|apply Hlr; set_solver].
      assert (Hxa : before x a) by (apply Hlr; set_solver). unfold before, eend in *. lia.
  - intros x. rewrite !blk_at_app. simpl.
    destruct (blk_at l x); [done|]. unfold covers, place, eend.
    repeat case_decide; try lia; [f_equal; f_equal; lia..|done].
Qed.

(** Where an extent that overlaps nothing goes. *)
Lemma insert_place l1 l2 ext :
  exts_ok (l1 ++ l2) -> ext_ok ext ->
  (forall e, e ∈ l1 -> ext_Offset e < ext_Offset ext) ->
  (forall e, e ∈ l2 -> ext_Offset ext <= ext_Offset e) ->
  (forall b, covers ext b -> blk_at (l1 ++ l2) b = None) ->
  exts_ok (l1 ++ ext :: l2) /\
  forall b, blk_at (l1 ++ ext :: l2) b
    = if decide (covers ext b) then Some (place ext b) else blk_at (l1 ++ l2) b.
Proof.
  intros Hok He Hl1 Hl2 Hdis. pose proof He as [? ? ? ? ?].
  assert (Hno : forall e b, e ∈ l1 ++ l2 -> covers ext b -> ~ covers e b).
  { intros e b Hin Hc. apply Hdis in Hc. rewrite blk_at_None in Hc. auto. }
  assert (B1 : forall e, e ∈ l1 -> before e ext).
  { intros e Hin. unfold before. apply Z.nlt_ge. intros Hlt.
    apply (Hno e (ext_Offset ext)); [set_solver|unfold covers, eend in *; lia|].
    specialize (Hl1 e Hin). unfold covers. lia. }
  assert (B2 : forall e, e ∈ l2 -> before ext e).
  { intros e Hin. unfold before. apply Z.nlt_ge. intros Hlt. specialize (Hl2 e Hin).
    apply (Hno e (ext_Offset e)); [set_solver|unfold covers; lia|].
    assert (Hoe : ext_ok e) by (eapply exts_ok_elem; [done|set_solver]). destruct Hoe.
    unfold covers, eend in *. lia. }
  split.
  - apply exts_ok_app in Hok as (H1 & H2 & H12). apply exts_ok_app. split_and!; [done| |].
    + by apply exts_ok_cons.
    + intros a b Ha [->|Hb]%elem_of_cons; auto.
  - intros b. rewrite !blk_at_app. simpl. case_decide as Hc; [|done].
    rewrite (proj2 (blk_at_None l1 b)); [done|]. intros e Hin. apply Hno; [set_solver|done].
Qed.

Lemma insert_right_spec l1 l2 ext :
  exts_ok (l1 ++ ext :: l2) ->
  exts_ok (insert_right (l1 ++ l2) (length l1) ext) /\
  forall b, blk_at (insert_right (l1 ++ l2) (length l1) ext) b = blk_at (l1 ++ ext :: l2) b.
Proof.
  intros Hok. unfold insert_right. rewrite take_app_length, drop_app_length.
  rewrite lookup_app_r, Nat.sub_diag by lia. destruct l2 as [|rgt l2]; simpl; [done|].
  destruct (mergeable ext rgt) eqn:Hm; [|done].
  rewrite insert_app_r_alt, Nat.sub_diag by lia. simpl.
  assert (He : ext_ok ext) by (eapply exts_ok_elem; [done|set_solver]).
  assert (Hr : ext_ok rgt) by (eapply exts_ok_elem; [done|set_solver]).
  pose proof (proj1 (mergeable_spec ext rgt He) Hm) as (M1 & M2 & M3).
  destruct He as [? ? ? ? ?], Hr as [? ? ? ? ?]. unfold eend in *.
  edestruct (joined_ok l1 ext rgt) as (J1 & _ & J2); [done|done| |split; [apply J1|apply J2]].
  unfold joined. simpl. rewrite u64_small by (unfold is_u64; lia). split_and!; lia || done.
Qed.

Lemma joined_grow a b :
  ext_ok a -> ext_ok b -> mergeable a b = true -> joined a b (grow a b).
Proof.
  intros Ha [? ? ? ? ?] (M1 & M2 & M3)%mergeable_spec; [|done].
  destruct Ha as [? ? ? ? ?]. unfold joined, grow, eend in *. simpl.
  by rewrite u64_small by (unfold is_u64; lia).
Qed.

Lemma insertExtentSorted_spec l ext :
  exts_ok l -> ext_ok ext -> (forall b, covers ext b -> blk_at l b = None) ->
  exts_ok (insertExtentSorted l ext) /\
  forall b, blk_at (insertExtentSorted l ext) b
    = if decide (covers ext b) then Some (place ext b) else blk_at l b.
Proof.
  intros Hok He Hdis.
  destruct (search_split l (fun o => ext_Offset ext <=? o) Hok) as (l1 & l2 & -> & Hs & H1 & H2).
  { intros x y Hxy. rewrite !Z.leb_le. lia. }
  destruct (insert_place l1 l2 ext) as [Hins Hmap]; try done.
  { intros e Hin. by apply Z.leb_gt, H1. }
  { intros e Hin. by apply Z.leb_le, H2. }
  setoid_rewrite <- Hmap. unfold insertExtentSorted. rewrite Hs.
  destruct l1 as [|lft l1 _] using rev_ind; [by apply (insert_right_spec [])|].
  rewrite length_app. cbn [length]. replace (length l1 + 1)%nat with (S (length l1)) by lia.
  rewrite <- !app_assoc in *. cbn [app] in *.
  rewrite lookup_app_r, Nat.sub_diag by lia. cbn [lookup list_lookup].
  destruct (mergeable lft ext) eqn:Hm.
  2:{ pose proof (insert_right_spec (l1 ++ [lft]) l2 ext) as Hr.
      rewrite length_app, <- !app_assoc in Hr. cbn [app length] in Hr.
      replace (length l1 + 1)%nat with (S (length l1)) in Hr by lia. by apply Hr. }
  assert (Hl : ext_ok lft) by (eapply exts_ok_elem; [done|set_solver]).
  destruct (joined_ok l1 lft ext (grow lft ext) l2) as (J1 & Jg & J2);
    [done|done|by apply joined_grow|].
  replace (S (length l1) - 1)%nat with (length l1) by lia.
  rewrite insert_app_r_alt, Nat.sub_diag by lia. cbn [insert list_insert].
  rewrite lookup_app_r by lia. replace (S (length l1) - length l1)%nat with 1%nat by lia.
  destruct l2 as [|rgt l2]; cbn [lookup list_lookup]; [done|].
  destruct (mergeable (grow lft ext) rgt) eqn:Hm2; [|done].
  assert (Hr : ext_ok rgt) by (eapply exts_ok_elem; [done|set_solver]).
  destruct (joined_ok l1 (grow lft ext) rgt (grow (grow lft ext) rgt) l2) as (K1 & _ & K2);
    [done|done|by apply joined_grow|].
  rewrite insert_app_r_alt, Nat.sub_diag by lia. cbn [insert list_insert].
  rewrite take_app, drop_app, take_ge, drop_ge by lia.
  replace (S (length l1) - length l1)%nat with 1%nat by lia.
  replace (S (length l1) + 1 - length l1)%nat with 2%nat by lia. cbn [take drop app].
  rewrite <- app_assoc. cbn [app]. split; [done|]. intros b. by rewrite K2, J2.
Qed.

(** ** Rewriting a list extent by extent

    The range operations replace each extent by pieces.  [h] says from which
    old block a new block takes its place, [g] where a block boundary moves;
    the pieces of an extent stay between the images of its ends. *)

Definition within (lo hi : Z) (ks : list Extent) : Prop :=
  exts_ok ks /\ forall k, k ∈ ks -> lo <= ext_Offset k /\ eend k <= hi.

Definition moved (h : Z -> option Z) (e : Extent) (b : Z) : option (Z * Z) :=
  match h b with
  | Some b' => if decide (covers e b') then Some (place e b') else None
  | None => None
  end.

Section rewrite.
Context (f : Extent -> list Extent) (g : Z -> Z) (h : Z -> option Z).
Context (Hg : forall x y, x <= y -> g x <= g y).

Lemma pieces_spec l :
  exts_ok l ->
  (forall e, e ∈ l -> within (g (ext_Offset e)) (g (eend e)) (f e) /\
    forall b, blk_at (f e) b = moved h e b) ->
  exts_ok (concat (f <$> l)) /\
  forall b, blk_at (concat (f <$> l)) b = match h b with Some b' => blk_at l b' | None => None end.
Proof using Hg.
  induction l as [|e l IH]; intros Hok Hf; csimpl.
  { split; [apply exts_ok_nil|]. intros b. by destruct (h b). }
  apply exts_ok_cons in Hok as (He & Hl & Hbe).
  destruct IH as [IH1 IH2]; [done|intros; apply Hf; by apply list_elem_of_further|].
  destruct (Hf e) as [[W1 W2] Hmap]; [apply list_elem_of_here|]. split.
  - apply exts_ok_app. split_and!; [done..|]. intros k k' Hk Hk'.
    apply list_elem_of_In, in_concat in Hk' as (ks & Hks & Hin).
    apply list_elem_of_In, list_elem_of_fmap in Hks as (e' & -> & He'). apply list_elem_of_In in Hin.
    destruct (Hf e') as [[_ W2'] _]; [by apply list_elem_of_further|].
    specialize (W2 k Hk). specialize (W2' k' Hin). specialize (Hbe e' He').
    unfold before in *. specialize (Hg _ _ Hbe). lia.
  - intros b. rewrite blk_at_app, Hmap, IH2. unfold moved.
    destruct (h b); [|done]. simpl. by case_decide.
Qed.

End rewrite.

Lemma within_nil lo hi : within lo hi [].
Proof. split; [apply exts_ok_nil|set_solver]. Qed.

Lemma within_one lo hi k : ext_ok k -> lo <= ext_Offset k -> eend k <= hi -> within lo hi [k].
Proof.
  intros Hk H1 H2. split; [apply exts_ok_cons; split_and!; [done|apply exts_ok_nil|set_solver]|].
  intros k' ->%list_elem_of_singleton. done.
Qed.

Lemma within_two lo hi k1 k2 :
  ext_ok k1 -> ext_ok k2 -> lo <= ext_Offset k1 -> before k1 k2 -> eend k2 <= hi ->
  within lo hi [k1; k2].
Proof.
  intros H1 H2 Hlo Hb Hhi. unfold before in Hb. pose proof H1 as [? ? ? ? ?]. pose proof H2 as [? ? ? ? ?].
  split.
  - repeat (apply exts_ok_cons; split_and!; [done| |]); [apply exts_ok_nil|set_solver|].
    by intros b ->%list_elem_of_singleton.
  - unfold eend in *. intros k [->| ->%list_elem_of_singleton]%elem_of_cons; unfold eend; lia.
Qed.

(** The part of an extent in [s, t), as a run of physical blocks. *)
Definition freed_ref (e : Extent) (s t : Z) : list blockRun :=
  if Z.max (ext_Offset e) s <? Z.min (eend e) t
  then [mkRun (ext_Phys e + (Z.max (ext_Offset e) s - ext_Offset e))
              (Z.min (eend e) t - Z.max (ext_Offset e) s)]
  else [].

Definition total_len (l : list Extent) : Z := foldr (fun e n => ext_Len e + n) 0 l.
Definition total_runs (l : list blockRun) : Z := foldr (fun r n => run_n r + n) 0 l.

(** Goals about the pieces of one extent: the record fields are projected, the
    differences do not wrap, and what is left is linear arithmetic. *)
Ltac piece_ok :=
  first
    [ apply within_nil
    | apply within_one; [split|..]
    | apply within_two; [split|split|..] ];
  unfold before, eend in *; cbn [ext_Offset ext_Phys ext_Len] in *; lia.

Ltac piece_map :=
  let b := fresh "b" in
  intros b; unfold moved; cbn [app blk_at];
  unfold covers, place, eend in *; cbn [ext_Offset ext_Phys ext_Len ext_Flags] in *;
  repeat case_decide; try lia; try done; f_equal; f_equal; lia.

Ltac piece_sum := unfold eend in *; cbn [app total_len total_runs foldr ext_Len run_n] in *; lia.

Ltac small :=
  repeat match goal with
  | |- context [u64 ?x] =>
      lazymatch x with
      | context [u64 _] => fail
      | _ => rewrite (u64_small x) by (unfold is_u64, eend in *; lia)
      end
  end.

Section one_extent.
Context (e : Extent) (He : ext_ok e).

Lemma u64_eend : u64 (ext_Offset e + ext_Len e) = eend e.
Proof using He. destruct He. apply u64_small. unfold is_u64, eend in *. lia. Qed.

Lemma phys_nonzero : negb (ext_Phys e =? 0) = true.
Proof using He. destruct He. apply negb_true_iff, Z.eqb_neq. lia. Qed.

Definition cut (s t b : Z) : option Z := if decide (s <= b < t) then None else Some b.

Lemma free_one_spec s t :
  0 <= s <= t -> t < 2 ^ 64 ->
  within (ext_Offset e) (eend e) (fst (free_one e s t)) /\
  (forall b, blk_at (fst (free_one e s t)) b = moved (cut s t) e b) /\
  snd (free_one e s t) = freed_ref e s t /\
  total_len (fst (free_one e s t)) + total_runs (snd (free_one e s t)) = ext_Len e.
Proof using He.
  intros Hst Ht. unfold free_one, freed_ref, cut. rewrite u64_eend, phys_nonzero. cbn [andb].
  pose proof He as [H1 H2 H3 H4 H5]. assert (H6 : ext_Offset e < eend e) by (unfold eend; lia).
  destruct (Z.leb_spec (eend e) s) as [E1|E1]; cbn [orb].
  { rewrite (proj2 (Z.ltb_ge _ _)) by lia. cbn [fst snd].
    split_and!; [piece_ok | piece_map | done | piece_sum]. }
  destruct (Z.leb_spec t (ext_Offset e)) as [E2|E2].
  { rewrite (proj2 (Z.ltb_ge (Z.max _ _) _)) by lia. cbn [fst snd].
    split_and!; [piece_ok | piece_map | done | piece_sum]. }
  destruct (Z.ltb_spec (ext_Offset e) s) as [E3|E3], (Z.ltb_spec t (eend e)) as [E4|E4];
    rewrite ?(Z.max_r _ s), ?(Z.max_l _ s), ?(Z.min_r _ t), ?(Z.min_l _ t) by lia;
    rewrite ?Z.ltb_irrefl, ?(proj2 (Z.ltb_lt (ext_Offset e) s)), ?(proj2 (Z.ltb_lt t (eend e))) by lia;
    small; cbn [fst snd app].
  all: match goal with |- context [if ?x <? ?y then _ else _] => destruct (Z.ltb_spec x y) end;
    (split_and!; [piece_ok | piece_map | done || (do 2 f_equal; lia) | piece_sum]).
Qed.

(** COLLAPSE_RANGE: blocks from [S] on come from [L] blocks higher. *)
Definition collapse_from (S L b : Z) : option Z := if decide (b < S) then Some b else Some (b + L).
Definition collapse_to (S L x : Z) : Z := if decide (x <= S) then x else Z.max S (x - L).

Lemma collapse_one_spec S L :
  0 <= S -> 0 <= L -> S + L < 2 ^ 64 ->
  within (collapse_to S L (ext_Offset e)) (collapse_to S L (eend e)) (fst (collapse_one e S L)) /\
  (forall b, blk_at (fst (collapse_one e S L)) b = moved (collapse_from S L) e b) /\
  snd (collapse_one e S L) = freed_ref e S (S + L) /\
  total_len (fst (collapse_one e S L)) + total_runs (snd (collapse_one e S L)) = ext_Len e.
Proof using He.
  intros HS HL HSL. unfold collapse_one, freed_ref, collapse_from, collapse_to.
  rewrite u64_eend, phys_nonzero, andb_true_r.
  pose proof He as [H1 H2 H3 H4 H5]. assert (H6 : ext_Offset e < eend e) by (unfold eend; lia).
  rewrite (u64_small (S + L)) by (unfold is_u64; lia).
  destruct (Z.leb_spec (eend e) S) as [E1|E1];
    [|destruct (Z.leb_spec (S + L) (ext_Offset e)) as [E2|E2];
      [|destruct (Z.leb_spec S (ext_Offset e)) as [E3|E3],
         (Z.leb_spec (eend e) (S + L)) as [E4|E4]]];
    cbn [andb]; repeat case_decide; try lia;
    rewrite ?(proj2 (Z.ltb_lt (ext_Offset e) S)), ?(proj2 (Z.ltb_ge (ext_Offset e) S)),
      ?(proj2 (Z.ltb_lt (S + L) (eend e))), ?(proj2 (Z.ltb_ge (S + L) (eend e))) by lia;
    small; cbn [fst snd app].
  all: repeat match goal with
       | |- context [if ?x <? ?y then _ else _] => destruct (Z.ltb_spec x y); try lia end.
  all: (split_and!; [piece_ok | piece_map | done || (do 2 f_equal; lia) | piece_sum]).
Qed.

(** INSERT_RANGE: blocks from [S+L] on come from [L] blocks lower. *)
Definition insert_from (S L b : Z) : option Z :=
  if decide (b < S) then Some b else if decide (b < S + L) then None else Some (b - L).
Definition insert_to (S L x : Z) : Z := if decide (x <= S) then x else x + L.

Lemma insert_one_spec S L :
  0 <= S -> 0 <= L -> eend e + L < 2 ^ 64 ->
  within (insert_to S L (ext_Offset e)) (insert_to S L (eend e)) (insert_one e S L) /\
  (forall b, blk_at (insert_one e S L) b = moved (insert_from S L) e b) /\
  total_len (insert_one e S L) = ext_Len e.
Proof using He.
  intros HS HL HSL. unfold insert_one, insert_from, insert_to. rewrite u64_eend.
  pose proof He as [H1 H2 H3 H4 H5]. assert (H6 : ext_Offset e < eend e) by (unfold eend; lia).
  destruct (Z.leb_spec (eend e) S) as [E1|E1]; [|destruct (Z.leb_spec S (ext_Offset e)) as [E2|E2]];
    small; repeat case_decide; try lia; (split_and!; [piece_ok | piece_map | piece_sum]).
Qed.

End one_extent.

(** ** Whole lists *)

Lemma freeExtentRange_concat l s t :
  freeExtentRange l s t
  = (concat ((fun e => fst (free_one e s t)) <$> l), concat ((fun e => snd (free_one e s t)) <$> l)).
Proof.
  induction l as [|e l IH]; csimpl; [done|]. rewrite IH. by destruct (free_one e s t).
Qed.

Lemma total_len_app l1 l2 : total_len (l1 ++ l2) = total_len l1 + total_len l2.
Proof. induction l1; csimpl; unfold total_len in *; simpl in *; lia. Qed.

Lemma total_runs_app l1 l2 : total_runs (l1 ++ l2) = total_runs l1 + total_runs l2.
Proof. induction l1; unfold total_runs in *; simpl in *; lia. Qed.

(** What is kept and what is freed add up. *)
Lemma total_conserved (F : Extent -> list Extent * list blockRun) l :
  (forall e, e ∈ l -> total_len (fst (F e)) + total_runs (snd (F e)) = ext_Len e) ->
  total_len (concat ((fun e => fst (F e)) <$> l)) + total_runs (concat ((fun e => snd (F e)) <$> l))
  = total_len l.
Proof.
  induction l as [|e l IH]; intros H; csimpl; [done|].
  rewrite total_len_app, total_runs_app. specialize (H e (list_elem_of_here _ _)) as He.
  change (total_len (e :: l)) with (ext_Len e + total_len l).
  rewrite <- IH by (intros; apply H; by apply list_elem_of_further). lia.
Qed.

Lemma elem_of_run_blocks p runs :
  p ∈ run_blocks runs <-> exists r, r ∈ runs /\ run_first r <= p < run_first r + run_n r.
Proof.
  unfold run_blocks. induction runs as [|r runs IH]; csimpl; [set_solver|].
  rewrite elem_of_app, elem_of_seqZ, IH. setoid_rewrite elem_of_cons. naive_solver.
Qed.

(** The freed runs are the physical blocks of the mapped blocks of [s, t). *)
Lemma freed_blocks l s t p :
  exts_ok l ->
  p ∈ run_blocks (concat ((fun e => freed_ref e s t) <$> l)) <->
  exists b fl, s <= b < t /\ blk_at l b = Some (p, fl).
Proof.
  intros Hok. rewrite elem_of_run_blocks. split.
  - intros (r & Hr & Hp). apply list_elem_of_In, in_concat in Hr as (rs & Hrs & Hin).
    apply list_elem_of_In, list_elem_of_fmap in Hrs as (e & -> & He).
    unfold freed_ref in Hin. destruct (Z.ltb_spec (Z.max (ext_Offset e) s) (Z.min (eend e) t)); [|done].
    destruct Hin as [<-|[]]. cbn [run_first run_n] in Hp.
    exists (p - ext_Phys e + ext_Offset e), (ext_Flags e). split; [lia|].
    rewrite (blk_at_elem l e) by (done || (unfold covers; lia)). unfold place. do 2 f_equal. lia.
  - intros (b & fl & Hb & (e & He & Hc & [= -> ->])%blk_at_Some).
    exists (mkRun (ext_Phys e + (Z.max (ext_Offset e) s - ext_Offset e))
              (Z.min (eend e) t - Z.max (ext_Offset e) s)). unfold covers in Hc.
    split; [|cbn [run_first run_n]; lia].
    apply list_elem_of_In, in_concat. exists (freed_ref e s t). split.
    + apply list_elem_of_In, list_elem_of_fmap. eauto.
    + unfold freed_ref. rewrite (proj2 (Z.ltb_lt _ _)) by lia. by left.
Qed.

Lemma list_fmap_eq_in {A B} (F G : A -> B) (l : list A) :
  (forall x, x ∈ l -> F x = G x) -> F <$> l = G <$> l.
Proof.
  intros H. apply list_fmap_ext. intros i x Hx. apply H. apply list_elem_of_lookup. eauto.
Qed.

Lemma fold_insert raw : forall acc,
  exts_ok acc -> exts_ok raw -> (forall b, blk_at raw b <> None -> blk_at acc b = None) ->
  exts_ok (foldl insertExtentSorted acc raw) /\
  forall b, blk_at (foldl insertExtentSorted acc raw) b
    = match blk_at raw b with Some x => Some x | None => blk_at acc b end.
Proof.
  induction raw as [|e raw IH]; intros acc Ha Hr Hdis; simpl; [done|].
  pose proof Hr as Hr'. apply exts_ok_cons in Hr as (He & Hraw & Hb).
  destruct (insertExtentSorted_spec acc e Ha He) as [Hok Hmap].
  { intros b Hc. apply Hdis. simpl. by rewrite decide_True. }
  assert (Hne : forall b, covers e b -> blk_at raw b = None).
  { intros b Hc. apply blk_at_None. intros e' Hin Hc'. specialize (Hb e' Hin).
    unfold before, covers in *. lia. }
  destruct (IH (insertExtentSorted acc e) Hok Hraw) as [Hok' Hmap'].
  { intros b Hs. rewrite Hmap. case_decide as Hc; [by rewrite Hne in Hs|].
    apply Hdis. simpl. by rewrite decide_False. }
  split; [done|]. intros b. rewrite Hmap', Hmap. case_decide as Hc; [by rewrite Hne|done].
Qed.

(** ** Theorems *)

(** The lookup as a function of the block. *)
Definition lookup_place (l : list Extent) (b : Z) : option (Z * Z) :=
  match lookupExtent l b with Some e => Some (place e b) | None => None end.

(** [lookupExtent]'s binary search finds the place of every block: it returns
    the extent covering the block if the list has one, and reports a hole
    exactly when no extent covers it. *)
Theorem lookupExtent_correct (l : list Extent) (Hok : exts_ok l) (b : Z) :
  lookup_place l b = blk_at l b.
Proof.
  pose proof (lookupExtent_spec l b Hok) as H. unfold lookup_place.
  destruct (lookupExtent l b) as [e|]; [|done].
  destruct H as [Hin Hc]. by rewrite (blk_at_elem l e b).
Qed.

Definition sample : list Extent := [mkExtent 0 100 4 0 0; mkExtent 10 200 5 1 0].

Lemma sample_ok : exts_ok sample.
Proof.
  unfold sample. repeat (apply exts_ok_cons; split_and!; [split; unfold eend; simpl; lia| |]).
  - apply exts_ok_nil.
  - set_solver.
  - intros b ->%list_elem_of_singleton. unfold before, eend. simpl. lia.
Qed.

Lemma lookupExtent_correct_witness :
  lookup_place sample 12 = Some (202, 1) /\ lookup_place sample 5 = None.
Proof.
  split; rewrite (lookupExtent_correct sample sample_ok); reflexivity.
Defined.

(** C37 [insertExtentSorted] adds one extent to the map.  Inserting an extent
    that overlaps nothing keeps the list sorted, disjoint and within bounds,
    whichever of the merges it performs, and changes the map at exactly the
    blocks of the new extent. *)
Theorem insertExtentSorted_correct (l : list Extent) (ext : Extent)
    (Hok : exts_ok l) (He : ext_ok ext) (Hfree : forall b, covers ext b -> blk_at l b = None) :
  exts_ok (insertExtentSorted l ext) /\
  forall b, blk_at (insertExtentSorted l ext) b
    = if decide (covers ext b) then Some (place ext b) else blk_at l b.
Proof. by apply insertExtentSorted_spec. Qed.

Lemma insertExtentSorted_correct_witness :
  insertExtentSorted sample (mkExtent 4 104 2 0 0) = [mkExtent 0 100 6 0 0; mkExtent 10 200 5 1 0] /\
  exts_ok (insertExtentSorted sample (mkExtent 4 104 2 0 0)).
Proof.
  split; [vm_compute; reflexivity|]. apply insertExtentSorted_correct.
  - apply sample_ok.
  - split; unfold eend; simpl; lia.
  - intros b Hc. apply blk_at_None. unfold covers, eend in *. simpl in *.
    intros e [->| ->%list_elem_of_singleton]%elem_of_cons; simpl; lia.
Defined.

(** [freeExtentRange] punches a hole.  The blocks in [startBlk, endBlk)
    become unmapped and every other block keeps its place; the runs returned
    for freeing are exactly the physical blocks that were mapped there, and the
    blocks kept and freed add up to the blocks there were. *)
Theorem freeExtentRange_correct (l : list Extent) (startBlk endBlk : Z)
    (Hok : exts_ok l) (Hr : 0 <= startBlk <= endBlk) (Hu : endBlk < 2 ^ 64) :
  let '(l', freed) := freeExtentRange l startBlk endBlk in
  exts_ok l' /\
  (forall b, blk_at l' b = if decide (startBlk <= b < endBlk) then None else blk_at l b) /\
  (forall p, p ∈ run_blocks freed <->
     exists b fl, startBlk <= b < endBlk /\ blk_at l b = Some (p, fl)) /\
  total_len l' + total_runs freed = total_len l.
Proof.
  rewrite freeExtentRange_concat.
  assert (Hone : forall e, e ∈ l -> _) by
    (intros e He; exact (free_one_spec e (exts_ok_elem _ _ Hok He) startBlk endBlk Hr Hu)).
  destruct (pieces_spec (fun e => fst (free_one e startBlk endBlk)) (fun x => x)
    (cut startBlk endBlk)) with (l := l) as [Hok' Hmap]; [done|done| |].
  { intros e He. destruct (Hone e He) as (? & ? & _). done. }
  split_and!; [done| | |].
  - intros b. rewrite Hmap. unfold cut. by case_decide.
  - intros p. rewrite (list_fmap_eq_in _ (fun e => freed_ref e startBlk endBlk)).
    + by apply freed_blocks.
    + intros e He. by destruct (Hone e He) as (_ & _ & ? & _).
  - apply total_conserved. intros e He. by destruct (Hone e He) as (_ & _ & _ & ?).
Qed.

Lemma freeExtentRange_correct_witness :
  freeExtentRange sample 2 12
  = ([mkExtent 0 100 2 0 0; mkExtent 12 202 3 1 0], [mkRun 102 2; mkRun 200 2]) /\
  blk_at (fst (freeExtentRange sample 2 12)) 11 = None.
Proof.
  split; [vm_compute; reflexivity|].
  pose proof (freeExtentRange_correct sample 2 12 sample_ok) as H.
  destruct (freeExtentRange sample 2 12) as [l' freed].
  destruct H as (_ & H & _); [lia|lia|]. simpl. rewrite H. reflexivity.
Defined.

(** [shiftExtents] for COLLAPSE_RANGE removes [S, S+L) and moves what follows
    down by [L] blocks, with every block keeping its physical place; the runs
    freed are exactly the blocks removed. *)
Theorem shiftExtents_collapse_correct (l : list Extent) (S L : Z)
    (Hok : exts_ok l) (HS : 0 <= S) (HL : 0 <= L) (HSL : S + L < 2 ^ 64) :
  let '(l', freed) := shiftExtents l S L (-1) in
  exts_ok l' /\
  (forall b, blk_at l' b = if decide (b < S) then blk_at l b else blk_at l (b + L)) /\
  (forall p, p ∈ run_blocks freed <->
     exists b fl, S <= b < S + L /\ blk_at l b = Some (p, fl)).
Proof.
  unfold shiftExtents, shift_one. change (-1 <? 0) with true. cbv iota.
  assert (Hone : forall e, e ∈ l -> _) by
    (intros e He; exact (collapse_one_spec e (exts_ok_elem _ _ Hok He) S L HS HL HSL)).
  destruct (pieces_spec (fun e => fst (collapse_one e S L)) (collapse_to S L)
    (collapse_from S L)) with (l := l) as [Hok' Hmap]; [|done| |].
  { intros x y Hxy. unfold collapse_to. repeat case_decide; lia. }
  { intros e He. destruct (Hone e He) as (? & ? & _). done. }
  destruct (fold_insert (concat ((fun e => fst (collapse_one e S L)) <$> l)) [])
    as [Hf Hfm]; [apply exts_ok_nil|done|done|].
  split_and!; [done| |].
  - intros b. rewrite Hfm, Hmap. unfold collapse_from. case_decide.
    + by destruct (blk_at l b).
    + by destruct (blk_at l (b + L)).
  - intros p. rewrite (list_fmap_eq_in _ (fun e => freed_ref e S (S + L))).
    + by apply freed_blocks.
    + intros e He. by destruct (Hone e He) as (_ & _ & ? & _).
Qed.

Lemma shiftExtents_collapse_correct_witness :
  shiftExtents sample 2 9 (-1)
  = ([mkExtent 0 100 2 0 0; mkExtent 2 201 4 1 0], [mkRun 102 2; mkRun 200 1]) /\
  exts_ok (fst (shiftExtents sample 2 9 (-1))).
Proof.
  split; [vm_compute; reflexivity|].
  pose proof (shiftExtents_collapse_correct sample 2 9 sample_ok) as H.
  destruct (shiftExtents sample 2 9 (-1)) as [l' freed]. apply H; lia.
Defined.

(** [shiftExtents] for INSERT_RANGE opens a hole [S, S+L) and moves what
    was there up by [L] blocks, with every block keeping its physical place;
    nothing is freed. *)
Theorem shiftExtents_insert_correct (l : list Extent) (S L : Z)
    (Hok : exts_ok l) (HS : 0 <= S) (HL : 0 <= L)
    (HSL : forall e, e ∈ l -> eend e + L < 2 ^ 64) :
  let '(l', freed) := shiftExtents l S L 1 in
  exts_ok l' /\ freed = [] /\
  (forall b, blk_at l' b = if decide (b < S) then blk_at l b
                           else if decide (b < S + L) then None else blk_at l (b - L)).
Proof.
  unfold shiftExtents, shift_one. change (1 <? 0) with false. cbv iota. cbn [fst snd].
  assert (Hone : forall e, e ∈ l -> _) by
    (intros e He; exact (insert_one_spec e (exts_ok_elem _ _ Hok He) S L HS HL (HSL e He))).
  destruct (pieces_spec (fun e => insert_one e S L) (insert_to S L) (insert_from S L))
    with (l := l) as [Hok' Hmap]; [|done| |].
  { intros x y Hxy. unfold insert_to. repeat case_decide; lia. }
  { intros e He. destruct (Hone e He) as (? & ? & _). done. }
  destruct (fold_insert (concat ((fun e => insert_one e S L) <$> l)) [])
    as [Hf Hfm]; [apply exts_ok_nil|done|done|].
  split_and!; [done| |].
  - clear. by induction l.
  - intros b. rewrite Hfm, Hmap. unfold insert_from. repeat case_decide; try done.
    + by destruct (blk_at l b).
    + by destruct (blk_at l (b - L)).
Qed.

Lemma shiftExtents_insert_correct_witness :
  shiftExtents sample 2 3 1
  = ([mkExtent 0 100 2 0 0; mkExtent 5 102 2 0 0; mkExtent 13 200 5 1 0], []) /\
  exts_ok (fst (shiftExtents sample 2 3 1)).
Proof.
  split; [vm_compute; reflexivity|].
  pose proof (shiftExtents_insert_correct sample 2 3 sample_ok) as H.
  destruct (shiftExtents sample 2 3 1) as [l' freed]. apply H; [lia|lia|].
  intros e [->| ->%list_elem_of_singleton]%elem_of_cons; unfold eend; simpl; lia.
Defined.

(** ** Converting an unwritten block *)

Lemma same_offset l a b :
  exts_ok l -> a ∈ l -> b ∈ l -> ext_Offset a = ext_Offset b -> a = b.
Proof.
  intros Hok Ha Hb E. pose proof (exts_ok_elem _ _ Hok Ha) as [? ? ? ? ?].
  pose proof (exts_ok_elem _ _ Hok Hb) as [? ? ? ? ?].
  apply list_elem_of_split in Ha as (l1 & l2 & ->).
  apply exts_ok_app in Hok as (_ & (_ & _ & H2)%exts_ok_cons & H12).
  apply elem_of_app in Hb as [Hb|[->|Hb]%elem_of_cons]; [|done|].
  - specialize (H12 b a Hb (list_elem_of_here _ _)). unfold before, eend in *. lia.
  - specialize (H2 b Hb). unfold before, eend in *. lia.
Qed.

Lemma remove_extent l1 e l2 :
  exts_ok (l1 ++ e :: l2) ->
  exts_ok (l1 ++ l2) /\
  forall b, blk_at (l1 ++ l2) b = if decide (covers e b) then None else blk_at (l1 ++ e :: l2) b.
Proof.
  intros Hok. pose proof Hok as (H1 & (He & H2 & Hb)%exts_ok_cons & H12)%exts_ok_app. split.
  - apply exts_ok_app. split_and!; [done..|]. intros a b Ha Hb'. apply H12; [done|].
    by apply list_elem_of_further.
  - intros b. rewrite !blk_at_app. simpl. case_decide as Hc; [|done].
    rewrite (proj2 (blk_at_None l1 b)), (proj2 (blk_at_None l2 b)); [done|..].
    + intros a Ha Hca. specialize (Hb a Ha). unfold before, covers in *. lia.
    + intros a Ha Hca. specialize (H12 a e Ha (list_elem_of_here _ _)).
      unfold before, covers in *. lia.
Qed.

(** [l'] is [l] with the extent [p] added, if [c] holds. *)
Lemma insert_if (c : bool) l p :
  exts_ok l -> (c = true -> ext_ok p) -> (c = true -> forall b, covers p b -> blk_at l b = None) ->
  let l' := if c then insertExtentSorted l p else l in
  exts_ok l' /\ forall b, blk_at l' b
    = if c then if decide (covers p b) then Some (place p b) else blk_at l b else blk_at l b.
Proof.
  intros Hok Hp Hf. destruct c; [|done]. by apply insertExtentSorted_spec; auto.
Qed.

Lemma split_at_spec l e ib :
  exts_ok l -> ext_ok e -> covers e ib -> ext_Flags e = ExtentFlagUnwritten ->
  (forall b, covers e b -> blk_at l b = None) ->
  exts_ok (split_at l e ib) /\
  forall b, blk_at (split_at l e ib) b
    = if decide (b = ib) then Some (ext_Phys e + (ib - ext_Offset e), 0)
      else if decide (covers e b) then Some (place e b) else blk_at l b.
Proof.
  intros Hok He Hib Hfl Hfree. pose proof He as [H1 H2 H3 H4 H5].
  unfold split_at. rewrite (u64_eend e He). unfold covers in Hib. small.
  set (p1 := mkExtent (ext_Offset e) _ _ _ _). set (p2 := mkExtent ib _ _ _ _).
  set (p3 := mkExtent (ib + 1) _ _ _ _).
  destruct (insert_if (ext_Offset e <? ib) l p1) as [K1 M1]; [done|..].
  { intros E%Z.ltb_lt. split; unfold eend in *; simpl; lia. }
  { intros _ b Hc. apply Hfree. unfold covers, eend in *. simpl in Hc. lia. }
  set (la := if _ <? _ then _ else l) in *.
  destruct (insertExtentSorted_spec la p2) as [K2 M2]; [done|..].
  { split; unfold eend in *; simpl; lia. }
  { intros b Hc. rewrite M1, Hfree by (unfold covers, eend in *; simpl in Hc; lia).
    destruct (_ <? _); [|done]. apply decide_False. unfold covers, eend in *. simpl in *. lia. }
  destruct (insert_if (ib + 1 <? eend e) (insertExtentSorted la p2) p3) as [K3 M3]; [done|..].
  { intros E%Z.ltb_lt. split; unfold eend in *; simpl; lia. }
  { intros _ b Hc. assert (Hce : covers e b) by (unfold covers, eend in *; simpl in Hc; lia).
    rewrite M2, M1, (Hfree b Hce). unfold covers, eend in *. simpl in *.
    rewrite !decide_False by lia. by destruct (_ <? _). }
  split; [done|]. intros b. rewrite M3, M2, M1.
  destruct (Z.ltb_spec (ext_Offset e) ib), (Z.ltb_spec (ib + 1) (eend e));
    unfold covers, place, p1, p2, p3, eend in *; cbn [ext_Offset ext_Phys ext_Len ext_Flags];
    rewrite Hfl; repeat case_decide; try lia; try done; f_equal; f_equal; lia.
Qed.

(** [splitUnwrittenAt] converts one block.  When the lookup of block [iblock]
    found an unwritten extent, the list after the split is again sorted and
    disjoint, block [iblock] is written at the physical block it already had,
    and no other block changes its place or its flags. *)
Theorem splitUnwrittenAt_correct (l : list Extent) (ext : Extent) (iblock : Z)
    (Hok : exts_ok l) (Hl : lookupExtent l iblock = Some ext)
    (Hfl : ext_Flags ext = ExtentFlagUnwritten) :
  exts_ok (splitUnwrittenAt l ext iblock) /\
  forall b, blk_at (splitUnwrittenAt l ext iblock) b
    = if decide (b = iblock) then Some (fst (place ext iblock), 0) else blk_at l b.
Proof.
  pose proof (lookupExtent_spec l iblock Hok) as H. rewrite Hl in H. destruct H as [Hin Hc].
  unfold splitUnwrittenAt.
  destruct (list_find _ l) as [[i e]|] eqn:Ef.
  2:{ apply list_find_None in Ef. rewrite Forall_forall in Ef. exfalso. by apply (Ef ext Hin). }
  apply list_find_Some in Ef as (Hi & [Eo _] & _).
  assert (e = ext) as -> by
    (apply (same_offset l); [done| |done|done]; apply list_elem_of_lookup; eauto).
  pose proof (take_drop_middle l i ext Hi) as Hs. replace (i + 1)%nat with (S i) by lia.
  rewrite <- Hs in Hok. destruct (remove_extent _ _ _ Hok) as [Hr Hmr].
  destruct (split_at_spec (take i l ++ drop (S i) l) ext iblock) as [K M]; try done.
  { rewrite Hs in Hok. exact (exts_ok_elem _ _ Hok Hin). }
  { intros b Hb. by rewrite Hmr, decide_True. }
  split; [done|]. intros b. rewrite M, Hmr, Hs. case_decide; [done|].
  case_decide as Hcb; [|done]. rewrite Hs in Hok. by rewrite (blk_at_elem l ext b).
Qed.

Lemma splitUnwrittenAt_correct_witness :
  splitUnwrittenAt sample (mkExtent 10 200 5 1 0) 12
  = [mkExtent 0 100 4 0 0; mkExtent 10 200 2 1 0; mkExtent 12 202 1 0 0; mkExtent 13 203 2 1 0] /\
  exts_ok (splitUnwrittenAt sample (mkExtent 10 200 5 1 0) 12).
Proof.
  split; [vm_compute; reflexivity|].
  apply splitUnwrittenAt_correct; [apply sample_ok|reflexivity..].
Defined.

(** ** Run lists *)

(** Every run is nonempty and within 64 bits. *)
Definition runs_ok (runs : list blockRun) : Prop :=
  Forall (fun r => 0 <= run_first r /\ 0 < run_n r /\ run_first r + run_n r < 2 ^ 64) runs.

Lemma run_blocks_app r1 r2 : run_blocks (r1 ++ r2) = run_blocks r1 ++ run_blocks r2.
Proof. unfold run_blocks. by rewrite fmap_app, concat_app. Qed.

Lemma addRun_spec runs first n :
  runs_ok runs -> 0 <= first -> 0 <= n -> first + n < 2 ^ 64 ->
  runs_ok (addRun runs first n) /\ run_blocks (addRun runs first n) = run_blocks runs ++ seqZ first n.
Proof.
  intros Hok Hf Hn Hu. unfold addRun. destruct (n =? 0) eqn:E0.
  { apply Z.eqb_eq in E0 as ->. by rewrite app_nil_r. }
  apply Z.eqb_neq in E0.
  assert (Happ : runs_ok (runs ++ [mkRun first n]) /\
    run_blocks (runs ++ [mkRun first n]) = run_blocks runs ++ seqZ first n).
  { split; [apply Forall_app; split; [done|]; by repeat constructor; simpl; lia|].
    rewrite run_blocks_app. unfold run_blocks at 2. simpl. by rewrite app_nil_r. }
  destruct runs as [|l runs _] using rev_ind; [done|]. rewrite last_snoc.
  apply Forall_app in Hok as [Hr [Hl _]%Forall_cons_1].
  rewrite u64_small by (unfold is_u64; lia).
  destruct (Z.eqb_spec (run_first l + run_n l) first) as [<-|]; [|done].
  rewrite u64_small by (unfold is_u64; lia). rewrite length_app. simpl.
  rewrite Nat.add_sub, insert_app_r_alt, Nat.sub_diag by lia. simpl. split.
  - apply Forall_app. split; [done|]. by repeat constructor; simpl; lia.
  - rewrite !run_blocks_app. unfold run_blocks at 2 4. simpl. rewrite !app_nil_r, <- app_assoc.
    f_equal. apply seqZ_app; lia.
Qed.

Lemma addBlock_addRun runs x : addBlock runs x = addRun runs x 1.
Proof. reflexivity. Qed.

Definition add_all (runs : list blockRun) (rs : list blockRun) : list blockRun :=
  foldl (fun acc r => addRun acc (run_first r) (run_n r)) runs rs.

Lemma add_all_spec rs : forall runs,
  runs_ok runs -> runs_ok rs ->
  runs_ok (add_all runs rs) /\ run_blocks (add_all runs rs) = run_blocks runs ++ run_blocks rs.
Proof.
  induction rs as [|r rs IH]; intros runs Hok Hrs; cbn [add_all foldl].
  { unfold run_blocks at 3. simpl. by rewrite app_nil_r. }
  apply Forall_cons_1 in Hrs as [(? & ? & ?) Hrs].
  destruct (addRun_spec runs (run_first r) (run_n r)) as [K M]; [done|lia..|].
  destruct (IH _ K Hrs) as [K' M']. fold (add_all (addRun runs (run_first r) (run_n r)) rs).
  split; [done|]. rewrite M', M, <- app_assoc. done.
Qed.

Lemma count_length runs : forall n,
  runs_ok runs -> 0 <= n -> n + Z.of_nat (length (run_blocks runs)) < 2 ^ 64 ->
  foldl (fun n r => u64 (n + run_n r)) n runs = n + Z.of_nat (length (run_blocks runs)).
Proof.
  induction runs as [|r runs IH]; intros n Hok Hn Hlt; simpl; [lia|].
  apply Forall_cons_1 in Hok as [(? & ? & ?) Hok].
  change (r :: runs) with ([r] ++ runs) in Hlt |- *. rewrite run_blocks_app in *.
  assert (E1 : length (run_blocks [r]) = Z.to_nat (run_n r)).
  { unfold run_blocks. simpl. by rewrite app_nil_r, length_seqZ. }
  rewrite length_app, E1 in *. rewrite u64_small by (unfold is_u64; lia). rewrite IH; [lia|done|lia|lia].
Qed.

(** The run-encoded lists lose nothing.  Accumulating any sequence of runs
    with [addRun] ([addBlock] is the case of one block) gives runs that
    enumerate exactly the blocks added, in the order they were added, and
    [count] is their number. *)
Theorem runAccum_correct (rs : list blockRun) (Hrs : runs_ok rs)
    (Hsmall : Z.of_nat (length (run_blocks rs)) < 2 ^ 64) :
  run_blocks (add_all [] rs) = run_blocks rs /\
  count (add_all [] rs) = Z.of_nat (length (run_blocks rs)) /\
  forall runs x, addBlock runs x = addRun runs x 1.
Proof.
  destruct (add_all_spec rs []) as [K M]; [constructor|done|].
  split_and!; [done| |apply addBlock_addRun]. unfold count.
  rewrite count_length; rewrite ?M; [done|done|lia|done].
Qed.

Lemma runAccum_correct_witness :
  add_all [] [mkRun 5 2; mkRun 7 1; mkRun 9 3] = [mkRun 5 3; mkRun 9 3] /\
  count (add_all [] [mkRun 5 2; mkRun 7 1; mkRun 9 3]) = 6.
Proof.
  split; [vm_compute; reflexivity|].
  destruct (runAccum_correct [mkRun 5 2; mkRun 7 1; mkRun 9 3]) as (_ & -> & _).
  - repeat constructor; simpl; lia.
  - done.
  - reflexivity.
Defined.
