(* ===== verification/Shield.v ===== *)
(** * The metadata shield (fuse/meta_shield.go and the shield of fuse/fs.go)

    For every inode with unwritten blocks a number of B+ tree node blocks is
    kept out of reach of data allocations.  The reserve is one counter in the
    allocator, adjusted by differences; here it is shown to be always the sum
    of the reserves of the inodes. *)

From stdpp Require Import base numbers list option gmap.
From Stdlib Require Import ZArith Lia.
From S2P Require Import Prelude Codec Extents.

Local Open Scope Z_scope.

Definition BtreeLeafFanout : Z := 126.
Definition BtreeIdxFanout : Z := 253.

Definition metaReserveSize (n : Z) : Z :=
  if n =? 0 then 0 else
  let leaves := u64 (n + BtreeLeafFanout - 1) / BtreeLeafFanout in
  let internals := u64 (leaves + BtreeIdxFanout - 1) / BtreeIdxFanout in
  u64 (leaves + internals + 1).

Definition countUnwrittenBlocks (exts : list Extent) : Z :=
  foldl (fun n e => if Z.land (ext_Flags e) ExtentFlagUnwritten =? 0 then n
                    else u64 (n + ext_Len e)) 0 exts.

(** The per-inode counts and the allocator's counter. *)
Record shield := mkShield {
  unwrittenRes : gmap Z Z;
  metaShield : Z;
}.

(** Two's complement: the int64 with the bits of [x]. *)
Definition wrap64 (x : Z) : Z := (x + 2 ^ 63) mod 2 ^ 64 - 2 ^ 63.

(** [AdjustShield(delta int64)] of the allocator *)
Definition AdjustShield (s : Z) (delta : Z) : Z :=
  if 0 <=? delta then u64 (s + u64 delta) else u64 (s - u64 (wrap64 (- delta))).

Definition setUnwrittenRes (st : shield) (ino n : Z) : shield :=
  let old := default 0 (unwrittenRes st !! ino) in
  if n =? old then st else
  let m := if n =? 0 then delete ino (unwrittenRes st) else <[ino := n]> (unwrittenRes st) in
  mkShield m (AdjustShield (metaShield st)
    (wrap64 (wrap64 (metaReserveSize n) - wrap64 (metaReserveSize old)))).

Definition updateUnwrittenRes (st : shield) (ino : Z) (exts : list Extent) : shield :=
  setUnwrittenRes st ino (countUnwrittenBlocks exts).

(** [FreeCountDataPlus] and the data-allocation budget of [tryAllocBlocks] *)
Definition FreeCountDataPlus (freeCount metaShield extra : Z) : Z :=
  let avail := u64 (freeCount + extra) in
  if avail <=? metaShield then 0 else u64 (avail - metaShield).

(** ** The reserves of all inodes *)

Definition reserve_sum (m : gmap Z Z) : Z :=
  map_fold (fun _ n acc => metaReserveSize n + acc) 0 m.

(** The counter is the sum; an inode without unwritten blocks has no entry. *)
Definition shield_ok (st : shield) : Prop :=
  metaShield st = u64 (reserve_sum (unwrittenRes st)) /\
  forall ino, unwrittenRes st !! ino <> Some 0.

Lemma reserve_sum_insert m ino n :
  m !! ino = None -> reserve_sum (<[ino := n]> m) = metaReserveSize n + reserve_sum m.
Proof.
  intros H. unfold reserve_sum. rewrite map_fold_insert_L; [done| |done].
  intros; lia.
Qed.

Lemma reserve_sum_delete m ino :
  reserve_sum m = metaReserveSize (default 0 (m !! ino)) + reserve_sum (delete ino m).
Proof.
  destruct (m !! ino) as [n|] eqn:E; simpl.
  - rewrite <- (insert_delete_id m ino n E) at 1. apply reserve_sum_insert, lookup_delete_eq.
  - by rewrite delete_id.
Qed.

Lemma wrap64_eq x : exists k, wrap64 x = x + k * 2 ^ 64.
Proof.
  unfold wrap64. exists (- ((x + 2 ^ 63) / 2 ^ 64)).
  pose proof (Z.div_mod (x + 2 ^ 63) (2 ^ 64)). lia.
Qed.

Lemma u64_shift x k : u64 (x + k * 2 ^ 64) = u64 x.
Proof. unfold u64. apply Z.mod_add. lia. Qed.

Lemma u64_eq x : exists k, u64 x = x + k * 2 ^ 64.
Proof.
  unfold u64. exists (- (x / 2 ^ 64)). pose proof (Z.div_mod x (2 ^ 64)). lia.
Qed.

(** The adjustment is addition modulo 2^64, whatever the int64 detour. *)
Lemma AdjustShield_add s d : AdjustShield s d = u64 (s + d).
Proof.
  unfold AdjustShield. destruct (0 <=? d).
  - destruct (u64_eq d) as [k ->]. rewrite Z.add_assoc. apply u64_shift.
  - destruct (wrap64_eq (- d)) as [k ->]. destruct (u64_eq (- d + k * 2 ^ 64)) as [k' ->].
    replace (s - _) with (s + d + (- k - k') * 2 ^ 64) by lia. apply u64_shift.
Qed.

Lemma setUnwrittenRes_ok st ino n : shield_ok st -> shield_ok (setUnwrittenRes st ino n).
Proof.
  intros [Hs Hz]. unfold setUnwrittenRes. destruct (Z.eqb_spec n (default 0 (unwrittenRes st !! ino)))
    as [|Hne]; [done|].
  assert (Hsum : forall m, reserve_sum m = metaReserveSize n + reserve_sum (delete ino (unwrittenRes st)) ->
    AdjustShield (metaShield st) (wrap64 (wrap64 (metaReserveSize n)
      - wrap64 (metaReserveSize (default 0 (unwrittenRes st !! ino))))) = u64 (reserve_sum m)).
  { intros m ->. rewrite AdjustShield_add, Hs, (reserve_sum_delete (unwrittenRes st) ino).
    set (a := metaReserveSize n). set (b := metaReserveSize _). set (r := reserve_sum _).
    destruct (wrap64_eq a) as [k1 ->], (wrap64_eq b) as [k2 ->].
    destruct (wrap64_eq (a + k1 * 2 ^ 64 - (b + k2 * 2 ^ 64))) as [k3 ->].
    destruct (u64_eq (b + r)) as [k4 ->].
    rewrite <- (u64_shift (a + r) (k1 - k2 + k3 + k4)). f_equal. lia. }
  destruct (Z.eqb_spec n 0) as [->|Hn0]; split; simpl.
  - by apply Hsum.
  - intros i. destruct (decide (i = ino)) as [->|]; [by rewrite lookup_delete_eq|].
    by rewrite lookup_delete_ne.
  - apply Hsum. rewrite <- insert_delete_eq. apply reserve_sum_insert, lookup_delete_eq.
  - intros i. destruct (decide (i = ino)) as [->|]; [rewrite lookup_insert_eq; congruence|].
    by rewrite lookup_insert_ne.
Qed.

(** The shield is exactly the sum of the reserves.  After any sequence of
    updates [setUnwrittenRes(ino, n)] from the empty state at mount, with counts
    raised, lowered and dropped in any order, the allocator's counter equals
    the sum over all inodes of [metaReserveSize] of their current counts
    (modulo 2^64, and so on the nose for any sum a volume can have), and the
    count last set for an inode is the one recorded, zero counts not at all. *)
Theorem shield_is_sum (ups : list (Z * Z)) :
  let st := foldl (fun st '(ino, n) => setUnwrittenRes st ino n) (mkShield ∅ 0) ups in
  shield_ok st /\
  (forall ino n, default 0 (unwrittenRes (setUnwrittenRes st ino n) !! ino) = n).
Proof.
  intros st. split.
  - subst st. assert (H0 : shield_ok (mkShield ∅ 0)).
    { split; [done|]. intros ino. simpl. by rewrite lookup_empty. }
    revert H0. generalize (mkShield ∅ 0). induction ups as [|[ino n] ups IH]; intros st Hst; [done|].
    simpl. apply IH. by apply setUnwrittenRes_ok.
  - intros ino n. unfold setUnwrittenRes. destruct (Z.eqb_spec n (default 0 (unwrittenRes st !! ino)));
      [done|]. simpl. destruct (Z.eqb_spec n 0) as [->|];
      [by rewrite lookup_delete_eq | by rewrite lookup_insert_eq].
Qed.
