(* ===== verification/Device.v ===== *)
(** * The block device (fuse/device.go)

    A device of 4096-byte blocks.  The operating system is a parameter: for each
    block it says whether a write of it fails, and what the block holds then. *)

From stdpp Require Import base numbers list option gmap.
From Stdlib Require Import ZArith Lia.
From S2P Require Import Prelude.

Local Open Scope Z_scope.

Definition BlockSize : Z := 4096.

Inductive dev_error :=
| ErrDataSize (blockNum len : Z)
| ErrWrite (blockNum : Z)
| ErrRead (blockNum : Z)
| ErrSlotRange (blockNum offsetInBlock len : Z).

(** [os n = Some junk]: writing block [n] fails and leaves [junk] there. *)
Definition WriteBlock (os : Z -> option (list Z)) (d : gmap Z (list Z)) (blockNum : Z) (data : list Z)
    : gmap Z (list Z) * option dev_error :=
  if negb (Z.of_nat (length data) =? BlockSize)
  then (d, Some (ErrDataSize blockNum (Z.of_nat (length data))))
  else match os blockNum with
       | Some junk => (<[blockNum := junk]> d, Some (ErrWrite blockNum))
       | None => (<[blockNum := data]> d, None)
       end.

(** [dirtyView] serves the blocks held in memory, ahead of the device. *)
Definition ReadBlock (dirtyView : option (Z -> option (list Z))) (d : gmap Z (list Z)) (blockNum : Z)
    : res dev_error (list Z) :=
  match dirtyView with
  | Some view =>
      match view blockNum with
      | Some buf => Ret buf
      | None => match d !! blockNum with Some buf => Ret buf | None => Err (ErrRead blockNum) end
      end
  | None => match d !! blockNum with Some buf => Ret buf | None => Err (ErrRead blockNum) end
  end.

(** A sequence of writes that stops at the first error; each write carries the
    label its caller wraps the error with. *)
Fixpoint write_all {L} (os : Z -> option (list Z)) (d : gmap Z (list Z)) (l : list (L * Z * list Z))
    : gmap Z (list Z) * option (L * dev_error) :=
  match l with
  | [] => (d, None)
  | (lab, n, buf) :: l =>
      match WriteBlock os d n buf with
      | (d', None) => write_all os d' l
      | (d', Some e) => (d', Some (lab, e))
      end
  end.

Lemma WriteBlock_other os d n buf m : m <> n -> fst (WriteBlock os d n buf) !! m = d !! m.
Proof.
  intros Hm. unfold WriteBlock. repeat case_match; simpl; by rewrite ?lookup_insert_ne.
Qed.

Lemma write_all_other {L} os (l : list (L * Z * list Z)) : forall d m,
  Forall (fun w => w.1.2 <> m) l -> fst (write_all os d l) !! m = d !! m.
Proof.
  induction l as [|[[lab n] buf] l IH]; intros d m Hl; [done|]. simpl.
  apply Forall_cons_1 in Hl as [Hn Hl]. simpl in Hn.
  pose proof (WriteBlock_other os d n buf m ltac:(done)) as Hw.
  destruct (WriteBlock os d n buf) as [d' [e|]]; simpl in *; [done|]. by rewrite IH.
Qed.

(** When the writes succeed and agree with [image], what they touched holds it. *)
Lemma write_all_image {L} os (image : Z -> option (list Z)) (l : list (L * Z * list Z)) : forall d d',
  Forall (fun w => image w.1.2 = Some w.2) l -> write_all os d l = (d', None) ->
  forall lab n buf, (lab, n, buf) ∈ l -> d' !! n = Some buf.
Proof.
  induction l as [|[[lab n] buf] l IH]; intros d d' Hl Hw lab0 n0 buf0 Hin; [by apply elem_of_nil in Hin|].
  simpl in Hw. apply Forall_cons_1 in Hl as [Hn Hl]. simpl in Hn.
  destruct (WriteBlock os d n buf) as [d1 [e|]] eqn:E; [done|].
  assert (H1 : d1 !! n = Some buf).
  { unfold WriteBlock in E. repeat case_match; simplify_eq. apply lookup_insert_eq. }
  destruct (decide (Exists (fun w => w.1.2 = n0) l)) as [Hex|Hno].
  - apply Exists_exists in Hex as ([[lab1 n1] buf1] & Hin1 & Heq). simpl in Heq. subst n1.
    rewrite (IH d1 d' Hl Hw lab1 n0 buf1 Hin1). f_equal.
    assert (Hi1 : image n0 = Some buf1) by (rewrite Forall_forall in Hl; by apply (Hl (lab1, n0, buf1))).
    assert (Hi0 : image n0 = Some buf0).
    { apply elem_of_cons in Hin as [?|Hin]; [by simplify_eq|].
      rewrite Forall_forall in Hl. by apply (Hl (lab0, n0, buf0)). }
    congruence.
  - apply elem_of_cons in Hin as [?|Hin].
    + simplify_eq. assert (Hd := write_all_other os l d1 n). rewrite Hw in Hd. simpl in Hd.
      rewrite Hd; [done|]. by apply not_Exists_Forall in Hno; [|intros ?; apply _].
    + exfalso. apply Hno, Exists_exists. by exists (lab0, n0, buf0).
Qed.
