(* ===== verification/AllocRuntime.v ===== *)
(** * The runtime allocator (fuse/fs.go)

    The allocator of the mounted file system: the same pyramid as in
    [AllocCore], with the metadata shield, the dirty tracking for [Sync], the
    search that repairs stale summary bits, and the allocation of runs.  The
    mutex is not modelled: every method runs under it from beginning to end,
    so methods are atomic steps. *)

From stdpp Require Import base numbers list option gmap.
From Stdlib Require Import ZArith Lia.
From S2P Require Import Prelude Codec Bits AllocCore Allocator Extents Shield.

Local Open Scope Z_scope.

Record Allocator := mkAllocator {
  a_pyr : pyramid;
  a_shield : Z;
  a_dirty : bool;
  a_l2Dirty : gset Z;
}.

(** Words per 4096-byte block. *)
Definition wpb : Z := 512.

Definition markL2Word (w2 : Z) (d : gset Z) : gset Z := {[w2 / wpb]} ∪ d.

(** A changed pyramid, marked dirty at word [w2]. *)
Definition touch (a : Allocator) (P : pyramid) (w2 : Z) : Allocator :=
  mkAllocator P (a_shield a) true (markL2Word w2 (a_l2Dirty a)).

Definition with_pyr (a : Allocator) (P : pyramid) : Allocator :=
  mkAllocator P (a_shield a) (a_dirty a) (a_l2Dirty a).

(** [OpenAllocator]: the levels and counts read from the pool at [poolStart]. *)
Inductive open_error :=
| ErrPool (e : pool_error)
| ErrLevelSizes (l0 l1 l2 : Z).

Definition OpenAllocator (r : Z -> option (list Z)) (poolStart : Z) : res open_error Allocator :=
  match ReadAllocatorBitmap r poolStart 4096 with
  | Ret (l0, l1, l2, hdr) =>
      if (ah_L0Words hdr <? 1) || (ah_L1Words hdr <? 1) || (ah_L2Words hdr <? 1)
      then Err (ErrLevelSizes (ah_L0Words hdr) (ah_L1Words hdr) (ah_L2Words hdr))
      else Ret (mkAllocator (mkPyramid l0 l1 l2 (ah_BlockCount hdr) (ah_FreeCount hdr)) 0 false ∅)
  | Err e => Err (ErrPool e)
  | Panic => Panic
  end.

(** ** Single blocks *)

Definition dataAvail (a : Allocator) : Z :=
  if a_shield a <? FreeCount (a_pyr a) then u64 (FreeCount (a_pyr a) - a_shield a) else 0.

Definition avail (a : Allocator) (forMeta : bool) : Z :=
  if forMeta then FreeCount (a_pyr a) else dataAvail a.

Definition set_l0 (P : pyramid) (i x : Z) : pyramid :=
  mkPyramid (<[Z.to_nat i := x]> (L0 P)) (L1 P) (L2 P) (BlockCount P) (FreeCount P).
Definition set_l1 (P : pyramid) (i x : Z) : pyramid :=
  mkPyramid (L0 P) (<[Z.to_nat i := x]> (L1 P)) (L2 P) (BlockCount P) (FreeCount P).
Definition set_l2 (P : pyramid) (i x fc : Z) : pyramid :=
  mkPyramid (L0 P) (L1 P) (<[Z.to_nat i := x]> (L2 P)) (BlockCount P) fc.

(** Clear the summary bit [b1] of word [w1] and, when the word empties, the bit
    [b0] of word [w0]: the propagation written out in four places of fs.go. *)
Definition clear_up (P : pyramid) (w0 b0 w1 b1 : Z) : pyramid :=
  let y := Z.ldiff (word (L1 P) w1) (shl64 1 b1) in
  let P := set_l1 P w1 y in
  if y =? 0 then set_l0 P w0 (Z.ldiff (word (L0 P) w0) (shl64 1 b0)) else P.

(** One round of the search: [inl] is [continue], [inr] is [return]. *)
Definition try_w0 (a : Allocator) (w0 : Z) : Allocator + Allocator * Z :=
  let P := a_pyr a in
  let x0 := word (L0 P) w0 in
  if x0 =? 0 then inl a else
  let b0 := TrailingZeros64 x0 in
  let w1 := u64 (w0 * 64 + b0) in
  if Z.of_nat (length (L1 P)) <=? w1 then inr (a, 0) else
  let l1Word := word (L1 P) w1 in
  if l1Word =? 0 then inl (with_pyr a (set_l0 P w0 (Z.ldiff x0 (shl64 1 b0)))) else
  let b1 := TrailingZeros64 l1Word in
  let w2 := u64 (w1 * 64 + b1) in
  if Z.of_nat (length (L2 P)) <=? w2 then inr (a, 0) else
  let l2Word := word (L2 P) w2 in
  if l2Word =? 0 then inl (with_pyr a (clear_up P w0 b0 w1 b1)) else
  let b2 := TrailingZeros64 l2Word in
  let block := u64 (w2 * 64 + b2) in
  if BlockCount P <=? block then inr (a, 0) else
  let x := Z.ldiff l2Word (shl64 1 b2) in
  let P := set_l2 P w2 x (u64 (FreeCount P - 1)) in
  let P := if x =? 0 then clear_up P w0 b0 w1 b1 else P in
  inr (touch a P w2, block).

Fixpoint try_loop (a : Allocator) (w0 : Z) (k : nat) : Allocator * Z :=
  match k with
  | O => (a, 0)
  | S k' => match try_w0 a w0 with
            | inl a' => try_loop a' (w0 + 1) k'
            | inr r => r
            end
  end.

Definition tryAllocBlock (a : Allocator) (forMeta : bool) : Allocator * Z :=
  if (avail a forMeta =? 0) || (length (L0 (a_pyr a)) =? 0)%nat then (a, 0)
  else try_loop a 0 (length (L0 (a_pyr a))).

(** [allocBlock]: one retry after [reclaim], which commits the journal and
    applies the pending frees; [reclaim] returns [None] when there is no hook or
    it declined. *)
Definition allocBlock (reclaim : Allocator -> option Allocator) (a : Allocator) (forMeta : bool)
    : Allocator * Z :=
  let '(a1, rel) := tryAllocBlock a forMeta in
  if rel =? 0 then
    match reclaim a1 with
    | Some a2 => tryAllocBlock a2 forMeta
    | None => (a1, rel)
    end
  else (a1, rel).

Definition AllocBlock reclaim a := allocBlock reclaim a false.
Definition AllocBlockMeta reclaim a := allocBlock reclaim a true.

(** ** Freeing and reserving *)

Definition FreeBlock (a : Allocator) (relBlock : Z) : res alloc_error Allocator :=
  if (length (L0 (a_pyr a)) =? 0)%nat then Ret a else
  '(P, b) ← AllocMarkFree (a_pyr a) relBlock;
  Ret (if b : bool then touch a P (relBlock / 64) else with_pyr a P).

Definition ReserveBlock (a : Allocator) (relBlock : Z) : res alloc_error Allocator :=
  if (length (L0 (a_pyr a)) =? 0)%nat then Ret a else
  '(P, b) ← AllocMarkAllocated (a_pyr a) relBlock;
  Ret (if b : bool then touch a P (relBlock / 64) else with_pyr a P).

(** The dirty marks for the words of [first, first+n). *)
Definition mark_span (first n : Z) (d : gset Z) : gset Z :=
  foldl (fun d w => markL2Word w d) d
    (seqZ (first / 64) (u64 (first + n - 1) / 64 - first / 64 + 1)).

Definition FreeRun (a : Allocator) (first n : Z) : res alloc_error Allocator :=
  let P := a_pyr a in
  if (length (L0 P) =? 0)%nat || (n =? 0) || (BlockCount P <=? first) then Ret a else
  let n := if u64 (BlockCount P - first) <? n then u64 (BlockCount P - first) else n in
  '(Q, freed) ← AllocMarkFreeRun P first n;
  Ret (if 0 <? freed
       then mkAllocator Q (a_shield a) true (mark_span first n (a_l2Dirty a))
       else with_pyr a Q).

(** [FreeBlocksRange]: absolute blocks; a range below the data region wraps to
    a data-relative start beyond the volume. *)
Definition FreeBlocksRange (a : Allocator) (dataRegionStart phys length : Z) : res alloc_error Allocator :=
  FreeRun a (u64 (phys - dataRegionStart)) length.

Definition Allocated (a : Allocator) (rel : Z) : bool :=
  if (length (L0 (a_pyr a)) =? 0)%nat then false
  else AllocIsAllocated (L2 (a_pyr a)) (BlockCount (a_pyr a)) rel.

(** ** The propagation written out *)

Definition put_l2 (P : pyramid) (w2 x fc : Z) : pyramid :=
  let Q := set_l2 P w2 x fc in
  if x =? 0 then clear_up Q (w2 / 64 / 64) ((w2 / 64) mod 64) (w2 / 64) (w2 mod 64) else Q.

Lemma put_l2_set_word P w2 x fc :
  shape P -> 0 <= w2 < Z.of_nat (length (L2 P)) -> word (L2 P) w2 <> 0 ->
  put_l2 P w2 x fc = set_word P w2 x fc.
Proof.
  intros HS Hw Hn. pose proof (w_bounds P HS _ Hw) as (A & B & C & D).
  pose proof (div_mod_64 w2) as [_ E1]. pose proof (div_mod_64 (w2 / 64)) as [_ E0].
  assert (B1 : bit (L1 P) w2 = true).
  { rewrite (wf_s1 P HS) by lia. by apply negb_true_iff, Z.eqb_neq. }
  assert (B0 : bit (L0 P) (w2 / 64) = true).
  { rewrite (wf_s0 P HS) by lia. apply negb_true_iff, Z.eqb_neq, word_nonzero.
    - apply words_word, HS.
    - by exists (w2 mod 64). }
  unfold put_l2, clear_up. cbn [L0 L1 L2 set_l2 BlockCount FreeCount].
  destruct (x =? 0) eqn:Ex.
  - rewrite !ldiff_shl64 by lia. destruct (upd_word _ _ _ =? 0) eqn:Ey.
    + rewrite set_word_all by done. rewrite Ex. cbn [negb]. by rewrite Ey.
    + rewrite set_word_keep0; [by rewrite Ex | done | done |]. rewrite Ex. cbn [negb]. by rewrite Ey.
  - by rewrite set_word_keep1 by (by rewrite ?Ex).
Qed.

Section try.
Context (a : Allocator) (HP : wf (a_pyr a)).
Let P := a_pyr a.

Lemma try_w0_least w0 :
  0 <= w0 -> (forall w, 0 <= w < w0 -> word (L0 P) w = 0) -> word (L0 P) w0 <> 0 ->
  exists b Q, try_w0 a w0 = inr (touch a Q (b / 64), b) /\ least (free_set P) b /\
    AllocMarkAllocated P b = Ret (Q, true).
Proof using HP.
  intros Hw0 Hz Hn. pose proof (wf_shape _ HP) as HS. pose proof (wf_bc P HS) as Hbc.
  pose proof (shape_bounds P HS) as Hsb.
  destruct (descend P HP w0 Hw0 Hz Hn) as ((A0 & A1) & (B0 & B1) & C0 & C1).
  set (b0 := TrailingZeros64 (word (L0 P) w0)) in *. set (w1 := w0 * 64 + b0) in *.
  set (b1 := TrailingZeros64 (word (L1 P) w1)) in *. set (w2 := w1 * 64 + b1) in *.
  set (b2 := TrailingZeros64 (word (L2 P) w2)) in *. set (b := w2 * 64 + b2) in *.
  assert (T0 : 0 <= b0 < 64) by (apply TrailingZeros64_spec; [apply words_word, HS|done]).
  assert (T1 : 0 <= b1 < 64) by (apply TrailingZeros64_spec; [apply words_word, HS|done]).
  assert (T2 : 0 <= b2 < 64) by (apply TrailingZeros64_spec; [apply words_word, HS|done]).
  destruct (div64_add w0 b0 T0) as [V0 V0']. destruct (div64_add w1 b1 T1) as [V1 V1'].
  destruct (div64_add w2 b2 T2) as [V2 V2']. fold w1 in V0, V0'. fold w2 in V1, V1'. fold b in V2, V2'.
  exists b. eexists. split; [|split; [exact C1|]].
  - unfold try_w0. fold P. rewrite (proj2 (Z.eqb_neq _ _) Hn). fold b0 w1.
    rewrite (u64_small w1) by (unfold is_u64; lia).
    rewrite (proj2 (Z.leb_gt _ _)), (proj2 (Z.eqb_neq _ _) A1) by lia. fold b1 w2.
    rewrite (u64_small w2) by (unfold is_u64; lia).
    rewrite (proj2 (Z.leb_gt _ _)), (proj2 (Z.eqb_neq _ _) B1) by lia. fold b2 b.
    rewrite (u64_small b) by (unfold is_u64; lia). rewrite (proj2 (Z.leb_gt _ _)) by lia.
    rewrite V2. pose proof (put_l2_set_word P w2 (Z.ldiff (word (L2 P) w2) (shl64 1 b2))
      (u64 (FreeCount P - 1)) HS B0 B1) as E.
    unfold put_l2 in E. rewrite V1, V1', V0, V0' in E. cbv zeta in E. rewrite E. reflexivity.
  - rewrite (AllocMarkAllocated_set_word P HP b C0).
    + by rewrite V2, V2'.
    + destruct C1 as [[_ Hb]%(elem_of_free_set P HS) _]. done.
Qed.

Lemma try_loop_least k : forall w0,
  0 <= w0 -> Z.of_nat (length (L0 P)) = w0 + Z.of_nat k ->
  (forall w, 0 <= w < w0 -> word (L0 P) w = 0) -> free_set P <> ∅ ->
  exists b Q, try_loop a w0 k = (touch a Q (b / 64), b) /\ least (free_set P) b /\
    AllocMarkAllocated P b = Ret (Q, true).
Proof using HP.
  induction k as [|k IH]; intros w0 Hw Hk Hz Hne; cbn [try_loop].
  - exfalso. destruct (search_least P HP 0 w0) as (b & Hb & _); done.
  - destruct (decide (word (L0 P) w0 = 0)) as [E|E].
    + assert (Hp : try_w0 a w0 = inl a) by (unfold try_w0; fold P; by rewrite E).
      rewrite Hp. apply IH; [lia|lia| |done]. intros w Hw'.
      destruct (decide (w = w0)) as [->|]; [done|]. apply Hz. lia.
    + destruct (try_w0_least w0) as (b & Q & -> & Hb & HQ); [done..|]. eauto.
Qed.

End try.

(** Block 0 is reserved on the data allocator; it must never be handed out. *)
Definition rt_ok (a : Allocator) : Prop := wf (a_pyr a) /\ (0 ∉ free_set (a_pyr a)) /\ is_u64 (a_shield a).

(** What the allocator leaves on a step that takes the blocks of [s]. *)
Definition took (a a' : Allocator) (s : gset Z) : Prop :=
  wf (a_pyr a') /\ BlockCount (a_pyr a') = BlockCount (a_pyr a) /\
  free_set (a_pyr a') = free_set (a_pyr a) ∖ s /\ a_shield a' = a_shield a.

Lemma L0_nonempty P : shape P -> (length (L0 P) =? 0)%nat = false.
Proof.
  intros HS. apply Nat.eqb_neq. pose proof (shape_bounds P HS). pose proof (wf_bc P HS). lia.
Qed.

Lemma free_nonempty P : wf P -> FreeCount P <> 0 -> free_set P <> ∅.
Proof. intros HP Hn E. rewrite (wf_count P HP), E, size_empty in Hn. done. Qed.

Lemma tryAllocBlock_spec a forMeta :
  rt_ok a ->
  (avail a forMeta = 0 /\ tryAllocBlock a forMeta = (a, 0)) \/
  (avail a forMeta <> 0 /\ exists a' b, tryAllocBlock a forMeta = (a', b) /\
     least (free_set (a_pyr a)) b /\ b <> 0 /\ took a a' {[b]} /\ a_dirty a' = true /\
     a_l2Dirty a' = markL2Word (b / 64) (a_l2Dirty a)).
Proof.
  intros (HP & H0 & Hsh). unfold tryAllocBlock. rewrite L0_nonempty by apply HP.
  rewrite orb_false_r. destruct (Z.eqb_spec (avail a forMeta) 0) as [E|E]; [by left|].
  right. split; [done|].
  assert (Hne : free_set (a_pyr a) <> ∅).
  { apply free_nonempty; [done|]. intros Hz. apply E. unfold avail, dataAvail. rewrite Hz.
    destruct forMeta; [done|]. by rewrite (proj2 (Z.ltb_ge _ _)) by apply Hsh. }
  destruct (try_loop_least a HP (length (L0 (a_pyr a))) 0) as (b & Q & -> & Hb & HQ); [lia..|done|].
  pose proof (free_set_range _ b (proj1 Hb)).
  destruct (AllocMarkAllocated_spec (a_pyr a) b HP) as (Q' & E' & HQ' & Hbc & Hf); [lia|].
  rewrite E' in HQ. simplify_eq. exists (touch a Q (b / 64)), b.
  split_and!; [done|done| | |done|done]; [|by split_and!]. intros ->. by destruct Hb.
Qed.

(** ** Properties *)

Lemma dataAvail_bounds a : rt_ok a ->
  0 <= dataAvail a <= FreeCount (a_pyr a) /\ FreeCount (a_pyr a) <= BlockCount (a_pyr a) < 2 ^ 64 /\
  dataAvail a = Z.max 0 (FreeCount (a_pyr a) - a_shield a).
Proof.
  intros (HP & _ & [Hs0 Hs1]). pose proof (wf_bc _ (wf_shape _ HP)).
  pose proof (size_free_set _ (wf_shape _ HP)) as Hs. rewrite <- (wf_count _ HP) in Hs.
  assert (0 <= FreeCount (a_pyr a)) by (rewrite (wf_count _ HP); lia).
  unfold dataAvail. destruct (Z.ltb_spec (a_shield a) (FreeCount (a_pyr a))); [|lia].
  rewrite u64_small by (unfold is_u64; lia). lia.
Qed.

Lemma took_rt_ok a a' s : rt_ok a -> took a a' s -> rt_ok a'.
Proof. intros (_ & H0 & Hs) (W & _ & F & S). split_and!; [done|set_solver|by rewrite S]. Qed.

Lemma took_count a a' b :
  wf (a_pyr a) -> took a a' {[b]} -> b ∈ free_set (a_pyr a) ->
  FreeCount (a_pyr a') = FreeCount (a_pyr a) - 1.
Proof.
  intros HP (W & _ & F & _) Hb. rewrite (wf_count _ HP), (wf_count _ W), F.
  assert ({[b]} ⊆ free_set (a_pyr a)) as Hsub by set_solver.
  pose proof (subseteq_size _ _ Hsub) as Hle. rewrite size_difference by done.
  rewrite size_singleton in *. lia.
Qed.

Lemma allocBlock_spec (reclaim : Allocator -> option Allocator) a forMeta a' b :
  rt_ok a -> (forall x y, rt_ok x -> reclaim x = Some y -> rt_ok y) ->
  allocBlock reclaim a forMeta = (a', b) ->
  rt_ok a' /\
  exists s, (s = a \/ avail a forMeta = 0 /\ reclaim a = Some s) /\
    ((b = 0 /\ a' = s /\ avail s forMeta = 0 /\ avail a forMeta = 0) \/
     (b <> 0 /\ least (free_set (a_pyr s)) b /\ took s a' {[b]} /\
      (forMeta = false -> a_shield s <= FreeCount (a_pyr a')))).
Proof.
  intros Ha Hrec He.
  assert (Hone : forall s, rt_ok s -> forall x c, tryAllocBlock s forMeta = (x, c) ->
    (c = 0 /\ x = s /\ avail s forMeta = 0) \/
    (c <> 0 /\ avail s forMeta <> 0 /\ least (free_set (a_pyr s)) c /\ took s x {[c]} /\
      (forMeta = false -> a_shield s <= FreeCount (a_pyr x)))).
  { intros s Hs x c Hx. destruct (tryAllocBlock_spec s forMeta Hs) as [[E1 E2]|(E1 & x' & c' & E2 & E3 & E4 & E5 & _ & _)].
    - left. rewrite E2 in Hx. by injection Hx as <- <-.
    - right. rewrite E2 in Hx. injection Hx as -> ->. split_and!; [done..|]. intros ->. cbn [avail] in E1.
      rewrite (took_count s x c) by (try apply Hs; try apply E3; done).
      pose proof (dataAvail_bounds s Hs). lia. }
  unfold allocBlock in He. destruct (tryAllocBlock a forMeta) as [a1 rel] eqn:Et.
  destruct (Hone a Ha _ _ Et) as [(-> & -> & E)|(Hn & E & E1 & E2 & E3)].
  - cbn [Z.eqb] in He. destruct (reclaim a) as [s|] eqn:Er.
    + pose proof (Hrec a s Ha Er) as Hs.
      destruct (Hone s Hs _ _ He) as [(-> & -> & E')|(Hn & E' & E1 & E2 & E3)].
      * split; [done|]. exists s. auto 10.
      * split; [by eapply took_rt_ok|]. exists s. auto 10.
    + simplify_eq. split; [done|]. exists a'. auto 10.
  - rewrite (proj2 (Z.eqb_neq _ _) Hn) in He. simplify_eq.
    split; [by eapply took_rt_ok|]. exists a. auto 10.
Qed.

(** [allocBlock] on an allocator whose block 0 is reserved.  A result 0
    means that the request's class had nothing left, both before and (if the
    reclaim hook ran) after the reclaim.  Any other result is the lowest free
    block, exactly that block is taken, the invariant is kept, and a data
    allocation never brings the free count below the metadata shield. *)
Theorem allocBlock_lowest (reclaim : Allocator -> option Allocator) a forMeta a' b :
  rt_ok a -> (forall x y, rt_ok x -> reclaim x = Some y -> rt_ok y) ->
  allocBlock reclaim a forMeta = (a', b) ->
  rt_ok a' /\
  exists s, (s = a \/ avail a forMeta = 0 /\ reclaim a = Some s) /\
    ((b = 0 /\ a' = s /\ avail s forMeta = 0 /\ avail a forMeta = 0) \/
     (b <> 0 /\ least (free_set (a_pyr s)) b /\ took s a' {[b]} /\
      (forMeta = false -> a_shield s <= FreeCount (a_pyr a')))).
Proof. apply allocBlock_spec. Qed.

(** A concrete allocator: 200 blocks, of which 0 and 3 are taken. *)
Definition sample_pyramid : pyramid :=
  mkPyramid [1] [15] [2 ^ 64 - 10; 2 ^ 64 - 1; 2 ^ 64 - 1; 255] 200 198.
Definition sample_alloc : Allocator := mkAllocator sample_pyramid 4 false ∅.

Lemma sample_alloc_ok : rt_ok sample_alloc.
Proof.
  destruct (NewAllocBuilder_wf 200) as (HN & Hb & Hf); [lia|].
  destruct (AllocMarkAllocated_spec _ 0 HN) as (P & EP & HP & HbP & HfP); [lia|].
  destruct (AllocMarkAllocated_spec P 3 HP) as (Q & EQ & HQ & HbQ & HfQ); [lia|].
  assert (E : (r ← AllocMarkAllocated (NewAllocBuilder 200) 0; AllocMarkAllocated (fst r) 3)
    = Ret (sample_pyramid, true)) by (vm_compute; reflexivity).
  rewrite EP in E. cbn [mbind res_bind fst] in E. rewrite EQ in E. injection E as E _.
  unfold rt_ok, sample_alloc. cbn [a_pyr a_shield]. rewrite <- E.
  split; [exact HQ|split; [|unfold is_u64; lia]].
  rewrite HfQ, HfP, !elem_of_difference, elem_of_singleton. clear. tauto.
Qed.

Lemma allocBlock_lowest_witness :
  rt_ok sample_alloc /\ snd (allocBlock (fun _ => None) sample_alloc false) = 1 /\
  a_shield sample_alloc <= FreeCount (a_pyr (fst (allocBlock (fun _ => None) sample_alloc false))).
Proof.
  assert (E1 : snd (allocBlock (fun _ => None) sample_alloc false) = 1) by (vm_compute; reflexivity).
  destruct (allocBlock (fun _ => None) sample_alloc false) as [a' b] eqn:E. cbn [snd fst] in *. subst b.
  destruct (allocBlock_lowest (fun _ => None) sample_alloc false a' 1 sample_alloc_ok ltac:(discriminate) E)
    as (_ & s & [->|[_ [=]]] & [([=] & _)|(Hn & Hl & _ & Hs)]).
  split; [exact sample_alloc_ok|split; [reflexivity|exact (Hs eq_refl)]].
Defined.

(** Freeing the block just allocated restores the bitmap, its summaries and
    the free count exactly. *)
Theorem FreeBlock_undoes_alloc a forMeta a' b :
  rt_ok a -> tryAllocBlock a forMeta = (a', b) -> b <> 0 ->
  exists a'', FreeBlock a' b = Ret a'' /\ a_pyr a'' = a_pyr a /\ a_shield a'' = a_shield a.
Proof.
  intros Ha He Hn. destruct (tryAllocBlock_spec a forMeta Ha)
    as [[_ E]|(_ & x & c & E & Hl & _ & (W & Hbc & F & S) & _)].
  { rewrite E in He. by injection He as _ <-. }
  rewrite E in He. injection He as -> ->.
  pose proof (free_set_range _ _ (proj1 Hl)) as Hb.
  destruct (AllocMarkFree_spec (a_pyr a') b W) as (Q & EQ & HQ & HbQ & HfQ); [lia|].
  rewrite decide_True in HfQ by lia.
  assert (Q = a_pyr a) as ->.
  { apply wf_ext; [apply Ha|done|congruence|]. rewrite HfQ, F. apply set_eq. intros i.
    rewrite elem_of_union, elem_of_difference, elem_of_singleton. destruct (decide (i = b)); [subst|tauto].
    split; [intros _; apply Hl|by right]. }
  unfold FreeBlock. rewrite L0_nonempty by apply W. rewrite EQ. cbn [mbind res_bind].
  eexists. split; [done|]. by destruct (bool_decide _).
Qed.

Lemma FreeBlock_undoes_alloc_witness :
  snd (tryAllocBlock sample_alloc true) = 1 /\
  exists a'', FreeBlock (fst (tryAllocBlock sample_alloc true)) 1 = Ret a'' /\ a_pyr a'' = sample_pyramid.
Proof.
  assert (E1 : snd (tryAllocBlock sample_alloc true) = 1) by (vm_compute; reflexivity).
  destruct (tryAllocBlock sample_alloc true) as [a' b] eqn:E. cbn [fst snd] in *. subst b.
  split; [reflexivity|].
  destruct (FreeBlock_undoes_alloc sample_alloc true a' 1 sample_alloc_ok E ltac:(discriminate)) as (a'' & H1 & H2 & _).
  exists a''. split; [exact H1|exact H2].
Defined.

(** the search gives up after repairing a stale summary bit.  In this state
    the L1 bit of the first leaf word is stale and block 64 is free; the search
    clears the stale bit, goes on with the next L0 word, of which there is none,
    and reports that there is no space.  The next call finds block 64. *)
Theorem tryAllocBlock_stale_gives_up :
  let a := mkAllocator (mkPyramid [1] [3] [0; 1] 128 1) 0 false ∅ in
  let '(a1, b1) := tryAllocBlock a false in
  let '(a2, b2) := tryAllocBlock a1 false in
  avail a false = 1 /\ Allocated a 64 = false /\ b1 = 0 /\ b2 = 64.
Proof. vm_compute. auto. Qed.
