(* ===== verification/AllocRuns.v ===== *)
(** * Runs of free blocks (fuse/fs.go)

    [scanMaximalRuns] walks the leaf bitmap a word at a time and reports the
    maximal runs of free blocks to a visitor; [AllocBlocks] takes the first run
    that is long enough, [AllocRunsUpTo] harvests runs until a request is met.
    The scan is shown to report exactly what a bit-by-bit scan would. *)

From stdpp Require Import base numbers list option sorting gmap.
From Stdlib Require Import ZArith Lia.
From S2P Require Import Prelude Codec Bits AllocCore Allocator Extents Shield AllocRuntime.

Local Open Scope Z_scope.

(** ** The scan *)
Section scan.
Context {St : Type} (visit : St -> Z -> Z -> St * bool) (minLen : Z).

(** The local variables of the scan, and the visitor's own state. *)
Record scan_state := mkScan { runStart : Z; runLen : Z; vst : St }.

Definition closeRun (s : scan_state) : scan_state * bool :=
  if runLen s =? 0 then (s, true) else
  let '(st', ok) := visit (vst s) (runStart s) (runLen s) in
  (mkScan (runStart s) 0 st', ok).

(** [Go] continues the scan; [Stop] is its [return]. *)
Inductive scan_out :=
| Go (s : scan_state)
| Stop (s : scan_state).

(** The inner loop over the runs within one word. *)
Fixpoint scan_word (fuel : nat) (base wbits : Z) (s : scan_state) : scan_out :=
  match fuel with
  | O => Go s
  | S fuel' =>
      if wbits =? 0 then Go s else
      let b := TrailingZeros64 wbits in
      let start := u64 (base + b) in
      let cnt := TrailingZeros64 (not64 (Z.shiftr wbits b)) in
      let r :=
        if (0 <? runLen s) && (start =? u64 (runStart s + runLen s))
        then Go (mkScan (runStart s) (u64 (runLen s + cnt)) (vst s))
        else match closeRun s with
             | (s', true) => Go (mkScan start cnt (vst s'))
             | (s', false) => Stop s'
             end in
      match r with
      | Stop s' => Stop s'
      | Go s' =>
          if (0 <? minLen) && (minLen <=? runLen s') then Stop (fst (closeRun s')) else
          let wbits' := if 64 <=? cnt then 0
                        else Z.ldiff wbits (shl64 (u64 (shl64 1 cnt - 1)) b) in
          scan_word fuel' base wbits' s'
      end
  end.

(** Word [w2] of the leaf, with the bits beyond [blockCount] masked off in the
    last word. *)
Definition masked_word (P : pyramid) (w2 : Z) : Z :=
  let x := word (L2 P) w2 in
  if w2 =? Z.of_nat (length (L2 P)) - 1 then
    let rem := BlockCount P mod 64 in
    if rem =? 0 then x else Z.land x (u64 (shl64 1 rem - 1))
  else x.

(** The outer loop, [k] words to go.  A word holds at most 64 runs. *)
Fixpoint scan_words (P : pyramid) (w2 : Z) (k : nat) (s : scan_state) : scan_out :=
  match k with
  | O => Go s
  | S k' =>
      let x := masked_word P w2 in
      let r := if x =? 0
               then match closeRun s with (s', true) => Go s' | (s', false) => Stop s' end
               else scan_word 64 (w2 * 64) x s in
      match r with
      | Stop s' => Stop s'
      | Go s' => scan_words P (w2 + 1) k' s'
      end
  end.

Definition scanMaximalRuns (P : pyramid) (st : St) : St :=
  match scan_words P 0 (length (L2 P)) (mkScan 0 0 st) with
  | Stop s => vst s
  | Go s => vst (fst (closeRun s))
  end.

(** ** The reference: bit by bit *)

(** The maximal runs of [f] on [pos, pos+k), given the run [cur] that ends at
    [pos], if any. *)
Fixpoint runs_from (f : Z -> bool) (pos : Z) (k : nat) (cur : option blockRun) : list blockRun :=
  match k with
  | O => match cur with Some r => [r] | None => [] end
  | S k' =>
      if f pos then
        let cur' := match cur with
                    | Some r => mkRun (run_first r) (run_n r + 1)
                    | None => mkRun pos 1
                    end in
        runs_from f (pos + 1) k' (Some cur')
      else match cur with
           | Some r => r :: runs_from f (pos + 1) k' None
           | None => runs_from f (pos + 1) k' None
           end
  end.

(** What visiting the runs of a list in order may end in.  With [minLen] set,
    the first run that reaches it is reported with some length between [minLen]
    and its full length, and is the last. *)
Inductive visits : St -> list blockRun -> St -> Prop :=
| visits_nil st : visits st [] st
| visits_big st r R l :
    0 < minLen <= l -> l <= run_n r ->
    visits st (r :: R) (fst (visit st (run_first r) l))
| visits_go st r R st' fin :
    ~ (0 < minLen <= run_n r) -> visit st (run_first r) (run_n r) = (st', true) ->
    visits st' R fin -> visits st (r :: R) fin
| visits_stop st r R st' :
    ~ (0 < minLen <= run_n r) -> visit st (run_first r) (run_n r) = (st', false) ->
    visits st (r :: R) st'.

End scan.
Arguments mkScan {St} _ _ _.
Arguments runStart {St} _.
Arguments runLen {St} _.
Arguments vst {St} _.
Arguments Go {St} _.
Arguments Stop {St} _.

(** ** The reference computes the maximal runs *)

Definition run_end (r : blockRun) : Z := run_first r + run_n r.
Definition apart (r1 r2 : blockRun) : Prop := run_end r1 < run_first r2.

(** [R] lists the maximal runs of the set [s]: nonempty, in order, with gaps
    between them, and covering exactly [s]. *)
Definition maximal_runs (s : Z -> Prop) (R : list blockRun) : Prop :=
  Forall (fun r => 0 < run_n r) R /\ StronglySorted apart R /\
  forall i, s i <-> exists r, r ∈ R /\ run_first r <= i < run_end r.

Section reference.
Context (f : Z -> bool).

Lemma runs_from_ones k : forall pos j cur,
  (j <= k)%nat -> (forall i, pos <= i < pos + Z.of_nat j -> f i = true) -> (0 < j)%nat ->
  runs_from f pos k cur
  = runs_from f (pos + Z.of_nat j) (k - j)
      (Some match cur with
            | Some r => mkRun (run_first r) (run_n r + Z.of_nat j)
            | None => mkRun pos (Z.of_nat j)
            end).
Proof.
  induction k as [|k IH]; intros pos j cur Hj Hf H0; [lia|].
  destruct j as [|j]; [lia|]. cbn [runs_from]. rewrite Hf by lia.
  destruct (decide (j = 0)%nat) as [->|Hj0].
  { simpl. rewrite Nat.sub_0_r. by destruct cur. }
  rewrite (IH (pos + 1) j) by (lia || (intros i Hi; apply Hf; lia)).
  replace (pos + 1 + Z.of_nat j) with (pos + Z.of_nat (S j)) by lia.
  replace (S k - S j)%nat with (k - j)%nat by lia. do 2 f_equal.
  destruct cur; simpl; f_equal; lia.
Qed.

Lemma runs_from_zeros k : forall pos j cur,
  (j <= k)%nat -> (forall i, pos <= i < pos + Z.of_nat j -> f i = false) -> (0 < j)%nat ->
  runs_from f pos k cur
  = match cur with Some r => [r] | None => [] end ++ runs_from f (pos + Z.of_nat j) (k - j) None.
Proof.
  induction k as [|k IH]; intros pos j cur Hj Hf H0; [lia|].
  destruct j as [|j]; [lia|]. cbn [runs_from]. rewrite Hf by lia.
  assert (E : runs_from f (pos + 1) k None = runs_from f (pos + Z.of_nat (S j)) (S k - S j) None).
  { destruct (decide (j = 0)%nat) as [->|Hj0].
    - simpl. by rewrite Nat.sub_0_r.
    - rewrite (IH (pos + 1) j) by (lia || (intros i Hi; apply Hf; lia)). simpl app.
      replace (pos + 1 + Z.of_nat j) with (pos + Z.of_nat (S j)) by lia.
      by replace (S k - S j)%nat with (k - j)%nat by lia. }
  rewrite E. by destruct cur.
Qed.

Definition cur_ok (pos : Z) (cur : option blockRun) : Prop :=
  match cur with Some r => 0 < run_n r /\ run_end r = pos | None => True end.

Lemma runs_from_maximal k : forall pos cur,
  cur_ok pos cur ->
  let R := runs_from f pos k cur in
  Forall (fun r => 0 < run_n r) R /\ StronglySorted apart R /\
  (forall r, r ∈ R -> match cur with Some c => run_first c | None => pos end <= run_first r) /\
  (forall i, (match cur with Some c => run_first c <= i < pos | None => False end \/
              pos <= i < pos + Z.of_nat k /\ f i = true) <->
             exists r, r ∈ R /\ run_first r <= i < run_end r).
Proof.
  induction k as [|k IH]; intros pos cur Hc; cbn [runs_from].
  { destruct cur as [c|]; simpl in Hc.
    - destruct Hc as [H1 H2]. split_and!; [by repeat constructor|by repeat constructor| |].
      + intros r ->%list_elem_of_singleton. lia.
      + intros i. setoid_rewrite list_elem_of_singleton. split.
        * intros [?|?]; [exists c; split; [done|lia]|lia].
        * intros (r & -> & Hr). lia.
    - split_and!; [constructor|constructor|set_solver|]. intros i. split; [lia|].
      by intros (r & Hr%elem_of_nil & _). }
  destruct (f pos) eqn:Hf.
  - set (c := match cur with Some r => _ | None => _ end).
    assert (Hc' : 0 < run_n c /\ run_end c = pos + 1 /\
      run_first c = match cur with Some c => run_first c | None => pos end).
    { unfold c, run_end. destruct cur as [r|]; simpl in *; [unfold run_end in Hc|]; lia. }
    destruct Hc' as (C1 & C2 & C3).
    destruct (IH (pos + 1) (Some c)) as (I1 & I2 & I3 & I4); [done|].
    split_and!; [done|done| |].
    + intros r Hr. rewrite <- C3. by apply I3.
    + intros i. rewrite <- I4, C3. unfold run_end in C2.
      destruct (decide (i = pos)) as [->|]; [|destruct cur; intuition lia].
      destruct cur as [r|]; simpl in Hc; unfold run_end in Hc; intuition lia.
  - destruct (IH (pos + 1) None) as (I1 & I2 & I3 & I4); [done|].
    assert (Hi : forall i, pos <= i < pos + Z.of_nat (S k) /\ f i = true <->
      False \/ pos + 1 <= i < pos + 1 + Z.of_nat k /\ f i = true).
    { intros i. destruct (decide (i = pos)) as [->|]; [rewrite Hf; intuition (lia || done)|].
      intuition lia. }
    destruct cur as [c|]; [destruct Hc as [H1 H2]|].
    + split_and!; [by constructor| | |].
      * apply StronglySorted_cons. split; [|done]. apply Forall_forall. intros r Hr.
        specialize (I3 r Hr). unfold apart. lia.
      * intros r [->|Hr]%elem_of_cons; [lia|]. specialize (I3 r Hr). unfold run_end in H2. lia.
      * intros i. rewrite Hi, I4. setoid_rewrite elem_of_cons. unfold run_end in H2. split.
        -- intros [?|(r & ? & ?)]; [exists c; split; [by left|unfold run_end; lia]|eauto].
        -- intros (r & [->|?] & ?); [left; unfold run_end in *; lia|eauto].
    + split_and!; [done|done| |].
      * intros r Hr. specialize (I3 r Hr). lia.
      * intros i. rewrite Hi, I4. intuition.
Qed.

End reference.

Lemma runs_from_head f k : forall pos r,
  exists r' R, runs_from f pos k (Some r) = r' :: R /\ run_first r' = run_first r /\ run_n r <= run_n r'.
Proof.
  induction k as [|k IH]; intros pos r; cbn [runs_from].
  - exists r, []. split_and!; done || lia.
  - destruct (f pos); [|exists r; eexists; split_and!; done || lia].
    destruct (IH (pos + 1) (mkRun (run_first r) (run_n r + 1))) as (r' & R & -> & H1 & H2).
    simpl in *. exists r', R. split_and!; done || lia.
Qed.

(** ** One run of bits within a word *)

Lemma testbit_not64 x b : 0 <= b < 64 -> Z.testbit (not64 x) b = negb (Z.testbit x b).
Proof.
  intros Hb. unfold not64. change (2 ^ 64 - 1) with (Z.ones 64).
  rewrite Z.lxor_spec, Z.testbit_ones_nonneg by lia.
  rewrite (proj2 (Z.ltb_lt _ _)) by lia. by rewrite xorb_true_r.
Qed.

Lemma not64_u64 x : is_u64 x -> is_u64 (not64 x).
Proof.
  intros [H0 H1]%is_u64_testbit. apply is_u64_testbit. unfold not64. split.
  - apply Z.lxor_nonneg. split; intros; lia.
  - intros b Hb. change (2 ^ 64 - 1) with (Z.ones 64).
    rewrite Z.lxor_spec, H1, Z.testbit_ones_nonneg by lia.
    by rewrite (proj2 (Z.ltb_ge _ _)) by lia.
Qed.

Lemma shiftr_u64 x b : is_u64 x -> 0 <= b -> is_u64 (Z.shiftr x b).
Proof.
  intros [H0 H1]%is_u64_testbit Hb. apply is_u64_testbit.
  split; [by apply Z.shiftr_nonneg|]. intros k Hk. rewrite Z.shiftr_spec by lia. apply H1. lia.
Qed.

(** [cnt] is the length of the run of ones that starts at the lowest one. *)
Lemma word_run x :
  is_u64 x -> x <> 0 ->
  let b := TrailingZeros64 x in
  let cnt := TrailingZeros64 (not64 (Z.shiftr x b)) in
  0 <= b < 64 /\ 1 <= cnt /\ b + cnt <= 64 /\
  (forall j, 0 <= j < b -> Z.testbit x j = false) /\
  (forall j, b <= j < b + cnt -> Z.testbit x j = true).
Proof.
  intros Hx Hn b cnt. destruct (TrailingZeros64_spec x Hx Hn) as (Hb & Ht & Hl). fold b in Hb, Ht, Hl.
  pose proof (shiftr_u64 x b Hx ltac:(lia)) as Hs. pose proof (not64_u64 _ Hs) as Hns.
  destruct (decide (not64 (Z.shiftr x b) = 0)) as [E|E].
  - assert (cnt = 64) as Hc by (unfold cnt; by rewrite E).
    assert (Hall : forall j, 0 <= j < 64 -> Z.testbit x (b + j) = true).
    { intros j Hj. pose proof (testbit_not64 (Z.shiftr x b) j Hj) as Hnot. rewrite E, Z.bits_0 in Hnot.
      rewrite Z.shiftr_spec in Hnot by lia. rewrite Z.add_comm. by destruct (Z.testbit x (j + b)). }
    assert (b = 0) as Hb0.
    { destruct (decide (b = 0)); [done|]. specialize (Hall (64 - b) ltac:(lia)).
      apply is_u64_testbit in Hx as [_ Hx]. rewrite Hx in Hall; [done|lia]. }
    split_and!; [lia..|done|]. intros j Hj. replace j with (b + (j - b)) by lia. apply Hall. lia.
  - destruct (TrailingZeros64_spec _ Hns E) as (Hc & Hct & Hcl). fold cnt in Hc, Hct, Hcl.
    rewrite testbit_not64, Z.shiftr_spec in Hct by lia.
    assert (Hones : forall j, b <= j < b + cnt -> Z.testbit x j = true).
    { intros j Hj. specialize (Hcl (j - b) ltac:(lia)).
      rewrite testbit_not64, Z.shiftr_spec in Hcl by lia.
      replace (j - b + b) with j in Hcl by lia. by destruct (Z.testbit x j). }
    split_and!; try lia; [|apply Z.nlt_ge; intros Hlt|done|done].
    + destruct (decide (cnt = 0)) as [E0|]; [|lia]. rewrite E0, Z.add_0_l, Ht in Hct. done.
    + specialize (Hones 64 ltac:(lia)). apply is_u64_testbit in Hx as [_ Hx].
      rewrite Hx in Hones; [done|lia].
Qed.

(** Clearing the run leaves the bits above it. *)
Lemma clear_run x :
  is_u64 x -> x <> 0 ->
  let b := TrailingZeros64 x in
  let cnt := TrailingZeros64 (not64 (Z.shiftr x b)) in
  let x' := if 64 <=? cnt then 0 else Z.ldiff x (shl64 (u64 (shl64 1 cnt - 1)) b) in
  is_u64 x' /\ forall j, 0 <= j < 64 -> Z.testbit x' j = (b + cnt <=? j) && Z.testbit x j.
Proof.
  intros Hx Hn b cnt x'. destruct (word_run x Hx Hn) as (Hb & Hc & Hbc & Hlo & Hones).
  fold b cnt in Hb, Hc, Hbc, Hlo, Hones. unfold x'.
  destruct (Z.leb_spec 64 cnt) as [Hge|Hlt].
  - split; [unfold is_u64; lia|]. intros j Hj. rewrite Z.bits_0.
    by rewrite (proj2 (Z.leb_gt _ _)) by lia.
  - rewrite low_mask by lia. apply is_u64_testbit in Hx as [X1 X2]. split.
    + apply is_u64_testbit. split; [apply Z.ldiff_nonneg; by left|].
      intros j Hj. by rewrite Z.ldiff_spec, X2.
    + intros j Hj. rewrite Z.ldiff_spec. unfold shl64, u64.
      rewrite Z.mod_pow2_bits_low, Z.shiftl_spec by lia.
      destruct (Z.leb_spec (b + cnt) j) as [Hj1|Hj1].
      * rewrite Z.testbit_ones_nonneg, (proj2 (Z.ltb_ge _ _)) by lia.
        by rewrite andb_true_r.
      * destruct (decide (j < b)) as [Hjb|Hjb]; [by rewrite Hlo by lia|].
        rewrite Z.testbit_ones_nonneg, (proj2 (Z.ltb_lt _ _)) by lia. apply andb_false_r.
Qed.

(** ** The scan against the reference *)
Section simulation.
Context {St : Type} (visit : St -> Z -> Z -> St * bool) (minLen : Z).
Context (f : Z -> bool) (N : Z) (HN : 0 <= N < 2 ^ 64).

(** The runs still to be reported in a state at bit [pos]. *)
Definition pending (pos : Z) (s : scan_state (St := St)) : list blockRun :=
  let rest := runs_from f pos (Z.to_nat (N - pos)) in
  if decide (runLen s = 0) then rest None else
  if decide (runStart s + runLen s = pos) then rest (Some (mkRun (runStart s) (runLen s)))
  else mkRun (runStart s) (runLen s) :: rest None.

Definition scan_inv (pos : Z) (s : scan_state (St := St)) : Prop :=
  0 <= pos <= N /\ 0 <= runLen s /\
  (0 < runLen s -> 0 <= runStart s /\ runStart s + runLen s <= pos) /\
  (0 < minLen -> runLen s < minLen).

(** From [s] at [pos], the scan reaches [out] (at [pos'] if it goes on) with
    the visits made so far being a beginning of those due. *)
Definition simulates (pos : Z) (s : scan_state) (pos' : Z) (out : scan_out) : Prop :=
  match out with
  | Stop s' => visits visit minLen (vst s) (pending pos s) (vst s')
  | Go s' => scan_inv pos' s' /\
      forall fin, visits visit minLen (vst s') (pending pos' s') fin ->
                  visits visit minLen (vst s) (pending pos s) fin
  end.

Lemma pending_zeros pos pos' s :
  scan_inv pos s -> pos <= pos' <= N -> (forall i, pos <= i < pos' -> f i = false) ->
  pending pos s = pending pos' s.
Proof using HN.
  intros (Hp & Hl & Hr & _) Hpos Hf. destruct (decide (pos = pos')) as [->|Hne]; [done|].
  unfold pending.
  assert (Hz : forall cur, runs_from f pos (Z.to_nat (N - pos)) cur
    = match cur with Some r => [r] | None => [] end ++ runs_from f pos' (Z.to_nat (N - pos')) None).
  { intros cur. rewrite (runs_from_zeros f _ pos (Z.to_nat (pos' - pos)) cur) by
      (lia || (intros i Hi; apply Hf; lia)).
    replace (pos + Z.of_nat (Z.to_nat (pos' - pos))) with pos' by lia.
    by replace (Z.to_nat (N - pos) - Z.to_nat (pos' - pos))%nat with (Z.to_nat (N - pos')) by lia. }
  rewrite !Hz. case_decide; [done|]. rewrite (decide_False (P := _ = pos')) by lia. by case_decide.
Qed.

Lemma pending_ones pos c st :
  0 <= pos -> 0 < c -> pos + c <= N -> (forall i, pos <= i < pos + c -> f i = true) ->
  runs_from f pos (Z.to_nat (N - pos)) None = pending (pos + c) (mkScan pos c st) /\
  forall s l, 0 < l -> s + l = pos ->
    runs_from f pos (Z.to_nat (N - pos)) (Some (mkRun s l)) = pending (pos + c) (mkScan s (l + c) st).
Proof using HN.
  intros Hp Hc Hle Hf. unfold pending. cbn [runStart runLen].
  assert (E : (Z.to_nat (N - pos) - Z.to_nat c)%nat = Z.to_nat (N - (pos + c))) by lia.
  assert (Ho := fun cur => runs_from_ones f (Z.to_nat (N - pos)) pos (Z.to_nat c) cur).
  rewrite E in Ho. rewrite Z2Nat.id in Ho by lia. split.
  - rewrite decide_False, decide_True by lia. apply Ho; [lia|done|lia].
  - intros s l Hl Hs. rewrite decide_False, decide_True by lia. rewrite Ho; [done|lia|done|lia].
Qed.

(** Closing the pending run when it cannot be extended any more. *)
Lemma closeRun_simulates pos s :
  scan_inv pos s -> runStart s + runLen s <> pos \/ runLen s = 0 ->
  match closeRun visit s with
  | (s', true) => runLen s' = 0 /\ forall fin,
      visits visit minLen (vst s') (runs_from f pos (Z.to_nat (N - pos)) None) fin ->
      visits visit minLen (vst s) (pending pos s) fin
  | (s', false) => visits visit minLen (vst s) (pending pos s) (vst s')
  end.
Proof using HN.
  intros (Hp & Hl & Hr & Hm) Hend. unfold closeRun, pending.
  destruct (Z.eqb_spec (runLen s) 0) as [E|E].
  - rewrite decide_True by done. done.
  - rewrite !decide_False by tauto.
    destruct (visit (vst s) (runStart s) (runLen s)) as [st' ok] eqn:Ev.
    destruct ok; cbn [runLen vst].
    + split; [done|]. intros fin Hv. eapply visits_go; [simpl; lia|exact Ev|exact Hv].
    + eapply visits_stop; [simpl; lia|exact Ev].
Qed.

Lemma big_run_stops pos s :
  0 < minLen <= runLen s -> runStart s + runLen s = pos ->
  visits visit minLen (vst s) (pending pos s) (vst (fst (closeRun visit s))).
Proof using HN.
  intros Hm Hend. unfold closeRun, pending. rewrite (proj2 (Z.eqb_neq _ _)) by lia.
  rewrite decide_False, decide_True by lia.
  destruct (runs_from_head f (Z.to_nat (N - pos)) pos (mkRun (runStart s) (runLen s)))
    as (r' & R & -> & H1 & H2). simpl in H1, H2.
  pose proof (visits_big visit minLen (vst s) r' R (runLen s) Hm H2) as Hv. rewrite H1 in Hv.
  by destruct (visit (vst s) (runStart s) (runLen s)).
Qed.

(** One run of a word: the step of the inner loop before the bits are cleared. *)
Definition absorb (start cnt : Z) (s : scan_state) : scan_out :=
  if (0 <? runLen s) && (start =? u64 (runStart s + runLen s))
  then Go (mkScan (runStart s) (u64 (runLen s + cnt)) (vst s))
  else match closeRun visit s with
       | (s', true) => Go (mkScan start cnt (vst s'))
       | (s', false) => Stop s'
       end.

Lemma absorb_simulates start cnt s :
  scan_inv start s -> 0 < cnt -> start + cnt <= N ->
  (forall i, start <= i < start + cnt -> f i = true) ->
  match absorb start cnt s with
  | Stop s' => visits visit minLen (vst s) (pending start s) (vst s')
  | Go s' => runStart s' + runLen s' = start + cnt /\ 0 <= runStart s' /\ 0 < runLen s' /\
      forall fin, visits visit minLen (vst s') (pending (start + cnt) s') fin ->
                  visits visit minLen (vst s) (pending start s) fin
  end.
Proof using HN.
  intros Hinv Hc Hle Hf. pose proof Hinv as (Hp & Hl & Hr & Hm). unfold absorb.
  destruct (Z.ltb_spec 0 (runLen s)) as [Hpos|Hpos]; cbn [andb].
  - destruct (Hr Hpos) as [Hr0 Hr1]. rewrite u64_small by (unfold is_u64; lia).
    destruct (Z.eqb_spec start (runStart s + runLen s)) as [Es|Es].
    + rewrite u64_small by (unfold is_u64; lia). cbn [runStart runLen vst]. split_and!; [lia..|].
      intros fin Hv. unfold pending. rewrite decide_False, decide_True by lia.
      rewrite (proj2 (pending_ones start cnt (vst s) ltac:(lia) Hc Hle Hf)) by lia. exact Hv.
    + pose proof (closeRun_simulates start s Hinv ltac:(lia)) as Hcl.
      destruct (closeRun visit s) as [s' [|]]; [|done]. destruct Hcl as [_ Hcl].
      cbn [runStart runLen vst]. split_and!; [lia..|]. intros fin Hv. apply Hcl.
      by rewrite (proj1 (pending_ones start cnt (vst s') ltac:(lia) Hc Hle Hf)).
  - pose proof (closeRun_simulates start s Hinv ltac:(lia)) as Hcl.
    destruct (closeRun visit s) as [s' [|]]; [|done]. destruct Hcl as [_ Hcl].
    cbn [runStart runLen vst]. split_and!; [lia..|]. intros fin Hv. apply Hcl.
    by rewrite (proj1 (pending_ones start cnt (vst s') ltac:(lia) Hc Hle Hf)).
Qed.

Lemma scan_word_simulates fuel : forall base p x s,
  0 <= base -> 0 <= p <= 64 -> base + 64 <= N -> 64 - p <= Z.of_nat fuel -> is_u64 x ->
  (forall j, 0 <= j < 64 -> Z.testbit x j = (p <=? j) && f (base + j)) ->
  scan_inv (base + p) s ->
  simulates (base + p) s (base + 64) (scan_word visit minLen fuel base x s).
Proof using HN.
  induction fuel as [|fuel IH]; intros base p x s Hb Hp HbN Hfu Hx Hbits Hinv; cbn [scan_word].
  { replace p with 64 in * by lia. done. }
  assert (Hbit : forall j, p <= j < 64 -> f (base + j) = Z.testbit x j).
  { intros j Hj. rewrite Hbits, (proj2 (Z.leb_le _ _)) by lia. done. }
  destruct (Z.eqb_spec x 0) as [->|Hn].
  { assert (Hz : forall i, base + p <= i < base + 64 -> f i = false).
    { intros i Hi. specialize (Hbit (i - base) ltac:(lia)). rewrite Z.bits_0 in Hbit.
      by replace (base + (i - base)) with i in Hbit by lia. }
    split; [unfold scan_inv in *; lia|]. intros fin Hv.
    by rewrite (pending_zeros (base + p) (base + 64)) by (done || lia). }
  destruct (word_run x Hx Hn) as (Hbb & Hc1 & Hc2 & Hlo & Hones).
  destruct (clear_run x Hx Hn) as (Hx' & Hbits').
  set (b := TrailingZeros64 x) in *. set (cnt := TrailingZeros64 (not64 (Z.shiftr x b))) in *.
  set (x' := if 64 <=? cnt then 0 else _) in *.
  assert (Hpb : p <= b).
  { apply Z.nlt_ge. intros Hlt. specialize (Hones b ltac:(lia)).
    rewrite Hbits, (proj2 (Z.leb_gt _ _)) in Hones by lia. done. }
  rewrite (u64_small (base + b)) by (unfold is_u64; lia).
  assert (Hpend : pending (base + p) s = pending (base + b) s).
  { apply pending_zeros; [done|lia|]. intros i Hi.
    replace i with (base + (i - base)) by lia. rewrite Hbit by lia. apply Hlo. lia. }
  assert (Hinv' : scan_inv (base + b) s) by (unfold scan_inv in *; lia).
  pose proof (absorb_simulates (base + b) cnt s Hinv' ltac:(lia) ltac:(lia)) as Hab.
  fold (absorb (base + b) cnt s). specialize (Hab ltac:(
    intros i Hi; replace i with (base + (i - base)) by lia; rewrite Hbit by lia; apply Hones; lia)).
  unfold simulates. rewrite Hpend. destruct (absorb (base + b) cnt s) as [s'|s'] eqn:Eab; [|done].
  destruct Hab as (E1 & E2 & E3 & Hv).
  destruct ((0 <? minLen) && (minLen <=? runLen s')) eqn:Em.
  - rewrite andb_true_iff, Z.ltb_lt, Z.leb_le in Em. apply Hv. apply big_run_stops; [lia|done].
  - rewrite andb_false_iff, Z.ltb_ge, Z.leb_gt in Em.
    specialize (IH base (b + cnt) x' s' Hb). unfold simulates in IH.
    replace (base + (b + cnt)) with (base + b + cnt) in IH by lia.
    destruct (scan_word visit minLen fuel base x' s') as [s''|s''].
    + destruct IH as [I1 I2]; try done; try lia; [|unfold scan_inv; lia|by auto].
      intros j Hj. rewrite Hbits', Hbits by lia. destruct (Z.leb_spec (b + cnt) j); [|done].
      by rewrite (proj2 (Z.leb_le p j)) by lia.
    + apply Hv, IH; try done; try lia; [|unfold scan_inv; lia].
      intros j Hj. rewrite Hbits', Hbits by lia. destruct (Z.leb_spec (b + cnt) j); [|done].
      by rewrite (proj2 (Z.leb_le p j)) by lia.
Qed.

End simulation.

(** Under the invariant the mask of the last word removes nothing. *)
Lemma masked_word_id P w : shape P -> 0 <= w < Z.of_nat (length (L2 P)) -> masked_word P w = word (L2 P) w.
Proof.
  intros HS Hw. unfold masked_word. case_match eqn:E; [|done].
  case_match eqn:Er; [done|]. apply Z.eqb_eq in E. apply Z.eqb_neq in Er.
  pose proof (wf_bc P HS). pose proof (shape_bounds P HS) as Hsb.
  pose proof (div_mod_64 (BlockCount P)) as [Hd Hm].
  rewrite low_mask by lia. apply word_ext.
  - pose proof (words_word (L2 P) w (wf_w2 P HS)) as [A1 A2]%is_u64_testbit.
    apply is_u64_testbit. split; [apply Z.land_nonneg; lia|]. intros b Hb. by rewrite Z.land_spec, A2.
  - apply words_word, HS.
  - intros b Hb. rewrite Z.land_spec, Z.testbit_ones_nonneg by lia.
    destruct (Z.ltb_spec b (BlockCount P mod 64)); [by rewrite andb_true_r|].
    rewrite andb_false_r, <- bit_word by lia. symmetry. apply (wf_tail P HS). lia.
Qed.

Section whole.
Context {St : Type} (visit : St -> Z -> Z -> St * bool) (minLen : Z).
Context (P : pyramid) (HS : shape P).
Let N := 64 * Z.of_nat (length (L2 P)).
Let f := bit (L2 P).

Lemma N_bound : 0 <= N < 2 ^ 64.
Proof using HS. pose proof (wf_bc P HS). pose proof (shape_bounds P HS). lia. Qed.

Lemma scan_words_simulates k : forall w s,
  0 <= w -> Z.of_nat (length (L2 P)) = w + Z.of_nat k ->
  scan_inv minLen N (w * 64) s ->
  simulates visit minLen f N (w * 64) s N (scan_words visit minLen P w k s).
Proof using HS.
  pose proof N_bound as HN.
  induction k as [|k IH]; intros w s Hw Hk Hinv; cbn [scan_words].
  { unfold simulates. replace (w * 64) with N in * by lia. done. }
  rewrite masked_word_id by (done || lia).
  assert (Hstep : simulates visit minLen f N (w * 64) s ((w + 1) * 64)
    (if word (L2 P) w =? 0
     then match closeRun visit s with (s', true) => Go s' | (s', false) => Stop s' end
     else scan_word visit minLen 64 (w * 64) (word (L2 P) w) s)).
  { destruct (Z.eqb_spec (word (L2 P) w) 0) as [E|E].
    - assert (Hinv' : scan_inv minLen N ((w + 1) * 64) s) by (unfold scan_inv in *; lia).
      assert (Ep : pending f N (w * 64) s = pending f N ((w + 1) * 64) s).
      { apply (pending_zeros minLen); [done|done|lia|]. intros i Hi. unfold f, bit.
        replace (i / 64) with w by (pose proof (div_mod_64 i); lia). by rewrite E, Z.bits_0. }
      pose proof (closeRun_simulates visit minLen f N HN ((w + 1) * 64) s Hinv') as Hc.
      rewrite <- Ep in Hc. specialize (Hc ltac:(unfold scan_inv in *; lia)).
      destruct (closeRun visit s) as [s' [|]]; [|exact Hc]. destruct Hc as [H0 Hc].
      split; [unfold scan_inv in *; lia|]. intros fin. unfold pending at 1.
      rewrite decide_True by done. apply Hc.
    - pose proof (scan_word_simulates visit minLen f N HN 64 (w * 64) 0 (word (L2 P) w) s) as Hs.
      rewrite Z.add_0_r in Hs. replace ((w + 1) * 64) with (w * 64 + 64) by lia.
      apply Hs; try lia; [apply words_word, HS| |done].
      intros j Hj. rewrite (proj2 (Z.leb_le _ _)) by lia. unfold f. by rewrite bit_word. }
  destruct (if _ =? 0 then _ else _) as [s'|s']; [|exact Hstep]. destruct Hstep as [Hi Hv].
  specialize (IH (w + 1) s' ltac:(lia) ltac:(lia) Hi).
  destruct (scan_words visit minLen P (w + 1) k s') as [s''|s''].
  - destruct IH as [I1 I2]. split; [done|]. auto.
  - apply Hv, IH.
Qed.

(** The maximal runs of free blocks, found bit by bit. *)
Definition free_runs : list blockRun := runs_from f 0 (Z.to_nat N) None.

Lemma scanMaximalRuns_visits st : visits visit minLen st free_runs (scanMaximalRuns visit minLen P st).
Proof using HS.
  pose proof N_bound as HN. unfold scanMaximalRuns.
  assert (Hinv : scan_inv minLen N (0 * 64) (mkScan 0 0 st)) by (unfold scan_inv; simpl; lia).
  pose proof (scan_words_simulates (length (L2 P)) 0 (mkScan 0 0 st) ltac:(lia) ltac:(lia) Hinv) as Hs.
  assert (E : pending f N (0 * 64) (mkScan 0 0 st) = free_runs).
  { unfold pending, free_runs. cbn [runLen]. rewrite decide_True by done. do 2 f_equal; lia. }
  unfold simulates in Hs. rewrite E in Hs. cbn [vst] in Hs.
  destruct (scan_words _ _ _ _ _ _) as [s'|s']; [|exact Hs].
  destruct Hs as ((_ & H0 & H1 & H2) & Hs). apply Hs.
  unfold pending. rewrite Z.sub_diag. simpl runs_from. unfold closeRun.
  destruct (Z.eqb_spec (runLen s') 0) as [E'|E']; [rewrite decide_True by done; constructor|].
  rewrite decide_False by done.
  replace (if decide _ then _ else _) with [mkRun (runStart s') (runLen s')] by by case_decide.
  destruct (visit (vst s') (runStart s') (runLen s')) as [st' [|]] eqn:Ev; cbn [fst vst].
  - eapply visits_go; [simpl; lia|exact Ev|constructor].
  - eapply visits_stop; [simpl; lia|exact Ev].
Qed.

Lemma free_runs_maximal : maximal_runs (fun i => i ∈ free_set P) free_runs.
Proof using HS.
  pose proof N_bound as HN.
  destruct (runs_from_maximal f (Z.to_nat N) 0 None I) as (H1 & H2 & _ & H3).
  split_and!; [done|done|]. intros i. rewrite (elem_of_free_set P HS). rewrite <- H3.
  split; [|intros [[]|[? ?]]; split; [lia|done]].
  intros [Hi Hb]. right. split; [|done]. split; [done|]. apply Z.nle_gt. intros Hle.
  unfold f in *. rewrite bit_out in Hb by lia. done.
Qed.

End whole.

(** ** Allocating runs *)

Definition reserveBlockZeroLocked (a : Allocator) : Allocator :=
  let P := a_pyr a in
  let x := word (L2 P) 0 in
  if Z.land x 1 =? 0 then a else
  let y := Z.ldiff x 1 in
  let Q := set_l2 P 0 y (u64 (FreeCount P - 1)) in
  touch a (if y =? 0 then clear_up Q 0 0 0 0 else Q) 0.

(** The visitor of [tryAllocBlocks]: it keeps the first run of [n] blocks. *)
Definition fit_visit (n : Z) (st : Z * Z) (s l : Z) : (Z * Z) * bool :=
  if n <=? l then ((s, l), false) else (st, true).

Definition clear_bit (l2 : list Z) (blk : Z) : list Z :=
  <[Z.to_nat (blk / 64) := Z.ldiff (word l2 (blk / 64)) (shl64 1 (blk mod 64))]> l2.

Definition clear_bits (l2 : list Z) (runStart n : Z) : list Z :=
  foldl (fun l2 i => clear_bit l2 (u64 (runStart + i))) l2 (seqZ 0 n).

Definition propagate_word (P : pyramid) (w2 : Z) : pyramid :=
  if word (L2 P) w2 =? 0
  then clear_up P (w2 / 64 / 64) ((w2 / 64) mod 64) (w2 / 64) (w2 mod 64)
  else P.

Definition span_words (first n : Z) : list Z :=
  seqZ (first / 64) (u64 (first + n - 1) / 64 - first / 64 + 1).

Definition tryAllocBlocks (a : Allocator) (n : Z) : Allocator * Z :=
  if (dataAvail a <? n) || (BlockCount (a_pyr a) <? n) then (a, 0) else
  let a := reserveBlockZeroLocked a in
  let P := a_pyr a in
  let '(runStart, runLen) := scanMaximalRuns (fit_visit n) n P (0, 0) in
  if runLen <? n then (a, 0) else
  let Q := mkPyramid (L0 P) (L1 P) (clear_bits (L2 P) runStart n) (BlockCount P)
             (u64 (FreeCount P - n)) in
  let ws := span_words runStart n in
  (mkAllocator (foldl propagate_word Q ws) (a_shield a) true
     (foldl (fun d w => markL2Word w d) (a_l2Dirty a) ws), runStart).

Definition AllocBlocks (reclaim : Allocator -> option Allocator) (a : Allocator) (n : Z) : Allocator * Z :=
  if (length (L0 (a_pyr a)) =? 0)%nat || (n =? 0) then (a, 0) else
  let '(a1, rel) := tryAllocBlocks a n in
  if rel =? 0 then
    match reclaim a1 with
    | Some a2 => tryAllocBlocks a2 n
    | None => (a1, rel)
    end
  else (a1, rel).

(** The visitor of [tryAllocRunsUpTo]: the runs so far and what is missing. *)
Definition harvest (st : list blockRun * Z) (runStart runLen : Z) : (list blockRun * Z) * bool :=
  let '(runs, remaining) := st in
  if remaining =? 0 then (st, false) else
  let runLen := if remaining <? runLen then remaining else runLen in
  let remaining := u64 (remaining - runLen) in
  ((runs ++ [mkRun runStart runLen], remaining), 0 <? remaining).

Definition take_mask (r : blockRun) (w2 : Z) : Z :=
  let lo := if w2 * 64 <? run_first r then run_first r - w2 * 64 else 0 in
  let hi := u64 (run_first r + run_n r - w2 * 64) in
  let mask := not64 0 in
  let mask := if 0 <? lo then Z.ldiff mask (u64 (shl64 1 lo - 1)) else mask in
  if hi <? 64 then Z.land mask (u64 (shl64 1 hi - 1)) else mask.

Definition take_word (r : blockRun) (a : Allocator) (w2 : Z) : Allocator :=
  let P := a_pyr a in
  let Q := set_l2 P w2 (Z.ldiff (word (L2 P) w2) (take_mask r w2)) (FreeCount P) in
  mkAllocator (propagate_word Q w2) (a_shield a) (a_dirty a) (markL2Word w2 (a_l2Dirty a)).

Definition take_run (a : Allocator) (r : blockRun) : Allocator :=
  foldl (take_word r) a (span_words (run_first r) (run_n r)).

Definition tryAllocRunsUpTo (a : Allocator) (n : Z) : Allocator * list blockRun :=
  if dataAvail a =? 0 then (a, []) else
  let remaining := if dataAvail a <? n then dataAvail a else n in
  if BlockCount (a_pyr a) <? remaining then (a, []) else
  let a := reserveBlockZeroLocked a in
  let '(runs, _) := scanMaximalRuns harvest 0 (a_pyr a) ([], remaining) in
  match runs with
  | [] => (a, [])
  | _ =>
      let total := foldl (fun t r => u64 (t + run_n r)) 0 runs in
      let a := foldl take_run a runs in
      let P := a_pyr a in
      (mkAllocator (mkPyramid (L0 P) (L1 P) (L2 P) (BlockCount P) (u64 (FreeCount P - total)))
         (a_shield a) true (a_l2Dirty a), runs)
  end.

Definition AllocRunsUpTo (reclaim : Allocator -> option Allocator) (a : Allocator) (n : Z)
    : Allocator * list blockRun :=
  if (length (L0 (a_pyr a)) =? 0)%nat || (n =? 0) then (a, []) else
  let '(a1, runs) := tryAllocRunsUpTo a n in
  match runs with
  | [] => match reclaim a1 with
          | Some a2 => tryAllocRunsUpTo a2 n
          | None => (a1, runs)
          end
  | _ => (a1, runs)
  end.

(** [TrimFreeRuns]: the visitor may fail, which ends the walk. *)
Definition trim_visit {St E} (visit : St -> Z -> Z -> St * option E) (st : St * option E) (s l : Z)
    : (St * option E) * bool :=
  match visit (fst st) s l with
  | (st', Some e) => ((st', Some e), false)
  | (st', None) => ((st', snd st), true)
  end.

Definition TrimFreeRuns {St E} (visit : St -> Z -> Z -> St * option E) (a : Allocator) (st : St)
    : St * option E :=
  if (length (L0 (a_pyr a)) =? 0)%nat then (st, None)
  else scanMaximalRuns (trim_visit visit) 0 (a_pyr a) (st, None).

(** ** Propagation after the leaf has changed *)

(** The summaries may still have bits set for the words of [ws]. *)
Record shape_upto (ws : list Z) (P : pyramid) : Prop := {
  su_bc : 0 < BlockCount P <= 2 ^ 64 - 64;
  su_lens : lens P = AllocLevelWords (BlockCount P);
  su_w0 : words (L0 P);
  su_w1 : words (L1 P);
  su_w2 : words (L2 P);
  su_s0 : summary (L0 P) (L1 P);
  su_s1 : forall w, 0 <= w -> w ∉ ws -> bit (L1 P) w = negb (word (L2 P) w =? 0);
  su_stale : forall w, 0 <= w -> word (L2 P) w <> 0 -> bit (L1 P) w = true;
  su_tail : forall i, BlockCount P <= i -> bit (L2 P) i = false;
}.

Lemma clear_up_levels P w :
  words (L0 P) -> words (L1 P) -> summary (L0 P) (L1 P) ->
  0 <= w < 64 * Z.of_nat (length (L1 P)) ->
  Z.of_nat (length (L1 P)) <= 64 * Z.of_nat (length (L0 P)) ->
  let l1 := upd (L1 P) w false in
  clear_up P (w / 64 / 64) ((w / 64) mod 64) (w / 64) (w mod 64)
  = mkPyramid (upd (L0 P) (w / 64) (negb (word l1 (w / 64) =? 0))) l1 (L2 P) (BlockCount P) (FreeCount P).
Proof.
  intros W0 W1 Hs Hw Hl l1. pose proof (div_mod_64 w) as [E1 M1].
  pose proof (div_mod_64 (w / 64)) as [E0 M0].
  unfold clear_up. cbn [set_l1 set_l0 L0 L1 L2 BlockCount FreeCount].
  rewrite !ldiff_shl64 by lia. unfold l1. rewrite word_upd, decide_True by lia.
  destruct (upd_word _ _ _ =? 0) eqn:Ey; cbn [negb].
  - reflexivity.
  - unfold set_l1. cbn [L0 L2 BlockCount FreeCount]. unfold upd at 2. f_equal. symmetry. apply upd_id; [done|lia|].
    rewrite Hs by lia. apply negb_true_iff, Z.eqb_neq. intros Ez. rewrite Ez in Ey.
    apply Z.eqb_neq in Ey. apply Ey. unfold upd_word. apply Z.bits_inj'. intros b Hb.
    rewrite Z.clearbit_eqb, !Z.bits_0 by lia. done.
Qed.

Lemma propagate_word_upto w ws P :
  shape_upto (w :: ws) P -> 0 <= w < Z.of_nat (length (L2 P)) ->
  let Q := propagate_word P w in
  shape_upto ws Q /\ L2 Q = L2 P /\ BlockCount Q = BlockCount P /\ FreeCount Q = FreeCount P.
Proof.
  intros [Hbc Hlens W0 W1 W2 S0 S1 Hst Ht] Hw Q.
  pose proof (AllocLevelWords_bounds _ _ _ _ Hbc (eq_sym Hlens)) as Hb.
  pose proof (div_mod_64 w) as [E1 M1]. unfold Q, propagate_word.
  destruct (Z.eqb_spec (word (L2 P) w) 0) as [E|E].
  - rewrite clear_up_levels by (done || lia). split_and!; [|done..]. split; simpl; try done.
    + rewrite <- Hlens. unfold lens. simpl. by rewrite !length_upd.
    + by apply words_upd.
    + by apply words_upd.
    + rewrite (upd_as_insert (L1 P)) at 2 by lia. apply summary_upd; [done|done|lia|lia].
    + intros w' Hw' Hn. rewrite bit_upd by lia. case_decide as Ew; [by subst; rewrite E|].
      apply S1; [done|]. rewrite not_elem_of_cons. done.
    + intros w' Hw' Hn. rewrite bit_upd by lia. case_decide as Ew; [by subst|]. by apply Hst.
  - split_and!; [|done..]. split; try done. intros w' Hw' Hn.
    destruct (decide (w' = w)) as [->|Hne].
    + rewrite Hst by done. symmetry. by apply negb_true_iff, Z.eqb_neq.
    + apply S1; [done|]. by rewrite not_elem_of_cons.
Qed.

Lemma propagate_shape ws : forall P,
  shape_upto ws P -> Forall (fun w => 0 <= w < Z.of_nat (length (L2 P))) ws ->
  let Q := foldl propagate_word P ws in
  shape Q /\ L2 Q = L2 P /\ BlockCount Q = BlockCount P /\ FreeCount Q = FreeCount P.
Proof.
  induction ws as [|w ws IH]; intros P HP Hws; cbn [foldl].
  - split_and!; [|done..]. destruct HP as [? ? ? ? ? ? S1 ? ?]. split; try done.
    intros i Hi. apply S1; [done|]. apply not_elem_of_nil.
  - apply Forall_cons_1 in Hws as [Hw Hws].
    destruct (propagate_word_upto w ws P HP Hw) as (HQ & E2 & Eb & Ef).
    destruct (IH _ HQ) as (I1 & I2 & I3 & I4); [by rewrite E2|].
    split_and!; [done|by rewrite I2|by rewrite I3|by rewrite I4].
Qed.

Lemma clear_bits_spec l2 s n :
  words l2 -> 0 <= s -> 0 <= n -> s + n <= 64 * Z.of_nat (length l2) < 2 ^ 64 ->
  let l := clear_bits l2 s n in
  words l /\ length l = length l2 /\
  forall i, 0 <= i -> bit l i = bit l2 i && negb ((s <=? i) && (i <? s + n)).
Proof.
  intros Hl Hs Hn Hle. replace n with (Z.of_nat (Z.to_nat n)) in * by lia.
  generalize dependent (Z.to_nat n). clear n. intros n _ Hle. unfold clear_bits.
  induction n as [|n IH].
  { simpl. split_and!; [done|done|]. intros i Hi.
    change (Z.of_nat 0) with 0. assert (Ef : (s <=? i) && (i <? s + 0) = false) by (apply andb_false_iff; lia).
    rewrite Ef. by destruct (bit l2 i). }
  destruct IH as (I1 & I2 & I3); [lia|].
  replace (Z.of_nat (S n)) with (Z.of_nat n + 1) by lia. rewrite seqZ_app, foldl_app by lia.
  cbn [seqZ]. set (l := foldl _ l2 (seqZ 0 (Z.of_nat n))) in *. change (seqZ (0 + Z.of_nat n) 1) with [0 + Z.of_nat n].
  cbn [foldl]. rewrite u64_small by (unfold is_u64; lia). unfold clear_bit.
  pose proof (div_mod_64 (s + (0 + Z.of_nat n))) as [Ed Em].
  rewrite ldiff_shl64 by lia. fold (upd l (s + (0 + Z.of_nat n)) false).
  split_and!; [by apply words_upd|by rewrite length_upd|].
  intros i Hi. rewrite bit_upd by lia. case_decide as E.
  - replace ((s <=? i) && (i <? s + (Z.of_nat n + 1))) with true by (symmetry; apply andb_true_iff; lia).
    cbn [negb]. by rewrite andb_false_r.
  - rewrite I3 by done. do 2 f_equal. apply eq_true_iff_eq. rewrite !andb_true_iff. lia.
Qed.

Definition interval (s n : Z) : gset Z := list_to_set (seqZ s n).

Lemma elem_of_interval s n i : i ∈ interval s n <-> s <= i < s + n.
Proof. unfold interval. rewrite elem_of_list_to_set, elem_of_seqZ. lia. Qed.

Lemma size_interval s n : 0 <= n -> Z.of_nat (size (interval s n)) = n.
Proof. intros Hn. unfold interval. rewrite size_list_to_set by apply NoDup_seqZ. rewrite length_seqZ. lia. Qed.

Lemma elem_of_span first n w :
  0 <= first -> 0 < n -> first + n < 2 ^ 64 ->
  w ∈ span_words first n <-> first / 64 <= w <= (first + n - 1) / 64.
Proof.
  intros H1 H2 H3. unfold span_words. rewrite u64_small by (unfold is_u64; lia).
  rewrite elem_of_seqZ. lia.
Qed.

(** ** First fit *)

Definition fits (s : gset Z) (b n : Z) : Prop := interval b n ⊆ s.

Definition first_fit (s : gset Z) (n b : Z) : Prop := fits s b n /\ forall b', b' < b -> ~ fits s b' n.

Lemma took_refl a s : wf (a_pyr a) -> free_set (a_pyr a) ## s -> took a a s.
Proof. intros HP Hs. split_and!; [done|done| |done]. set_solver. Qed.

Lemma took_trans a a1 a2 s1 s2 : took a a1 s1 -> took a1 a2 s2 -> took a a2 (s1 ∪ s2).
Proof.
  intros (_ & B1 & F1 & S1) (W2 & B2 & F2 & S2). split_and!; [done|congruence| |congruence].
  rewrite F2, F1. set_solver.
Qed.

Lemma reserveBlockZeroLocked_took a : wf (a_pyr a) -> took a (reserveBlockZeroLocked a) {[0]}.
Proof.
  intros HP. pose proof (wf_shape _ HP) as HS. unfold reserveBlockZeroLocked.
  pose proof (shape_bounds _ HS). pose proof (wf_bc _ HS).
  cbv zeta. set (x := word (L2 (a_pyr a)) 0).
  change (Z.land x 1) with (Z.land x (shl64 1 0)). change (Z.ldiff x 1) with (Z.ldiff x (shl64 1 0)).
  unfold x. rewrite land_shl64 by lia.
  destruct (Z.testbit (word (L2 (a_pyr a)) 0) 0) eqn:Eb; cbn [negb].
  - assert (Hw : 0 <= 0 < Z.of_nat (length (L2 (a_pyr a)))) by lia.
    assert (Hn : word (L2 (a_pyr a)) 0 <> 0) by (intros E; by rewrite E in Eb).
    pose proof (put_l2_set_word (a_pyr a) 0 (Z.ldiff (word (L2 (a_pyr a)) 0) (shl64 1 0))
      (u64 (FreeCount (a_pyr a) - 1)) HS Hw Hn) as E.
    unfold put_l2 in E. cbv zeta in E.
    change (0 / 64 / 64) with 0 in E. change ((0 / 64) mod 64) with 0 in E.
    change (0 / 64) with 0 in E. change (0 mod 64) with 0 in E. rewrite E.
    destruct (clear_mask_wf (a_pyr a) HP 0 (shl64 1 0) Hw) as (W & F & _); [apply shl64_u64| |].
    + intros b Hb. rewrite testbit_shl64 by lia. by intros ->.
    + rewrite word_bits_shl64 in F by lia. by split_and!.
  - apply took_refl; [done|]. intros i [_ Hi]%(elem_of_free_set _ HS) ->%elem_of_singleton.
    unfold bit in Hi. change (0 / 64) with 0 in Hi. change (0 mod 64) with 0 in Hi. congruence.
Qed.

(** A stretch of members lies within one of the maximal runs. *)
Lemma fits_in_run s R b n :
  maximal_runs (fun i => i ∈ s) R -> 0 < n -> fits s b n ->
  exists r, r ∈ R /\ run_first r <= b /\ b + n <= run_end r.
Proof.
  intros (_ & Hso & Hm) Hn Hf.
  assert (Hin : forall i, b <= i < b + n -> i ∈ s) by (intros i Hi; by apply Hf, elem_of_interval).
  destruct (proj1 (Hm b) (Hin b ltac:(lia))) as (r & Hr & Hb).
  exists r. split_and!; [done|lia|]. apply Z.nlt_ge. intros Hlt.
  destruct (proj1 (Hm (run_end r)) (Hin (run_end r) ltac:(lia))) as (r2 & Hr2 & Hb2).
  assert (Hap : r = r2 \/ apart r r2 \/ apart r2 r).
  { clear -Hso Hr Hr2. induction Hso as [|x R Hso IH Hx]; [by apply elem_of_nil in Hr|].
    rewrite Forall_forall in Hx. apply elem_of_cons in Hr as [->|Hr], Hr2 as [->|Hr2]; auto. }
  unfold apart in Hap. destruct Hap as [->|Hap]; lia.
Qed.

Lemma fit_visits n R fin :
  0 < n -> visits (fit_visit n) n (0, 0) R fin ->
  (Forall (fun r => run_n r < n) R /\ fin = (0, 0)) \/
  exists R1 r R2 l, R = R1 ++ r :: R2 /\ Forall (fun r => run_n r < n) R1 /\
    n <= l <= run_n r /\ fin = (run_first r, l).
Proof.
  intros Hn. remember (0, 0) as st eqn:Est. induction 1 as [st|st r R l H1 H2|st r R st' fin Hl Hv _ IH|st r R st' Hl Hv].
  - left. by subst.
  - right. exists [], r, R, l. unfold fit_visit. rewrite (proj2 (Z.leb_le _ _)) by lia.
    split_and!; done || lia.
  - unfold fit_visit in Hv. rewrite (proj2 (Z.leb_gt _ _)) in Hv by lia. simplify_eq.
    destruct IH as [[H1 H2]|(R1 & r' & R2 & l & -> & H1 & H2 & H3)]; [done| |].
    + left. split; [|done]. constructor; [lia|done].
    + right. exists (r :: R1), r', R2, l. split_and!; try done; [|lia..]. constructor; [lia|done].
  - unfold fit_visit in Hv. rewrite (proj2 (Z.leb_gt _ _)) in Hv by lia. done.
Qed.

(** What the scan of [tryAllocBlocks] finds. *)
Lemma fit_scan P n :
  shape P -> 0 < n ->
  let '(s, l) := scanMaximalRuns (fit_visit n) n P (0, 0) in
  (l < n /\ forall b, ~ fits (free_set P) b n) \/ (n <= l /\ first_fit (free_set P) n s).
Proof.
  intros HS Hn. pose proof (scanMaximalRuns_visits (fit_visit n) n P HS (0, 0)) as Hv.
  pose proof (free_runs_maximal P HS) as Hm. destruct (scanMaximalRuns _ _ _ _) as [s l].
  apply (fit_visits n _ _ Hn) in Hv as [[Hall [= -> ->]]|(R1 & r & R2 & l' & E & Hall & Hl & [= -> ->])].
  - left. split; [done|]. intros b Hb. destruct (fits_in_run _ _ _ _ Hm Hn Hb) as (r & Hr & H1 & H2).
    rewrite Forall_forall in Hall. specialize (Hall r Hr). unfold run_end in H2. lia.
  - right. split; [lia|]. rewrite E in Hm. split.
    + intros i Hi%elem_of_interval. apply Hm. exists r.
      split; [set_solver|unfold run_end; lia].
    + intros b Hb Hf. destruct (fits_in_run _ _ _ _ Hm Hn Hf) as (r' & Hr' & H1 & H2).
      unfold run_end in H2. apply elem_of_app in Hr' as [Hr'|Hr'].
      * rewrite Forall_forall in Hall. specialize (Hall r' Hr'). lia.
      * destruct Hm as (_ & Hso & _). apply StronglySorted_app_1_r in Hso.
        apply elem_of_cons in Hr' as [->|Hr']; [lia|].
        apply StronglySorted_cons in Hso as [Hso _]. rewrite Forall_forall in Hso.
        specialize (Hso r' Hr').
        unfold apart, run_end in Hso. lia.
Qed.

(** Taking the prefix of the run that was found. *)
Lemma take_prefix_took a s n :
  wf (a_pyr a) -> 0 < n -> fits (free_set (a_pyr a)) s n ->
  let P := a_pyr a in
  let Q := mkPyramid (L0 P) (L1 P) (clear_bits (L2 P) s n) (BlockCount P) (u64 (FreeCount P - n)) in
  forall d, took a (mkAllocator (foldl propagate_word Q (span_words s n)) (a_shield a) true d) (interval s n).
Proof.
  intros [HS HC] Hn Hf P Q d. fold P in HS, HC, Hf.
  pose proof (wf_bc P HS) as Hbc. pose proof (shape_bounds P HS) as Hsb.
  assert (Hin : forall i, s <= i < s + n -> i ∈ free_set P) by (intros i Hi; by apply Hf, elem_of_interval).
  pose proof (free_set_range P s (Hin s ltac:(lia))) as Hs0.
  pose proof (free_set_range P (s + n - 1) (Hin (s + n - 1) ltac:(lia))) as Hs1.
  destruct (clear_bits_spec (L2 P) s n (wf_w2 P HS)) as (C1 & C2 & C3); [lia..|].
  assert (Hspan : forall w, w ∈ span_words s n <-> s / 64 <= w <= (s + n - 1) / 64)
    by (intros w; apply elem_of_span; lia).
  pose proof (div_mod_64 s) as [Es Ms]. pose proof (div_mod_64 (s + n - 1)) as [Ee Me].
  assert (HQ : shape_upto (span_words s n) Q).
  { split; try apply HS; try done; unfold Q; cbn [L0 L1 L2 BlockCount FreeCount].
    - rewrite <- (wf_lens P HS). unfold lens. cbn [L0 L1 L2]. by rewrite C2.
    - intros w Hw Hnot. rewrite (wf_s1 P HS) by done. do 2 f_equal.
      apply word_ext; [by apply words_word, HS|by apply words_word|].
      intros b Hb. rewrite <- !bit_word, C3 by lia.
      rewrite Hspan in Hnot. pose proof (div64_add w b Hb).
      replace ((s <=? w * 64 + b) && (w * 64 + b <? s + n)) with false; [by destruct (bit _ _)|].
      symmetry. apply andb_false_iff. rewrite Z.leb_gt, Z.ltb_ge. lia.
    - intros w Hw (b & Hb & Ht)%word_nonzero_bit; [|done]. rewrite C3 in Ht by lia.
      apply andb_true_iff in Ht as [Ht _]. rewrite (wf_s1 P HS) by done.
      apply negb_true_iff, Z.eqb_neq, word_nonzero_bit; [apply HS|eauto].
    - intros i Hi. rewrite C3 by lia. by rewrite (wf_tail P HS). }
  destruct (propagate_shape _ Q HQ) as (R1 & R2 & R3 & R4).
  { apply Forall_forall. intros w Hw%Hspan. unfold Q. cbn [L2]. rewrite C2. lia. }
  set (Q' := foldl propagate_word Q (span_words s n)) in *.
  assert (HF : free_set Q' = free_set P ∖ interval s n).
  { apply set_eq. intros i. rewrite elem_of_difference, !elem_of_free_set by done.
    rewrite R2, elem_of_interval. unfold Q. cbn [L2]. destruct (decide (0 <= i)); [|intuition lia].
    rewrite C3, andb_true_iff, negb_true_iff, andb_false_iff, Z.leb_gt, Z.ltb_ge by done.
    intuition lia. }
  split_and!; try done. split; [done|]. cbn [a_pyr]. rewrite R4, HF. unfold Q. cbn [FreeCount].
  rewrite HC, size_difference by done.
  assert (size (interval s n) <= size (free_set P))%nat by (by apply subseteq_size).
  pose proof (size_free_set P HS). pose proof (size_interval s n ltac:(lia)) as Hsi.
  rewrite u64_small by (unfold is_u64; lia). lia.
Qed.

Lemma first_fit_not_zero s n b : 0 < n -> first_fit (s ∖ {[0]}) n b -> b <> 0.
Proof.
  intros Hn [Hf _] ->. specialize (Hf 0 ltac:(apply elem_of_interval; lia)). set_solver.
Qed.

Lemma interval_no_zero s n b : fits (s ∖ {[0]}) b n -> interval b n ⊆ s.
Proof. unfold fits. set_solver. Qed.

(** [tryAllocBlocks] is first fit over sets of blocks.  It refuses requests
    above the unshielded free count; otherwise it returns the lowest start of
    [n] consecutive free blocks (block 0 set aside) and takes exactly those, or
    returns 0 with nothing taken but block 0 when there is no such stretch. *)
Theorem tryAllocBlocks_first_fit a n a' b :
  wf (a_pyr a) -> 0 < n -> tryAllocBlocks a n = (a', b) ->
  let F := free_set (a_pyr a) ∖ {[0]} in
  (b = 0 /\ a' = a /\ (dataAvail a < n \/ BlockCount (a_pyr a) < n)) \/
  (b = 0 /\ took a a' {[0]} /\ forall s, ~ fits F s n) \/
  (b <> 0 /\ n <= dataAvail a /\ first_fit F n b /\ took a a' ({[0]} ∪ interval b n)).
Proof.
  intros HP Hn Ht F. unfold tryAllocBlocks in Ht.
  destruct ((dataAvail a <? n) || (BlockCount (a_pyr a) <? n)) eqn:Eg.
  { left. simplify_eq. split_and!; [done..|]. by rewrite orb_true_iff, !Z.ltb_lt in Eg. }
  right. rewrite orb_false_iff, !Z.ltb_ge in Eg.
  pose proof (reserveBlockZeroLocked_took a HP) as Hr.
  set (a0 := reserveBlockZeroLocked a) in *. pose proof Hr as (W0 & _ & F0 & _).
  pose proof (fit_scan (a_pyr a0) n (wf_shape _ W0) Hn) as Hs. rewrite F0 in Hs.
  destruct (scanMaximalRuns _ _ _ _) as [s l]. destruct Hs as [[Hl Hno]|[Hl Hff]].
  - rewrite (proj2 (Z.ltb_lt _ _)) in Ht by lia. simplify_eq. by left.
  - rewrite (proj2 (Z.ltb_ge _ _)) in Ht by lia. simplify_eq. right.
    split_and!; [by eapply first_fit_not_zero|lia|done|]. eapply took_trans; [done|].
    apply take_prefix_took; [done|done|]. rewrite F0. apply Hff.
Qed.

(** ** Harvesting runs *)

Definition run_interval (r : blockRun) : gset Z := interval (run_first r) (run_n r).
Definition runs_set (R : list blockRun) : gset Z := ⋃ (run_interval <$> R).

Lemma elem_of_runs_set R i : i ∈ runs_set R <-> exists r, r ∈ R /\ run_first r <= i < run_end r.
Proof.
  unfold runs_set. rewrite elem_of_union_list. setoid_rewrite list_elem_of_fmap.
  unfold run_end. split.
  - intros (X & (r & -> & Hr) & Hi%elem_of_interval). eauto.
  - intros (r & Hr & Hi). exists (run_interval r). split; [eauto|]. by apply elem_of_interval.
Qed.

Definition runs_total (R : list blockRun) : Z := foldr (fun r t => run_n r + t) 0 R.

(** The first [m] blocks of the runs of [R]. *)
Fixpoint gather (R : list blockRun) (m : Z) : list blockRun :=
  match R with
  | [] => []
  | r :: R => if m =? 0 then [] else
              if m <? run_n r then [mkRun (run_first r) m] else r :: gather R (m - run_n r)
  end.

Definition runs_ok (R : list blockRun) : Prop :=
  Forall (fun r => 0 < run_n r) R /\ StronglySorted apart R.

Lemma runs_ok_nil : runs_ok [].
Proof. split; constructor. Qed.

Lemma runs_ok_cons r R :
  runs_ok (r :: R) <-> 0 < run_n r /\ (forall r', r' ∈ R -> apart r r') /\ runs_ok R.
Proof.
  unfold runs_ok. rewrite Forall_cons, StronglySorted_cons, (Forall_forall (apart r)). tauto.
Qed.

Lemma harvest_visits R : forall acc m fin,
  Forall (fun r => 0 < run_n r) R -> 0 < m < 2 ^ 64 ->
  visits harvest 0 (acc, m) R fin -> fst fin = acc ++ gather R m.
Proof.
  induction R as [|r R IH]; intros acc m fin HR Hm Hv; cbn [gather].
  { inversion Hv; subst. by rewrite app_nil_r. }
  apply Forall_cons_1 in HR as [Hr HR]. rewrite (proj2 (Z.eqb_neq _ _)) by lia.
  inversion Hv as [|? ? ? ? Hbig|? ? ? st' ? _ Hh Hv'|? ? ? st' _ Hh]; subst; [lia| |];
    unfold harvest in Hh; rewrite (proj2 (Z.eqb_neq m 0)) in Hh by lia;
    destruct (Z.ltb_spec m (run_n r)); rewrite u64_small in Hh by (unfold is_u64; lia);
    simplify_eq.
  - lia.
  - apply IH in Hv'; [|done|lia]. rewrite Hv', <- app_assoc. by destruct r.
  - done.
  - assert (m - run_n r = 0) as -> by lia. destruct r, R; done.
Qed.

(** [G] holds the lowest [m] blocks of [R], as runs. *)
Definition lowest (R G : list blockRun) (m : Z) : Prop :=
  runs_ok G /\ runs_total G = Z.min m (runs_total R) /\
  (forall i, i ∈ runs_set G -> i ∈ runs_set R) /\
  (forall i j, i ∈ runs_set G -> j ∈ runs_set R -> j ∉ runs_set G -> i < j) /\
  (forall r, r ∈ G -> exists r', r' ∈ R /\ run_first r = run_first r').

Lemma runs_set_cons r R : runs_set (r :: R) = run_interval r ∪ runs_set R.
Proof. done. Qed.

Lemma runs_total_nonneg R : runs_ok R -> 0 <= runs_total R.
Proof.
  induction R as [|r R IH]; [done|]. intros (H & _ & HR)%runs_ok_cons. simpl. specialize (IH HR). lia.
Qed.

Lemma lowest_prefix r R m :
  runs_ok (r :: R) -> 0 < m < run_n r -> lowest (r :: R) [mkRun (run_first r) m] m.
Proof.
  intros (Hr & Hap & HR)%runs_ok_cons Hm. pose proof (runs_total_nonneg R HR). split_and!.
  - apply runs_ok_cons. split_and!; [simpl; lia|set_solver|apply runs_ok_nil].
  - simpl. lia.
  - intros i (x & ->%list_elem_of_singleton & Hi)%elem_of_runs_set. apply elem_of_runs_set.
    exists r. unfold run_end in *. simpl in Hi. split; [set_solver|lia].
  - intros i j (x & ->%list_elem_of_singleton & Hi)%elem_of_runs_set (y & Hy & Hj)%elem_of_runs_set Hn.
    rewrite elem_of_runs_set in Hn. unfold run_end in *. simpl in Hi.
    apply elem_of_cons in Hy as [->|Hy].
    + apply Z.nle_gt. intros Hle. apply Hn. exists (mkRun (run_first r) m).
      split; [set_solver|]. simpl. lia.
    + specialize (Hap y Hy). unfold apart, run_end in Hap. lia.
  - intros x ->%list_elem_of_singleton. exists r. split; [set_solver|done].
Qed.

Lemma lowest_cons r R G m :
  runs_ok (r :: R) -> lowest R G (m - run_n r) -> run_n r <= m -> lowest (r :: R) (r :: G) m.
Proof.
  intros (Hr & Hap & HR)%runs_ok_cons (I1 & I2 & I3 & I4 & I5) Hm. split_and!.
  - apply runs_ok_cons. split_and!; [done| |done]. intros x Hx.
    destruct (I5 x Hx) as (y & Hy & E). specialize (Hap y Hy). unfold apart in *. lia.
  - simpl. lia.
  - intros i. rewrite !runs_set_cons. set_solver.
  - intros i j. rewrite !runs_set_cons, !elem_of_union. intros [Hi|Hi] [Hj|Hj] Hn; try tauto.
    + unfold run_interval in Hi. rewrite elem_of_interval in Hi.
      apply elem_of_runs_set in Hj as (y & Hy & Hj). specialize (Hap y Hy).
      unfold apart, run_end in Hap. lia.
    + apply I4; tauto.
  - intros x [->|Hx]%elem_of_cons; [exists r; set_solver|].
    destruct (I5 x Hx) as (y & Hy & E). exists y. set_solver.
Qed.

Lemma gather_lowest R : forall m, runs_ok R -> 0 <= m -> lowest R (gather R m) m.
Proof.
  induction R as [|r R IH]; intros m HR Hm; cbn [gather].
  { split_and!; [apply runs_ok_nil|simpl; lia|done|set_solver|set_solver]. }
  pose proof (runs_total_nonneg _ HR). pose proof HR as (Hr & _ & HR')%runs_ok_cons.
  destruct (Z.eqb_spec m 0) as [->|Hm0].
  { split_and!; [apply runs_ok_nil|simpl in *; lia| | |].
    - by intros i (x & ?%elem_of_nil & _)%elem_of_runs_set.
    - by intros i j (x & ?%elem_of_nil & _)%elem_of_runs_set.
    - by intros x ?%elem_of_nil. }
  destruct (Z.ltb_spec m (run_n r)); [by apply lowest_prefix; [|lia]|].
  apply lowest_cons; [done| |done]. apply IH; [done|lia].
Qed.

(** ** Taking the harvested runs *)

Lemma take_mask_u64 r w : is_u64 (take_mask r w).
Proof.
  assert (Hm : forall m, is_u64 (Z.ldiff (not64 0) m)).
  { intros m. apply is_u64_testbit. split; [apply Z.ldiff_nonneg; left; done|].
    intros b Hb. rewrite Z.ldiff_spec. change (not64 0) with (Z.ones 64).
    by rewrite Z.testbit_ones_nonneg, (proj2 (Z.ltb_ge _ _)) by lia. }
  assert (H0 : is_u64 (not64 0)) by (unfold is_u64; done).
  assert (Hl : forall a m, is_u64 a -> is_u64 (Z.land a m)).
  { intros a m [A1 A2]%is_u64_testbit. apply is_u64_testbit.
    split; [apply Z.land_nonneg; auto|]. intros b Hb. by rewrite Z.land_spec, A2. }
  unfold take_mask. repeat case_match; auto.
Qed.

Lemma take_mask_spec r w b :
  0 <= run_first r -> 0 < run_n r -> run_end r < 2 ^ 64 -> 0 <= b < 64 -> 0 <= w ->
  run_first r / 64 <= w <= (run_end r - 1) / 64 ->
  Z.testbit (take_mask r w) b = true <-> run_first r <= w * 64 + b < run_end r.
Proof.
  unfold run_end. intros H1 H2 H3 Hb Hw0 Hw. unfold take_mask.
  pose proof (div_mod_64 (run_first r)). pose proof (div_mod_64 (run_first r + run_n r - 1)).
  rewrite (u64_small (_ - _ * 64)) by (unfold is_u64; lia).
  change (not64 0) with (Z.ones 64).
  destruct (Z.ltb_spec (w * 64) (run_first r)) as [E1|E1];
    [rewrite (proj2 (Z.ltb_lt 0 _)) by lia | rewrite (proj2 (Z.ltb_ge 0 0)) by lia];
    destruct (Z.ltb_spec (run_first r + run_n r - w * 64) 64) as [E2|E2];
    rewrite ?low_mask by lia; rewrite ?Z.land_spec, ?Z.ldiff_spec;
    rewrite !Z.testbit_ones_nonneg by lia;
    rewrite ?andb_true_iff, ?negb_true_iff, ?Z.ltb_lt, ?Z.ltb_ge; lia.
Qed.

(** Blocks taken with the counter still to be adjusted. *)
Definition cleared (a a' : Allocator) (s : gset Z) : Prop :=
  shape (a_pyr a') /\ BlockCount (a_pyr a') = BlockCount (a_pyr a) /\
  FreeCount (a_pyr a') = FreeCount (a_pyr a) /\
  free_set (a_pyr a') = free_set (a_pyr a) ∖ s /\ a_shield a' = a_shield a.

Lemma cleared_trans a a1 a2 s1 s2 : cleared a a1 s1 -> cleared a1 a2 s2 -> cleared a a2 (s1 ∪ s2).
Proof.
  intros (_ & B1 & C1 & F1 & S1) (W2 & B2 & C2 & F2 & S2).
  split_and!; [done|congruence|congruence| |congruence]. rewrite F2, F1. set_solver.
Qed.

Lemma clear_mask_shape P w m fc :
  shape P -> 0 <= w < Z.of_nat (length (L2 P)) ->
  let Q := set_word P w (Z.ldiff (word (L2 P) w) m) fc in
  shape Q /\ free_set Q = free_set P ∖ word_bits w m.
Proof.
  intros HS Hw Q. assert (HQ : shape Q).
  { apply set_word_shape; [done|done| |].
    - pose proof (words_word (L2 P) w (wf_w2 P HS)) as [A1 A2]%is_u64_testbit.
      apply is_u64_testbit. split; [apply Z.ldiff_nonneg; lia|].
      intros b Hb. by rewrite Z.ldiff_spec, A2.
    - intros b Hb Ht. rewrite Z.ldiff_spec, <- bit_word by done. by rewrite (wf_tail P HS). }
  split; [done|]. apply set_eq. intros i. unfold Q. rewrite elem_of_free_set_set_word by done.
  rewrite elem_of_difference, elem_of_word_bits.
  case_decide as Ei; [subst w|intuition congruence].
  rewrite (elem_of_free_set P HS). unfold bit. rewrite Z.ldiff_spec, andb_true_iff, negb_true_iff.
  destruct (Z.testbit m (i mod 64)); intuition congruence.
Qed.

(** The part of a run in word [w]. *)
Definition run_word (r : blockRun) (w : Z) : gset Z := filter (fun i => i / 64 = w) (run_interval r).

Lemma word_bits_take_mask r w :
  0 <= run_first r -> 0 < run_n r -> run_end r < 2 ^ 64 ->
  run_first r / 64 <= w <= (run_end r - 1) / 64 ->
  word_bits w (take_mask r w) = run_word r w.
Proof.
  intros H0 Hn He Hw. pose proof (div_mod_64 (run_first r)) as [D1 D2].
  apply set_eq. intros i. unfold run_word. rewrite elem_of_filter, elem_of_word_bits.
  unfold run_interval. rewrite elem_of_interval. pose proof (div_mod_64 i) as [E M].
  destruct (decide (i / 64 = w)) as [<-|]; [|intuition congruence].
  rewrite take_mask_spec by lia. unfold run_end. intuition lia.
Qed.

Lemma take_word_cleared r a w :
  shape (a_pyr a) -> 0 < run_n r -> run_word r w ⊆ free_set (a_pyr a) ->
  0 <= run_first r -> run_end r <= BlockCount (a_pyr a) ->
  run_first r / 64 <= w <= (run_end r - 1) / 64 ->
  cleared a (take_word r a w) (run_word r w).
Proof.
  intros HS Hn Hsub H0 He Hw. set (P := a_pyr a) in *.
  pose proof (wf_bc P HS) as Hbc. pose proof (shape_bounds P HS) as Hsb.
  pose proof (div_mod_64 (run_first r)) as [D1 D2]. pose proof (div_mod_64 (run_end r - 1)) as [D3 D4].
  assert (Hw' : 0 <= w < Z.of_nat (length (L2 P))) by (unfold run_end in *; lia).
  rewrite <- word_bits_take_mask in * by lia.
  assert (Hne : word (L2 P) w <> 0).
  { set (i := Z.max (run_first r) (w * 64)). intros E.
    assert (Hi : i ∈ free_set P).
    { apply Hsub. rewrite word_bits_take_mask by lia. apply elem_of_filter.
      unfold run_interval. rewrite elem_of_interval. pose proof (div_mod_64 i).
      unfold run_end in *. lia. }
    apply (elem_of_free_set P HS) in Hi as [_ Hi]. pose proof (div_mod_64 i). unfold bit in Hi.
    replace (i / 64) with w in Hi by (unfold run_end in *; lia). by rewrite E, Z.bits_0 in Hi. }
  pose proof (put_l2_set_word P w (Z.ldiff (word (L2 P) w) (take_mask r w)) (FreeCount P) HS Hw' Hne) as E.
  assert (Ep : a_pyr (take_word r a w) = set_word P w (Z.ldiff (word (L2 P) w) (take_mask r w)) (FreeCount P)).
  { rewrite <- E. unfold take_word, propagate_word, put_l2. cbn [a_pyr]. fold P.
    cbn [L2 set_l2]. rewrite word_insert, decide_True by lia. done. }
  destruct (clear_mask_shape P w (take_mask r w) (FreeCount P) HS Hw') as [HQ HF].
  unfold cleared. rewrite Ep. by split_and!.
Qed.

Lemma take_words_cleared r ws : forall a,
  shape (a_pyr a) -> 0 < run_n r -> 0 <= run_first r -> run_end r <= BlockCount (a_pyr a) ->
  NoDup ws -> Forall (fun w => run_first r / 64 <= w <= (run_end r - 1) / 64) ws ->
  (forall w, w ∈ ws -> run_word r w ⊆ free_set (a_pyr a)) ->
  cleared a (foldl (take_word r) a ws) (⋃ (run_word r <$> ws)).
Proof.
  induction ws as [|w ws IH]; intros a HS Hn H0 He Hnd Hws Hsub; cbn [foldl].
  { split_and!; try done. set_solver. }
  apply NoDup_cons in Hnd as [Hnot Hnd]. apply Forall_cons_1 in Hws as [Hw Hws].
  pose proof (take_word_cleared r a w HS Hn (Hsub w ltac:(left)) H0 He Hw) as Hc.
  eapply (cleared_trans _ _ _ (run_word r w)); [exact Hc|]. destruct Hc as (C1 & C2 & _ & C4 & _).
  apply IH; [done|done|done|by rewrite C2|done|done|].
  intros w' Hw'. rewrite C4. intros i Hi. apply elem_of_difference. split.
  - apply (Hsub w'); [by right|done].
  - unfold run_word in *. rewrite elem_of_filter in *. intros [<- _]. destruct Hi as [<- _]. done.
Qed.

Lemma take_run_cleared a r :
  shape (a_pyr a) -> 0 < run_n r -> run_interval r ⊆ free_set (a_pyr a) ->
  cleared a (take_run a r) (run_interval r).
Proof.
  intros HS Hn Hsub. pose proof (wf_bc _ HS) as Hbc.
  assert (Hin : forall i, run_first r <= i < run_end r -> i ∈ free_set (a_pyr a))
    by (intros i Hi; by apply Hsub, elem_of_interval).
  pose proof (free_set_range _ _ (Hin (run_first r) ltac:(unfold run_end; lia))) as H0.
  pose proof (free_set_range _ _ (Hin (run_end r - 1) ltac:(unfold run_end; lia))) as H1.
  assert (Hspan : forall w, w ∈ span_words (run_first r) (run_n r) <->
    run_first r / 64 <= w <= (run_end r - 1) / 64) by (intros w; apply elem_of_span; unfold run_end in *; lia).
  assert (E : run_interval r = ⋃ (run_word r <$> span_words (run_first r) (run_n r))).
  { apply set_eq. intros i. rewrite elem_of_union_list. setoid_rewrite list_elem_of_fmap. split.
    - intros Hi. exists (run_word r (i / 64)). split; [|by apply elem_of_filter].
      exists (i / 64). split; [done|]. apply Hspan. apply elem_of_interval in Hi.
      pose proof (div_mod_64 i). pose proof (div_mod_64 (run_first r)).
      pose proof (div_mod_64 (run_end r - 1)). unfold run_end in *. lia.
    - intros (X & (w & -> & _) & [_ Hi]%elem_of_filter). done. }
  rewrite E at 1. apply take_words_cleared; try done; [lia|lia|apply NoDup_seqZ| |].
  - apply Forall_forall. intros w. by rewrite Hspan.
  - intros w _ i [_ Hi]%elem_of_filter. by apply Hsub.
Qed.

Lemma runs_disjoint r R : runs_ok (r :: R) -> run_interval r ## runs_set R.
Proof.
  intros (Hr & Hap & HR)%runs_ok_cons i Hi (y & Hy & Hj)%elem_of_runs_set.
  apply elem_of_interval in Hi. specialize (Hap y Hy). unfold apart, run_end in Hap. lia.
Qed.

Lemma size_runs_set R : runs_ok R -> Z.of_nat (size (runs_set R)) = runs_total R.
Proof.
  induction R as [|r R IH]; intros HR; [done|]. pose proof (runs_disjoint r R HR).
  apply runs_ok_cons in HR as (Hr & _ & HR). rewrite runs_set_cons, size_union by done.
  rewrite Nat2Z.inj_add, IH by done. unfold run_interval. rewrite size_interval by lia. done.
Qed.

Lemma take_runs_cleared R : forall a,
  shape (a_pyr a) -> runs_ok R -> runs_set R ⊆ free_set (a_pyr a) ->
  cleared a (foldl take_run a R) (runs_set R).
Proof.
  induction R as [|r R IH]; intros a HS HR Hsub; cbn [foldl].
  { split_and!; try done. change (runs_set []) with (∅ : gset Z). by rewrite difference_empty_L. }
  pose proof (runs_disjoint r R HR) as Hd. apply runs_ok_cons in HR as (Hr & _ & HR).
  rewrite runs_set_cons in Hsub |- *.
  pose proof (take_run_cleared a r HS Hr ltac:(set_solver)) as Hc.
  eapply cleared_trans; [exact Hc|]. destruct Hc as (C1 & _ & _ & C4 & _).
  apply IH; [done|done|]. rewrite C4. set_solver.
Qed.

Lemma total_small R : forall t,
  runs_ok R -> 0 <= t -> t + runs_total R < 2 ^ 64 ->
  foldl (fun t r => u64 (t + run_n r)) t R = t + runs_total R.
Proof.
  induction R as [|r R IH]; intros t HR Ht Hb; cbn [foldl].
  - simpl. lia.
  - apply runs_ok_cons in HR as (Hr & _ & HR). pose proof (runs_total_nonneg R HR). simpl in Hb |- *.
    rewrite (u64_small (t + run_n r)) by (unfold is_u64; lia). rewrite IH by (done || lia). lia.
Qed.

Lemma reserve_noop a : rt_ok a -> reserveBlockZeroLocked a = a.
Proof.
  intros (HP & H0 & _). unfold reserveBlockZeroLocked. set (x := word (L2 (a_pyr a)) 0).
  change (Z.land x 1) with (Z.land x (shl64 1 0)). rewrite land_shl64 by lia.
  destruct (Z.testbit x 0) eqn:Eb; [|done]. exfalso. apply H0.
  apply (elem_of_free_set _ (wf_shape _ HP)). done.
Qed.

(** The marks of a word span, and of a list of runs. *)
Lemma elem_of_marks ws : forall d k,
  k ∈ foldl (fun d w => markL2Word w d) d ws <-> k ∈ d \/ exists w, w ∈ ws /\ k = w / wpb.
Proof.
  induction ws as [|w ws IH]; intros d k; cbn [foldl].
  - split; [auto|]. intros [?|(w & ?%elem_of_nil & _)]; done.
  - rewrite IH. unfold markL2Word. rewrite elem_of_union, elem_of_singleton. setoid_rewrite elem_of_cons.
    split; [naive_solver|]. intros [?|(w' & [->|?] & ?)]; eauto.
Qed.

Lemma take_words_l2Dirty r ws : forall a,
  a_l2Dirty (foldl (take_word r) a ws) = foldl (fun d w => markL2Word w d) (a_l2Dirty a) ws.
Proof. induction ws as [|w ws IH]; intros a; cbn [foldl]; [done|]. by rewrite IH. Qed.

Lemma take_runs_l2Dirty R : forall a k,
  k ∈ a_l2Dirty (foldl take_run a R) <->
  k ∈ a_l2Dirty a \/ exists r w, r ∈ R /\ w ∈ span_words (run_first r) (run_n r) /\ k = w / wpb.
Proof.
  induction R as [|r R IH]; intros a k; cbn [foldl].
  - split; [auto|]. intros [?|(r & w & ?%elem_of_nil & _)]; done.
  - rewrite IH. unfold take_run. rewrite take_words_l2Dirty, elem_of_marks.
    setoid_rewrite elem_of_cons. split; [naive_solver|].
    intros [?|(r' & w & [->|?] & ? & ?)]; eauto 10.
Qed.

Lemma scan_harvest P m :
  wf P -> 0 < m <= FreeCount P ->
  let R := fst (scanMaximalRuns harvest 0 P ([], m)) in
  runs_ok R /\ runs_total R = m /\ runs_set R ⊆ free_set P /\
  forall i j, i ∈ runs_set R -> j ∈ free_set P -> j ∉ runs_set R -> i < j.
Proof.
  intros [HS HC] Hm R. pose proof (free_runs_maximal P HS) as (M1 & M2 & M3).
  pose proof (wf_bc P HS). pose proof (size_free_set P HS).
  assert (EF : free_set P = runs_set (free_runs P)).
  { apply set_eq. intros i. by rewrite M3, elem_of_runs_set. }
  assert (Hok : runs_ok (free_runs P)) by done.
  assert (ER : R = gather (free_runs P) m).
  { apply (harvest_visits _ [] m (scanMaximalRuns harvest 0 P ([], m)) M1); [lia|].
    by apply scanMaximalRuns_visits. }
  destruct (gather_lowest _ m Hok ltac:(lia)) as (G1 & G2 & G3 & G4 & _).
  rewrite <- ER in *. rewrite <- (size_runs_set (free_runs P)), <- EF in G2 by done. rewrite EF in *.
  split_and!; [done|lia|set_solver|done].
Qed.

Lemma tryAllocRunsUpTo_spec a n a' runs :
  rt_ok a -> 0 < n < 2 ^ 64 -> tryAllocRunsUpTo a n = (a', runs) ->
  let F := free_set (a_pyr a) in
  runs_ok runs /\ runs_total runs = Z.min n (dataAvail a) /\ runs_set runs ⊆ F /\
  (forall i j, i ∈ runs_set runs -> j ∈ F -> j ∉ runs_set runs -> i < j) /\
  took a a' (runs_set runs) /\
  (runs = [] /\ a' = a \/
   runs <> [] /\ a_dirty a' = true /\ a_l2Dirty a' = a_l2Dirty (foldl take_run a runs)).
Proof.
  intros Ha Hn Ht F. pose proof (dataAvail_bounds a Ha) as (D1 & D2 & _).
  pose proof Ha as (HP & _ & _). unfold tryAllocRunsUpTo in Ht.
  destruct (Z.eqb_spec (dataAvail a) 0) as [E0|E0].
  { simplify_eq. change (runs_set []) with (∅ : gset Z).
    split_and!; [apply runs_ok_nil|simpl; lia|set_solver|set_solver| |by left].
    apply took_refl; [done|set_solver]. }
  replace (if dataAvail a <? n then dataAvail a else n) with (Z.min n (dataAvail a)) in Ht
    by (destruct (Z.ltb_spec (dataAvail a) n); lia).
  rewrite (proj2 (Z.ltb_ge _ _)) in Ht by lia. rewrite reserve_noop in Ht by done.
  pose proof (scan_harvest (a_pyr a) (Z.min n (dataAvail a)) HP ltac:(lia)) as (S1 & S2 & S3 & S4).
  destruct (scanMaximalRuns harvest 0 _ _) as [R rem]. cbn [fst] in *.
  destruct R as [|r R]; [simpl in S2; lia|].
  rewrite (total_small (r :: R)) in Ht by (done || lia).
  pose proof (take_runs_cleared (r :: R) a (wf_shape _ HP) S1 S3) as (C1 & C2 & C3 & C4 & C5).
  set (a1 := foldl take_run _ _) in *. injection Ht as <- <-. split_and!; [done..| |by right].
  split_and!; cbn [a_pyr BlockCount a_shield]; [|done| |done].
  - assert (HS : shape (mkPyramid (L0 (a_pyr a1)) (L1 (a_pyr a1)) (L2 (a_pyr a1)) (BlockCount (a_pyr a1))
      (u64 (FreeCount (a_pyr a1) - (0 + runs_total (r :: R)))))) by (destruct C1; by split).
    split; [done|]. cbn [FreeCount].
    change (free_set (mkPyramid _ _ _ _ _)) with (free_set (a_pyr a1)).
    rewrite C4, C3, size_difference by done.
    change (run_n r + runs_total R) with (runs_total (r :: R)). rewrite u64_small by (unfold is_u64; lia).
    rewrite (wf_count _ HP). pose proof (size_runs_set _ S1). pose proof (subseteq_size _ _ S3). lia.
  - change (free_set (mkPyramid _ _ _ _ _)) with (free_set (a_pyr a1)). by rewrite C4.
Qed.

(** [tryAllocRunsUpTo] takes the lowest blocks there are, as many as asked
    for or as the shield leaves, and returns them as ascending, nonadjacent,
    nonempty runs; nothing else of the free set changes. *)
Theorem tryAllocRunsUpTo_lowest a n a' runs :
  rt_ok a -> 0 < n < 2 ^ 64 -> tryAllocRunsUpTo a n = (a', runs) ->
  let F := free_set (a_pyr a) in
  runs_ok runs /\ runs_total runs = Z.min n (dataAvail a) /\ runs_set runs ⊆ F /\
  (forall i j, i ∈ runs_set runs -> j ∈ F -> j ∉ runs_set runs -> i < j) /\
  took a a' (runs_set runs).
Proof.
  intros Ha Hn Ht F.
  destruct (tryAllocRunsUpTo_spec a n a' runs Ha Hn Ht) as (H1 & H2 & H3 & H4 & H5 & _). by split_and!.
Qed.

(** C11: [scanMaximalRuns] finds the free space.  For every visitor, visiting the
    maximal runs of free blocks in ascending order ends in the state the word
    scan returns; with [minLen] set, up to the first run that reaches it. *)
Theorem scanMaximalRuns_correct {St} (visit : St -> Z -> Z -> St * bool)
    (minLen : Z) (P : pyramid) (st : St) :
  shape P ->
  exists R, maximal_runs (fun i => i ∈ free_set P) R /\
    visits visit minLen st R (scanMaximalRuns visit minLen P st).
Proof.
  intros HS. exists (free_runs P). split; [by apply free_runs_maximal|by apply scanMaximalRuns_visits].
Qed.

Definition collect (l : list (Z * Z)) (s n : Z) : list (Z * Z) * bool := (l ++ [(s, n)], true).

Lemma scanMaximalRuns_correct_witness :
  scanMaximalRuns collect 0 sample_pyramid [] = [(1, 2); (4, 196)] /\
  exists R, maximal_runs (fun i => i ∈ free_set sample_pyramid) R /\
    visits collect 0 [] R [(1, 2); (4, 196)].
Proof.
  assert (E : scanMaximalRuns collect 0 sample_pyramid [] = [(1, 2); (4, 196)]) by (vm_compute; reflexivity).
  split; [done|].
  destruct (scanMaximalRuns_correct collect 0 sample_pyramid [] (wf_shape _ (proj1 sample_alloc_ok)))
    as (R & HR & Hv). exists R. split; [done|]. by rewrite E in Hv.
Defined.

Lemma tryAllocBlocks_first_fit_witness :
  snd (tryAllocBlocks sample_alloc 5) = 4 /\ first_fit (free_set sample_pyramid ∖ {[0]}) 5 4.
Proof.
  assert (E1 : snd (tryAllocBlocks sample_alloc 5) = 4) by (vm_compute; reflexivity).
  destruct (tryAllocBlocks sample_alloc 5) as [a' b] eqn:E. cbn [snd] in *. subst b. split; [done|].
  destruct (tryAllocBlocks_first_fit sample_alloc 5 a' 4 (proj1 sample_alloc_ok) ltac:(lia) E)
    as [(? & _)|[(? & _)|(_ & _ & Hf & _)]]; done.
Defined.

Lemma tryAllocRunsUpTo_lowest_witness :
  snd (tryAllocRunsUpTo sample_alloc 70) = [mkRun 1 2; mkRun 4 68] /\
  took sample_alloc (fst (tryAllocRunsUpTo sample_alloc 70)) (runs_set [mkRun 1 2; mkRun 4 68]).
Proof.
  assert (E1 : snd (tryAllocRunsUpTo sample_alloc 70) = [mkRun 1 2; mkRun 4 68]) by (vm_compute; reflexivity).
  destruct (tryAllocRunsUpTo sample_alloc 70) as [a' R] eqn:E. cbn [snd] in *. subst R. split; [done|]. apply (tryAllocRunsUpTo_lowest sample_alloc 70 a' _ sample_alloc_ok ltac:(lia) E).
Defined.
