(* ===== verification/AllocSync.v ===== *)
(** * Writing the allocator back (fuse/fs.go: Sync)

    The runtime allocator records the leaf blocks it changed and [Sync] writes
    only those, with the two summary levels and the header.  The theorem of this
    file is that this loses nothing: after any sequence of operations, with any
    number of failed [Sync]s in between, a successful [Sync] leaves on disk the
    same pool that [WriteBlocks] would write, and opening it gives back the
    allocator that was in memory. *)

From stdpp Require Import base numbers list option gmap.
From Stdlib Require Import ZArith Lia.
From S2P Require Import Prelude Codec Bits AllocCore Allocator Extents Shield AllocRuntime AllocRuns Device.

Local Open Scope Z_scope.

Inductive sync_label :=
| SyncL0
| SyncL1
| SyncL2
| SyncL2Block (blk : Z)
| SyncHeader.

(** [writeDirty]: all the blocks of a level, from [offset] on. *)
Definition writeDirty (lab : sync_label) (offset : Z) (ws : list Z) : list (sync_label * Z * list Z) :=
  imap (fun i buf => (lab, u64 (offset + Z.of_nat i), buf)) (PackAllocWords ws BlockSize).

(** The block of a changed part of the leaf. *)
Definition l2_block (pos : Z) (l2 : list Z) (blk : Z) : list (sync_label * Z * list Z) :=
  let first := blk * wpb in
  if Z.of_nat (length l2) <=? first then [] else
  let last := Z.min (first + wpb) (Z.of_nat (length l2)) in
  match PackAllocWords (take (Z.to_nat (last - first)) (drop (Z.to_nat first) l2)) BlockSize with
  | buf :: _ => [(SyncL2Block blk, u64 (pos + blk), buf)]
  | [] => []
  end.

(** The writes of [Sync], in order.  [order] is the order in which the map of
    dirty blocks is iterated. *)
Definition sync_writes (poolStart : Z) (order : gset Z -> list Z) (a : Allocator)
    : list (sync_label * Z * list Z) :=
  let P := a_pyr a in
  let l0Blocks := u64 (Z.of_nat (length (L0 P)) + wpb - 1) / wpb in
  let l1Blocks := u64 (Z.of_nat (length (L1 P)) + wpb - 1) / wpb in
  let pos := u64 (poolStart + 1) in
  let pos1 := u64 (pos + l0Blocks) in
  let pos2 := u64 (pos1 + l1Blocks) in
  let ahData := match MarshalBinary (pool_header P) with Ret d => d | _ => [] end in
  writeDirty SyncL0 pos (L0 P) ++ writeDirty SyncL1 pos1 (L1 P) ++
  (if decide (a_l2Dirty a = ∅) then writeDirty SyncL2 pos2 (L2 P)
   else concat (l2_block pos2 (L2 P) <$> order (a_l2Dirty a))) ++
  [(SyncHeader, poolStart, blit 0 (take 48 ahData) (zeros (Z.to_nat BlockSize)))].

Definition Sync (os : Z -> option (list Z)) (poolStart : Z) (order : gset Z -> list Z)
    (a : Allocator) (d : gmap Z (list Z)) : Allocator * gmap Z (list Z) * option (sync_label * dev_error) :=
  if a_dirty a then
    match write_all os d (sync_writes poolStart order a) with
    | (d', None) => (mkAllocator (a_pyr a) (a_shield a) false ∅, d', None)
    | (d', Some e) => (a, d', Some e)
    end
  else (a, d, None).

(** ** The image of the pool *)

Definition image (P : pyramid) : list (list Z) :=
  header_block P :: level_image (L0 P) ++ level_image (L1 P) ++ level_image (L2 P).

(** Where the leaf begins in the image. *)
Definition leaf_at (P : pyramid) : Z :=
  1 + level_blocks (Z.of_nat (length (L0 P))) + level_blocks (Z.of_nat (length (L1 P))).

Lemma image_leaf P k :
  0 <= k < level_blocks (Z.of_nat (length (L2 P))) ->
  image P !! Z.to_nat (leaf_at P + k) = Some (pack_chunk (chunk (L2 P) k)).
Proof.
  intros Hk. pose proof (length_level_image (L0 P)) as I0. pose proof (length_level_image (L1 P)) as I1.
  pose proof (image_lookup P k (L2 P) (header_block P :: level_image (L0 P) ++ level_image (L1 P)) []) as Hi.
  rewrite <- Hi; [|by rewrite app_nil_r; simpl; rewrite <- app_assoc|done].
  unfold image, leaf_at. f_equal. cbn [length]. rewrite length_app. lia.
Qed.

Section writes.
Context (pool : Z) (a : Allocator).
Let P := a_pyr a.
Context (HP : wf P) (Hbc : BlockCount P <= 2 ^ 51).
Context (Hpool : 0 <= pool) (Hfit : (pool + NbBlocks P) * 4096 < 2 ^ 63).

Definition image_at (n : Z) : option (list Z) :=
  if decide (pool <= n) then image P !! Z.to_nat (n - pool) else None.

Lemma writeDirty_image lab ws off :
  0 <= off -> Z.of_nat (length ws) < 2 ^ 60 -> off + level_blocks (Z.of_nat (length ws)) < 2 ^ 64 ->
  writeDirty lab off ws = imap (fun i buf => (lab, off + Z.of_nat i, buf)) (level_image ws).
Proof.
  intros H0 Hlen Hoff. pose proof (length_level_image ws) as Hl.
  unfold writeDirty, BlockSize. rewrite PackAllocWords_chunks by done. fold (level_image ws).
  apply imap_ext. intros i x Hi%lookup_lt_Some. rewrite u64_small; [done|]. unfold is_u64. lia.
Qed.

Lemma l2_block_image blk :
  let pos2 := pool + leaf_at P in 0 <= blk ->
  l2_block pos2 (L2 P) blk
  = if decide (blk < level_blocks (Z.of_nat (length (L2 P))))
    then [(SyncL2Block blk, pos2 + blk, pack_chunk (chunk (L2 P) blk))] else [].
Proof using HP Hbc Hpool Hfit.
  intros pos2 Hb. pose proof (level_lens P HP Hbc) as (N0 & N1 & N2).
  pose proof (NbBlocks_eq P HP Hbc) as Hnb. unfold l2_block, wpb.
  pose proof (level_blocks_bounds (Z.of_nat (length (L0 P)))).
  pose proof (level_blocks_bounds (Z.of_nat (length (L1 P)))).
  pose proof (level_blocks_bounds (Z.of_nat (length (L2 P)))).
  destruct (Z.leb_spec (Z.of_nat (length (L2 P))) (blk * 512)); case_decide; try lia; [done|].
  set (c := take _ _).
  assert (Ec : c = chunk (L2 P) blk).
  { unfold c, chunk. replace (512 * blk) with (blk * 512) by lia.
    destruct (Z.min_spec (blk * 512 + 512) (Z.of_nat (length (L2 P)))) as [[? ->]|[? ->]].
    - f_equal. lia.
    - rewrite !take_ge; [done|rewrite length_drop; lia..]. }
  assert (Hc : 0 < Z.of_nat (length c) <= 512).
  { unfold c. rewrite length_take, length_drop. lia. }
  unfold BlockSize. rewrite PackAllocWords_chunks by lia.
  assert (El : level_blocks (Z.of_nat (length c)) = 1).
  { pose proof (level_blocks_bounds (Z.of_nat (length c))). lia. }
  rewrite El. change (seqZ 0 1) with [0]. cbn [fmap list_fmap].
  unfold chunk at 1. change (Z.to_nat (512 * 0)) with 0%nat.
  rewrite drop_0, take_ge by lia. rewrite Ec, u64_small; [done|]. unfold is_u64, pos2, leaf_at. lia.
Qed.

Lemma length_image : Z.of_nat (length (image P)) = NbBlocks P.
Proof using HP Hbc.
  rewrite (NbBlocks_eq P HP Hbc). unfold image. cbn [length]. rewrite !length_app.
  pose proof (length_level_image (L0 P)). pose proof (length_level_image (L1 P)).
  pose proof (length_level_image (L2 P)). lia.
Qed.

(** Each block of the image is in one of the parts. *)
Lemma image_parts i buf :
  image P !! i = Some buf ->
  (i = 0%nat /\ buf = header_block P) \/
  (exists j, level_image (L0 P) !! j = Some buf /\ i = (1 + j)%nat) \/
  (exists j, level_image (L1 P) !! j = Some buf /\ i = (1 + length (level_image (L0 P)) + j)%nat) \/
  (exists j, level_image (L2 P) !! j = Some buf /\ Z.of_nat i = leaf_at P + Z.of_nat j).
Proof.
  intros Hi. destruct i as [|i]; simpl in Hi; [injection Hi as <-; by left|]. right.
  pose proof (length_level_image (L0 P)). pose proof (length_level_image (L1 P)).
  apply lookup_app_Some in Hi as [?|[? [?|[? ?]]%lookup_app_Some]].
  - left. eauto.
  - right. left. eexists. split; [done|]. lia.
  - right. right. eexists. split; [done|]. unfold leaf_at. lia.
Qed.

Context (order : gset Z -> list Z).
Context (Horder : forall s, order s ≡ₚ elements s).

Lemma sync_writes_eq :
  sync_writes pool order a
  = imap (fun i buf => (SyncL0, pool + 1 + Z.of_nat i, buf)) (level_image (L0 P)) ++
    imap (fun i buf => (SyncL1, pool + 1 + level_blocks (Z.of_nat (length (L0 P))) + Z.of_nat i, buf))
      (level_image (L1 P)) ++
    (if decide (a_l2Dirty a = ∅)
     then imap (fun i buf => (SyncL2, pool + leaf_at P + Z.of_nat i, buf)) (level_image (L2 P))
     else concat (l2_block (pool + leaf_at P) (L2 P) <$> order (a_l2Dirty a))) ++
    [(SyncHeader, pool, header_block P)].
Proof using HP Hbc Hpool Hfit.
  pose proof (level_lens P HP Hbc) as (N0 & N1 & N2). pose proof (NbBlocks_eq P HP Hbc) as Hnb.
  pose proof (level_blocks_bounds (Z.of_nat (length (L0 P)))) as B0.
  pose proof (level_blocks_bounds (Z.of_nat (length (L1 P)))) as B1.
  pose proof (level_blocks_bounds (Z.of_nat (length (L2 P)))) as B2.
  pose proof (length_level_image (L0 P)) as I0. pose proof (length_level_image (L1 P)) as I1.
  unfold sync_writes, wpb. fold P.
  rewrite !(u64_small (Z.of_nat _ + 512 - 1)) by (unfold is_u64; lia).
  replace (Z.of_nat (length (L0 P)) + 512 - 1) with (Z.of_nat (length (L0 P)) + 511) by lia.
  replace (Z.of_nat (length (L1 P)) + 512 - 1) with (Z.of_nat (length (L1 P)) + 511) by lia.
  fold (level_blocks (Z.of_nat (length (L0 P)))). fold (level_blocks (Z.of_nat (length (L1 P)))).
  rewrite (u64_small (pool + 1)) by (unfold is_u64; lia).
  rewrite (u64_small (pool + 1 + _)) by (unfold is_u64; lia).
  rewrite (u64_small (pool + 1 + _ + _)) by (unfold is_u64; lia).
  replace (pool + 1 + level_blocks (Z.of_nat (length (L0 P))) + level_blocks (Z.of_nat (length (L1 P))))
    with (pool + leaf_at P) by (unfold leaf_at; lia).
  rewrite !writeDirty_image by (unfold leaf_at; lia).
  rewrite MarshalBinary_encode by (by apply pool_header_wf).
  pose proof (encode_length _ (pool_header_wf P HP Hbc)) as Hl. cbn [Size AllocHeader_codec] in Hl.
  rewrite take_ge by (rewrite Hl; done). rewrite blit_zeros, Hl by (rewrite Hl; unfold BlockSize; lia). done.
Qed.

Lemma imap_image (lab : sync_label) pre ws post off :
  image P = pre ++ level_image ws ++ post -> off = pool + Z.of_nat (length pre) ->
  Forall (fun w => image_at w.1.2 = Some w.2) (imap (fun i buf => (lab, off + Z.of_nat i, buf)) (level_image ws)).
Proof using Hpool.
  intros Him ->. apply Forall_lookup. intros i w Hw.
  rewrite list_lookup_imap in Hw. destruct (level_image ws !! i) as [buf|] eqn:Ei; [|done].
  injection Hw as <-. simpl. unfold image_at. rewrite decide_True by lia. rewrite Him.
  replace (Z.to_nat _) with (length pre + i)%nat by lia.
  pose proof (lookup_lt_Some _ _ _ Ei).
  rewrite lookup_app_r, lookup_app_l by lia. by replace (_ + i - _)%nat with i by lia.
Qed.

Lemma sync_writes_image :
  (forall k, k ∈ a_l2Dirty a -> 0 <= k) ->
  Forall (fun w => image_at w.1.2 = Some w.2) (sync_writes pool order a).
Proof using HP Hbc Hpool Hfit Horder.
  intros Hd. pose proof (length_level_image (L0 P)) as I0. pose proof (length_level_image (L1 P)) as I1.
  rewrite sync_writes_eq. apply Forall_app. split.
  { apply (imap_image _ [header_block P] (L0 P) (level_image (L1 P) ++ level_image (L2 P))); [done|simpl; lia]. }
  apply Forall_app. split.
  { apply (imap_image _ (header_block P :: level_image (L0 P)) (L1 P) (level_image (L2 P))); [done|].
    cbn [length]. lia. }
  apply Forall_app. split.
  - case_decide.
    + apply (imap_image _ (header_block P :: level_image (L0 P) ++ level_image (L1 P)) (L2 P) []).
      * unfold image. simpl. by rewrite app_nil_r, <- app_assoc.
      * cbn [length]. rewrite length_app. unfold leaf_at. lia.
    + apply Forall_concat, Forall_fmap, Forall_forall. intros blk Hb. simpl.
      rewrite Horder, elem_of_elements in Hb. rewrite l2_block_image by auto.
      case_decide; [|constructor]. apply Forall_singleton. simpl. unfold image_at.
      pose proof (Hd blk Hb). pose proof (level_blocks_bounds (Z.of_nat (length (L0 P)))).
      pose proof (level_blocks_bounds (Z.of_nat (length (L1 P)))).
      rewrite decide_True by (unfold leaf_at; lia). rewrite <- image_leaf by done. f_equal. lia.
  - apply Forall_singleton. simpl. unfold image_at. rewrite decide_True, Z.sub_diag by lia. done.
Qed.

(** What [Sync] does not write are leaf blocks that are not marked. *)
Lemma sync_writes_cover i buf :
  image P !! i = Some buf ->
  (exists lab, (lab, pool + Z.of_nat i, buf) ∈ sync_writes pool order a) \/
  (exists k, 0 <= k /\ Z.of_nat i = leaf_at P + k /\ k ∉ a_l2Dirty a).
Proof using HP Hbc Hpool Hfit Horder.
  pose proof (length_level_image (L0 P)) as I0. rewrite sync_writes_eq. intros Hi.
  setoid_rewrite elem_of_app. setoid_rewrite elem_of_app. setoid_rewrite elem_of_app.
  destruct (image_parts i buf Hi) as [[-> ->]|[(j & Hj & ->)|[(j & Hj & ->)|(j & Hj & Ei)]]].
  - left. exists SyncHeader. do 3 right. rewrite Z.add_0_r. by apply list_elem_of_singleton.
  - left. exists SyncL0. left. apply elem_of_lookup_imap. exists j, buf. split; [f_equal; f_equal; lia|done].
  - left. exists SyncL1. right. left. apply elem_of_lookup_imap. exists j, buf. split; [f_equal; f_equal; lia|done].
  - destruct (decide (a_l2Dirty a = ∅)) as [Hd|Hd].
    + left. exists SyncL2. do 2 right. left. apply elem_of_lookup_imap. exists j, buf.
      split; [f_equal; f_equal; lia|done].
    + destruct (decide (Z.of_nat j ∈ a_l2Dirty a)) as [Hin|Hout]; [left|right; exists (Z.of_nat j); auto with lia].
      exists (SyncL2Block (Z.of_nat j)). do 2 right. left. apply list_elem_of_In, in_concat.
      exists (l2_block (pool + leaf_at P) (L2 P) (Z.of_nat j)). rewrite <- !list_elem_of_In. split.
      * apply list_elem_of_fmap_2. by rewrite Horder, elem_of_elements.
      * pose proof (lookup_lt_Some _ _ _ Hj) as Hlt. pose proof (length_level_image (L2 P)) as I2.
        rewrite l2_block_image, decide_True by lia. apply list_elem_of_singleton.
        unfold level_image in Hj. rewrite list_lookup_fmap in Hj.
        rewrite (proj2 (lookup_seqZ 0 _ _ (Z.of_nat j))) in Hj by lia. simpl in Hj.
        injection Hj as <-. f_equal. f_equal. lia.
Qed.

End writes.

(** ** Tracking the changes *)

(** The pool at [pool] on disk [d] holds all of the allocator but what is marked. *)
Record tracked (pool : Z) (a : Allocator) (d : gmap Z (list Z)) : Prop := {
  tr_range : forall k, k ∈ a_l2Dirty a -> 0 <= k;
  tr_dirty : a_dirty a = true -> a_l2Dirty a <> ∅;
  tr_clean : a_dirty a = false -> a_l2Dirty a = ∅ /\
    forall i buf, image (a_pyr a) !! i = Some buf -> d !! (pool + Z.of_nat i) = Some buf;
  tr_leaf : forall i k buf, image (a_pyr a) !! i = Some buf -> Z.of_nat i = leaf_at (a_pyr a) + k ->
    0 <= k -> k ∉ a_l2Dirty a -> d !! (pool + Z.of_nat i) = Some buf;
}.

Section sync.
Context (pool : Z) (a : Allocator) (d : gmap Z (list Z)).
Context (os : Z -> option (list Z)) (order : gset Z -> list Z).
Context (HP : wf (a_pyr a)) (Hbc : BlockCount (a_pyr a) <= 2 ^ 51).
Context (Hpool : 0 <= pool) (Hfit : (pool + NbBlocks (a_pyr a)) * 4096 < 2 ^ 63).
Context (Horder : forall s, order s ≡ₚ elements s).
Context (Htr : tracked pool a d).

Lemma Sync_success a' d' :
  Sync os pool order a d = (a', d', None) ->
  a' = mkAllocator (a_pyr a) (a_shield a) false ∅ /\
  forall i buf, image (a_pyr a) !! i = Some buf -> d' !! (pool + Z.of_nat i) = Some buf.
Proof using All.
  unfold Sync. destruct (a_dirty a) eqn:Ed.
  2:{ intros [= <- <-]. destruct (tr_clean _ _ _ Htr Ed) as [E1 E2]. split; [|done].
      destruct a. simpl in *. congruence. }
  destruct (write_all os d (sync_writes pool order a)) as [d1 [e|]] eqn:Ew; [done|]. intros [= <- <-].
  split; [done|]. intros i buf Hi.
  pose proof (sync_writes_image pool a HP Hbc Hpool Hfit order Horder (tr_range _ _ _ Htr)) as Him.
  destruct (sync_writes_cover pool a HP Hbc Hpool Hfit order Horder i buf Hi) as [(lab & Hin)|(k & Hk & Ei & Hn)].
  - by eapply write_all_image.
  - destruct (decide (Exists (fun w => w.1.2 = pool + Z.of_nat i) (sync_writes pool order a))) as [Hex|Hno].
    + apply Exists_exists in Hex as ([[lab n] buf'] & Hin & En). simpl in En. subst n.
      rewrite (write_all_image os _ _ _ _ Him Ew _ _ _ Hin). f_equal.
      rewrite Forall_forall in Him. specialize (Him _ Hin). simpl in Him. unfold image_at in Him.
      rewrite decide_True in Him by lia. replace (Z.to_nat _) with i in Him by lia. congruence.
    + pose proof (write_all_other os (sync_writes pool order a) d (pool + Z.of_nat i)) as Ho.
      rewrite Ew in Ho. simpl in Ho. rewrite Ho.
      * by eapply tr_leaf.
      * by apply not_Exists_Forall in Hno; [|intros ?; apply _].
Qed.

(** The leaf blocks that are not marked are not written. *)
Lemma sync_writes_unmarked k w :
  a_l2Dirty a <> ∅ -> 0 <= k -> k ∉ a_l2Dirty a -> w ∈ sync_writes pool order a ->
  w.1.2 <> pool + leaf_at (a_pyr a) + k.
Proof using All.
  intros Hd Hk Hn. rewrite sync_writes_eq by done. rewrite decide_False by done.
  pose proof (length_level_image (L0 (a_pyr a))) as I0. pose proof (length_level_image (L1 (a_pyr a))) as I1.
  rewrite !elem_of_app. intros [Hw|[Hw|[Hw|Hw]]].
  - apply elem_of_lookup_imap in Hw as (i & buf & -> & Hi%lookup_lt_Some). simpl. unfold leaf_at. lia.
  - apply elem_of_lookup_imap in Hw as (i & buf & -> & Hi%lookup_lt_Some). simpl. unfold leaf_at. lia.
  - apply list_elem_of_In, in_concat in Hw as (l & Hl & Hw).
    rewrite <- list_elem_of_In in Hl. rewrite <- list_elem_of_In in Hw.
    apply list_elem_of_fmap in Hl as (blk & -> & Hb). rewrite Horder, elem_of_elements in Hb.
    rewrite l2_block_image in Hw by (try done; by apply (tr_range _ _ _ Htr)).
    case_decide; [|by apply elem_of_nil in Hw]. apply list_elem_of_singleton in Hw as ->. simpl.
    intros E. assert (blk = k) as -> by lia. done.
  - apply list_elem_of_singleton in Hw as ->. simpl.
    pose proof (level_blocks_bounds (Z.of_nat (length (L0 (a_pyr a))))).
    pose proof (level_blocks_bounds (Z.of_nat (length (L1 (a_pyr a))))). unfold leaf_at. lia.
Qed.

(** A failed [Sync] leaves the allocator and its marks as they were. *)
Lemma Sync_failure a' d' e :
  Sync os pool order a d = (a', d', Some e) -> a' = a /\ tracked pool a d'.
Proof using All.
  unfold Sync. destruct (a_dirty a) eqn:Ed; [|done].
  destruct (write_all os d (sync_writes pool order a)) as [d1 [e1|]] eqn:Ew; [|done]. intros [= <- <- <-].
  split; [done|]. pose proof (tr_dirty _ _ _ Htr Ed) as Hd. split; [apply Htr|done|congruence|].
  intros i k buf Hi Ei Hk Hn.
  pose proof (write_all_other os (sync_writes pool order a) d (pool + Z.of_nat i)) as Ho.
  rewrite Ew in Ho. simpl in Ho. rewrite Ho; [by eapply tr_leaf|].
  apply Forall_forall. intros w Hw. rewrite Ei, Z.add_assoc. by apply sync_writes_unmarked.
Qed.

End sync.

(** ** The operations keep track *)

(** The marks of [a'] account for all the blocks that changed since [a]. *)
Definition marked (a a' : Allocator) : Prop :=
  (a_pyr a' = a_pyr a /\ a_dirty a' = a_dirty a /\ a_l2Dirty a' = a_l2Dirty a) \/
  (a_dirty a' = true /\ a_l2Dirty a' <> ∅ /\ BlockCount (a_pyr a') = BlockCount (a_pyr a) /\
   a_l2Dirty a ⊆ a_l2Dirty a' /\ (forall k, k ∈ a_l2Dirty a' -> k ∈ a_l2Dirty a \/ 0 <= k) /\
   forall i, ~ (i ∈ free_set (a_pyr a) <-> i ∈ free_set (a_pyr a')) -> i / 64 / wpb ∈ a_l2Dirty a').

Lemma lens_eq P Q : shape P -> shape Q -> BlockCount Q = BlockCount P ->
  length (L0 Q) = length (L0 P) /\ length (L1 Q) = length (L1 P) /\ length (L2 Q) = length (L2 P).
Proof.
  intros HP HQ Hb. pose proof (wf_lens P HP) as EP. pose proof (wf_lens Q HQ) as EQ.
  rewrite Hb, <- EP in EQ. unfold lens in EQ. injection EQ. lia.
Qed.

Lemma same_chunk P Q k :
  shape P -> shape Q -> BlockCount Q = BlockCount P -> 0 <= k ->
  (forall i, i / 64 / wpb = k -> i ∈ free_set P <-> i ∈ free_set Q) ->
  chunk (L2 P) k = chunk (L2 Q) k.
Proof.
  intros HP HQ Hb Hk Hsame. destruct (lens_eq P Q HP HQ Hb) as (_ & _ & E2).
  assert (Hw : forall w, 0 <= w -> w / wpb = k -> word (L2 P) w = word (L2 Q) w).
  { intros w Hw0 Hw. apply word_ext; [apply words_word, HP|apply words_word, HQ|].
    intros b Hb'. pose proof (div64_add w b Hb') as [V1 V2]. rewrite <- !bit_word by done.
    specialize (Hsame (w * 64 + b)). rewrite V1 in Hsame. specialize (Hsame Hw).
    rewrite (elem_of_free_set P HP), (elem_of_free_set Q HQ) in Hsame.
    assert (0 <= w * 64 + b) by lia. apply eq_true_iff_eq. tauto. }
  apply list_eq. intros j. unfold chunk. destruct (decide (j < 512)%nat) as [Hj|Hj].
  2:{ rewrite !lookup_take_ge by lia. done. }
  rewrite !lookup_take_lt, !lookup_drop by lia. set (n := (_ + j)%nat).
  specialize (Hw (Z.of_nat n) ltac:(lia)).
  assert (Hn : Z.of_nat n / wpb = k).
  { unfold wpb, n. symmetry. apply (Z.div_unique _ _ _ (Z.of_nat j)); lia. }
  specialize (Hw Hn). unfold word in Hw. rewrite Nat2Z.id in Hw.
  destruct (decide (n < length (L2 P))%nat) as [Hlt|Hge].
  - destruct (lookup_lt_is_Some_2 (L2 P) n Hlt) as [x Ex].
    destruct (lookup_lt_is_Some_2 (L2 Q) n ltac:(lia)) as [y Ey]. rewrite Ex, Ey in *. simpl in Hw. congruence.
  - rewrite !lookup_ge_None_2 by lia. done.
Qed.

Lemma tracked_marked pool a a' d :
  wf (a_pyr a) -> wf (a_pyr a') -> marked a a' -> tracked pool a d -> tracked pool a' d.
Proof.
  intros [HP _] [HQ _] [(E1 & E2 & E3)|(D1 & D2 & D3 & D4 & D5 & D6)] [T1 T2 T3 T4].
  { split; rewrite ?E1, ?E2, ?E3; done. }
  split; [intros k [?|?]%D5; auto|done|congruence|].
  destruct (lens_eq _ _ HP HQ D3) as (N0 & N1 & N2).
  assert (El : leaf_at (a_pyr a') = leaf_at (a_pyr a)) by (unfold leaf_at; congruence).
  intros i k buf Hi Ei Hk Hn. rewrite El in Ei.
  assert (Hsame : chunk (L2 (a_pyr a)) k = chunk (L2 (a_pyr a')) k).
  { apply same_chunk; try done. intros j Hj.
    destruct (decide (j ∈ free_set (a_pyr a))), (decide (j ∈ free_set (a_pyr a'))); try tauto;
      exfalso; apply Hn; rewrite <- Hj; apply D6; tauto. }
  assert (Hr : 0 <= k < level_blocks (Z.of_nat (length (L2 (a_pyr a))))).
  { split; [done|]. apply lookup_lt_Some in Hi. unfold image in Hi. cbn [length] in Hi.
    rewrite !length_app in Hi. pose proof (length_level_image (L0 (a_pyr a'))).
    pose proof (length_level_image (L1 (a_pyr a'))). pose proof (length_level_image (L2 (a_pyr a'))).
    rewrite N0, N1, N2 in *. unfold leaf_at in Ei. lia. }
  pose proof (image_leaf (a_pyr a') k) as L'. pose proof (image_leaf (a_pyr a) k Hr) as L.
  rewrite N2 in L'. specialize (L' Hr). rewrite El, <- Ei, Nat2Z.id in L'. rewrite <- Ei, Nat2Z.id in L.
  rewrite Hi in L'. injection L' as ->. rewrite <- Hsame. apply (T4 i k); [done|done|done|]. set_solver.
Qed.

(** ** One step of the allocator on a device *)

Inductive rt_op :=
| RtAlloc (forMeta : bool)
| RtAllocBlocks (n : Z)
| RtAllocRuns (n : Z)
| RtFree (b : Z)
| RtFreeRun (first n : Z)
| RtReserve (b : Z)
| RtShield (delta : Z)
| RtSync (os : Z -> option (list Z)) (order : gset Z -> list Z).

Definition run_alloc (a : Allocator) (op : rt_op) : res alloc_error Allocator :=
  match op with
  | RtAlloc forMeta => Ret (fst (tryAllocBlock a forMeta))
  | RtAllocBlocks n => Ret (fst (tryAllocBlocks a n))
  | RtAllocRuns n => Ret (fst (tryAllocRunsUpTo a n))
  | RtFree b => FreeBlock a b
  | RtFreeRun first n => FreeRun a first n
  | RtReserve b => ReserveBlock a b
  | RtShield delta =>
      Ret (mkAllocator (a_pyr a) (AdjustShield (a_shield a) delta) (a_dirty a) (a_l2Dirty a))
  | RtSync _ _ => Ret a
  end.

Definition run_rt (pool : Z) (a : Allocator) (d : gmap Z (list Z)) (op : rt_op)
    : res alloc_error (Allocator * gmap Z (list Z)) :=
  match op with
  | RtSync os order => let '(a', d', _) := Sync os pool order a d in Ret (a', d')
  | _ => a' ← run_alloc a op; Ret (a', d)
  end.

Fixpoint run_rts (pool : Z) (a : Allocator) (d : gmap Z (list Z)) (ops : list rt_op)
    : res alloc_error (Allocator * gmap Z (list Z)) :=
  match ops with
  | [] => Ret (a, d)
  | op :: ops => r ← run_rt pool a d op; run_rts pool (fst r) (snd r) ops
  end.

(** Block 0 is never freed; [order] enumerates the marks. *)
Definition op_ok (op : rt_op) : Prop :=
  match op with
  | RtAllocBlocks n | RtAllocRuns n => 0 < n < 2 ^ 64
  | RtFree b | RtReserve b => 0 < b < 2 ^ 64
  | RtFreeRun first n => 0 < first < 2 ^ 64 /\ is_u64 n
  | RtSync _ order => forall s, order s ≡ₚ elements s
  | RtAlloc _ | RtShield _ => True
  end.

Definition stepped (a a' : Allocator) : Prop :=
  rt_ok a' /\ marked a a' /\ BlockCount (a_pyr a') = BlockCount (a_pyr a).

Lemma stepped_refl a : rt_ok a -> stepped a a.
Proof. intros Ha. split_and!; [done| |done]. by left. Qed.

(** A change of blocks whose words are all marked. *)
Lemma stepped_marks a a' ws :
  rt_ok a' -> BlockCount (a_pyr a') = BlockCount (a_pyr a) -> a_dirty a' = true ->
  (forall k, k ∈ a_l2Dirty a' <-> k ∈ a_l2Dirty a \/ exists w, w ∈ ws /\ k = w / wpb) ->
  (forall w, w ∈ ws -> 0 <= w) -> ws <> [] ->
  (forall i, ~ (i ∈ free_set (a_pyr a) <-> i ∈ free_set (a_pyr a')) -> i / 64 ∈ ws) ->
  stepped a a'.
Proof.
  intros Ha Hb Hd Hm Hw Hne Hs. split_and!; [done| |done]. right. split_and!; [done| |done| | |].
  - destruct ws as [|w ws]; [done|]. intros E. assert (Hin : w / wpb ∈ a_l2Dirty a').
    { apply Hm. right. exists w. split; [apply list_elem_of_here|done]. }
    rewrite E in Hin. by apply elem_of_empty in Hin.
  - intros k Hk. apply Hm. by left.
  - intros k [?|(w & Hin & ->)]%Hm; [by left|right]. apply Z.div_pos; [by apply Hw|done].
  - intros i Hi. apply Hm. right. exists (i / 64). split; [by apply Hs|done].
Qed.

Lemma stepped_took a a' s ws :
  rt_ok a -> took a a' s -> a_dirty a' = true ->
  (forall k, k ∈ a_l2Dirty a' <-> k ∈ a_l2Dirty a \/ exists w, w ∈ ws /\ k = w / wpb) ->
  (forall w, w ∈ ws -> 0 <= w) -> ws <> [] -> (forall i, i ∈ s -> i / 64 ∈ ws) ->
  stepped a a'.
Proof.
  intros Ha Ht Hd Hm Hw Hne Hs. pose proof Ht as (_ & B & F & _).
  apply (stepped_marks a a' ws); try done; [by eapply took_rt_ok|].
  intros i Hi. apply Hs. rewrite F, elem_of_difference in Hi. destruct (decide (i ∈ s)); [done|tauto].
Qed.

Lemma touch_marks a P w k :
  k ∈ a_l2Dirty (touch a P w) <-> k ∈ a_l2Dirty a \/ exists w', w' ∈ [w] /\ k = w' / wpb.
Proof.
  unfold touch, markL2Word. cbn [a_l2Dirty]. rewrite elem_of_union, elem_of_singleton.
  setoid_rewrite list_elem_of_singleton. naive_solver.
Qed.

Lemma step_alloc a forMeta : rt_ok a -> stepped a (fst (tryAllocBlock a forMeta)).
Proof.
  intros Ha. destruct (tryAllocBlock_spec a forMeta Ha)
    as [[_ E]|(_ & x & c & E & Hl & _ & Ht & Hd & Hm)]; rewrite E; [by apply stepped_refl|]. cbn [fst].
  pose proof (free_set_range _ _ (proj1 Hl)) as Hc. pose proof (div_mod_64 c).
  apply (stepped_took a x {[c]} [c / 64]); try done.
  - intros k. rewrite Hm. apply (touch_marks a (a_pyr a)).
  - intros w ->%list_elem_of_singleton. lia.
  - intros i ->%elem_of_singleton. by apply list_elem_of_singleton.
Qed.

Lemma span_facts s n i w :
  0 <= s -> 0 < n -> s + n < 2 ^ 64 ->
  (i ∈ interval s n -> i / 64 ∈ span_words s n) /\ (w ∈ span_words s n -> 0 <= w) /\ span_words s n <> [].
Proof.
  intros H0 Hn Hlt. pose proof (div_mod_64 s). pose proof (div_mod_64 (s + n - 1)).
  split_and!.
  - rewrite elem_of_interval, elem_of_span by done. pose proof (div_mod_64 i). lia.
  - rewrite elem_of_span by done. lia.
  - intros E. assert (Hin : s / 64 ∈ span_words s n) by (rewrite elem_of_span by done; lia).
    rewrite E in Hin. by apply elem_of_nil in Hin.
Qed.

Lemma step_blocks a n : rt_ok a -> 0 < n -> stepped a (fst (tryAllocBlocks a n)).
Proof.
  intros Ha Hn. pose proof Ha as (HP & H0 & _). unfold tryAllocBlocks.
  case_match; [by apply stepped_refl|]. rewrite reserve_noop by done.
  pose proof (fit_scan (a_pyr a) n (wf_shape _ HP) Hn) as Hs. destruct (scanMaximalRuns _ _ _ _) as [s l].
  destruct Hs as [[Hl _]|[Hl [Hf _]]].
  { rewrite (proj2 (Z.ltb_lt _ _)) by lia. by apply stepped_refl. }
  rewrite (proj2 (Z.ltb_ge _ _)) by lia. cbn [fst].
  pose proof (free_set_range (a_pyr a) s (Hf s ltac:(apply elem_of_interval; lia))) as R0.
  pose proof (free_set_range (a_pyr a) (s + n - 1) (Hf (s + n - 1) ltac:(apply elem_of_interval; lia))) as R1.
  pose proof (wf_bc _ (wf_shape _ HP)).
  eapply (stepped_took _ _ (interval s n) (span_words s n)); [done|by apply take_prefix_took|done| | | |].
  - intros k. cbn [a_l2Dirty]. by rewrite elem_of_marks.
  - intros w. apply (span_facts s n 0 w); lia.
  - apply (span_facts s n 0 0); lia.
  - intros i. apply (span_facts s n i 0); lia.
Qed.

Lemma step_runs a n : rt_ok a -> 0 < n < 2 ^ 64 -> stepped a (fst (tryAllocRunsUpTo a n)).
Proof.
  intros Ha Hn. destruct (tryAllocRunsUpTo a n) as [a' R] eqn:E. cbn [fst].
  destruct (tryAllocRunsUpTo_spec a n a' R Ha Hn E) as (Hok & _ & Hsub & _ & Ht & [[-> ->]|(Hne & Hd & Hm)]);
    [by apply stepped_refl|].
  pose proof (wf_bc _ (wf_shape _ (proj1 Ha))) as Hbc.
  assert (Hr : forall r, r ∈ R -> 0 <= run_first r /\ 0 < run_n r /\ run_first r + run_n r < 2 ^ 64).
  { intros r Hr. destruct Hok as [Hpos _]. rewrite Forall_forall in Hpos. specialize (Hpos r Hr).
    assert (Hin : forall i, run_first r <= i < run_end r -> 0 <= i < BlockCount (a_pyr a)).
    { intros i Hi. apply free_set_range, Hsub, elem_of_runs_set. eauto. }
    pose proof (Hin (run_first r) ltac:(unfold run_end; lia)).
    pose proof (Hin (run_end r - 1) ltac:(unfold run_end; lia)). unfold run_end in *. lia. }
  eapply (stepped_took _ _ (runs_set R) (R ≫= fun r => span_words (run_first r) (run_n r))); try done.
  - intros k. rewrite Hm, take_runs_l2Dirty. setoid_rewrite list_elem_of_bind. naive_solver.
  - intros w (r & Hw & Hin)%list_elem_of_bind. destruct (Hr r Hin) as (A & B & C).
    by apply (span_facts _ _ 0 w A B C).
  - destruct R as [|r R]; [done|]. intros Eb. destruct (Hr r ltac:(left)) as (A & B & C).
    apply (span_facts _ _ 0 0 A B C). simpl in Eb. by apply app_eq_nil in Eb as [Eb _].
  - intros i (r & Hin & Hi)%elem_of_runs_set. apply list_elem_of_bind. exists r. split; [|done].
    destruct (Hr r Hin) as (A & B & C). apply (span_facts _ _ i 0 A B C). by apply elem_of_interval.
Qed.

(** [FreeBlock] and [ReserveBlock] change at most the one block. *)
Lemma stepped_touch a Q b c :
  rt_ok a -> wf Q -> BlockCount Q = BlockCount (a_pyr a) -> 0 < c ->
  (0 ∉ free_set Q) -> (forall i, ~ (i ∈ free_set (a_pyr a) <-> i ∈ free_set Q) -> i = c) ->
  (b = false -> free_set Q = free_set (a_pyr a)) ->
  stepped a (if b then touch a Q (c / 64) else with_pyr a Q).
Proof.
  intros Ha HQ Hb Hc H0 Hi Hf. pose proof (div_mod_64 c). destruct b.
  - apply (stepped_marks _ _ [c / 64]); try done.
    + split_and!; [done|done|apply Ha].
    + intros k. apply touch_marks.
    + intros w ->%list_elem_of_singleton. lia.
    + intros i Hd. apply Hi in Hd as ->. by apply list_elem_of_singleton.
  - assert (Q = a_pyr a) as -> by (apply wf_ext; [apply Ha|done|done|by apply Hf]).
    apply stepped_refl in Ha. by destruct a.
Qed.

Lemma step_free a b : rt_ok a -> 0 < b < 2 ^ 64 -> exists a', FreeBlock a b = Ret a' /\ stepped a a'.
Proof.
  intros Ha Hb. pose proof Ha as (HP & H0 & _). unfold FreeBlock. rewrite L0_nonempty by apply HP.
  destruct (AllocMarkFree_spec (a_pyr a) b HP) as (Q & -> & HQ & HbQ & HfQ); [lia|]. cbn [mbind res_bind].
  eexists. split; [done|]. apply stepped_touch; try done; [lia|..].
  - rewrite HfQ, elem_of_union. case_decide; rewrite ?elem_of_singleton, ?elem_of_empty; intuition lia.
  - intros i. rewrite HfQ, elem_of_union. destruct (decide (i = b)) as [->|]; [done|].
    case_decide; rewrite ?elem_of_singleton, ?elem_of_empty; tauto.
  - rewrite bool_decide_eq_false, HfQ. intros Hno. case_decide; [|by rewrite union_empty_r_L].
    destruct (decide (b ∈ free_set (a_pyr a))); [|tauto]. apply set_eq. intros i.
    rewrite elem_of_union, elem_of_singleton. split; [intros [?| ->]; done|auto].
Qed.

Lemma step_reserve a b : rt_ok a -> 0 < b < 2 ^ 64 -> exists a', ReserveBlock a b = Ret a' /\ stepped a a'.
Proof.
  intros Ha Hb. pose proof Ha as (HP & H0 & _). unfold ReserveBlock. rewrite L0_nonempty by apply HP.
  destruct (AllocMarkAllocated_spec (a_pyr a) b HP) as (Q & -> & HQ & HbQ & HfQ); [lia|]. cbn [mbind res_bind].
  eexists. split; [done|]. apply stepped_touch; try done; [lia|..].
  - rewrite HfQ, elem_of_difference. tauto.
  - intros i. rewrite HfQ, elem_of_difference, elem_of_singleton.
    destruct (decide (i = b)); [done|tauto].
  - rewrite bool_decide_eq_false, HfQ. intros Hno. apply set_eq. intros i.
    rewrite elem_of_difference, elem_of_singleton. split; [tauto|]. intros Hi. split; [done|congruence].
Qed.

Lemma step_free_run a first n :
  rt_ok a -> 0 < first < 2 ^ 64 -> is_u64 n -> exists a', FreeRun a first n = Ret a' /\ stepped a a'.
Proof.
  intros Ha Hf [Hn0 Hn1]. pose proof Ha as (HP & H0 & Hsh). unfold FreeRun. rewrite L0_nonempty by apply HP.
  pose proof (wf_bc _ (wf_shape _ HP)) as Hbc.
  destruct (false || (n =? 0) || (BlockCount (a_pyr a) <=? first)) eqn:Eg.
  { exists a. split; [done|]. by apply stepped_refl. }
  rewrite orb_false_l, orb_false_iff, Z.eqb_neq, Z.leb_gt in Eg. destruct Eg as [Eg1 Eg2].
  rewrite (u64_small (_ - first)) by (unfold is_u64; lia).
  replace (if _ <? n then _ else n) with (Z.min n (BlockCount (a_pyr a) - first))
    by (destruct (Z.ltb_spec (BlockCount (a_pyr a) - first) n); lia).
  set (m := Z.min n _).
  destruct (AllocMarkFreeRun_spec (a_pyr a) first m HP) as (Q & -> & HQ & HbQ & HfQ);
    [unfold is_u64; lia|unfold is_u64; lia|]. cbn [mbind res_bind]. eexists. split; [done|].
  assert (HQ0 : 0 ∉ free_set Q) by (rewrite HfQ, elem_of_union, elem_of_run_set; intuition lia).
  destruct (Z.ltb_spec 0 (FreeCount Q - FreeCount (a_pyr a))) as [Hpos|Hle].
  - apply (stepped_marks _ _ (span_words first m)); try done.
    + intros k. cbn [a_l2Dirty]. unfold mark_span. apply elem_of_marks.
    + intros w. apply (span_facts first m 0 w); lia.
    + apply (span_facts first m 0 0); lia.
    + cbn [a_pyr]. intros i Hd. apply (span_facts first m i 0); [lia..|]. apply elem_of_interval.
      rewrite HfQ, elem_of_union, elem_of_run_set in Hd.
      destruct (decide (first <= i < first + m)); [lia|]. exfalso. apply Hd. split; [auto|].
      intros [?|?]; [done|lia].
  - assert (E : free_set Q = free_set (a_pyr a)).
    { apply set_eq. intros i. split; [|rewrite HfQ, elem_of_union; auto]. intros Hi.
      apply dec_stable. intros Hno. assert (free_set (a_pyr a) ⊂ free_set Q) as Hs.
      { split; [rewrite HfQ; apply union_subseteq_l|]. intros Hss. by apply Hno, Hss. }
      apply subset_size in Hs. rewrite (wf_count _ HP), (wf_count _ HQ) in Hle. lia. }
    assert (Q = a_pyr a) as -> by (by apply wf_ext). apply stepped_refl in Ha. by destruct a.
Qed.

Lemma run_alloc_stepped a op :
  rt_ok a -> op_ok op -> exists a', run_alloc a op = Ret a' /\ stepped a a'.
Proof.
  intros Ha Hop. destruct op; simpl in Hop |- *.
  - eexists. split; [done|]. by apply step_alloc.
  - eexists. split; [done|]. apply step_blocks; [done|lia].
  - eexists. split; [done|]. by apply step_runs.
  - by apply step_free.
  - destruct Hop. by apply step_free_run.
  - by apply step_reserve.
  - eexists. split; [done|]. destruct Ha as (HP & H0 & _). split_and!; [|by left|done].
    split_and!; [done|done|]. unfold a_shield at 1. rewrite AdjustShield_add. apply u64_range.
  - exists a. split; [done|]. by apply stepped_refl.
Qed.

(** The state of the allocator over a pool of [bc] blocks at block [pool]. *)
Definition pool_state (pool bc : Z) (a : Allocator) (d : gmap Z (list Z)) : Prop :=
  rt_ok a /\ tracked pool a d /\ BlockCount (a_pyr a) = bc.

Lemma tracked_clean pool P sh d :
  (forall i buf, image P !! i = Some buf -> d !! (pool + Z.of_nat i) = Some buf) ->
  tracked pool (mkAllocator P sh false ∅) d.
Proof.
  intros Hd. split; cbn [a_l2Dirty a_dirty a_pyr].
  - by intros k ?%elem_of_empty.
  - done.
  - by split.
  - intros i k buf Hi _ _ _. by apply Hd.
Qed.

Lemma NbBlocks_pool P : wf P -> NbBlocks P = AllocPoolBlocks (BlockCount P).
Proof. intros HP. unfold NbBlocks, AllocPoolBlocks. by rewrite <- (wf_lens P (wf_shape P HP)). Qed.

Section pool.
Context (pool bc : Z) (Hbc : bc <= 2 ^ 51) (Hpool : 0 <= pool).
Context (Hfit : (pool + AllocPoolBlocks bc) * 4096 < 2 ^ 63).

Lemma run_rt_state a d op :
  pool_state pool bc a d -> op_ok op ->
  exists a' d', run_rt pool a d op = Ret (a', d') /\ pool_state pool bc a' d'.
Proof using Hbc Hpool Hfit.
  intros (Ha & Ht & Hb) Hop.
  assert (Hfit' : (pool + NbBlocks (a_pyr a)) * 4096 < 2 ^ 63) by (rewrite NbBlocks_pool, Hb by apply Ha; lia).
  destruct op as [| | | | | | |os order]; cycle -1.
  { simpl in Hop. unfold run_rt. destruct (Sync os pool order a d) as [[a' d'] [e|]] eqn:E.
    - destruct (Sync_failure pool a d os order (proj1 Ha) ltac:(lia) Hpool Hfit' Hop Ht a' d' e E) as [-> Ht'].
      by exists a, d'.
    - destruct (Sync_success pool a d os order (proj1 Ha) ltac:(lia) Hpool Hfit' Hop Ht a' d' E) as [-> Ht'].
      eexists _, d'. split; [done|]. split_and!; [done|by apply tracked_clean|done]. }
  all: destruct (run_alloc_stepped a _ Ha Hop) as (a' & E & Ha' & Hm & Hb'); unfold run_rt; rewrite E;
    cbn [mbind res_bind]; exists a', d; split; [done|]; split_and!;
    [done|eapply tracked_marked; [apply Ha|apply Ha'|done|done]|congruence].
Qed.

Lemma run_rts_state ops : forall a d,
  pool_state pool bc a d -> Forall op_ok ops ->
  exists a' d', run_rts pool a d ops = Ret (a', d') /\ pool_state pool bc a' d'.
Proof using Hbc Hpool Hfit.
  induction ops as [|op ops IH]; intros a d Hst Hops; cbn [run_rts]; [eauto|].
  apply Forall_cons_1 in Hops as [Hop Hops].
  destruct (run_rt_state a d op Hst Hop) as (a1 & d1 & -> & Hst1). cbn [mbind res_bind fst snd]. by apply IH.
Qed.

End pool.

(** Without device errors [Sync] succeeds. *)
Lemma image_length P i buf : image P !! i = Some buf -> codec_wf (pool_header P) -> length buf = 4096%nat.
Proof.
  intros Hi Hwf. assert (Hc : forall ws k, length (pack_chunk (chunk ws k)) = 4096%nat).
  { intros ws k. unfold pack_chunk. rewrite length_app, length_concat_le. unfold zeros.
    rewrite length_replicate. unfold chunk. rewrite length_take. lia. }
  assert (Hl : forall ws j, level_image ws !! j = Some buf -> length buf = 4096%nat).
  { intros ws j. unfold level_image. rewrite list_lookup_fmap.
    destruct (seqZ 0 _ !! j); [|done]. simpl. intros [= <-]. apply Hc. }
  unfold image in Hi. destruct i as [|i]; simpl in Hi.
  - injection Hi as <-. unfold header_block. pose proof (encode_length _ Hwf) as He.
    cbn [Size AllocHeader_codec] in He. rewrite length_app, He. unfold zeros. rewrite length_replicate. done.
  - apply lookup_app_Some in Hi as [?|[_ [?|[_ ?]]%lookup_app_Some]]; eauto.
Qed.

Lemma write_all_succeeds {L} (l : list (L * Z * list Z)) : forall os d,
  (forall n, os n = None) -> Forall (fun w => length w.2 = 4096%nat) l -> snd (write_all os d l) = None.
Proof.
  induction l as [|[[lab n] buf] l IH]; intros os d Hos Hl; [done|]. simpl.
  apply Forall_cons_1 in Hl as [Hb Hl]. simpl in Hb. unfold WriteBlock. rewrite Hb, Hos.
  change (negb (Z.of_nat 4096 =? BlockSize)) with false. by apply IH.
Qed.

(** C7: the dirty tracking of the allocator loses nothing.  Start from a pool
    that is on disk but for its marked leaf blocks, and run any operations on
    the allocator, with [Sync]s that may fail at any write among them.  No
    operation panics; the invariant holds at the end; a [Sync] on a device
    without errors succeeds; and after any successful [Sync], opening the pool
    gives back the bitmap, the summaries and the counts that were in memory. *)
Theorem Sync_loses_nothing pool bc a d ops :
  bc <= 2 ^ 51 -> 0 <= pool -> (pool + AllocPoolBlocks bc) * 4096 < 2 ^ 63 ->
  pool_state pool bc a d -> Forall op_ok ops ->
  exists a1 d1, run_rts pool a d ops = Ret (a1, d1) /\ rt_ok a1 /\
    forall os order, (forall s, order s ≡ₚ elements s) ->
      ((forall n, os n = None) -> snd (Sync os pool order a1 d1) = None) /\
      forall a2 d2, Sync os pool order a1 d1 = (a2, d2, None) ->
        a2 = mkAllocator (a_pyr a1) (a_shield a1) false ∅ /\
        OpenAllocator (fun off => d2 !! (off / 4096)) pool = Ret (mkAllocator (a_pyr a1) 0 false ∅).
Proof.
  intros Hbc Hpool Hfit Hst Hops.
  destruct (run_rts_state pool bc Hbc Hpool Hfit ops a d Hst Hops) as (a1 & d1 & E & Ha & Ht & Hb).
  exists a1, d1. split_and!; [done|done|]. intros os order Hord. pose proof (proj1 Ha) as HP.
  assert (Hfit' : (pool + NbBlocks (a_pyr a1)) * 4096 < 2 ^ 63) by (rewrite NbBlocks_pool, Hb by done; lia).
  assert (Hbc' : BlockCount (a_pyr a1) <= 2 ^ 51) by lia. split.
  - intros Hos. unfold Sync. destruct (a_dirty a1); [|done].
    pose proof (sync_writes_image pool a1 HP Hbc' Hpool Hfit' order Hord (tr_range _ _ _ Ht)) as Him.
    pose proof (write_all_succeeds (sync_writes pool order a1) os d1 Hos) as Hw.
    destruct (write_all _ _ _) as [d' [e|]]; [|done]. simpl in Hw. rewrite Hw; [done|].
    eapply Forall_impl; [exact Him|]. intros w Hi. simpl in Hi. unfold image_at in Hi.
    case_decide; [|done]. eapply image_length; [exact Hi|]. by apply pool_header_wf.
  - intros a2 d2 Hs.
    destruct (Sync_success pool a1 d1 os order HP Hbc' Hpool Hfit' Hord Ht a2 d2 Hs) as [-> Hd].
    split; [done|]. unfold OpenAllocator. rewrite (ReadAllocatorBitmap_image (a_pyr a1)); try done.
    + pose proof (level_lens _ HP Hbc') as (N0 & N1 & N2).
      unfold pool_header. cbn [ah_L0Words ah_L1Words ah_L2Words ah_BlockCount ah_FreeCount].
      rewrite !(proj2 (Z.ltb_ge _ _)) by lia. cbn [orb]. by destruct (a_pyr a1).
    + intros i buf Hi. rewrite Z.div_mul by lia. by apply Hd.
Qed.

(** The disk that holds the pool of [sample_alloc] at block 7; an allocation, a
    [Sync] that fails at the header, and a run freed. *)
Definition sample_disk : gmap Z (list Z) := map_seqZ 7 (image sample_pyramid).

Definition sample_ops : list rt_op :=
  [RtAlloc false; RtSync (fun n => if n =? 7 then Some [] else None) elements; RtFreeRun 2 5].

Lemma Sync_loses_nothing_witness :
  exists a1 d1, run_rts 7 sample_alloc sample_disk sample_ops = Ret (a1, d1) /\
    (snd (Sync (fun _ => None) 7 elements a1 d1) = None) /\
    let d2 := snd (fst (Sync (fun _ => None) 7 elements a1 d1)) in
    OpenAllocator (fun off => d2 !! (off / 4096)) 7 = Ret (mkAllocator (a_pyr a1) 0 false ∅).
Proof.
  assert (Hst : pool_state 7 200 sample_alloc sample_disk).
  { split; [exact sample_alloc_ok|split; [|reflexivity]]. apply tracked_clean. intros i buf Hi.
    unfold sample_disk. rewrite lookup_map_seqZ, option_guard_True by lia.
    by replace (Z.to_nat (7 + Z.of_nat i - 7)) with i by lia. }
  destruct (Sync_loses_nothing 7 200 sample_alloc sample_disk sample_ops) as (a1 & d1 & E & _ & Hs);
    [lia|lia|vm_compute; reflexivity|exact Hst| |].
  { repeat apply Forall_cons_2; simpl; unfold is_u64; try lia; [by intros s|apply Forall_nil_2]. }
  exists a1, d1. split; [exact E|]. destruct (Hs (fun _ => None) elements ltac:(done)) as [H1 H2].
  specialize (H1 ltac:(done)). split; [exact H1|].
  destruct (Sync (fun _ => None) 7 elements a1 d1) as [[a2 d2] e]. cbn [fst snd] in *. subst e.
  by apply (H2 a2 d2).
Defined.
