(* ===== verification/JournalRecord.v ===== *)
(** * Journal record payloads (briefs/journal_record.go)

    The payloads of the journal's record types: the [Marshal] adapters over
    the generated codec, the two records with a variable tail, and the
    [Unmarshal...] helpers that replay uses.  A payload that was marshalled
    parses back to the same record, a legacy 88-byte inode update parses with
    generation 0, and the two parsers of the variable records panic exactly
    when their 32-bit length check wraps around. *)

From stdpp Require Import base numbers list option.
From Stdlib Require Import ZArith Lia.
From S2P Require Import Prelude Codec.

Local Open Scope Z_scope.

(** ** Record types (briefs/briefs.go) *)
Definition JRN_NONE := 0.
Definition JRN_EXTENT_ALLOC := 1.
Definition JRN_EXTENT_FREE := 2.
Definition JRN_INODE_UPDATE := 3.
Definition JRN_INODE_ALLOC := 4.
Definition JRN_INODE_FREE := 5.
Definition JRN_TRIE_ALLOC := 6.
Definition JRN_DIR_UPDATE := 7.
Definition JRN_CHECKPOINT := 8.
Definition JRN_INODE_FULL := 9.
Definition JRN_SYMLINK_DATA := 10.
Definition JRN_XATTR_DATA := 11.
Definition JRN_TRIE_PAGE := 12.
Definition JRN_END := 13.

Definition JrnInodeUpdateSize : nat := 96.
Definition JrnInodeUpdateLegacySize : nat := 88.
Definition JrnSymlinkDataPrefix : nat := 20.
Definition JrnXattrDataPrefix : nat := 20.
Definition XattrMaxUsed : Z := 4044.

(** ** Marshalling *)

Definition NewJrnDirUpdate (parent child : Z) (name : list Z) (op ftype : Z) : JrnDirUpdate :=
  let nl := if decide (255 < length name)%nat then 255%nat else length name in
  mkJrnDirUpdate parent child (u32 (Z.of_nat nl)) (blit 0 (take nl name) (zeros 255))
    op ftype (zeros 1) (zeros 2).

Definition MarshalJrnInodeFull (ino : Z) (rawInode : list Z) : list Z :=
  Marshal (mkJrnInodeFull ino (blit 0 rawInode (zeros 512)) (zeros 40)).

Record JrnSymlinkData := mkJrnSymlinkData {
  jsd_Ino : Z; jsd_Phys : Z; jsd_TargetLen : Z; jsd_Target : list Z;
}.

Definition JrnSymlinkData_Marshal (r : JrnSymlinkData) : list Z :=
  Marshal (mkJrnSymlinkPrefix (jsd_Ino r) (jsd_Phys r) (u32 (Z.of_nat (length (jsd_Target r)))))
  ++ jsd_Target r.

Record JrnXattrData := mkJrnXattrData {
  jxd_Ino : Z; jxd_PhysBlk : Z; jxd_UsedSize : Z; jxd_Data : list Z;
}.

Definition JrnXattrData_Marshal (r : JrnXattrData) : list Z :=
  Marshal (mkJrnXattrPrefix (jxd_Ino r) (jxd_PhysBlk r) (jxd_UsedSize r)) ++ jxd_Data r.

(** ** Parsing *)

Definition UnmarshalExtentAlloc (b : list Z) : res codec_error (option JrnExtentAlloc) := unmarshal b.
Definition UnmarshalExtentFree (b : list Z) : res codec_error (option JrnExtentFree) := unmarshal b.

Definition UnmarshalInodeUpdate (b : list Z) : res codec_error (option JrnInodeUpdate) :=
  let b := if decide (length b = JrnInodeUpdateLegacySize)
           then blit 0 b (zeros JrnInodeUpdateSize) else b in
  unmarshal b.

Definition UnmarshalInodeAlloc (b : list Z) : res codec_error (option JrnInodeAlloc) := unmarshal b.
Definition UnmarshalInodeFree (b : list Z) : res codec_error (option JrnInodeFree) := unmarshal b.
Definition UnmarshalTrieAlloc (b : list Z) : res codec_error (option JrnTrieAlloc) := unmarshal b.

Definition UnmarshalDirUpdate (b : list Z) : res codec_error (option JrnDirUpdate) :=
  r ← unmarshal b;
  Ret (match r with
       | Some r =>
           if decide (255 < jdu_NameLen r) then
             Some (mkJrnDirUpdate (jdu_ParentIno r) (jdu_ChildIno r) 255 (jdu_Name r)
                     (jdu_Op r) (jdu_FType r) (jdu_Reserved r) (jdu__Pad r))
           else Some r
       | None => None
       end).

Definition UnmarshalInodeFullIno (b : list Z) : Z :=
  if decide (length b < 8)%nat then 0 else le_get (slice 0 8 b).

Definition InodeFullRawData (b : list Z) : option (list Z) :=
  if decide (length b < 8 + 512)%nat then None else Some (slice 8 (8 + 512) b).

(** The slice expression [b[lo:hi]]: out of order or out of range it panics. *)
Definition slice_at (lo hi : Z) (b : list Z) : res codec_error (list Z) :=
  if decide (0 <= lo <= hi /\ hi <= Z.of_nat (length b))
  then Ret (slice (Z.to_nat lo) (Z.to_nat hi) b) else Panic.

Definition UnmarshalSymlinkData (b : list Z) : res codec_error (option JrnSymlinkData) :=
  if decide (length b < JrnSymlinkDataPrefix)%nat then Ret None else
  p ← unmarshal (A := JrnSymlinkPrefix) b;
  match p with
  | None => Ret None
  | Some p =>
      let tlen := jsp_TargetLen p in
      if decide (u32 (Z.of_nat (length b)) < u32 (20 + tlen)) then Ret None else
      target ← slice_at 20 (u32 (20 + tlen)) b;
      Ret (Some (mkJrnSymlinkData (jsp_Ino p) (jsp_Phys p) tlen target))
  end.

Definition UnmarshalXattrData (b : list Z) : res codec_error (option JrnXattrData) :=
  if decide (length b < JrnXattrDataPrefix)%nat then Ret None else
  p ← unmarshal (A := JrnXattrPrefix) b;
  match p with
  | None => Ret None
  | Some p =>
      let used := jxp_UsedSize p in
      if decide (u32 (Z.of_nat (length b)) < u32 (20 + used)) then Ret None else
      data ← slice_at 20 (u32 (20 + used)) b;
      Ret (Some (mkJrnXattrData (jxp_Ino p) (jxp_PhysBlk p) used data))
  end.

(** ** Records

    The record a caller of [WriteRecord] journals: its type and payload, and
    the parse that [applyRecord] (fuse/journal_replay.go) does of it. *)
Inductive jrecord :=
| RecExtentAlloc (r : JrnExtentAlloc)
| RecExtentFree (r : JrnExtentFree)
| RecInodeUpdate (r : JrnInodeUpdate)
| RecInodeAlloc (r : JrnInodeAlloc)
| RecInodeFree (r : JrnInodeFree)
| RecTrieAlloc (r : JrnTrieAlloc)
| RecDirUpdate (r : JrnDirUpdate)
| RecInodeFull (ino : Z) (raw : list Z)
| RecSymlinkData (r : JrnSymlinkData)
| RecXattrData (r : JrnXattrData).

Definition record_type (r : jrecord) : Z :=
  match r with
  | RecExtentAlloc _ => JRN_EXTENT_ALLOC
  | RecExtentFree _ => JRN_EXTENT_FREE
  | RecInodeUpdate _ => JRN_INODE_UPDATE
  | RecInodeAlloc _ => JRN_INODE_ALLOC
  | RecInodeFree _ => JRN_INODE_FREE
  | RecTrieAlloc _ => JRN_TRIE_ALLOC
  | RecDirUpdate _ => JRN_DIR_UPDATE
  | RecInodeFull _ _ => JRN_INODE_FULL
  | RecSymlinkData _ => JRN_SYMLINK_DATA
  | RecXattrData _ => JRN_XATTR_DATA
  end.

Definition record_payload (r : jrecord) : list Z :=
  match r with
  | RecExtentAlloc r => Marshal r
  | RecExtentFree r => Marshal r
  | RecInodeUpdate r => Marshal r
  | RecInodeAlloc r => Marshal r
  | RecInodeFree r => Marshal r
  | RecTrieAlloc r => Marshal r
  | RecDirUpdate r => Marshal r
  | RecInodeFull ino raw => MarshalJrnInodeFull ino raw
  | RecSymlinkData r => JrnSymlinkData_Marshal r
  | RecXattrData r => JrnXattrData_Marshal r
  end.

Definition as_record {A} (c : A -> jrecord) (m : res codec_error (option A))
  : res codec_error (option jrecord) :=
  match m with Ret r => Ret (option_map c r) | Err e => Err e | Panic => Panic end.

Definition parse_record (rtype : Z) (data : list Z) : res codec_error (option jrecord) :=
  if decide (rtype = JRN_DIR_UPDATE) then as_record RecDirUpdate (UnmarshalDirUpdate data)
  else if decide (rtype = JRN_INODE_ALLOC) then as_record RecInodeAlloc (UnmarshalInodeAlloc data)
  else if decide (rtype = JRN_INODE_FREE) then as_record RecInodeFree (UnmarshalInodeFree data)
  else if decide (rtype = JRN_INODE_UPDATE) then as_record RecInodeUpdate (UnmarshalInodeUpdate data)
  else if decide (rtype = JRN_EXTENT_ALLOC) then as_record RecExtentAlloc (UnmarshalExtentAlloc data)
  else if decide (rtype = JRN_EXTENT_FREE) then as_record RecExtentFree (UnmarshalExtentFree data)
  else if decide (rtype = JRN_TRIE_ALLOC) then as_record RecTrieAlloc (UnmarshalTrieAlloc data)
  else if decide (rtype = JRN_INODE_FULL) then
    Ret (option_map (RecInodeFull (UnmarshalInodeFullIno data)) (InodeFullRawData data))
  else if decide (rtype = JRN_SYMLINK_DATA) then as_record RecSymlinkData (UnmarshalSymlinkData data)
  else if decide (rtype = JRN_XATTR_DATA) then as_record RecXattrData (UnmarshalXattrData data)
  else Ret None.

(** The fields of a record fit their types, and the lengths it carries are
    those of its variable parts. *)
Definition record_wf (r : jrecord) : Prop :=
  match r with
  | RecExtentAlloc r => codec_wf r
  | RecExtentFree r => codec_wf r
  | RecInodeUpdate r => codec_wf r
  | RecInodeAlloc r => codec_wf r
  | RecInodeFree r => codec_wf r
  | RecTrieAlloc r => codec_wf r
  | RecDirUpdate r => codec_wf r /\ jdu_NameLen r <= 255
  | RecInodeFull ino raw => is_u64 ino /\ length raw = 512%nat /\ bytes raw
  | RecSymlinkData r =>
      is_u64 (jsd_Ino r) /\ is_u64 (jsd_Phys r) /\ bytes (jsd_Target r) /\
      jsd_TargetLen r = Z.of_nat (length (jsd_Target r)) /\
      Z.of_nat (length (jsd_Target r)) < 2 ^ 32 - 20
  | RecXattrData r =>
      is_u64 (jxd_Ino r) /\ is_u64 (jxd_PhysBlk r) /\ bytes (jxd_Data r) /\
      jxd_UsedSize r = Z.of_nat (length (jxd_Data r)) /\
      Z.of_nat (length (jxd_Data r)) < 2 ^ 32 - 20
  end.

(** ** Lemmas *)

Lemma symlink_prefix_wf ino phys t :
  is_u64 ino -> is_u64 phys -> is_u32 t -> codec_wf (mkJrnSymlinkPrefix ino phys t).
Proof. unfold is_u64, is_u32. intros. codec_wf_tac. Qed.

Lemma xattr_prefix_wf ino phys t :
  is_u64 ino -> is_u64 phys -> is_u32 t -> codec_wf (mkJrnXattrPrefix ino phys t).
Proof. unfold is_u64, is_u32. intros. codec_wf_tac. Qed.

Lemma inode_full_wf ino raw :
  is_u64 ino -> length raw = 512%nat -> bytes raw ->
  codec_wf (mkJrnInodeFull ino raw (zeros 40)).
Proof.
  unfold is_u64. intros Hi Hl Hb. split; [|reflexivity].
  repeat apply Forall_cons_2; [simpl; lia|done| |apply Forall_nil_2].
  split; [apply length_zeros | apply bytes_zeros].
Qed.

Lemma blit_full {A} (src dst : list A) : length src = length dst -> blit 0 src dst = src.
Proof.
  intros E. unfold blit. rewrite take_0, take_ge by lia.
  rewrite drop_ge by lia. by rewrite app_nil_r.
Qed.

Lemma MarshalJrnInodeFull_eq ino raw :
  is_u64 ino -> length raw = 512%nat -> bytes raw ->
  MarshalJrnInodeFull ino raw = le_put 8 ino ++ raw ++ zeros 40.
Proof.
  intros Hi Hl Hb. unfold MarshalJrnInodeFull.
  rewrite blit_full by (by rewrite length_zeros).
  rewrite Marshal_encode by (by apply inode_full_wf).
  unfold encode. cbn -[zeros le_put]. by rewrite app_nil_r.
Qed.

Lemma slice_at_tail pre l :
  slice_at (Z.of_nat (length pre)) (Z.of_nat (length pre) + Z.of_nat (length l)) (pre ++ l) = Ret l.
Proof.
  unfold slice_at. rewrite decide_True by (rewrite length_app; lia).
  rewrite Z2Nat.inj_add, !Nat2Z.id by lia. f_equal.
  pose proof (slice_app pre l []) as E. by rewrite app_nil_r in E.
Qed.

(** What the two parsers of variable records share: the length check and the
    slice at [20 + t]. *)
Definition tail_check (b : list Z) (t : Z) : res codec_error (option (list Z)) :=
  if decide (u32 (Z.of_nat (length b)) < u32 (20 + t)) then Ret None else
  d ← slice_at 20 (u32 (20 + t)) b; Ret (Some d).

Lemma tail_check_ok pre l :
  length pre = 20%nat -> Z.of_nat (length l) < 2 ^ 32 - 20 ->
  tail_check (pre ++ l) (Z.of_nat (length l)) = Ret (Some l).
Proof.
  intros Hp Hl. unfold tail_check. rewrite length_app, Hp.
  rewrite Nat2Z.inj_add, !u32_small by (unfold is_u32; lia).
  rewrite decide_False by lia.
  pose proof (slice_at_tail pre l) as E. rewrite Hp in E.
  change (Z.of_nat 20) with 20 in *. by rewrite E.
Qed.

Lemma tail_check_panics b t :
  (20 <= length b)%nat -> Z.of_nat (length b) < 2 ^ 32 -> is_u32 t ->
  tail_check b t = Panic <-> 2 ^ 32 - 20 <= t.
Proof.
  intros Hb Hb' Ht. unfold tail_check, is_u32 in *.
  rewrite (u32_small (Z.of_nat _)) by (unfold is_u32; lia).
  destruct (decide (2 ^ 32 - 20 <= t)) as [Hw|Hw].
  - assert (E : u32 (20 + t) = 20 + t - 2 ^ 32).
    { unfold u32. rewrite <- (Z.mod_small (20 + t - 2 ^ 32) (2 ^ 32)) by lia.
      rewrite <- Zminus_mod_idemp_r, Z_mod_same_full, Z.sub_0_r. done. }
    rewrite E, decide_False by lia. unfold slice_at. rewrite decide_False by lia. done.
  - rewrite u32_small by (unfold is_u32; lia). case_decide; [split; [done|lia]|].
    unfold slice_at. rewrite decide_True by lia. split; [done|lia].
Qed.

Lemma UnmarshalSymlinkData_prefix p rest :
  codec_wf p ->
  UnmarshalSymlinkData (encode p ++ rest)
  = (d ← tail_check (encode p ++ rest) (jsp_TargetLen p);
     Ret (mkJrnSymlinkData (jsp_Ino p) (jsp_Phys p) (jsp_TargetLen p) <$> (d : option (list Z)))).
Proof.
  intros Hp. unfold UnmarshalSymlinkData, tail_check.
  pose proof (encode_length p Hp) as Hl. change (Size JrnSymlinkPrefix) with 20%nat in Hl.
  rewrite decide_False by (rewrite length_app, Hl; unfold JrnSymlinkDataPrefix; lia).
  rewrite unmarshal_encode by done. cbn [mbind res_bind].
  case_decide; [done|]. by destruct (slice_at _ _ _).
Qed.

Lemma UnmarshalXattrData_prefix p rest :
  codec_wf p ->
  UnmarshalXattrData (encode p ++ rest)
  = (d ← tail_check (encode p ++ rest) (jxp_UsedSize p);
     Ret (mkJrnXattrData (jxp_Ino p) (jxp_PhysBlk p) (jxp_UsedSize p) <$> (d : option (list Z)))).
Proof.
  intros Hp. unfold UnmarshalXattrData, tail_check.
  pose proof (encode_length p Hp) as Hl. change (Size JrnXattrPrefix) with 20%nat in Hl.
  rewrite decide_False by (rewrite length_app, Hl; unfold JrnXattrDataPrefix; lia).
  rewrite unmarshal_encode by done. cbn [mbind res_bind].
  case_decide; [done|]. by destruct (slice_at _ _ _).
Qed.

Lemma UnmarshalSymlinkData_Marshal r :
  record_wf (RecSymlinkData r) ->
  UnmarshalSymlinkData (JrnSymlinkData_Marshal r) = Ret (Some r).
Proof.
  destruct r as [ino phys tl t]; simpl. intros (Hi & Hp & Hb & -> & Hl).
  unfold JrnSymlinkData_Marshal. cbn [jsd_Ino jsd_Phys jsd_TargetLen jsd_Target].
  assert (Hw : codec_wf (mkJrnSymlinkPrefix ino phys (u32 (Z.of_nat (length t)))))
    by (apply symlink_prefix_wf; auto with briefs).
  rewrite Marshal_encode, UnmarshalSymlinkData_prefix by done.
  cbn [jsp_Ino jsp_Phys jsp_TargetLen].
  rewrite u32_small in Hw |- * by (unfold is_u32; lia).
  rewrite tail_check_ok; [done|by rewrite encode_length|done].
Qed.

Lemma UnmarshalXattrData_Marshal r :
  record_wf (RecXattrData r) ->
  UnmarshalXattrData (JrnXattrData_Marshal r) = Ret (Some r).
Proof.
  destruct r as [ino phys tl t]; simpl. intros (Hi & Hp & Hb & -> & Hl).
  unfold JrnXattrData_Marshal. cbn [jxd_Ino jxd_PhysBlk jxd_UsedSize jxd_Data].
  assert (Hw : codec_wf (mkJrnXattrPrefix ino phys (Z.of_nat (length t))))
    by (apply xattr_prefix_wf; auto; unfold is_u32; lia).
  rewrite Marshal_encode, UnmarshalXattrData_prefix by done.
  cbn [jxp_Ino jxp_PhysBlk jxp_UsedSize].
  rewrite tail_check_ok; [done|by rewrite encode_length|done].
Qed.

Lemma UnmarshalDirUpdate_Marshal r :
  record_wf (RecDirUpdate r) -> UnmarshalDirUpdate (Marshal r) = Ret (Some r).
Proof.
  intros [Hr Hn]. unfold UnmarshalDirUpdate. rewrite unmarshal_Marshal by done.
  cbn [mbind res_bind]. by rewrite decide_False by lia.
Qed.

Lemma UnmarshalInodeUpdate_Marshal r :
  codec_wf r -> UnmarshalInodeUpdate (Marshal r) = Ret (Some r).
Proof.
  intros Hr. unfold UnmarshalInodeUpdate.
  rewrite decide_False by (rewrite length_Marshal by done; discriminate).
  by apply unmarshal_Marshal.
Qed.

Lemma InodeFull_parse ino raw :
  record_wf (RecInodeFull ino raw) ->
  UnmarshalInodeFullIno (MarshalJrnInodeFull ino raw) = ino /\
  InodeFullRawData (MarshalJrnInodeFull ino raw) = Some raw.
Proof.
  intros (Hi & Hl & Hb). rewrite MarshalJrnInodeFull_eq by done.
  unfold UnmarshalInodeFullIno, InodeFullRawData.
  rewrite !decide_False by (rewrite !length_app, length_le_put, length_zeros; lia).
  split.
  - rewrite <- (app_nil_l (le_put 8 ino ++ _)).
    change 8%nat with (0 + 8)%nat at 1.
    rewrite (slice_app' [] (le_put 8 ino)) by (done || apply length_le_put).
    apply le_get_put. exact Hi.
  - f_equal. apply slice_app'; [apply length_le_put | done].
Qed.

Lemma encode_symlink_prefix ino phys t :
  encode (mkJrnSymlinkPrefix ino phys t) = le_put 8 ino ++ le_put 8 phys ++ le_put 4 t.
Proof. unfold encode. cbn -[le_put]. by rewrite app_nil_r. Qed.

Lemma encode_xattr_prefix ino phys t :
  encode (mkJrnXattrPrefix ino phys t) = le_put 8 ino ++ le_put 8 phys ++ le_put 4 t.
Proof. unfold encode. cbn -[le_put]. by rewrite app_nil_r. Qed.

(** Twenty bytes are two 64-bit integers and a 32-bit one. *)
Lemma prefix_split b :
  bytes b -> (20 <= length b)%nat ->
  exists ino phys rest, is_u64 ino /\ is_u64 phys /\ is_u32 (le_get (slice 16 20 b)) /\
    b = (le_put 8 ino ++ le_put 8 phys ++ le_put 4 (le_get (slice 16 20 b))) ++ rest.
Proof.
  intros Hb Hl.
  destruct (Uint_total 8 b) as (i & r1 & _ & E1 & Hi & Hr1); [done|lia|].
  destruct (Uint_total 8 r1) as (p & r2 & _ & E2 & Hp & Hr2); [done|subst; len|].
  destruct (Uint_total 4 r2) as (t & r3 & _ & E3 & Ht & Hr3); [done|subst; len|].
  assert (E : le_get (slice 16 20 b) = t).
  { subst. change 20%nat with (16 + 4)%nat. rewrite app_assoc.
    rewrite (slice_app' (le_put 8 i ++ le_put 8 p) (le_put 4 t) r3 16 4) by len.
    by apply le_get_put. }
  exists i, p, r3. rewrite E. subst r1 r2. unfold is_u64, is_u32.
  split_and!; try (simpl in *; lia). by rewrite E1, <- !app_assoc.
Qed.

Lemma fmap_not_panic {A B} (f : A -> B) (m : res codec_error (option A)) :
  (d ← m; Ret (f <$> (d : option A))) = Panic <-> m = Panic.
Proof. by destruct m. Qed.

Lemma UnmarshalInodeUpdate_legacy_eq r :
  codec_wf r ->
  UnmarshalInodeUpdate (take JrnInodeUpdateLegacySize (Marshal r))
  = Ret (Some (mkJrnInodeUpdate (jiu_Ino r) (jiu_Mode r) (jiu_Nlink r) (jiu_Uid r) (jiu_Gid r)
      (jiu_FileSize r) (jiu_ATimeSec r) (jiu_ATimeNsec r) (jiu_MTimeSec r) (jiu_MTimeNsec r)
      (jiu_CTimeSec r) (jiu_CTimeNsec r) (jiu_Flags r) (jiu_Reserved r) 0)).
Proof.
  intros Hr. pose proof (length_Marshal r Hr) as Hl.
  change (Size JrnInodeUpdate) with 96%nat in Hl.
  unfold UnmarshalInodeUpdate, JrnInodeUpdateLegacySize, JrnInodeUpdateSize.
  rewrite decide_True by (rewrite length_take; lia).
  rewrite blit_zeros by (rewrite length_take; lia). rewrite length_take, Hl.
  match goal with |- _ = Ret (Some ?s) => set (z := s) end.
  assert (Hz : codec_wf z).
  { destruct Hr as [Hr _]. split; [|reflexivity].
    repeat (apply Forall_cons_1 in Hr as [? Hr]; apply Forall_cons_2; [assumption|]).
    apply Forall_cons_2; [simpl; lia|apply Forall_nil_2]. }
  replace (take 88 (Marshal r) ++ zeros (96 - 88 `min` 96)) with (Marshal z);
    [by apply unmarshal_Marshal|].
  rewrite !Marshal_encode by done. unfold encode. subst z.
  cbn -[le_put take]. rewrite !app_nil_r.
  change (zeros 8) with (le_put 8 0).
  rewrite !app_assoc. f_equal.
Qed.

(** The name a directory record carries. *)
Definition dir_name (r : JrnDirUpdate) : list Z := take (Z.to_nat (jdu_NameLen r)) (jdu_Name r).

Lemma NewJrnDirUpdate_wf parent child name op ftype :
  is_u64 parent -> is_u64 child -> is_u8 op -> is_u8 ftype -> bytes name ->
  record_wf (RecDirUpdate (NewJrnDirUpdate parent child name op ftype)) /\
  dir_name (NewJrnDirUpdate parent child name op ftype) = take 255 name.
Proof.
  intros Hp Hc Ho Hf Hn. unfold NewJrnDirUpdate, dir_name.
  set (nl := if decide (255 < length name)%nat then 255%nat else length name).
  assert (Hnl : (nl <= 255)%nat /\ take nl name = take 255 name /\ length (take nl name) = nl).
  { subst nl. case_decide; split_and!; try done; try len.
    rewrite (take_ge name (length name)), take_ge by lia. done. }
  destruct Hnl as (Hnl & Ht & Hlt). cbv zeta. simpl record_wf. simpl jdu_NameLen. simpl jdu_Name.
  rewrite u32_small by (unfold is_u32; lia). rewrite Nat2Z.id.
  rewrite blit_zeros, Hlt by lia. unfold is_u64, is_u8 in *. split; [split; [|lia]|].
  - split; [|reflexivity]. cbn [fields JrnDirUpdate_codec JrnDirUpdate_MarshalBinary].
    repeat apply Forall_cons_2; try apply Forall_nil_2; cbn -[zeros]; try lia.
    + split; [rewrite length_app, Hlt, length_zeros; lia|].
      apply bytes_app. auto with briefs.
    + split; [apply length_zeros | apply bytes_zeros].
    + split; [apply length_zeros | apply bytes_zeros].
  - rewrite take_app_length' by done. done.
Qed.

(** ** Theorems *)

(** C14 Every journal record survives the journal: the payload its [Marshal]
    writes is parsed back, by the helper that replay selects by the record's
    type, to the same record. *)
Theorem journal_record_roundtrip (r : jrecord) (Hr : record_wf r) :
  parse_record (record_type r) (record_payload r) = Ret (Some r).
Proof.
  unfold parse_record. destruct r as [r|r|r|r|r|r|r|ino raw|r|r]; cbn [record_type record_payload];
    rewrite ?decide_True by done; simpl in Hr;
    try (unfold UnmarshalExtentAlloc, UnmarshalExtentFree, UnmarshalInodeAlloc,
           UnmarshalInodeFree, UnmarshalTrieAlloc; by rewrite unmarshal_Marshal).
  - by rewrite UnmarshalInodeUpdate_Marshal.
  - by rewrite UnmarshalDirUpdate_Marshal.
  - by destruct (InodeFull_parse ino raw Hr) as [-> ->].
  - by rewrite UnmarshalSymlinkData_Marshal.
  - by rewrite UnmarshalXattrData_Marshal.
Qed.

Lemma journal_record_roundtrip_witness :
  let r := RecSymlinkData (mkJrnSymlinkData 5 900 3 [47; 116; 109]) in
  record_wf r /\ parse_record (record_type r) (record_payload r) = Ret (Some r).
Proof.
  intros r. assert (H : record_wf r).
  { subst r. simpl. unfold is_u64. split_and!; try lia.
    repeat (apply Forall_cons_2; [unfold is_u8; lia|]). apply Forall_nil_2. }
  split; [exact H|]. exact (journal_record_roundtrip r H).
Defined.

(** The length checks of [UnmarshalSymlinkData] and [UnmarshalXattrData]
    add 20 to the stored length in 32 bits.  On every payload of at least 20
    bytes they panic (slice bounds out of range) exactly when that sum wraps
    around, that is when the stored length is one of the top twenty 32-bit
    values; on every other payload they return. *)
Theorem variable_record_panics_iff_wrap (b : list Z)
  (Hb : bytes b) (Hl : 20 <= Z.of_nat (length b) < 2 ^ 32) :
  (UnmarshalSymlinkData b = Panic <-> 2 ^ 32 - 20 <= le_get (slice 16 20 b)) /\
  (UnmarshalXattrData b = Panic <-> 2 ^ 32 - 20 <= le_get (slice 16 20 b)).
Proof.
  destruct (prefix_split b Hb) as (i & p & rest & Hi & Hp & Ht & E); [lia|].
  set (t := le_get (slice 16 20 b)) in *. clearbody t.
  pose proof (tail_check_panics b t ltac:(lia) ltac:(lia) Ht) as Hk.
  split.
  - rewrite <- encode_symlink_prefix in E. rewrite E, UnmarshalSymlinkData_prefix, <- E
      by (by apply symlink_prefix_wf).
    by rewrite fmap_not_panic.
  - rewrite <- encode_xattr_prefix in E. rewrite E, UnmarshalXattrData_prefix, <- E
      by (by apply xattr_prefix_wf).
    by rewrite fmap_not_panic.
Qed.

Lemma variable_record_panics_iff_wrap_witness :
  let b := zeros 16 ++ [255; 255; 255; 255; 7] in
  UnmarshalSymlinkData b = Panic /\ UnmarshalXattrData b = Panic.
Proof.
  intros b. destruct (variable_record_panics_iff_wrap b) as [Hs Hx].
  - subst b. apply bytes_app. split; [apply bytes_zeros|].
    repeat (apply Forall_cons_2; [unfold is_u8; lia|]). apply Forall_nil_2.
  - subst b. rewrite length_app, length_zeros. simpl length. lia.
  - split; [apply Hs | apply Hx]; subst b; vm_compute; discriminate.
Defined.

(** A legacy inode update, the 88-byte prefix of today's record, is
    accepted and parses to the same record with generation 0. *)
Theorem UnmarshalInodeUpdate_legacy (r : JrnInodeUpdate) (Hr : codec_wf r) :
  exists r', UnmarshalInodeUpdate (take JrnInodeUpdateLegacySize (Marshal r)) = Ret (Some r') /\
    jiu_Generation r' = 0 /\
    take JrnInodeUpdateLegacySize (Marshal r') = take JrnInodeUpdateLegacySize (Marshal r).
Proof.
  eexists. split; [by apply UnmarshalInodeUpdate_legacy_eq|]. split; [done|].
  rewrite !Marshal_encode by (try done; destruct Hr as [Hr _]; split; [|reflexivity];
    repeat (apply Forall_cons_1 in Hr as [? Hr]; apply Forall_cons_2; [assumption|]);
    apply Forall_cons_2; [simpl; lia|apply Forall_nil_2]).
  unfold encode, JrnInodeUpdateLegacySize. cbn -[le_put take]. rewrite !app_nil_r.
  rewrite !app_assoc, !take_app_length' by len. done.
Qed.

Lemma UnmarshalInodeUpdate_legacy_witness :
  exists r', UnmarshalInodeUpdate (take JrnInodeUpdateLegacySize
      (Marshal (mkJrnInodeUpdate 7 33188 1 0 0 10 1 2 3 4 5 6 0 0 9))) = Ret (Some r') /\
    jiu_Generation r' = 0.
Proof.
  destruct (UnmarshalInodeUpdate_legacy (mkJrnInodeUpdate 7 33188 1 0 0 10 1 2 3 4 5 6 0 0 9))
    as (r' & E & G & _); [codec_wf_tac|].
  exact (ex_intro _ r' (conj E G)).
Defined.

(** A directory record built by [NewJrnDirUpdate] parses back with its
    inode numbers, its operation and the name it was given, cut at 255 bytes. *)
Theorem NewJrnDirUpdate_roundtrip (parent child : Z) (name : list Z) (op ftype : Z)
  (Hp : is_u64 parent) (Hc : is_u64 child) (Ho : is_u8 op) (Hf : is_u8 ftype) (Hn : bytes name) :
  exists r, UnmarshalDirUpdate (Marshal (NewJrnDirUpdate parent child name op ftype)) = Ret (Some r) /\
    jdu_ParentIno r = parent /\ jdu_ChildIno r = child /\ jdu_Op r = op /\ jdu_FType r = ftype /\
    dir_name r = take 255 name.
Proof.
  destruct (NewJrnDirUpdate_wf parent child name op ftype Hp Hc Ho Hf Hn) as [Hw Hd].
  exists (NewJrnDirUpdate parent child name op ftype).
  by rewrite UnmarshalDirUpdate_Marshal.
Qed.

Lemma NewJrnDirUpdate_roundtrip_witness :
  exists r, UnmarshalDirUpdate (Marshal (NewJrnDirUpdate 1 9 [97; 98] 0 8)) = Ret (Some r) /\
    dir_name r = [97; 98].
Proof.
  destruct (NewJrnDirUpdate_roundtrip 1 9 [97; 98] 0 8) as (r & E & _ & _ & _ & _ & D);
    try (unfold is_u64, is_u8; lia).
  - repeat (apply Forall_cons_2; [unfold is_u8; lia|]). apply Forall_nil_2.
  - exact (ex_intro _ r (conj E D)).
Defined.
