(* ===== verification/JournalBlock.v ===== *)
(** * Journal blocks (briefs/journal_replay.go, briefs/journal_write.go)

    The framing of records in a 4096-byte journal block: the block header, the
    record headers with their checksums, the append of a record to the block
    under construction, the checkpoint block, and the iteration that replay
    and fsck use to read a block back.  A block built by appends is read back
    as the same records in the same order; iterating over any block whatsoever
    terminates without a panic. *)

From stdpp Require Import base numbers list option.
From Stdlib Require Import ZArith Lia.
From S2P Require Import Prelude Codec Crc32c JournalRecord.

Local Open Scope Z_scope.

Definition MagicJournal : Z := 0x4A4E4C5A.
Definition MagicCheckpoint : Z := 0x43485053.
Definition JRN_FLAGS_NONE : Z := 0.
Definition JournalBlockSize : nat := 4096.
Definition JournalBlockHdrSize : nat := 16.
Definition JournalRecordHdrSize : nat := 16.

(** ** Headers *)

(** [var h T; _ = h.UnmarshalBinary(buf); return h]: a buffer that is too
    short leaves the zero value. *)
Definition ParseRecordHeader (buf : list Z) : RecordHeader :=
  match UnmarshalBinary buf with Ret h => h | _ => mkRecordHeader 0 0 0 0 end.

Definition ParseJournalBlockHeader (buf : list Z) : JournalBlockHeader :=
  match UnmarshalBinary buf with Ret h => h | _ => mkJournalBlockHeader 0 0 0 0 end.

(** [copy(buf[:JournalBlockHdrSize], data)], for a [buf] of at least a header *)
Definition MarshalJournalBlockHeader (buf : list Z) (h : JournalBlockHeader) : list Z :=
  blit 0 (Marshal h) buf.

Definition VerifyJournalRecordChecksum (typ flags : Z) (data : list Z) (stored : Z) : bool :=
  if stored =? 0 then true
  else ComputeJournalRecordChecksum typ flags data =? stored.

(** ** Building a block *)

(** The block [initCurBlock] leaves in [curBlock]. *)
Definition init_block (seq : Z) : list Z :=
  MarshalJournalBlockHeader (zeros JournalBlockSize) (mkJournalBlockHeader MagicJournal seq 0 0).

(** The append of [writeRecordLocked]: record header and payload at [off], and
    the block's record count incremented. *)
Definition append_record (cur : list Z) (off : nat) (typ : Z) (data : list Z) : list Z :=
  let rh := mkRecordHeader typ 0 (u32 (Z.of_nat (length data)))
              (ComputeJournalRecordChecksum typ 0 data) in
  let cur := blit off (Marshal rh) cur in
  let cur := blit (off + JournalRecordHdrSize) data cur in
  let bh := ParseJournalBlockHeader cur in
  MarshalJournalBlockHeader cur
    (mkJournalBlockHeader (jb_Magic bh) (jb_BlockSeq bh) (u32 (jb_RecordCount bh + 1)) (jb_Reserved bh)).

(** The error of [cp.MarshalBinary()] is always nil. *)
Definition WriteCheckpointBlock (buf : list Z) (blockSeq : Z) (cp : Checkpoint) : list Z :=
  let buf := MarshalJournalBlockHeader buf (mkJournalBlockHeader MagicCheckpoint blockSeq 1 0) in
  let cpBytes := Marshal cp in
  let rh := mkRecordHeader JRN_CHECKPOINT JRN_FLAGS_NONE (u32 (Z.of_nat (length cpBytes)))
              (ComputeJournalRecordChecksum JRN_CHECKPOINT JRN_FLAGS_NONE cpBytes) in
  let buf := blit JournalBlockHdrSize (Marshal rh) buf in
  blit (JournalBlockHdrSize + JournalRecordHdrSize) cpBytes buf.

(** ** Reading a block *)

Inductive iter_out (E : Type) :=
| IterDone
| IterStop (e : E)                       (* the visitor's error, returned as is *)
| IterOverflow (idx dataLen : Z)         (* ErrJournalRecordOverflow *)
| IterPanic                              (* a slice expression out of range *)
| IterFuel.                              (* the loop bound of the model ran out *)
Arguments IterDone {E}.
Arguments IterStop {E} e.
Arguments IterOverflow {E} idx dataLen.
Arguments IterPanic {E}.
Arguments IterFuel {E}.

Section iterate.
Context {S E : Type}.

(** The callback: a step on the state it captures, and its error. *)
Variable visit : Z -> RecordHeader -> list Z -> S -> S * option E.

Fixpoint iterate_loop (fuel : nat) (buf : list Z) (blockSize recordCount i off : Z) (s : S)
    : S * iter_out E :=
  match fuel with
  | O => (s, IterFuel)
  | Datatypes.S fuel =>
      if decide (i < recordCount /\ off + 16 <= blockSize) then
        if decide (Z.of_nat (length buf) < off) then (s, IterPanic) else
        let hdr := ParseRecordHeader (drop (Z.to_nat off) buf) in
        let dlen := rh_DataLen hdr in
        if decide (blockSize < off + 16 + dlen) then (s, IterOverflow i dlen) else
        if decide (Z.of_nat (length buf) < off + 16 + dlen) then (s, IterPanic) else
        let payload := slice (Z.to_nat (off + 16)) (Z.to_nat (off + 16 + dlen)) buf in
        match visit i hdr payload s with
        | (s, Some e) => (s, IterStop e)
        | (s, None) => iterate_loop fuel buf blockSize recordCount (i + 1) (off + 16 + dlen) s
        end
      else (s, IterDone)
  end.

(** Each round moves [off] by a header at least, so [blockSize / 16] rounds
    reach the end. *)
Definition IterateJournalBlockRecords (buf : list Z) (blockSize recordCount : Z) (s : S)
    : S * iter_out E :=
  iterate_loop (Datatypes.S (Z.to_nat (blockSize / 16))) buf blockSize recordCount 0
    (Z.of_nat JournalBlockHdrSize) s.

End iterate.

(** ** What a block holds *)

(** A record of a block: its type and payload. *)
Definition jrec : Type := Z * list Z.

Definition rec_ok (r : jrec) : Prop :=
  is_u32 r.1 /\ bytes r.2 /\ r.2 <> [] /\ Z.of_nat (length r.2) < 2 ^ 32.

Definition rec_header (r : jrec) : RecordHeader :=
  mkRecordHeader r.1 0 (Z.of_nat (length r.2)) (ComputeJournalRecordChecksum r.1 0 r.2).

Definition frame (r : jrec) : list Z := encode (rec_header r) ++ r.2.
Definition frames (recs : list jrec) : list Z := concat (frame <$> recs).

Definition fits (recs : list jrec) : Prop := (16 + length (frames recs) <= 4096)%nat.

#[export] Instance fits_dec recs : Decision (fits recs) := decide (16 + length (frames recs) <= 4096)%nat.

Definition block_image (magic seq : Z) (recs : list jrec) : list Z :=
  encode (mkJournalBlockHeader magic seq (Z.of_nat (length recs)) 0) ++
  frames recs ++ zeros (4096 - 16 - length (frames recs)).

(** The visits of the records of a list, in order, up to the first error. *)
Fixpoint visit_all {S E} (visit : Z -> RecordHeader -> list Z -> S -> S * option E)
    (i : Z) (recs : list jrec) (s : S) : S * iter_out E :=
  match recs with
  | [] => (s, IterDone)
  | r :: recs =>
      match visit i (rec_header r) r.2 s with
      | (s, Some e) => (s, IterStop e)
      | (s, None) => visit_all visit (i + 1) recs s
      end
  end.

(** ** Lemmas *)

Lemma checksum_u32 typ flags data :
  is_u32 typ -> bytes data -> is_u32 (ComputeJournalRecordChecksum typ flags data).
Proof.
  intros Ht Hd. unfold ComputeJournalRecordChecksum. rewrite !Crc32c_app.
  set (l := le_put 4 typ ++ _).
  assert (Hl : bytes l) by (subst l; rewrite !bytes_app; auto using bytes_le_put).
  destruct (Crc32c_range 0 l) as [H1 H2]; [unfold is_u32; lia|done| |unfold is_u32; lia].
  subst l. intros E. apply (f_equal length) in E. len.
Qed.

Lemma rec_header_wf r : rec_ok r -> codec_wf (rec_header r).
Proof.
  intros (Ht & Hb & _ & Hl). pose proof (checksum_u32 r.1 0 r.2 Ht Hb).
  unfold rec_header, is_u32 in *. codec_wf_tac.
Qed.

Lemma block_header_wf magic seq n :
  is_u32 magic -> is_u32 seq -> is_u32 n -> codec_wf (mkJournalBlockHeader magic seq n 0).
Proof. unfold is_u32. intros. codec_wf_tac. Qed.

Lemma length_frame r : rec_ok r -> length (frame r) = (16 + length r.2)%nat.
Proof.
  intros Hr. unfold frame. rewrite length_app, encode_length by (by apply rec_header_wf). done.
Qed.

Lemma frames_cons r recs : frames (r :: recs) = frame r ++ frames recs.
Proof. done. Qed.

Lemma frames_snoc recs r : frames (recs ++ [r]) = frames recs ++ frame r.
Proof. unfold frames. rewrite fmap_app, concat_app. csimpl. by rewrite app_nil_r. Qed.

Lemma frames_length_ge recs :
  Forall rec_ok recs -> (16 * length recs <= length (frames recs))%nat.
Proof.
  induction 1 as [|r recs Hr _ IH]; [done|].
  rewrite frames_cons, length_app, length_frame by done. simpl. lia.
Qed.

Lemma fits_count recs : Forall rec_ok recs -> fits recs -> (length recs < 256)%nat.
Proof. intros Hr Hf. pose proof (frames_length_ge _ Hr). unfold fits in Hf. lia. Qed.

Lemma length_block_image magic seq recs :
  is_u32 magic -> is_u32 seq -> Forall rec_ok recs -> fits recs ->
  length (block_image magic seq recs) = 4096%nat.
Proof.
  intros Hm Hs Hr Hf. pose proof (fits_count _ Hr Hf). unfold block_image, fits in *.
  rewrite !length_app, length_zeros, encode_length; [simpl; lia|].
  apply block_header_wf; unfold is_u32 in *; lia.
Qed.

Lemma bytes_frames recs : Forall rec_ok recs -> bytes (frames recs).
Proof.
  induction 1 as [|r recs Hr _ IH]; [constructor|]. rewrite frames_cons. unfold frame.
  rewrite !bytes_app. split_and!; auto; [|apply Hr]. by apply encode_bytes, rec_header_wf.
Qed.

Lemma bytes_block_image magic seq recs :
  is_u32 magic -> is_u32 seq -> Forall rec_ok recs -> fits recs ->
  bytes (block_image magic seq recs).
Proof.
  intros Hm Hs Hr Hf. pose proof (fits_count _ Hr Hf). unfold block_image.
  rewrite !bytes_app. split_and!; auto using bytes_frames, bytes_zeros.
  apply encode_bytes, block_header_wf; unfold is_u32 in *; lia.
Qed.

Lemma ParseRecordHeader_encode h rest : codec_wf h -> ParseRecordHeader (encode h ++ rest) = h.
Proof. intros Hh. unfold ParseRecordHeader. by rewrite UnmarshalBinary_encode. Qed.

Lemma ParseJournalBlockHeader_encode h rest :
  codec_wf h -> ParseJournalBlockHeader (encode h ++ rest) = h.
Proof. intros Hh. unfold ParseJournalBlockHeader. by rewrite UnmarshalBinary_encode. Qed.

Lemma ParseJournalBlockHeader_image magic seq recs :
  is_u32 magic -> is_u32 seq -> Forall rec_ok recs -> fits recs ->
  ParseJournalBlockHeader (block_image magic seq recs)
  = mkJournalBlockHeader magic seq (Z.of_nat (length recs)) 0.
Proof.
  intros Hm Hs Hr Hf. pose proof (fits_count _ Hr Hf).
  apply ParseJournalBlockHeader_encode, block_header_wf; unfold is_u32 in *; lia.
Qed.

(** Overwriting the header of a block that starts with one. *)
Lemma MarshalJournalBlockHeader_over pre rest h :
  length pre = 16%nat -> codec_wf h -> MarshalJournalBlockHeader (pre ++ rest) h = encode h ++ rest.
Proof.
  intros Hp Hh. unfold MarshalJournalBlockHeader. rewrite Marshal_encode by done.
  pose proof (blit_app [] (encode h) pre rest) as E.
  change (length (@nil Z)) with 0%nat in E.
  rewrite !app_nil_l in E. apply E. by rewrite encode_length.
Qed.

Lemma init_block_image seq : is_u32 seq -> init_block seq = block_image MagicJournal seq [].
Proof.
  intros Hs. unfold init_block, JournalBlockSize. change 4096%nat with (16 + 4080)%nat.
  rewrite zeros_app, MarshalJournalBlockHeader_over; [done|apply length_zeros|].
  apply block_header_wf; unfold is_u32, MagicJournal in *; lia.
Qed.

(** Writing a record header and its payload at the end of the records. *)
Lemma blit_frame pre r n :
  rec_ok r -> (length (frame r) <= n)%nat ->
  blit (length pre + 16) r.2 (blit (length pre) (encode (rec_header r)) (pre ++ zeros n))
  = pre ++ frame r ++ zeros (n - length (frame r)).
Proof.
  intros Hr Hn. pose proof (encode_length _ (rec_header_wf r Hr)) as Hh.
  change (Size RecordHeader) with 16%nat in Hh. pose proof (length_frame r Hr) as Hf.
  replace n with (16 + (length r.2 + (n - length (frame r))))%nat at 1 by lia.
  rewrite !zeros_app.
  rewrite blit_app by (rewrite length_zeros, Hh; done).
  rewrite (app_assoc pre). replace (length pre + 16)%nat with (length (pre ++ encode (rec_header r)))
    by (rewrite length_app, Hh; done).
  rewrite blit_app by apply length_zeros. unfold frame. by rewrite <- !app_assoc.
Qed.

Lemma append_record_image seq recs r :
  is_u32 seq -> Forall rec_ok recs -> rec_ok r -> fits (recs ++ [r]) ->
  append_record (block_image MagicJournal seq recs) (16 + length (frames recs)) r.1 r.2
  = block_image MagicJournal seq (recs ++ [r]).
Proof.
  intros Hs Hrecs Hr Hf.
  assert (Hall : Forall rec_ok (recs ++ [r])) by (apply Forall_app; auto).
  pose proof (fits_count _ Hall Hf) as Hc. rewrite length_app in Hc. simpl in Hc.
  assert (Hm : is_u32 MagicJournal) by (unfold is_u32, MagicJournal; lia).
  assert (Hw : forall n, (n < 256)%nat -> codec_wf (mkJournalBlockHeader MagicJournal seq (Z.of_nat n) 0))
    by (intros; apply block_header_wf; auto; unfold is_u32; lia).
  unfold append_record, JournalRecordHdrSize. rewrite u32_small
    by (destruct Hr as (_ & _ & _ & ?); unfold is_u32; lia).
  change (mkRecordHeader _ _ _ _) with (rec_header r).
  rewrite Marshal_encode by (by apply rec_header_wf).
  unfold fits in Hf. rewrite frames_snoc, length_app in Hf.
  set (h := encode (mkJournalBlockHeader MagicJournal seq (Z.of_nat (length recs)) 0)).
  assert (Hh : length h = 16%nat) by (unfold h; rewrite encode_length by (apply Hw; lia); done).
  assert (Hp : forall rest, ParseJournalBlockHeader (h ++ rest)
    = mkJournalBlockHeader MagicJournal seq (Z.of_nat (length recs)) 0)
    by (intros; apply ParseJournalBlockHeader_encode, Hw; lia).
  cbv zeta.
  assert (E : blit (16 + length (frames recs) + 16) r.2
      (blit (16 + length (frames recs)) (encode (rec_header r)) (block_image MagicJournal seq recs))
    = h ++ frames recs ++ frame r ++ zeros (4096 - 16 - length (frames recs) - length (frame r))).
  { unfold block_image. fold h. rewrite (app_assoc h).
    replace (16 + length (frames recs))%nat with (length (h ++ frames recs)) by (rewrite length_app; lia).
    rewrite blit_frame by (auto; lia). by rewrite <- app_assoc. }
  rewrite E. clear E.
  rewrite Hp.
  cbn [jb_Magic jb_BlockSeq jb_RecordCount jb_Reserved].
  rewrite u32_small by (unfold is_u32; lia).
  replace (Z.of_nat (length recs) + 1) with (Z.of_nat (length (recs ++ [r])))
    by (rewrite length_app; simpl; lia).
  rewrite MarshalJournalBlockHeader_over by (auto; apply Hw; rewrite length_app; simpl; lia).
  unfold block_image. rewrite frames_snoc, (length_app (frames recs)), <- !app_assoc.
  by rewrite Nat.sub_add_distr.
Qed.

Lemma VerifyJournalRecordChecksum_header r :
  VerifyJournalRecordChecksum r.1 (rh_Flags (rec_header r)) r.2 (rh_Checksum (rec_header r)) = true.
Proof.
  unfold VerifyJournalRecordChecksum. simpl. case_match; [done|]. apply Z.eqb_refl.
Qed.

(** The iteration over framed records, from an offset inside a block. *)
Lemma iterate_frames {S E} (visit : Z -> RecordHeader -> list Z -> S -> S * option E) recs :
  forall fuel pre post i s,
  Forall rec_ok recs -> (length recs < fuel)%nat ->
  iterate_loop visit fuel (pre ++ frames recs ++ post) (Z.of_nat (length (pre ++ frames recs ++ post)))
    (i + Z.of_nat (length recs)) i (Z.of_nat (length pre)) s
  = visit_all visit i recs s.
Proof.
  induction recs as [|r recs IH]; intros fuel pre post i s Hrecs Hfuel;
    (destruct fuel as [|fuel]; [simpl in Hfuel; lia|]); cbn [iterate_loop visit_all].
  - rewrite decide_False by (simpl length; lia). done.
  - apply Forall_cons_1 in Hrecs as [Hr Hrecs].
    pose proof (rec_header_wf r Hr) as Hw. pose proof (encode_length _ Hw) as Hh.
    change (Size RecordHeader) with 16%nat in Hh.
    set (buf := pre ++ frames (r :: recs) ++ post).
    assert (Hlen : length buf = (length pre + (16 + length r.2 + length (frames recs)) + length post)%nat)
      by (subst buf; rewrite frames_cons, !length_app, length_frame by done; lia).
    assert (Hdrop : drop (length pre) buf = encode (rec_header r) ++ r.2 ++ frames recs ++ post)
      by (subst buf; rewrite drop_app_length, frames_cons; unfold frame; by rewrite <- !app_assoc).
    rewrite decide_True by (simpl length; lia). rewrite decide_False by lia.
    rewrite Nat2Z.id, Hdrop, ParseRecordHeader_encode by done.
    cbn [rec_header rh_DataLen]. fold (rec_header r).
    rewrite decide_False by lia. rewrite decide_False by lia.
    replace (Z.to_nat (Z.of_nat (length pre) + 16)) with (length pre + 16)%nat by lia.
    replace (Z.to_nat (Z.of_nat (length pre) + 16 + Z.of_nat (length r.2)))
      with (length pre + 16 + length r.2)%nat by lia.
    assert (Hs : slice (length pre + 16) (length pre + 16 + length r.2) buf = r.2).
    { subst buf. rewrite frames_cons. unfold frame.
      rewrite <- !app_assoc, (app_assoc pre). apply slice_app'; [rewrite length_app; lia|done]. }
    rewrite Hs. destruct (visit i (rec_header r) r.2 s) as [s' [e|]]; [done|].
    specialize (IH fuel (pre ++ frame r) post (i + 1) s' Hrecs).
    rewrite <- IH by (simpl in Hfuel; lia). subst buf. rewrite frames_cons, <- !app_assoc.
    f_equal; [simpl length; lia|]. rewrite length_app, length_frame by done. lia.
Qed.

Lemma iterate_block_image {S E} (visit : Z -> RecordHeader -> list Z -> S -> S * option E)
    magic seq recs s :
  is_u32 magic -> is_u32 seq -> Forall rec_ok recs -> fits recs ->
  IterateJournalBlockRecords visit (block_image magic seq recs) 4096 (Z.of_nat (length recs)) s
  = visit_all visit 0 recs s.
Proof.
  intros Hm Hs Hr Hf. pose proof (fits_count _ Hr Hf) as Hc.
  pose proof (length_block_image magic seq recs Hm Hs Hr Hf) as Hl.
  unfold IterateJournalBlockRecords, block_image in *.
  set (h := encode (mkJournalBlockHeader magic seq (Z.of_nat (length recs)) 0)) in *.
  assert (Hh : length h = 16%nat).
  { unfold h. rewrite encode_length; [done|]. apply block_header_wf; unfold is_u32 in *; lia. }
  change (Z.to_nat (4096 / 16)) with 256%nat.
  pose proof (iterate_frames visit recs 257 h (zeros (4096 - 16 - length (frames recs))) 0 s Hr) as Hi.
  rewrite Hl, Hh in Hi. apply Hi. lia.
Qed.

(** The length a parsed header claims is not negative. *)
Lemma ParseRecordHeader_DataLen buf : bytes buf -> 0 <= rh_DataLen (ParseRecordHeader buf).
Proof.
  intros Hb. unfold ParseRecordHeader.
  destruct (decide (length buf < 16)%nat) as [Hs|Hs].
  - rewrite UnmarshalBinary_short by done. done.
  - destruct (UnmarshalBinary_total (A := RecordHeader) buf Hb) as (h & -> & [Hw _] & _);
      [change (Size RecordHeader) with 16%nat; lia|].
    apply Forall_cons_1 in Hw as [_ Hw]. apply Forall_cons_1 in Hw as [_ Hw].
    apply Forall_cons_1 in Hw as [Hw _]. apply Hw.
Qed.

(** The loop on an arbitrary block. *)
Lemma iterate_loop_total {S E} (visit : Z -> RecordHeader -> list Z -> S -> S * option E)
    buf count : forall fuel i off s,
  bytes buf -> 0 <= off <= Z.of_nat (length buf) ->
  Z.of_nat (length buf) < off + 16 * Z.of_nat fuel ->
  let r := (iterate_loop visit fuel buf (Z.of_nat (length buf)) count i off s).2 in
  r <> IterFuel /\ r <> IterPanic.
Proof.
  induction fuel as [|fuel IH]; intros i off s Hb Ho Hf; cbv zeta;
    cbn [iterate_loop]; [lia|].
  destruct (decide (i < count /\ off + 16 <= Z.of_nat (length buf))) as [[_ Hw]|]; [|done].
  rewrite decide_False by lia.
  pose proof (ParseRecordHeader_DataLen _ (bytes_drop (Z.to_nat off) _ Hb)) as Hd.
  case_decide; [done|].
  destruct (visit _ _ _ _) as [s' [e|]]; [done|]. apply IH; [done|lia|lia].
Qed.

(** The records of a block, collected, with a checksum check of each. *)
Definition collect (i : Z) (hdr : RecordHeader) (payload : list Z) (acc : list jrec)
    : list jrec * option Z :=
  if VerifyJournalRecordChecksum (rh_Type hdr) (rh_Flags hdr) payload (rh_Checksum hdr)
  then (acc ++ [(rh_Type hdr, payload)], None) else (acc, Some i).

Lemma visit_all_collect recs : forall i acc,
  visit_all collect i recs acc = (acc ++ recs, IterDone).
Proof.
  induction recs as [|r recs IH]; intros i acc; cbn [visit_all]; [by rewrite app_nil_r|].
  unfold collect at 1. change (rh_Type (rec_header r)) with r.1.
  rewrite VerifyJournalRecordChecksum_header, IH, <- app_assoc. by destruct r.
Qed.

(** The appends of [writeRecordLocked] to one block, from a fresh one. *)
Definition append_all (seq : Z) (recs : list jrec) : list Z * nat :=
  foldl (fun b r => (append_record b.1 b.2 r.1 r.2, (b.2 + 16 + length r.2)%nat))
    (init_block seq, JournalBlockHdrSize) recs.

Lemma append_all_image seq recs :
  is_u32 seq -> Forall rec_ok recs -> fits recs ->
  append_all seq recs = (block_image MagicJournal seq recs, (16 + length (frames recs))%nat).
Proof.
  intros Hs. induction recs as [|r recs IH] using rev_ind; intros Hr Hf.
  - unfold append_all. simpl foldl. by rewrite init_block_image.
  - pose proof Hr as Hr'. apply Forall_app in Hr' as [Hrs Hr1]. apply Forall_cons_1 in Hr1 as [Hr1 _].
    unfold append_all in *. rewrite foldl_app, IH; [|done|].
    + cbn [foldl fst snd]. rewrite append_record_image by done.
      rewrite frames_snoc, length_app, length_frame by done. f_equal. lia.
    + unfold fits in *. rewrite frames_snoc, length_app in Hf. lia.
Qed.

Lemma checkpoint_rec_ok (cp : Checkpoint) :
  codec_wf cp ->
  Forall rec_ok [(JRN_CHECKPOINT, Marshal cp)] /\ fits [(JRN_CHECKPOINT, Marshal cp)].
Proof.
  intros Hcp. pose proof (length_Marshal cp Hcp) as Hl. change (Size Checkpoint) with 56%nat in Hl.
  assert (Hr : rec_ok (JRN_CHECKPOINT, Marshal cp)).
  { split; [unfold is_u32, JRN_CHECKPOINT; simpl; lia|]. split; [by apply bytes_Marshal|].
    cbn [snd]. split; [|rewrite Hl; reflexivity]. intros E. by rewrite E in Hl. }
  split; [apply Forall_cons_2; [done|apply Forall_nil_2]|].
  unfold fits. rewrite frames_cons, length_app, length_frame by done.
  cbn [snd]. rewrite Hl. simpl. lia.
Qed.

Lemma WriteCheckpointBlock_image seq (cp : Checkpoint) :
  is_u32 seq -> codec_wf cp ->
  WriteCheckpointBlock (zeros JournalBlockSize) seq cp
  = block_image MagicCheckpoint seq [(JRN_CHECKPOINT, Marshal cp)].
Proof.
  intros Hs Hcp. destruct (checkpoint_rec_ok cp Hcp) as [Hr Hf].
  apply Forall_cons_1 in Hr as [Hr _].
  assert (Hw : codec_wf (mkJournalBlockHeader MagicCheckpoint seq 1 0))
    by (apply block_header_wf; unfold is_u32, MagicCheckpoint in *; lia).
  pose proof (encode_length _ Hw) as Hh. change (Size JournalBlockHeader) with 16%nat in Hh.
  unfold WriteCheckpointBlock, JournalBlockHdrSize, JournalRecordHdrSize, JournalBlockSize.
  rewrite u32_small by (destruct Hr as (_ & _ & _ & ?); unfold is_u32; simpl in *; lia).
  change (mkRecordHeader _ _ _ _) with (rec_header (JRN_CHECKPOINT, Marshal cp)).
  rewrite (Marshal_encode (rec_header _)) by (by apply rec_header_wf).
  change 4096%nat with (16 + 4080)%nat.
  rewrite zeros_app, MarshalJournalBlockHeader_over by (done || apply length_zeros).
  change (Marshal cp) with (JRN_CHECKPOINT, Marshal cp).2 at 1.
  unfold fits in Hf. rewrite frames_cons, app_nil_r in Hf.
  pose proof (blit_frame (encode (mkJournalBlockHeader MagicCheckpoint seq 1 0))
    (JRN_CHECKPOINT, Marshal cp) 4080 Hr ltac:(lia)) as E.
  rewrite Hh in E. cbv zeta. rewrite E. unfold block_image.
  by rewrite frames_cons, app_nil_r.
Qed.

(** ** Theorems *)

(** C10 A journal block filled by appends is read back exactly: iterating over
    it visits the appended records, in order, with their types and payloads,
    and every record passes its checksum. *)
Theorem journal_block_roundtrip (seq : Z) (recs : list jrec)
  (Hs : is_u32 seq) (Hr : Forall rec_ok recs) (Hf : fits recs) :
  let buf := (append_all seq recs).1 in
  jb_Magic (ParseJournalBlockHeader buf) = MagicJournal /\
  IterateJournalBlockRecords collect buf 4096 (jb_RecordCount (ParseJournalBlockHeader buf)) []
  = (recs, IterDone).
Proof.
  rewrite append_all_image by done. cbn [fst].
  assert (Hm : is_u32 MagicJournal) by (unfold is_u32, MagicJournal; lia).
  rewrite ParseJournalBlockHeader_image by done. split; [done|].
  cbn [jb_RecordCount]. rewrite iterate_block_image by done. apply visit_all_collect.
Qed.

Lemma journal_block_roundtrip_witness :
  let recs := [(JRN_TRIE_ALLOC, le_put 8 77 ++ zeros 8); (JRN_SYMLINK_DATA, [1; 2; 3])] in
  IterateJournalBlockRecords collect (append_all 5 recs).1 4096
    (jb_RecordCount (ParseJournalBlockHeader (append_all 5 recs).1)) [] = (recs, IterDone).
Proof.
  refine (proj2 (journal_block_roundtrip 5 [(JRN_TRIE_ALLOC, le_put 8 77 ++ zeros 8);
    (JRN_SYMLINK_DATA, [1; 2; 3])] _ _ _)).
  - unfold is_u32. lia.
  - repeat apply Forall_cons_2; [| |apply Forall_nil_2]; (split; [unfold is_u32, JRN_TRIE_ALLOC, JRN_SYMLINK_DATA; simpl; lia|]);
      (split; [|split; [discriminate|simpl; lia]]).
    + apply bytes_app. split; [apply bytes_le_put|apply bytes_zeros].
    + repeat (apply Forall_cons_2; [unfold is_u8; lia|]). apply Forall_nil_2.
  - apply Nat.leb_le. vm_compute. reflexivity.
Defined.

(** Iterating over any block, whatever its bytes and whatever record count
    its header claims, terminates within one round per possible record header
    and never slices out of range; it ends normally, with the visitor's error
    or with the overflow error. *)
Theorem IterateJournalBlockRecords_total {S E}
  (visit : Z -> RecordHeader -> list Z -> S -> S * option E) (buf : list Z) (recordCount : Z) (s : S)
  (Hb : bytes buf) (Hl : 16 <= Z.of_nat (length buf)) :
  let r := (IterateJournalBlockRecords visit buf (Z.of_nat (length buf)) recordCount s).2 in
  r <> IterFuel /\ r <> IterPanic.
Proof.
  apply iterate_loop_total; [done| |]; unfold JournalBlockHdrSize.
  - lia.
  - pose proof (Z.div_mod (Z.of_nat (length buf)) 16). pose proof (Z.mod_pos_bound (Z.of_nat (length buf)) 16).
    assert (0 <= Z.of_nat (length buf) / 16) by (apply Z.div_pos; lia). lia.
Qed.

Lemma IterateJournalBlockRecords_total_witness :
  (IterateJournalBlockRecords collect (zeros 64) 64 1000000 []).2 <> IterFuel.
Proof.
  exact (proj1 (IterateJournalBlockRecords_total collect (zeros 64) 1000000 []
    (bytes_zeros 64) ltac:(discriminate))).
Defined.

(** The checkpoint block that the runtime, fsck and mkfs share carries the
    checkpoint magic and exactly one record, a checkpoint whose payload parses
    back to the checkpoint written. *)
Theorem WriteCheckpointBlock_roundtrip (seq : Z) (cp : Checkpoint)
  (Hs : is_u32 seq) (Hcp : codec_wf cp) :
  let buf := WriteCheckpointBlock (zeros JournalBlockSize) seq cp in
  ParseJournalBlockHeader buf = mkJournalBlockHeader MagicCheckpoint seq 1 0 /\
  IterateJournalBlockRecords collect buf 4096 1 [] = ([(JRN_CHECKPOINT, Marshal cp)], IterDone) /\
  unmarshal (Marshal cp) = Ret (Some cp).
Proof.
  rewrite WriteCheckpointBlock_image by done.
  assert (Hm : is_u32 MagicCheckpoint) by (unfold is_u32, MagicCheckpoint; lia).
  destruct (checkpoint_rec_ok cp Hcp) as [Hr Hf]. cbv zeta.
  split; [by rewrite ParseJournalBlockHeader_image|].
  split; [|by apply unmarshal_Marshal].
  pose proof (iterate_block_image collect MagicCheckpoint seq [(JRN_CHECKPOINT, Marshal cp)] [] Hm Hs Hr Hf) as E.
  change (Z.of_nat (length _)) with 1 in E. rewrite E. apply visit_all_collect.
Qed.

Lemma WriteCheckpointBlock_roundtrip_witness :
  (IterateJournalBlockRecords collect
     (WriteCheckpointBlock (zeros JournalBlockSize) 3 (mkCheckpoint 1 0 0 10 20 30 40 0)) 4096 1 []).2
  = IterDone.
Proof.
  destruct (WriteCheckpointBlock_roundtrip 3 (mkCheckpoint 1 0 0 10 20 30 40 0)) as (_ & E & _);
    [unfold is_u32; lia|codec_wf_tac|].
  rewrite E. reflexivity.
Defined.
