(* ===== verification/Superblock.v ===== *)
(** * The superblock (briefs/superblock.go, briefs/briefs.go)

    Creation of a superblock, the validation of one read from block 0, and the
    inode-table indexing formula.  What is written to block 0 is read back, the
    gates reject the images they are meant to reject, and inode numbers map
    injectively to slots that lie inside their block. *)

From stdpp Require Import base numbers list option.
From Stdlib Require Import ZArith Lia.
From S2P Require Import Prelude Codec JournalRecord.

Local Open Scope Z_scope.

Definition MagicSuperblock : Z := 0x504C434E.
Definition BrieFSMajorVersion : Z := 0.
Definition BrieFSMinorVersion : Z := 9.
Definition BrieFSPatchVersion : Z := 7.
Definition FeatureIncompatBtree : Z := 1.
Definition DefaultJournalMinBlocks : Z := 64.
Definition DefaultJournalMaxBlocks : Z := 4096.

Inductive sb_error :=
| ErrUUID                        (* uuid.Parse rejects the string *)
| ErrReadSuper                   (* the read of block 0 fails *)
| ErrUnmarshal (e : codec_error)
| ErrBadMagic (magic : Z)
| ErrMinorVersion (minor : Z)
| ErrNotBtree (feat : Z)
| ErrUnknownFeature (feat : Z).

(** [uuid.Parse] and [uuid.New] of github.com/google/uuid, and the clock, are
    parameters. *)
Section new.
Variable uuid_Parse : list Z -> option (list Z).
Variable uuid_New : list Z.
Variable now : Z.

Definition NewSuperblock (totalBlocks blockSize inodeSize journalBlocks : Z) (label uuidStr : list Z)
    : res sb_error SuperblockLayout :=
  fsUuid ← match uuidStr with
           | [] => Ret uuid_New
           | _ => match uuid_Parse uuidStr with Some u => Ret u | None => Err ErrUUID end
           end;
  let off := u64 (totalBlocks - journalBlocks) in
  Ret {| sb_Magic := MagicSuperblock;
         sb_MajorVer := BrieFSMajorVersion;
         sb_MinorVer := BrieFSMinorVersion;
         sb_PatchVer := BrieFSPatchVersion;
         sb_TotalBlocks := totalBlocks;
         sb_DataBlocks := 0;
         sb_BlockSize := blockSize;
         sb_InodeSize := inodeSize;
         sb_BlocksGrp := 1024;
         sb_InodesGrp := 256;
         sb_FSCreated := u64 now;
         sb_FSLastMount := 0;
         sb_FSLastChkpt := 0;
         sb_FreeDataBlks := 0;
         sb_FreeInodes := 0;
         sb_RootIno := 1;
         sb_FeatCompat := 0;
         sb_FeatROCompat := 0;
         sb_FeatIncompat := FeatureIncompatBtree;
         sb_UUID := blit 0 fsUuid (zeros 16);
         sb_EATOffset := 0;
         sb_EATBlocks := 0;
         sb_TrieRootBlock := 0;
         sb_TrieBlocksUsed := 0;
         sb_TrieNodePoolStart := 0;
         sb_TrieNodePoolSize := 0;
         sb_InodeBMOffset := 0;
         sb_InodeBMBlocks := 0;
         sb_InodeTableOffset := 0;
         sb_JournalOffset := off;
         sb_JournalBlocks := journalBlocks;
         sb_CheckpointSeq := 0;
         sb_JournalLogStart := off;
         sb_JournalLogEnd := off;
         sb_ReservedJournal := [0; 0; 0; 0];
         sb_Label := blit 0 label (zeros 64);
         sb_Reserved := zeros 648 |}.

End new.

(** [buf] is what the read of the first block returns, [None] when it fails. *)
Definition ReadSuperblock (buf : option (list Z)) : res sb_error SuperblockLayout :=
  match buf with
  | None => Err ErrReadSuper
  | Some buf =>
      match UnmarshalBinary buf with
      | Err e => Err (ErrUnmarshal e)
      | Panic => Panic
      | Ret sb =>
          if negb (sb_Magic sb =? MagicSuperblock) then Err (ErrBadMagic (sb_Magic sb)) else
          if negb (sb_MinorVer sb =? BrieFSMinorVersion) then Err (ErrMinorVersion (sb_MinorVer sb)) else
          if Z.land (sb_FeatIncompat sb) FeatureIncompatBtree =? 0
          then Err (ErrNotBtree (sb_FeatIncompat sb)) else
          if negb (Z.ldiff (sb_FeatIncompat sb) FeatureIncompatBtree =? 0)
          then Err (ErrUnknownFeature (Z.ldiff (sb_FeatIncompat sb) FeatureIncompatBtree)) else
          Ret sb
      end
  end.

(** The two divisions panic when their divisor is zero. *)
Definition InodeLocation (sb : SuperblockLayout) (ino : Z) : res sb_error (Z * Z) :=
  if sb_InodeSize sb =? 0 then Panic else
  let inodesPerBlock := sb_BlockSize sb / sb_InodeSize sb in
  let idx := u64 (ino - 1) in
  if inodesPerBlock =? 0 then Panic else
  Ret (u64 (sb_InodeTableOffset sb + idx / inodesPerBlock),
       u64 ((idx mod inodesPerBlock) * sb_InodeSize sb)).

Definition DefaultJournalBlocks (totalBlocks : Z) : Z :=
  let n := totalBlocks / 4096 in
  let n := if n <? DefaultJournalMinBlocks then DefaultJournalMinBlocks else n in
  if DefaultJournalMaxBlocks <? n then DefaultJournalMaxBlocks else n.

(** [buf := make([]byte, blockSize); copy(buf, data)]: block 0 as the journal
    writes it. *)
Definition superblock_block (sb : SuperblockLayout) : list Z := blit 0 (Marshal sb) (zeros 4096).

(** A superblock of this version: what [ReadSuperblock] demands. *)
Definition sb_current (sb : SuperblockLayout) : Prop :=
  codec_wf sb /\ sb_Magic sb = MagicSuperblock /\ sb_MinorVer sb = BrieFSMinorVersion /\
  sb_FeatIncompat sb = FeatureIncompatBtree.

Lemma superblock_block_eq sb :
  codec_wf sb -> superblock_block sb = encode sb ++ zeros 3072.
Proof.
  intros Hs. unfold superblock_block. pose proof (length_Marshal sb Hs) as Hl.
  change (Size SuperblockLayout) with 1024%nat in Hl.
  rewrite blit_zeros, Hl by lia. by rewrite Marshal_encode.
Qed.

Lemma UnmarshalBinary_superblock_block sb :
  codec_wf sb -> UnmarshalBinary (superblock_block sb) = Ret sb.
Proof. intros Hs. rewrite superblock_block_eq by done. by apply UnmarshalBinary_encode. Qed.

Lemma length_superblock_block sb : length (superblock_block sb) = 4096%nat.
Proof. unfold superblock_block. rewrite length_blit; rewrite length_zeros; lia. Qed.

Lemma ReadSuperblock_block sb :
  sb_current sb -> ReadSuperblock (Some (superblock_block sb)) = Ret sb.
Proof.
  intros (Hs & Hm & Hv & Hf). unfold ReadSuperblock.
  rewrite UnmarshalBinary_superblock_block by done. by rewrite Hm, Hv, Hf.
Qed.

(** A bit set of which only the lowest bit is allowed and required. *)
Lemma only_bit_0 f :
  0 <= f -> Z.land f 1 <> 0 -> Z.ldiff f 1 = 0 -> f = 1.
Proof.
  intros Hf Hl Hd.
  assert (E : Z.land f 1 = f).
  { pose proof (Z.lor_ldiff_and f 1) as E. by rewrite Hd, Z.lor_0_l in E. }
  pose proof (Z.land_ones f 1 ltac:(lia)) as Eo. change (Z.ones 1) with 1 in Eo.
  pose proof (Z.mod_pos_bound f (2 ^ 1) ltac:(lia)). lia.
Qed.

(** A field of a well-formed superblock is a 64-bit number. *)
Lemma sb_FeatIncompat_nonneg sb : codec_wf sb -> 0 <= sb_FeatIncompat sb.
Proof.
  intros [Hw _]. do 18 (apply Forall_cons_1 in Hw as [_ Hw]).
  apply Forall_cons_1 in Hw as [[H _] _]. exact H.
Qed.

Lemma length_blit_zeros src n : length (blit 0 src (zeros n)) = n.
Proof. rewrite length_blit; rewrite length_zeros; lia. Qed.

Lemma blit_zeros_cut src n : blit 0 src (zeros n) = take n src ++ zeros (n - length src).
Proof.
  unfold blit. rewrite take_0, length_zeros, Nat.sub_0_r. unfold zeros.
  by rewrite drop_replicate.
Qed.

Lemma bytes_blit_zeros src n : bytes src -> bytes (blit 0 src (zeros n)).
Proof. intros Hs. rewrite blit_zeros_cut. apply bytes_app. auto with briefs. Qed.

Lemma new_superblock_wf total bs isz jb off now label u :
  is_u64 total -> is_u64 bs -> is_u64 isz -> is_u64 jb -> is_u64 off ->
  bytes label -> bytes u ->
  codec_wf (mkSuperblockLayout MagicSuperblock BrieFSMajorVersion BrieFSMinorVersion BrieFSPatchVersion
    total 0 bs isz 1024 256 (u64 now) 0 0 0 0 1 0 0 FeatureIncompatBtree (blit 0 u (zeros 16))
    0 0 0 0 0 0 0 0 0 off jb 0 off off [0; 0; 0; 0] (blit 0 label (zeros 64)) (zeros 648)).
Proof.
  intros Ht Hb Hi Hj Ho Hl Hu. pose proof (u64_range now) as Hn.
  unfold is_u64, MagicSuperblock, BrieFSMajorVersion, BrieFSMinorVersion, BrieFSPatchVersion,
    FeatureIncompatBtree in *. split; [|reflexivity].
  repeat apply Forall_cons_2; try apply Forall_nil_2; cbn -[blit zeros u64]; try lia;
    split; auto using length_blit_zeros, bytes_blit_zeros, length_zeros, bytes_zeros.
Qed.

(** The location of an inode, with the division written out: [i - 1] is
    [n * q + r] for the [n] inodes of a block. *)
Lemma InodeLocation_eq sb i :
  0 < sb_InodeSize sb <= sb_BlockSize sb -> sb_BlockSize sb <= 4096 ->
  0 < i < 2 ^ 63 -> 0 <= sb_InodeTableOffset sb < 2 ^ 63 ->
  exists n q r, i = n * q + r + 1 /\ n = sb_BlockSize sb / sb_InodeSize sb /\
    0 <= r < n /\ 0 <= q /\
    InodeLocation sb i = Ret (sb_InodeTableOffset sb + q, r * sb_InodeSize sb) /\
    r * sb_InodeSize sb + sb_InodeSize sb <= sb_BlockSize sb.
Proof.
  intros Hsz Hbs Hi Ho. unfold InodeLocation.
  rewrite (proj2 (Z.eqb_neq _ 0)) by lia. cbv zeta.
  pose proof (Z.div_mod (sb_BlockSize sb) (sb_InodeSize sb) ltac:(lia)) as Hd.
  pose proof (Z.mod_pos_bound (sb_BlockSize sb) (sb_InodeSize sb) ltac:(lia)) as Hm.
  set (n := sb_BlockSize sb / sb_InodeSize sb) in *. assert (0 < n) by nia.
  rewrite (proj2 (Z.eqb_neq n 0)) by lia.
  rewrite (u64_small (i - 1)) by (unfold is_u64; lia).
  pose proof (Z.div_mod (i - 1) n ltac:(lia)) as Hdi.
  pose proof (Z.mod_pos_bound (i - 1) n ltac:(lia)) as Hmi.
  assert (0 <= (i - 1) / n <= i - 1) by (split; [apply Z.div_pos; lia | apply Z.div_le_upper_bound; nia]).
  set (q := (i - 1) / n) in *. set (r := (i - 1) mod n) in *.
  assert (r * sb_InodeSize sb + sb_InodeSize sb <= sb_BlockSize sb) by nia.
  exists n, q, r. rewrite !u64_small by (unfold is_u64; nia). split_and!; auto; lia.
Qed.

(** ** Theorems *)

(** [ReadSuperblock] accepts a block of bytes exactly when it parses to a
    superblock with the magic, this minor version and the B+ tree feature as
    its only incompatible feature, and it then returns what the block holds. *)
Theorem ReadSuperblock_accepts (buf : list Z) (sb : SuperblockLayout)
  (Hb : bytes buf) (Hl : (1024 <= length buf)%nat) :
  ReadSuperblock (Some buf) = Ret sb <-> sb_current sb /\ encode sb = take 1024 buf.
Proof.
  destruct (UnmarshalBinary_total (A := SuperblockLayout) buf Hb) as (s & E & Hw & He);
    [exact Hl|].
  unfold ReadSuperblock. rewrite E. change (Size SuperblockLayout) with 1024%nat in He. split.
  - intros H. repeat case_match; simplify_eq. split; [|done].
    apply negb_false_iff, Z.eqb_eq in H0, H1, H3. apply Z.eqb_neq in H2.
    split_and!; auto. apply only_bit_0; auto using sb_FeatIncompat_nonneg.
  - intros ((Hs & Hm & Hv & Hf) & He').
    assert (s = sb) as ->.
    { apply (f_equal (fun l => UnmarshalBinary (A := SuperblockLayout) (l ++ []))) in He.
      rewrite <- He', !UnmarshalBinary_encode in He by done. by injection He. }
    by rewrite Hm, Hv, Hf.
Qed.

Lemma ReadSuperblock_accepts_witness :
  exists sb, ReadSuperblock (Some (superblock_block sb)) = Ret sb.
Proof.
  pose proof (new_superblock_wf 10000 4096 512 64 9936 1700000000 [66; 83] (zeros 16)) as Hw.
  set (sb := mkSuperblockLayout _ _ _ _ _ _ _ _ _ _ _ _ _ _ _ _ _ _ _ _ _ _ _ _ _ _ _ _ _ _ _ _ _ _ _ _ _) in Hw.
  assert (Hsb : codec_wf sb).
  { apply Hw; try (unfold is_u64; lia); [|apply bytes_zeros].
    repeat (apply Forall_cons_2; [unfold is_u8; lia|]). apply Forall_nil_2. }
  exists sb. apply (ReadSuperblock_accepts (superblock_block sb) sb).
  - rewrite superblock_block_eq by exact Hsb. apply bytes_app.
    split; [exact (encode_bytes sb Hsb)|apply bytes_zeros].
  - rewrite length_superblock_block. lia.
  - split; [exact (conj Hsb (conj eq_refl (conj eq_refl eq_refl)))|].
    rewrite superblock_block_eq by exact Hsb.
    rewrite take_app_length' by (symmetry; exact (encode_length sb Hsb)). reflexivity.
Defined.

(** The superblock mkfs starts from passes the mount gate once it is
    written to block 0, for every geometry, label and UUID; its log is empty
    and starts at the journal, which occupies the last blocks of the volume. *)
Theorem NewSuperblock_mountable uuid_Parse uuid_New now total bs isz jb label us sb
  (Hgeo : is_u64 total /\ is_u64 bs /\ is_u64 isz /\ 0 <= jb <= total)
  (Hbytes : bytes label /\ bytes uuid_New /\ forall s u, uuid_Parse s = Some u -> bytes u)
  (Hnew : NewSuperblock uuid_Parse uuid_New now total bs isz jb label us = Ret sb) :
  ReadSuperblock (Some (superblock_block sb)) = Ret sb /\
  sb_JournalLogStart sb = sb_JournalLogEnd sb /\
  sb_JournalLogStart sb = sb_JournalOffset sb /\
  sb_JournalOffset sb + sb_JournalBlocks sb = total /\
  sb_Label sb = take 64 label ++ zeros (64 - length label).
Proof.
  assert (Hsb : exists u, bytes u /\
    NewSuperblock (fun _ => Some u) u now total bs isz jb label us = Ret sb).
  { unfold NewSuperblock in *. destruct us as [|c us].
    - exists uuid_New. split; [apply Hbytes|exact Hnew].
    - destruct (uuid_Parse (c :: us)) as [u|] eqn:E; [|discriminate].
      exists u. split; [by apply (proj2 (proj2 Hbytes) _ _ E)|exact Hnew]. }
  destruct Hsb as (u & Hu & E). clear Hnew.
  assert (E' : Ret sb = NewSuperblock (fun _ => Some u) u now total bs isz jb label [])
    by (rewrite <- E; by destruct us). clear E.
  unfold NewSuperblock in E'. cbn [mbind res_bind] in E'. injection E' as ->.
  destruct Hgeo as (Ht & Hb & Hi & Hj).
  assert (is_u64 jb) by (unfold is_u64 in *; lia).
  split; [apply ReadSuperblock_block; split_and!; try reflexivity;
    apply new_superblock_wf; auto with briefs; apply Hbytes|].
  cbn -[blit zeros]. unfold is_u64 in *.
  rewrite u64_small by (unfold is_u64; lia). split_and!; try lia.
  apply blit_zeros_cut.
Qed.

Lemma NewSuperblock_mountable_witness :
  exists sb, NewSuperblock (fun _ => None) (zeros 16) 1700000000 10000 4096 512 64 [66; 83] [] = Ret sb /\
    ReadSuperblock (Some (superblock_block sb)) = Ret sb.
Proof.
  eexists. split; [reflexivity|].
  refine (proj1 (NewSuperblock_mountable (fun _ => None) (zeros 16) 1700000000 10000 4096 512 64
    [66; 83] [] _ _ _ eq_refl)).
  - unfold is_u64. lia.
  - split_and!; [|apply bytes_zeros|discriminate].
    repeat (apply Forall_cons_2; [unfold is_u8; lia|]). apply Forall_nil_2.
Defined.

(** Inode numbers and inode-table slots: for any inode size that divides
    into a block, distinct inode numbers have distinct slots, and each slot
    lies inside one block at or after the start of the table. *)
Theorem InodeLocation_injective sb i j bi oi bj oj
  (Hsz : 0 < sb_InodeSize sb <= sb_BlockSize sb) (Hbs : sb_BlockSize sb <= 4096)
  (Hi : 0 < i < 2 ^ 63) (Hj : 0 < j < 2 ^ 63) (Ho : 0 <= sb_InodeTableOffset sb < 2 ^ 63)
  (Ei : InodeLocation sb i = Ret (bi, oi)) (Ej : InodeLocation sb j = Ret (bj, oj)) :
  (i <> j -> (bi, oi) <> (bj, oj)) /\
  sb_InodeTableOffset sb <= bi /\ 0 <= oi /\ oi + sb_InodeSize sb <= sb_BlockSize sb.
Proof.
  destruct (InodeLocation_eq sb i Hsz Hbs Hi Ho) as (n & q & r & -> & Hn & Hr & Hq & E & Hin).
  rewrite E in Ei. injection Ei as <- <-.
  destruct (InodeLocation_eq sb j Hsz Hbs Hj Ho) as (n' & q' & r' & -> & Hn' & Hr' & Hq' & E' & Hin').
  rewrite E' in Ej. injection Ej as <- <-.
  assert (n' = n) as -> by (rewrite Hn, Hn'; done).
  split; [|lia]. intros Hne [= E1 E2]. apply Hne. nia.
Qed.

Lemma InodeLocation_injective_witness :
  let sb := mkSuperblockLayout 0 0 0 0 0 0 4096 512 0 0 0 0 0 0 0 0 0 0 0 [] 0 0 0 0 0 0 0 0 40
              0 0 0 0 0 [] [] [] in
  (41, 3584) <> ((42, 0) : Z * Z) /\ InodeLocation sb 16 = Ret (41, 3584).
Proof.
  intros sb. split; [|reflexivity].
  refine (proj1 (InodeLocation_injective sb 16 17 41 3584 42 0 _ _ _ _ _ eq_refl eq_refl) _);
    subst sb; simpl; lia.
Defined.

(** The default journal of any volume is a legal ring: between 64 and 4096
    blocks, so within the bounds the journal's own validation checks. *)
Theorem DefaultJournalBlocks_bounds total :
  64 <= DefaultJournalBlocks total <= 4096 /\
  (262144 <= total <= 16777216 -> DefaultJournalBlocks total = total / 4096).
Proof.
  unfold DefaultJournalBlocks, DefaultJournalMinBlocks, DefaultJournalMaxBlocks.
  destruct (Z.ltb_spec (total / 4096) 64).
  - split; [simpl; lia|]. intros Ht. pose proof (Z.div_le_lower_bound total 4096 64). lia.
  - destruct (Z.ltb_spec 4096 (total / 4096)); split; try lia.
    intros Ht. pose proof (Z.div_le_upper_bound total 4096 4096). lia.
Qed.
