(* ===== verification/Journal.v ===== *)
(** * The journal runtime (briefs/journal_write.go, briefs/journal_replay.go)

    The ring of journal blocks, the write, sync and checkpoint paths, and the
    walk that replay does at mount.  The journal mutates the in-memory
    superblock and writes blocks through to the device; the services it calls
    in the bridge (allocator sync, metadata drain, data drain, writeback) are
    an interface, [JournalHooks].  A run of an operation yields its result, the
    final state and the trace of its block writes and hook calls, so that the
    disk at every crash point is the disk after a prefix of the trace.

    Errors are values; the prefixes that callers wrap around them, nil
    receivers and the mutex are left out.  The block size is 4096, the only
    size the journal's own buffers have. *)

From stdpp Require Import base numbers list option gmap.
From Stdlib Require Import ZArith Lia.
From S2P Require Import Prelude Codec JournalRecord JournalBlock Superblock.

Local Open Scope Z_scope.

Definition JournalMinBlocks : Z := 4.
Definition JournalMaxBlocks : Z := 65536.
Definition JrnCheckpointInterval : Z := 4096.

Abbreviation disk := (gmap Z (list Z)).

(** ** The ring *)

Definition NextRingBlock (cur journalStart journalBlocks : Z) : Z :=
  let next := u64 (cur + 1) in
  if u64 (journalStart + journalBlocks) <=? next then journalStart else next.

Inductive walk_out (E : Type) :=
| WalkDone
| WalkRead (cur : Z)                 (* readBlock failed *)
| WalkBadMagic (cur magic : Z)       (* ErrJournalBadMagic *)
| WalkStop (e : E).                  (* the visitor's error *)
Arguments WalkDone {E}.
Arguments WalkRead {E} cur.
Arguments WalkBadMagic {E} cur magic.
Arguments WalkStop {E} e.

Section walk.
Context {S E : Type}.
Variable readBlock : Z -> option (list Z).
Variable visit : Z -> list Z -> S -> S * option E.

(** [iters] counts the iterations that are left of the [journalBlocks]. *)
Fixpoint walk_loop (iters : nat) (journalOffset journalBlocks start end_ cur : Z) (s : S)
    : S * walk_out E :=
  match iters with
  | O => (s, WalkDone)
  | Datatypes.S iters =>
      match readBlock cur with
      | None => (s, WalkRead cur)
      | Some buf =>
          let magic := jb_Magic (ParseJournalBlockHeader buf) in
          if negb (magic =? MagicJournal) && negb (magic =? MagicCheckpoint)
          then (s, WalkBadMagic cur magic) else
          match visit cur buf s with
          | (s, Some e) => (s, WalkStop e)
          | (s, None) =>
              if start =? end_ then (s, WalkDone) else
              let cur := NextRingBlock cur journalOffset journalBlocks in
              if cur =? end_ then (s, WalkDone) else
              walk_loop iters journalOffset journalBlocks start end_ cur s
          end
      end
  end.

Definition WalkJournalRing (journalOffset journalBlocks start end_ : Z) (s : S) : S * walk_out E :=
  walk_loop (Z.to_nat journalBlocks) journalOffset journalBlocks start end_ start s.

End walk.

(** ** State *)
Record Journal := mkJournal {
  j_sb : SuperblockLayout;
  j_curBlock : list Z;
  j_blockSeq : Z;
  j_writeOffset : Z;
  j_writePos : Z;
  j_syncedPos : Z;
  j_journalStart : Z;
  j_journalEnd : Z;
  j_checkpointBlk : Z;
  j_checkpointSeq : Z;
  j_recordsSinceCheckpoint : Z;
  j_blocksSinceCheckpoint : Z;
  j_dirty : bool;
  j_inCheckpoint : bool;
  j_inReplay : bool;
}.

Definition set_sb (j : Journal) (sb : SuperblockLayout) : Journal :=
  mkJournal sb (j_curBlock j) (j_blockSeq j) (j_writeOffset j) (j_writePos j) (j_syncedPos j)
    (j_journalStart j) (j_journalEnd j) (j_checkpointBlk j) (j_checkpointSeq j)
    (j_recordsSinceCheckpoint j) (j_blocksSinceCheckpoint j) (j_dirty j) (j_inCheckpoint j) (j_inReplay j).

Definition set_cur (j : Journal) (cur : list Z) (seq off : Z) (dirty : bool) : Journal :=
  mkJournal (j_sb j) cur seq off (j_writePos j) (j_syncedPos j)
    (j_journalStart j) (j_journalEnd j) (j_checkpointBlk j) (j_checkpointSeq j)
    (j_recordsSinceCheckpoint j) (j_blocksSinceCheckpoint j) dirty (j_inCheckpoint j) (j_inReplay j).

Definition set_pos (j : Journal) (writePos syncedPos : Z) : Journal :=
  mkJournal (j_sb j) (j_curBlock j) (j_blockSeq j) (j_writeOffset j) writePos syncedPos
    (j_journalStart j) (j_journalEnd j) (j_checkpointBlk j) (j_checkpointSeq j)
    (j_recordsSinceCheckpoint j) (j_blocksSinceCheckpoint j) (j_dirty j) (j_inCheckpoint j) (j_inReplay j).

Definition set_since (j : Journal) (records blocks : Z) : Journal :=
  mkJournal (j_sb j) (j_curBlock j) (j_blockSeq j) (j_writeOffset j) (j_writePos j) (j_syncedPos j)
    (j_journalStart j) (j_journalEnd j) (j_checkpointBlk j) (j_checkpointSeq j)
    records blocks (j_dirty j) (j_inCheckpoint j) (j_inReplay j).

Definition set_checkpointSeq (j : Journal) (seq : Z) : Journal :=
  mkJournal (j_sb j) (j_curBlock j) (j_blockSeq j) (j_writeOffset j) (j_writePos j) (j_syncedPos j)
    (j_journalStart j) (j_journalEnd j) (j_checkpointBlk j) seq
    (j_recordsSinceCheckpoint j) (j_blocksSinceCheckpoint j) (j_dirty j) (j_inCheckpoint j) (j_inReplay j).

Definition set_flags (j : Journal) (dirty inCheckpoint inReplay : bool) : Journal :=
  mkJournal (j_sb j) (j_curBlock j) (j_blockSeq j) (j_writeOffset j) (j_writePos j) (j_syncedPos j)
    (j_journalStart j) (j_journalEnd j) (j_checkpointBlk j) (j_checkpointSeq j)
    (j_recordsSinceCheckpoint j) (j_blocksSinceCheckpoint j) dirty inCheckpoint inReplay.

(** Assignments to the fields of the superblock the journal and its hooks
    change. *)
Definition sb_set (sb : SuperblockLayout) (freeData freeInodes ckptSeq logStart logEnd : Z)
    (label : list Z) : SuperblockLayout :=
  mkSuperblockLayout (sb_Magic sb) (sb_MajorVer sb) (sb_MinorVer sb) (sb_PatchVer sb)
    (sb_TotalBlocks sb) (sb_DataBlocks sb) (sb_BlockSize sb) (sb_InodeSize sb) (sb_BlocksGrp sb)
    (sb_InodesGrp sb) (sb_FSCreated sb) (sb_FSLastMount sb) (sb_FSLastChkpt sb) freeData freeInodes
    (sb_RootIno sb) (sb_FeatCompat sb) (sb_FeatROCompat sb) (sb_FeatIncompat sb) (sb_UUID sb)
    (sb_EATOffset sb) (sb_EATBlocks sb) (sb_TrieRootBlock sb) (sb_TrieBlocksUsed sb)
    (sb_TrieNodePoolStart sb) (sb_TrieNodePoolSize sb) (sb_InodeBMOffset sb) (sb_InodeBMBlocks sb)
    (sb_InodeTableOffset sb) (sb_JournalOffset sb) (sb_JournalBlocks sb) ckptSeq logStart logEnd
    (sb_ReservedJournal sb) label (sb_Reserved sb).

Definition sb_set_free (sb : SuperblockLayout) (f : Z * Z) : SuperblockLayout :=
  sb_set sb f.1 f.2 (sb_CheckpointSeq sb) (sb_JournalLogStart sb) (sb_JournalLogEnd sb) (sb_Label sb).

Definition sb_set_log (sb : SuperblockLayout) (ckptSeq logStart logEnd : Z) : SuperblockLayout :=
  sb_set sb (sb_FreeDataBlks sb) (sb_FreeInodes sb) ckptSeq logStart logEnd (sb_Label sb).

Definition sb_set_label (sb : SuperblockLayout) (label : list Z) : SuperblockLayout :=
  sb_set sb (sb_FreeDataBlks sb) (sb_FreeInodes sb) (sb_CheckpointSeq sb) (sb_JournalLogStart sb)
    (sb_JournalLogEnd sb) label.

(** ** Errors, hooks and the trace *)
Inductive event :=
| EvWrite (block : Z) (data : list Z)   (* a block write that reached the device *)
| EvDrain                               (* DrainPendingData returned nil *)
| EvMeta                                (* SyncMeta returned nil *)
| EvAllocs                              (* SyncAllocators returned nil *)
| EvFlush                               (* FlushWB, or the file sync, returned nil *)
| EvKick.                               (* KickWB returned nil *)

Inductive jerror :=
| ErrGeometry (start end_ : Z)
| ErrTooSmall (n : Z)
| ErrTooLarge (n : Z)
| ErrWriteRange (block : Z)
| ErrWriteIO (block : Z)
| ErrRecordType (typ : Z)
| ErrEmptyRecord
| ErrRingExhausted (n : Z)
| ErrHook (ev : event)
| ErrOutOfFuel.                         (* the recursion bound of the model *)

(** What a call into the bridge does: the bridge's new state, the superblock's
    free counts afterwards, the block writes it makes, and whether it returns
    nil. *)
Record hook_out (E : Type) := mkHookOut {
  ho_env : E;
  ho_free : Z * Z;
  ho_writes : list (Z * list Z);
  ho_ok : bool;
}.
Arguments mkHookOut {E}.
Arguments ho_env {E}.
Arguments ho_free {E}.
Arguments ho_writes {E}.
Arguments ho_ok {E}.

Definition hook (E : Type) : Type := E -> SuperblockLayout -> hook_out E.

Record AllocatorSyncer (E : Type) := mkAllocatorSyncer {
  RefreshFreeCounts : E -> Z * Z;
  SyncAllocators : hook E;
}.
Arguments RefreshFreeCounts {E}.
Arguments SyncAllocators {E}.

Record WBFlusher (E : Type) := mkWBFlusher {
  FlushWB : hook E;
  KickWB : hook E;
}.
Arguments FlushWB {E}.
Arguments KickWB {E}.

(** The services of the bridge; a nil interface is [None].  [fileSync] is the
    [file.Sync()] of a journal without a writeback flusher, and [writeAt] the
    outcome of each block write: [n] is the position of the write in the
    trace, and a failing write may or may not have reached the device. *)
Inductive io_result := IoOk | IoFailed | IoWrittenFailed.

Class JournalHooks (E : Type) := {
  allocSyncer : option (AllocatorSyncer E);
  metaSyncer : option (hook E);
  dataDrainer : option (hook E);
  wbFlusher : option (WBFlusher E);
  fileSync : hook E;
  writeAt : nat -> io_result;
}.

Definition apply_event (d : disk) (e : event) : disk :=
  match e with EvWrite b data => <[b := data]> d | _ => d end.
Definition apply_events (d : disk) (tr : list event) : disk := foldl apply_event d tr.

Section runtime.
Context {E : Type} `{JournalHooks E}.

Record world := mkWorld {
  w_j : Journal;
  w_disk : disk;
  w_env : E;
  w_trace : list event;
}.

(** ** The monad of the write path: state is kept on errors *)
Definition JM (A : Type) : Type := world -> world * res jerror A.

#[global] Instance JM_ret : MRet JM := fun A a w => (w, Ret a).
#[global] Instance JM_bind : MBind JM := fun A B f m w =>
  match m w with
  | (w', Ret a) => f a w'
  | (w', Err e) => (w', Err e)
  | (w', Panic) => (w', Panic)
  end.

Definition get : JM Journal := fun w => (w, Ret (w_j w)).
Definition modify (f : Journal -> Journal) : JM unit := fun w =>
  (mkWorld (f (w_j w)) (w_disk w) (w_env w) (w_trace w), Ret tt).
Definition throw {A} (e : jerror) : JM A := fun w => (w, Err e).

(** [err := m()], to be returned later *)
Definition attempt (m : JM unit) : JM (res jerror unit) := fun w =>
  let '(w', r) := m w in (w', Ret r).
Definition rethrow (r : res jerror unit) : JM unit := fun w => (w, r).

Definition emit (w : world) (e : event) : world :=
  mkWorld (w_j w) (apply_event (w_disk w) e) (w_env w) (w_trace w ++ [e]).

(** [writeThrough], for a block: the write, and the wait for its writeback *)
Definition writeThrough (block : Z) (data : list Z) : JM unit := fun w =>
  match writeAt (length (w_trace w)) with
  | IoOk => (emit w (EvWrite block data), Ret tt)
  | IoFailed => (w, Err (ErrWriteIO block))
  | IoWrittenFailed => (emit w (EvWrite block data), Err (ErrWriteIO block))
  end.

Definition run_hook (ev : event) (h : hook E) : JM unit := fun w =>
  let o := h (w_env w) (j_sb (w_j w)) in
  let w := mkWorld (set_sb (w_j w) (sb_set_free (j_sb (w_j w)) (ho_free o)))
             (w_disk w) (ho_env o) (w_trace w) in
  let w := foldl (fun w wr => emit w (EvWrite wr.1 wr.2)) w (ho_writes o) in
  if ho_ok o then (emit w ev, Ret tt) else (w, Err (ErrHook ev)).

(** ** Construction *)
Definition validate (j : Journal) : res jerror unit :=
  if j_journalEnd j <=? j_journalStart j then Err (ErrGeometry (j_journalStart j) (j_journalEnd j)) else
  let n := u64 (j_journalEnd j - j_journalStart j) in
  if n <? JournalMinBlocks then Err (ErrTooSmall n) else
  if JournalMaxBlocks <? n then Err (ErrTooLarge n) else Ret tt.

(** The two assignments that follow [initCurBlock] in its callers are not part
    of it: [dirty] is left as it is. *)
Definition initCurBlock (seq : Z) (j : Journal) : Journal :=
  set_cur j (init_block seq) seq (Z.of_nat JournalBlockHdrSize) (j_dirty j).

Definition NewJournal (sb : SuperblockLayout) : res jerror Journal :=
  let e := u64 (sb_JournalOffset sb + sb_JournalBlocks sb) in
  let j := mkJournal sb (zeros JournalBlockSize) 0 0 (sb_JournalLogStart sb) (sb_JournalLogStart sb)
             (sb_JournalOffset sb) e (u64 (e - 1)) (sb_CheckpointSeq sb) 0 0 false false false in
  _ ← validate j;
  Ret (initCurBlock 0 j).

(** ** The write path *)
Definition nextBlock (j : Journal) (cur : Z) : Z :=
  NextRingBlock cur (j_journalStart j) (u64 (j_journalEnd j - j_journalStart j)).

Definition writeBlock (block : Z) (data : list Z) : JM unit :=
  j ← get;
  if (block <? j_journalStart j) || (j_journalEnd j <=? block) then throw (ErrWriteRange block)
  else writeThrough block data.

(** [j.writePos = j.nextBlock(j.writePos); j.blocksSinceCheckpoint++], and once
    more when that is the checkpoint block *)
Definition advance (j : Journal) : Journal :=
  let step j := set_since (set_pos j (nextBlock j (j_writePos j)) (j_syncedPos j))
                  (j_recordsSinceCheckpoint j) (u32 (j_blocksSinceCheckpoint j + 1)) in
  let j := step j in
  if j_writePos j =? j_checkpointBlk j then step j else j.

Definition kickWB : JM unit :=
  match wbFlusher with None => mret tt | Some f => run_hook EvKick (KickWB f) end.

Definition syncWB : JM unit :=
  match wbFlusher with Some f => run_hook EvFlush (FlushWB f) | None => run_hook EvFlush fileSync end.

(** [if j.allocSyncer != nil { j.allocSyncer.RefreshFreeCounts() }] *)
Definition refreshFree : JM unit := fun w =>
  match allocSyncer with
  | None => (w, Ret tt)
  | Some a => modify (fun j => set_sb j (sb_set_free (j_sb j) (RefreshFreeCounts a (w_env w)))) w
  end.

Definition syncSuperblock : JM unit :=
  _ ← refreshFree;
  j ← get;
  writeThrough 0 (superblock_block (j_sb j)).

Definition run_opt (ev : event) (h : option (hook E)) : JM unit :=
  match h with None => mret tt | Some h => run_hook ev h end.

(** The end of [checkpointLocked]: the log is empty from here on. *)
Definition retire_log (cp : Checkpoint) : JM unit :=
  _ ← modify (fun j =>
        set_since
          (set_sb (set_checkpointSeq j (cp_Seq cp))
             (sb_set_log (j_sb j) (cp_Seq cp) (j_writePos j) (j_writePos j))) 0 0);
  syncSuperblock.

(** [checkpointLocked] after its flush of pending records. *)
Definition checkpoint_retire : JM unit :=
  _ ← kickWB;
  _ ← match allocSyncer with
      | None => mret tt
      | Some a => _ ← run_hook EvAllocs (SyncAllocators a); syncWB
      end;
  _ ← refreshFree;
  j ← get;
  let curBh := ParseJournalBlockHeader (j_curBlock j) in
  let cp := mkCheckpoint (u64 (j_checkpointSeq j + 1)) (jb_RecordCount curBh) 0 (j_writePos j)
              (sb_TrieRootBlock (j_sb j)) (sb_FreeDataBlks (j_sb j)) (sb_FreeInodes (j_sb j)) 0 in
  let cpBuf := WriteCheckpointBlock (zeros JournalBlockSize) (j_blockSeq j) cp in
  _ ← writeBlock (j_checkpointBlk j) cpBuf;
  retire_log cp.

(** Write the current block, advance, and start a fresh block: the same lines
    in [syncLocked] and in [writeRecordLocked]. *)
Definition flush_cur : JM unit :=
  j ← get;
  _ ← writeBlock (j_writePos j) (j_curBlock j);
  modify (fun j =>
    let j := initCurBlock (u32 (j_blockSeq j + 1)) (advance j) in
    set_flags j false (j_inCheckpoint j) (j_inReplay j)).

(** The commit point: [log_end] is advanced and the superblock persisted. *)
Definition commit_log : JM unit :=
  _ ← modify (fun j =>
        set_sb j (sb_set_log (j_sb j) (sb_CheckpointSeq (j_sb j)) (sb_JournalLogStart (j_sb j))
                    (j_writePos j)));
  syncSuperblock.

(** The part of [syncLocked] that writes the current block and commits it. *)
Definition sync_commit : JM unit :=
  _ ← flush_cur;
  _ ← run_opt EvDrain dataDrainer;
  _ ← commit_log;
  _ ← run_opt EvMeta metaSyncer;
  _ ← run_opt EvAllocs (SyncAllocators <$> allocSyncer);
  _ ← syncWB;
  modify (fun j => set_pos j (j_writePos j) (j_writePos j)).

(** [syncLocked(checkpoint)] and [checkpointLocked(flushPending)] call each
    other; three levels are enough, see [journal_call_fuel]. *)
Inductive jcall :=
| CallSync (checkpoint : bool)
| CallCheckpoint (flushPending : bool).

(** [j.inCheckpoint = true; err := m(); j.inCheckpoint = false; if err != nil
    { return err }] *)
Definition with_inCheckpoint (m : JM unit) : JM unit :=
  _ ← modify (fun j => set_flags j (j_dirty j) true (j_inReplay j));
  err ← attempt m;
  _ ← modify (fun j => set_flags j (j_dirty j) false (j_inReplay j));
  rethrow err.

(** [syncLocked], given the calls it makes. *)
Definition sync_body (call : jcall -> JM unit) (checkpoint : bool) : JM unit :=
  j ← get;
  if negb (j_dirty j) then mret tt else
  pending ←
    (if negb (j_inCheckpoint j) && (j_writePos j =? sb_JournalLogStart (j_sb j))
        && (0 <? j_blocksSinceCheckpoint j)
     then _ ← with_inCheckpoint (call (CallCheckpoint false));
          j ← get; mret (j_dirty j)
     else mret true);
  if negb pending then mret tt else
  _ ← sync_commit;
  j ← get;
  _ ← (if checkpoint && (JrnCheckpointInterval <=? j_recordsSinceCheckpoint j)
       then call (CallCheckpoint true) else mret tt);
  j ← get;
  if negb (j_inCheckpoint j) && (nextBlock j (j_writePos j) =? sb_JournalLogStart (j_sb j))
  then with_inCheckpoint (call (CallCheckpoint true))
  else mret tt.

(** [checkpointLocked], given the calls it makes. *)
Definition checkpoint_body (call : jcall -> JM unit) (flushPending : bool) : JM unit :=
  j ← get;
  _ ← (if flushPending && j_dirty j then call (CallSync true) else mret tt);
  checkpoint_retire.

Fixpoint journal_call (fuel : nat) (c : jcall) : JM unit :=
  match fuel with
  | O => throw ErrOutOfFuel
  | Datatypes.S fuel =>
      match c with
      | CallSync checkpoint => sync_body (journal_call fuel) checkpoint
      | CallCheckpoint flushPending => checkpoint_body (journal_call fuel) flushPending
      end
  end.

Definition syncLocked (checkpoint : bool) : JM unit := journal_call 3 (CallSync checkpoint).
Definition checkpointLocked (flushPending : bool) : JM unit :=
  journal_call 3 (CallCheckpoint flushPending).

Definition append_cur (typ : Z) (data : list Z) (total : Z) (j : Journal) : Journal :=
  let j := set_cur j (append_record (j_curBlock j) (Z.to_nat (j_writeOffset j)) typ data)
             (j_blockSeq j) (u64 (j_writeOffset j + total)) true in
  set_since j (u32 (j_recordsSinceCheckpoint j + 1)) (j_blocksSinceCheckpoint j).

Definition writeRecordLocked (typ : Z) (data : list Z) : JM unit :=
  if (typ <=? JRN_NONE) || (JRN_END <=? typ) then throw (ErrRecordType typ) else
  if decide (data = []) then throw ErrEmptyRecord else
  let total := u32 (16 + u32 (Z.of_nat (length data))) in
  j ← get;
  _ ← (if 4096 <? u64 (j_writeOffset j + total) then
         _ ← flush_cur;
         j ← get;
         if j_writePos j =? sb_JournalLogStart (j_sb j) then
           _ ← checkpointLocked true;
           j ← get;
           if nextBlock j (j_writePos j) =? sb_JournalLogStart (j_sb j)
           then throw (ErrRingExhausted (u64 (j_journalEnd j - j_journalStart j)))
           else mret tt
         else mret tt
       else mret tt);
  modify (append_cur typ data total).

(** ** Public operations *)
Definition WriteRecord (typ : Z) (data : list Z) : JM unit :=
  j ← get; if j_inReplay j then mret tt else writeRecordLocked typ data.

Definition Sync (checkpoint : bool) : JM unit := syncLocked checkpoint.
Definition Checkpoint_ : JM unit := checkpointLocked true.

Definition Close : JM unit :=
  j ← get; if j_dirty j then Sync false else mret tt.

Definition UpdateLabel (label : list Z) : JM unit :=
  _ ← modify (fun j => set_sb j (sb_set_label (j_sb j) label));
  syncSuperblock.

Definition SetInReplay (b : bool) : JM unit :=
  modify (fun j => set_flags j (j_dirty j) (j_inCheckpoint j) b).

Definition MarkCleanAfterReplay : JM unit :=
  _ ← modify (fun j =>
        let sb := sb_set_log (j_sb j) (u64 (j_checkpointSeq j + 1)) (sb_JournalLogEnd (j_sb j))
                    (sb_JournalLogEnd (j_sb j)) in
        let j := set_pos (set_sb j sb) (sb_JournalLogEnd sb) (sb_JournalLogEnd sb) in
        let j := set_flags j false (j_inCheckpoint j) (j_inReplay j) in
        set_checkpointSeq (set_since j 0 0) (sb_CheckpointSeq sb));
  _ ← refreshFree;
  syncSuperblock.

End runtime.
Arguments world E : clear implicits.
Arguments mkWorld {E}.
Arguments w_j {E}.
Arguments w_disk {E}.
Arguments w_env {E}.
Arguments w_trace {E}.

(** ** Reading the log back at mount *)

Definition ReplayLogRange (j : Journal) : Z * Z * Z :=
  (sb_JournalLogStart (j_sb j), sb_JournalLogEnd (j_sb j), j_checkpointBlk j).

Definition JournalRingGeometry (j : Journal) : Z * Z :=
  (j_journalStart j, u64 (j_journalEnd j - j_journalStart j)).

Definition ReadJournalBlock (d : disk) (j : Journal) (block : Z) : option (list Z) :=
  if (block <? j_journalStart j) || (j_journalEnd j <=? block) then None else d !! block.

(** What [applyRecord] returns: an [EINVAL] or [ENOENT] is skipped, another
    error fails the mount. *)
Inductive apply_result := ApplyOk | ApplySkip | ApplyFail.

Inductive replay_error :=
| ErrReplayRead (cur : Z)
| ErrReplayType (typ cur : Z)
| ErrReplayChecksum (cur idx typ : Z)
| ErrReplayRecord (typ cur : Z)
| ErrReplayOverflow (cur idx dataLen : Z)
| ErrReplayPanic.

Section replay.
Context {S : Type}.
Variable applyRecord : Z -> list Z -> S -> S * apply_result.

Definition walk_record (cur : Z) (i : Z) (hdr : RecordHeader) (recData : list Z) (s : S)
    : S * option replay_error :=
  let rtype := rh_Type hdr in
  if (rtype <=? JRN_NONE) || (JRN_END <=? rtype) then (s, Some (ErrReplayType rtype cur)) else
  if negb (VerifyJournalRecordChecksum rtype (rh_Flags hdr) recData (rh_Checksum hdr))
  then (s, Some (ErrReplayChecksum cur i rtype)) else
  if rtype =? JRN_CHECKPOINT then (s, None) else
  match applyRecord rtype recData s with
  | (s, ApplyFail) => (s, Some (ErrReplayRecord rtype cur))
  | (s, _) => (s, None)
  end.

Definition walk_block (start end_ checkpointBlk : Z) (cur : Z) (buf : list Z) (s : S)
    : S * option replay_error :=
  if (cur =? checkpointBlk) || (start =? end_) then (s, None) else
  let bh := ParseJournalBlockHeader buf in
  match IterateJournalBlockRecords (walk_record cur) buf 4096 (jb_RecordCount bh) s with
  | (s, IterDone) => (s, None)
  | (s, IterStop e) => (s, Some e)
  | (s, IterOverflow i dlen) => (s, Some (ErrReplayOverflow cur i dlen))
  | (s, IterPanic) => (s, Some ErrReplayPanic)
  | (s, IterFuel) => (s, Some ErrReplayPanic)
  end.

(** A block with a bad magic ends the walk without an error. *)
Definition walkJournal (d : disk) (j : Journal) (s : S) : S * option replay_error :=
  let '(start, end_, checkpointBlk) := ReplayLogRange j in
  let '(journalOffset, journalBlocks) := JournalRingGeometry j in
  match WalkJournalRing (ReadJournalBlock d j) (walk_block start end_ checkpointBlk)
          journalOffset journalBlocks start end_ s with
  | (s, WalkDone) => (s, None)
  | (s, WalkBadMagic _ _) => (s, None)
  | (s, WalkRead cur) => (s, Some (ErrReplayRead cur))
  | (s, WalkStop e) => (s, Some e)
  end.

End replay.

(** The records a mount of the disk [d] replays: [Mount] reads the superblock,
    builds the journal, and walks the log unless it is empty. *)
Definition replayed (d : disk) : option (list jrec) :=
  match ReadSuperblock (d !! 0) with
  | Ret sb =>
      match NewJournal sb with
      | Ret j =>
          let '(start, end_, _) := ReplayLogRange j in
          if start =? end_ then Some [] else
          match walkJournal (fun t data acc => (acc ++ [(t, data)], ApplyOk)) d j [] with
          | (recs, None) => Some recs
          | (_, Some _) => None
          end
      | _ => None
      end
  | _ => None
  end.
