(* ===== verification/JournalRun.v ===== *)
(** * Facts that runs of the journal keep

    Partial specifications of the write path for facts that need nothing of the
    ring: [sat Pre m Post] says that from a state satisfying [Pre], [m] does not
    run out of fuel, and establishes [Post] if it returns.  A fact is [stable]
    when events and the journal's own assignments, other than the append of a
    record, keep it: that nothing is pending, a bound on the records since the
    last checkpoint, an event that has happened.  The recursion of sync and
    checkpoint is shown here to end. *)

From stdpp Require Import base numbers list option gmap.
From Stdlib Require Import ZArith Lia.
From S2P Require Import Prelude Codec JournalRecord JournalBlock Superblock Journal.

Local Open Scope Z_scope.

Create HintDb stable.

Section run.
Context {E : Type} `{JournalHooks E}.
Implicit Types w : world E.

Definition sat {A} (Pre : world E -> Prop) (m : JM (E := E) A) (Post : A -> world E -> Prop) : Prop :=
  forall w, Pre w ->
  match (m w).2 with Ret x => Post x (m w).1 | Err e => e <> ErrOutOfFuel | Panic => True end.

Lemma sat_bind {A B} Pre (m : JM (E := E) A) Mid (k : A -> JM (E := E) B) Post :
  sat Pre m Mid -> (forall x, sat (Mid x) (k x) Post) -> sat Pre (m ≫= k) Post.
Proof using.
  clear. intros Hm Hk w Hw. specialize (Hm w Hw). unfold mbind, JM_bind.
  destruct (m w) as [w1 [x|e|]]; cbn [fst snd] in *; try done. by apply Hk.
Qed.

Lemma sat_ret {A} Pre (x : A) (Post : A -> world E -> Prop) :
  (forall w, Pre w -> Post x w) -> sat Pre (mret x) Post.
Proof using. clear. intros Hp w Hw. by apply Hp. Qed.

Lemma sat_get Pre : sat Pre get (fun j w => j = w_j w /\ Pre w).
Proof using. clear. intros w Hw. by split. Qed.

Lemma sat_throw {A} Pre e (Post : A -> world E -> Prop) : e <> ErrOutOfFuel -> sat Pre (throw e) Post.
Proof using. clear. by intros He w _. Qed.

Lemma sat_modify (Pre : world E -> Prop) f Post :
  (forall w, Pre w -> Post tt (mkWorld (f (w_j w)) (w_disk w) (w_env w) (w_trace w))) ->
  sat Pre (modify f) Post.
Proof using. clear. intros Hp w Hw. by apply Hp. Qed.

Lemma sat_conseq {A} (Pre Pre' : world E -> Prop) (m : JM (E := E) A) (Post Post' : A -> world E -> Prop) :
  sat Pre m Post -> (forall w, Pre' w -> Pre w) -> (forall x w, Post x w -> Post' x w) -> sat Pre' m Post'.
Proof using. clear. intros Hm H1 H2 w Hw. specialize (Hm w (H1 w Hw)). destruct ((m w).2); [by apply H2|done|done]. Qed.

Lemma sat_and {A} Pre Pre' (m : JM (E := E) A) Post Post' :
  sat Pre m Post -> sat Pre' m Post' -> sat (fun w => Pre w /\ Pre' w) m (fun x w => Post x w /\ Post' x w).
Proof using. clear. intros H1 H2 w [Hw Hw']. specialize (H1 w Hw). specialize (H2 w Hw'). by destruct ((m w).2). Qed.

Lemma sat_at {A} (Pre : world E -> Prop) (m : JM (E := E) A) Post :
  (forall w, Pre w -> sat (fun w' => w' = w) m Post) -> sat Pre m Post.
Proof using. clear. intros Hm w Hw. by apply (Hm w Hw w). Qed.

(** ** Stable facts *)
Record stable (K : world E -> Prop) : Prop := {
  st_emit w e : K w -> K (emit w e);
  st_set w j env : (j_dirty j = true -> j_dirty (w_j w) = true) ->
    j_recordsSinceCheckpoint j = j_recordsSinceCheckpoint (w_j w) \/ j_recordsSinceCheckpoint j = 0 ->
    K w -> K (mkWorld j (w_disk w) env (w_trace w));
}.

(** Nothing is pending: what the recursion through [checkpointLocked] needs. *)
Definition clean (b : bool) (w : world E) : Prop := b = true -> j_dirty (w_j w) = false.
(** At most [n] records since the last checkpoint; the counter is a 32-bit one,
    and a bound that is not below its width says nothing. *)
Definition since (n : Z) (w : world E) : Prop :=
  j_recordsSinceCheckpoint (w_j w) <= n /\ (0 <= j_recordsSinceCheckpoint (w_j w) \/ 2 ^ 32 <= n).
(** After the events [tr0], and then [EvMeta] if there is a bridge to flush. *)
Definition after (tr0 : list event) (w : world E) : Prop := tr0 `prefix_of` w_trace w.
Definition flushed (tr : list event) : Prop := is_Some metaSyncer -> EvMeta ∈ tr.
Definition after_meta (tr0 : list event) (w : world E) : Prop := exists tr, w_trace w = tr0 ++ tr /\ flushed tr.

Lemma stable_clean b : stable (clean b).
Proof using. clear. split; [done|]. intros w j env Hd _ Hw Hb. specialize (Hw Hb). cbn. destruct (j_dirty j); [|done]. by rewrite Hd in Hw. Qed.
Lemma stable_since n : 0 <= n -> stable (since n).
Proof using. clear. intros Hn. split; [done|]. unfold since. cbn [w_j]. lia. Qed.
Lemma since_any w : exists n, 0 <= n /\ since n w.
Proof using. clear. exists (Z.max (2 ^ 32) (j_recordsSinceCheckpoint (w_j w))). unfold since. lia. Qed.
Lemma stable_after tr0 : stable (after tr0).
Proof using. clear. split; [|done]. intros w e Hw. unfold after. cbn. by apply prefix_app_r. Qed.
Lemma stable_after_meta tr0 : stable (after_meta tr0).
Proof using.
  clear. split; [|done]. intros w e (tr & Ht & Hf). exists (tr ++ [e]). cbn. rewrite Ht, app_assoc. split; [done|].
  intros Hm. apply elem_of_app. left. by apply Hf.
Qed.
Lemma stable_true : stable (fun _ => True).
Proof using. clear. by split. Qed.
Lemma stable_and K K' : stable K -> stable K' -> stable (fun w => K w /\ K' w).
Proof using. clear. intros [A B] [A' B']. split; intros; [naive_solver|]. split; [apply B|apply B']; tauto. Qed.
#[local] Hint Resolve stable_clean stable_since stable_after stable_after_meta stable_true stable_and : stable.

Section keep.
Context (K : world E -> Prop) (HK : stable K).

Lemma st_same w j env : j_dirty j = j_dirty (w_j w) -> j_recordsSinceCheckpoint j = j_recordsSinceCheckpoint (w_j w) ->
  K w -> K (mkWorld j (w_disk w) env (w_trace w)).
Proof using HK. intros Hd Hr. apply HK; [congruence|by left]. Qed.

Lemma emit_writes_keep wrs : forall w, K w -> K (foldl (fun w wr => emit w (EvWrite wr.1 wr.2)) w wrs).
Proof using HK. induction wrs as [|wr wrs IH]; intros w Hw; cbn [foldl]; [done|]. apply IH. by apply HK. Qed.

Lemma run_hook_sat ev h : sat K (run_hook ev h) (fun _ => K).
Proof using HK.
  intros w Hw. unfold run_hook. cbv zeta. destruct (ho_ok _); [|done]. cbn [fst snd].
  apply HK, emit_writes_keep. by apply st_same.
Qed.

Lemma writeThrough_sat blk data : sat K (writeThrough blk data) (fun _ => K).
Proof using HK. intros w Hw. unfold writeThrough. destruct (writeAt _); try done. by apply HK. Qed.

Lemma writeBlock_sat blk data : sat K (writeBlock blk data) (fun _ => K).
Proof using HK.
  unfold writeBlock. eapply sat_bind; [apply sat_get|intros j w [_ Hw]].
  destruct (_ || _); [done|]. by apply writeThrough_sat.
Qed.

Lemma refreshFree_sat : sat K refreshFree (fun _ => K).
Proof using HK. intros w Hw. unfold refreshFree. destruct allocSyncer; [|done]. by apply st_same. Qed.

Lemma syncSuperblock_sat : sat K syncSuperblock (fun _ => K).
Proof using HK.
  unfold syncSuperblock. eapply sat_bind; [apply refreshFree_sat|intros []].
  eapply sat_bind; [apply sat_get|intros j w [_ Hw]]. by apply writeThrough_sat.
Qed.

Lemma run_opt_sat ev h : sat K (run_opt ev h) (fun _ => K).
Proof using HK. destruct h; [apply run_hook_sat|by apply sat_ret]. Qed.

Lemma syncWB_sat : sat K syncWB (fun _ => K).
Proof using HK. unfold syncWB. destruct wbFlusher; apply run_hook_sat. Qed.

End keep.

(** A checkpoint starts the count of records anew. *)
Lemma checkpoint_retire_sat K : stable K -> sat K checkpoint_retire (fun _ w => K w /\ since 0 w).
Proof using.
  intros HK. unfold checkpoint_retire, kickWB. apply (sat_bind _ _ (fun _ => K)); [|intros []].
  { destruct wbFlusher; [by apply run_hook_sat|by apply sat_ret]. }
  eapply (sat_bind _ _ (fun _ => K)); [|intros []].
  { destruct allocSyncer; [|by apply sat_ret].
    eapply sat_bind; [by apply run_hook_sat|intros []; by apply syncWB_sat]. }
  eapply sat_bind; [by apply refreshFree_sat|intros []].
  eapply sat_bind; [apply sat_get|intros j]. cbv zeta.
  eapply (sat_bind _ _ (fun _ => K)); [intros w [_ Hw]; by apply writeBlock_sat|intros []].
  unfold retire_log. apply (sat_bind _ _ (fun _ w => K w /\ since 0 w)).
  - apply sat_modify. intros w Hw. split; [|unfold since; cbn; lia]. apply (st_set K HK); [done|by right|done].
  - intros []. apply syncSuperblock_sat. auto with stable zarith.
Qed.

Lemma flush_cur_sat K : stable K -> sat K flush_cur (fun _ w => K w /\ clean true w).
Proof using.
  intros HK. unfold flush_cur. eapply sat_bind; [apply sat_get|intros j].
  eapply (sat_bind _ _ (fun _ => K)); [intros w [_ Hw]; by apply writeBlock_sat|intros []].
  apply sat_modify. intros w Hw. split; [|done]. apply (st_set K HK); [done| |done].
  cbv zeta. unfold advance. cbv zeta. case_match; cbn; lia.
Qed.

Lemma commit_log_sat K : stable K -> sat K commit_log (fun _ => K).
Proof using.
  intros HK. unfold commit_log. apply (sat_bind _ _ (fun _ => K)); [|intros []; by apply syncSuperblock_sat].
  apply sat_modify. intros w Hw. by apply st_same.
Qed.

Lemma run_opt_meta tr0 : sat (after tr0) (run_opt EvMeta metaSyncer) (fun _ => after_meta tr0).
Proof using.
  unfold run_opt. destruct metaSyncer as [h|] eqn:Em.
  - intros w Hw. unfold run_hook. cbv zeta. destruct (ho_ok _); [|done]. cbn [fst snd].
    match goal with |- after_meta tr0 (emit ?x _) => assert (Hx : after tr0 x) by (apply emit_writes_keep; [apply stable_after|exact Hw]); revert Hx; generalize x end.
    intros w1 [tr Ht]. exists (tr ++ [EvMeta]). cbn. rewrite Ht, app_assoc. split; [done|]. intros _. apply elem_of_app. right. by left.
  - apply sat_ret. intros w [tr Ht]. exists tr. split; [done|]. intros [h Eh]. by rewrite Em in Eh.
Qed.

(** What a commit leaves: a clean journal, with the metadata flushed. *)
Lemma sync_commit_sat K tr0 : stable K ->
  sat (fun w => K w /\ after tr0 w) sync_commit (fun _ w => (K w /\ clean true w) /\ after_meta tr0 w).
Proof using.
  intros HK. assert (HKa : stable (fun w => K w /\ after tr0 w)) by auto with stable.
  assert (HKc : stable (fun w => (K w /\ clean true w) /\ after tr0 w)) by auto with stable.
  assert (HKm : stable (fun w => (K w /\ clean true w) /\ after_meta tr0 w)) by auto with stable.
  unfold sync_commit. eapply (sat_bind _ _ (fun _ w => (K w /\ clean true w) /\ after tr0 w)); [|intros []].
  { eapply sat_conseq; [by apply (flush_cur_sat _ HKa)|done|]. intros _ w [[? ?] ?]. by split_and!. }
  eapply sat_bind; [by apply (run_opt_sat _ HKc)|intros []].
  eapply sat_bind; [by apply (commit_log_sat _ HKc)|intros []].
  eapply (sat_bind _ _ (fun _ w => (K w /\ clean true w) /\ after_meta tr0 w)); [|intros []].
  { apply sat_and; [apply run_opt_sat; auto with stable|apply run_opt_meta]. }
  eapply sat_bind; [by apply (run_opt_sat _ HKm)|intros []].
  eapply sat_bind; [by apply (syncWB_sat _ HKm)|intros []].
  apply sat_modify. intros w Hw. by apply (st_same _ HKm).
Qed.

Lemma with_inCheckpoint_sat K K' m : stable K -> stable K' ->
  sat K m (fun _ => K') -> sat K (with_inCheckpoint m) (fun _ => K').
Proof using.
  intros HK HK' Hm w Hw. unfold with_inCheckpoint, mbind, JM_bind, modify, attempt, rethrow.
  set (w1 := mkWorld _ _ _ _). assert (Hw1 : K w1) by by apply (st_same K HK). specialize (Hm w1 Hw1).
  destruct (m w1) as [w2 r]. destruct r; cbn in *; [|done|done]. by apply (st_same K' HK').
Qed.

(** A checkpoint with nothing to flush makes no further call. *)
Lemma checkpoint_sat K n fp : stable K -> sat (fun w => K w /\ clean fp w) (journal_call (S n) (CallCheckpoint fp)) (fun _ w => (K w /\ clean fp w) /\ since 0 w).
Proof using.
  intros HK. cbn [journal_call]. unfold checkpoint_body. eapply sat_bind; [apply sat_get|intros j].
  eapply (sat_bind _ _ (fun _ w => K w /\ clean fp w)); [|intros []; apply checkpoint_retire_sat; auto with stable].
  intros w [-> [Hw Hc]]. replace (fp && j_dirty (w_j w)) with false; [done|]. destruct fp; [|done]. by rewrite (Hc eq_refl).
Qed.

Lemma sync_front_sat K n j : stable K -> sat K
  (if negb (j_inCheckpoint j) && (j_writePos j =? sb_JournalLogStart (j_sb j)) && (0 <? j_blocksSinceCheckpoint j)
   then _ ← with_inCheckpoint (journal_call (S n) (CallCheckpoint false)); j ← get; mret (j_dirty j)
   else mret true) (fun _ => K).
Proof using.
  intros HK. destruct (_ && _); [|by apply sat_ret]. eapply (sat_bind _ _ (fun _ => K)); [|intros []].
  - apply with_inCheckpoint_sat; [done..|]. eapply sat_conseq; [by apply (checkpoint_sat K n false)|by intros w Hw|by intros _ w [[? _] _]].
  - eapply sat_bind; [apply sat_get|intros j']. apply sat_ret. by intros w [_ Hw].
Qed.

Lemma sync_sat n cp : sat (fun _ => True) (journal_call (S (S n)) (CallSync cp)) (fun _ _ => True).
Proof using.
  change (journal_call (S (S n)) (CallSync cp)) with (sync_body (journal_call (S n)) cp).
  unfold sync_body. eapply sat_bind; [apply sat_get|intros j]. destruct (negb (j_dirty j)); [by apply sat_ret|].
  eapply (sat_bind _ _ (fun _ _ => True)); [eapply sat_conseq; [apply (sync_front_sat _ n j stable_true)|done|done]|intros p].
  destruct (negb p); [by apply sat_ret|]. eapply (sat_bind _ _ (fun _ w => True /\ clean true w)); [|intros []].
  { eapply sat_conseq; [apply (sync_commit_sat _ [] stable_true)|intros w _; split; [done|apply prefix_nil]|by intros _ w [? _]]. }
  eapply sat_bind; [apply sat_get|intros j2].
  eapply (sat_bind _ _ (fun _ w => True /\ clean true w)); [|intros []].
  { destruct (cp && _); [eapply sat_conseq; [apply (checkpoint_sat _ n true stable_true)|by intros w [_ Hw]|by intros _ w [? _]]|apply sat_ret; by intros w [_ Hw]]. }
  eapply sat_bind; [apply sat_get|intros j3]. destruct (_ && _); [|by apply sat_ret].
  eapply sat_conseq; [apply (with_inCheckpoint_sat (fun w => True /\ clean true w) (fun _ => True)); [auto with stable..|]|by intros w [_ Hw]|done].
  eapply sat_conseq; [apply (checkpoint_sat _ n true stable_true)|done|done].
Qed.

Lemma journal_call_fuel n c : sat (fun _ => True) (journal_call (S (S (S n))) c) (fun _ _ => True).
Proof using.
  destruct c as [cp|fp]; [apply (sync_sat (S n))|].
  change (journal_call (S (S (S n))) (CallCheckpoint fp)) with (checkpoint_body (journal_call (S (S n))) fp).
  unfold checkpoint_body. eapply sat_bind; [apply sat_get|intros j].
  eapply (sat_bind _ _ (fun _ _ => True)); [|intros []; eapply sat_conseq; [apply (checkpoint_retire_sat _ stable_true)|done|done]].
  destruct (fp && _); [eapply sat_conseq; [apply (sync_sat n)|done|done]|by apply sat_ret].
Qed.

End run.

#[export] Hint Resolve stable_clean stable_since stable_after stable_after_meta stable_true stable_and : stable.
