(* ===== verification/JournalRing.v ===== *)
(** * Correctness of the journal ring

    The journal against its contract: a list of committed records, which a
    mount after a crash replays, and a list of pending ones.  The ring's
    positions are numbered by an unbounded index; block [i] lives at [pos i].
    The invariant of the runtime relates its state to the blocks on disk, and
    every operation is shown to preserve it at every crash point. *)

From stdpp Require Import base numbers list option gmap.
From Stdlib Require Import ZArith Lia.
From S2P Require Import Prelude Codec JournalRecord JournalBlock Superblock Journal JournalRun.

Local Open Scope Z_scope.

Section ring.
Context (JS N : Z) (HN : 4 <= N <= 65536) (HJS : 0 < JS) (HE : JS + N < 2 ^ 52).

(** The usable blocks: all but the last, which holds the checkpoint. *)
Let U : Z := N - 1.

Definition pos (i : Z) : Z := JS + i mod (N - 1).

Lemma pos_bounds i : JS <= pos i < JS + U.
Proof using HN. unfold pos, U. pose proof (Z.mod_pos_bound i (N - 1) ltac:(lia)). lia. Qed.

Lemma pos_inj i k : - U < i - k < U -> pos i = pos k -> i = k.
Proof using HN.
  intros Hik E. unfold pos, U in *.
  pose proof (Z.div_mod i (N - 1) ltac:(lia)). pose proof (Z.div_mod k (N - 1) ltac:(lia)).
  set (q := i / (N - 1)) in *. set (q' := k / (N - 1)) in *.
  destruct (Z.lt_trichotomy q q') as [Hq|[Hq|Hq]]; nia.
Qed.

Lemma pos_period i : pos (i + U) = pos i.
Proof using HN.
  unfold pos, U. f_equal. rewrite <- (Z.mul_1_l (N - 1)) at 1. apply Z.mod_add. lia.
Qed.

Lemma pos_succ i : pos (i + 1) = if decide (i mod U = U - 1) then JS else pos i + 1.
Proof using HN.
  unfold pos, U. pose proof (Z.mod_pos_bound i (N - 1) ltac:(lia)).
  rewrite <- Z.add_mod_idemp_l by lia. case_decide as Hc.
  - rewrite Hc. replace (N - 1 - 1 + 1) with (N - 1) by lia.
    rewrite Z_mod_same_full. lia.
  - rewrite Z.mod_small by lia. lia.
Qed.

Lemma NextRingBlock_pos i : NextRingBlock (pos i) JS N = pos i + 1.
Proof using HN HJS HE.
  pose proof (pos_bounds i). unfold NextRingBlock, U in *.
  rewrite !u64_small by (unfold is_u64; lia).
  destruct (Z.leb_spec (JS + N) (pos i + 1)); lia.
Qed.

Lemma NextRingBlock_ckpt : NextRingBlock (JS + U) JS N = JS.
Proof using HN HJS HE.
  unfold NextRingBlock, U. rewrite !u64_small by (unfold is_u64; lia).
  destruct (Z.leb_spec (JS + N) (JS + (N - 1) + 1)); lia.
Qed.

(** ** The log on disk *)

Definition log_rec (r : jrec) : Prop := rec_ok r /\ 0 < r.1 < JRN_END /\ r.1 <> JRN_CHECKPOINT.

Definition disk_block (d : disk) (i : Z) (B : list jrec) : Prop :=
  exists seq, is_u32 seq /\ d !! pos i = Some (block_image MagicJournal seq B) /\
    Forall log_rec B /\ fits B.

Definition disk_blocks (d : disk) (a : Z) (Bs : list (list jrec)) : Prop :=
  forall k B, Bs !! k = Some B -> disk_block d (a + Z.of_nat k) B.

Definition sb_ok (sb : SuperblockLayout) : Prop :=
  sb_current sb /\ sb_JournalOffset sb = JS /\ sb_JournalBlocks sb = N.

Definition disk_sb (d : disk) (a b : Z) : Prop :=
  exists sb, d !! 0 = Some (superblock_block sb) /\ sb_ok sb /\
    sb_JournalLogStart sb = pos a /\ sb_JournalLogEnd sb = pos b.

Definition disk_ckpt (d : disk) : Prop :=
  exists buf, d !! (JS + N - 1) = Some buf /\
    jb_Magic (ParseJournalBlockHeader buf) = MagicCheckpoint.

(** The committed log on disk: blocks [a ..], holding [Bs]. *)
Definition disk_log (d : disk) (a : Z) (Bs : list (list jrec)) : Prop :=
  disk_sb d a (a + Z.of_nat (length Bs)) /\ disk_ckpt d /\ disk_blocks d a Bs /\
  Z.of_nat (length Bs) < N - 1.

(** ** What a mount replays *)

Definition collect_rec (t : Z) (data : list Z) (acc : list jrec) : list jrec * apply_result :=
  (acc ++ [(t, data)], ApplyOk).

Lemma walk_record_collect cur i r acc :
  log_rec r -> walk_record collect_rec cur i (rec_header r) r.2 acc = (acc ++ [r], None).
Proof using.
  clear. intros (Hr & Ht & Hc). unfold walk_record. change (rh_Type (rec_header r)) with r.1.
  rewrite VerifyJournalRecordChecksum_header.
  unfold JRN_NONE, JRN_END in *.
  destruct (Z.leb_spec r.1 0); [lia|]. destruct (Z.leb_spec 13 r.1); [lia|].
  simpl. rewrite (proj2 (Z.eqb_neq _ _)) by done. by destruct r.
Qed.

Lemma visit_all_walk cur B : forall i acc,
  Forall log_rec B -> visit_all (walk_record collect_rec cur) i B acc = (acc ++ B, IterDone).
Proof using.
  clear. induction B as [|r B IH]; intros i acc HB; cbn [visit_all]; [by rewrite app_nil_r|].
  apply Forall_cons_1 in HB as [Hr HB]. rewrite walk_record_collect by done.
  rewrite IH by done. by rewrite <- app_assoc.
Qed.

Lemma log_rec_ok B : Forall log_rec B -> Forall rec_ok B.
Proof using. clear. intros HB. eapply Forall_impl; [exact HB|]. by intros r [? _]. Qed.

Lemma MagicJournal_u32 : is_u32 MagicJournal.
Proof using. clear. unfold is_u32, MagicJournal. lia. Qed.

Lemma walk_block_collect d i B start end_ acc buf :
  disk_block d i B -> d !! pos i = Some buf -> start <> end_ ->
  jb_Magic (ParseJournalBlockHeader buf) = MagicJournal /\
  walk_block collect_rec start end_ (JS + N - 1) (pos i) buf acc = (acc ++ B, None).
Proof using HN.
  intros (seq & Hs & Ed & HB & Hf) Eb Hne. rewrite Ed in Eb. injection Eb as <-.
  pose proof MagicJournal_u32 as Hm. pose proof (log_rec_ok B HB) as HBr.
  rewrite ParseJournalBlockHeader_image by done. split; [done|]. unfold walk_block.
  pose proof (pos_bounds i). unfold U in *.
  rewrite (proj2 (Z.eqb_neq (pos i) _)) by lia. rewrite (proj2 (Z.eqb_neq start _)) by done.
  simpl orb. cbv iota. rewrite ParseJournalBlockHeader_image by done. cbn [jb_RecordCount].
  rewrite iterate_block_image by done. by rewrite visit_all_walk.
Qed.

Lemma disk_blocks_cons d a B Bs :
  disk_blocks d a (B :: Bs) -> disk_block d a B /\ disk_blocks d (a + 1) Bs.
Proof using.
  clear HN HJS HE. intros Hb. split.
  - specialize (Hb 0%nat B eq_refl). by rewrite Z.add_0_r in Hb.
  - intros k B' Hk. specialize (Hb (S k) B' Hk).
    by replace (a + 1 + Z.of_nat k) with (a + Z.of_nat (S k)) by lia.
Qed.

Definition ring_journal (j : Journal) : Prop :=
  j_journalStart j = JS /\ j_journalEnd j = JS + N /\ j_checkpointBlk j = JS + N - 1.

Lemma ReadJournalBlock_ring d j b :
  ring_journal j -> JS <= b < JS + N -> ReadJournalBlock d j b = d !! b.
Proof using.
  clear. unfold ReadJournalBlock. intros (-> & -> & _) Hb.
  destruct (Z.ltb_spec b JS); [lia|]. by destruct (Z.leb_spec (JS + N) b); [lia|].
Qed.

(** One iteration of the walk, at a block of the log and at the checkpoint. *)
Lemma walk_loop_block d j iters start end_ i B acc :
  ring_journal j -> disk_block d i B -> start <> end_ ->
  walk_loop (ReadJournalBlock d j) (walk_block collect_rec start end_ (JS + N - 1))
    (S iters) JS N start end_ (pos i) acc
  = if pos i + 1 =? end_ then (acc ++ B, WalkDone)
    else walk_loop (ReadJournalBlock d j) (walk_block collect_rec start end_ (JS + N - 1))
           iters JS N start end_ (pos i + 1) (acc ++ B).
Proof using HN HJS HE.
  intros Hj Hb Hne. pose proof (pos_bounds i). unfold U in *. cbn [walk_loop].
  rewrite ReadJournalBlock_ring by (done || lia).
  pose proof Hb as (seq & _ & Ed & _). rewrite Ed.
  destruct (walk_block_collect d i B start end_ acc _ Hb Ed Hne) as [-> ->].
  rewrite Z.eqb_refl, (proj2 (Z.eqb_neq start end_)) by done. cbn [negb andb].
  by rewrite NextRingBlock_pos.
Qed.

Lemma walk_loop_ckpt d j iters start end_ acc :
  ring_journal j -> disk_ckpt d -> start <> end_ ->
  walk_loop (ReadJournalBlock d j) (walk_block collect_rec start end_ (JS + N - 1))
    (S iters) JS N start end_ (JS + U) acc
  = if JS =? end_ then (acc, WalkDone)
    else walk_loop (ReadJournalBlock d j) (walk_block collect_rec start end_ (JS + N - 1))
           iters JS N start end_ JS acc.
Proof using HN HJS HE.
  intros Hj (buf & Ed & Em) Hne. cbn [walk_loop].
  rewrite NextRingBlock_ckpt. unfold U. replace (JS + (N - 1)) with (JS + N - 1) by lia.
  rewrite ReadJournalBlock_ring by (done || lia). rewrite Ed, Em, Z.eqb_refl.
  rewrite andb_false_r. unfold walk_block. rewrite Z.eqb_refl. cbn [orb].
  by rewrite (proj2 (Z.eqb_neq start end_)).
Qed.

(** The rest of the walk, from block [i]: it crosses the checkpoint block at
    most once, since fewer than [U] blocks are left. *)
Lemma walk_loop_log d j start Bs : forall i iters acc,
  ring_journal j -> disk_ckpt d -> disk_blocks d i Bs -> Bs <> [] ->
  start <> pos (i + Z.of_nat (length Bs)) -> Z.of_nat (length Bs) < U ->
  Z.of_nat (length Bs) + (if decide (U - i mod U <= Z.of_nat (length Bs)) then 1 else 0) <= Z.of_nat iters ->
  walk_loop (ReadJournalBlock d j)
    (walk_block collect_rec start (pos (i + Z.of_nat (length Bs))) (JS + N - 1))
    iters JS N start (pos (i + Z.of_nat (length Bs))) (pos i) acc
  = (acc ++ concat Bs, WalkDone).
Proof using HN HJS HE.
  induction Bs as [|B Bs IH]; intros i iters acc Hj Hc Hb Hne Hs Hlen Hit; [done|].
  apply disk_blocks_cons in Hb as [HB Hb]. cbn [length concat] in *.
  replace (i + Z.of_nat (S (length Bs))) with (i + 1 + Z.of_nat (length Bs)) in * by lia.
  set (e := i + 1 + Z.of_nat (length Bs)) in *.
  pose proof (Z.mod_pos_bound i U ltac:(unfold U; lia)) as Hi.
  pose proof (Z.mod_pos_bound (i + 1) U ltac:(unfold U; lia)) as Hi1.
  pose proof (pos_succ i) as Hp. pose proof (pos_bounds e) as He.
  destruct iters as [|iters]; [exfalso; repeat case_decide; lia|].
  rewrite (walk_loop_block d j _ _ _ _ B) by done.
  assert (Hrec : forall it, Z.of_nat (length Bs) +
      (if decide (U - (i + 1) mod U <= Z.of_nat (length Bs)) then 1 else 0) <= Z.of_nat it ->
    (if pos (i + 1) =? pos e then (acc ++ B, WalkDone)
     else walk_loop (ReadJournalBlock d j) (walk_block collect_rec start (pos e) (JS + N - 1))
            it JS N start (pos e) (pos (i + 1)) (acc ++ B)) = (acc ++ B ++ concat Bs, WalkDone)).
  { intros it Hit'. destruct Bs as [|B' Bs].
    - unfold e. simpl length. rewrite Z.add_0_r, Z.eqb_refl. simpl. by rewrite app_nil_r.
    - rewrite (proj2 (Z.eqb_neq _ _)).
      + unfold e. rewrite IH by (done || lia). by rewrite <- app_assoc.
      + intros E. apply pos_inj in E; unfold e in *; simpl length in *; lia. }
  assert (Hm1 : (i + 1) mod U = if decide (i mod U = U - 1) then 0 else i mod U + 1).
  { unfold pos in Hp. fold U in Hp. destruct (decide (i mod U = U - 1)); lia. }
  unfold pos in Hp at 2. rewrite Hm1 in Hrec. destruct (decide (i mod U = U - 1)) as [Hx|Hx].
  - replace (pos i + 1) with (JS + U) by (unfold pos; fold U; lia).
    rewrite (proj2 (Z.eqb_neq _ _)) by lia. rewrite decide_True in Hit by lia.
    destruct iters as [|iters]; [lia|]. rewrite (walk_loop_ckpt d j) by done.
    rewrite Hp in Hrec. apply Hrec. rewrite decide_False by lia. lia.
  - replace (pos i + 1) with (pos (i + 1)) by (unfold pos; fold U; lia).
    apply Hrec. destruct (decide (U - i mod U <= _)), (decide (U - (i mod U + 1) <= _)); lia.
Qed.

Lemma NewJournal_ring sb :
  sb_ok sb ->
  exists j, NewJournal sb = Ret j /\ ring_journal j /\ j_sb j = sb.
Proof using HN HJS HE.
  intros (_ & Ho & Hb). unfold NewJournal, validate. cbv zeta. cbn [j_journalEnd j_journalStart].
  rewrite Ho, Hb, (u64_small (JS + N)) by (unfold is_u64; lia).
  destruct (Z.leb_spec (JS + N) JS); [lia|].
  rewrite (u64_small (JS + N - JS)) by (unfold is_u64; lia).
  unfold JournalMinBlocks, JournalMaxBlocks.
  destruct (Z.ltb_spec (JS + N - JS) 4); [lia|]. destruct (Z.ltb_spec 65536 (JS + N - JS)); [lia|].
  cbn [mbind res_bind]. eexists. split; [reflexivity|].
  unfold ring_journal. cbn. rewrite u64_small by (unfold is_u64; lia). done.
Qed.

Lemma replayed_log d a Bs : disk_log d a Bs -> replayed d = Some (concat Bs).
Proof using HN HJS HE.
  intros ((sb & Ed & Hsb & Hs & He) & Hc & Hb & Hlen). fold U in Hlen.
  unfold replayed. rewrite Ed, ReadSuperblock_block by apply Hsb.
  destruct (NewJournal_ring sb Hsb) as (j & -> & Hj & Ej).
  unfold ReplayLogRange. rewrite Ej, Hs, He. cbv iota.
  destruct Bs as [|B Bs]; [simpl length; by rewrite Z.add_0_r, Z.eqb_refl|].
  set (e := a + Z.of_nat (length (B :: Bs))).
  assert (Hne : pos a <> pos e)
    by (intros E; apply pos_inj in E; unfold e in *; simpl length in *; lia).
  rewrite (proj2 (Z.eqb_neq _ _)) by done. unfold walkJournal, ReplayLogRange, JournalRingGeometry.
  pose proof Hj as (Ej1 & Ej2 & Ej3). rewrite Ej, Hs, He, Ej1, Ej2, Ej3.
  replace (JS + N - JS) with N by lia. rewrite u64_small by (unfold is_u64; lia).
  unfold WalkJournalRing. fold collect_rec. fold e.
  change (fun t data acc => (acc ++ [(t, data)], ApplyOk)) with collect_rec.
  unfold e in *. rewrite walk_loop_log; try done.
  pose proof (Z.mod_pos_bound a U ltac:(unfold U; lia)). unfold U in *. case_decide; lia.
Qed.

(** ** Writes that keep the log *)

Lemma disk_blocks_other d a Bs b data :
  disk_blocks d a Bs -> (forall k, 0 <= k < Z.of_nat (length Bs) -> b <> pos (a + k)) ->
  disk_blocks (<[b := data]> d) a Bs.
Proof using.
  clear HN HJS HE. intros Hb Hk k B HB. pose proof (lookup_lt_Some _ _ _ HB) as Hlt.
  destruct (Hb k B HB) as (seq & Hs & Ed & HB').
  exists seq. rewrite lookup_insert_ne by (apply Hk; lia). done.
Qed.

Lemma disk_blocks_outside d a Bs b data :
  disk_blocks d a Bs -> ~ (JS <= b < JS + N - 1) -> disk_blocks (<[b := data]> d) a Bs.
Proof using HN.
  intros Hb Hn. apply disk_blocks_other; [done|]. intros k Hk ->.
  pose proof (pos_bounds (a + k)). unfold U in *. lia.
Qed.

Lemma disk_sb_other d a b x data : disk_sb d a b -> x <> 0 -> disk_sb (<[x := data]> d) a b.
Proof using.
  clear. intros (sb & Ed & H) Hx. exists sb. by rewrite lookup_insert_ne by congruence.
Qed.

Lemma disk_sb_write d sb a b :
  sb_ok sb -> sb_JournalLogStart sb = pos a -> sb_JournalLogEnd sb = pos b ->
  disk_sb (<[0 := superblock_block sb]> d) a b.
Proof using. clear. intros. exists sb. by rewrite lookup_insert_eq. Qed.

Lemma disk_ckpt_other d x data : disk_ckpt d -> x <> JS + N - 1 -> disk_ckpt (<[x := data]> d).
Proof using.
  clear. intros (buf & Ed & H) Hx. exists buf. by rewrite lookup_insert_ne by congruence.
Qed.

Lemma disk_blocks_app d a Bs Cs :
  disk_blocks d a (Bs ++ Cs) <-> disk_blocks d a Bs /\ disk_blocks d (a + Z.of_nat (length Bs)) Cs.
Proof using.
  clear. split.
  - intros Hb. split; intros k B Hk.
    + apply Hb. by apply lookup_app_l_Some.
    + rewrite <- Z.add_assoc, <- Nat2Z.inj_add. apply Hb.
      rewrite lookup_app_r by lia. by replace (length Bs + k - length Bs)%nat with k by lia.
  - intros [H1 H2] k B Hk. apply lookup_app_Some in Hk as [Hk|[Hl Hk]]; [by apply H1|].
    specialize (H2 _ _ Hk). by replace (a + Z.of_nat k)
      with (a + Z.of_nat (length Bs) + Z.of_nat (k - length Bs)) by lia.
Qed.

Lemma sb_set_current sb fd fi cs ls le label :
  sb_current sb -> is_u64 fd -> is_u64 fi -> is_u64 cs -> is_u64 ls -> is_u64 le ->
  length label = 64%nat -> bytes label -> sb_current (sb_set sb fd fi cs ls le label).
Proof using.
  clear. intros ([Hw Hz] & Hm & Hv & Hf) H1 H2 H3 H4 H5 H6 H7. split_and!; try done. split.
  - change (fields sb) with (SuperblockLayout_MarshalBinary sb) in Hw.
    change (fields _) with (SuperblockLayout_MarshalBinary (sb_set sb fd fi cs ls le label)).
    unfold SuperblockLayout_MarshalBinary in *.
    apply Forall_app in Hw as [Hw1 Hw2]. apply Forall_app in Hw2 as [Hw2 Hw3].
    apply Forall_app. split; [|apply Forall_app; split; [exact Hw2|]].
    + repeat (apply Forall_cons_1 in Hw1 as [? Hw1]; apply Forall_cons_2; [assumption|]).
      apply Forall_nil_2.
    + apply Forall_cons_1 in Hw3 as [_ Hw3]. apply Forall_cons_2; [by split|exact Hw3].
  - change (fields sb) with (SuperblockLayout_MarshalBinary sb) in Hz.
    change (fields _) with (SuperblockLayout_MarshalBinary (sb_set sb fd fi cs ls le label)).
    unfold SuperblockLayout_MarshalBinary in *. rewrite !fmap_app in *. exact Hz.
Qed.

Lemma sb_current_fields sb :
  sb_current sb ->
  is_u64 (sb_FreeDataBlks sb) /\ is_u64 (sb_FreeInodes sb) /\ is_u64 (sb_CheckpointSeq sb) /\
  is_u64 (sb_JournalLogStart sb) /\ is_u64 (sb_JournalLogEnd sb) /\ is_u64 (sb_TrieRootBlock sb) /\
  length (sb_Label sb) = 64%nat /\ bytes (sb_Label sb).
Proof using.
  clear. intros ([Hw _] & _).
  change (fields sb) with (SuperblockLayout_MarshalBinary sb) in Hw.
  unfold SuperblockLayout_MarshalBinary in Hw.
  apply Forall_app in Hw as [Hw1 Hw2]. apply Forall_app in Hw2 as [_ Hw3].
  repeat (apply Forall_cons_1 in Hw1 as [? Hw1]). apply Forall_cons_1 in Hw3 as [[? ?] _].
  split_and!; assumption.
Qed.

Lemma sb_set_free_ok sb f :
  sb_ok sb -> is_u64 f.1 -> is_u64 f.2 -> sb_ok (sb_set_free sb f).
Proof using.
  clear. intros (Hc & Ho & Hb) H1 H2. destruct (sb_current_fields sb Hc) as (?&?&?&?&?&?&?&?).
  split; [by apply sb_set_current|done].
Qed.

Lemma pos_u64 i : is_u64 (pos i).
Proof using HN HJS HE. pose proof (pos_bounds i). unfold is_u64, U in *. lia. Qed.

Lemma sb_set_log_ok sb cs i k :
  sb_ok sb -> is_u64 cs -> sb_ok (sb_set_log sb cs (pos i) (pos k)).
Proof using HN HJS HE.
  intros (Hc & Ho & Hb) H1. destruct (sb_current_fields sb Hc) as (?&?&?&?&?&?&?&?).
  split; [apply sb_set_current; auto using pos_u64|done].
Qed.

Section runtime_proofs.
Context {E : Type} `{JournalHooks E}.
Implicit Types w : world E.

(** What the bridge owes to the journal: a hook writes block 0 only as the
    current superblock, never writes the journal's own blocks, and leaves
    64-bit free counts. *)
Definition safe_write (sb : SuperblockLayout) (wr : Z * list Z) : Prop :=
  (wr.1 = 0 /\ wr.2 = superblock_block sb) \/ (wr.1 <> 0 /\ ~ (JS <= wr.1 < JS + N)).

Definition hook_safe (h : hook E) : Prop := forall env sb, sb_ok sb ->
  is_u64 (ho_free (h env sb)).1 /\ is_u64 (ho_free (h env sb)).2 /\
  Forall (safe_write (sb_set_free sb (ho_free (h env sb)))) (ho_writes (h env sb)).

Class HooksSafe : Prop := {
  safe_refresh a env : allocSyncer = Some a ->
    is_u64 (RefreshFreeCounts a env).1 /\ is_u64 (RefreshFreeCounts a env).2;
  safe_allocs a : allocSyncer = Some a -> hook_safe (SyncAllocators a);
  safe_meta h : metaSyncer = Some h -> hook_safe h;
  safe_drain h : dataDrainer = Some h -> hook_safe h;
  safe_flush f : wbFlusher = Some f -> hook_safe (FlushWB f);
  safe_kick f : wbFlusher = Some f -> hook_safe (KickWB f);
  safe_file : hook_safe fileSync;
}.

(** The state of the runtime when the committed log is [Bs], starting at block
    [a], the blocks [Fs] are flushed but not committed, and the current block
    holds [R]. *)
Record ring_mem (j : Journal) (ic : bool) (a : Z) (Bs Fs : list (list jrec)) (R : list jrec) : Prop := {
  ri_ring : ring_journal j;
  ri_sb : sb_ok (j_sb j);
  ri_start : sb_JournalLogStart (j_sb j) = pos a;
  ri_end : sb_JournalLogEnd (j_sb j) = pos (a + Z.of_nat (length Bs));
  ri_pos : j_writePos j = pos (a + Z.of_nat (length Bs) + Z.of_nat (length Fs));
  ri_len : Z.of_nat (length Bs) + Z.of_nat (length Fs) <= N - 1;
  ri_cur : j_curBlock j = block_image MagicJournal (j_blockSeq j) R;
  ri_seq : is_u32 (j_blockSeq j);
  ri_recs : Forall log_rec R;
  ri_fits : fits R;
  ri_off : j_writeOffset j = 16 + Z.of_nat (length (frames R));
  ri_dirty : j_dirty j = match R with [] => false | _ => true end;
  ri_ic : j_inCheckpoint j = ic;
  ri_ir : j_inReplay j = false;
}.

Definition ring_inv (w : world E) (ic : bool) (a : Z) (Bs Fs : list (list jrec)) (R : list jrec) : Prop :=
  ring_mem (w_j w) ic a Bs Fs R /\ disk_log (w_disk w) a Bs /\
  disk_blocks (w_disk w) (a + Z.of_nat (length Bs)) Fs.

(** ** A Hoare logic with crash conditions

    [hist Φ d0 w]: [Φ] holds of the disk after every prefix of the trace.  A
    triple [{Pre} m {Post}] keeps it, extends the trace, and never panics. *)
Definition hist (Φ : disk -> list event -> Prop) (d0 : disk) (w : world E) : Prop :=
  w_disk w = apply_events d0 (w_trace w) /\
  forall tr, tr `prefix_of` w_trace w -> Φ (apply_events d0 tr) tr.

Definition triple {A} (Φ : disk -> list event -> Prop) (d0 : disk) (Pre : world E -> Prop)
    (m : JM (E := E) A) (Post : A -> world E -> Prop) : Prop :=
  forall w, Pre w -> hist Φ d0 w ->
  hist Φ d0 (m w).1 /\ w_trace w `prefix_of` w_trace (m w).1 /\
  match (m w).2 with
  | Ret x => Post x (m w).1
  | Err e => e <> ErrOutOfFuel
  | Panic => False
  end.

(** The crash condition allows the log [Bs] at [a] from here on. *)
Definition allowed (Φ : disk -> list event -> Prop) (tr : list event) (a : Z) (Bs : list (list jrec)) : Prop :=
  forall tr' d, tr `prefix_of` tr' -> disk_log d a Bs -> Φ d tr'.

Section logic.
Context (Φ : disk -> list event -> Prop) (d0 : disk).

Lemma triple_bind {A B} Pre (m : JM (E := E) A) Mid (k : A -> JM (E := E) B) Post :
  triple Φ d0 Pre m Mid -> (forall x, triple Φ d0 (Mid x) (k x) Post) ->
  triple Φ d0 Pre (m ≫= k) Post.
Proof using.
  clear. intros Hm Hk w Hw Hh. specialize (Hm w Hw Hh). unfold mbind, JM_bind.
  destruct (m w) as [w1 [x|e|]]; cbn [fst snd] in *; try done.
  destruct Hm as (Hh1 & Hp & Hmid). destruct (Hk x w1 Hmid Hh1) as (Hh2 & Hp2 & Hpost).
  split_and!; try done. by transitivity (w_trace w1).
Qed.

Lemma triple_conseq {A} (Pre Pre' : world E -> Prop) (m : JM (E := E) A) (Post Post' : A -> world E -> Prop) :
  triple Φ d0 Pre m Post -> (forall w, Pre' w -> Pre w) -> (forall x w, Post x w -> Post' x w) ->
  triple Φ d0 Pre' m Post'.
Proof using.
  clear. intros Hm HP HQ w Hw Hh. destruct (Hm w (HP w Hw) Hh) as (H1 & H2 & H3).
  split_and!; try done. destruct (m w).2; auto.
Qed.

Lemma triple_post {A} (Pre : world E -> Prop) (m : JM (E := E) A) (Post Post' : A -> world E -> Prop) :
  triple Φ d0 Pre m Post -> (forall x w, Post x w -> Post' x w) -> triple Φ d0 Pre m Post'.
Proof using. clear. intros Hm HQ. by eapply triple_conseq; [exact Hm| |]. Qed.

Lemma triple_at {A} (Pre : world E -> Prop) (m : JM (E := E) A) Post :
  (forall w, Pre w -> triple Φ d0 (fun w' => w' = w) m Post) -> triple Φ d0 Pre m Post.
Proof using. clear. intros Hm w Hw Hh. by apply (Hm w Hw w eq_refl). Qed.

(** Facts about the trace that survive its growth can be framed. *)
Definition grows (Q : list event -> Prop) : Prop := forall tr tr', tr `prefix_of` tr' -> Q tr -> Q tr'.

Lemma triple_frame {A} Q Pre (m : JM (E := E) A) Post :
  grows Q -> triple Φ d0 Pre m Post ->
  triple Φ d0 (fun w => Pre w /\ Q (w_trace w)) m (fun x w => Post x w /\ Q (w_trace w)).
Proof using.
  clear. intros HQ Hm w [Hw HQw] Hh. destruct (Hm w Hw Hh) as (H1 & H2 & H3).
  split_and!; try done. destruct (m w).2; auto. eauto.
Qed.

(** And facts about the run that need no invariant. *)
Lemma triple_sat {A} Pre (m : JM (E := E) A) Post K K' :
  triple Φ d0 Pre m Post -> sat K m K' -> triple Φ d0 (fun w => Pre w /\ K w) m (fun x w => Post x w /\ K' x w).
Proof using.
  clear. intros Hm Hs w [Hw HK] Hh. specialize (Hs w HK). destruct (Hm w Hw Hh) as (H1 & H2 & H3).
  split_and!; try done. by destruct (m w).2.
Qed.

Lemma triple_ret {A} Pre (x : A) (Post : A -> world E -> Prop) :
  (forall w, Pre w -> Post x w) -> triple Φ d0 Pre (mret x) Post.
Proof using. clear. intros HP w Hw Hh. split_and!; simpl; auto. Qed.

Lemma triple_get Pre : triple Φ d0 Pre get (fun j w => j = w_j w /\ Pre w).
Proof using. clear. intros w Hw Hh. by split_and!. Qed.

Lemma triple_modify (Pre : world E -> Prop) f Post :
  (forall w, Pre w -> Post tt (mkWorld (f (w_j w)) (w_disk w) (w_env w) (w_trace w))) ->
  triple Φ d0 Pre (modify f) Post.
Proof using. clear. intros HP w Hw Hh. split_and!; simpl; auto. Qed.

Lemma triple_throw {A} Pre e (Post : A -> world E -> Prop) :
  e <> ErrOutOfFuel -> triple Φ d0 Pre (throw e) Post.
Proof using. clear. intros He w Hw Hh. by split_and!. Qed.

Lemma hist_emit w e :
  hist Φ d0 w -> Φ (apply_event (w_disk w) e) (w_trace w ++ [e]) -> hist Φ d0 (emit w e).
Proof using.
  clear. intros [Hd Hp] He.
  assert (Ha : apply_event (w_disk w) e = apply_events d0 (w_trace w ++ [e]))
    by (unfold apply_events in *; rewrite foldl_app, <- Hd; done).
  split; [exact Ha|]. cbn [emit w_trace]. intros tr Htr.
  apply prefix_snoc_inv in Htr as [->|Htr]; [by rewrite <- Ha|auto].
Qed.

Lemma allowed_grows a Bs : grows (fun tr => allowed Φ tr a Bs).
Proof using. clear HN HJS HE. intros tr tr' Htr Ha tr2 d Htr2. apply Ha. by transitivity tr'. Qed.

(** The invariant, with the log it describes allowed by the crash condition. *)
Definition Inv (w : world E) ic a Bs Fs R : Prop :=
  ring_inv w ic a Bs Fs R /\ allowed Φ (w_trace w) a Bs.

(** An event that leaves the log as it is. *)
Lemma emit_inv w e ic a Bs Fs R :
  Inv w ic a Bs Fs R -> hist Φ d0 w ->
  disk_log (apply_event (w_disk w) e) a Bs ->
  disk_blocks (apply_event (w_disk w) e) (a + Z.of_nat (length Bs)) Fs ->
  Inv (emit w e) ic a Bs Fs R /\ hist Φ d0 (emit w e).
Proof using.
  clear HN HJS HE. intros [Hi Ha] Hh Hl Hf.
  assert (Hp : w_trace w `prefix_of` w_trace w ++ [e]) by apply prefix_app_r, reflexivity.
  split; [|by apply hist_emit; [|apply Ha]].
  split; [|by eapply allowed_grows]. by destruct Hi as (? & _ & _).
Qed.

Lemma safe_write_keeps d sb wr a Bs Fs :
  sb_ok sb -> sb_JournalLogStart sb = pos a -> sb_JournalLogEnd sb = pos (a + Z.of_nat (length Bs)) ->
  safe_write sb wr ->
  disk_log d a Bs -> disk_blocks d (a + Z.of_nat (length Bs)) Fs ->
  disk_log (<[wr.1 := wr.2]> d) a Bs /\
  disk_blocks (<[wr.1 := wr.2]> d) (a + Z.of_nat (length Bs)) Fs.
Proof using HN HJS.
  intros Hsb Hs He Hwr (Hlsb & Hc & Hb & Hlen) Hf. destruct Hwr as [[-> ->]|[Hn0 Hout]].
  - split; [|apply disk_blocks_outside; [done|lia]].
    split; [by apply disk_sb_write|]. split; [apply disk_ckpt_other; [done|lia]|].
    split; [apply disk_blocks_outside; [done|lia]|done].
  - split; [|apply disk_blocks_outside; [done|lia]].
    split; [by apply disk_sb_other|]. split; [apply disk_ckpt_other; [done|lia]|].
    split; [apply disk_blocks_outside; [done|lia]|done].
Qed.

Lemma emit_writes_inv wrs : forall w ic a Bs Fs R,
  Inv w ic a Bs Fs R -> hist Φ d0 w -> Forall (safe_write (j_sb (w_j w))) wrs ->
  let w' := foldl (fun w wr => emit w (EvWrite wr.1 wr.2)) w wrs in
  Inv w' ic a Bs Fs R /\ hist Φ d0 w' /\ w_trace w `prefix_of` w_trace w'.
Proof using HN HJS.
  induction wrs as [|wr wrs IH]; intros w ic a Bs Fs R Hi Hh Hs; cbn [foldl]; [by split_and!|].
  apply Forall_cons_1 in Hs as [Hwr Hs]. pose proof Hi as [Hr _].
  destruct (safe_write_keeps (w_disk w) (j_sb (w_j w)) wr a Bs Fs) as [Hl Hf];
    try apply Hr; [done|].
  destruct (emit_inv w (EvWrite wr.1 wr.2) ic a Bs Fs R Hi Hh Hl Hf) as [Hi' Hh'].
  destruct (IH (emit w (EvWrite wr.1 wr.2)) ic a Bs Fs R Hi' Hh' Hs) as (H1 & H2 & H3).
  split_and!; try done. etransitivity; [|exact H3]. by apply prefix_app_r.
Qed.

Lemma Inv_set_free w ic a Bs Fs R f env :
  Inv w ic a Bs Fs R -> is_u64 f.1 -> is_u64 f.2 ->
  Inv (mkWorld (set_sb (w_j w) (sb_set_free (j_sb (w_j w)) f)) (w_disk w) env (w_trace w)) ic a Bs Fs R.
Proof using.
  clear HN HJS HE. intros [([] & Hl) Ha] H1 H2. split; [|done]. split; [|done].
  split; try done. by apply sb_set_free_ok.
Qed.

Lemma run_hook_triple ev h ic a Bs Fs R :
  hook_safe h -> (forall b data, ev <> EvWrite b data) ->
  triple Φ d0 (fun w => Inv w ic a Bs Fs R) (run_hook ev h)
    (fun _ w => Inv w ic a Bs Fs R /\ ev ∈ w_trace w).
Proof using HN HJS.
  intros Hs Hev w Hi Hh. unfold run_hook. set (o := h (w_env w) (j_sb (w_j w))).
  destruct (Hs (w_env w) (j_sb (w_j w))) as (Hf1 & Hf2 & Hw); [apply Hi|]. fold o in Hf1, Hf2, Hw.
  set (w1 := mkWorld _ _ _ _).
  assert (Hi1 : Inv w1 ic a Bs Fs R) by (by apply Inv_set_free).
  assert (Hh1 : hist Φ d0 w1) by exact Hh.
  destruct (emit_writes_inv (ho_writes o) w1 ic a Bs Fs R Hi1 Hh1 Hw) as (Hi2 & Hh2 & Hp).
  set (w2 := foldl _ w1 _) in *. change (w_trace w) with (w_trace w1).
  destruct (ho_ok o); [|by split_and!].
  destruct (emit_inv w2 ev ic a Bs Fs R Hi2 Hh2) as [Hi3 Hh3].
  - destruct ev; try apply Hi2. by destruct (Hev block data).
  - destruct ev; try apply Hi2. by destruct (Hev block data).
  - cbn [fst snd]. split_and!; try done.
    + etransitivity; [exact Hp|]. by apply prefix_app_r.
    + cbn. apply elem_of_app. right. apply list_elem_of_singleton. done.
Qed.

Context (HS : HooksSafe).

Lemma run_opt_triple ev h ic a Bs Fs R :
  (forall h', h = Some h' -> hook_safe h') -> (forall b data, ev <> EvWrite b data) ->
  triple Φ d0 (fun w => Inv w ic a Bs Fs R) (run_opt ev h)
    (fun _ w => Inv w ic a Bs Fs R /\ (is_Some h -> ev ∈ w_trace w)).
Proof using HN HJS.
  intros Hs Hev. destruct h as [h|]; cbn [run_opt].
  - eapply triple_post; [apply run_hook_triple; [by apply Hs|exact Hev]|].
    intros _ w [? ?]. done.
  - apply triple_ret. intros w Hw. split; [done|]. by intros [? ?].
Qed.

Lemma syncWB_triple ic a Bs Fs R :
  triple Φ d0 (fun w => Inv w ic a Bs Fs R) syncWB (fun _ w => Inv w ic a Bs Fs R).
Proof using HN HJS HS.
  unfold syncWB. destruct wbFlusher as [f|] eqn:Ef.
  - eapply triple_post; [apply run_hook_triple; [by apply safe_flush|done]|].
    by intros _ w [? _].
  - eapply triple_post; [apply run_hook_triple; [apply safe_file|done]|].
    by intros _ w [? _].
Qed.

Lemma kickWB_triple ic a Bs Fs R :
  triple Φ d0 (fun w => Inv w ic a Bs Fs R) kickWB (fun _ w => Inv w ic a Bs Fs R).
Proof using HN HJS HS.
  unfold kickWB. destruct wbFlusher as [f|] eqn:Ef; [|by apply triple_ret].
  eapply triple_post; [apply run_hook_triple; [by apply safe_kick|done]|].
  by intros _ w [? _].
Qed.

Lemma ring_mem_set_free j ic a Bs Fs R f :
  ring_mem j ic a Bs Fs R -> is_u64 f.1 -> is_u64 f.2 ->
  ring_mem (set_sb j (sb_set_free (j_sb j) f)) ic a Bs Fs R.
Proof using. clear HN HJS HE. intros [] H1 H2. split; try done. by apply sb_set_free_ok. Qed.

(** [Q] survives the refresh of the free counts. *)
Lemma refreshFree_triple (Q : disk -> list event -> Prop) ic a Bs Fs R :
  triple Φ d0 (fun w => ring_mem (w_j w) ic a Bs Fs R /\ Q (w_disk w) (w_trace w)) refreshFree
    (fun _ w => ring_mem (w_j w) ic a Bs Fs R /\ Q (w_disk w) (w_trace w)).
Proof using HS.
  intros w [Hm Hq] Hh. unfold refreshFree. destruct allocSyncer as [al|] eqn:Ea; [|by split_and!].
  destruct (safe_refresh al (w_env w) Ea) as [H1 H2].
  split_and!; try done. split; [|done]. by apply ring_mem_set_free.
Qed.

Lemma writeThrough_triple b data (Pre : world E -> Prop) (Post : unit -> world E -> Prop) :
  (forall w, Pre w -> Φ (<[b := data]> (w_disk w)) (w_trace w ++ [EvWrite b data]) /\
                      Post tt (emit w (EvWrite b data))) ->
  triple Φ d0 Pre (writeThrough b data) Post.
Proof using.
  clear HN HJS HE. intros HP w Hw Hh. destruct (HP w Hw) as [H1 H2]. unfold writeThrough.
  assert (Hp : w_trace w `prefix_of` w_trace (emit w (EvWrite b data))) by (by apply prefix_app_r).
  destruct (writeAt _); split_and!; try done; by apply hist_emit.
Qed.

(** The superblock in memory, once persisted, is the log on disk. *)
Definition Ready (w : world E) ic a Bs Fs R : Prop :=
  ring_mem (w_j w) ic a Bs Fs R /\
  ((disk_ckpt (w_disk w) /\ disk_blocks (w_disk w) a Bs /\ Z.of_nat (length Bs) < N - 1 /\
    disk_blocks (w_disk w) (a + Z.of_nat (length Bs)) Fs) /\ allowed Φ (w_trace w) a Bs).

Lemma syncSuperblock_triple ic a Bs Fs R :
  triple Φ d0 (fun w => Ready w ic a Bs Fs R) syncSuperblock (fun _ w => Inv w ic a Bs Fs R).
Proof using HN HJS HS.
  unfold syncSuperblock. eapply triple_bind; [|intros []; eapply triple_bind; [apply triple_get|]].
  { apply (refreshFree_triple (fun d tr => (disk_ckpt d /\ disk_blocks d a Bs /\
      Z.of_nat (length Bs) < N - 1 /\ disk_blocks d (a + Z.of_nat (length Bs)) Fs) /\ allowed Φ tr a Bs)). }
  cbn beta. intros j w [Ej (Hm & (Hc & Hb & Hlen & Hf) & Ha)] Hh. subst j.
  assert (Hl : disk_log (<[0 := superblock_block (j_sb (w_j w))]> (w_disk w)) a Bs).
  { split; [apply disk_sb_write; apply Hm|]. split; [apply disk_ckpt_other; [done|lia]|].
    split; [|done]. apply disk_blocks_outside; [done|lia]. }
  assert (Hp : w_trace w `prefix_of` w_trace w ++ [EvWrite 0 (superblock_block (j_sb (w_j w)))])
    by (by apply prefix_app_r).
  refine (writeThrough_triple 0 _ (fun w' => w' = w) (fun _ w => Inv w ic a Bs Fs R) _ w eq_refl Hh).
  intros ? ->. split; [by apply Ha|].
  split; [|by eapply allowed_grows]. split_and!; try done.
  apply disk_blocks_outside; [done|lia].
Qed.

Lemma concat_app_nil (Bs Fs : list (list jrec)) :
  Z.of_nat (length (Bs ++ Fs)) = Z.of_nat (length Bs) + Z.of_nat (length Fs).
Proof using. clear. rewrite length_app. lia. Qed.

Lemma ring_mem_commit j ic a Bs Fs R :
  ring_mem j ic a Bs Fs R ->
  let j' := set_sb j (sb_set_log (j_sb j) (sb_CheckpointSeq (j_sb j)) (sb_JournalLogStart (j_sb j))
                        (j_writePos j)) in
  if decide (Z.of_nat (length Bs) + Z.of_nat (length Fs) < N - 1)
  then ring_mem j' ic a (Bs ++ Fs) [] R
  else ring_mem j' ic (a + (N - 1)) [] [] R.
Proof using HN HJS HE.
  intros Hm. cbv zeta. pose proof Hm as []. destruct (sb_current_fields (j_sb j) (proj1 ri_sb0)) as (_&_&?&_).
  rewrite ri_start0, ri_pos0. case_decide as Hd.
  - split; try done; cbn.
    + by apply sb_set_log_ok.
    + by rewrite length_app, Nat2Z.inj_add, Z.add_assoc.
    + by rewrite ri_pos0, length_app, Nat2Z.inj_add, Z.add_0_r, Z.add_assoc.
    + rewrite length_app. lia.
  - replace (a + Z.of_nat (length Bs) + Z.of_nat (length Fs)) with (a + (N - 1)) in * by lia.
    split; try done; cbn; rewrite ?Z.add_0_r; try done; try lia.
    + by apply sb_set_log_ok.
    + symmetry. apply pos_period.
Qed.

Definition next_start a (Bs Fs : list (list jrec)) : Z :=
  if decide (Z.of_nat (length Bs) + Z.of_nat (length Fs) < N - 1) then a else a + (N - 1).
Definition next_log (Bs Fs : list (list jrec)) : list (list jrec) :=
  if decide (Z.of_nat (length Bs) + Z.of_nat (length Fs) < N - 1) then Bs ++ Fs else [].

(** The log after the commit point: extended, unless the write position has
    reached the start of the log, when it reads as empty. *)
Lemma commit_log_triple ic a Bs Fs R :
  triple Φ d0 (fun w => Inv w ic a Bs Fs R /\ allowed Φ (w_trace w) (next_start a Bs Fs) (next_log Bs Fs))
    commit_log
    (fun _ w => Inv w ic (next_start a Bs Fs) (next_log Bs Fs) [] R).
Proof using HN HJS HE HS.
  unfold commit_log.
  apply (triple_bind _ _ (fun _ w => Ready w ic (next_start a Bs Fs) (next_log Bs Fs) [] R));
    [|intros []; apply syncSuperblock_triple].
  unfold next_start, next_log.
  apply triple_modify. intros w [[(Hm & (Hsb & Hc & Hb & Hl) & Hf) _] Ha].
  pose proof (ring_mem_commit _ _ _ _ _ _ Hm) as Hm'. cbv zeta in Hm'. unfold Ready; cbn.
  case_decide.
  - split; [exact Hm'|]. split_and!; try done.
    + by apply disk_blocks_app.
    + rewrite length_app. lia.
  - split; [exact Hm'|]. split_and!; try done; try (simpl; lia).
Qed.

Lemma ring_mem_retire j ic a Bs Fs R cs :
  ring_mem j ic a Bs Fs R -> is_u64 cs ->
  ring_mem (set_since (set_sb (set_checkpointSeq j cs)
              (sb_set_log (j_sb j) cs (j_writePos j) (j_writePos j))) 0 0)
    ic (a + Z.of_nat (length Bs) + Z.of_nat (length Fs)) [] [] R.
Proof using HN HJS HE.
  intros Hm Hcs. pose proof Hm as []. rewrite ri_pos0. split; try done; cbn; rewrite ?Z.add_0_r; try done; [|lia].
  by apply sb_set_log_ok.
Qed.

Lemma retire_log_triple ic a Bs Fs R cp :
  is_u64 (cp_Seq cp) ->
  triple Φ d0 (fun w => Inv w ic a Bs Fs R /\
      allowed Φ (w_trace w) (a + Z.of_nat (length Bs) + Z.of_nat (length Fs)) [])
    (retire_log cp)
    (fun _ w => Inv w ic (a + Z.of_nat (length Bs) + Z.of_nat (length Fs)) [] [] R).
Proof using HN HJS HE HS.
  intros Hcs. unfold retire_log.
  apply (triple_bind _ _ (fun _ w => Ready w ic (a + Z.of_nat (length Bs) + Z.of_nat (length Fs)) [] [] R));
    [|intros []; apply syncSuperblock_triple].
  apply triple_modify. intros w [[(Hm & (Hsb & Hc & Hb & Hl) & Hf) _] Ha].
  split; [by apply ring_mem_retire|]. split_and!; try done. simpl. lia.
Qed.

Lemma refreshFree_Inv ic a Bs Fs R :
  triple Φ d0 (fun w => Inv w ic a Bs Fs R) refreshFree (fun _ w => Inv w ic a Bs Fs R).
Proof using HS.
  eapply triple_conseq; [apply (refreshFree_triple (fun d tr =>
    (disk_log d a Bs /\ disk_blocks d (a + Z.of_nat (length Bs)) Fs) /\ allowed Φ tr a Bs))| |].
  - intros w [(H1 & H2) H3]. exact (conj H1 (conj H2 H3)).
  - intros _ w (H1 & H2 & H3). exact (conj (conj H1 H2) H3).
Qed.

Lemma writeBlock_in_range b data w :
  ring_journal (w_j w) -> JS <= b < JS + N -> writeBlock b data w = writeThrough b data w.
Proof using.
  clear HN HJS HE. intros (E1 & E2 & _) Hb. unfold writeBlock, mbind, JM_bind, get.
  rewrite E1, E2. destruct (Z.ltb_spec b JS); [lia|]. by destruct (Z.leb_spec (JS + N) b); [lia|].
Qed.

(** Writing the checkpoint block leaves the log alone. *)
Lemma writeBlock_ckpt_triple seq cp ic a Bs Fs R :
  is_u32 seq -> codec_wf cp ->
  triple Φ d0 (fun w => Inv w ic a Bs Fs R)
    (writeBlock (JS + N - 1) (WriteCheckpointBlock (zeros JournalBlockSize) seq cp))
    (fun _ w => Inv w ic a Bs Fs R).
Proof using HN HJS.
  intros Hs Hcp w Hi Hh. rewrite writeBlock_in_range by (apply Hi || lia).
  set (buf := WriteCheckpointBlock _ _ _).
  refine (writeThrough_triple _ buf (fun w' => w' = w) (fun _ w => Inv w ic a Bs Fs R) _ w eq_refl Hh).
  intros ? ->. pose proof Hi as [(Hm & (Hsb & Hc & Hb & Hl) & Hf) Ha].
  assert (Hlog : disk_log (<[JS + N - 1 := buf]> (w_disk w)) a Bs).
  { split; [apply disk_sb_other; [done|lia]|]. split.
    - exists buf. rewrite lookup_insert_eq. split; [done|]. unfold buf.
      rewrite WriteCheckpointBlock_image by done. destruct (checkpoint_rec_ok cp Hcp).
      by rewrite ParseJournalBlockHeader_image.
    - split; [apply disk_blocks_outside; [done|lia]|done]. }
  assert (Hp : w_trace w `prefix_of` w_trace w ++ [EvWrite (JS + N - 1) buf]) by (by apply prefix_app_r).
  split; [by apply Ha|]. split; [|by eapply allowed_grows].
  split_and!; try done. apply disk_blocks_outside; [done|lia].
Qed.

Lemma checkpoint_retire_triple ic a Bs Fs R :
  triple Φ d0 (fun w => Inv w ic a Bs Fs R /\
      allowed Φ (w_trace w) (a + Z.of_nat (length Bs) + Z.of_nat (length Fs)) [])
    checkpoint_retire
    (fun _ w => Inv w ic (a + Z.of_nat (length Bs) + Z.of_nat (length Fs)) [] [] R).
Proof using HN HJS HE HS.
  set (a' := a + Z.of_nat (length Bs) + Z.of_nat (length Fs)).
  pose proof (allowed_grows a' []) as Hg. unfold checkpoint_retire.
  eapply triple_bind; [apply (triple_frame _ _ _ (fun _ w => Inv w ic a Bs Fs R) Hg), kickWB_triple|intros []].
  eapply triple_bind; [apply (triple_frame _ _ _ (fun _ w => Inv w ic a Bs Fs R) Hg)|intros []].
  { destruct allocSyncer as [al|] eqn:Ea; [|by apply triple_ret].
    eapply triple_bind; [apply run_hook_triple; [by apply safe_allocs|done]|intros []].
    eapply triple_conseq; [apply syncWB_triple|by intros w [? _]|done]. }
  eapply triple_bind; [apply (triple_frame _ _ _ (fun _ w => Inv w ic a Bs Fs R) Hg), refreshFree_Inv|intros []].
  eapply triple_bind; [apply triple_get|intros j]. cbv zeta.
  apply triple_at. intros w [Ej [Hi Ha]]. subst j. pose proof Hi as [(Hm & _) _]. pose proof Hm as [].
  destruct ri_ring0 as (_ & _ & ->). destruct (sb_current_fields _ (proj1 ri_sb0)) as (?&?&?&?&?&?&?&?).
  set (cp := mkCheckpoint _ _ _ _ _ _ _ _).
  assert (Hcp : codec_wf cp).
  { unfold cp. rewrite ri_cur0, ParseJournalBlockHeader_image by auto using MagicJournal_u32, log_rec_ok.
    pose proof (fits_count R (log_rec_ok _ ri_recs0) ri_fits0).
    pose proof (u64_range (j_checkpointSeq (w_j w) + 1)). rewrite ri_pos0.
    pose proof (pos_u64 (a + Z.of_nat (length Bs) + Z.of_nat (length Fs))).
    unfold is_u64 in *. codec_wf_tac. }
  apply (triple_bind _ _ (fun _ w => Inv w ic a Bs Fs R /\ allowed Φ (w_trace w) a' []));
    [|intros []; apply (retire_log_triple ic a Bs Fs R cp), u64_range].
  eapply triple_conseq; [apply (triple_frame _ (fun w => Inv w ic a Bs Fs R) _ (fun _ w => Inv w ic a Bs Fs R) Hg)| |].
  - by apply writeBlock_ckpt_triple.
  - intros ? ->. exact (conj Hi Ha).
  - intros ? ? Hx. exact Hx.
Qed.

Lemma advance_spec j i :
  ring_journal j -> j_writePos j = pos i ->
  exists n, advance j = set_since (set_pos j (pos (i + 1)) (j_syncedPos j)) (j_recordsSinceCheckpoint j) n.
Proof using HN HJS HE.
  intros (E1 & E2 & E3) Ep. unfold advance, nextBlock. rewrite pos_succ.
  pose proof (pos_bounds i) as Hb. pose proof (Z.mod_pos_bound i U ltac:(unfold U; lia)).
  cbn. rewrite E1, E2, E3, Ep. replace (JS + N - JS) with N by lia.
  rewrite u64_small by (unfold is_u64; lia). rewrite NextRingBlock_pos.
  unfold pos, U in *. case_decide as Hd.
  - rewrite Hd. replace (JS + (N - 1 - 1) + 1) with (JS + N - 1) by lia. rewrite Z.eqb_refl.
    pose proof NextRingBlock_ckpt as Hn. unfold U in Hn.
    replace (JS + N - 1) with (JS + (N - 1)) by lia. rewrite Hn. by eexists.
  - rewrite (proj2 (Z.eqb_neq _ _)) by lia. by eexists.
Qed.

Lemma fits_nil : fits [].
Proof using. clear. unfold fits. simpl. lia. Qed.

Lemma ring_mem_flush j ic a Bs Fs R :
  ring_mem j ic a Bs Fs R -> Z.of_nat (length Bs) + Z.of_nat (length Fs) < N - 1 ->
  let j' := initCurBlock (u32 (j_blockSeq j + 1)) (advance j) in
  ring_mem (set_flags j' false (j_inCheckpoint j') (j_inReplay j')) ic a Bs (Fs ++ [R]) [].
Proof using HN HJS HE.
  intros [] Hl. destruct (advance_spec j _ ri_ring0 ri_pos0) as [n ->]. cbv zeta.
  assert (El : Z.of_nat (length (Fs ++ [R])) = Z.of_nat (length Fs) + 1)
    by (rewrite length_app; simpl; lia).
  split; try done; cbn -[init_block block_image u32];
    try (rewrite El; first [done|lia|f_equal; lia]).
  - apply u32_range.
  - apply fits_nil.
Qed.

Lemma flush_cur_triple ic a Bs Fs R :
  Z.of_nat (length Bs) + Z.of_nat (length Fs) < N - 1 ->
  triple Φ d0 (fun w => Inv w ic a Bs Fs R) flush_cur (fun _ w => Inv w ic a Bs (Fs ++ [R]) []).
Proof using HN HJS HE.
  intros Hlen. unfold flush_cur. eapply triple_bind; [apply triple_get|intros j].
  apply triple_at. intros w [Ej Hi]. subst j. pose proof Hi as [(Hm & (Hsb & Hc & Hb & Hl) & Hf) Ha].
  pose proof Hm as []. set (i := a + Z.of_nat (length Bs) + Z.of_nat (length Fs)) in *.
  pose proof (pos_bounds i) as Hpi. unfold U in Hpi. set (buf := j_curBlock (w_j w)) in *.
  set (d' := <[pos i := buf]> (w_disk w)).
  assert (Hlog : disk_log d' a Bs).
  { split; [apply disk_sb_other; [done|lia]|]. split; [apply disk_ckpt_other; [done|lia]|].
    split; [|done]. apply disk_blocks_other; [done|]. intros k Hk E'.
    apply pos_inj in E'; unfold U, i in *; lia. }
  assert (Hfl : disk_blocks d' (a + Z.of_nat (length Bs)) (Fs ++ [R])).
  { apply disk_blocks_app. split.
    - apply disk_blocks_other; [done|]. intros k Hk E'. apply pos_inj in E'; unfold U, i in *; lia.
    - intros k B Hk. apply list_lookup_singleton_Some in Hk as [-> <-]. rewrite Z.add_0_r.
      exists (j_blockSeq (w_j w)). fold i. unfold d'. rewrite lookup_insert_eq, <- ri_cur0. done. }
  pose (Mid (_ : unit) w' := ring_mem (w_j w') ic a Bs Fs R /\ (disk_log (w_disk w') a Bs /\
    disk_blocks (w_disk w') (a + Z.of_nat (length Bs)) (Fs ++ [R])) /\ allowed Φ (w_trace w') a Bs).
  apply (triple_bind _ _ Mid).
  - intros ? -> Hh. rewrite ri_pos0, writeBlock_in_range by (done || lia).
    refine (writeThrough_triple (pos i) buf (fun w' => w' = w) Mid _ w eq_refl Hh).
    intros ? ->. assert (Hp : w_trace w `prefix_of` w_trace w ++ [EvWrite (pos i) buf])
      by (by apply prefix_app_r).
    split; [by apply Ha|]. split_and!; try done. by eapply allowed_grows.
  - intros []. apply triple_modify. intros w' (Hm' & [Hl' Hf'] & Ha').
    split; [|done]. split; [|done]. by apply ring_mem_flush.
Qed.

Lemma sync_commit_triple ic a Bs Fs R :
  Z.of_nat (length Bs) + Z.of_nat (length Fs) < N - 1 ->
  triple Φ d0 (fun w => Inv w ic a Bs Fs R /\
      allowed Φ (w_trace w) (next_start a Bs (Fs ++ [R])) (next_log Bs (Fs ++ [R])))
    sync_commit
    (fun _ w => Inv w ic (next_start a Bs (Fs ++ [R])) (next_log Bs (Fs ++ [R])) [] [] /\
      (is_Some metaSyncer -> EvMeta ∈ w_trace w)).
Proof using HN HJS HE HS.
  intros Hlen. set (a' := next_start _ _ _). set (Bs' := next_log _ _).
  pose proof (allowed_grows a' Bs') as Hg. unfold sync_commit.
  eapply triple_bind; [apply (triple_frame _ _ _ (fun _ w => Inv w ic a Bs (Fs ++ [R]) []) Hg);
    by apply flush_cur_triple|intros []].
  eapply triple_bind; [eapply (triple_frame _ _ _ _ Hg); apply run_opt_triple; [apply safe_drain|done]|intros []].
  eapply triple_bind; [eapply triple_conseq; [apply (commit_log_triple ic a Bs (Fs ++ [R]) [])| |]|intros []].
  { intros w [[Hi _] Ha]. exact (conj Hi Ha). }
  { intros ? w Hi. exact Hi. }
  fold a' Bs'.
  eapply triple_bind; [apply run_opt_triple; [apply safe_meta|done]|intros []].
  assert (Hm : grows (fun tr => is_Some metaSyncer -> EvMeta ∈ tr)).
  { intros tr tr' [k ->] Hx Hy. apply elem_of_app. auto. }
  eapply triple_bind; [eapply (triple_frame _ _ _ _ Hm); apply run_opt_triple; [|done]|intros []].
  { intros h Eh. destruct allocSyncer as [al|] eqn:Ea; [|discriminate]. injection Eh as <-.
    by apply safe_allocs. }
  eapply triple_bind; [eapply triple_conseq; [eapply (triple_frame _ _ _ _ Hm); apply syncWB_triple| |]|intros []].
  { intros w [[Hi _] Hx]. exact (conj Hi Hx). }
  { intros ? w Hx. exact Hx. }
  apply triple_modify. intros w [[([] & Hl) Ha] Hx]. split; [|exact Hx]. split; [|exact Ha].
  split; [|exact Hl]. by split.
Qed.

(** ** The mutually recursive calls *)

Lemma Inv_set_ic w ic ic' a Bs Fs R :
  Inv w ic a Bs Fs R ->
  Inv (mkWorld (set_flags (w_j w) (j_dirty (w_j w)) ic' (j_inReplay (w_j w)))
         (w_disk w) (w_env w) (w_trace w)) ic' a Bs Fs R.
Proof using. clear HN HJS HE. intros [([] & Hl) Ha]. split; [|exact Ha]. split; [|exact Hl]. by split. Qed.

Lemma with_inCheckpoint_triple m Q a Bs Fs R a' Bs' Fs' R' :
  triple Φ d0 (fun w => Inv w true a Bs Fs R /\ Q (w_trace w)) m (fun _ w => Inv w true a' Bs' Fs' R') ->
  triple Φ d0 (fun w => Inv w false a Bs Fs R /\ Q (w_trace w)) (with_inCheckpoint m)
    (fun _ w => Inv w false a' Bs' Fs' R').
Proof using.
  clear HN HJS HE. intros Hm w [Hi Hq] Hh. unfold with_inCheckpoint, mbind, JM_bind, modify, attempt, rethrow.
  set (w1 := mkWorld _ _ _ _).
  destruct (Hm w1 (conj (Inv_set_ic _ _ true _ _ _ _ Hi) Hq) Hh) as (Hh1 & Hp & Hr).
  destruct (m w1) as [w2 r]. cbn [fst snd] in *. split_and!; try done.
  destruct r; try done. by apply Inv_set_ic with true.
Qed.

Lemma checkpoint_clean_triple n fp ic a Bs Fs R :
  fp = false \/ R = [] ->
  triple Φ d0 (fun w => Inv w ic a Bs Fs R /\
      allowed Φ (w_trace w) (a + Z.of_nat (length Bs) + Z.of_nat (length Fs)) [])
    (journal_call (S n) (CallCheckpoint fp))
    (fun _ w => Inv w ic (a + Z.of_nat (length Bs) + Z.of_nat (length Fs)) [] [] R).
Proof using HN HJS HE HS.
  intros Hfp. cbn [journal_call]. unfold checkpoint_body.
  eapply triple_bind; [apply triple_get|intros j].
  apply triple_at. intros w [Ej [Hi Ha]]. subst j.
  replace (fp && j_dirty (w_j w)) with false.
  - apply (triple_bind _ _ (fun _ w' => w' = w)); [by apply triple_ret|intros []].
    eapply triple_conseq; [apply checkpoint_retire_triple| |].
    + intros ? ->. exact (conj Hi Ha).
    + intros ? ? Hx. exact Hx.
  - destruct Hi as [([] & _) _]. rewrite ri_dirty0. destruct Hfp as [-> | ->]; [done|by rewrite andb_false_r].
Qed.

(** When may the log be retired: once the bridge has flushed its metadata. *)
Context (Hretire : forall tr x, (is_Some metaSyncer -> EvMeta ∈ tr) -> allowed Φ tr x []).

(** Why a sync retires the log: a periodic checkpoint is due, by the bound [n] on
    the records since the last one, or the commit leaves at most one block of the
    ring. *)
Definition retires (n : Z) (cp : bool) (Bs Fs : list (list jrec)) : Prop :=
  (cp = true /\ JrnCheckpointInterval <= n) \/ N - 2 <= Z.of_nat (length Bs) + Z.of_nat (length Fs) + 1.

Definition Synced (w : world E) n cp a Bs Fs R : Prop :=
  exists a' Bs', Inv w false a' Bs' [] [] /\
    ((a' = next_start a Bs (Fs ++ [R]) /\ Bs' = next_log Bs (Fs ++ [R]) /\ since n w) \/
     (Bs' = [] /\ since 0 w /\ retires n cp Bs Fs)).

(** The back-pressure test after the commit fires with one block left. *)
Lemma back_pressure w x Cs : ring_inv w false x Cs [] [] ->
  nextBlock (w_j w) (j_writePos (w_j w)) = sb_JournalLogStart (j_sb (w_j w)) -> Z.of_nat (length Cs) = N - 2.
Proof using HN HJS HE.
  intros ([] & (_ & _ & _ & Hl) & _) Ec. destruct ri_ring0 as (E1 & E2 & _). unfold nextBlock in Ec.
  rewrite E1, E2, ri_pos0, ri_start0 in Ec. replace (JS + N - JS) with N in Ec by lia.
  rewrite u64_small in Ec by (unfold is_u64; lia). simpl Z.of_nat in Ec. rewrite Z.add_0_r, NextRingBlock_pos in Ec.
  pose proof (pos_bounds x) as Hx. pose proof (pos_succ (x + Z.of_nat (length Cs))) as Hsu. unfold U in *.
  case_decide as Hd; [unfold pos in Ec, Hx; lia|]. rewrite <- Hsu in Ec.
  destruct (Z.eq_dec (Z.of_nat (length Cs) + 1) (N - 1)) as [|Hne]; [lia|].
  apply pos_inj in Ec; unfold U; lia.
Qed.

(** The back-pressure checkpoint before the write: with room in the ring it is
    taken only when the log is empty, and leaves it so. *)
Lemma sync_front_triple n a Bs Fs R j :
  Z.of_nat (length Bs) + Z.of_nat (length Fs) < N - 1 -> R <> [] ->
  triple Φ d0 (fun w => j = w_j w /\ Inv w false a Bs Fs R)
    (if negb (j_inCheckpoint j) && (j_writePos j =? sb_JournalLogStart (j_sb j))
        && (0 <? j_blocksSinceCheckpoint j)
     then _ ← with_inCheckpoint (journal_call (S n) (CallCheckpoint false));
          j ← get; mret (j_dirty j)
     else mret true)
    (fun p w => p = true /\ Inv w false a Bs Fs R).
Proof using HN HJS HE HS.
  intros Hlen HR. apply triple_at. intros w [-> Hi]. pose proof Hi as [(Hm & _) Ha]. destruct Hm.
  destruct (negb _ && _ && _) eqn:Ec; [|apply triple_ret; by intros ? ->].
  apply andb_prop in Ec as [Ec _]. apply andb_prop in Ec as [_ Ec]. apply Z.eqb_eq in Ec.
  rewrite ri_pos0, ri_start0 in Ec. apply pos_inj in Ec; [|unfold U; lia].
  assert (Bs = [] /\ Fs = []) as [-> ->] by (split; apply nil_length_inv; lia).
  eapply triple_bind.
  - eapply triple_conseq; [apply (with_inCheckpoint_triple _ (fun tr => allowed Φ tr (a + 0 + 0) [])
      a [] [] R (a + 0 + 0) [] [] R), checkpoint_clean_triple; by left| |].
    + intros ? ->. rewrite !Z.add_0_r. exact (conj Hi Ha).
    + intros ? w' Hx. exact Hx.
  - intros []. rewrite !Z.add_0_r. eapply triple_bind; [apply triple_get|intros j].
    apply triple_ret. intros w' [-> Hi']. split; [|exact Hi'].
    destruct Hi' as [([] & _) _]. rewrite ri_dirty1. by destruct R.
Qed.

(** Retiring a log that is fully committed. *)
Lemma checkpoint_committed_triple n ic a Bs :
  triple Φ d0 (fun w => Inv w ic a Bs [] [] /\ (is_Some metaSyncer -> EvMeta ∈ w_trace w))
    (journal_call (S n) (CallCheckpoint true))
    (fun _ w => Inv w ic (a + Z.of_nat (length Bs) + 0) [] [] []).
Proof using HN HJS HE HS Hretire.
  eapply triple_conseq; [apply (checkpoint_clean_triple n true ic a Bs [] []); by right| |].
  - intros w [Hi Hx]. split; [exact Hi|]. by apply Hretire.
  - intros ? w Hx. exact Hx.
Qed.

Lemma after_meta_trace tr0 w : after_meta tr0 w -> is_Some metaSyncer -> EvMeta ∈ w_trace w.
Proof using. clear. intros (tr & -> & Hf) Hm. apply elem_of_app. right. by apply Hf. Qed.

Lemma Inv_clean w ic a Bs Fs : Inv w ic a Bs Fs [] -> clean true w.
Proof using. clear HN HJS HE Hretire. intros [([] & _) _] _. done. Qed.

(** Retiring it, with what the run tells besides. *)
Lemma retire_triple n a Bs tr0 :
  triple Φ d0 (fun w => Inv w false a Bs [] [] /\ after_meta tr0 w) (journal_call (S n) (CallCheckpoint true))
    (fun _ w => Inv w false (a + Z.of_nat (length Bs) + 0) [] [] [] /\ after_meta tr0 w /\ since 0 w).
Proof using HN HJS HE HS Hretire.
  eapply triple_conseq; [apply triple_sat; [apply (checkpoint_committed_triple n false a Bs)|
    apply (checkpoint_sat (after_meta tr0) n true); auto with stable]| |].
  - intros w [Hi Hm]. split; split; [done|by apply (after_meta_trace tr0)|done|by eapply Inv_clean].
  - by intros _ w [Hi [[? _] ?]].
Qed.

Lemma retire_triple_ic n a Bs tr0 :
  triple Φ d0 (fun w => Inv w false a Bs [] [] /\ after_meta tr0 w) (with_inCheckpoint (journal_call (S n) (CallCheckpoint true)))
    (fun _ w => Inv w false (a + Z.of_nat (length Bs) + 0) [] [] [] /\ after_meta tr0 w /\ since 0 w).
Proof using HN HJS HE HS Hretire.
  eapply triple_conseq; [apply triple_sat; [apply (with_inCheckpoint_triple _ (fun tr => is_Some metaSyncer -> EvMeta ∈ tr)
      a Bs [] [] (a + Z.of_nat (length Bs) + 0) [] [] []), checkpoint_committed_triple|
    apply (with_inCheckpoint_sat (fun w => after_meta tr0 w /\ clean true w) (fun w => (after_meta tr0 w /\ clean true w) /\ since 0 w));
      [auto with stable zarith..|apply (checkpoint_sat (after_meta tr0) n true); auto with stable]]| |].
  - intros w [Hi Hm]. split; split; [done|by apply (after_meta_trace tr0)|done|by eapply Inv_clean].
  - by intros _ w [Hi [[? _] ?]].
Qed.

Lemma sync_dirty_triple k cp a Bs Fs R n tr0 :
  Z.of_nat (length Bs) + Z.of_nat (length Fs) < N - 1 -> R <> [] -> 0 <= n ->
  triple Φ d0 (fun w => (Inv w false a Bs Fs R /\
      allowed Φ (w_trace w) (next_start a Bs (Fs ++ [R])) (next_log Bs (Fs ++ [R]))) /\ (since n w /\ after tr0 w))
    (journal_call (S (S k)) (CallSync cp))
    (fun _ w => Synced w n cp a Bs Fs R /\ after_meta tr0 w).
Proof using HN HJS HE HS Hretire.
  intros Hlen HR Hn. set (a' := next_start _ _ _). set (Bs' := next_log _ _).
  pose proof (allowed_grows a' Bs') as Hg. assert (HK : stable (fun w => since n w /\ after tr0 w)) by auto with stable.
  change (journal_call (S (S k)) (CallSync cp)) with (sync_body (journal_call (S k)) cp).
  unfold sync_body. eapply triple_bind; [apply triple_get|intros j].
  apply triple_at. intros w [-> [[Hi Ha] HKw]]. replace (negb (j_dirty (w_j w))) with false
    by (destruct Hi as [([] & _) _]; rewrite ri_dirty0; by destruct R).
  eapply triple_bind; [|intros p].
  { eapply triple_conseq; [apply triple_sat; [eapply (triple_frame _ _ _ _ Hg); by apply (sync_front_triple k a Bs Fs R (w_j w))|
      by apply (sync_front_sat _ k (w_j w) HK)]| |].
    - intros ? ->. exact (conj (conj (conj eq_refl Hi) Ha) HKw).
    - intros x w' Hx. exact Hx. }
  cbn beta. apply triple_at. intros w1 [[[-> Hi1] Ha1] HK1]. cbn [negb].
  eapply (triple_bind _ _ (fun _ w => Inv w false a' Bs' [] [] /\ (since n w /\ after_meta tr0 w))); [|intros []].
  { eapply triple_conseq; [apply triple_sat; [by apply (sync_commit_triple false a Bs Fs R)|by apply (sync_commit_sat (since n) tr0); auto with stable]| |].
    - intros ? ->. exact (conj (conj Hi1 Ha1) HK1).
    - by intros _ w' [[? _] [[? _] ?]]. }
  eapply triple_bind; [apply triple_get|intros j]. cbn beta.
  eapply (triple_bind _ _ (fun _ w => Synced w n cp a Bs Fs R /\ after_meta tr0 w)).
  - apply triple_at. intros w2 [-> [Hi2 [Hs2 He]]]. destruct (cp && _) eqn:Ec.
    + apply andb_prop in Ec as [-> Ec%Z.leb_le]. eapply triple_conseq; [apply (retire_triple k a' Bs' tr0)|by intros ? ->|].
      intros _ w3 (Hx & Hy & Hz). split; [|done]. exists (a' + Z.of_nat (length Bs') + 0), []. split; [done|]. right. split_and!; [done..|].
      left. split; [done|]. unfold since in Hs2. lia.
    + apply triple_ret. intros ? ->. split; [|done]. exists a', Bs'. auto.
  - intros []. eapply triple_bind; [apply triple_get|intros j2]. apply triple_at.
    intros w3 [-> [(x & Cs & Hi3 & Hor) He]]. destruct (negb _ && _) eqn:Ec;
      [|apply triple_ret; intros ? ->; split; [by exists x, Cs|exact He]].
    apply andb_prop in Ec as [_ Ec%Z.eqb_eq]. pose proof (back_pressure w3 x Cs (proj1 Hi3) Ec) as Hbp.
    eapply triple_conseq; [apply (retire_triple_ic k x Cs tr0)|by intros ? ->|].
    intros _ w4 (Hx & Hy & Hz). split; [|done]. exists (x + Z.of_nat (length Cs) + 0), []. split; [done|]. right. split_and!; [done..|].
    destruct Hor as [(_ & -> & _)|(_ & _ & ?)]; [|done]. right. revert Hbp. unfold Bs', next_log. case_decide as Hd.
    + rewrite !length_app. simpl. lia.
    + intros _. rewrite length_app in Hd. simpl in Hd. lia.
Qed.

Lemma sync_clean n cp w ic a Bs Fs :
  ring_inv w ic a Bs Fs [] -> journal_call (S n) (CallSync cp) w = (w, Ret tt).
Proof using.
  clear HN HJS HE. intros ([] & _). cbn [journal_call]. unfold sync_body, mbind, JM_bind, get.
  by rewrite ri_dirty0.
Qed.

(** ** Appending a record *)

Lemma fits_snoc R r :
  rec_ok r -> fits (R ++ [r]) <-> 16 + Z.of_nat (length (frames R)) + (16 + Z.of_nat (length r.2)) <= 4096.
Proof using.
  clear. intros Hr. unfold fits. rewrite frames_snoc, length_app, length_frame by done. lia.
Qed.

Lemma ring_mem_append j ic a Bs Fs R r :
  ring_mem j ic a Bs Fs R -> log_rec r -> fits (R ++ [r]) ->
  ring_mem (append_cur r.1 r.2 (16 + Z.of_nat (length r.2)) j) ic a Bs Fs (R ++ [r]).
Proof using.
  clear HN HJS HE. intros [] Hr Hf. pose proof (proj1 (fits_snoc R r (proj1 Hr)) Hf) as Hs.
  split; try done; cbn.
  - rewrite ri_cur0, ri_off0. replace (Z.to_nat (16 + Z.of_nat (length (frames R))))
      with (16 + length (frames R))%nat by lia.
    apply append_record_image; auto using log_rec_ok. apply Hr.
  - apply Forall_app. auto.
  - rewrite frames_snoc, length_app, length_frame by apply Hr.
    rewrite u64_small by (unfold is_u64; lia). lia.
  - by destruct R.
Qed.

(** The state after a record is written: it fits the current block, or the
    block is flushed first, or the flush fills the ring, which retires the
    whole log. *)
Definition after_write a (Bs Fs : list (list jrec)) (R : list jrec) (r : jrec)
    : Z * list (list jrec) * list (list jrec) * list jrec :=
  if decide (fits (R ++ [r])) then (a, Bs, Fs, R ++ [r])
  else if decide (Z.of_nat (length Bs) + Z.of_nat (length Fs) + 1 < N - 1) then (a, Bs, Fs ++ [R], [r])
  else (a + (N - 1), [], [], [r]).

Definition since_write n (Bs Fs : list (list jrec)) (R : list jrec) (r : jrec) : Z :=
  if decide (fits (R ++ [r])) then n + 1
  else if decide (Z.of_nat (length Bs) + Z.of_nat (length Fs) + 1 < N - 1) then n + 1 else 0 + 1.

Lemma u32_succ_bound c n : 0 <= n -> c <= n /\ (0 <= c \/ 2 ^ 32 <= n) ->
  u32 (c + 1) <= n + 1 /\ (0 <= u32 (c + 1) \/ 2 ^ 32 <= n + 1).
Proof using.
  clear. intros Hn [Hc Ho]. unfold u32. pose proof (Z.mod_pos_bound (c + 1) (2 ^ 32) ltac:(lia)). split; [|lia].
  destruct Ho; [|lia]. pose proof (Z.mod_le (c + 1) (2 ^ 32)). lia.
Qed.

Lemma triple_append ic a Bs Fs R r n :
  log_rec r -> fits (R ++ [r]) -> 0 <= n ->
  triple Φ d0 (fun w => Inv w ic a Bs Fs R /\ since n w) (modify (append_cur r.1 r.2 (16 + Z.of_nat (length r.2))))
    (fun _ w => Inv w ic a Bs Fs (R ++ [r]) /\ since (n + 1) w).
Proof using.
  intros Hr Hf Hn. apply triple_modify. intros w [[(Hm & Hl) Ha] Hs]. split.
  - split; [|exact Ha]. split; [|exact Hl]. by apply ring_mem_append.
  - unfold since in *. cbn [w_j append_cur set_since set_cur j_recordsSinceCheckpoint]. by apply u32_succ_bound.
Qed.

Lemma write_flush_triple a Bs Fs R n :
  Z.of_nat (length Bs) + Z.of_nat (length Fs) < N - 1 -> 0 <= n ->
  triple Φ d0 (fun w => (Inv w false a Bs Fs R /\
      (Z.of_nat (length Bs) + Z.of_nat (length Fs) + 1 < N - 1 \/ allowed Φ (w_trace w) (a + (N - 1)) [])) /\ since n w)
    (_ ← flush_cur;
     j ← get;
     if j_writePos j =? sb_JournalLogStart (j_sb j) then
       _ ← checkpointLocked true;
       j ← get;
       if nextBlock j (j_writePos j) =? sb_JournalLogStart (j_sb j)
       then throw (ErrRingExhausted (u64 (j_journalEnd j - j_journalStart j)))
       else mret tt
     else mret tt)
    (fun _ w => if decide (Z.of_nat (length Bs) + Z.of_nat (length Fs) + 1 < N - 1)
                then Inv w false a Bs (Fs ++ [R]) [] /\ since n w else Inv w false (a + (N - 1)) [] [] [] /\ since 0 w).
Proof using HN HJS HE HS.
  intros Hlen Hn. pose proof (allowed_grows (a + (N - 1)) []) as Hg.
  assert (Hg' : grows (fun tr => Z.of_nat (length Bs) + Z.of_nat (length Fs) + 1 < N - 1 \/
    allowed Φ tr (a + (N - 1)) [])) by (intros tr tr' Htr [Hx|Hx]; [by left|right; by eapply Hg]).
  assert (El : a + Z.of_nat (length Bs) + Z.of_nat (length (Fs ++ [R]))
    = a + (Z.of_nat (length Bs) + Z.of_nat (length Fs) + 1)) by (rewrite length_app; simpl; lia).
  eapply triple_bind; [apply triple_sat; [apply (triple_frame _ _ _ (fun _ w => Inv w false a Bs (Fs ++ [R]) []) Hg');
    by apply flush_cur_triple|by apply (flush_cur_sat (since n)); auto with stable]|intros []].
  eapply triple_bind; [apply triple_get|intros j]. apply triple_at. intros w [-> [[Hi Ha] [Hs Hcl]]].
  pose proof Hi as [(Hm & _) _]. destruct Hm. rewrite ri_pos0, ri_start0, El.
  destruct (decide (Z.of_nat (length Bs) + Z.of_nat (length Fs) + 1 < N - 1)) as [Hroom|Hfull].
  - rewrite (proj2 (Z.eqb_neq _ _)) by (intros E'; apply pos_inj in E'; unfold U; lia).
    apply triple_ret. intros ? ->. by split.
  - destruct Ha as [Ha|Ha]; [lia|].
    replace (Z.of_nat (length Bs) + Z.of_nat (length Fs) + 1) with (N - 1) in * by lia.
    rewrite pos_period, Z.eqb_refl. unfold checkpointLocked.
    eapply triple_bind; [eapply triple_conseq; [apply triple_sat;
      [apply (checkpoint_clean_triple 2 true false a Bs (Fs ++ [R]) []); by right|apply (checkpoint_sat _ 2 true stable_true)]| |]|intros []].
    { intros ? ->. rewrite El. exact (conj (conj Hi Ha) (conj I Hcl)). }
    { intros ? w' Hx. rewrite El in Hx. exact Hx. }
    eapply triple_bind; [apply triple_get|intros j']. apply triple_at. intros w' [-> [Hi' [_ Hs']]].
    pose proof Hi' as [([] & _) _]. destruct ri_ring1 as (E1 & E2 & _). unfold nextBlock.
    rewrite ri_pos1, ri_start1, E1, E2. replace (JS + N - JS) with N by lia.
    rewrite u64_small by (unfold is_u64; lia). simpl Z.of_nat. rewrite !Z.add_0_r, NextRingBlock_pos.
    rewrite (proj2 (Z.eqb_neq _ _)) by lia. apply triple_ret. by intros ? ->.
Qed.

Lemma WriteRecord_triple a Bs Fs R r n :
  Z.of_nat (length Bs) + Z.of_nat (length Fs) < N - 1 -> log_rec r -> fits [r] -> 0 <= n ->
  triple Φ d0 (fun w => (Inv w false a Bs Fs R /\
      (fits (R ++ [r]) \/ Z.of_nat (length Bs) + Z.of_nat (length Fs) + 1 < N - 1 \/
       allowed Φ (w_trace w) (a + (N - 1)) [])) /\ since n w)
    (WriteRecord r.1 r.2)
    (fun _ w => let '(a', Bs', Fs', R') := after_write a Bs Fs R r in Inv w false a' Bs' Fs' R' /\ since (since_write n Bs Fs R r) w).
Proof using HN HJS HE HS.
  intros Hlen Hr Hf1 Hn. pose proof Hr as (Hok & Ht & _). pose proof Hok as (_ & _ & Hne & _).
  pose proof (proj1 (fits_snoc [] r Hok) Hf1) as Hs1. simpl in Hs1.
  unfold WriteRecord. eapply triple_bind; [apply triple_get|intros j].
  apply triple_at. intros w [-> [[Hi Ha] Hs]]. pose proof Hi as [(Hm & _) _]. destruct Hm.
  rewrite ri_ir0. unfold writeRecordLocked. unfold JRN_NONE, JRN_END in *.
  destruct (Z.leb_spec r.1 0); [lia|]. destruct (Z.leb_spec 13 r.1); [lia|]. cbn [orb].
  rewrite decide_False by done. cbv zeta.
  rewrite (u32_small (Z.of_nat (length r.2))), (u32_small (16 + _)) by (unfold is_u32; lia).
  eapply triple_bind; [apply triple_get|intros j]. apply triple_at. intros ? [-> ->].
  pose proof (fits_snoc R r Hok) as Hfs. rewrite ri_off0. unfold fits in ri_fits0.
  rewrite u64_small by (unfold is_u64; lia). unfold after_write, since_write.
  destruct (decide (fits (R ++ [r]))) as [Hfit|Hfit].
  - pose proof (proj1 Hfs Hfit).
    destruct (Z.ltb_spec 4096 (16 + Z.of_nat (length (frames R)) + (16 + Z.of_nat (length r.2)))); [lia|].
    apply (triple_bind _ _ (fun _ w' => w' = w)); [by apply triple_ret|intros []].
    eapply triple_conseq; [by apply (triple_append false a Bs Fs R r n)|by intros ? ->|].
    intros ? w' Hx. exact Hx.
  - destruct (Z.ltb_spec 4096 (16 + Z.of_nat (length (frames R)) + (16 + Z.of_nat (length r.2))));
      [|by destruct Hfit; apply Hfs].
    eapply triple_bind; [eapply triple_conseq; [by apply (write_flush_triple a Bs Fs R n)| |]|intros []].
    { intros ? ->. split; [|exact Hs]. split; [exact Hi|]. by destruct Ha as [Ha|Ha]. }
    { intros ? w' Hx. exact Hx. }
    cbn beta. case_decide; [by apply (triple_append _ _ _ _ [] r n)|by apply (triple_append _ _ _ _ [] r 0)].
Qed.

Lemma Checkpoint_triple a Bs Fs R n tr0 :
  Z.of_nat (length Bs) + Z.of_nat (length Fs) < N - 1 -> (R = [] -> Fs = []) -> 0 <= n ->
  triple Φ d0 (fun w => (Inv w false a Bs Fs R /\
      (if decide (R = []) then allowed Φ (w_trace w) (a + Z.of_nat (length Bs)) []
       else allowed Φ (w_trace w) (next_start a Bs (Fs ++ [R])) (next_log Bs (Fs ++ [R])))) /\ (since n w /\ after tr0 w))
    Checkpoint_ (fun _ w => (exists a', Inv w false a' [] [] []) /\ since 0 w /\ after tr0 w /\ (R <> [] -> after_meta tr0 w)).
Proof using HN HJS HE HS Hretire.
  intros Hlen HF Hn. unfold Checkpoint_, checkpointLocked.
  destruct (decide (R = [])) as [->|HR].
  - rewrite HF by done.
    eapply triple_conseq; [apply triple_sat; [apply (checkpoint_clean_triple 2 true false a Bs [] []); by right|
      apply (checkpoint_sat (after tr0) 2 true); auto with stable]| |].
    + intros w [[Hi Ha] [_ Ht]]. simpl Z.of_nat. rewrite Z.add_0_r. split; [done|]. split; [done|by eapply Inv_clean].
    + intros _ w [Hx [[Ht _] Hs]]. split; [by eexists|]. by split_and!.
  - change (journal_call 3 (CallCheckpoint true)) with (checkpoint_body (journal_call 2) true).
    unfold checkpoint_body. eapply triple_bind; [apply triple_get|intros j].
    apply triple_at. intros w [-> [[Hi Ha] HKw]]. replace (true && j_dirty (w_j w)) with true
      by (destruct Hi as [([] & _) _]; rewrite ri_dirty0; by destruct R).
    eapply triple_bind; [eapply triple_conseq; [by apply (sync_dirty_triple 0 true a Bs Fs R n tr0)|by intros ? ->|intros ? w' Hx; exact Hx]|intros []].
    apply triple_at. intros w1 [(a1 & Bs1 & Hi1 & _) He].
    eapply triple_conseq; [apply triple_sat; [apply (checkpoint_retire_triple false a1 Bs1 [] [])|apply (checkpoint_retire_sat (after_meta tr0)); auto with stable]| |].
    + intros ? ->. split; [|done]. split; [exact Hi1|]. apply Hretire. by apply (after_meta_trace tr0).
    + intros _ w' [Hx [Hy Hz]]. split; [by eexists|]. split; [done|]. split; [|done]. destruct Hy as (tr & Ht & _). exists tr. exact Ht.
Qed.

End logic.

(** ** The contract

    [holds w C P]: the journal is at rest, with the records [C] committed and
    the records [P] pending. *)
Definition holds (w : world E) (C P : list jrec) : Prop :=
  exists a Bs Fs R, ring_inv w false a Bs Fs R /\
    Z.of_nat (length Bs) + Z.of_nat (length Fs) < N - 1 /\ (R = [] -> Fs = []) /\
    C = concat Bs /\ P = concat Fs ++ R.

Lemma holds_replayed w C P : holds w C P -> replayed (w_disk w) = Some C.
Proof using HN HJS HE.
  intros (a & Bs & Fs & R & (_ & Hl & _) & _ & _ & -> & _). by apply replayed_log with a.
Qed.

(** Starting a triple from a state at rest with an empty trace. *)
Lemma triple_run {A} Φ (Pre : world E -> Prop) (m : JM (E := E) A) Post w :
  triple Φ (w_disk w) Pre m Post -> Pre w -> w_trace w = [] -> Φ (w_disk w) [] ->
  (forall tr, tr `prefix_of` w_trace (m w).1 -> Φ (apply_events (w_disk w) tr) tr) /\
  match (m w).2 with Ret x => Post x (m w).1 | Err e => e <> ErrOutOfFuel | Panic => False end.
Proof using.
  clear. intros Hm Hw Ht Hd. destruct (Hm w Hw) as ([_ Hh] & _ & Hp); [|done].
  split; rewrite Ht; [done|]. intros tr Htr. by apply prefix_nil_inv in Htr as ->.
Qed.

End runtime_proofs.
End ring.
