(* ===== verification/JournalCrash.v ===== *)
(** * What the journal guarantees

    The theorems about the runtime of [Journal]: a sync is atomic at every
    crash point as long as it leaves room in the ring, a record that is only
    written never disturbs the committed log, every sequence of operations
    implements an abstract log that says when records are committed, retired or
    lost, the mutual recursion of sync and checkpoint terminates, and a sync
    that brings the write position back to the start of the log makes the
    committed log read as empty before its metadata is flushed. *)

From stdpp Require Import base numbers list option gmap.
From Stdlib Require Import ZArith Lia.
From S2P Require Import Prelude Codec JournalRecord JournalBlock Superblock Journal JournalRun JournalRing.

Local Open Scope Z_scope.

Definition ring_geometry (JS N : Z) : Prop := 4 <= N <= 65536 /\ 0 < JS /\ JS + N < 2 ^ 52.

(** A volume as mkfs leaves it, or after a clean unmount: the superblock's log
    is empty and starts at a usable block, and the checkpoint block is there. *)
Definition formatted (JS N : Z) (d : disk) (sb : SuperblockLayout) : Prop :=
  d !! 0 = Some (superblock_block sb) /\ sb_ok JS N sb /\ disk_ckpt JS N d /\
  JS <= sb_JournalLogStart sb < JS + N - 1 /\ sb_JournalLogEnd sb = sb_JournalLogStart sb.

(** ** The contract of the journal *)

Inductive jop :=
| OpWrite (r : jrec)
| OpSync (checkpoint : bool)
| OpCheckpoint
| OpClose.

Definition run_op {E} `{JournalHooks E} (o : jop) : JM (E := E) unit :=
  match o with
  | OpWrite r => WriteRecord r.1 r.2
  | OpSync checkpoint => Sync checkpoint
  | OpCheckpoint => Checkpoint_
  | OpClose => Close
  end.

Fixpoint run_ops {E} `{JournalHooks E} (ops : list jop) : JM (E := E) unit :=
  match ops with
  | [] => mret tt
  | o :: ops => _ ← run_op o; run_ops ops
  end.

(** The abstract journal: the blocks of committed records, the blocks that are
    written but not committed, the current block, the number of records since
    the last checkpoint, the records that were retired, whose metadata the bridge
    has flushed by the end of that operation, and those dropped before they were
    committed. *)
Record alog := mkLog {
  al_blocks : list (list jrec);
  al_full : list (list jrec);
  al_cur : list jrec;
  al_since : Z;
  al_retired : list jrec;
  al_lost : list jrec;
}.

Definition al_committed (s : alog) : list jrec := concat (al_blocks s).
Definition al_pending (s : alog) : list jrec := concat (al_full s) ++ al_cur s.
Definition al_start : alog := mkLog [] [] [] 0 [] [].

(** The blocks that the log and the pending records take once the current block
    is written. *)
Definition al_used (s : alog) : Z := Z.of_nat (length (al_blocks s)) + Z.of_nat (length (al_full s)) + 1.

Definition syncs (o : jop) (checkpoint : bool) : Prop :=
  o = OpSync checkpoint \/ (o = OpClose /\ checkpoint = false).

(** The steps, on a ring of [N] blocks of which [N - 1] hold records; [tr] is what
    the operation did.
    - A record goes to the current block if it fits, and else to a new one.  When
      the ring has no block left for it, the committed records are retired, and
      the pending ones are lost.
    - A sync with nothing pending does nothing.  Otherwise it commits all that is
      pending when the ring has room, and the metadata is flushed by the time it
      returns.  It retires the log at once when a periodic checkpoint was asked
      for and is due, or when at most one block of the ring would be left.  When
      none is left the log reads as empty even without a checkpoint.
    - A checkpoint retires everything; the metadata of what was pending is flushed
      by the time it returns. *)
Inductive log_step {E} `{JournalHooks E} (N : Z) : jop -> list event -> alog -> alog -> Prop :=
| step_fits r tr s : fits (al_cur s ++ [r]) ->
    log_step N (OpWrite r) tr s
      (mkLog (al_blocks s) (al_full s) (al_cur s ++ [r]) (al_since s + 1) (al_retired s) (al_lost s))
| step_next r tr s : ~ fits (al_cur s ++ [r]) -> al_used s < N - 1 ->
    log_step N (OpWrite r) tr s
      (mkLog (al_blocks s) (al_full s ++ [al_cur s]) [r] (al_since s + 1) (al_retired s) (al_lost s))
| step_full r tr s : ~ fits (al_cur s ++ [r]) -> N - 1 <= al_used s ->
    log_step N (OpWrite r) tr s
      (mkLog [] [] [r] 1 (al_retired s ++ al_committed s) (al_lost s ++ al_pending s))
| step_idle o cp tr s : syncs o cp -> al_pending s = [] -> log_step N o tr s s
| step_commit o cp tr s : syncs o cp -> al_pending s <> [] -> al_used s < N - 1 -> flushed tr ->
    log_step N o tr s
      (mkLog (al_blocks s ++ al_full s ++ [al_cur s]) [] [] (al_since s) (al_retired s) (al_lost s))
| step_retire o cp tr s : syncs o cp -> al_pending s <> [] ->
    (cp = true /\ JrnCheckpointInterval <= al_since s) \/ N - 2 <= al_used s -> flushed tr ->
    log_step N o tr s
      (mkLog [] [] [] 0 (al_retired s ++ al_committed s ++ al_pending s) (al_lost s))
| step_wrap o cp tr s : syncs o cp -> al_pending s <> [] -> N - 1 <= al_used s -> flushed tr ->
    log_step N o tr s
      (mkLog [] [] [] (al_since s) (al_retired s ++ al_committed s ++ al_pending s) (al_lost s))
| step_checkpoint tr s : (al_pending s <> [] -> flushed tr) ->
    log_step N OpCheckpoint tr s
      (mkLog [] [] [] 0 (al_retired s ++ al_committed s ++ al_pending s) (al_lost s)).

(** A sequence of operations, each with its own events. *)
Inductive log_steps {E} `{JournalHooks E} (N : Z) : list jop -> list (list event) -> alog -> alog -> Prop :=
| steps_nil s : log_steps N [] [] s s
| steps_cons o ops tr trs s s' s'' : log_step N o tr s s' -> log_steps N ops trs s' s'' ->
    log_steps N (o :: ops) (tr :: trs) s s''.

Definition op_records (o : jop) : list jrec := match o with OpWrite r => [r] | _ => [] end.

Definition op_ok (o : jop) : Prop :=
  match o with OpWrite r => log_rec r /\ fits [r] | _ => True end.

(** ** Lemmas *)

(** The crash condition that asks nothing. *)
Definition anything : disk -> list event -> Prop := fun _ _ => True.

Section guarantees.
Context {E : Type} `{JournalHooks E} (JS N : Z) (HG : ring_geometry JS N).
Context (HS : HooksSafe JS N (E := E)).
Implicit Types w : world E.

Lemma NewJournal_inv d sb (env : E) :
  formatted JS N d sb ->
  exists j a, NewJournal sb = Ret j /\ ring_inv JS N (mkWorld j d env []) false a [] [] [] /\
    j_recordsSinceCheckpoint j = 0.
Proof using HG.
  clear HS. destruct HG as (HN & HJS & HE). intros (Ed & Hsb & Hc & Hls & Hle).
  assert (Ep : sb_JournalLogStart sb = pos JS N (sb_JournalLogStart sb - JS))
    by (unfold pos; rewrite Z.mod_small by lia; lia).
  set (a := sb_JournalLogStart sb - JS) in *. pose proof Hsb as (_ & Ho & Hb).
  unfold NewJournal, validate. cbv zeta. cbn [j_journalEnd j_journalStart].
  rewrite Ho, Hb, (u64_small (JS + N)) by (unfold is_u64; lia).
  destruct (Z.leb_spec (JS + N) JS); [lia|].
  rewrite (u64_small (JS + N - JS)) by (unfold is_u64; lia).
  unfold JournalMinBlocks, JournalMaxBlocks.
  destruct (Z.ltb_spec (JS + N - JS) 4); [lia|]. destruct (Z.ltb_spec 65536 (JS + N - JS)); [lia|].
  cbn [mbind res_bind]. eexists _, a. split; [reflexivity|]. split; [|done].
  assert (Hz : is_u32 0) by (unfold is_u32; lia).
  split; [|split].
  - split; try done; cbn -[init_block block_image]; rewrite ?Z.add_0_r; try done; try lia.
    + unfold ring_journal. cbn. rewrite u64_small by (unfold is_u64; lia). done.
    + apply fits_nil.
  - split; [|split; [done|split; [|simpl; lia]]].
    + exists sb. simpl Z.of_nat. rewrite Z.add_0_r. split_and!; try done. congruence.
    + intros k B Hk. by rewrite lookup_nil in Hk.
  - intros k B Hk. by rewrite lookup_nil in Hk.
Qed.

(** The next position is the start of the log exactly when one block is left. *)
Lemma advance_room w a Bs Fs R :
  ring_inv JS N w false a Bs Fs R -> Z.of_nat (length Bs) + Z.of_nat (length Fs) < N - 1 ->
  j_writePos (advance (w_j w)) <> sb_JournalLogStart (j_sb (w_j w)) <->
  Z.of_nat (length Bs) + Z.of_nat (length Fs) + 1 < N - 1.
Proof using HG.
  clear HS. destruct HG as (HN & HJS & HE). intros (Hm & _) Hlen.
  destruct Hm as [Hring _ Hstart _ Hpos _ _ _ _ _ _ _ _ _].
  destruct (advance_spec JS N HN HJS HE (w_j w) _ Hring Hpos) as [n ->]. cbn. rewrite Hstart.
  split.
  - intros Hne. destruct (Z.lt_trichotomy (Z.of_nat (length Bs) + Z.of_nat (length Fs) + 1) (N - 1))
      as [Hx|[Hx|Hx]]; [done| |lia]. destruct Hne.
    replace (a + Z.of_nat (length Bs) + Z.of_nat (length Fs) + 1) with (a + (N - 1)) by lia.
    by apply pos_period.
  - intros Hx E'. apply pos_inj in E'; [lia|done|lia].
Qed.

Lemma next_log_concat Bs Fs R :
  concat (next_log N Bs (Fs ++ [R])) = concat Bs ++ concat Fs ++ R \/
  next_log N Bs (Fs ++ [R]) = [] /\ N - 1 <= Z.of_nat (length Bs) + Z.of_nat (length Fs) + 1.
Proof using.
  clear. unfold next_log. rewrite length_app, Nat2Z.inj_add. case_decide as Hd.
  - left. rewrite !concat_app. simpl. by rewrite app_nil_r.
  - right. simpl in Hd. split; [done|lia].
Qed.

Lemma holds_intro w a Bs :
  ring_inv JS N w false a Bs [] [] -> holds JS N w (concat Bs) [].
Proof using.
  clear HG. intros Hi. exists a, Bs, [], []. split; [done|]. split; [|done].
  destruct Hi as (_ & (_ & _ & _ & Hl) & _). simpl. lia.
Qed.

Lemma NewJournal_holds d sb (env : E) :
  formatted JS N d sb ->
  exists j, NewJournal sb = Ret j /\ holds JS N (mkWorld j d env []) [] [].
Proof using HG.
  clear HS. intros Hf. destruct (NewJournal_inv d sb env Hf) as (j & a & Hj & Hi & _).
  exists j. split; [done|]. by apply (holds_intro _ a []).
Qed.

(** A sync, for a crash condition that allows the log before it, the log after
    it, and the empty log once the metadata is flushed. *)
Lemma Sync_spec (Φ : disk -> list event -> Prop) d0 cp a Bs Fs R :
  Z.of_nat (length Bs) + Z.of_nat (length Fs) < N - 1 -> (R = [] -> Fs = []) ->
  (forall tr x, (is_Some metaSyncer -> EvMeta ∈ tr) -> allowed JS N Φ tr x []) ->
  triple Φ d0 (fun w => Inv JS N Φ w false a Bs Fs R /\
      (R <> [] -> allowed JS N Φ (w_trace w) (next_start N a Bs (Fs ++ [R])) (next_log N Bs (Fs ++ [R]))))
    (Sync cp)
    (fun _ w => holds JS N w (concat Bs ++ concat Fs ++ R) [] \/
      holds JS N w [] [] /\ (is_Some metaSyncer -> EvMeta ∈ w_trace w)).
Proof using HG HS.
  destruct HG as (HN & HJS & HE). intros Hlen HF Hret. unfold Sync, syncLocked.
  destruct (decide (R = [])) as [->|HR].
  - apply triple_at. intros w [Hi _] ? -> Hh. erewrite sync_clean by apply Hi.
    split_and!; try done. left. rewrite HF in * by done. rewrite !app_nil_r.
    apply holds_intro with a. apply Hi.
  - apply triple_at. intros w [Hi Ha]. destruct (since_any w) as (n & Hn & Hs).
    eapply triple_conseq; [by apply (sync_dirty_triple JS N HN HJS HE Φ d0 HS Hret 1 cp a Bs Fs R n [])| |].
    + intros ? ->. split; [auto|]. split; [exact Hs|apply prefix_nil].
    + intros ? w' [(a' & Bs' & Hi' & Hor) Hm]. pose proof (after_meta_trace [] w' Hm) as He.
      assert (Hnil : Bs' = [] -> holds JS N w' [] [] /\ (is_Some metaSyncer -> EvMeta ∈ w_trace w'))
        by (intros ->; split; [eapply (holds_intro _ _ []), Hi'|exact He]).
      destruct Hor as [(-> & -> & _)|(-> & _)]; [|auto].
      destruct (next_log_concat Bs Fs R) as [<-|[En _]]; [|auto]. left. eapply holds_intro. apply Hi'.
Qed.

Lemma Inv_intro Φ w a Bs Fs R :
  ring_inv JS N w false a Bs Fs R -> (forall tr d, disk_log JS N d a Bs -> Φ d tr) ->
  Inv JS N Φ w false a Bs Fs R.
Proof using. clear. intros Hi Ha. split; [done|]. intros tr d _. apply Ha. Qed.

Lemma holds_after_write w a Bs Fs R r :
  let '(a', Bs', Fs', R') := after_write N a Bs Fs R r in
  ring_inv JS N w false a' Bs' Fs' R' ->
  Z.of_nat (length Bs) + Z.of_nat (length Fs) < N - 1 -> (R = [] -> Fs = []) ->
  if decide (fits (R ++ [r]) \/ Z.of_nat (length Bs) + Z.of_nat (length Fs) + 1 < N - 1)
  then holds JS N w (concat Bs) ((concat Fs ++ R) ++ [r]) else holds JS N w [] [r].
Proof using HG.
  clear HS. destruct HG as (HN & _). unfold after_write.
  destruct (decide (fits (R ++ [r]))) as [Hf|Hf];
    [|destruct (decide (Z.of_nat (length Bs) + Z.of_nat (length Fs) + 1 < N - 1)) as [Hd|Hd]];
    intros Hi Hlen HF.
  - rewrite decide_True by auto. exists a, Bs, Fs, (R ++ [r]). split_and!; try done.
    + by destruct R.
    + by rewrite <- app_assoc.
  - rewrite decide_True by auto. exists a, Bs, (Fs ++ [R]), [r]. split_and!; try done.
    + rewrite length_app. simpl. lia.
    + rewrite concat_app. simpl. by rewrite app_nil_r.
  - rewrite decide_False by tauto. exists (a + (N - 1)), [], [], [r]. split_and!; try done. simpl. lia.
Qed.

(** ** The abstract journal *)

(** The runtime is at rest in the abstract state [s]. *)
Definition holds_log (w : world E) (s : alog) : Prop :=
  exists a, ring_inv JS N w false a (al_blocks s) (al_full s) (al_cur s) /\
    Z.of_nat (length (al_blocks s)) + Z.of_nat (length (al_full s)) < N - 1 /\
    (al_cur s = [] -> al_full s = []) /\ 0 <= al_since s /\ since (al_since s) w.

Lemma holds_log_holds w s : holds_log w s -> holds JS N w (al_committed s) (al_pending s).
Proof using. clear. intros (a & Hi & Hl & HF & _). exists a, (al_blocks s), (al_full s), (al_cur s). by split_and!. Qed.

Lemma NewJournal_holds_log d sb (env : E) j :
  formatted JS N d sb -> NewJournal sb = Ret j -> holds_log (mkWorld j d env []) al_start.
Proof using HG.
  clear HS. destruct HG as (HN & _). intros Hf Hj. destruct (NewJournal_inv d sb env Hf) as (j' & a & Hj' & Hi & Hc).
  rewrite Hj in Hj'. injection Hj' as <-. exists a. cbn. unfold since. cbn. split_and!; done || lia.
Qed.

Lemma holds_log_pending w s : holds_log w s -> al_pending s = [] <-> al_cur s = [].
Proof using.
  clear. intros (a & _ & _ & HF & _). unfold al_pending. split; [by intros [_ ?]%app_nil|].
  intros Hc. by rewrite (HF Hc), Hc.
Qed.

(** The end of an operation [o] that started in [s] after the events [tr0]. *)
Definition Stepped (o : jop) (s : alog) (tr0 : list event) (w : world E) : Prop :=
  exists tr s', w_trace w = tr0 ++ tr /\ log_step N o tr s s' /\ holds_log w s'.

Lemma after_refl w : after (w_trace w) w.
Proof using. clear. unfold after. reflexivity. Qed.

Lemma Sync_idle o cp s w : syncs o cp -> al_cur s = [] -> holds_log w s -> Stepped o s (w_trace w) w.
Proof using.
  clear. intros Ho Hc Hw. exists [], s. rewrite app_nil_r. split; [done|]. split; [|done].
  apply step_idle with cp; [done|]. by apply (holds_log_pending w).
Qed.

Lemma Synced_step w o cp a s tr0 : syncs o cp -> al_pending s <> [] -> 0 <= al_since s ->
  Z.of_nat (length (al_blocks s)) + Z.of_nat (length (al_full s)) < N - 1 ->
  Synced JS N anything w (al_since s) cp a (al_blocks s) (al_full s) (al_cur s) ->
  after_meta tr0 w -> Stepped o s tr0 w.
Proof using HG.
  clear HS. destruct HG as (HN & HJS & HE). intros Ho Hp Hn Hlen (a' & Bs' & [Hi _] & Hor) (tr & Ht & Hf).
  exists tr. assert (Hl : Z.of_nat (length Bs') < N - 1) by (destruct Hi as (_ & (_ & _ & _ & ?) & _); done).
  destruct Hor as [(_ & -> & Hs)|(-> & Hs & Hr)].
  - unfold next_log in *. rewrite length_app in *. simpl in *. case_decide as Hd; rewrite ?length_app in Hl.
    + eexists. split; [done|]. split; [apply step_commit with cp; try done; unfold al_used; lia|].
      exists a'. cbn. split_and!; try done. rewrite !length_app. simpl. lia.
    + eexists. split; [done|]. split; [apply step_wrap with cp; try done; unfold al_used; lia|].
      exists a'. cbn. by split_and!.
  - eexists. split; [done|]. split; [apply step_retire with cp; done|]. exists a'. cbn. by split_and!.
Qed.

Lemma Sync_step d0 cp o s tr0 :
  syncs o cp ->
  triple anything d0 (fun w => holds_log w s /\ w_trace w = tr0) (Sync cp) (fun _ w => Stepped o s tr0 w).
Proof using HG HS.
  pose proof HG as (HN & HJS & HE). intros Ho. apply triple_at. intros w [Hw <-].
  pose proof Hw as (a & Hi & Hlen & HF & Hn & Hs). unfold Sync, syncLocked.
  destruct (decide (al_cur s = [])) as [Hc|Hc].
  - intros ? -> Hh. erewrite sync_clean by (rewrite Hc in Hi; apply Hi). split_and!; try done.
    by apply Sync_idle with cp.
  - eapply triple_conseq; [by apply (sync_dirty_triple JS N HN HJS HE anything d0 HS ltac:(done) 1 cp a
      (al_blocks s) (al_full s) (al_cur s) (al_since s) (w_trace w))| |].
    + intros ? ->. split; [split; [by apply Inv_intro|done]|]. by split; [|apply after_refl].
    + intros _ w' [Hsy Hm]. apply (Synced_step w' o cp a); try done. by rewrite (holds_log_pending w).
Qed.

(** A record that is written. *)
Lemma after_write_step w s a r tr0 :
  let '(a', Bs', Fs', R') := after_write N a (al_blocks s) (al_full s) (al_cur s) r in
  ring_inv JS N w false a' Bs' Fs' R' ->
  since (since_write N (al_since s) (al_blocks s) (al_full s) (al_cur s) r) w ->
  Z.of_nat (length (al_blocks s)) + Z.of_nat (length (al_full s)) < N - 1 -> (al_cur s = [] -> al_full s = []) ->
  0 <= al_since s -> after tr0 w -> Stepped (OpWrite r) s tr0 w.
Proof using HG.
  clear HS. destruct HG as (HN & _). unfold after_write, since_write.
  destruct (decide (fits (al_cur s ++ [r]))) as [Hf|Hf];
    [|destruct (decide (Z.of_nat (length (al_blocks s)) + Z.of_nat (length (al_full s)) + 1 < N - 1)) as [Hd|Hd]];
    intros Hi Hs Hlen HF Hn [tr Ht]; exists tr; eexists; (split; [exact Ht|]).
  - split; [by apply step_fits|]. exists a. cbn. split_and!; try done; [by destruct (al_cur s)|lia].
  - split; [by apply step_next|]. exists a. cbn. split_and!; try done; [rewrite length_app; simpl; lia|lia].
  - split; [apply step_full; [done|unfold al_used; lia]|]. exists (a + (N - 1)). cbn. split_and!; try done; lia.
Qed.

Lemma after_grows tr0 : grows (fun tr => tr0 `prefix_of` tr).
Proof using. clear. intros tr tr' Htr Hx. by transitivity tr. Qed.

(** Every operation is a step of the abstract journal. *)
Lemma op_step d0 o s tr0 :
  op_ok o ->
  triple anything d0 (fun w => holds_log w s /\ w_trace w = tr0) (run_op o) (fun _ w => Stepped o s tr0 w).
Proof using HG HS.
  pose proof HG as (HN & HJS & HE). destruct o as [r|cp| |]; intros Hok; cbn [run_op].
  - destruct Hok as [Hr Hf]. apply triple_at. intros w [(a & Hi & Hlen & HF & Hn & Hs) <-].
    eapply triple_conseq; [eapply (triple_frame _ _ _ _ _ _ (after_grows (w_trace w)));
      by apply (WriteRecord_triple JS N HN HJS HE anything d0 HS a (al_blocks s) (al_full s) (al_cur s) r (al_since s))| |].
    + intros ? ->. split; [|done]. split; [|exact Hs]. split; [by apply Inv_intro|]. right. right. done.
    + intros ? w' [Hw Ht]. pose proof (after_write_step w' s a r (w_trace w)) as Hst.
      destruct (after_write N a _ _ _ r) as [[[a' Bs'] Fs'] R']. destruct Hw as [[Hi' _] Hs']. by apply Hst.
  - apply Sync_step. by left.
  - apply triple_at. intros w [Hw <-]. pose proof Hw as (a & Hi & Hlen & HF & Hn & Hs).
    eapply triple_conseq; [apply (Checkpoint_triple JS N HN HJS HE anything d0 HS ltac:(done) a
      (al_blocks s) (al_full s) (al_cur s) (al_since s) (w_trace w));
      [exact Hlen|exact HF|exact Hn]| |].
    + intros ? ->. split; [|by split; [|apply after_refl]]. split; [by apply Inv_intro|]. by case_decide.
    + intros ? w' ([a' [Hi' _]] & Hs' & [tr Ht] & Hm). exists tr. eexists. split; [exact Ht|].
      split; [apply step_checkpoint|exists a'; cbn; split_and!; done || lia].
      rewrite (holds_log_pending w s Hw). intros Hc. destruct (Hm Hc) as (tr' & Ht' & Hf).
      rewrite Ht in Ht'. by apply app_inv_head in Ht' as ->.
  - unfold Close. eapply triple_bind; [apply triple_get|intros j].
    apply triple_at. intros w [-> [Hw Ht]]. destruct (j_dirty (w_j w)) eqn:Ed.
    + eapply triple_conseq; [apply (Sync_step d0 false OpClose s tr0); by right|by intros ? ->|done].
    + apply triple_ret. intros ? ->. rewrite <- Ht. apply Sync_idle with false; [by right| |done].
      destruct Hw as (a & Hi & _). destruct (al_cur s); [done|by destruct Hi as ([] & _); congruence].
Qed.

(** The end of a sequence of operations. *)
Definition Ran (ops : list jop) (s : alog) (tr0 : list event) (w : world E) : Prop :=
  exists trs s', w_trace w = tr0 ++ concat trs /\ log_steps N ops trs s s' /\ holds_log w s'.

Lemma run_ops_steps d0 ops : forall s tr0,
  Forall op_ok ops ->
  triple anything d0 (fun w => holds_log w s /\ w_trace w = tr0) (run_ops ops) (fun _ w => Ran ops s tr0 w).
Proof using HG HS.
  induction ops as [|o ops IH]; intros s tr0 Hok; cbn [run_ops].
  - apply triple_ret. intros w [Hw Ht]. exists [], s. simpl. rewrite app_nil_r. split_and!; [done|constructor|done].
  - apply Forall_cons_1 in Hok as [Ho Hok].
    eapply triple_bind; [by apply op_step|intros []]. apply triple_at.
    intros w (tr & s1 & Ht & Hs & Hw). eapply triple_conseq; [by apply (IH s1 (tr0 ++ tr))|by intros ? ->|].
    intros ? w' (trs & s2 & Ht' & Hss & Hw'). exists (tr :: trs), s2. simpl. rewrite app_assoc.
    split_and!; [done|by econstructor|done].
Qed.

(** No record goes missing unless it is counted as lost. *)
Definition al_records (s : alog) : list jrec := al_retired s ++ al_committed s ++ al_pending s.

Lemma log_step_records o tr s s' : log_step N o tr s s' -> al_lost s' = [] ->
  al_lost s = [] /\ al_records s' = al_records s ++ op_records o.
Proof using.
  clear HG HS. assert (Hn : forall o' cp, syncs o' cp -> op_records o' = []) by (by intros o' cp [->|[-> _]]).
  unfold al_records, al_committed, al_pending. destruct 1 as [| | |? cp ? s Ho|? cp ? s Ho|? cp ? s Ho|? cp ? s Ho|];
    cbn; intros Hl; try rewrite (Hn _ _ Ho); rewrite ?concat_app; cbn; rewrite ?app_nil_r, <- ?app_assoc; try done.
  apply app_nil in Hl as [? Hp]. unfold al_pending in Hp. apply app_nil in Hp as [-> ->]. done.
Qed.

Lemma log_steps_records ops trs s s' : log_steps N ops trs s s' -> al_lost s' = [] ->
  al_lost s = [] /\ al_records s' = al_records s ++ concat (op_records <$> ops).
Proof using.
  clear HG HS. induction 1 as [s|o ops tr trs s s1 s2 Hs _ IH]; intros Hl; cbn; [by rewrite app_nil_r|].
  destruct (IH Hl) as [Hl1 ->]. destruct (log_step_records _ _ _ _ Hs Hl1) as [? ->]. by rewrite app_assoc.
Qed.

(** What a write leaves behind, whatever the crash points. *)
Lemma WriteRecord_result w a Bs Fs R r :
  ring_inv JS N w false a Bs Fs R -> Z.of_nat (length Bs) + Z.of_nat (length Fs) < N - 1 ->
  (R = [] -> Fs = []) -> w_trace w = [] -> log_rec r -> fits [r] ->
  (WriteRecord r.1 r.2 w).2 = Ret tt ->
  if decide (fits (R ++ [r]) \/ Z.of_nat (length Bs) + Z.of_nat (length Fs) + 1 < N - 1)
  then holds JS N (WriteRecord r.1 r.2 w).1 (concat Bs) ((concat Fs ++ R) ++ [r])
  else holds JS N (WriteRecord r.1 r.2 w).1 [] [r].
Proof using HG HS.
  pose proof HG as (HN & HJS & HE). intros Hi Hlen HF Ht Hr Hf Hret.
  destruct (since_any w) as (n & Hn & Hs).
  pose proof (WriteRecord_triple JS N HN HJS HE anything (w_disk w) HS a Bs Fs R r n Hlen Hr Hf Hn) as HT.
  destruct (triple_run _ _ _ _ w HT) as [_ Hres]; [|done|done|].
  { split; [|exact Hs]. split; [by apply Inv_intro|]. right. right. by intros tr d _ _. }
  rewrite Hret in Hres.
  pose proof (holds_after_write (WriteRecord r.1 r.2 w).1 a Bs Fs R r) as Hh.
  destruct (after_write N a Bs Fs R r) as [[[a' Bs'] Fs'] R'].
  exact (Hh (proj1 (proj1 Hres)) Hlen HF).
Qed.

(** A write that fits the current block adds to the pending records. *)
Lemma WriteRecord_fits_holds w C P r :
  holds JS N w C P -> w_trace w = [] -> log_rec r -> fits [r] ->
  j_writeOffset (w_j w) + 16 + Z.of_nat (length r.2) <= 4096 ->
  (WriteRecord r.1 r.2 w).2 = Ret tt -> holds JS N (WriteRecord r.1 r.2 w).1 C (P ++ [r]).
Proof using HG HS.
  intros (a & Bs & Fs & R & Hi & Hlen & HF & -> & ->) Ht Hr Hf Ho Hret.
  pose proof (WriteRecord_result w a Bs Fs R r Hi Hlen HF Ht Hr Hf Hret) as Hh.
  rewrite decide_True in Hh; [exact Hh|]. left.
  apply fits_snoc; [apply Hr|]. destruct Hi as ([] & _). lia.
Qed.

Lemma holds_reset w C P : holds JS N w C P -> holds JS N (mkWorld (w_j w) (w_disk w) (w_env w) []) C P.
Proof using. clear. intros (a & Bs & Fs & R & Hi). exists a, Bs, Fs, R. exact Hi. Qed.

(** ** Before the metadata is flushed

    [quiet_meta m]: [m] does not flush the bridge's metadata. *)
Definition quiet_meta {A} (m : JM (E := E) A) : Prop :=
  forall w, EvMeta ∉ w_trace w -> EvMeta ∉ w_trace (m w).1.

Lemma quiet_bind {A B} (m : JM (E := E) A) (k : A -> JM (E := E) B) :
  quiet_meta m -> (forall x, quiet_meta (k x)) -> quiet_meta (m ≫= k).
Proof using.
  clear. intros Hm Hk w Hw. specialize (Hm w Hw). unfold mbind, JM_bind.
  destruct (m w) as [w1 [x|e|]]; [by apply Hk|done|done].
Qed.

Lemma quiet_same {A} (m : JM (E := E) A) : (forall w, w_trace (m w).1 = w_trace w) -> quiet_meta m.
Proof using. clear. intros Hm w Hw. by rewrite Hm. Qed.

Lemma quiet_emit w e : e <> EvMeta -> EvMeta ∉ w_trace w -> EvMeta ∉ w_trace (emit w e).
Proof using. clear. intros He Hw [Hx|Hx%list_elem_of_singleton]%elem_of_app; [done|congruence]. Qed.

Lemma quiet_writeThrough b data : quiet_meta (writeThrough b data).
Proof using. clear. intros w Hw. unfold writeThrough. destruct (writeAt _); [|done|]; by apply quiet_emit. Qed.

Lemma quiet_flush_cur : quiet_meta flush_cur.
Proof using.
  clear. unfold flush_cur. apply quiet_bind; [by apply quiet_same|intros j]. apply quiet_bind; [|intros []; by apply quiet_same].
  unfold writeBlock. apply quiet_bind; [by apply quiet_same|intros j']. case_match; [by apply quiet_same|apply quiet_writeThrough].
Qed.

Lemma quiet_commit_log : quiet_meta commit_log.
Proof using.
  clear. unfold commit_log, syncSuperblock. apply quiet_bind; [by apply quiet_same|intros []]. apply quiet_bind; [|intros []].
  - apply quiet_same. intros w. unfold refreshFree. by destruct allocSyncer.
  - apply quiet_bind; [by apply quiet_same|intros j; apply quiet_writeThrough].
Qed.

Lemma quiet_run_opt ev h : ev <> EvMeta -> quiet_meta (run_opt ev h).
Proof using.
  clear. intros He. destruct h as [h|]; cbn [run_opt]; [|by apply quiet_same]. intros w Hw. unfold run_hook. cbv zeta.
  set (w1 := mkWorld _ _ _ _). assert (Hw1 : EvMeta ∉ w_trace w1) by done. clearbody w1. clear Hw.
  set (o := h _ _). assert (Hw2 : EvMeta ∉ w_trace (foldl (fun w wr => emit w (EvWrite wr.1 wr.2)) w1 (ho_writes o))).
  { revert w1 Hw1. induction (ho_writes o) as [|wr wrs IH]; intros w1 Hw1; [done|]. cbn. by apply IH, quiet_emit. }
  destruct (ho_ok o); [by apply quiet_emit|done].
Qed.

(** A point of the run, before the metadata is flushed, at which the log of the
    disk [d0] has become empty. *)
Definition lost_point (d0 : disk) (w : world E) : Prop :=
  exists tr, tr `prefix_of` w_trace w /\ (EvMeta ∉ tr) /\ replayed (apply_events d0 tr) = Some [].

Lemma stable_lost_point d0 : stable (lost_point d0).
Proof using. clear. split; [|done]. intros w e (tr & Ht & Hr). exists tr. split; [by apply prefix_app_r|done]. Qed.

(** A triple of a quiet program, as a fact about the run. *)
Lemma triple_quiet {A} d0 Pre (m : JM (E := E) A) Post : triple anything d0 Pre m Post -> quiet_meta m ->
  sat (fun w => Pre w /\ hist anything d0 w /\ EvMeta ∉ w_trace w) m
      (fun x w => Post x w /\ hist anything d0 w /\ EvMeta ∉ w_trace w).
Proof using.
  clear HG HS. intros Hm Hq w (Hw & Hh & Hn). destruct (Hm w Hw Hh) as (Hh' & _ & Hp). specialize (Hq w Hn).
  destruct ((m w).2); [done|done|done].
Qed.

Lemma sync_commit_lost d0 a Bs Fs R :
  Z.of_nat (length Bs) + Z.of_nat (length Fs) = N - 2 ->
  sat (fun w => Inv JS N anything w false a Bs Fs R /\ hist anything d0 w /\ EvMeta ∉ w_trace w) sync_commit
    (fun _ w => lost_point d0 w /\ clean true w).
Proof using HG HS.
  pose proof HG as (HN & HJS & HE). intros Hlen.
  assert (HK : stable (fun w => lost_point d0 w /\ clean true w)) by auto using stable_lost_point with stable.
  unfold sync_commit. eapply sat_bind; [apply triple_quiet; [apply (flush_cur_triple JS N HN HJS HE); lia|apply quiet_flush_cur]|intros []].
  eapply sat_bind; [apply triple_quiet; [apply (run_opt_triple JS N HN HJS); [apply HS|done]|by apply quiet_run_opt]|intros []].
  eapply (sat_bind _ _ (fun _ w => lost_point d0 w /\ clean true w)); [|intros []].
  { eapply sat_conseq; [apply triple_quiet; [apply (commit_log_triple JS N HN HJS HE anything d0 HS false a Bs (Fs ++ [R]) [])|
      apply quiet_commit_log]|by intros w ([Hi _] & Hh)|].
    intros _ w (Hi & [Hd _] & Hn). split; [|by eapply Inv_clean].
    exists (w_trace w). split; [done|]. split; [done|]. rewrite <- Hd.
    rewrite (replayed_log JS N HN HJS HE (w_disk w) _ _ (proj1 (proj2 (proj1 Hi)))).
    unfold next_log. rewrite decide_False by (rewrite length_app; simpl; lia). done. }
  eapply sat_bind; [by apply (run_opt_sat _ HK)|intros []]. eapply sat_bind; [by apply (run_opt_sat _ HK)|intros []].
  eapply sat_bind; [by apply (syncWB_sat _ HK)|intros []].
  apply sat_modify. intros w Hw. by apply (st_same _ HK).
Qed.

(** What follows the commit keeps a fact that is stable. *)
Lemma sync_tail_sat K n cp : stable K -> sat (fun w => K w /\ clean true w)
  (j ← get;
   _ ← (if cp && (JrnCheckpointInterval <=? j_recordsSinceCheckpoint j)
        then journal_call (S n) (CallCheckpoint true) else mret tt);
   j ← get;
   if negb (j_inCheckpoint j) && (nextBlock j (j_writePos j) =? sb_JournalLogStart (j_sb j))
   then with_inCheckpoint (journal_call (S n) (CallCheckpoint true)) else mret tt) (fun _ => K).
Proof using.
  clear. intros HK. assert (Hc : sat (fun w => K w /\ clean true w) (journal_call (S n) (CallCheckpoint true))
    (fun _ w => K w /\ clean true w)) by (eapply sat_conseq; [by apply (checkpoint_sat K n true)|done|by intros _ w [? _]]).
  eapply sat_bind; [apply sat_get|intros j]. eapply (sat_bind _ _ (fun _ w => K w /\ clean true w)); [|intros []].
  { destruct (cp && _); [eapply sat_conseq; [exact Hc|by intros w [_ ?]|done]|apply sat_ret; by intros w [_ ?]]. }
  eapply sat_bind; [apply sat_get|intros j']. destruct (_ && _); [|apply sat_ret; by intros w [_ [? _]]].
  eapply sat_conseq; [apply (with_inCheckpoint_sat (fun w => K w /\ clean true w) (fun w => K w /\ clean true w)); [auto with stable..|exact Hc]
    |by intros w [_ ?]|by intros _ w [? _]].
Qed.

(** A sync of a dirty journal whose next position is the start of the log. *)
Lemma Sync_lost cp w a Bs Fs R :
  ring_inv JS N w false a Bs Fs R -> Z.of_nat (length Bs) + Z.of_nat (length Fs) = N - 2 -> R <> [] ->
  w_trace w = [] -> sat (fun w' => w' = w) (Sync cp) (fun _ => lost_point (w_disk w)).
Proof using HG HS.
  pose proof HG as (HN & HJS & HE). intros Hi Hlen HR Ht. pose proof Hi as ([] & _).
  change (Sync cp) with (sync_body (journal_call 2) cp). unfold sync_body.
  eapply sat_bind; [apply sat_get|intros j]. apply sat_at. intros ? [-> ->].
  replace (negb (j_dirty (w_j w))) with false by (rewrite ri_dirty; by destruct R).
  rewrite (proj2 (Z.eqb_neq (j_writePos (w_j w)) _)), andb_false_r
    by (rewrite ri_pos, ri_start; intros E'; apply pos_inj in E'; lia).
  apply (sat_bind _ _ (fun p w' => p = true /\ w' = w)); [by apply sat_ret|intros p].
  apply sat_at. intros ? [-> ->]. cbn [negb andb].
  apply (sat_bind _ _ (fun _ w' => lost_point (w_disk w) w' /\ clean true w'));
    [eapply sat_conseq; [apply (sync_commit_lost (w_disk w) a Bs Fs R Hlen)|intros ? ->|done]|intros []].
  - split; [by apply Inv_intro|]. unfold hist. rewrite Ht. split; [by split|]. apply not_elem_of_nil.
  - apply (sync_tail_sat _ 1 cp), stable_lost_point.
Qed.

End guarantees.

(** ** A concrete journal

    A ring of four blocks at block 10, freshly formatted, with a bridge that
    has nothing to flush and a device that does not fail. *)
Definition quiet : hook unit := fun _ sb => mkHookOut tt (sb_FreeDataBlks sb, sb_FreeInodes sb) [] true.

#[export] Instance quiet_hooks : JournalHooks unit := {|
  allocSyncer := None;
  metaSyncer := Some quiet;
  dataDrainer := None;
  wbFlusher := None;
  fileSync := quiet;
  writeAt := fun _ => IoOk;
|}.

Lemma quiet_safe JS N : HooksSafe JS N (E := unit).
Proof.
  assert (Hq : hook_safe JS N quiet).
  { intros env sb (Hc & _). destruct (sb_current_fields sb Hc) as (?&?&_). by split_and!. }
  split; try done; by intros ? [= <-].
Qed.

Definition sample_sb : SuperblockLayout :=
  mkSuperblockLayout MagicSuperblock BrieFSMajorVersion BrieFSMinorVersion BrieFSPatchVersion
    14 0 4096 512 1024 256 0 0 0 0 0 1 0 0 FeatureIncompatBtree (blit 0 [] (zeros 16))
    0 0 0 0 0 0 0 0 0 10 4 0 10 10 [0; 0; 0; 0] (blit 0 [] (zeros 64)) (zeros 648).

Definition sample_disk : disk :=
  <[0 := superblock_block sample_sb]>
  (<[13 := WriteCheckpointBlock (zeros JournalBlockSize) 0 (mkCheckpoint 0 0 0 10 0 0 0 0)]> ∅).

Definition sample_journal : Journal :=
  match NewJournal sample_sb with
  | Ret j => j
  | _ => mkJournal sample_sb [] 0 0 0 0 0 0 0 0 0 0 false false false
  end.

Definition sample_world : world unit := mkWorld sample_journal sample_disk tt [].

Definition sample_rec (b : Z) : jrec := (JRN_TRIE_ALLOC, le_put 8 b ++ zeros 8).

Lemma sample_geometry : ring_geometry 10 4.
Proof. unfold ring_geometry. lia. Qed.

Lemma sample_formatted : formatted 10 4 sample_disk sample_sb.
Proof.
  assert (Hw : codec_wf sample_sb).
  { pose proof (new_superblock_wf 14 4096 512 4 10 0 [] []) as Hw. apply Hw;
      try (unfold is_u64; lia); apply Forall_nil_2. }
  split; [apply lookup_insert_eq|]. split; [|split; [|split]].
  - split; [|split; reflexivity]. exact (conj Hw (conj eq_refl (conj eq_refl eq_refl))).
  - eexists. split.
    + unfold sample_disk. rewrite lookup_insert_ne by discriminate. apply lookup_insert_eq.
    + rewrite WriteCheckpointBlock_image by (unfold is_u32; lia || codec_wf_tac).
      assert (Hcp : codec_wf (mkCheckpoint 0 0 0 10 0 0 0 0)) by codec_wf_tac.
      destruct (checkpoint_rec_ok _ Hcp) as [Hr Hf].
      rewrite ParseJournalBlockHeader_image; [reflexivity|unfold is_u32, MagicCheckpoint; lia
        |unfold is_u32; lia|exact Hr|exact Hf].
  - unfold sample_sb. cbn [sb_JournalLogStart]. lia.
  - reflexivity.
Qed.

Lemma sample_holds : holds 10 4 sample_world [] [].
Proof.
  destruct (NewJournal_holds 10 4 sample_geometry sample_disk sample_sb tt sample_formatted) as (j & Hj & Hw).
  unfold sample_world, sample_journal. rewrite Hj. exact Hw.
Qed.

Lemma sample_holds_log : holds_log 10 4 sample_world al_start.
Proof. exact (NewJournal_holds_log 10 4 sample_geometry sample_disk sample_sb tt sample_journal sample_formatted eq_refl). Qed.

Lemma sample_rec_ok b : log_rec (sample_rec b) /\ fits [sample_rec b].
Proof.
  assert (Hr : rec_ok (sample_rec b)).
  { split; [unfold is_u32, sample_rec, JRN_TRIE_ALLOC; simpl; lia|]. split.
    - apply bytes_app. split; [apply bytes_le_put|apply bytes_zeros].
    - split; [discriminate|]. unfold sample_rec. simpl. lia. }
  split.
  - split; [exact Hr|]. unfold sample_rec, JRN_TRIE_ALLOC, JRN_END, JRN_CHECKPOINT. simpl. lia.
  - apply (fits_snoc [] (sample_rec b) Hr). unfold sample_rec. simpl. lia.
Qed.


Definition sample_pending : world unit :=
  (WriteRecord (sample_rec 1).1 (sample_rec 1).2 sample_world).1.

Lemma sample_pending_holds : holds 10 4 sample_pending [] [sample_rec 1].
Proof.
  destruct (sample_rec_ok 1) as [Hr Hf].
  apply (WriteRecord_fits_holds 10 4 sample_geometry (quiet_safe 10 4) sample_world [] [] (sample_rec 1)
    sample_holds eq_refl Hr Hf).
  - vm_compute. discriminate.
  - vm_compute. reflexivity.
Qed.

(** ** Theorems *)

(** C1 Syncs are atomic.  Take a journal at rest with the records [C] committed
    and [P] pending, and a sync that does not fill the ring.  At every crash
    point of the sync, whatever writes fail and whatever the bridge's hooks do
    within their contract, as long as the bridge has not flushed the metadata
    of the records, a mount replays exactly [C] or exactly [C ++ P].  When the
    sync returns without an error, it has committed [C ++ P], or it has retired
    it after that flush. *)
Theorem Sync_crash_atomic {E} `{JournalHooks E} (JS N : Z) (HG : ring_geometry JS N)
  (HS : HooksSafe JS N (E := E)) (Hmeta : is_Some metaSyncer)
  (w : world E) (C P : list jrec) (checkpoint : bool)
  (Hw : holds JS N w C P) (Ht : w_trace w = [])
  (Hroom : j_writePos (advance (w_j w)) <> sb_JournalLogStart (j_sb (w_j w))) :
  (forall tr, tr `prefix_of` w_trace (Sync checkpoint w).1 -> EvMeta ∉ tr ->
     replayed (apply_events (w_disk w) tr) = Some C \/
     replayed (apply_events (w_disk w) tr) = Some (C ++ P)) /\
  match (Sync checkpoint w).2 with
  | Ret _ => holds JS N (Sync checkpoint w).1 (C ++ P) [] \/
             holds JS N (Sync checkpoint w).1 [] [] /\ EvMeta ∈ w_trace (Sync checkpoint w).1
  | Err e => e <> ErrOutOfFuel
  | Panic => False
  end.
Proof.
  pose proof HG as (HN & HJS & HE). destruct Hw as (a & Bs & Fs & R & Hi & Hlen & HF & -> & ->).
  apply (advance_room JS N HG w a Bs Fs R Hi Hlen) in Hroom.
  set (Φ := fun (d : disk) (tr : list event) => EvMeta ∉ tr -> replayed d = Some (concat Bs) \/
    replayed d = Some (concat Bs ++ concat Fs ++ R)).
  assert (Hold : forall tr d, disk_log JS N d a Bs -> Φ d tr)
    by (intros tr d Hd _; left; by apply (replayed_log JS N HN HJS HE d a)).
  assert (Hret : forall tr x, (is_Some metaSyncer -> EvMeta ∈ tr) -> allowed JS N Φ tr x []).
  { intros tr x He tr' d [k ->] _ Hn. destruct Hn. apply elem_of_app. auto. }
  pose proof (Sync_spec JS N HG HS Φ (w_disk w) checkpoint a Bs Fs R Hlen HF Hret) as HT.
  destruct (triple_run _ _ _ _ w HT) as [Hcrash Hres].
  - split; [by apply Inv_intro|]. intros HR tr' d _ Hd _. right.
    rewrite (replayed_log JS N HN HJS HE d _ _ Hd). f_equal.
    destruct (next_log_concat N Bs Fs R) as [->|[_ Hx]]; [done|lia].
  - exact Ht.
  - apply Hold, Hi.
  - split; [exact Hcrash|]. destruct ((Sync checkpoint w).2) as [x|e|]; [|exact Hres|exact Hres].
    destruct Hres as [Hres|[Hres He]]; auto.
Qed.

Lemma Sync_crash_atomic_witness :
  replayed (apply_events (w_disk sample_pending) (take 1 (w_trace (Sync false sample_pending).1))) = Some [] \/
  replayed (apply_events (w_disk sample_pending) (take 1 (w_trace (Sync false sample_pending).1)))
    = Some [sample_rec 1].
Proof.
  refine (proj1 (Sync_crash_atomic 10 4 sample_geometry (quiet_safe 10 4) (ex_intro _ quiet eq_refl)
    sample_pending [] [sample_rec 1] false sample_pending_holds _ _) _ _ _).
  - vm_compute. reflexivity.
  - vm_compute. discriminate.
  - apply prefix_take.
  - assert (El : forall l : list event, existsb (fun e => match e with EvMeta => true | _ => false end) l = false ->
      EvMeta ∉ l).
    { intros l. induction l as [|e l IH]; intros He Hx; [by apply not_elem_of_nil in Hx|].
      apply elem_of_cons in Hx as [<-|Hx]; [discriminate|]. simpl in He.
      apply orb_false_iff in He as [_ He]. exact (IH He Hx). }
    apply El. vm_compute. reflexivity.
Defined.



(** C8 The journal implements its abstract log.  Start from a formatted volume and
    run any sequence of writes, syncs, checkpoints and closes, with any failing
    writes.  If it runs to the end, its history is one of the abstract journal of
    [log_step], event for event: a sync or close commits all that is pending and
    has flushed the metadata when it returns; it retires the log only when
    a periodic checkpoint is due or the ring is down to its last blocks; a record
    that is written is pending, and pending records are lost only by a write that
    finds no block of the ring left.  A mount at that point replays exactly the
    committed records; and if no write has found the ring full, the retired, the
    committed and the pending records are, in order, all the records written.  It
    never panics and never exceeds the recursion bound. *)
Theorem journal_refines_log {E} `{JournalHooks E} (JS N : Z) (HG : ring_geometry JS N)
  (HS : HooksSafe JS N (E := E)) (d : disk) (sb : SuperblockLayout) (j : Journal) (env : E)
  (ops : list jop)
  (Hfmt : formatted JS N d sb) (Hj : NewJournal sb = Ret j) (Hops : Forall op_ok ops) :
  let w := (run_ops ops (mkWorld j d env [])).1 in
  match (run_ops ops (mkWorld j d env [])).2 with
  | Ret _ => exists trs s,
      log_steps N ops trs al_start s /\ w_trace w = concat trs /\
      replayed (w_disk w) = Some (al_committed s) /\
      (al_lost s = [] ->
       al_retired s ++ al_committed s ++ al_pending s = concat (op_records <$> ops))
  | Err e => e <> ErrOutOfFuel
  | Panic => False
  end.
Proof.
  pose proof HG as (HN & HJS & HE). pose proof (NewJournal_holds_log JS N HG d sb env j Hfmt Hj) as Hw.
  pose proof (run_ops_steps JS N HG HS d ops al_start [] Hops) as HT.
  destruct (HT _ (conj Hw eq_refl)) as (_ & _ & Hres); [by split|]. cbv zeta.
  destruct ((run_ops ops _).2) as [x|e|]; [|exact Hres|exact Hres].
  destruct Hres as (trs & s & Ht & Hs & Hh). exists trs, s. split; [exact Hs|]. split; [exact Ht|]. split.
  - exact (holds_replayed JS N HN HJS HE _ _ _ (holds_log_holds JS N _ s Hh)).
  - intros Hl. exact (proj2 (log_steps_records N ops trs al_start s Hs Hl)).
Qed.

Lemma journal_refines_log_witness :
  let ops := [OpWrite (sample_rec 1); OpSync false; OpWrite (sample_rec 2)] in
  exists trs s, log_steps (E := unit) 4 ops trs al_start s /\ al_committed s = [sample_rec 1] /\
    (al_lost s = [] -> al_retired s ++ [sample_rec 1] ++ al_pending s = [sample_rec 1; sample_rec 2]).
Proof.
  intros ops.
  assert (Hok : Forall op_ok ops).
  { apply Forall_cons_2; [apply sample_rec_ok|]. apply Forall_cons_2; [exact I|].
    apply Forall_cons_2; [apply sample_rec_ok|apply Forall_nil_2]. }
  pose proof (journal_refines_log 10 4 sample_geometry (quiet_safe 10 4) sample_disk sample_sb sample_journal
    tt ops sample_formatted eq_refl Hok) as Hx. cbv zeta in Hx. fold sample_world in Hx.
  assert (Er : (run_ops ops sample_world).2 = Ret tt) by (vm_compute; reflexivity).
  assert (Ec : replayed (w_disk (run_ops ops sample_world).1) = Some [sample_rec 1]) by (vm_compute; reflexivity).
  rewrite Er, Ec in Hx. destruct Hx as (trs & s & Hs & _ & Hc & Hl). injection Hc as Hc.
  exists trs, s. split; [exact Hs|]. rewrite <- Hc in Hl. split; [symmetry; exact Hc|exact Hl].
Defined.

(** C13 Sync and checkpoint terminate.  They call each other, but three levels of
    calls are always enough: from every state whatever, with any hooks and any
    failing writes, neither runs out of that bound. *)
Theorem journal_recursion_terminates {E} `{JournalHooks E} (w : world E) (checkpoint flushPending : bool) :
  (syncLocked checkpoint w).2 <> Err ErrOutOfFuel /\
  (checkpointLocked flushPending w).2 <> Err ErrOutOfFuel.
Proof.
  pose proof (journal_call_fuel 0 (CallSync checkpoint) w I) as H1.
  pose proof (journal_call_fuel 0 (CallCheckpoint flushPending) w I) as H2.
  unfold syncLocked, checkpointLocked. split; intros Hx; [rewrite Hx in H1; by apply H1|rewrite Hx in H2; by apply H2].
Qed.

(** A write into a full ring drops what was pending.  When the record does not
    fit and flushing the current block reaches the start of the log, a write
    that returns without an error has retired the whole log: the committed
    records, and also the pending ones, which no sync had committed.  Only the
    new record is left. *)
Theorem WriteRecord_full_ring {E} `{JournalHooks E} (JS N : Z) (HG : ring_geometry JS N)
  (HS : HooksSafe JS N (E := E)) (w w' : world E) (C P : list jrec) (r : jrec)
  (Hw : holds JS N w C P) (Ht : w_trace w = []) (Hr : log_rec r) (Hf : fits [r])
  (Hfit : 4096 < j_writeOffset (w_j w) + 16 + Z.of_nat (length r.2))
  (Hfull : j_writePos (advance (w_j w)) = sb_JournalLogStart (j_sb (w_j w)))
  (Hrun : WriteRecord r.1 r.2 w = (w', Ret tt)) :
  holds JS N w' [] [r].
Proof.
  pose proof HG as (HN & HJS & HE). destruct Hw as (a & Bs & Fs & R & Hi & Hlen & HF & -> & ->).
  pose proof (WriteRecord_result JS N HG HS w a Bs Fs R r Hi Hlen HF Ht Hr Hf) as Hh.
  rewrite Hrun in Hh. specialize (Hh eq_refl). cbn [fst] in Hh.
  rewrite decide_False in Hh; [exact Hh|].
  intros [Hx|Hx].
  - apply fits_snoc in Hx; [|apply Hr]. destruct Hi as ([] & _). lia.
  - exact (proj2 (advance_room JS N HG w a Bs Fs R Hi Hlen) Hx Hfull).
Qed.

(** C33 A sync that fills the ring makes the committed log unreadable.  Take a
    journal at rest with the records [C] committed and some records pending, whose
    next write position, past the checkpoint block, is the start of the log, and a
    sync of it that reports no error.  Before the sync a mount replays [C].  The
    superblock that the sync persists has [log_start] equal to [log_end]: there is
    a crash point of the sync, before the bridge has flushed the metadata of any of
    the records, at which a mount replays nothing. *)
Theorem full_ring_loses_log {E} `{JournalHooks E} (JS N : Z) (HG : ring_geometry JS N)
  (HS : HooksSafe JS N (E := E)) (w : world E) (C P : list jrec) (checkpoint : bool)
  (Hw : holds JS N w C P) (Ht : w_trace w = []) (HP : P <> [])
  (Hfull : j_writePos (advance (w_j w)) = sb_JournalLogStart (j_sb (w_j w)))
  (Hret : (Sync checkpoint w).2 = Ret tt) :
  replayed (w_disk w) = Some C /\
  exists tr, tr `prefix_of` w_trace (Sync checkpoint w).1 /\ (EvMeta ∉ tr) /\
    replayed (apply_events (w_disk w) tr) = Some [].
Proof.
  pose proof HG as (HN & HJS & HE). split; [exact (holds_replayed JS N HN HJS HE w C P Hw)|].
  destruct Hw as (a & Bs & Fs & R & Hi & Hlen & HF & -> & ->).
  assert (HR : R <> []) by (intros ->; by rewrite HF in HP).
  assert (Hl : Z.of_nat (length Bs) + Z.of_nat (length Fs) = N - 2).
  { destruct (Z.lt_ge_cases (Z.of_nat (length Bs) + Z.of_nat (length Fs) + 1) (N - 1)) as [Hx|Hx]; [|lia].
    by destruct (proj2 (advance_room JS N HG w a Bs Fs R Hi Hlen) Hx). }
  pose proof (Sync_lost JS N HG HS checkpoint w a Bs Fs R Hi Hl HR Ht w eq_refl) as Hs.
  rewrite Hret in Hs. exact Hs.
Qed.

Definition sample_ops : list jop :=
  [OpWrite (sample_rec 1); OpSync false; OpWrite (sample_rec 2); OpSync false; OpWrite (sample_rec 3)].

(** Two records committed and a third pending, in the last block of the ring. *)
Definition sample_last : world unit :=
  let w := (run_ops sample_ops sample_world).1 in mkWorld (w_j w) (w_disk w) (w_env w) [].

Lemma sample_last_holds : exists P, P <> [] /\ holds 10 4 sample_last [sample_rec 1; sample_rec 2] P.
Proof.
  pose proof (run_ops_steps 10 4 sample_geometry (quiet_safe 10 4) sample_disk sample_ops al_start []) as HT.
  destruct (HT ltac:(repeat (apply Forall_cons_2; [first [exact I|apply sample_rec_ok]|]); apply Forall_nil_2)
    sample_world (conj sample_holds_log eq_refl)) as (_ & _ & Hres); [split; [reflexivity|done]|].
  assert (Er : (run_ops sample_ops sample_world).2 = Ret tt) by (vm_compute; reflexivity).
  rewrite Er in Hres. destruct Hres as (_ & s & _ & _ & Hh).
  pose proof (holds_reset 10 4 _ _ _ (holds_log_holds 10 4 _ s Hh)) as Hr. fold sample_last in Hr.
  pose proof (holds_replayed 10 4 ltac:(lia) ltac:(lia) ltac:(lia) _ _ _ Hr) as Hc.
  assert (Ec : replayed (w_disk sample_last) = Some [sample_rec 1; sample_rec 2]) by (vm_compute; reflexivity).
  rewrite Ec in Hc. injection Hc as Hc. rewrite <- Hc in Hr. exists (al_pending s). split; [|exact Hr].
  rewrite (holds_log_pending 10 4 _ s Hh). destruct Hh as (a & ([] & _) & _). intros Hx. rewrite Hx in ri_dirty.
  vm_compute in ri_dirty. discriminate ri_dirty.
Qed.

Lemma full_ring_loses_log_witness :
  replayed (w_disk sample_last) = Some [sample_rec 1; sample_rec 2] /\
  exists tr, tr `prefix_of` w_trace (Sync false sample_last).1 /\ (EvMeta ∉ tr) /\
    replayed (apply_events (w_disk sample_last) tr) = Some [].
Proof.
  destruct sample_last_holds as (P & HP & Hh).
  apply (full_ring_loses_log 10 4 sample_geometry (quiet_safe 10 4) sample_last _ P false Hh eq_refl HP).
  - vm_compute. reflexivity.
  - vm_compute. reflexivity.
Defined.

Definition big_rec : jrec := (JRN_XATTR_DATA, replicate 4000 7).

Definition sample_full : world unit :=
  let w := (run_ops [OpWrite big_rec; OpWrite big_rec; OpWrite big_rec] sample_world).1 in
  mkWorld (w_j w) (w_disk w) (w_env w) [].

Lemma big_rec_ok : log_rec big_rec /\ fits [big_rec].
Proof.
  assert (Hr : rec_ok big_rec).
  { split; [unfold is_u32, big_rec, JRN_XATTR_DATA; simpl; lia|]. unfold big_rec. cbn [snd]. split.
    - apply Forall_replicate. unfold is_u8. lia.
    - split; [discriminate|]. rewrite length_replicate. lia. }
  split.
  - split; [exact Hr|]. unfold big_rec, JRN_XATTR_DATA, JRN_END, JRN_CHECKPOINT. cbn [fst]. lia.
  - apply (fits_snoc [] big_rec Hr). unfold big_rec. cbn [snd]. rewrite length_replicate. simpl. lia.
Qed.

Lemma sample_full_holds : exists C P, holds 10 4 sample_full C P.
Proof.
  pose proof (run_ops_steps 10 4 sample_geometry (quiet_safe 10 4) sample_disk
    [OpWrite big_rec; OpWrite big_rec; OpWrite big_rec] al_start []) as HT.
  destruct (HT ltac:(repeat (apply Forall_cons_2; [apply big_rec_ok|]); apply Forall_nil_2)
    sample_world (conj sample_holds_log eq_refl)) as (_ & _ & Hres); [split; [reflexivity|done]|].
  assert (Er : (run_ops [OpWrite big_rec; OpWrite big_rec; OpWrite big_rec] sample_world).2 = Ret tt)
    by (vm_compute; reflexivity).
  rewrite Er in Hres. destruct Hres as (_ & s & _ & _ & Hh). eexists _, _. apply holds_reset. exact (holds_log_holds 10 4 _ s Hh).
Qed.

Lemma WriteRecord_full_ring_witness :
  holds 10 4 (WriteRecord big_rec.1 big_rec.2 sample_full).1 [] [big_rec].
Proof.
  destruct sample_full_holds as (C & P & Hh). destruct big_rec_ok as [Hr Hf].
  apply (WriteRecord_full_ring 10 4 sample_geometry (quiet_safe 10 4) sample_full
    (WriteRecord big_rec.1 big_rec.2 sample_full).1 C P big_rec Hh eq_refl Hr Hf).
  - vm_compute. reflexivity.
  - vm_compute. reflexivity.
  - rewrite (surjective_pairing (WriteRecord big_rec.1 big_rec.2 sample_full)) at 1.
    assert (Er : (WriteRecord big_rec.1 big_rec.2 sample_full).2 = Ret tt) by (vm_compute; reflexivity).
    rewrite Er. reflexivity.
Defined.
