(* ===== verification/Inode.v ===== *)
(** * Inodes (briefs/inode.go)

    The inode's helpers over the generated codec: the inline region seen as a
    256-byte buffer and as eight extents, the file type tests, and the index
    fields that say where an inode keeps its extents. *)

From stdpp Require Import base numbers list option.
From Stdlib Require Import ZArith Lia.
From S2P Require Import Prelude Codec.

Local Open Scope Z_scope.

(** ** Constants (briefs/briefs.go) *)
Definition MagicInode : Z := 0x494E4F44.
Definition ModeTypeMask : Z := 0xF000.
Definition ModeDir : Z := 0x4000.
Definition ModeFile : Z := 0x8000.
Definition ModeSymlink : Z := 0xA000.
Definition InodeFlagIndexed : Z := 4.
Definition InodeFlagInlineData : Z := 8.
Definition ExtentFlagUnwritten : Z := 1.

Definition zero_extent : Extent := mkExtent 0 0 0 0 0.

(** ** Construction *)

(** The clock is a parameter: its seconds as an int64 and its nanoseconds. *)
Definition NewInode (sec nsec : Z) (ino mode : Z) : Inode :=
  let sec := u64 sec in
  mkInode ino MagicInode mode 0 0 0 0 sec nsec sec nsec sec nsec sec nsec 1 0 0 0 (zeros 256)
    0 0 0 0 0 0 0 0 0 (zeros 68).

(** The fields that locate the extents, and the inline region. *)
Definition set_index (in_ : Inode) (flags base nInline nTotal : Z) (region : list Z) : Inode :=
  mkInode (ino_InodeNumber in_) (ino_Magic in_) (ino_Filemode in_) (ino_Uid in_) (ino_Gid in_)
    (ino__Pad0 in_) (ino_FileSize in_) (ino_CtimeSec in_) (ino_CtimeNsec in_) (ino_AtimeSec in_)
    (ino_AtimeNsec in_) (ino_MtimeSec in_) (ino_MtimeNsec in_) (ino_CreationTimeSec in_)
    (ino_CreationTimeNsec in_) (ino_Nlinks in_) nInline base nTotal region (ino_XattrOffset in_)
    (ino_XattrSize in_) (ino_ParentInode in_) (ino_Unused in_) flags (ino_DirTrieRoot in_)
    (ino_Rdev in_) (ino_Generation in_) (ino_UserFlags in_) (ino_Reserved in_).

Definition set_region (in_ : Inode) (region : list Z) : Inode :=
  set_index in_ (ino_Flags in_) (ino_ExtentInlineBase in_) (ino_NumExtentsInline in_)
    (ino_NumExtentsTotal in_) region.

(** The attribute chain, the change time ([stampCtime]) and the mode. *)
Definition set_xattr (in_ : Inode) (XattrOffset XattrSize : Z) : Inode :=
  mkInode (ino_InodeNumber in_) (ino_Magic in_) (ino_Filemode in_) (ino_Uid in_) (ino_Gid in_)
    (ino__Pad0 in_) (ino_FileSize in_) (ino_CtimeSec in_) (ino_CtimeNsec in_) (ino_AtimeSec in_)
    (ino_AtimeNsec in_) (ino_MtimeSec in_) (ino_MtimeNsec in_) (ino_CreationTimeSec in_)
    (ino_CreationTimeNsec in_) (ino_Nlinks in_) (ino_NumExtentsInline in_)
    (ino_ExtentInlineBase in_) (ino_NumExtentsTotal in_) (ino_inlineRegion in_) XattrOffset
    XattrSize (ino_ParentInode in_) (ino_Unused in_) (ino_Flags in_) (ino_DirTrieRoot in_)
    (ino_Rdev in_) (ino_Generation in_) (ino_UserFlags in_) (ino_Reserved in_).

Definition set_ctime (in_ : Inode) (sec nsec : Z) : Inode :=
  mkInode (ino_InodeNumber in_) (ino_Magic in_) (ino_Filemode in_) (ino_Uid in_) (ino_Gid in_)
    (ino__Pad0 in_) (ino_FileSize in_) sec nsec (ino_AtimeSec in_) (ino_AtimeNsec in_)
    (ino_MtimeSec in_) (ino_MtimeNsec in_) (ino_CreationTimeSec in_) (ino_CreationTimeNsec in_)
    (ino_Nlinks in_) (ino_NumExtentsInline in_) (ino_ExtentInlineBase in_)
    (ino_NumExtentsTotal in_) (ino_inlineRegion in_) (ino_XattrOffset in_) (ino_XattrSize in_)
    (ino_ParentInode in_) (ino_Unused in_) (ino_Flags in_) (ino_DirTrieRoot in_) (ino_Rdev in_)
    (ino_Generation in_) (ino_UserFlags in_) (ino_Reserved in_).

Definition set_mode (in_ : Inode) (Filemode : Z) : Inode :=
  mkInode (ino_InodeNumber in_) (ino_Magic in_) Filemode (ino_Uid in_) (ino_Gid in_)
    (ino__Pad0 in_) (ino_FileSize in_) (ino_CtimeSec in_) (ino_CtimeNsec in_) (ino_AtimeSec in_)
    (ino_AtimeNsec in_) (ino_MtimeSec in_) (ino_MtimeNsec in_) (ino_CreationTimeSec in_)
    (ino_CreationTimeNsec in_) (ino_Nlinks in_) (ino_NumExtentsInline in_)
    (ino_ExtentInlineBase in_) (ino_NumExtentsTotal in_) (ino_inlineRegion in_)
    (ino_XattrOffset in_) (ino_XattrSize in_) (ino_ParentInode in_) (ino_Unused in_)
    (ino_Flags in_) (ino_DirTrieRoot in_) (ino_Rdev in_) (ino_Generation in_) (ino_UserFlags in_)
    (ino_Reserved in_).

(** ** File types *)
Definition IsDir (in_ : Inode) : bool := Z.land (ino_Filemode in_) ModeTypeMask =? ModeDir.
Definition IsFile (in_ : Inode) : bool := Z.land (ino_Filemode in_) ModeTypeMask =? ModeFile.
Definition IsSymlink (in_ : Inode) : bool := Z.land (ino_Filemode in_) ModeTypeMask =? ModeSymlink.

(** ** The inline region *)
Definition InlineData (in_ : Inode) : list Z := ino_inlineRegion in_.
Definition SetInlineData (in_ : Inode) (data : list Z) : Inode := set_region in_ data.

Definition InlineExtents (in_ : Inode) : list Extent :=
  (fun i => unmarshal_into zero_extent (slice (i * 32) ((i + 1) * 32) (ino_inlineRegion in_)))
    <$> seq 0 8.

(** [copy(in.inlineRegion[i*32:], b)] for the extents from slot [i] on. *)
Fixpoint put_extents (region : list Z) (i : nat) (exts : list Extent) : list Z :=
  match exts with
  | [] => region
  | e :: exts => put_extents (blit (i * 32) (Marshal e) region) (S i) exts
  end.

(** The argument is an [[8]Extent]. *)
Definition SetInlineExtents (in_ : Inode) (exts : list Extent) : Inode :=
  set_region in_ (put_extents (ino_inlineRegion in_) 0 exts).

Inductive inode_error := ErrInlineExtentRange.

Definition SetInlineExtent (in_ : Inode) (idx offset phys length flags : Z) : res inode_error Inode :=
  if (idx <? 0) || (8 <=? idx) then Err ErrInlineExtentRange else
  let e := mkExtent offset phys length (u32 flags) 0 in
  let region := blit (Z.to_nat idx * 32) (Marshal e) (ino_inlineRegion in_) in
  let nInline := if int64 (ino_NumExtentsInline in_) <? idx + 1
                 then u32 (idx + 1) else ino_NumExtentsInline in_ in
  let nTotal := if int64 (ino_NumExtentsTotal in_) <? idx + 1
                then u64 (idx + 1) else ino_NumExtentsTotal in_ in
  Ret (set_index in_ (ino_Flags in_) (ino_ExtentInlineBase in_) nInline nTotal region).

Definition UnmarshalInode (data : list Z) : res codec_error Inode := UnmarshalBinary data.

(** ** Lemmas *)

Lemma put_extents_image (region : list Z) (exts : list Extent) : forall (done_ : list Extent) old,
  structs_wf done_ -> structs_wf exts ->
  length old = (length exts * 32)%nat ->
  put_extents (structs_image done_ ++ old ++ region) (length done_) exts
  = structs_image (done_ ++ exts) ++ region.
Proof.
  induction exts as [|e exts IH]; intros ds old Hd He Ho; cbn [put_extents].
  - destruct old; [|done]. by rewrite app_nil_r.
  - apply Forall_cons_1 in He as [He Hes]. cbn [length Nat.mul] in Ho.
    rewrite <- (take_drop 32 old), <- app_assoc.
    assert (H32 : length (take 32 old) = Size Extent) by (rewrite length_take; change (Size Extent) with 32%nat; lia).
    pose proof (blit_struct [] ds e (take 32 old) (drop 32 old ++ region) Hd He H32) as E.
    change (Size Extent) with 32%nat in E. cbn [length app Nat.add] in E. rewrite E.
    specialize (IH (ds ++ [e]) (drop 32 old)).
    rewrite length_app, Nat.add_1_r, <- app_assoc in IH. apply IH; [|done|rewrite length_drop; lia].
    apply Forall_app. by split; [|constructor].
Qed.

Lemma InlineExtents_image (in_ : Inode) (exts : list Extent) (post : list Z) :
  structs_wf exts -> length exts = 8%nat ->
  ino_inlineRegion in_ = structs_image exts ++ post -> InlineExtents in_ = exts.
Proof.
  intros Hw Hl E. unfold InlineExtents. rewrite E. apply list_eq_same_length with 8%nat;
    [done|by rewrite length_fmap, length_seq|].
  intros i x y Hi Hx Hy. rewrite list_lookup_fmap, lookup_seq_lt in Hx by done.
  simpl in Hx. injection Hx as <-.
  unfold slice. replace ((i + 1) * 32 - i * 32)%nat with (Size Extent) by (change (Size Extent) with 32%nat; lia).
  pose proof (drop_struct [] exts i y post Hw Hy) as D. cbn [length app Nat.add] in D.
  change (Size Extent) with 32%nat in *. rewrite D. rewrite take_app_length'.
  - rewrite <- (app_nil_r (encode y)). apply unmarshal_into_encode.
    unfold structs_wf in Hw. rewrite Forall_lookup in Hw. by apply (Hw i).
  - rewrite (encode_length y); [done|]. unfold structs_wf in Hw. rewrite Forall_lookup in Hw. by apply (Hw i).
Qed.

(** The eight extents stored by [SetInlineExtents] are read back by
    [InlineExtents]. *)
Lemma InlineExtents_SetInlineExtents (in_ : Inode) (exts : list Extent) :
  structs_wf exts -> length exts = 8%nat -> length (ino_inlineRegion in_) = 256%nat ->
  InlineExtents (SetInlineExtents in_ exts) = exts /\
  ino_inlineRegion (SetInlineExtents in_ exts) = structs_image exts.
Proof.
  intros Hw Hl Hr.
  assert (E : ino_inlineRegion (SetInlineExtents in_ exts) = structs_image exts).
  { unfold SetInlineExtents. simpl.
    pose proof (put_extents_image [] exts [] (ino_inlineRegion in_)) as P.
    rewrite app_nil_r in P. simpl in P. rewrite P; [by rewrite app_nil_r|constructor|done|lia]. }
  split; [|done]. apply InlineExtents_image with []; [done|done|]. by rewrite app_nil_r.
Qed.
