(* ===== verification/TriePage.v ===== *)
(** * Directory trie pages (briefs/trie_disk.go, fuse/trie_mutate.go)

    A trie page is a block of 4096 bytes: a header, 64 slots of 36 bytes, and a
    heap of names that grows down from the end of the block.  This file has the
    accessors of the header, the slots and the names, and the operations of the
    bridge on one page: taking a free slot, reserving heap space, and compacting
    the heap when it is full of dead names.

    A page is seen as the record [page]; [page_ok] is the invariant, and
    [cell p i] is what a client knows of slot [i]: its fields but those that
    locate the name, and the name.  Compaction changes no cell and reclaims all
    dead space. *)

From stdpp Require Import base numbers list option gmap.
From Stdlib Require Import ZArith Lia.
From S2P Require Import Prelude Codec Bits.

Local Open Scope Z_scope.

(** ** Constants (briefs/briefs.go) *)
Definition MagicTriePage : Z := 0x54524E50.
Definition NodeTypeInterm : Z := 4.
Definition NodeStatusLeaf : Z := 8.
Definition TrieSlotsPerBlock : Z := 64.
Definition TrieSlotBits : Z := 6.
Definition TrieSlotMask : Z := 63.
Definition TrieSiblingMax : Z := 1024.
Definition BrieFSMaxNameLen : Z := 255.
Definition TriePageHeaderSize : Z := 20.
Definition TrieSlotSize : Z := 36.

(** ** Node references *)
Definition TrieMakeRef (block slot : Z) : Z :=
  Z.lor (shl64 block TrieSlotBits) (Z.land slot TrieSlotMask).
Definition TrieRefBlock (ref : Z) : Z := Z.shiftr ref TrieSlotBits.
Definition TrieRefSlot (ref : Z) : Z := Z.land ref TrieSlotMask.
Definition TrieRefIsNull (ref : Z) : bool := ref =? 0.

(** ** Errors of the trie code *)
Inductive trie_error :=
| ErrPageShort (len : Z)
| ErrPageMagic (magic : Z)
| ErrCodec (e : codec_error)
| ErrSlotRange (slot len : Z)
| ErrBadName (nameLen nameOffset : Z)
| ErrNameRange (nameStart : Z)
| ErrStoredLen (storedLen nameLen : Z)
| ErrNameWrite
| ErrSiblings (parent : Z)
| ErrTrieRead (block : Z)
| ErrTrieJournal
| ErrNoTrieRoot
| ErrNotFound
| Errno (e : errno).

Definition lift_codec {A} (x : res codec_error A) : res trie_error A :=
  match x with Ret a => Ret a | Err e => Err (ErrCodec e) | Panic => Panic end.

(** ** Header and slots *)
Definition SlotOffset (slot : Z) : Z := TriePageHeaderSize + slot * TrieSlotSize.

Definition blen (buf : list Z) : Z := Z.of_nat (length buf).

Definition ReadTriePage (buf : list Z) : res trie_error TriePage :=
  if blen buf <? TriePageHeaderSize then Err (ErrPageShort (blen buf)) else
  let magic := le_get (take 4 buf) in
  if negb (magic =? MagicTriePage) then Err (ErrPageMagic magic) else
  lift_codec (UnmarshalBinary (take (Z.to_nat TriePageHeaderSize) buf)).

Definition ReadTrieSlot (buf : list Z) (slot : Z) : res trie_error TrieSlot :=
  let off := SlotOffset slot in
  if blen buf <? off + TrieSlotSize then Err (ErrSlotRange slot (blen buf)) else
  lift_codec (UnmarshalBinary (slice (Z.to_nat off) (Z.to_nat (off + TrieSlotSize)) buf)).

Definition WriteTriePage (buf : list Z) (p : TriePage) : res trie_error (list Z) :=
  if blen buf <? TriePageHeaderSize then Err (ErrPageShort (blen buf)) else
  data ← lift_codec (MarshalBinary p);
  Ret (blit 0 data buf).

Definition WriteTrieSlot (buf : list Z) (slot : Z) (s : TrieSlot) : res trie_error (list Z) :=
  let off := SlotOffset slot in
  if blen buf <? off + TrieSlotSize then Err (ErrSlotRange slot (blen buf)) else
  data ← lift_codec (MarshalBinary s);
  Ret (blit (Z.to_nat off) data buf).

Definition TrieIsLeaf (nodeType : Z) : bool :=
  (Z.land nodeType NodeTypeInterm =? 0) || negb (Z.land nodeType NodeStatusLeaf =? 0).

(** ** Names *)
Definition ReadTrieName (buf : list Z) (nameLen nameOffset : Z) : res trie_error (list Z) :=
  if (nameLen <? 2) || (BrieFSMaxNameLen + 2 <? nameLen) || (nameOffset =? 0)
  then Err (ErrBadName nameLen nameOffset) else
  if blen buf <? nameOffset then Err (ErrBadName nameLen nameOffset) else
  let nameStart := blen buf - nameOffset in
  if (nameStart <? 0) || (blen buf <? nameStart + 2) then Err (ErrNameRange nameStart) else
  let storedLen := le_get (slice (Z.to_nat nameStart) (Z.to_nat (nameStart + 2)) buf) in
  if (storedLen <? 1) || (BrieFSMaxNameLen <? storedLen) then Err (ErrStoredLen storedLen nameLen) else
  if negb (u16 (storedLen + 2) =? nameLen) then Err (ErrStoredLen storedLen nameLen) else
  if blen buf <? nameStart + 2 + storedLen then Err (ErrNameRange nameStart) else
  Ret (slice (Z.to_nat (nameStart + 2)) (Z.to_nat (nameStart + 2 + storedLen)) buf).

(** The buffer with the name, and the name_len to store. *)
Definition WriteTrieName (buf : list Z) (nameOffset : Z) (name : list Z) : res trie_error (list Z * Z) :=
  if (length name =? 0)%nat then Ret (buf, 0) else
  if nameOffset =? 0 then Err ErrNameWrite else
  let nameStart := blen buf - nameOffset in
  if (nameStart <? 0) || (blen buf <? nameStart + 2 + blen name) then Err ErrNameWrite else
  let buf := blit (Z.to_nat nameStart) (le_put 2 (u16 (blen name))) buf in
  Ret (blit (Z.to_nat (nameStart + 2)) name buf, u16 (u16 (blen name) + 2)).

(** ** Operations of the bridge on a page *)
Definition triePageDataEnd : Z := u16 (TriePageHeaderSize + TrieSlotsPerBlock * TrieSlotSize).

(** The errors of the two writers are panics here. *)
Definition no_error {A} (x : res trie_error A) : res trie_error A :=
  match x with Ret a => Ret a | _ => Panic end.

Definition putPage (buf : list Z) (pg : TriePage) : res trie_error (list Z) :=
  no_error (WriteTriePage buf pg).
Definition putSlot (buf : list Z) (slot : Z) (s : TrieSlot) : res trie_error (list Z) :=
  no_error (WriteTrieSlot buf slot s).

Definition set_free (pg : TriePage) (live off free : Z) : TriePage :=
  mkTriePage (tp_Magic pg) (tp_Version pg) live off free.

Definition slot_free (pg : TriePage) (slot : Z) : bool := negb (Z.land (tp_FreeSlots pg) (shl64 1 slot) =? 0).

(** The loop over the slots, [n] of them from [slot] on. *)
Fixpoint alloc_slot (n : nat) (slot : Z) (pg : TriePage) : TriePage * option Z :=
  match n with
  | O => (pg, None)
  | S n =>
      if slot_free pg slot
      then (set_free pg (u16 (tp_LiveCount pg + 1)) (tp_FreeNameOff pg)
              (Z.ldiff (tp_FreeSlots pg) (shl64 1 slot)), Some slot)
      else alloc_slot n (slot + 1) pg
  end.

Definition triePageAllocSlot (pg : TriePage) : TriePage * option Z :=
  alloc_slot (Z.to_nat TrieSlotsPerBlock) 0 pg.

Definition triePageHasNameHeap (pg : TriePage) (blockSize nameSize : Z) : bool :=
  if nameSize =? 0 then true
  else u64 (tp_FreeNameOff pg + nameSize) <=? u64 (blockSize - triePageDataEnd).

Definition set_name (s : TrieSlot) (nlen noff : Z) : TrieSlot :=
  mkTrieSlot (ts_FirstChild s) (ts_NextSibling s) (ts_Inode s) nlen noff (ts_Depth s)
    (ts_NodeType s) (ts_ByteVal s) (ts_FType s) (ts_Flags s) (ts_ChildCount s).

(** The first pass of the compaction: [tmp] is the used part of the scratch
    buffer; [None] when the heap is found corrupt. *)
Fixpoint compact_read (buf : list Z) (liveSlots oldOff : Z) (n : nat) (slot : Z) (tmp : list Z)
    : res trie_error (option (list Z)) :=
  match n with
  | O => Ret (Some tmp)
  | S n =>
      if Z.land liveSlots (shl64 1 slot) =? 0 then compact_read buf liveSlots oldOff n (slot + 1) tmp else
      match ReadTrieSlot buf slot with
      | Err _ => Ret None
      | Panic => Panic
      | Ret s =>
          let noff := ts_NameOffset s in
          let nlen := ts_NameLen s in
          if (noff =? 0) || (nlen =? 0) then compact_read buf liveSlots oldOff n (slot + 1) tmp else
          if (oldOff <? noff) || (noff <? nlen) || (oldOff <? blen tmp + nlen) then Ret None else
          let nameStart := blen buf - noff in
          if nameStart <? 0 then Panic else
          compact_read buf liveSlots oldOff n (slot + 1)
            (tmp ++ slice (Z.to_nat nameStart) (Z.to_nat (nameStart + nlen)) buf)
      end
  end.

(** The second pass: the buffer and the new high-water mark.  [newOff] bytes of
    [tmp] have been placed. *)
Fixpoint compact_write (buf tmp : list Z) (liveSlots : Z) (n : nat) (slot newOff : Z)
    : res trie_error (list Z * option Z) :=
  match n with
  | O => Ret (buf, Some newOff)
  | S n =>
      if Z.land liveSlots (shl64 1 slot) =? 0 then compact_write buf tmp liveSlots n (slot + 1) newOff else
      match ReadTrieSlot buf slot with
      | Err _ => Ret (buf, None)
      | Panic => Panic
      | Ret s =>
          let nlen := ts_NameLen s in
          if (ts_NameOffset s =? 0) || (nlen =? 0) then compact_write buf tmp liveSlots n (slot + 1) newOff else
          let tmpUsed := newOff in
          let newOff := u16 (newOff + nlen) in
          buf ← putSlot buf slot (set_name s nlen newOff);
          let nameStart := blen buf - newOff in
          if (nameStart <? 0) || (blen tmp <? tmpUsed + nlen) then Panic else
          compact_write (blit (Z.to_nat nameStart) (slice (Z.to_nat tmpUsed) (Z.to_nat (tmpUsed + nlen)) tmp) buf)
            tmp liveSlots n (slot + 1) newOff
      end
  end.

Definition triePageCompactNames (buf : list Z) (pg : TriePage) : res trie_error (list Z * TriePage * bool) :=
  let oldOff := tp_FreeNameOff pg in
  if oldOff =? 0 then Ret (buf, pg, false) else
  let liveSlots := not64 (tp_FreeSlots pg) in
  tmp ← compact_read buf liveSlots oldOff (Z.to_nat TrieSlotsPerBlock) 0 [];
  match tmp with
  | None => Ret (buf, pg, false)
  | Some tmp =>
      '(buf, newOff) ← compact_write buf tmp liveSlots (Z.to_nat TrieSlotsPerBlock) 0 0;
      match newOff with
      | None => Ret (buf, pg, false)
      | Some newOff => Ret (buf, set_free pg (tp_LiveCount pg) newOff (tp_FreeSlots pg), true)
      end
  end.

(** What [triePageAllocName] leaves: the buffer, the header, the slot, whether
    the heap was compacted, and the error. *)
Definition triePageAllocName (buf : list Z) (pg : TriePage) (s : TrieSlot) (nameLen : Z)
    : res trie_error (list Z * TriePage * TrieSlot * bool * option errno) :=
  if nameLen =? 0 then Ret (buf, pg, s, false, None) else
  if BrieFSMaxNameLen <? nameLen then Ret (buf, pg, s, false, Some ENAMETOOLONG) else
  let nameSize := u16 (nameLen + 2) in
  if (0 <? ts_NameOffset s) && (nameSize <=? ts_NameLen s) then Ret (buf, pg, s, false, None) else
  let full pg := u64 (blen buf - triePageDataEnd) <? u64 (tp_FreeNameOff pg + nameSize) in
  '(buf, pg, compacted) ← (if full pg then triePageCompactNames buf pg else Ret (buf, pg, false));
  if full pg then Ret (buf, pg, s, compacted, Some ENOSPC) else
  let newOff := u16 (tp_FreeNameOff pg + nameSize) in
  Ret (buf, set_free pg (tp_LiveCount pg) newOff (tp_FreeSlots pg), set_name s nameSize newOff, false, None).

Definition reserveNameHeap (pg : TriePage) (s : TrieSlot) (nameSize : Z) : TriePage * TrieSlot :=
  let newOff := u16 (tp_FreeNameOff pg + nameSize) in
  (set_free pg (tp_LiveCount pg) newOff (tp_FreeSlots pg), set_name s nameSize newOff).

(** ** Pages as records *)
Record page := mkPage { p_hdr : TriePage; p_slots : list TrieSlot; p_heap : list Z }.

Definition image (p : page) : list Z := encode (p_hdr p) ++ structs_image (p_slots p) ++ p_heap p.

Definition heap_size : Z := 1772.

Record page_wf (p : page) : Prop := {
  wf_hdr : codec_wf (p_hdr p);
  wf_magic : tp_Magic (p_hdr p) = MagicTriePage;
  wf_slots : structs_wf (p_slots p);
  wf_count : length (p_slots p) = 64%nat;
  wf_heap : bytes (p_heap p);
  wf_heap_len : length (p_heap p) = 1772%nat;
}.

Definition with_hdr (p : page) (h : TriePage) : page := mkPage h (p_slots p) (p_heap p).
Definition with_slot (p : page) (i : Z) (s : TrieSlot) : page :=
  mkPage (p_hdr p) (<[Z.to_nat i := s]> (p_slots p)) (p_heap p).
Definition with_heap (p : page) (pos : Z) (l : list Z) : page :=
  mkPage (p_hdr p) (p_slots p) (blit (Z.to_nat pos) l (p_heap p)).
Definition slot_at (p : page) (i : Z) : option TrieSlot := p_slots p !! Z.to_nat i.

Section image.
Context (p : page) (Hp : page_wf p).

Lemma length_hdr : length (encode (p_hdr p)) = 20%nat.
Proof using Hp. exact (encode_length (p_hdr p) (wf_hdr p Hp)). Qed.

Lemma length_slots : length (structs_image (p_slots p)) = 2304%nat.
Proof using Hp. rewrite length_structs_image by apply Hp. by rewrite (wf_count p Hp). Qed.

Lemma length_page_image : length (image p) = 4096%nat.
Proof using Hp. unfold image. rewrite !length_app, length_hdr, length_slots, (wf_heap_len p Hp). done. Qed.

Lemma blen_image : blen (image p) = 4096.
Proof using Hp. unfold blen. by rewrite length_page_image. Qed.

Lemma slot_at_lt i : 0 <= i < 64 -> exists s, slot_at p i = Some s /\ codec_wf s.
Proof using Hp.
  intros Hi. unfold slot_at. destruct (lookup_lt_is_Some_2 (p_slots p) (Z.to_nat i)) as [s Hs];
    [rewrite (wf_count p Hp); lia|]. exists s. split; [done|].
  pose proof (wf_slots p Hp) as Hw. unfold structs_wf in Hw. rewrite Forall_lookup in Hw. by apply (Hw (Z.to_nat i)).
Qed.

Lemma slot_at_bound i s : slot_at p i = Some s -> 0 <= i -> i < 64.
Proof using Hp. unfold slot_at. intros Hs Hi. apply lookup_lt_Some in Hs. rewrite (wf_count p Hp) in Hs. lia. Qed.

Lemma ReadTriePage_image : ReadTriePage (image p) = Ret (p_hdr p).
Proof using Hp.
  unfold ReadTriePage. rewrite blen_image. change (4096 <? TriePageHeaderSize) with false.
  assert (Hm : take 4 (image p) = le_put 4 (tp_Magic (p_hdr p))) by reflexivity.
  rewrite Hm, le_get_put, (wf_magic p Hp) by (rewrite (wf_magic p Hp); vm_compute; split; congruence).
  change (negb (MagicTriePage =? MagicTriePage)) with false. cbn [negb].
  unfold image. rewrite take_app_length' by (by rewrite length_hdr).
  rewrite <- (app_nil_r (encode (p_hdr p))). by rewrite UnmarshalBinary_encode by apply Hp.
Qed.

Lemma slot_offset i : 0 <= i -> Z.to_nat (SlotOffset i) = (length (encode (p_hdr p)) + Z.to_nat i * Size TrieSlot)%nat.
Proof using Hp.
  intros Hi. rewrite length_hdr. change (Size TrieSlot) with 36%nat.
  unfold SlotOffset, TriePageHeaderSize, TrieSlotSize. lia.
Qed.

Lemma ReadTrieSlot_image i s : 0 <= i -> slot_at p i = Some s -> ReadTrieSlot (image p) i = Ret s.
Proof using Hp.
  intros Hi Hs. pose proof (slot_at_bound i s Hs Hi). unfold ReadTrieSlot. rewrite blen_image.
  rewrite (proj2 (Z.ltb_ge _ _)) by (unfold SlotOffset, TriePageHeaderSize, TrieSlotSize; lia).
  unfold slice. rewrite slot_offset by done. unfold image.
  rewrite (drop_struct _ _ _ s); [|apply Hp|done].
  destruct (slot_at_lt i ltac:(lia)) as (s' & Hs' & Hw). assert (s' = s) as -> by congruence.
  rewrite take_app_length'.
  - rewrite <- (app_nil_r (encode s)). by rewrite UnmarshalBinary_encode.
  - rewrite (encode_length s), length_hdr by done. change (Size TrieSlot) with 36%nat.
    unfold SlotOffset, TriePageHeaderSize, TrieSlotSize. lia.
Qed.

Lemma putSlot_image i s : 0 <= i < 64 -> codec_wf s -> putSlot (image p) i s = Ret (image (with_slot p i s)).
Proof using Hp.
  intros Hi Hs. destruct (slot_at_lt i Hi) as (old & Ho & _). unfold putSlot, WriteTrieSlot. rewrite blen_image.
  rewrite (proj2 (Z.ltb_ge _ _)) by (unfold SlotOffset, TriePageHeaderSize, TrieSlotSize; lia).
  rewrite MarshalBinary_encode by done. cbn [lift_codec mbind res_bind no_error]. f_equal.
  rewrite slot_offset by lia. unfold image. cbn [with_slot p_hdr p_slots p_heap].
  apply (blit_struct_at _ _ _ s old); [apply Hp|done|done].
Qed.

Lemma putPage_image h : codec_wf h -> putPage (image p) h = Ret (image (with_hdr p h)).
Proof using Hp.
  intros Hh. unfold putPage, WriteTriePage. rewrite blen_image. change (4096 <? TriePageHeaderSize) with false.
  rewrite MarshalBinary_encode by done. cbn [lift_codec mbind res_bind no_error]. f_equal.
  unfold image. cbn [with_hdr p_hdr p_slots p_heap].
  apply (blit_app [] (encode h) (encode (p_hdr p))). by rewrite !encode_length by (try done; apply Hp).
Qed.

Lemma page_wf_slot i s : codec_wf s -> page_wf (with_slot p i s).
Proof using Hp.
  intros Hs. destruct Hp. split; try done; cbn [with_slot p_slots].
  - unfold structs_wf. by apply Forall_insert.
  - by rewrite length_insert.
Qed.

Lemma page_wf_hdr h : codec_wf h -> tp_Magic h = MagicTriePage -> page_wf (with_hdr p h).
Proof using Hp. intros Hh Hm. by destruct Hp. Qed.

Lemma page_wf_heap pos l : bytes l -> 0 <= pos <= 1772 -> page_wf (with_heap p pos l).
Proof using Hp.
  intros Hl Hpos. destruct Hp. split; try done; cbn [with_heap p_heap].
  - unfold blit. rewrite !bytes_app. split_and!; auto with briefs.
  - rewrite length_blit; [done|lia].
Qed.

End image.

(** ** Names in the heap *)

(** The bytes that a slot reserves in the heap, and the name they spell. *)
Definition region (p : page) (s : TrieSlot) : list Z :=
  slice (Z.to_nat (heap_size - ts_NameOffset s)) (Z.to_nat (heap_size - ts_NameOffset s + ts_NameLen s)) (p_heap p).

Definition parse_name (r : list Z) (nameLen : Z) : option (list Z) :=
  if (nameLen <? 2) || (BrieFSMaxNameLen + 2 <? nameLen) then None else
  let storedLen := le_get (take 2 r) in
  if (storedLen <? 1) || (BrieFSMaxNameLen <? storedLen) || negb (storedLen + 2 =? nameLen) then None
  else Some (drop 2 r).

Definition read_name (p : page) (s : TrieSlot) : option (list Z) := parse_name (region p s) (ts_NameLen s).

(** A slot's reservation lies below [top]; no reservation has no offset. *)
Definition name_fits (top : Z) (s : TrieSlot) : Prop :=
  0 <= ts_NameLen s <= ts_NameOffset s /\ ts_NameOffset s <= top /\ (ts_NameLen s = 0 -> ts_NameOffset s = 0).

Lemma slice_image p a b : page_wf p -> 0 <= a <= b -> b <= heap_size ->
  slice (Z.to_nat (2324 + a)) (Z.to_nat (2324 + b)) (image p) = slice (Z.to_nat a) (Z.to_nat b) (p_heap p).
Proof.
  unfold heap_size. intros Hp Ha Hb. unfold slice, image. rewrite app_assoc, drop_app_ge.
  - rewrite length_app, length_hdr, length_slots by done. f_equal; [lia|f_equal; lia].
  - rewrite length_app, length_hdr, length_slots by done. lia.
Qed.

Lemma slice_slice {A} (l : list A) a b n :
  (n <= b - a)%nat -> slice a (a + n) l = take n (slice a b l) /\
  slice (a + n) b l = drop n (slice a b l).
Proof.
  intros Hn. unfold slice. split.
  - rewrite take_take. f_equal. lia.
  - replace (b - a)%nat with (n + (b - a - n))%nat by lia.
    rewrite <- take_drop_commute, drop_drop. f_equal. lia.
Qed.

Lemma length_region p s top : page_wf p -> name_fits top s -> top <= heap_size ->
  length (region p s) = Z.to_nat (ts_NameLen s).
Proof.
  intros Hp (H1 & H2 & _) Ht. unfold region. rewrite length_slice; [lia|]. rewrite (wf_heap_len p Hp).
  unfold heap_size in *. lia.
Qed.

Lemma ReadTrieName_image p s top : page_wf p -> name_fits top s -> top <= heap_size ->
  match read_name p s with
  | Some n => ReadTrieName (image p) (ts_NameLen s) (ts_NameOffset s) = Ret n
  | None => exists e, ReadTrieName (image p) (ts_NameLen s) (ts_NameOffset s) = Err e
  end.
Proof.
  intros Hp Hf Ht. pose proof (length_region p s top Hp Hf Ht) as Hl.
  destruct Hf as (H1 & H2 & H3). unfold read_name, parse_name, ReadTrieName. rewrite blen_image by done.
  destruct ((ts_NameLen s <? 2) || _) eqn:E1; cbn [orb]; [eauto|].
  apply orb_false_iff in E1 as [E1 E2]. apply Z.ltb_ge in E1, E2. unfold BrieFSMaxNameLen in *.
  unfold heap_size in *. rewrite (proj2 (Z.eqb_neq (ts_NameOffset s) 0)) by lia.
  rewrite (proj2 (Z.ltb_ge 4096 _)) by lia.
  rewrite (proj2 (Z.ltb_ge _ 0)), (proj2 (Z.ltb_ge 4096 _)) by lia. cbn [orb].
  set (a := 1772 - ts_NameOffset s).
  replace (4096 - ts_NameOffset s) with (2324 + a) by lia.
  replace (2324 + a + 2) with (2324 + (a + 2)) by lia.
  rewrite (slice_image p a (a + 2)) by (try done; unfold heap_size; lia).
  destruct (slice_slice (p_heap p) (Z.to_nat a) (Z.to_nat (a + ts_NameLen s)) 2 ltac:(lia)) as [S1 S2].
  replace (Z.to_nat a + 2)%nat with (Z.to_nat (a + 2)) in S1, S2 by lia. rewrite S1. fold (region p s) in *.
  change (slice (Z.to_nat a) (Z.to_nat (a + ts_NameLen s)) (p_heap p)) with (region p s) in *.
  assert (Hst : 0 <= le_get (take 2 (region p s)) < 2 ^ 16).
  { pose proof (le_get_range (take 2 (region p s))) as R. rewrite length_take, Hl in R.
    replace (2 `min` Z.to_nat (ts_NameLen s))%nat with 2%nat in R by lia. apply R.
    apply bytes_take. unfold region, slice. apply bytes_take, bytes_drop, Hp. }
  set (st := le_get (take 2 (region p s))) in *.
  destruct ((st <? 1) || (255 <? st)) eqn:E3; cbn [orb]; [eauto|].
  apply orb_false_iff in E3 as [E3 E4]. apply Z.ltb_ge in E3, E4.
  rewrite u16_small by (unfold is_u16; lia).
  destruct (Z.eqb_spec (st + 2) (ts_NameLen s)) as [E5|]; cbn [negb]; [|eauto].
  rewrite (proj2 (Z.ltb_ge 4096 _)) by lia. f_equal.
  replace (2324 + (a + 2) + st) with (2324 + (a + ts_NameLen s)) by lia.
  rewrite (slice_image p (a + 2) (a + ts_NameLen s)) by (try done; unfold heap_size; lia). exact S2.
Qed.

(** Writing a name into a reservation that holds it. *)
Lemma WriteTrieName_image p noff name : page_wf p -> name <> [] -> blen name + 2 <= noff -> noff <= heap_size ->
  blen name <= BrieFSMaxNameLen -> bytes name ->
  WriteTrieName (image p) noff name
  = Ret (image (with_heap p (heap_size - noff) (le_put 2 (blen name) ++ name)), blen name + 2).
Proof.
  unfold heap_size, BrieFSMaxNameLen. intros Hp Hn Hl Ho H255 Hb. unfold WriteTrieName. rewrite blen_image by done.
  assert (0 < blen name) by (unfold blen; destruct name; [done|simpl; lia]).
  rewrite (proj2 (Nat.eqb_neq _ _)) by (unfold blen in *; lia).
  rewrite (proj2 (Z.eqb_neq noff 0)), (proj2 (Z.ltb_ge _ 0)), (proj2 (Z.ltb_ge 4096 _)) by lia. cbn [orb].
  rewrite !(u16_small (blen name)) by (unfold is_u16; lia). rewrite u16_small by (unfold is_u16; lia).
  f_equal. f_equal. unfold image. cbn [with_heap p_hdr p_slots p_heap].
  pose proof (wf_heap_len p Hp) as HL. set (k := Z.to_nat (1772 - noff)).
  set (pre := encode (p_hdr p) ++ structs_image (p_slots p)).
  assert (Hpre : length pre = 2324%nat) by (unfold pre; rewrite length_app, length_hdr, length_slots by done; done).
  rewrite <- (take_drop k (p_heap p)) at 1. set (h1 := take k (p_heap p)). set (h2 := drop k (p_heap p)).
  assert (L1 : length h1 = k) by (unfold h1; rewrite length_take; lia).
  assert (L2 : length h2 = Z.to_nat noff) by (unfold h2, k; rewrite length_drop; lia).
  rewrite <- (take_drop 2 h2). rewrite <- (take_drop (length name) (drop 2 h2)).
  set (m1 := take 2 h2). set (m2 := take (length name) (drop 2 h2)). set (m3 := drop (length name) (drop 2 h2)).
  assert (M1 : length m1 = 2%nat) by (unfold m1, blen in *; rewrite length_take; lia).
  assert (M2 : length m2 = length name) by (unfold m2, blen in *; rewrite length_take, length_drop; lia).
  rewrite !(app_assoc (encode _)). fold pre. rewrite (app_assoc pre h1 (m1 ++ _)).
  replace (Z.to_nat (4096 - noff)) with (length (pre ++ h1)) by (rewrite length_app; unfold k in *; lia).
  rewrite blit_app by (by rewrite M1). rewrite (app_assoc (pre ++ h1)).
  replace (Z.to_nat (4096 - noff + 2)) with (length ((pre ++ h1) ++ le_put 2 (blen name)))
    by (rewrite !length_app, length_le_put; unfold k in *; lia).
  rewrite blit_app by done. rewrite <- !app_assoc. f_equal.
  assert (Hh : p_heap p = h1 ++ (m1 ++ m2) ++ m3)
    by (unfold m1, m2, m3; rewrite <- app_assoc, take_drop, take_drop; unfold h1, h2; by rewrite take_drop).
  rewrite Hh, <- L1, blit_app by (rewrite !length_app, length_le_put; lia). by rewrite <- !app_assoc.
Qed.

(** ** The invariant of a page *)
Definition zero_slot : TrieSlot := mkTrieSlot 0 0 0 0 0 0 0 0 0 0 0.
Definition core (s : TrieSlot) : TrieSlot := set_name s 0 0.
Definition live (p : page) (i : Z) : bool := negb (Z.testbit (tp_FreeSlots (p_hdr p)) i).
Definition top (p : page) : Z := tp_FreeNameOff (p_hdr p).

(** Two reservations do not overlap. *)
Definition apart (s s' : TrieSlot) : Prop :=
  ts_NameLen s = 0 \/ ts_NameLen s' = 0 \/
  ts_NameOffset s <= ts_NameOffset s' - ts_NameLen s' \/ ts_NameOffset s' <= ts_NameOffset s - ts_NameLen s.

Record page_ok (p : page) : Prop := {
  ok_wf : page_wf p;
  ok_top : top p <= heap_size;
  ok_live : tp_LiveCount (p_hdr p) = 64 - OnesCount64 (tp_FreeSlots (p_hdr p));
  ok_freed : forall i, 0 <= i < 64 -> live p i = false -> slot_at p i = Some zero_slot;
  ok_fits : forall i s, 0 <= i -> slot_at p i = Some s -> name_fits (top p) s;
  ok_apart : forall i j s s', 0 <= i -> 0 <= j -> i <> j -> slot_at p i = Some s -> slot_at p j = Some s' ->
    apart s s';
}.

(** A live slot and its name; [vis] is what a client knows of them. *)
Abbreviation cell := (TrieSlot * option (list Z))%type.

Definition vis (c : cell) : cell := (core (fst c), snd c).
Definition cell_of (p : page) (s : TrieSlot) : cell := (s, read_name p s).
Definition cell_at (p : page) (i : Z) : option cell :=
  if live p i then cell_of p <$> slot_at p i else None.

Lemma slot_at_with p h i s heap j : page_wf p -> 0 <= i < 64 -> 0 <= j ->
  slot_at (mkPage h (<[Z.to_nat i := s]> (p_slots p)) heap) j
  = if decide (j = i) then Some s else slot_at p j.
Proof.
  intros Hp Hi Hj. unfold slot_at. cbn [p_slots]. case_decide as E.
  - subst j. rewrite list_lookup_insert_eq; [done|rewrite (wf_count p Hp); lia].
  - rewrite list_lookup_insert_ne; [done|lia].
Qed.

Lemma apart_sym s s' : apart s s' -> apart s' s.
Proof. unfold apart. intuition. Qed.

Lemma read_name_same p p' s : region p' s = region p s -> read_name p' s = read_name p s.
Proof. unfold read_name. by intros ->. Qed.

(** Replacing slot [i] by [s'], the header by one whose high-water mark is not
    lower, and the heap inside the reservation of [s']. *)
Section change.
Context (p : page) (Hp : page_ok p) (h' : TriePage) (i : Z) (s' : TrieSlot) (heap' : list Z).
Let p' : page := mkPage h' (<[Z.to_nat i := s']> (p_slots p)) heap'.
Context (Hi : 0 <= i < 64) (Hh : codec_wf h') (Hm : tp_Magic h' = MagicTriePage) (Hs : codec_wf s').
Context (Htop : top p <= tp_FreeNameOff h' <= heap_size).
Context (Hcount : tp_LiveCount h' = 64 - OnesCount64 (tp_FreeSlots h')).
Context (Hbits : forall j, 0 <= j < 64 -> j <> i -> Z.testbit (tp_FreeSlots h') j = Z.testbit (tp_FreeSlots (p_hdr p)) j).
Context (Hfree : Z.testbit (tp_FreeSlots h') i = true -> s' = zero_slot).
Context (Hfits : name_fits (tp_FreeNameOff h') s').
Context (Hapart : forall j s, 0 <= j -> j <> i -> slot_at p j = Some s -> apart s' s).
Context (Hlen : length heap' = 1772%nat) (Hbytes : bytes heap').
Context (Hheap : forall a b, 0 <= a <= b -> b <= heap_size ->
  b <= heap_size - ts_NameOffset s' \/ heap_size - ts_NameOffset s' + ts_NameLen s' <= a ->
  slice (Z.to_nat a) (Z.to_nat b) heap' = slice (Z.to_nat a) (Z.to_nat b) (p_heap p)).

Lemma change_wf : page_wf p'.
Proof using Hp Hh Hm Hs Hlen Hbytes.
  pose proof (ok_wf p Hp) as []. split; try done; cbn [p' p_slots].
  - unfold structs_wf. by apply Forall_insert.
  - by rewrite length_insert.
Qed.

Lemma change_slot j : 0 <= j -> slot_at p' j = if decide (j = i) then Some s' else slot_at p j.
Proof using Hp Hi. intros Hj. by apply slot_at_with; [apply Hp|..]. Qed.

Lemma change_ok : page_ok p'.
Proof using Hp Hi Hh Hm Hs Htop Hcount Hbits Hfree Hfits Hapart Hlen Hbytes.
  split; try done; [apply change_wf|apply Htop| | |].
  - intros j Hj Hl. rewrite change_slot by lia. unfold live in Hl. apply negb_false_iff in Hl. cbn [p' p_hdr] in Hl.
    case_decide as E; [subst j; by rewrite Hfree|]. apply (ok_freed p Hp); [done|]. unfold live.
    by rewrite <- Hbits, Hl.
  - intros j s Hj. rewrite change_slot by lia. case_decide; [by intros [= <-]|]. intros E.
    destruct (ok_fits p Hp j s Hj E) as (? & ? & ?). unfold name_fits, top. cbn [p' p_hdr]. lia.
  - intros j k s1 s2 Hj Hk Hjk. rewrite !change_slot by lia. repeat case_decide; try congruence.
    + intros [= <-] E. by apply (Hapart k).
    + intros E [= <-]. apply apart_sym. by apply (Hapart j).
    + intros E1 E2. by apply (ok_apart p Hp j k).
Qed.

(** Other slots keep their bytes. *)
Lemma change_region j s : 0 <= j -> j <> i -> slot_at p j = Some s -> region p' s = region p s.
Proof using Hp Hi Hfits Hapart Hheap Htop Hlen.
  intros Hj Hji E. destruct (ok_fits p Hp j s Hj E) as (? & ? & ?). pose proof (ok_top p Hp) as Ht. unfold heap_size in *.
  unfold region. cbn [p' p_heap]. destruct (decide (ts_NameLen s = 0)) as [->|].
  { unfold slice. rewrite !Z.add_0_r, Nat.sub_diag. done. }
  destruct (decide (ts_NameLen s' = 0)) as [E0|].
  { apply Hheap; [unfold heap_size; lia|unfold heap_size; lia|].
    left. destruct Hfits as (_ & _ & Hz). rewrite (Hz E0). unfold heap_size. lia. }
  apply Hheap; unfold heap_size; [lia|lia|]. destruct (Hapart j s Hj Hji E) as [?|[?|[?|?]]]; lia.
Qed.

Lemma change_cell j : 0 <= j < 64 ->
  cell_at p' j = if decide (j = i) then (if Z.testbit (tp_FreeSlots h') i then None else Some (cell_of p' s'))
                 else cell_at p j.
Proof using Hp Hi Hfits Hapart Hheap Hbits Htop Hlen Hfree.
  intros Hj. unfold cell_at at 1. rewrite change_slot by lia. unfold live. cbn [p' p_hdr]. case_decide as E.
  - subst j. by destruct (Z.testbit _ i).
  - unfold cell_at, live. rewrite Hbits by done. destruct (Z.testbit _ j); [done|]. cbn [negb].
    destruct (slot_at p j) as [s|] eqn:Es; [|done]. cbn. unfold cell_of. do 2 f_equal.
    apply read_name_same. apply (change_region j); [lia|done|done].
Qed.

End change.

(** ** Taking, writing and releasing slots *)

Lemma hdr_wf_iff h : codec_wf h <->
  is_u32 (tp_Magic h) /\ is_u32 (tp_Version h) /\ is_u16 (tp_LiveCount h) /\ is_u16 (tp_FreeNameOff h) /\
  is_u64 (tp_FreeSlots h).
Proof.
  unfold is_u32, is_u16, is_u64. split.
  - intros [H _]. repeat (apply Forall_cons_1 in H as [? H]). simpl in *. lia.
  - intros. codec_wf_tac.
Qed.

Lemma slot_wf_iff s : codec_wf s <->
  is_u64 (ts_FirstChild s) /\ is_u64 (ts_NextSibling s) /\ is_u64 (ts_Inode s) /\ is_u16 (ts_NameLen s) /\
  is_u16 (ts_NameOffset s) /\ is_u8 (ts_Depth s) /\ is_u8 (ts_NodeType s) /\ is_u8 (ts_ByteVal s) /\
  is_u8 (ts_FType s) /\ is_u16 (ts_Flags s) /\ is_u16 (ts_ChildCount s).
Proof.
  unfold is_u64, is_u16, is_u8. split.
  - intros [H _]. repeat (apply Forall_cons_1 in H as [? H]). simpl in *. lia.
  - intros. codec_wf_tac.
Qed.

Lemma set_name_wf s n o : codec_wf s -> is_u16 n -> is_u16 o -> codec_wf (set_name s n o).
Proof. rewrite !slot_wf_iff. cbn. tauto. Qed.

Lemma core_set_name s n o : core (set_name s n o) = core s.
Proof. done. Qed.

Lemma name_fits_0 t : 0 <= t -> name_fits t zero_slot.
Proof. unfold name_fits. simpl. lia. Qed.

Lemma slot_free_live p i : 0 <= i < 64 -> slot_free (p_hdr p) i = negb (live p i).
Proof. intros Hi. unfold slot_free, live. by rewrite land_shl64. Qed.

Lemma page_top_pos p : page_ok p -> 0 <= top p <= heap_size.
Proof.
  intros Hp. split; [|apply Hp]. pose proof (wf_hdr p (ok_wf p Hp)) as H. apply hdr_wf_iff in H.
  unfold top, is_u16 in *. lia.
Qed.

Lemma live_slot p i c : page_ok p -> 0 <= i < 64 -> cell_at p i = Some c ->
  exists s, slot_at p i = Some s /\ codec_wf s /\ live p i = true /\ c = cell_of p s /\ name_fits (top p) s /\
    Z.testbit (tp_FreeSlots (p_hdr p)) i = false.
Proof.
  intros Hp Hi. unfold cell_at. destruct (live p i) eqn:Hl; [|done].
  destruct (slot_at_lt p (ok_wf p Hp) i Hi) as (s & Es & Hw). rewrite Es. intros [= <-]. exists s.
  split_and!; try done; [apply (ok_fits p Hp i); [lia|done]|]. unfold live in Hl. by apply negb_true_iff in Hl.
Qed.

(** Rewriting a slot without touching where its name is. *)
Lemma page_put p i s s' : page_ok p -> 0 <= i < 64 -> live p i = true -> slot_at p i = Some s ->
  codec_wf s' -> ts_NameLen s' = ts_NameLen s -> ts_NameOffset s' = ts_NameOffset s ->
  page_ok (with_slot p i s') /\
  forall j, 0 <= j < 64 -> cell_at (with_slot p i s') j
    = if decide (j = i) then Some (s', read_name p s) else cell_at p j.
Proof.
  intros Hp Hi Hl Es Hw En Eo. pose proof (ok_wf p Hp) as Hwf. pose proof (wf_hdr p Hwf) as Hh.
  assert (Hb : Z.testbit (tp_FreeSlots (p_hdr p)) i = false) by (unfold live in Hl; by apply negb_true_iff in Hl).
  destruct (ok_fits p Hp i s ltac:(lia) Es) as (F1 & F2 & F3).
  pose proof (change_ok p Hp (p_hdr p) i s' (p_heap p) Hi Hh (wf_magic p Hwf) Hw) as K1.
  pose proof (change_cell p Hp (p_hdr p) i s' (p_heap p) Hi) as K2.
  assert (Hap : forall j t, 0 <= j -> j <> i -> slot_at p j = Some t -> apart s' t).
  { intros j t Hj Hji Et. unfold apart. rewrite En, Eo. by apply (ok_apart p Hp i j); [lia|..]. }
  split.
  - apply K1; try done; [split; [reflexivity|apply Hp]|apply Hp|congruence| |apply Hwf|apply Hwf].
    unfold name_fits. rewrite En, Eo. done.
  - intros j Hj. change (with_slot p i s') with (mkPage (p_hdr p) (<[Z.to_nat i:=s']> (p_slots p)) (p_heap p)).
    rewrite K2; try done; [|split; [reflexivity|apply Hp]|congruence| |apply Hwf].
    + case_decide; [|done]. rewrite Hb. unfold cell_of, read_name, region. by rewrite En, Eo.
    + unfold name_fits. by rewrite En, Eo.
Qed.

Lemma alloc_slot_spec pg n : forall slot, 0 <= slot -> slot + Z.of_nat n <= 64 ->
  match alloc_slot n slot pg with
  | (pg', Some i) => slot <= i < slot + Z.of_nat n /\ slot_free pg i = true /\
      pg' = set_free pg (u16 (tp_LiveCount pg + 1)) (tp_FreeNameOff pg) (Z.ldiff (tp_FreeSlots pg) (shl64 1 i))
  | (pg', None) => pg' = pg /\ forall i, slot <= i < slot + Z.of_nat n -> slot_free pg i = false
  end.
Proof.
  induction n as [|n IH]; intros slot H0 H1; cbn [alloc_slot].
  - split; [done|]. lia.
  - destruct (slot_free pg slot) eqn:E; [split_and!; [lia|lia|done|done]|].
    specialize (IH (slot + 1) ltac:(lia) ltac:(lia)). destruct (alloc_slot n (slot + 1) pg) as [pg' [i|]].
    + destruct IH as (? & ? & ?). split_and!; [lia|lia|done|done].
    + destruct IH as (-> & IH). split; [done|]. intros i Hi. destruct (decide (i = slot)) as [->|]; [done|]. apply IH. lia.
Qed.

(** The page once slot [i] is taken with [n] bytes of heap, and once it is
    released. *)
Definition taken (p : page) (i n : Z) : page :=
  mkPage (set_free (p_hdr p) (u16 (tp_LiveCount (p_hdr p) + 1)) (top p + n)
            (Z.ldiff (tp_FreeSlots (p_hdr p)) (shl64 1 i)))
    (<[Z.to_nat i := set_name zero_slot n (if n =? 0 then 0 else top p + n)]> (p_slots p)) (p_heap p).

Definition released (p : page) (i : Z) : page :=
  mkPage (set_free (p_hdr p) (u16 (tp_LiveCount (p_hdr p) - 1)) (top p)
            (Z.lor (tp_FreeSlots (p_hdr p)) (shl64 1 i)))
    (<[Z.to_nat i := zero_slot]> (p_slots p)) (p_heap p).

Lemma zero_slot_wf : codec_wf zero_slot.
Proof. codec_wf_tac. Qed.

Lemma live_count_flip p i v : page_ok p -> 0 <= i < 64 -> Z.testbit (tp_FreeSlots (p_hdr p)) i = negb v ->
  let f := upd_word (tp_FreeSlots (p_hdr p)) i v in
  u16 (tp_LiveCount (p_hdr p) + (if v then -1 else 1)) = 64 - OnesCount64 f /\ is_u64 f /\
  forall j, 0 <= j < 64 -> Z.testbit f j = if decide (j = i) then v else Z.testbit (tp_FreeSlots (p_hdr p)) j.
Proof.
  intros Hp Hi Hb f. pose proof (wf_hdr p (ok_wf p Hp)) as Hh. apply hdr_wf_iff in Hh as (_ & _ & _ & _ & Hu).
  pose proof (OnesCount64_upd (tp_FreeSlots (p_hdr p)) i v Hi Hb) as Ho. fold f in Ho.
  pose proof (OnesCount64_bound f). rewrite (ok_live p Hp).
  split_and!; [|by apply upd_word_u64|].
  - rewrite u16_small; destruct v; unfold is_u16; lia.
  - intros j Hj. unfold f. rewrite testbit_upd_word by lia. repeat case_decide; congruence.
Qed.

Lemma page_take p i n : page_ok p -> 0 <= i < 64 -> live p i = false -> 0 <= n -> top p + n <= heap_size ->
  page_ok (taken p i n) /\
  exists nm, forall j, 0 <= j < 64 -> cell_at (taken p i n) j
    = if decide (j = i) then Some (set_name zero_slot n (if n =? 0 then 0 else top p + n), nm) else cell_at p j.
Proof.
  intros Hp Hi Hl Hn Ht. pose proof (ok_wf p Hp) as Hwf. pose proof (page_top_pos p Hp) as Hto.
  pose proof (proj1 (hdr_wf_iff _) (wf_hdr p Hwf)) as (W1 & W2 & W3 & W4 & W5).
  unfold live in Hl. apply negb_false_iff in Hl.
  destruct (live_count_flip p i false Hp Hi Hl) as (C1 & C2 & C3). rewrite <- (ldiff_shl64 _ i) in * by done.
  set (f := Z.ldiff _ _) in *. cbn [negb] in *.
  set (s' := set_name zero_slot n (if n =? 0 then 0 else top p + n)).
  assert (Hs : codec_wf s').
  { unfold s', heap_size in *. apply set_name_wf; [apply zero_slot_wf|unfold is_u16; lia|].
    destruct (n =? 0); unfold is_u16; lia. }
  assert (Hf : name_fits (top p + n) s').
  { unfold name_fits, s'. cbn [set_name ts_NameLen ts_NameOffset]. destruct (Z.eqb_spec n 0); lia. }
  assert (Hap : forall j t, 0 <= j -> j <> i -> slot_at p j = Some t -> apart s' t).
  { intros j t Hj Hji Et. destruct (ok_fits p Hp j t Hj Et) as (? & ? & ?). unfold apart, s'.
    cbn [set_name ts_NameLen ts_NameOffset]. destruct (Z.eqb_spec n 0); [by left|]. right; right. right. lia. }
  set (h' := set_free (p_hdr p) (u16 (tp_LiveCount (p_hdr p) + 1)) (top p + n) f).
  assert (Hh : codec_wf h').
  { unfold h', heap_size in *. apply hdr_wf_iff. cbn [set_free tp_Magic tp_Version tp_LiveCount tp_FreeNameOff tp_FreeSlots].
    split_and!; try done; try apply u16_range; unfold is_u16; lia. }
  assert (Htop : top p <= tp_FreeNameOff h' <= heap_size) by (cbn; lia).
  assert (Hbits : forall j, 0 <= j < 64 -> j <> i -> Z.testbit f j = Z.testbit (tp_FreeSlots (p_hdr p)) j).
  { intros j Hj Hji. rewrite C3 by done. by rewrite decide_False. }
  assert (Hfi : Z.testbit f i = false) by (rewrite C3 by done; by rewrite decide_True).
  split.
  - apply (change_ok p Hp h' i s' (p_heap p)); try done; [apply Hwf| |apply Hwf..].
    cbn. intros E. congruence.
  - exists (read_name (taken p i n) s'). intros j Hj.
    pose proof (change_cell p Hp h' i s' (p_heap p) Hi Htop Hbits) as K.
    change (taken p i n) with (mkPage h' (<[Z.to_nat i:=s']> (p_slots p)) (p_heap p)) at 1.
    rewrite K; try done; [|cbn; intros E; congruence|apply Hwf].
    case_decide; [|done]. change (tp_FreeSlots h') with f. by rewrite Hfi.
Qed.

Lemma page_release p i : page_ok p -> 0 <= i < 64 -> live p i = true ->
  page_ok (released p i) /\
  forall j, 0 <= j < 64 -> cell_at (released p i) j = if decide (j = i) then None else cell_at p j.
Proof.
  intros Hp Hi Hl. pose proof (ok_wf p Hp) as Hwf. pose proof (page_top_pos p Hp) as Hto.
  pose proof (proj1 (hdr_wf_iff _) (wf_hdr p Hwf)) as (W1 & W2 & W3 & W4 & W5).
  unfold live in Hl. apply negb_true_iff in Hl.
  destruct (live_count_flip p i true Hp Hi Hl) as (C1 & C2 & C3). rewrite <- (lor_shl64 _ i) in * by done.
  set (f := Z.lor _ _) in *.
  set (h' := set_free (p_hdr p) (u16 (tp_LiveCount (p_hdr p) - 1)) (top p) f).
  assert (Hh : codec_wf h').
  { unfold h'. apply hdr_wf_iff. cbn [set_free tp_Magic tp_Version tp_LiveCount tp_FreeNameOff tp_FreeSlots].
    split_and!; try done; apply u16_range. }
  assert (Htop : top p <= tp_FreeNameOff h' <= heap_size) by (cbn; lia).
  assert (Hbits : forall j, 0 <= j < 64 -> j <> i -> Z.testbit f j = Z.testbit (tp_FreeSlots (p_hdr p)) j).
  { intros j Hj Hji. rewrite C3 by done. by rewrite decide_False. }
  assert (Hf : name_fits (top p) zero_slot) by (apply name_fits_0; lia).
  assert (Hfi : Z.testbit f i = true) by (rewrite C3 by done; by rewrite decide_True).
  split.
  - apply (change_ok p Hp h' i zero_slot (p_heap p)); try done; [apply Hwf|apply zero_slot_wf|by intros; left|apply Hwf..].
  - intros j Hj. pose proof (change_cell p Hp h' i zero_slot (p_heap p) Hi Htop Hbits) as K.
    change (released p i) with (mkPage h' (<[Z.to_nat i:=zero_slot]> (p_slots p)) (p_heap p)).
    rewrite K; try done; [|by intros; left|apply Hwf].
    case_decide; [|done]. change (tp_FreeSlots h') with f. by rewrite Hfi.
Qed.

(** ** Compaction *)

Lemma blit_image p a l : page_wf p -> 0 <= a ->
  blit (Z.to_nat (2324 + a)) l (image p) = image (with_heap p a l).
Proof.
  intros Hp Ha. unfold image. rewrite !app_assoc. cbn [with_heap p_hdr p_slots p_heap].
  rewrite <- blit_app_r. f_equal. rewrite length_app, length_hdr, length_slots by done. lia.
Qed.

Lemma set_name_id s : set_name s (ts_NameLen s) (ts_NameOffset s) = s.
Proof. by destruct s. Qed.

Lemma region_nil p s : ts_NameLen s = 0 -> region p s = [].
Proof. intros E. unfold region, slice. by rewrite E, Z.add_0_r, Nat.sub_diag. Qed.

(** The live names, in slot order: what compaction keeps. *)
Definition names (p : page) (n : nat) : list Z := concat (region p <$> take n (p_slots p)).

Lemma names_S p i s : p_slots p !! i = Some s -> names p (S i) = names p i ++ region p s.
Proof. intros Es. unfold names. rewrite (take_S_r _ _ _ Es), fmap_app, concat_app. csimpl. by rewrite app_nil_r. Qed.

(** Reservations are apart, so together they fit below the high-water mark. *)
Lemma names_fit p n : page_ok p -> blen (names p n) <= top p.
Proof.
  intros Hp. pose proof (page_top_pos p Hp) as Ht.
  set (cells := fun s : TrieSlot => seqZ (ts_NameOffset s - ts_NameLen s) (ts_NameLen s)).
  assert (Hlen : forall m, blen (names p m) = Z.of_nat (length (concat (cells <$> take m (p_slots p))))).
  { induction m as [|m IH]; [done|]. destruct (p_slots p !! m) as [s|] eqn:Es.
    - rewrite (names_S _ _ _ Es), (take_S_r _ _ _ Es), fmap_app, concat_app. csimpl.
      rewrite app_nil_r. unfold blen in *. rewrite !length_app, !Nat2Z.inj_add, IH. f_equal. f_equal.
      unfold cells. rewrite length_seqZ. eapply length_region; [apply Hp| |apply Hp]. apply (ok_fits p Hp (Z.of_nat m)); [lia|].
      unfold slot_at. by rewrite Nat2Z.id.
    - unfold names in *. apply lookup_ge_None in Es. rewrite !take_ge in * by lia. done. }
  rewrite Hlen. assert (Hnd : NoDup (concat (cells <$> take n (p_slots p)))).
  { clear Hlen. induction n as [|n IH]; [constructor|]. destruct (p_slots p !! n) as [s|] eqn:Es;
      [|apply lookup_ge_None in Es; rewrite !take_ge in * by lia; done].
    rewrite (take_S_r _ _ _ Es), fmap_app, concat_app. csimpl. rewrite app_nil_r.
    apply NoDup_app. split_and!; [done| |apply NoDup_seqZ].
    intros x Hx Hx'. apply elem_of_concat in Hx as (l & Hxl & (s2 & -> & Hs2)%list_elem_of_fmap).
    apply list_elem_of_lookup in Hs2 as [j Hj]. apply lookup_take_Some in Hj as [Hj Hjn].
    destruct (ok_apart p Hp (Z.of_nat n) (Z.of_nat j) s s2) as [?|[?|[?|?]]]; try lia;
      unfold slot_at; try (by rewrite Nat2Z.id); unfold cells in *; rewrite elem_of_seqZ in *; lia. }
  assert (Hsub : concat (cells <$> take n (p_slots p)) ⊆ seqZ 0 (top p)).
  { intros x Hx. apply elem_of_concat in Hx as (l & Hxl & (s & -> & Hs)%list_elem_of_fmap).
    apply list_elem_of_lookup in Hs as [j Hj]. apply lookup_take_Some in Hj as [Hj _].
    destruct (ok_fits p Hp (Z.of_nat j) s) as (? & ? & ?); [lia|unfold slot_at; by rewrite Nat2Z.id|].
    unfold cells in Hxl. rewrite elem_of_seqZ in *. lia. }
  apply NoDup_submseteq in Hsub; [|done]. apply submseteq_length in Hsub. rewrite length_seqZ in Hsub. lia.
Qed.

Lemma live_bit p i : page_ok p -> 0 <= i < 64 ->
  (Z.land (not64 (tp_FreeSlots (p_hdr p))) (shl64 1 i) =? 0) = negb (live p i).
Proof.
  intros Hp Hi. rewrite land_shl64 by done. unfold live, not64. rewrite Z.lxor_spec.
  replace (Z.testbit (2 ^ 64 - 1) i) with true; [by rewrite xorb_true_r|].
  symmetry. change (2 ^ 64 - 1) with (Z.ones 64). by rewrite Z.ones_spec_low by lia.
Qed.

(** The two ways in which a slot has no name. *)
Lemma slot_unnamed p i s : page_ok p -> 0 <= i < 64 -> slot_at p i = Some s ->
  live p i = false \/ ((ts_NameOffset s =? 0) || (ts_NameLen s =? 0)) = true ->
  ts_NameLen s = 0 /\ ts_NameOffset s = 0.
Proof.
  intros Hp Hi Es H. destruct (ok_fits p Hp i s ltac:(lia) Es) as (F1 & F2 & F3). destruct H as [H|H].
  - rewrite (ok_freed p Hp i Hi H) in Es. by injection Es as <-.
  - apply orb_true_iff in H as [H|H]; apply Z.eqb_eq in H; lia.
Qed.

Lemma compact_read_spec p : page_ok p -> forall n i, (i + n = 64)%nat ->
  compact_read (image p) (not64 (tp_FreeSlots (p_hdr p))) (top p) n (Z.of_nat i) (names p i)
  = Ret (Some (names p 64)).
Proof.
  intros Hp. pose proof (ok_wf p Hp) as Hwf. pose proof (ok_top p Hp) as Ht.
  induction n as [|n IH]; intros i Hi; cbn [compact_read]; [by replace i with 64%nat by lia|].
  destruct (slot_at_lt p Hwf (Z.of_nat i) ltac:(lia)) as (s & Es & _).
  assert (Es' : p_slots p !! i = Some s) by (unfold slot_at in Es; by rewrite Nat2Z.id in Es).
  rewrite live_bit by (try done; lia). replace (Z.of_nat i + 1) with (Z.of_nat (S i)) by lia.
  specialize (IH (S i) ltac:(lia)). rewrite (names_S _ _ _ Es') in IH.
  assert (Hno : live p (Z.of_nat i) = false \/ ((ts_NameOffset s =? 0) || (ts_NameLen s =? 0)) = true ->
    region p s = []).
  { intros H. apply region_nil. by apply (slot_unnamed p (Z.of_nat i) s Hp ltac:(lia) Es). }
  destruct (live p (Z.of_nat i)) eqn:Hl; cbn [negb]; [|rewrite Hno, app_nil_r in IH by auto; exact IH].
  rewrite (ReadTrieSlot_image p Hwf _ s) by (try done; lia).
  destruct ((ts_NameOffset s =? 0) || _) eqn:Hz; [rewrite Hno, app_nil_r in IH by auto; exact IH|].
  destruct (ok_fits p Hp (Z.of_nat i) s ltac:(lia) Es) as (F1 & F2 & F3).
  pose proof (names_fit p (S i) Hp) as Hfit. rewrite (names_S _ _ _ Es') in Hfit.
  pose proof (length_region p s _ Hwf (conj F1 (conj F2 F3)) Ht) as Hr.
  unfold blen in Hfit. rewrite length_app, Hr in Hfit.
  rewrite (proj2 (Z.ltb_ge _ _)) by lia. rewrite (proj2 (Z.ltb_ge (ts_NameOffset s) _)) by lia.
  rewrite (proj2 (Z.ltb_ge (top p) (blen _ + _))) by (unfold blen; lia). cbn [orb].
  rewrite blen_image by done. unfold heap_size in Ht. rewrite (proj2 (Z.ltb_ge _ 0)) by lia.
  replace (4096 - ts_NameOffset s) with (2324 + (heap_size - ts_NameOffset s)) by (unfold heap_size; lia).
  rewrite <- Z.add_assoc, slice_image by (try done; unfold heap_size; lia). exact IH.
Qed.

(** How far the second pass has come: the slots before [i] of [p] have their
    names moved to the end of the heap of [q]. *)
Record moved (p q : page) (i : nat) : Prop := {
  mv_wf : page_wf q;
  mv_hdr : p_hdr q = p_hdr p;
  mv_rest : forall j, Z.of_nat i <= j -> slot_at q j = slot_at p j;
  mv_done : forall j s, 0 <= j < Z.of_nat i -> slot_at p j = Some s ->
    exists off, slot_at q j = Some (set_name s (ts_NameLen s) off) /\
      name_fits (blen (names p i)) (set_name s (ts_NameLen s) off) /\
      region q (set_name s (ts_NameLen s) off) = region p s;
  mv_apart : forall j k s s', 0 <= j < Z.of_nat i -> 0 <= k < Z.of_nat i -> j <> k ->
    slot_at q j = Some s -> slot_at q k = Some s' -> apart s s';
}.

Lemma name_fits_mono t t' s : t <= t' -> name_fits t s -> name_fits t' s.
Proof. unfold name_fits. lia. Qed.

(** A slot without a name stays as it is. *)
Lemma moved_skip p q i s : page_ok p -> moved p q i -> (i < 64)%nat -> slot_at p (Z.of_nat i) = Some s ->
  ts_NameLen s = 0 /\ ts_NameOffset s = 0 -> moved p q (S i).
Proof.
  intros Hp [M1 M2 M3 M4 M5] Hi Es [E1 E2].
  assert (Hn : names p (S i) = names p i).
  { rewrite (names_S p i s) by (unfold slot_at in Es; by rewrite Nat2Z.id in Es). by rewrite region_nil, app_nil_r. }
  assert (Eq : slot_at q (Z.of_nat i) = Some s) by (rewrite M3; [done|lia]).
  split; try done.
  - intros j Hj. apply M3. lia.
  - intros j s' Hj Es'. rewrite Hn. destruct (decide (j = Z.of_nat i)) as [->|]; [|apply M4; [lia|done]].
    assert (s' = s) as -> by congruence. exists 0. rewrite <- E2 at 1 2 3. rewrite set_name_id.
    split_and!; [done| |by rewrite !region_nil]. unfold name_fits, blen. lia.
  - intros j k s1 s2 Hj Hk Hjk J1 J2. unfold apart.
    destruct (decide (j = Z.of_nat i)) as [->|]; [left; congruence|].
    destruct (decide (k = Z.of_nat i)) as [->|]; [right; left; congruence|].
    apply (M5 j k); try done; lia.
Qed.

(** A named slot is repointed and its name copied. *)
Lemma moved_step p q i s : page_ok p -> moved p q i -> (i < 64)%nat -> slot_at p (Z.of_nat i) = Some s ->
  0 < ts_NameLen s ->
  let off := blen (names p (S i)) in
  moved p (with_heap (with_slot q (Z.of_nat i) (set_name s (ts_NameLen s) off)) (heap_size - off) (region p s)) (S i).
Proof.
  intros Hp [M1 M2 M3 M4 M5] Hi Es Hn off. pose proof (ok_wf p Hp) as Hwf. pose proof (ok_top p Hp) as Ht.
  pose proof (names_fit p (S i) Hp) as Hfit. fold off in Hfit.
  pose proof (ok_fits p Hp (Z.of_nat i) s ltac:(lia) Es) as Hf.
  assert (Hoff : off = blen (names p i) + ts_NameLen s).
  { unfold off. rewrite (names_S p i s) by (unfold slot_at in Es; by rewrite Nat2Z.id in Es).
    unfold blen. rewrite length_app, (length_region p s _ Hwf Hf Ht). lia. }
  assert (H0 : 0 <= blen (names p i)) by (unfold blen; lia). unfold heap_size in *.
  destruct (slot_at_lt p Hwf (Z.of_nat i) ltac:(lia)) as (s0 & Es0 & Hw). assert (s0 = s) as -> by congruence.
  set (s' := set_name s (ts_NameLen s) off). assert (Hs' : codec_wf s').
  { apply slot_wf_iff in Hw as W. apply set_name_wf; [done|apply W|unfold is_u16; lia]. }
  set (q1 := with_slot q (Z.of_nat i) s'). pose proof (page_wf_slot q M1 (Z.of_nat i) s' Hs') as Hq1.
  assert (Hrl : length (region p s) = Z.to_nat (ts_NameLen s)) by (by apply (length_region p s _ Hwf Hf)).
  assert (Hsl : forall j, 0 <= j -> slot_at (with_heap q1 (1772 - off) (region p s)) j
    = if decide (j = Z.of_nat i) then Some s' else slot_at q j).
  { intros j Hj. apply (slot_at_with q (p_hdr q) (Z.of_nat i) s' _ j M1); lia. }
  assert (Hreg : forall t, name_fits (blen (names p i)) t -> region (with_heap q1 (1772 - off) (region p s)) t = region q t).
  { intros t (T1 & T2 & T3). unfold region at 1. cbn [with_heap with_slot q1 p_heap]. unfold heap_size.
    apply slice_blit_other; [rewrite (wf_heap_len q M1); lia|]. right. unfold heap_size. lia. }
  split.
  - apply page_wf_heap; [done| |lia]. unfold region, slice. apply bytes_take, bytes_drop, Hwf.
  - done.
  - intros j Hj. rewrite Hsl by lia. rewrite decide_False by lia. apply M3. lia.
  - intros j t Hj Et. rewrite Hsl by lia. fold off. case_decide as E.
    + subst j. assert (t = s) as -> by congruence. exists off. fold s'. split_and!; [done| |].
      { unfold name_fits, s'. cbn [set_name ts_NameLen ts_NameOffset]. lia. }
      unfold region at 1. cbn [with_heap with_slot q1 p_heap s' set_name ts_NameLen ts_NameOffset]. unfold heap_size.
      replace (Z.to_nat (1772 - off + ts_NameLen s)) with (Z.to_nat (1772 - off) + length (region p s))%nat by lia.
      apply slice_blit_same. rewrite (wf_heap_len q M1). lia.
    + destruct (M4 j t ltac:(lia) Et) as (o & O1 & O2 & O3). exists o. split_and!; [done| |by rewrite Hreg].
      eapply name_fits_mono; [|exact O2]. lia.
  - intros j k s1 s2 Hj Hk Hjk. rewrite !Hsl by lia.
    assert (Hap : forall j t, 0 <= j < Z.of_nat i -> slot_at q j = Some t -> apart s' t).
    { intros j0 t0 Hj0 Et. destruct (slot_at_lt p Hwf j0 ltac:(lia)) as (t1 & Et1 & _).
      destruct (M4 j0 t1 Hj0 Et1) as (o & O1 & (O2 & O3 & O4) & _). assert (t0 = set_name t1 (ts_NameLen t1) o) as -> by congruence.
      unfold apart. cbn [s' set_name ts_NameLen ts_NameOffset] in *. lia. }
    repeat case_decide; try lia.
    + intros [= <-] Et. apply (Hap k); [lia|done].
    + intros Et [= <-]. apply apart_sym, (Hap j); [lia|done].
    + apply M5; lia.
Qed.

Lemma compact_write_spec p : page_ok p -> forall n i q, (i + n = 64)%nat -> moved p q i ->
  exists q', compact_write (image q) (names p 64) (not64 (tp_FreeSlots (p_hdr p))) n (Z.of_nat i) (blen (names p i))
    = Ret (image q', Some (blen (names p 64))) /\ moved p q' 64.
Proof.
  intros Hp. pose proof (ok_wf p Hp) as Hwf. pose proof (ok_top p Hp) as Ht.
  induction n as [|n IH]; intros i q Hi Hm; cbn [compact_write].
  { replace i with 64%nat in * by lia. by exists q. }
  destruct (slot_at_lt p Hwf (Z.of_nat i) ltac:(lia)) as (s & Es & Hw).
  assert (Es' : p_slots p !! i = Some s) by (unfold slot_at in Es; by rewrite Nat2Z.id in Es).
  assert (Eq : slot_at q (Z.of_nat i) = Some s) by (rewrite (mv_rest p q i Hm); [done|lia]).
  rewrite live_bit by (try done; lia). replace (Z.of_nat i + 1) with (Z.of_nat (S i)) by lia.
  assert (Hskip : live p (Z.of_nat i) = false \/ ((ts_NameOffset s =? 0) || (ts_NameLen s =? 0)) = true ->
    moved p q (S i) /\ names p (S i) = names p i).
  { intros H. pose proof (slot_unnamed p (Z.of_nat i) s Hp ltac:(lia) Es H) as Hz. split.
    - apply (moved_skip p q i s); [done..|lia|done|done].
    - rewrite (names_S p i s Es'), region_nil, app_nil_r by apply Hz. done. }
  destruct (live p (Z.of_nat i)) eqn:Hl; cbn [negb].
  2: { destruct Hskip as [Hm' Hn]; [by left|]. rewrite <- Hn. apply (IH (S i) q); [lia|done]. }
  rewrite (ReadTrieSlot_image q (mv_wf p q i Hm) _ s) by (try done; lia).
  destruct ((ts_NameOffset s =? 0) || _) eqn:Hz.
  { destruct Hskip as [Hm' Hn]; [by right|]. rewrite <- Hn. apply (IH (S i) q); [lia|done]. }
  apply orb_false_iff in Hz as [Hz1 Hz2]. apply Z.eqb_neq in Hz1, Hz2.
  pose proof (ok_fits p Hp (Z.of_nat i) s ltac:(lia) Es) as Hf. pose proof Hf as (F1 & F2 & F3).
  pose proof (names_fit p (S i) Hp) as Hfit. pose proof (length_region p s _ Hwf Hf Ht) as Hrl.
  assert (Hoff : blen (names p (S i)) = blen (names p i) + ts_NameLen s).
  { rewrite (names_S p i s Es'). unfold blen. rewrite length_app, Hrl. lia. }
  assert (H0 : 0 <= blen (names p i)) by (unfold blen; lia). unfold heap_size in Ht.
  rewrite u16_small by (unfold is_u16; lia). rewrite <- Hoff.
  assert (Hs' : codec_wf (set_name s (ts_NameLen s) (blen (names p (S i))))).
  { apply slot_wf_iff in Hw as W. apply set_name_wf; [done|apply W|unfold is_u16; lia]. }
  rewrite (putSlot_image q (mv_wf p q i Hm)) by (try done; lia). cbn [mbind res_bind].
  set (q1 := with_slot q _ _). pose proof (page_wf_slot q (mv_wf p q i Hm) (Z.of_nat i) _ Hs') as Hq1.
  rewrite blen_image by done. assert (Htot : names p 64 = names p i ++ region p s ++ concat (region p <$> drop (S i) (p_slots p))).
  { unfold names. rewrite (take_ge (p_slots p) 64) by (rewrite (wf_count p Hwf); lia).
    rewrite <- (take_drop_middle (p_slots p) i s Es') at 1. by rewrite fmap_app, concat_app. }
  rewrite (proj2 (Z.ltb_ge _ 0)) by lia.
  rewrite (proj2 (Z.ltb_ge (blen (names p 64)) _)) by (rewrite Htot; unfold blen in *; rewrite !length_app in *; lia).
  cbn [orb]. replace (4096 - blen (names p (S i))) with (2324 + (heap_size - blen (names p (S i)))) by (unfold heap_size; lia).
  rewrite blit_image by (try done; unfold heap_size; lia).
  replace (slice (Z.to_nat (blen (names p i))) (Z.to_nat (blen (names p (S i)))) (names p 64)) with (region p s).
  { apply IH; [lia|]. by apply moved_step; [..|lia|done|lia]. }
  rewrite Hoff, Htot. symmetry. replace (Z.to_nat (blen (names p i) + ts_NameLen s)) with
    (Z.to_nat (blen (names p i)) + Z.to_nat (ts_NameLen s))%nat by lia.
  apply slice_app'; unfold blen; lia.
Qed.

(** The page after a compaction whose header is not yet written back. *)
Lemma moved_ok p q : page_ok p -> moved p q 64 ->
  let h := set_free (p_hdr p) (tp_LiveCount (p_hdr p)) (blen (names p 64)) (tp_FreeSlots (p_hdr p)) in
  page_ok (with_hdr q h) /\ forall j, 0 <= j < 64 -> vis <$> cell_at (with_hdr q h) j = vis <$> cell_at p j.
Proof.
  intros Hp [M1 M2 M3 M4 M5] h. pose proof (names_fit p 64 Hp) as Hfit. pose proof (ok_wf p Hp) as Hwf.
  pose proof (page_top_pos p Hp) as Ht. pose proof (proj1 (hdr_wf_iff _) (wf_hdr p Hwf)) as (W1 & W2 & W3 & W4 & W5).
  assert (H0 : 0 <= blen (names p 64)) by (unfold blen; lia).
  assert (Hslot : forall j s, 0 <= j -> slot_at q j = Some s -> exists t, slot_at p j = Some t /\
    s = set_name t (ts_NameLen t) (ts_NameOffset s) /\ name_fits (blen (names p 64)) s /\ region q s = region p t).
  { intros j s Hj Es. pose proof (slot_at_bound q M1 j s Es Hj). destruct (slot_at_lt p Hwf j ltac:(lia)) as (t & Et & _).
    destruct (M4 j t ltac:(lia) Et) as (o & O1 & O2 & O3). exists t.
    assert (s = set_name t (ts_NameLen t) o) as -> by congruence. by split_and!. }
  assert (Hq : page_ok (with_hdr q h)).
  { unfold heap_size in *. split.
    - apply page_wf_hdr; [done| |apply Hwf]. apply hdr_wf_iff. cbn. split_and!; try done; unfold is_u16; lia.
    - unfold top, heap_size. cbn. lia.
    - apply (ok_live p Hp).
    - intros j Hj Hl. destruct (M4 j zero_slot ltac:(lia) (ok_freed p Hp j Hj Hl)) as (o & O1 & (_ & _ & O2) & _).
      unfold slot_at in *. cbn [with_hdr p_slots]. rewrite O1. cbn in O2. by rewrite O2.
    - intros j s Hj Es. by destruct (Hslot j s Hj Es) as (t & _ & _ & ? & _).
    - intros j k s s' Hj Hk Hjk E1 E2. apply (M5 j k); try done; split; try done.
      + by apply (slot_at_bound q M1 j s).
      + by apply (slot_at_bound q M1 k s'). }
  split; [done|]. intros j Hj. unfold cell_at. change (live (with_hdr q h) j) with (live p j).
  destruct (live p j); [|done]. destruct (slot_at_lt q M1 j Hj) as (s & Es & _).
  destruct (Hslot j s ltac:(lia) Es) as (t & Et & E & _ & Hr). change (slot_at (with_hdr q h) j) with (slot_at q j).
  rewrite Es, Et. cbn. unfold vis, cell_of, read_name. cbn [fst snd]. change (region (with_hdr q h) s) with (region q s). rewrite Hr.
  rewrite E. by rewrite core_set_name.
Qed.

Lemma names_0 p : names p 0 = [].
Proof. done. Qed.

Lemma compact_read_all p : page_ok p ->
  compact_read (image p) (not64 (tp_FreeSlots (p_hdr p))) (tp_FreeNameOff (p_hdr p)) 64 0 [] = Ret (Some (names p 64)).
Proof. intros Hp. rewrite <- (names_0 p). apply (compact_read_spec p Hp 64 0). reflexivity. Qed.

Lemma compact_write_all p : page_ok p ->
  exists q, compact_write (image p) (names p 64) (not64 (tp_FreeSlots (p_hdr p))) 64 0 0
    = Ret (image q, Some (blen (names p 64))) /\ moved p q 64.
Proof.
  intros Hp. apply (compact_write_spec p Hp 64 0 p); [reflexivity|]. split; try done; [apply Hp|lia..].
Qed.

Lemma triePageCompactNames_unfold buf pg : (tp_FreeNameOff pg =? 0) = false ->
  triePageCompactNames buf pg =
    (tmp ← compact_read buf (not64 (tp_FreeSlots pg)) (tp_FreeNameOff pg) 64 0 [];
     match tmp with
     | None => Ret (buf, pg, false)
     | Some tmp =>
         '(buf, newOff) ← compact_write buf tmp (not64 (tp_FreeSlots pg)) 64 0 0;
         match newOff with
         | None => Ret (buf, pg, false)
         | Some newOff => Ret (buf, set_free pg (tp_LiveCount pg) newOff (tp_FreeSlots pg), true)
         end
     end).
Proof. intros H. unfold triePageCompactNames. rewrite H. reflexivity. Qed.

Lemma triePageCompactNames_image p : page_ok p -> top p <> 0 ->
  exists q, moved p q 64 /\ triePageCompactNames (image p) (p_hdr p)
    = Ret (image q, set_free (p_hdr p) (tp_LiveCount (p_hdr p)) (blen (names p 64)) (tp_FreeSlots (p_hdr p)), true).
Proof.
  intros Hp Ht. destruct (compact_write_all p Hp) as (q & E & Hm). exists q. split; [exact Hm|].
  rewrite (triePageCompactNames_unfold _ _ (proj2 (Z.eqb_neq (tp_FreeNameOff (p_hdr p)) 0) Ht)).
  by rewrite (compact_read_all p Hp), bind_ret, E, bind_ret.
Qed.

(** ** Storing a name *)

(** The part of [trieStoreName] between reading the page and saving it: the
    page, whether it is saved, and the error. *)
Definition store_name (buf : list Z) (slot : Z) (name : list Z) : res trie_error (list Z * bool * option trie_error) :=
  pg ← ReadTriePage buf;
  s ← ReadTrieSlot buf slot;
  '(buf, pg, s, compacted, err) ← triePageAllocName buf pg s (blen name);
  match err with
  | Some e =>
      if (compacted : bool) then buf ← putPage buf pg; Ret (buf, true, Some (Errno e))
      else Ret (buf, false, Some (Errno e))
  | None =>
      if (length name =? 0)%nat then
        buf ← putPage buf pg;
        buf ← putSlot buf slot (set_name s 0 0);
        Ret (buf, true, None)
      else
        match WriteTrieName buf (ts_NameOffset s) name with
        | Err e => Ret (buf, false, Some e)
        | Panic => Panic
        | Ret (buf, nameLen) =>
            buf ← putPage buf pg;
            buf ← putSlot buf slot (set_name s nameLen (ts_NameOffset s));
            Ret (buf, true, None)
        end
  end.

(** A page with a reservation of [n] bytes for the live slot [i]. *)
Definition reserved (p q : page) (h : TriePage) (i n : Z) (s' : TrieSlot) : Prop :=
  page_wf q /\ page_ok (mkPage h (<[Z.to_nat i := s']> (p_slots q)) (p_heap q)) /\ codec_wf s' /\
  n <= ts_NameLen s' /\ live (with_hdr q h) i = true /\
  (exists s, slot_at p i = Some s /\ core s' = core s) /\
  forall j, 0 <= j < 64 -> j <> i ->
    vis <$> cell_at (mkPage h (<[Z.to_nat i := s']> (p_slots q)) (p_heap q)) j = vis <$> cell_at p j.

(** Reserving fresh heap space for a live slot. *)
Lemma page_reserve p i s n : page_ok p -> 0 <= i < 64 -> live p i = true -> slot_at p i = Some s ->
  0 < n -> top p + n <= heap_size ->
  reserved p p (set_free (p_hdr p) (tp_LiveCount (p_hdr p)) (top p + n) (tp_FreeSlots (p_hdr p))) i n
    (set_name s n (top p + n)).
Proof.
  intros Hp Hi Hl Es Hn Ht. pose proof (ok_wf p Hp) as Hwf. pose proof (page_top_pos p Hp) as Hto.
  pose proof (proj1 (hdr_wf_iff _) (wf_hdr p Hwf)) as (W1 & W2 & W3 & W4 & W5). unfold heap_size in *.
  destruct (slot_at_lt p Hwf i Hi) as (s0 & Es0 & Hw). assert (s0 = s) as -> by congruence.
  assert (Hs' : codec_wf (set_name s n (top p + n))) by (apply set_name_wf; [done|unfold is_u16; lia..]).
  set (h := set_free _ _ _ _). assert (Hh : codec_wf h).
  { apply hdr_wf_iff. cbn. split_and!; try done; unfold is_u16; lia. }
  assert (Htop : top p <= tp_FreeNameOff h <= heap_size) by (unfold heap_size; cbn; lia).
  assert (Hbits : forall j, 0 <= j < 64 -> j <> i -> Z.testbit (tp_FreeSlots h) j = Z.testbit (tp_FreeSlots (p_hdr p)) j) by done.
  assert (Hfree : Z.testbit (tp_FreeSlots h) i = true -> set_name s n (top p + n) = zero_slot).
  { unfold live in Hl. apply negb_true_iff in Hl. cbn. congruence. }
  assert (Hf : name_fits (tp_FreeNameOff h) (set_name s n (top p + n))) by (unfold name_fits; cbn; lia).
  assert (Hap : forall j t, 0 <= j -> j <> i -> slot_at p j = Some t -> apart (set_name s n (top p + n)) t).
  { intros j t Hj Hji Et. destruct (ok_fits p Hp j t Hj Et) as (? & ? & ?). unfold apart. cbn. lia. }
  split_and!; try done.
  - apply (change_ok p Hp h i _ (p_heap p)); try done; [apply Hwf|apply Hp|apply Hwf..].
  - by exists s.
  - intros j Hj Hji. rewrite (change_cell p Hp h i _ (p_heap p)); try done; [|apply Hwf]. by rewrite decide_False.
Qed.

(** A page on which only where the names are may have changed. *)
Definition same_cells (p p' : page) : Prop := forall j, 0 <= j < 64 -> vis <$> cell_at p' j = vis <$> cell_at p j.

Lemma full_iff p n : page_ok p -> 0 <= n <= 300 ->
  (u64 (4096 - triePageDataEnd) <? u64 (tp_FreeNameOff (p_hdr p) + n)) = (heap_size <? top p + n).
Proof.
  intros Hp Hn. pose proof (page_top_pos p Hp) as Ht. unfold heap_size in *. change (u64 (4096 - triePageDataEnd)) with 1772.
  unfold top in *. by rewrite u64_small by (unfold is_u64; lia).
Qed.

(** Reserving after a compaction. *)
Lemma moved_reserve p q i s n : page_ok p -> moved p q 64 -> 0 <= i < 64 -> live p i = true -> slot_at p i = Some s ->
  0 < n -> blen (names p 64) + n <= heap_size ->
  reserved p q (set_free (p_hdr p) (tp_LiveCount (p_hdr p)) (blen (names p 64) + n) (tp_FreeSlots (p_hdr p))) i n
    (set_name s n (blen (names p 64) + n)).
Proof.
  intros Hp Hm Hi Hl Es Hn Ht. destruct (moved_ok p q Hp Hm) as [Hq Hc].
  set (h := set_free (p_hdr p) _ (blen (names p 64)) _) in *.
  destruct (mv_done p q 64 Hm i s ltac:(lia) Es) as (o & Eq & _).
  destruct (page_reserve (with_hdr q h) i (set_name s (ts_NameLen s) o) n Hq Hi Hl Eq Hn Ht)
    as (R1 & R2 & R3 & R4 & R5 & _ & R7).
  split_and!; [apply Hm|exact R2|exact R3|exact R4|exact R5|by exists s|].
  intros j Hj Hji. rewrite <- Hc by done. exact (R7 j Hj Hji).
Qed.

Lemma triePageAllocName_image p i s len : page_ok p -> 0 <= i < 64 -> live p i = true -> slot_at p i = Some s ->
  1 <= len <= BrieFSMaxNameLen ->
  exists q h s' c err, triePageAllocName (image p) (p_hdr p) s len = Ret (image q, h, s', c, err) /\
    match err with
    | None => reserved p q h i (len + 2) s'
    | Some e => e = ENOSPC /\ page_wf q /\ codec_wf h /\ page_ok (with_hdr q h) /\ same_cells p (with_hdr q h) /\
        (c = false -> q = p) /\ ts_NameLen s < len + 2
    end.
Proof.
  unfold BrieFSMaxNameLen. intros Hp Hi Hl Es Hlen. pose proof (ok_wf p Hp) as Hwf.
  unfold triePageAllocName. unfold BrieFSMaxNameLen.
  rewrite (proj2 (Z.eqb_neq len 0)), (proj2 (Z.ltb_ge 255 _)) by lia. rewrite u16_small by (unfold is_u16; lia).
  destruct ((0 <? ts_NameOffset s) && _) eqn:Er.
  { apply andb_true_iff in Er as [_ Er]. apply Z.leb_le in Er. exists p, (p_hdr p), s, false, None. split; [done|].
    assert (Ep : mkPage (p_hdr p) (<[Z.to_nat i:=s]> (p_slots p)) (p_heap p) = p)
      by (rewrite list_insert_id by done; by destruct p).
    destruct (slot_at_lt p Hwf i Hi) as (s0 & Es0 & Hw). assert (s0 = s) as -> by congruence.
    unfold reserved. rewrite Ep. split_and!; try done. by exists s. }
  assert (Hshort : ts_NameLen s < len + 2).
  { destruct (ok_fits p Hp i s ltac:(lia) Es) as (? & ? & ?). apply andb_false_iff in Er as [Er|Er].
    - apply Z.ltb_ge in Er. lia.
    - by apply Z.leb_gt in Er. }
  rewrite blen_image by done. rewrite full_iff by (try done; lia).
  destruct (heap_size <? top p + (len + 2)) eqn:Ef.
  2: { apply Z.ltb_ge in Ef. rewrite bind_ret, full_iff, (proj2 (Z.ltb_ge _ _) Ef) by (try done; lia).
       eexists p, _, _, _, None. split; [done|]. pose proof (page_top_pos p Hp). unfold heap_size in *.
       change (tp_FreeNameOff (p_hdr p)) with (top p). rewrite u16_small by (unfold is_u16; lia).
       apply page_reserve; try done; unfold heap_size; lia. }
  apply Z.ltb_lt in Ef. destruct (triePageCompactNames_image p Hp) as (q & Hm & ->); [unfold heap_size in *; lia|].
  rewrite bind_ret. destruct (moved_ok p q Hp Hm) as [Hq Hc]. pose proof (full_iff _ (len + 2) Hq ltac:(lia)) as F2.
  set (h := set_free (p_hdr p) _ (blen (names p 64)) _) in *. cbn [with_hdr p_hdr] in F2. rewrite F2.
  assert (H0 : 0 <= blen (names p 64)) by (unfold blen; lia).
  change (top (with_hdr q h)) with (blen (names p 64)).
  destruct (heap_size <? blen (names p 64) + (len + 2)) eqn:Ef2.
  - eexists q, h, s, true, _. split; [done|]. split_and!; try done; [apply Hm|apply (wf_hdr _ (ok_wf _ Hq))].
  - apply Z.ltb_ge in Ef2. eexists q, _, _, false, None. split; [done|]. change (tp_FreeNameOff h) with (blen (names p 64)).
    rewrite u16_small by (unfold is_u16, heap_size in *; lia). apply moved_reserve; try done; lia.
Qed.

(** The bytes of a stored name. *)
Definition name_bytes (name : list Z) : list Z := le_put 2 (blen name) ++ name.

Lemma length_name_bytes name : length (name_bytes name) = Z.to_nat (blen name + 2).
Proof. unfold name_bytes, blen. rewrite length_app, length_le_put. lia. Qed.

Lemma parse_name_bytes name : 1 <= blen name <= BrieFSMaxNameLen ->
  parse_name (name_bytes name) (blen name + 2) = Some name.
Proof.
  unfold BrieFSMaxNameLen. intros H. unfold parse_name, name_bytes, BrieFSMaxNameLen.
  rewrite take_app_length' by (by rewrite length_le_put). rewrite le_get_put by lia.
  rewrite (proj2 (Z.ltb_ge _ 2)), (proj2 (Z.ltb_ge (255 + 2) _)) by lia. cbn [orb].
  rewrite (proj2 (Z.ltb_ge _ 1)), (proj2 (Z.ltb_ge 255 _)), Z.eqb_refl by lia. cbn [orb negb].
  by rewrite drop_app_length' by (by rewrite length_le_put).
Qed.

(** Writing a name into the reservation of a live slot. *)
Lemma page_write_name p i s name : page_ok p -> 0 <= i < 64 -> live p i = true -> slot_at p i = Some s ->
  1 <= blen name <= BrieFSMaxNameLen -> bytes name -> blen name + 2 <= ts_NameLen s ->
  let p' := mkPage (p_hdr p) (<[Z.to_nat i := set_name s (blen name + 2) (ts_NameOffset s)]> (p_slots p))
              (blit (Z.to_nat (heap_size - ts_NameOffset s)) (name_bytes name) (p_heap p)) in
  page_ok p' /\ cell_at p' i = Some (set_name s (blen name + 2) (ts_NameOffset s), Some name) /\
  forall j, 0 <= j < 64 -> j <> i -> cell_at p' j = cell_at p j.
Proof.
  intros Hp Hi Hl Es Hlen Hb Hn p'. unfold BrieFSMaxNameLen in Hlen. pose proof (ok_wf p Hp) as Hwf. pose proof (ok_top p Hp) as Ht.
  destruct (ok_fits p Hp i s ltac:(lia) Es) as (F1 & F2 & F3). pose proof (length_name_bytes name) as Hlw.
  destruct (slot_at_lt p Hwf i Hi) as (s0 & Es0 & Hw). assert (s0 = s) as -> by congruence.
  set (s2 := set_name s (blen name + 2) (ts_NameOffset s)) in *. unfold heap_size in *.
  assert (Hs2 : codec_wf s2) by (apply set_name_wf; [done|unfold is_u16; lia|by apply slot_wf_iff]).
  assert (Hf : name_fits (tp_FreeNameOff (p_hdr p)) s2) by (unfold name_fits, s2, top in *; cbn; lia).
  assert (Hap : forall j t, 0 <= j -> j <> i -> slot_at p j = Some t -> apart s2 t).
  { intros j t Hj Hji Et. pose proof (ok_apart p Hp i j s t ltac:(lia) Hj ltac:(done) Es Et) as A.
    unfold apart, s2 in *. cbn in *. lia. }
  assert (Hfi : Z.testbit (tp_FreeSlots (p_hdr p)) i = false) by (unfold live in Hl; by apply negb_true_iff in Hl).
  assert (Hf2 : Z.testbit (tp_FreeSlots (p_hdr p)) i = true -> s2 = zero_slot) by congruence.
  set (heap' := blit _ _ _) in *. pose proof (wf_heap_len p Hwf) as HL.
  assert (Hlh : length heap' = 1772%nat) by (unfold heap'; rewrite length_blit; lia).
  assert (Hbh : bytes heap').
  { unfold heap', blit. pose proof (wf_heap p Hwf). rewrite !bytes_app. split_and!; auto with briefs.
    apply bytes_take, bytes_app. auto with briefs. }
  assert (Hheap : forall a b, 0 <= a <= b -> b <= heap_size ->
    b <= heap_size - ts_NameOffset s2 \/ heap_size - ts_NameOffset s2 + ts_NameLen s2 <= a ->
    slice (Z.to_nat a) (Z.to_nat b) heap' = slice (Z.to_nat a) (Z.to_nat b) (p_heap p)).
  { unfold heap_size. intros a b Ha Hb' Hd. apply slice_blit_other; rewrite Hlw; [lia|]. unfold s2 in Hd. cbn in Hd. lia. }
  assert (Htop : top p <= tp_FreeNameOff (p_hdr p) <= heap_size) by (split; [reflexivity|exact Ht]).
  split_and!.
  - apply (change_ok p Hp (p_hdr p) i s2 heap'); try done; [apply Hwf|apply Hwf|apply Hp].
  - rewrite (change_cell p Hp (p_hdr p) i s2 heap'); try done. rewrite decide_True, Hfi by done. unfold cell_of.
    do 2 f_equal. unfold read_name, region. cbn [s2 set_name ts_NameLen ts_NameOffset p_heap].
    replace (Z.to_nat (heap_size - ts_NameOffset s + (blen name + 2))) with
      (Z.to_nat (heap_size - ts_NameOffset s) + length (name_bytes name))%nat by (rewrite Hlw; unfold heap_size; lia).
    unfold heap'. change heap_size with 1772. rewrite slice_blit_same by (rewrite Hlw; lia). by apply parse_name_bytes.
  - intros j Hj Hji. rewrite (change_cell p Hp (p_hdr p) i s2 heap'); try done. by rewrite decide_False.
Qed.

(** What a successful store does to the page. *)
Definition stored_name (p q : page) (i : Z) (name : list Z) : Prop :=
  page_ok q /\ (exists s s2, slot_at p i = Some s /\ cell_at q i = Some (s2, Some name) /\ core s2 = core s) /\
  forall j, 0 <= j < 64 -> j <> i -> vis <$> cell_at q j = vis <$> cell_at p j.

Lemma reserved_store p q h i s' name : reserved p q h i (blen name + 2) s' -> 0 <= i < 64 ->
  1 <= blen name <= BrieFSMaxNameLen -> bytes name ->
  exists q1 q', WriteTrieName (image q) (ts_NameOffset s') name = Ret (image q1, blen name + 2) /\
    (buf ← putPage (image q1) h; putSlot buf i (set_name s' (blen name + 2) (ts_NameOffset s'))) = Ret (image q') /\
    stored_name p q' i name.
Proof.
  unfold BrieFSMaxNameLen. intros (Hq & Hok & Hs' & Hn & Hl & (s & Es & Ec) & Hcells) Hi Hlen Hb.
  set (p1 := mkPage h _ _) in *. pose proof (ok_wf p1 Hok) as Hw1. pose proof (ok_top p1 Hok) as Ht.
  assert (E1 : slot_at p1 i = Some s') by (unfold p1; rewrite slot_at_with by (try done; lia); by rewrite decide_True).
  destruct (ok_fits p1 Hok i s' ltac:(lia) E1) as (F1 & F2 & F3). unfold heap_size in *.
  destruct (page_write_name p1 i s' name Hok Hi Hl E1 Hlen Hb Hn) as (K1 & K2 & K3).
  set (q1 := with_heap q (heap_size - ts_NameOffset s') (name_bytes name)).
  assert (Hq1 : page_wf q1).
  { apply page_wf_heap; [done|apply bytes_app; split; [apply bytes_le_put|done]|unfold heap_size; lia]. }
  assert (Hq2 : page_wf (with_hdr q1 h)) by (apply page_wf_hdr; [done|apply Hw1..]).
  eexists q1, _. split.
  { assert (Hne : name <> []) by (intros ->; unfold blen in Hlen; simpl in Hlen; lia).
    apply WriteTrieName_image; try done; unfold heap_size, BrieFSMaxNameLen; lia. }
  rewrite (putPage_image _ Hq1) by apply Hw1. rewrite bind_ret, (putSlot_image _ Hq2).
  2: done. 2: { apply set_name_wf; [done|unfold is_u16; lia|by apply slot_wf_iff]. }
  split; [done|]. cbn [p1 p_hdr p_slots p_heap] in *. rewrite list_insert_insert_eq in *.
  split_and!; [exact K1|by eexists s, _|].
  intros j Hj Hji. rewrite <- Hcells by done. by rewrite K3.
Qed.

(** [trieStoreName] on the page: the name is stored, or the heap is full of
    live names and nothing a client sees has changed. *)
Lemma store_name_spec p i name c : page_ok p -> 0 <= i < 64 -> cell_at p i = Some c ->
  1 <= blen name <= BrieFSMaxNameLen -> bytes name ->
  exists q saved err, store_name (image p) i name = Ret (image q, saved, err) /\
    match err with
    | None => saved = true /\ page_ok q /\
        (exists s, cell_at q i = Some (s, Some name) /\ core s = core (fst c)) /\
        forall j, 0 <= j < 64 -> j <> i -> vis <$> cell_at q j = vis <$> cell_at p j
    | Some e => e = Errno ENOSPC /\ page_ok q /\ same_cells p q /\ (saved = false -> q = p) /\
        ts_NameLen (fst c) < blen name + 2
    end.
Proof.
  intros Hp Hi Hc Hlen Hb. destruct (live_slot p i c Hp Hi Hc) as (s & Es & Hw & Hl & -> & Hf & _).
  pose proof (ok_wf p Hp) as Hwf. unfold store_name.
  rewrite (ReadTriePage_image p Hwf), bind_ret, (ReadTrieSlot_image p Hwf i s), bind_ret by (try done; lia).
  destruct (triePageAllocName_image p i s (blen name) Hp Hi Hl Es Hlen) as (q & h & s' & c & err & -> & Herr).
  rewrite bind_ret. destruct err as [e|].
  - destruct Herr as (-> & Hq & Hh & Hok & Hsame & Hc0 & Hlt). destruct c.
    + rewrite (putPage_image q Hq) by done. rewrite bind_ret. eexists (with_hdr q h), true, _. split; [done|]. by split_and!.
    + eexists q, false, _. split; [done|]. rewrite Hc0 in * by done. by split_and!.
  - rewrite (proj2 (Nat.eqb_neq _ _)) by (unfold blen in Hlen; lia).
    destruct (reserved_store p q h i s' name Herr Hi Hlen Hb) as (q1 & q' & -> & E & Hok & (s0 & s2 & Es2 & Hc2 & Ec2) & Hcs).
    assert (s0 = s) as -> by congruence. exists q', true, None. split; [|by split_and!; [..|exists s2|]].
    revert E. destruct (putPage (image q1) h) as [b|e|]; [rewrite !bind_ret|done|done]. by intros ->.
Qed.
