(* ===== verification/Trie.v ===== *)
(** * Directory tries (fuse/trie.go, fuse/trie_mutate.go, fuse/cache.go)

    The code of the bridge that looks up, inserts, updates and removes names in
    a directory's trie.  A node is a slot of a trie page; pages are read through
    the block cache of the running operation, which hands out the same buffer
    for every read of a block.  The model has that store: [t_heap] holds the
    buffers, [t_cache] maps blocks to buffers, and the code works on buffer
    addresses, so that two roles of one operation on one page share its bytes.

    What lies below the cache is the interface [TrieWorld]: reading a block, the
    data allocator, the journal and the queue of frees that wait for a commit.
    The block size is 4096. *)

From stdpp Require Import base numbers list option gmap.
From Stdlib Require Import ZArith Lia.
From S2P Require Import Prelude Codec Bits TriePage.

Local Open Scope Z_scope.

(** ** The interface *)
Class TrieWorld (W : Type) := {
  tw_read : W -> Z -> option (list Z);          (* dev.ReadBlock *)
  tw_alloc : W -> W * Z;                        (* dataAlloc.AllocBlock: 0 when full *)
  tw_free : Z -> W -> W;                        (* dataAlloc.FreeBlock *)
  tw_record : list Z -> W -> W * bool;          (* journal.WriteRecord(JRN_TRIE_ALLOC, ..) failed? *)
  tw_defer : Z -> W -> W;                       (* deferBlockFree *)
  tw_start : Z;                                 (* dataRegionStart *)
}.

(** ** The state of an operation *)
Record tstate (W : Type) := mkT {
  t_w : W;
  t_heap : list (list Z);
  t_cache : gmap Z nat;
  t_dirty : gset Z;
  t_partials : list Z;
  t_inReplay : bool;
  t_replay : list Z;
}.
Arguments mkT {W}.
Arguments t_w {W}.
Arguments t_heap {W}.
Arguments t_cache {W}.
Arguments t_dirty {W}.
Arguments t_partials {W}.
Arguments t_inReplay {W}.
Arguments t_replay {W}.

(** ** A state monad with errors and panics *)
Definition SM (S A : Type) : Type := S -> S * res trie_error A.

#[export] Instance SM_ret S : MRet (SM S) := fun A a s => (s, Ret a).
#[export] Instance SM_bind S : MBind (SM S) := fun A B k m s =>
  match m s with
  | (s', Ret a) => k a s'
  | (s', Err e) => (s', Err e)
  | (s', Panic) => (s', Panic)
  end.

Section monad.
Context {S : Type}.

Definition lift {A} (x : res trie_error A) : SM S A := fun s => (s, x).
Definition fail {A} (e : trie_error) : SM S A := fun s => (s, Err e).

(** [if err == nil { k } else { h }] *)
Definition try {A B} (m : SM S A) (k : A -> SM S B) (h : trie_error -> SM S B) : SM S B := fun s =>
  match m s with
  | (s', Ret a) => k a s'
  | (s', Err e) => h e s'
  | (s', Panic) => (s', Panic)
  end.

(** [_ = m] *)
Definition ignore {A} (m : SM S A) : SM S unit := try m (fun _ => mret tt) (fun _ => mret tt).

End monad.

(** ** Slots with changed fields *)
Section fields.
Context (s : TrieSlot).

Definition set_links (first next count : Z) : TrieSlot :=
  mkTrieSlot first next (ts_Inode s) (ts_NameLen s) (ts_NameOffset s) (ts_Depth s)
    (ts_NodeType s) (ts_ByteVal s) (ts_FType s) (ts_Flags s) count.
Definition set_first (first : Z) : TrieSlot := set_links first (ts_NextSibling s) (ts_ChildCount s).
Definition set_next (next : Z) : TrieSlot := set_links (ts_FirstChild s) next (ts_ChildCount s).
Definition set_count (count : Z) : TrieSlot := set_links (ts_FirstChild s) (ts_NextSibling s) count.
Definition set_kind (depth byteVal nodeType : Z) : TrieSlot :=
  mkTrieSlot (ts_FirstChild s) (ts_NextSibling s) (ts_Inode s) (ts_NameLen s) (ts_NameOffset s) depth
    nodeType byteVal (ts_FType s) (ts_Flags s) (ts_ChildCount s).
Definition set_entry (nodeType ino ftype : Z) : TrieSlot :=
  mkTrieSlot (ts_FirstChild s) (ts_NextSibling s) ino (ts_NameLen s) (ts_NameOffset s) (ts_Depth s)
    nodeType (ts_ByteVal s) ftype (ts_Flags s) (ts_ChildCount s).

End fields.

(** ** Sibling chains

    [readNode] is the cached read of the mutating operations or the device read
    of a lookup.  [fuel] counts the hops that are left of [TrieSiblingMax]. *)
Fixpoint scan_siblings {S} (readNode : Z -> SM S TrieSlot) (fuel : nat) (parentRef cur prev byteVal : Z)
    : SM S (Z * Z) :=
  if TrieRefIsNull cur then mret (0, 0) else
  match fuel with
  | O => fail (ErrSiblings parentRef)
  | Datatypes.S fuel =>
      cnode ← readNode cur;
      if ts_ByteVal cnode =? byteVal then mret (cur, prev)
      else scan_siblings readNode fuel parentRef (ts_NextSibling cnode) cur byteVal
  end.

Definition trieScanSiblings {S} (readNode : Z -> SM S TrieSlot) (parentRef firstChild byteVal : Z) : SM S (Z * Z) :=
  scan_siblings readNode (Z.to_nat TrieSiblingMax) parentRef firstChild 0 byteVal.

(** ** Lookup, which reads the device *)
Section lookup.
(** [readBlock] is the device with the deferred blocks in front of it. *)
Context (readBlock : Z -> option (list Z)).

Definition trieReadNode (nodeRef : Z) : SM unit (list Z * TrieSlot) :=
  let block := TrieRefBlock nodeRef in
  match readBlock block with
  | None => fail (ErrTrieRead block)
  | Some buf =>
      _ ← lift (ReadTriePage buf);
      node ← lift (ReadTrieSlot buf (TrieRefSlot nodeRef));
      mret (buf, node)
  end.

Definition TrieFindChild (parentRef byteVal : Z) : SM unit Z :=
  '(_, pnode) ← trieReadNode parentRef;
  '(child, _) ← trieScanSiblings (fun ref => '(_, cnode) ← trieReadNode ref; mret cnode)
                  parentRef (ts_FirstChild pnode) byteVal;
  mret child.

(** The loop over the positions; [rest] is the name from there on. *)
Fixpoint lookup_loop (name rest : list Z) (cur : Z) : SM unit (Z * Z) :=
  match rest with
  | [] => fail (ErrNotFound)
  | bval :: rest =>
      child ← TrieFindChild cur bval;
      if TrieRefIsNull child then fail (ErrNotFound) else
      '(cbuf, node) ← trieReadNode child;
      match rest with
      | [] =>
          if negb (TrieIsLeaf (ts_NodeType node)) then fail (ErrNotFound) else
          leafName ← lift (ReadTrieName cbuf (ts_NameLen node) (ts_NameOffset node));
          if bool_decide (leafName = name) then mret (ts_Inode node, ts_FType node) else fail (ErrNotFound)
      | _ =>
          if Z.land (ts_NodeType node) NodeTypeInterm =? 0 then
            leafName ← lift (ReadTrieName cbuf (ts_NameLen node) (ts_NameOffset node));
            if bool_decide (leafName = name) then mret (ts_Inode node, ts_FType node) else fail (ErrNotFound)
          else lookup_loop name rest child
      end
  end.

Definition TrieLookup (dirTrieRoot : Z) (name : list Z) : SM unit (Z * Z) :=
  if TrieRefIsNull dirTrieRoot then fail ErrNoTrieRoot else lookup_loop name name dirTrieRoot.

End lookup.

(** ** The operation's block cache *)
Section ops.
Context {W : Type} `{TW : TrieWorld W}.

Abbreviation T := (SM (tstate W)).

Definition set_w (w : W) (s : tstate W) : tstate W :=
  mkT w (t_heap s) (t_cache s) (t_dirty s) (t_partials s) (t_inReplay s) (t_replay s).
Definition set_cache (heap : list (list Z)) (cache : gmap Z nat) (dirty : gset Z) (s : tstate W) : tstate W :=
  mkT (t_w s) heap cache dirty (t_partials s) (t_inReplay s) (t_replay s).
Definition set_partials (l : list Z) (s : tstate W) : tstate W :=
  mkT (t_w s) (t_heap s) (t_cache s) (t_dirty s) l (t_inReplay s) (t_replay s).
Definition set_replay (l : list Z) (s : tstate W) : tstate W :=
  mkT (t_w s) (t_heap s) (t_cache s) (t_dirty s) (t_partials s) (t_inReplay s) l.

Definition modify (f : tstate W -> tstate W) : T unit := fun s => (f s, Ret tt).

(** The bytes of a buffer; [write_buf] changes them in place. *)
Definition read_buf (a : nat) : T (list Z) := fun s =>
  (s, match t_heap s !! a with Some buf => Ret buf | None => Panic end).
Definition write_buf (a : nat) (buf : list Z) : T unit :=
  modify (fun s => set_cache (<[a := buf]> (t_heap s)) (t_cache s) (t_dirty s) s).
Definition new_buf (buf : list Z) : T nat := fun s =>
  (set_cache (t_heap s ++ [buf]) (t_cache s) (t_dirty s) s, Ret (length (t_heap s))).

Definition cacheBegin : T unit := modify (fun s => set_cache (t_heap s) ∅ ∅ s).

Definition loadBlock (block : Z) : T nat := fun s =>
  match t_cache s !! block with
  | Some a => (s, Ret a)
  | None =>
      match tw_read (t_w s) block with
      | None => (s, Err (ErrTrieRead block))
      | Some buf =>
          let a := length (t_heap s) in
          (set_cache (t_heap s ++ [buf]) (<[block := a]> (t_cache s)) (t_dirty s) s, Ret a)
      end
  end.

(** It returns a nil error always. *)
Definition saveBlock (block : Z) (a : nat) : T unit :=
  modify (fun s => set_cache (t_heap s) (<[block := a]> (t_cache s)) ({[block]} ∪ t_dirty s) s).

Definition cacheDrop (block : Z) : T unit :=
  modify (fun s => set_cache (t_heap s) (delete block (t_cache s)) (t_dirty s ∖ {[block]}) s).

(** [putPage] and [putSlot] on a buffer. *)
Definition put_page (a : nat) (pg : TriePage) : T unit :=
  buf ← read_buf a; buf ← lift (putPage buf pg); write_buf a buf.
Definition put_slot (a : nat) (slot : Z) (s : TrieSlot) : T unit :=
  buf ← read_buf a; buf ← lift (putSlot buf slot s); write_buf a buf.

Definition trieRead (ref : Z) : T (nat * TrieSlot) :=
  a ← loadBlock (TrieRefBlock ref);
  buf ← read_buf a;
  _ ← lift (ReadTriePage buf);
  node ← lift (ReadTrieSlot buf (TrieRefSlot ref));
  mret (a, node).

(** [putSlot(buf, slot(ref), node); return b.saveBlock(block(ref), buf)] *)
Definition save_slot (a : nat) (ref : Z) (node : TrieSlot) : T unit :=
  _ ← put_slot a (TrieRefSlot ref) node;
  saveBlock (TrieRefBlock ref) a.

Definition trieFindChildWithPrev (parent byteVal : Z) : T (Z * Z) :=
  '(_, pnode) ← trieRead parent;
  trieScanSiblings (fun ref => '(_, cnode) ← trieRead ref; mret cnode) parent (ts_FirstChild pnode) byteVal.

Definition trieFindChild (parent byteVal : Z) : T Z :=
  '(child, _) ← trieFindChildWithPrev parent byteVal;
  mret child.

(** ** Pages and nodes *)
Definition addPartial (block : Z) : T unit :=
  modify (fun s => if bool_decide (block ∈ t_partials s) then s else set_partials (t_partials s ++ [block]) s).
Definition removePartial (block : Z) : T unit :=
  modify (fun s => set_partials (base.filter (fun e => e <> block) (t_partials s)) s).

(** A block for a page: the last one replay recorded, or a new one. *)
Definition page_block : T Z := fun s =>
  match t_inReplay s, last (t_replay s) with
  | true, Some rel => (set_replay (take (length (t_replay s) - 1) (t_replay s)) s, Ret rel)
  | _, _ => let '(w, rel) := tw_alloc (t_w s) in (set_w w s, Ret rel)
  end.

(** [b.journal.WriteRecord(JRN_TRIE_ALLOC, ...)] *)
Definition write_record (block op : Z) : T unit := fun s =>
  match tw_record (Marshal (mkJrnTrieAlloc block op 0)) (t_w s) with
  | (w, true) => (set_w w s, Err ErrTrieJournal)
  | (w, false) => (set_w w s, Ret tt)
  end.

Definition new_page (depth byteVal nodeType : Z) : res trie_error (list Z) :=
  buf ← putPage (zeros 4096) (mkTriePage MagicTriePage 1 1 0 (not64 1));
  putSlot buf 0 (mkTrieSlot 0 0 0 0 0 depth nodeType byteVal 0 0 0).

Definition triePageInit (depth byteVal nodeType : Z) : T Z :=
  rel ← page_block;
  if rel =? 0 then fail (Errno ENOSPC) else
  let block := u64 (tw_start + rel) in
  buf ← lift (new_page depth byteVal nodeType);
  a ← new_buf buf;
  _ ← saveBlock block a;
  try (write_record block 0)
    (fun _ => _ ← addPartial block; mret (TrieMakeRef block 0))
    (fun e => _ ← modify (fun s => set_w (tw_free rel (t_w s)) s); fail e).

(** The scan of the partial pool: what stays in it, and the node if one was
    found.  Once found, the other blocks stay. *)
Fixpoint scan_partials (blocks : list Z) (nameSize : Z) : T (list Z * option Z) :=
  match blocks with
  | [] => mret ([], None)
  | block :: blocks =>
      let keep (m : T (list Z * option Z)) := '(out, r) ← m; mret (block :: out, r) in
      try (a ← loadBlock block; buf ← read_buf a; pg ← lift (ReadTriePage buf); mret (a, pg))
        (fun '(a, pg) =>
           if negb (triePageHasNameHeap pg 4096 nameSize) then keep (scan_partials blocks nameSize) else
           match triePageAllocSlot pg with
           | (_, None) => scan_partials blocks nameSize
           | (pg, Some slot) =>
               let '(pg, s) := if 0 <? nameSize then reserveNameHeap pg zero_slot nameSize else (pg, zero_slot) in
               _ ← put_page a pg;
               _ ← put_slot a slot s;
               _ ← saveBlock block a;
               mret ((if tp_FreeSlots pg =? 0 then blocks else block :: blocks), Some (TrieMakeRef block slot))
           end)
        (fun _ => scan_partials blocks nameSize)
  end.

Definition trieAllocNode (nameLen : Z) : T Z :=
  let nameSize := if 0 <? nameLen then u16 (nameLen + 2) else 0 in
  '(out, found) ← (fun s => scan_partials (t_partials s) nameSize s);
  _ ← modify (set_partials out);
  match found with
  | Some ref => mret ref
  | None =>
      r ← triePageInit 0 0 0;
      if 0 <? nameSize then
        let block := TrieRefBlock r in
        a ← loadBlock block;
        buf ← read_buf a;
        pg ← lift (ReadTriePage buf);
        s ← lift (ReadTrieSlot buf 0);
        let '(pg, s) := reserveNameHeap pg s nameSize in
        _ ← put_page a pg;
        _ ← put_slot a 0 s;
        _ ← saveBlock block a;
        mret r
      else mret r
  end.

Definition trieFreeNode (ref : Z) : T unit :=
  if TrieRefIsNull ref then mret tt else
  let block := TrieRefBlock ref in
  let slot := TrieRefSlot ref in
  a ← loadBlock block;
  buf ← read_buf a;
  pg ← lift (ReadTriePage buf);
  if slot_free pg slot then mret tt else
  let pg := set_free pg (u16 (tp_LiveCount pg - 1)) (tp_FreeNameOff pg) (Z.lor (tp_FreeSlots pg) (shl64 1 slot)) in
  _ ← put_slot a slot zero_slot;
  if negb (tp_LiveCount pg =? 0) then
    _ ← (if negb (tp_FreeSlots pg =? 0) then addPartial block else mret tt);
    _ ← put_page a pg;
    saveBlock block a
  else
    _ ← cacheDrop block;
    _ ← removePartial block;
    _ ← write_record block 1;
    modify (fun s => set_w (tw_defer block (t_w s)) s).

Definition trieStoreName (ref : Z) (name : list Z) : T unit :=
  let block := TrieRefBlock ref in
  a ← loadBlock block;
  buf ← read_buf a;
  '(buf, saved, err) ← lift (store_name buf (TrieRefSlot ref) name);
  _ ← write_buf a buf;
  _ ← (if (saved : bool) then saveBlock block a else mret tt);
  match err with None => mret tt | Some e => fail e end.

(** ** Linking *)

(** The walk to the last sibling; [fuel] counts the nodes left of
    [TrieSiblingMax]. *)
Fixpoint link_last (fuel : nat) (parent last child : Z) : T unit :=
  match fuel with
  | O => fail (ErrSiblings parent)
  | S fuel =>
      '(lbuf, lnode) ← trieRead last;
      if TrieRefIsNull (ts_NextSibling lnode) then save_slot lbuf last (set_next lnode child)
      else link_last fuel parent (ts_NextSibling lnode) child
  end.

Definition trieLinkChild (parent child : Z) : T unit :=
  '(pbuf, pnode) ← trieRead parent;
  let count := u16 (ts_ChildCount pnode + 1) in
  if TrieRefIsNull (ts_FirstChild pnode) then save_slot pbuf parent (set_count (set_first pnode child) count)
  else
    _ ← link_last (Z.to_nat TrieSiblingMax) parent (ts_FirstChild pnode) child;
    save_slot pbuf parent (set_count pnode count).

Definition trieCreateChild (parent depth byteVal nodeType nameLen : Z) : T Z :=
  child ← trieAllocNode nameLen;
  if TrieRefIsNull child then mret 0 else
  let undo {A} (e : trie_error) : T A := _ ← ignore (trieFreeNode child); fail e in
  try (trieRead child)
    (fun '(cbuf, cnode) =>
       _ ← save_slot cbuf child (set_kind cnode depth byteVal nodeType);
       try (trieLinkChild parent child) (fun _ => mret child) undo)
    undo.

Definition trieFindOrCreateChild (parent depth byteVal : Z) : T Z :=
  child ← trieFindChild parent byteVal;
  if negb (TrieRefIsNull child) then mret child
  else trieCreateChild parent depth byteVal NodeTypeInterm 0.

Definition trieUnlinkChild (parent childPrev child : Z) : T unit :=
  '(pbuf, pnode) ← trieRead parent;
  '(_, cnode) ← trieRead child;
  let next := ts_NextSibling cnode in
  pnode ← (if TrieRefIsNull childPrev then mret (set_first pnode next) else
           '(pvbuf, pnode2) ← trieRead childPrev;
           _ ← save_slot pvbuf childPrev (set_next pnode2 next);
           mret pnode);
  save_slot pbuf parent (set_count pnode (u16 (ts_ChildCount pnode - 1))).

(** The walk of [trieRelinkSibling]; a read error or an over-long chain abandons
    it silently. *)
Fixpoint relink_walk (fuel : nat) (w oldChild newRef : Z) : T unit :=
  if TrieRefIsNull w then mret tt else
  match fuel with
  | O => mret tt
  | S fuel =>
      try (trieRead w)
        (fun '(wbuf, wnode) =>
           if ts_NextSibling wnode =? oldChild then save_slot wbuf w (set_next wnode newRef)
           else relink_walk fuel (ts_NextSibling wnode) oldChild newRef)
        (fun _ => mret tt)
  end.

(** The parent slot, updated. *)
Definition trieRelinkSibling (pnode : TrieSlot) (oldChild newRef : Z) : T TrieSlot :=
  if ts_FirstChild pnode =? oldChild then mret (set_first pnode newRef)
  else _ ← relink_walk (Z.to_nat TrieSiblingMax) (ts_FirstChild pnode) oldChild newRef; mret pnode.

Definition commitLeafSlot (a : nat) (ref nodeType ino ftype : Z) : T unit :=
  buf ← read_buf a;
  node ← lift (ReadTrieSlot buf (TrieRefSlot ref));
  save_slot a ref (set_entry node nodeType ino ftype).

Definition commitLeafNode (a : nat) (ref nodeType : Z) (name : list Z) (ino ftype : Z) : T unit :=
  _ ← trieStoreName ref name;
  commitLeafSlot a ref nodeType ino ftype.

(** ** Insertion *)
Definition trieSplitLeaf (cur child pos bval : Z) (name : list Z) (ino ftype : Z) : T Z :=
  '(lbuf, lnode) ← trieRead child;
  let oldNameLen := ts_NameLen lnode - 2 in
  if oldNameLen =? pos + 1 then
    _ ← save_slot lbuf child
          (set_kind lnode (u8 (pos + 1)) (ts_ByteVal lnode) (Z.lor NodeTypeInterm NodeStatusLeaf));
    mret child
  else
    let oldSibling := ts_NextSibling lnode in
    internal ← try (trieCreateChild cur (u8 (pos + 1)) bval NodeTypeInterm 0) mret (fun _ => fail (Errno ENOSPC));
    if TrieRefIsNull internal then fail (Errno ENOSPC) else
    '(gbuf, gnode) ← trieRead cur;
    gnode ← trieRelinkSibling gnode child internal;
    _ ← save_slot gbuf cur gnode;
    _ ← try (trieRead internal)
          (fun '(ibuf, inode) => save_slot ibuf internal (set_links inode child oldSibling 1))
          (fun _ => mret tt);
    _ ← (if pos =? blen name - 1 then
           try (trieRead internal)
             (fun '(ibuf2, _) => commitLeafNode ibuf2 internal (Z.lor NodeTypeInterm NodeStatusLeaf) name ino ftype)
             (fun _ => mret tt)
         else mret tt);
    mret internal.

(** [ename, _ := ReadTrieName(..); len(ename) == nameLen && ename == name] *)
Definition has_name (a : nat) (node : TrieSlot) (name : list Z) : T bool :=
  buf ← read_buf a;
  match ReadTrieName buf (ts_NameLen node) (ts_NameOffset node) with
  | Ret ename => mret (bool_decide (ename = name))
  | Err _ => mret (bool_decide ([] = name))
  | Panic => lift Panic
  end.

(** The last byte of the name, when a node is there: [Some cur] when the loop
    goes on from [cur]. *)
Definition insert_existing (cur existing pos bval : Z) (name : list Z) (ino ftype : Z) : T (option Z) :=
  '(cbuf, cnode) ← trieRead existing;
  if negb (Z.land (ts_NodeType cnode) NodeTypeInterm =? 0) then
    dup ← (if negb (Z.land (ts_NodeType cnode) NodeStatusLeaf =? 0) then has_name cbuf cnode name else mret false);
    if (dup : bool) then fail (Errno EEXIST) else
    _ ← commitLeafNode cbuf existing (Z.lor (ts_NodeType cnode) NodeStatusLeaf) name ino ftype;
    mret None
  else
    dup ← has_name cbuf cnode name;
    if (dup : bool) then fail (Errno EEXIST) else
    cur ← trieSplitLeaf cur existing pos bval name ino ftype;
    mret (Some cur).

(** And when none is. *)
Definition insert_leaf (cur pos bval : Z) (name : list Z) (ino ftype : Z) : T (option Z) :=
  newLeaf ← try (trieCreateChild cur (u8 pos) bval 0 (blen name)) mret (fun _ => fail (Errno ENOSPC));
  if TrieRefIsNull newLeaf then fail (Errno ENOSPC) else
  let undo {A} (e : trie_error) : T A := _ ← ignore (trieFreeNode newLeaf); fail e in
  '(lbuf, _) ← try (trieRead newLeaf) mret undo;
  _ ← try (trieStoreName newLeaf name) mret undo;
  _ ← commitLeafSlot lbuf newLeaf 0 ino ftype;
  mret None.

Definition insert_last (cur pos bval : Z) (name : list Z) (ino ftype : Z) : T (option Z) :=
  existing ← trieFindChild cur bval;
  if negb (TrieRefIsNull existing) then insert_existing cur existing pos bval name ino ftype
  else insert_leaf cur pos bval name ino ftype.

(** A byte before the last: the node to go on from. *)
Definition insert_step (cur pos bval : Z) (name : list Z) (ino ftype : Z) : T Z :=
  child ← try (trieFindOrCreateChild cur (u8 (pos + 1)) bval) mret (fun _ => fail (Errno ENOSPC));
  if TrieRefIsNull child then fail (Errno ENOSPC) else
  '(_, cnode) ← trieRead child;
  if Z.land (ts_NodeType cnode) NodeTypeInterm =? 0 then trieSplitLeaf cur child pos bval name ino ftype
  else mret child.

(** The loop over the positions; [rest] is the name from [pos] on. *)
Fixpoint insert_loop (rest : list Z) (cur pos : Z) (name : list Z) (ino ftype : Z) : T unit :=
  match rest with
  | [] => mret tt
  | bval :: rest =>
      match rest with
      | [] => _ ← insert_last cur pos bval name ino ftype; mret tt
      | _ =>
          cur ← insert_step cur pos bval name ino ftype;
          insert_loop rest cur (pos + 1) name ino ftype
      end
  end.

Definition set_root (di : Inode) (root : Z) : Inode :=
  mkInode (ino_InodeNumber di) (ino_Magic di) (ino_Filemode di) (ino_Uid di) (ino_Gid di)
    (ino__Pad0 di) (ino_FileSize di) (ino_CtimeSec di) (ino_CtimeNsec di) (ino_AtimeSec di)
    (ino_AtimeNsec di) (ino_MtimeSec di) (ino_MtimeNsec di) (ino_CreationTimeSec di)
    (ino_CreationTimeNsec di) (ino_Nlinks di) (ino_NumExtentsInline di) (ino_ExtentInlineBase di)
    (ino_NumExtentsTotal di) (ino_inlineRegion di) (ino_XattrOffset di)
    (ino_XattrSize di) (ino_ParentInode di) (ino_Unused di) (ino_Flags di) root
    (ino_Rdev di) (ino_Generation di) (ino_UserFlags di) (ino_Reserved di).

(** The operations that change the directory inode return it beside their
    result. *)
Definition trieCreateRoot (di : Inode) (s : tstate W) : tstate W * (Inode * res trie_error unit) :=
  match triePageInit 0 0 NodeTypeInterm s with
  | (s', Ret ref) => (s', (set_root di ref, Ret tt))
  | (s', Err e) => (s', (di, Err e))
  | (s', Panic) => (s', (di, Panic))
  end.

Definition TrieInsert (di : Inode) (name : list Z) (ino ftype : Z) (s : tstate W)
    : tstate W * (Inode * res trie_error unit) :=
  if BrieFSMaxNameLen <? blen name then (s, (di, Err (Errno ENAMETOOLONG))) else
  match (if TrieRefIsNull (ino_DirTrieRoot di) then trieCreateRoot di s else (s, (di, Ret tt))) with
  | (s, (di, Ret _)) =>
      let '(s', x) := insert_loop name (ino_DirTrieRoot di) 0 name ino ftype s in (s', (di, x))
  | (s, (di, x)) => (s, (di, x))
  end.

(** ** Update and removal *)
Fixpoint update_loop (rest : list Z) (cur : Z) (name : list Z) (newIno newType : Z) : T unit :=
  match rest with
  | [] => fail (Errno ENOENT)
  | bval :: rest =>
      child ← try (trieFindChild cur bval) mret (fun _ => fail (Errno ENOENT));
      if TrieRefIsNull child then fail (Errno ENOENT) else
      '(cbuf, cnode) ← trieRead child;
      match rest with
      | [] =>
          if TrieIsLeaf (ts_NodeType cnode) then
            same ← has_name cbuf cnode name;
            if (same : bool) then save_slot cbuf child (set_entry cnode (ts_NodeType cnode) newIno newType)
            else fail (Errno ENOENT)
          else fail (Errno ENOENT)
      | _ =>
          if Z.land (ts_NodeType cnode) NodeTypeInterm =? 0 then fail (Errno ENOENT)
          else update_loop rest child name newIno newType
      end
  end.

Definition TrieUpdateEntry (di : Inode) (name : list Z) (newIno newType : Z) : T unit :=
  if TrieRefIsNull (ino_DirTrieRoot di) then fail (Errno ENOENT)
  else update_loop name (ino_DirTrieRoot di) name newIno newType.

(** The loop of [collapseAncestry], from the deepest ancestor up; the list has
    the deepest first and ends with the root. *)
Fixpoint collapse_loop (ancestry : list Z) : T unit :=
  match ancestry with
  | check :: ((pblk :: _) as up) =>
      try (trieRead check)
        (fun '(_, cnode) =>
           if (Z.land (ts_NodeType cnode) NodeTypeInterm =? 0) || negb (Z.land (ts_NodeType cnode) NodeStatusLeaf =? 0) ||
              negb (ts_ChildCount cnode =? 0) || negb (TrieRefIsNull (ts_FirstChild cnode))
           then mret tt
           else
             try (trieRead pblk)
               (fun '(pbuf, pnode) =>
                  pnode ← trieRelinkSibling pnode check (ts_NextSibling cnode);
                  _ ← save_slot pbuf pblk (set_count pnode (u16 (ts_ChildCount pnode - 1)));
                  _ ← trieFreeNode check;
                  collapse_loop up)
               (fun _ => mret tt))
        (fun _ => mret tt)
  | _ => mret tt
  end.

(** Whether the root is an empty intermediate. *)
Definition root_empty (root : Z) : T bool :=
  try (trieRead root)
    (fun '(_, rootn) => mret (negb (Z.land (ts_NodeType rootn) NodeTypeInterm =? 0) &&
       (Z.land (ts_NodeType rootn) NodeStatusLeaf =? 0) && (ts_ChildCount rootn =? 0) &&
       TrieRefIsNull (ts_FirstChild rootn)))
    (fun _ => mret false).

Definition collapseAncestry (di : Inode) (ancestry : list Z) (s : tstate W)
    : tstate W * (Inode * res trie_error unit) :=
  match collapse_loop ancestry s with
  | (s, Ret _) =>
      let root := ino_DirTrieRoot di in
      if TrieRefIsNull root then (s, (di, Ret tt)) else
      match root_empty root s with
      | (s, Ret true) => let '(s, x) := trieFreeNode root s in (s, (set_root di 0, x))
      | (s, Ret false) => (s, (di, Ret tt))
      | (s, Err e) => (s, (di, Err e))
      | (s, Panic) => (s, (di, Panic))
      end
  | (s, Err e) => (s, (di, Err e))
  | (s, Panic) => (s, (di, Panic))
  end.

(** The loop of [TrieRemove] down to the node of the name.  [Some ancestry]:
    the node was freed and the ancestors are to be collapsed.  [ancestry] has
    the deepest first; the limit of 256 entries of the source is
    [ancestryLimit]. *)
Definition ancestryLimit : nat := 256.

Fixpoint remove_loop (rest : list Z) (cur : Z) (ancestry : list Z) : T (option (list Z)) :=
  match rest with
  | [] => fail (Errno ENOENT)
  | bval :: rest =>
      '(child, childPrev) ← trieFindChildWithPrev cur bval;
      if TrieRefIsNull child then fail (Errno ENOENT) else
      match rest with
      | [] =>
          '(cbuf, cnode) ← trieRead child;
          let interm := negb (Z.land (ts_NodeType cnode) NodeTypeInterm =? 0) in
          if interm && (Z.land (ts_NodeType cnode) NodeStatusLeaf =? 0) then fail (Errno ENOENT) else
          if interm then
            let hasChildren := negb (TrieRefIsNull (ts_FirstChild cnode)) || negb (ts_ChildCount cnode =? 0) in
            _ ← save_slot cbuf child
                  (set_entry cnode (Z.ldiff (ts_NodeType cnode) NodeStatusLeaf) (ts_Inode cnode) (ts_FType cnode));
            if hasChildren then mret None else
            _ ← trieUnlinkChild cur childPrev child;
            _ ← trieFreeNode child;
            mret (Some ancestry)
          else
            _ ← trieUnlinkChild cur childPrev child;
            _ ← trieFreeNode child;
            mret (Some ancestry)
      | _ =>
          remove_loop rest child (if (length ancestry <? ancestryLimit)%nat then child :: ancestry else ancestry)
      end
  end.

Definition TrieRemove (di : Inode) (name : list Z) (s : tstate W) : tstate W * (Inode * res trie_error unit) :=
  let root := ino_DirTrieRoot di in
  if TrieRefIsNull root then (s, (di, Err (Errno ENOENT))) else
  match remove_loop name root [root] s with
  | (s, Ret None) => (s, (di, Ret tt))
  | (s, Ret (Some ancestry)) => collapseAncestry di ancestry s
  | (s, Err e) => (s, (di, Err e))
  | (s, Panic) => (s, (di, Panic))
  end.

End ops.
