(* ===== verification/TrieStore.v ===== *)
(** * The node store of the tries (fuse/trie_mutate.go)

    A page holds nodes of several directories, and the pages of an operation are
    partly in its cache and partly on the device.  [tstore] abstracts from both:
    it says that a state holds a finite map from node references to cells.  The
    operations on nodes are specified on that map, by rules for [wp], the
    weakest precondition of a computation of the trie monad; a panic satisfies
    no postcondition.

    What is assumed of the device, the allocator and the journal is the class
    [TrieLaws]. *)

From stdpp Require Import base numbers list option gmap.
From Stdlib Require Import ZArith Lia.
From S2P Require Import Prelude Codec Bits TriePage Trie.

Local Open Scope Z_scope.

#[global] Arguments image : simpl never.

(** ** Weakest preconditions *)
Section wp.
Context {S : Type}.

Definition wp {A} (m : SM S A) (s : S) (Q : A -> S -> Prop) (E : trie_error -> S -> Prop) : Prop :=
  match m s with
  | (s', Ret a) => Q a s'
  | (s', Err e) => E e s'
  | (_, Panic) => False
  end.

Lemma wp_ret {A} (a : A) s (Q : A -> S -> Prop) E : Q a s -> wp (mret a) s Q E.
Proof. done. Qed.

Lemma wp_fail {A} e s (Q : A -> S -> Prop) (E : trie_error -> S -> Prop) : E e s -> wp (fail e) s Q E.
Proof. done. Qed.

Lemma wp_bind {A B} (m : SM S A) (k : A -> SM S B) s Q E :
  wp m s (fun a s' => wp (k a) s' Q E) E -> wp (m ≫= k) s Q E.
Proof. unfold wp, mbind, SM_bind. by destruct (m s) as [s' [a|e|]]. Qed.

Lemma wp_try {A B} (m : SM S A) (k : A -> SM S B) h s Q E :
  wp m s (fun a s' => wp (k a) s' Q E) (fun e s' => wp (h e) s' Q E) -> wp (try m k h) s Q E.
Proof. unfold wp, try. by destruct (m s) as [s' [a|e|]]. Qed.

Lemma wp_ignore {A} (m : SM S A) s Q E :
  wp m s (fun _ s' => Q tt s') (fun _ s' => Q tt s') -> wp (ignore m) s Q E.
Proof. intros H. by apply wp_try. Qed.

Lemma wp_mono {A} (m : SM S A) s (Q Q' : A -> S -> Prop) (E E' : trie_error -> S -> Prop) :
  wp m s Q E -> (forall a s', Q a s' -> Q' a s') -> (forall e s', E e s' -> E' e s') -> wp m s Q' E'.
Proof. unfold wp. destruct (m s) as [s' [a|e|]]; auto. Qed.

Lemma wp_bind_eq {A B} (m : SM S A) (k : A -> SM S B) s s' Q E :
  m s = m s' -> wp (m ≫= k) s' Q E -> wp (m ≫= k) s Q E.
Proof. unfold wp, mbind, SM_bind. by intros ->. Qed.

Lemma wp_lift {A} (a : A) (x : res trie_error A) s (Q : A -> S -> Prop) E : x = Ret a -> Q a s -> wp (lift x) s Q E.
Proof. by intros ->. Qed.

Lemma wp_run {A} (m : SM S A) s s' a (Q : A -> S -> Prop) E : m s = (s', Ret a) -> Q a s' -> wp m s Q E.
Proof. unfold wp. by intros ->. Qed.

End wp.

(** ** References *)
Lemma make_ref b i : 0 <= b < 2 ^ 58 -> 0 <= i < 64 -> TrieMakeRef b i = b * 64 + i.
Proof.
  intros Hb Hi. unfold TrieMakeRef, TrieSlotMask, TrieSlotBits, shl64. rewrite Z.shiftl_mul_pow2 by lia.
  rewrite u64_small by (unfold is_u64; lia). change 63 with (Z.ones 6). rewrite Z.land_ones by lia.
  rewrite (Z.mod_small i) by lia. rewrite <- Z.shiftl_mul_pow2 by lia.
  assert (Hd : Z.land (Z.shiftl b 6) i = 0).
  { apply Z.bits_inj'. intros k Hk. rewrite Z.land_spec, Z.bits_0, Z.shiftl_spec by lia.
    destruct (decide (k < 6)); [by rewrite Z.testbit_neg_r by lia|].
    rewrite (Z.bits_above_log2 i), andb_false_r; [done|lia|].
    destruct (decide (i = 0)) as [->|]; [simpl; lia|]. apply Z.log2_lt_pow2; [lia|].
    apply Z.lt_le_trans with (2 ^ 6); [lia|]. apply Z.pow_le_mono_r; lia. }
  rewrite <- Z.lxor_lor, <- Z.add_nocarry_lxor by done. rewrite Z.shiftl_mul_pow2 by lia. lia.
Qed.

Lemma ref_slot_range r : 0 <= TrieRefSlot r < 64.
Proof. unfold TrieRefSlot, TrieSlotMask. change 63 with (Z.ones 6). rewrite Z.land_ones by lia. apply Z.mod_pos_bound. lia. Qed.

Lemma ref_split r : r = TrieRefBlock r * 64 + TrieRefSlot r.
Proof.
  unfold TrieRefBlock, TrieRefSlot, TrieSlotMask, TrieSlotBits. change 63 with (Z.ones 6).
  rewrite Z.land_ones, Z.shiftr_div_pow2 by lia. pose proof (Z.div_mod r (2 ^ 6)). lia.
Qed.

Lemma ref_block b i : 0 <= i < 64 -> TrieRefBlock (b * 64 + i) = b.
Proof.
  intros Hi. pose proof (ref_split (b * 64 + i)). pose proof (ref_slot_range (b * 64 + i)). lia.
Qed.

Lemma ref_slot b i : 0 <= i < 64 -> TrieRefSlot (b * 64 + i) = i.
Proof. intros Hi. pose proof (ref_split (b * 64 + i)) as H. rewrite ref_block in H by done. lia. Qed.

(** ** A new page *)
Definition blank_page : page :=
  mkPage (mkTriePage MagicTriePage 1 1 0 (not64 1)) (replicate 64 zero_slot) (zeros 1772).

Lemma blank_slot i s : 0 <= i -> slot_at blank_page i = Some s -> s = zero_slot.
Proof. intros Hi E. unfold slot_at, blank_page in E. cbn [p_slots] in E. by apply lookup_replicate in E as [-> _]. Qed.

Lemma blank_wf : page_wf blank_page.
Proof.
  split; try reflexivity; cbn [blank_page p_hdr p_slots p_heap].
  - apply hdr_wf_iff. unfold is_u16, is_u32, is_u64. vm_compute. intuition congruence.
  - apply Forall_replicate, zero_slot_wf.
  - apply bytes_zeros.
Qed.

Lemma blank_live i : 0 <= i < 64 -> live blank_page i = bool_decide (i = 0).
Proof.
  intros Hi. unfold live, blank_page. cbn [p_hdr tp_FreeSlots]. unfold not64. rewrite Z.lxor_spec.
  change (2 ^ 64 - 1) with (Z.ones 64). rewrite Z.ones_spec_low by lia.
  destruct (decide (i = 0)) as [->|]; [done|]. rewrite bool_decide_false by done.
  rewrite (Z.bits_above_log2 1); [done|lia|simpl; lia].
Qed.

Lemma blank_ok : page_ok blank_page.
Proof.
  split; [apply blank_wf|unfold heap_size; cbn; lia|reflexivity| | |].
  - intros i Hi _. destruct (slot_at_lt _ blank_wf i Hi) as (s & Es & _). rewrite Es. f_equal. by eapply blank_slot; [apply Hi|].
  - intros i s Hi Es. rewrite (blank_slot i s Hi Es). by apply name_fits_0.
  - intros i j s s' Hi _ _ Es _. rewrite (blank_slot i s Hi Es). by left.
Qed.

Lemma blank_image : putPage (zeros 4096) (p_hdr blank_page) = Ret (image blank_page).
Proof. vm_compute. reflexivity. Qed.

Lemma new_page_spec depth byteVal nodeType : is_u8 depth -> is_u8 byteVal -> is_u8 nodeType ->
  let n := mkTrieSlot 0 0 0 0 0 depth nodeType byteVal 0 0 0 in
  exists q, new_page depth byteVal nodeType = Ret (image q) /\ page_ok q /\ top q = 0 /\
    forall i, 0 <= i < 64 -> cell_at q i = if decide (i = 0) then Some (n, None) else None.
Proof.
  intros H1 H2 H3 n. assert (Hn : codec_wf n) by (apply slot_wf_iff; split_and!; try done; unfold is_u64, is_u16, is_u8; cbn; lia).
  destruct (slot_at_lt _ blank_wf 0 ltac:(lia)) as (s & Es & _). pose proof (blank_slot 0 s ltac:(lia) Es) as ->.
  destruct (page_put blank_page 0 zero_slot n blank_ok ltac:(lia) eq_refl Es Hn eq_refl eq_refl) as [Hok Hc].
  eexists. split; [|split_and!; [exact Hok|done|]].
  - unfold new_page. change (mkTriePage _ _ _ _ _) with (p_hdr blank_page). rewrite blank_image, bind_ret.
    by apply putSlot_image; [apply blank_wf|lia|].
  - intros i Hi. rewrite Hc by done. case_decide as E0; [done|]. unfold cell_at. rewrite blank_live by done.
    by rewrite bool_decide_false.
Qed.

(** A live slot, zeroed. *)
Lemma page_zero p i : page_ok p -> 0 <= i < 64 -> live p i = true -> page_ok (with_slot p i zero_slot).
Proof.
  intros Hp Hi Hl. pose proof (ok_wf p Hp) as Hwf. pose proof (page_top_pos p Hp) as Ht.
  apply (change_ok p Hp (p_hdr p) i zero_slot (p_heap p)); try done; try apply Hwf; try apply Hp.
  - apply zero_slot_wf.
  - split; [reflexivity|apply Ht].
  - apply name_fits_0, Ht.
  - by left.
Qed.

Lemma empty_page p i : page_ok p -> tp_LiveCount (p_hdr p) = 0 -> 0 <= i < 64 -> cell_at p i = None.
Proof.
  intros Hp E Hi. rewrite (ok_live p Hp) in E. unfold cell_at, live.
  destruct (Z.testbit (tp_FreeSlots (p_hdr p)) i) eqn:Eb; [done|].
  pose proof (OnesCount64_upd _ i true Hi Eb) as Hu. cbn [negb] in Hu. pose proof (OnesCount64_bound (upd_word (tp_FreeSlots (p_hdr p)) i true)). lia.
Qed.

(** ** What is below the cache *)
Section agree.
Context {W : Type} `{TW : TrieWorld W} (disk : Z -> Prop).

(** Nothing but the journal has been written. *)
Definition same_disk (w w' : W) : Prop := forall b, disk b -> tw_read w' b = tw_read w b.

Lemma same_disk_trans w1 w2 w3 : same_disk w1 w2 -> same_disk w2 w3 -> same_disk w1 w3.
Proof. intros H1 H2 b Hb. rewrite H2 by done. by apply H1. Qed.

End agree.

(** [holds w X]: the blocks [X] are in use in [w]; [disk b]: block [b] is not
    of the journal. *)
Class TrieLaws (W : Type) `{TW : TrieWorld W} (holds : W -> gset Z -> Prop) (disk : Z -> Prop) : Prop := {
  tl_start : 0 <= tw_start;
  tl_alloc w X w' rel : holds w X -> tw_alloc w = (w', rel) -> same_disk disk w w' /\
    (rel = 0 /\ holds w' X \/
     0 < rel /\ tw_start + rel < 2 ^ 58 /\ (tw_start + rel ∉ X) /\ disk (tw_start + rel) /\
     holds w' ({[tw_start + rel]} ∪ X));
  tl_free w X rel : holds w X -> 0 < rel -> tw_start + rel ∈ X ->
    same_disk disk w (tw_free rel w) /\ holds (tw_free rel w) (X ∖ {[tw_start + rel]});
  tl_record w X rec w' x : holds w X -> tw_record rec w = (w', x) -> same_disk disk w w' /\ holds w' X;
  tl_defer w X b : holds w X -> tw_start < b -> b ∈ X ->
    same_disk disk w (tw_defer b w) /\ holds (tw_defer b w) (X ∖ {[b]});
}.

Lemma drop_union (D : gset Z) (b : Z) : D ∖ {[b]} = ({[b]} ∪ D) ∖ {[b]}.
Proof. set_solver. Qed.

(** ** The pages of a state *)
Section store.
Context {W : Type} {TW : TrieWorld W} {holds : W -> gset Z -> Prop} {disk : Z -> Prop} {HL : TrieLaws W holds disk}.
(** The world before the operation, and the blocks that hold no trie page. *)
Context (w0 : W) (F : gmap Z (list Z)).
Implicit Types (s : tstate W) (X : gset Z) (pgs : gmap Z page) (σ : gmap Z cell).

Definition view s (b : Z) : option (list Z) :=
  match t_cache s !! b with Some a => t_heap s !! a | None => tw_read (t_w s) b end.

Definition page_block_ok X (b : Z) : Prop := tw_start < b < 2 ^ 58 /\ b ∈ X /\ disk b.

Record phys s X pgs : Prop := {
  ph_holds : holds (t_w s) X;
  ph_same : same_disk disk w0 (t_w s);
  ph_page b p : pgs !! b = Some p -> page_ok p /\ view s b = Some (image p) /\ page_block_ok X b;
  ph_addr b a : t_cache s !! b = Some a -> (a < length (t_heap s))%nat /\ disk b;
  ph_inj b b' a : t_cache s !! b = Some a -> t_cache s !! b' = Some a -> b = b';
  ph_clean b a : t_cache s !! b = Some a -> b ∉ t_dirty s -> t_heap s !! a = tw_read (t_w s) b;
  ph_partials b : b ∈ t_partials s -> is_Some (pgs !! b);
  ph_replay : t_inReplay s = true -> NoDup (t_replay s) /\
    forall rel, rel ∈ t_replay s -> page_block_ok X (tw_start + rel) /\
      pgs !! (tw_start + rel) = None /\ F !! (tw_start + rel) = None;
  ph_frame b buf : F !! b = Some buf -> pgs !! b = None /\ b ∈ X /\ disk b /\ view s b = Some buf;
}.

Definition node pgs (r : Z) : option cell := pgs !! TrieRefBlock r ≫= fun p => cell_at p (TrieRefSlot r).

(** The state holds the nodes [σ], with the blocks [X] in use. *)
Definition tstore s X σ : Prop := exists pgs, phys s X pgs /\ forall r, σ !! r = node pgs r.

Lemma node_block pgs b i : 0 <= i < 64 -> node pgs (b * 64 + i) = pgs !! b ≫= fun p => cell_at p i.
Proof. intros Hi. unfold node. by rewrite ref_block, ref_slot. Qed.

Lemma ref_neq_slot r r' : TrieRefBlock r' = TrieRefBlock r -> r' <> r -> TrieRefSlot r' <> TrieRefSlot r.
Proof. intros E Hne Es. apply Hne. rewrite (ref_split r'), (ref_split r). congruence. Qed.

Lemma node_insert pgs b q r :
  node (<[b := q]> pgs) r = if decide (TrieRefBlock r = b) then cell_at q (TrieRefSlot r) else node pgs r.
Proof.
  unfold node. case_decide as E.
  - by rewrite E, lookup_insert_eq.
  - by rewrite lookup_insert_ne.
Qed.

Lemma node_some σ s X r c : tstore s X σ -> σ !! r = Some c ->
  exists pgs p, phys s X pgs /\ (forall r, σ !! r = node pgs r) /\ pgs !! TrieRefBlock r = Some p /\
    cell_at p (TrieRefSlot r) = Some c.
Proof.
  intros (pgs & Hp & Hσ) Hr. rewrite Hσ in Hr. unfold node in Hr.
  destruct (pgs !! TrieRefBlock r) as [p|] eqn:E; [|done]. by exists pgs, p.
Qed.

(** A node's reference is not null and fits its field. *)
Lemma tstore_ref s X σ r c : tstore s X σ -> σ !! r = Some c -> 0 < r < 2 ^ 64.
Proof.
  intros Hs Hr. destruct (node_some _ _ _ _ _ Hs Hr) as (pgs & p & Hp & _ & E & _).
  destruct (ph_page _ _ _ Hp _ _ E) as (_ & _ & (Hb & _)).
  pose proof (tl_start (W := W)). pose proof (ref_split r). pose proof (ref_slot_range r). lia.
Qed.

Lemma tstore_wf s X σ r c : tstore s X σ -> σ !! r = Some c -> codec_wf (fst c).
Proof.
  intros Hs Hr. destruct (node_some _ _ _ _ _ Hs Hr) as (pgs & p & Hp & _ & E & Hc).
  destruct (ph_page _ _ _ Hp _ _ E) as (Hok & _ & _).
  destruct (live_slot p _ c Hok (ref_slot_range r) Hc) as (t & _ & Hw & _ & -> & _). done.
Qed.

Lemma tstore_name_len s X σ r c nm : tstore s X σ -> σ !! r = Some c -> snd c = Some nm ->
  ts_NameLen (fst c) = blen nm + 2.
Proof.
  intros Hs Hr Hn. destruct (node_some _ _ _ _ _ Hs Hr) as (pgs & p & Hp & _ & E & Hc).
  destruct (ph_page _ _ _ Hp _ _ E) as (Hok & _ & _).
  destruct (live_slot p _ c Hok (ref_slot_range r) Hc) as (t & _ & Hw & _ & -> & Hf & _). cbn [fst snd cell_of] in *.
  pose proof (length_region p t (top p) (ok_wf p Hok) Hf (ok_top p Hok)) as Hl. unfold read_name, parse_name in Hn.
  destruct ((ts_NameLen t <? 2) || _) eqn:E1; [done|]. apply orb_false_iff in E1 as [E1 _]. apply Z.ltb_ge in E1.
  destruct (_ || _); [done|]. injection Hn as <-. unfold blen. rewrite length_drop, Hl. lia.
Qed.

(** ** Loading and writing pages *)
Lemma wp_load s X pgs b p Q E : phys s X pgs -> pgs !! b = Some p ->
  (forall s' a, phys s' X pgs -> t_cache s ⊆ t_cache s' -> t_cache s' !! b = Some a ->
    t_heap s' !! a = Some (image p) -> t_partials s' = t_partials s -> Q a s') -> wp (loadBlock b) s Q E.
Proof.
  intros Hs Eb HQ. destruct (ph_page _ _ _ Hs _ _ Eb) as (Hok & Hv & Hb). unfold wp, loadBlock. unfold view in Hv. revert Hv.
  destruct (t_cache s !! b) as [a|] eqn:Ec; intros Hv; [by apply HQ|]. rewrite Hv.
  assert (Hlen : forall b' a, t_cache s !! b' = Some a -> a <> length (t_heap s)).
  { intros b' a Ha. apply (ph_addr _ _ _ Hs) in Ha. lia. }
  assert (Hview : forall b' buf, view s b' = Some buf ->
    view (set_cache (t_heap s ++ [image p]) (<[b := length (t_heap s)]> (t_cache s)) (t_dirty s) s) b' = Some buf).
  { intros b' buf. unfold view. cbn. destruct (decide (b' = b)) as [->|].
    - rewrite lookup_insert_eq, Ec, list_lookup_middle by done. congruence.
    - rewrite lookup_insert_ne by done. destruct (t_cache s !! b') as [a|] eqn:Ea; [|done].
      apply (ph_addr _ _ _ Hs) in Ea as [Ha _]. by rewrite lookup_app_l. }
  apply HQ; cbn; [|by apply insert_subseteq|by rewrite lookup_insert_eq|by rewrite list_lookup_middle|done].
  destruct Hs as [A B C D I K L M N]. split; cbn; try done.
  - intros b' p' E'. destruct (C b' p' E') as (? & ? & ?). auto.
  - intros b' a. rewrite lookup_insert_Some, length_app. simpl. intros [[<- <-]|[_ Ha]].
    + split; [lia|]. apply Hb.
    + destruct (D b' a Ha). split; [lia|done].
  - intros b1 b2 a. rewrite !lookup_insert_Some. intros [[<- <-]|[H1 Ha]] [[<- ?]|[H2 Ha']]; try done.
    + by destruct (Hlen _ _ Ha').
    + subst a. by destruct (Hlen _ _ Ha).
    + by apply (I b1 b2 a).
  - intros b' a. rewrite lookup_insert_Some. intros [[<- <-]|[H1 Ha]] Hd.
    + by rewrite list_lookup_middle, Hv.
    + destruct (D _ _ Ha). rewrite lookup_app_l by done. by apply K.
  - intros b' buf Hf. destruct (N b' buf Hf) as (? & ? & ? & ?). auto.
Qed.

(** The state once page [b], at address [a], has been rewritten and saved. *)
Definition put_saved s (b : Z) (a : nat) (buf : list Z) : tstate W :=
  set_cache (<[a := buf]> (t_heap s)) (<[b := a]> (t_cache s)) ({[b]} ∪ t_dirty s) s.

Lemma view_put_saved s X pgs b a q b' : phys s X pgs -> t_cache s !! b = Some a -> b' <> b ->
  view (put_saved s b a q) b' = view s b'.
Proof.
  intros Hs Ha Hne. unfold view, put_saved. cbn. rewrite lookup_insert_ne by done.
  destruct (t_cache s !! b') as [a'|] eqn:E; [|done]. rewrite list_lookup_insert_ne; [done|].
  intros <-. apply Hne. by eapply ph_inj.
Qed.

Lemma phys_put s X pgs b a p q : phys s X pgs -> t_cache s !! b = Some a -> pgs !! b = Some p -> page_ok q ->
  phys (put_saved s b a (image q)) X (<[b := q]> pgs).
Proof.
  intros Hs Ha Eb Hq. pose proof (fun b' => view_put_saved s X pgs b a (image q) b' Hs Ha) as Hv.
  pose proof (ph_addr _ _ _ Hs _ _ Ha) as [Hlt _].
  assert (Hvb : view (put_saved s b a (image q)) b = Some (image q)).
  { unfold view, put_saved. cbn. rewrite lookup_insert_eq. by apply list_lookup_insert_eq. }
  assert (Hnone : forall b', pgs !! b' = None -> <[b := q]> pgs !! b' = None).
  { intros b' E. rewrite lookup_insert_ne; congruence. }
  pose proof Hs as [A B C D I K L M N]. split; cbn; try done.
  - intros b' p'. rewrite lookup_insert_Some. intros [[<- <-]|[Hne E']].
    + split_and!; [done|done|apply (C b p Eb)].
    + rewrite Hv by done. by apply C.
  - intros b' a'. rewrite lookup_insert_Some, length_insert. intros [[<- <-]|[Hne E']]; by apply D.
  - intros b1 b2 a'. rewrite (insert_id _ _ _ Ha). apply I.
  - intros b' a'. rewrite (insert_id _ _ _ Ha), not_elem_of_union, not_elem_of_singleton. intros E' [Hne Hd].
    rewrite list_lookup_insert_ne; [by apply K|]. intros <-. apply Hne. by eapply I.
  - intros b' Hb'. destruct (decide (b' = b)) as [->|]; [by rewrite lookup_insert_eq|].
    rewrite lookup_insert_ne by done. by apply L.
  - intros Hr. destruct (M Hr) as [HN HM]. split; [done|]. intros rel Hrel. destruct (HM rel Hrel) as (? & ? & ?). auto.
  - intros b' buf Hf. destruct (N b' buf Hf) as (N1 & ? & ? & ?). split_and!; auto. rewrite Hv; [done..|].
    intros ->. congruence.
Qed.

Lemma wp_read_buf s a buf Q E : t_heap s !! a = Some buf -> Q buf s -> wp (read_buf a) s Q E.
Proof. unfold wp, read_buf. by intros ->. Qed.

(** ** Nodes *)

(** Reading a node; its page is in the cache from then on. *)
Lemma wp_trieRead s X σ r c Q E : tstore s X σ -> σ !! r = Some c ->
  (forall s' a, tstore s' X σ -> t_cache s ⊆ t_cache s' -> t_cache s' !! TrieRefBlock r = Some a -> Q (a, fst c) s') ->
  wp (trieRead r) s Q E.
Proof.
  intros Hs Hr HQ. destruct (node_some _ _ _ _ _ Hs Hr) as (pgs & p & Hp & Hσ & Eb & Hc).
  destruct (ph_page _ _ _ Hp _ _ Eb) as (Hok & _). pose proof (ok_wf p Hok) as Hwf. pose proof (ref_slot_range r) as Hi.
  destruct (live_slot p _ c Hok Hi Hc) as (n & En & _ & _ & -> & _).
  apply wp_bind. apply (wp_load s X pgs _ p); [done..|]. intros s' a Hp' Hsub Ha Hbuf _.
  apply wp_bind, (wp_read_buf _ _ _ _ _ Hbuf). apply wp_bind. eapply wp_lift; [by apply ReadTriePage_image|].
  apply wp_bind. eapply wp_lift; [apply ReadTrieSlot_image; [done|lia|exact En]|].
  apply wp_ret, HQ; [by exists pgs|done|done].
Qed.

(** The page of a cached node. *)
Lemma cached_page s X σ r c a : tstore s X σ -> σ !! r = Some c -> t_cache s !! TrieRefBlock r = Some a ->
  exists pgs p, phys s X pgs /\ (forall r, σ !! r = node pgs r) /\ pgs !! TrieRefBlock r = Some p /\
    cell_at p (TrieRefSlot r) = Some c /\ t_heap s !! a = Some (image p) /\ page_ok p.
Proof.
  intros Hs Hr Ha. destruct (node_some _ _ _ _ _ Hs Hr) as (pgs & p & Hp & Hσ & Eb & Hc).
  destruct (ph_page _ _ _ Hp _ _ Eb) as (Hok & Hv & _). unfold view in Hv. rewrite Ha in Hv. by exists pgs, p.
Qed.

(** Writing a node back, with its name where it was. *)
Lemma wp_save_slot s X σ r c a n Q E : tstore s X σ -> σ !! r = Some c -> t_cache s !! TrieRefBlock r = Some a ->
  codec_wf n -> ts_NameLen n = ts_NameLen (fst c) -> ts_NameOffset n = ts_NameOffset (fst c) ->
  (forall s', tstore s' X (<[r := (n, snd c)]> σ) -> t_cache s' = t_cache s -> Q tt s') ->
  wp (save_slot a r n) s Q E.
Proof.
  intros Hs Hr Ha Hn E1 E2 HQ. destruct (cached_page _ _ _ _ _ _ Hs Hr Ha) as (pgs & p & Hp & Hσ & Eb & Hc & Hbuf & Hok).
  pose proof (ok_wf p Hok) as Hwf. pose proof (ref_slot_range r) as Hi.
  destruct (live_slot p _ c Hok Hi Hc) as (n0 & En & _ & Hl & -> & _). cbn [fst cell_of] in E1, E2.
  destruct (page_put p _ n0 n Hok Hi Hl En Hn E1 E2) as [Hok' Hcells].
  eapply (wp_run _ _ (put_saved s (TrieRefBlock r) a (image (with_slot p (TrieRefSlot r) n))) tt).
  { unfold save_slot, put_slot, read_buf, mbind, SM_bind. rewrite Hbuf. unfold lift.
    rewrite (putSlot_image p Hwf) by done. reflexivity. }
  apply HQ; [|cbn; by apply insert_id]. eexists. split; [by eapply phys_put|]. intros r'. rewrite node_insert.
  destruct (decide (r' = r)) as [->|Hne].
  - rewrite lookup_insert_eq, decide_True, Hcells, decide_True by done. done.
  - rewrite lookup_insert_ne, Hσ by done. case_decide as Eb'; [|done].
    rewrite Hcells by apply ref_slot_range. rewrite decide_False by (by apply ref_neq_slot).
    unfold node. by rewrite Eb', Eb.
Qed.

(** Comparing a node's name. *)
Lemma wp_has_name s X σ r c a name Q E : tstore s X σ -> σ !! r = Some c -> t_cache s !! TrieRefBlock r = Some a ->
  name <> [] -> Q (bool_decide (snd c = Some name)) s -> wp (has_name a (fst c) name) s Q E.
Proof.
  intros Hs Hr Ha Hne HQ. destruct (cached_page _ _ _ _ _ _ Hs Hr Ha) as (pgs & p & Hp & Hσ & Eb & Hc & Hbuf & Hok).
  destruct (live_slot p _ c Hok (ref_slot_range r) Hc) as (n & En & _ & _ & -> & Hf & _). cbn [fst snd cell_of] in *.
  apply wp_bind, (wp_read_buf _ _ _ _ _ Hbuf).
  pose proof (ReadTrieName_image p n (top p) (ok_wf p Hok) Hf (ok_top p Hok)) as HR.
  destruct (read_name p n) as [nm|] eqn:En'; revert HR.
  - intros ->. apply wp_ret. replace (bool_decide (nm = name)) with (bool_decide (Some nm = Some name)); [done|].
    apply bool_decide_ext. split; congruence.
  - intros [e ->]. apply wp_ret. rewrite bool_decide_false in HQ by done. by rewrite bool_decide_false by congruence.
Qed.

Lemma vis_is_Some (x y : option cell) : vis <$> x = vis <$> y -> is_Some x <-> is_Some y.
Proof. destruct x, y; cbn; split; intros [? ?]; by eauto. Qed.

(** Two stores a client cannot tell apart but at the nodes [R]. *)
Definition same_vis (R : Z -> Prop) σ σ' : Prop := forall r, ~ R r -> vis <$> σ' !! r = vis <$> σ !! r.

(** The map of nodes of a state, where another map has the same domain. *)
Lemma tstore_remap s X σ pgs : phys s X pgs -> (forall r, is_Some (node pgs r) <-> is_Some (σ !! r)) ->
  exists σ', tstore s X σ' /\ forall r, σ' !! r = node pgs r.
Proof.
  intros Hp Hdom. assert (H : forall r, map_imap (fun r _ => node pgs r) σ !! r = node pgs r).
  { intros r. rewrite map_lookup_imap. destruct (σ !! r) as [c|] eqn:Er; [done|]. cbn.
    destruct (node pgs r) as [c|] eqn:En; [|done]. exfalso. destruct (proj1 (Hdom r)) as [c' Hc']; [by eexists|]. congruence. }
  eexists. split; [|exact H]. by exists pgs.
Qed.

Lemma wp_trieStoreName s X σ r c name Q E : tstore s X σ -> σ !! r = Some c ->
  1 <= blen name <= BrieFSMaxNameLen -> bytes name ->
  (forall s' σ' n, tstore s' X σ' -> t_cache s ⊆ t_cache s' -> σ' !! r = Some (n, Some name) ->
    core n = core (fst c) -> same_vis (eq r) σ σ' -> Q tt s') ->
  (forall s' σ', tstore s' X σ' -> same_vis (fun _ => False) σ σ' ->
    ts_NameLen (fst c) < blen name + 2 -> E (Errno ENOSPC) s') ->
  wp (trieStoreName r name) s Q E.
Proof.
  intros Hs Hr Hlen Hb HQ HE. destruct (node_some _ _ _ _ _ Hs Hr) as (pgs & p & Hp & Hσ & Eb & Hc).
  destruct (ph_page _ _ _ Hp _ _ Eb) as (Hok & _). pose proof (ref_slot_range r) as Hi.
  apply wp_bind. apply (wp_load s X pgs _ p); [done..|]. intros s' a Hp' Hsub Ha Hbuf _.
  apply wp_bind, (wp_read_buf _ _ _ _ _ Hbuf). apply wp_bind.
  destruct (store_name_spec p _ name c Hok Hi Hc Hlen Hb) as (q & saved & err & Est & Hspec).
  eapply wp_lift; [exact Est|]. cbn beta iota.
  assert (Hq : page_ok q) by (destruct err; apply Hspec).
  pose proof (phys_put s' X pgs _ a p q Hp' Ha Eb Hq) as Hput.
  set (s2 := put_saved s' _ a (image q)) in *.
  assert (Hrun : saved = false -> q = p -> write_buf a (image q) s' = (s', Ret tt)).
  { intros _ ->. unfold write_buf, modify. rewrite list_insert_id by done. by destruct s'. }
  assert (Hcells : forall r', TrieRefBlock r' = TrieRefBlock r -> σ !! r' = cell_at p (TrieRefSlot r')).
  { intros r' E'. rewrite Hσ. unfold node. by rewrite E', Eb. }
  destruct err as [e|].
  - destruct Hspec as (-> & _ & Hsame & Hsv & Hshort).
    assert (Hvis : forall r', vis <$> node (<[TrieRefBlock r := q]> pgs) r' = vis <$> σ !! r').
    { intros r'. rewrite node_insert. case_decide as E'; [|by rewrite Hσ]. rewrite Hcells by done.
      apply Hsame, ref_slot_range. }
    destruct saved.
    + destruct (tstore_remap s2 X σ _ Hput) as (σ' & Hst & Hσ').
      { intros r'. by apply vis_is_Some. }
      change (wp (fun _ => (s2, Err (Errno ENOSPC))) s' Q E). apply (HE s2 σ'); [done| |done].
      intros r' _. by rewrite Hσ', Hvis.
    + apply wp_bind. eapply wp_run; [by apply Hrun; [|apply Hsv]|]. apply wp_bind, wp_ret, wp_fail.
      apply (HE s' σ); [by exists pgs|by intros r' _|done].
  - destruct Hspec as (-> & _ & (n & Hn & En) & Hoth).
    assert (Hvis : forall r', r' <> r -> vis <$> node (<[TrieRefBlock r := q]> pgs) r' = vis <$> σ !! r').
    { intros r' Hne. rewrite node_insert. case_decide as E'; [|by rewrite Hσ]. rewrite Hcells by done.
      apply Hoth; [apply ref_slot_range|by apply ref_neq_slot]. }
    assert (Hown : node (<[TrieRefBlock r := q]> pgs) r = Some (n, Some name)) by (by rewrite node_insert, decide_True).
    destruct (tstore_remap s2 X σ _ Hput) as (σ' & Hst & Hσ').
    { intros r'. destruct (decide (r' = r)) as [->|Hne]; [rewrite Hown, Hr; split; by eexists|].
      by apply vis_is_Some, Hvis. }
    change (wp (fun _ => (s2, Ret tt)) s' Q E). apply (HQ s2 σ' n); [done| |by rewrite Hσ'|done|].
    + cbn. by rewrite insert_id.
    + intros r' Hne. rewrite Hσ', Hvis; [done|]. intros ->. by apply Hne.
Qed.

(** ** The world below *)
Lemma view_set_w s w' b : same_disk disk (t_w s) w' -> disk b -> view (set_w w' s) b = view s b.
Proof. intros Hw Hb. unfold view. cbn. destruct (t_cache s !! b); [done|]. by apply Hw. Qed.

Lemma phys_world s X pgs w' X' : phys s X pgs -> same_disk disk (t_w s) w' -> holds w' X' ->
  (forall b, b ∈ X -> is_Some (pgs !! b) \/ is_Some (F !! b) \/
     (exists rel, t_inReplay s = true /\ rel ∈ t_replay s /\ b = tw_start + rel) -> b ∈ X') ->
  phys (set_w w' s) X' pgs.
Proof.
  intros [A B C D I K L M N] Hw Hh HX. split; cbn; try done.
  - by eapply same_disk_trans.
  - intros b p Eb. destruct (C b p Eb) as (? & ? & (? & ? & ?)). rewrite view_set_w by done.
    unfold page_block_ok. split_and!; try done; [lia..|]. apply HX; [done|left; by eexists].
  - intros b a Ha Hd. rewrite (K b a Ha Hd). symmetry. apply Hw. by apply (D b a).
  - intros Hr. destruct (M Hr) as [HN HM]. split; [done|]. intros rel Hrel. destruct (HM rel Hrel) as ((? & ? & ?) & ? & ?).
    unfold page_block_ok. split_and!; try done; [lia..|]. apply HX; [done|]. right; right. by exists rel.
  - intros b buf Hf. destruct (N b buf Hf) as (? & ? & ? & ?). rewrite view_set_w by done.
    split_and!; try done. apply HX; [done|]. right; left. by eexists.
Qed.

Lemma phys_partials s X pgs l : phys s X pgs -> (forall b, b ∈ l -> is_Some (pgs !! b)) -> phys (set_partials l s) X pgs.
Proof. by intros [A B C D I K L M N] Hl; split. Qed.

(** Forgetting a page: its buffer is dropped and it leaves the pool. *)
Definition drop_page (b : Z) s : tstate W :=
  set_partials (base.filter (fun e => e <> b) (t_partials s))
    (set_cache (t_heap s) (delete b (t_cache s)) (t_dirty s ∖ {[b]}) s).

Lemma phys_drop s X pgs b : phys s X pgs -> is_Some (pgs !! b) -> phys (drop_page b s) X (delete b pgs).
Proof.
  intros [A B C D I K L M N] [p Eb].
  assert (Hv : forall b', b' <> b -> view (drop_page b s) b' = view s b').
  { intros b' Hne. unfold view, drop_page. cbn. by rewrite lookup_delete_ne. }
  assert (Hnone : forall b', pgs !! b' = None -> delete b pgs !! b' = None).
  { intros b' E. rewrite lookup_delete_None. auto. }
  split; cbn; try done.
  - intros b' p'. rewrite lookup_delete_Some. intros [Hne E']. rewrite Hv by done. by apply C.
  - intros b' a. rewrite lookup_delete_Some. intros [_ Ha]. by apply D.
  - intros b1 b2 a. rewrite !lookup_delete_Some. intros [_ H1] [_ H2]. by apply (I b1 b2 a).
  - intros b' a. rewrite lookup_delete_Some. intros [Hne Ha] Hd. apply K; [done|]. set_solver.
  - intros b'. rewrite list_elem_of_filter. intros [Hne Hb']. rewrite lookup_delete_ne by done. by apply L.
  - intros Hr. destruct (M Hr) as [HN HM]. split; [done|]. intros rel Hrel. destruct (HM rel Hrel) as (? & ? & ?). auto.
  - intros b' buf Hf. destruct (N b' buf Hf) as (N1 & ? & ? & ?). split_and!; auto. rewrite Hv; [done|]. congruence.
Qed.

(** A block that can become a page. *)
Definition fresh_block s X pgs (b : Z) : Prop :=
  page_block_ok X b /\ pgs !! b = None /\ F !! b = None /\ (t_inReplay s = true -> b - tw_start ∉ t_replay s).

Definition new_saved s (b : Z) (buf : list Z) : tstate W :=
  set_cache (t_heap s ++ [buf]) (<[b := length (t_heap s)]> (t_cache s)) ({[b]} ∪ t_dirty s) s.

Lemma phys_new s X pgs b q : phys s X pgs -> fresh_block s X pgs b -> page_ok q ->
  phys (new_saved s b (image q)) X pgs /\ phys (new_saved s b (image q)) X (<[b := q]> pgs).
Proof.
  intros [A B C D I K L M N] (Hb & Eb & Ef & Hr) Hq.
  assert (Hv : forall b', disk b' -> b' <> b -> view (new_saved s b (image q)) b' = view s b').
  { intros b' Hd Hne. unfold view, new_saved. cbn. rewrite lookup_insert_ne by done.
    destruct (t_cache s !! b') as [a|] eqn:Ea; [|done]. apply D in Ea as [Ha _]. by rewrite lookup_app_l. }
  assert (H1 : phys (new_saved s b (image q)) X pgs).
  { split; cbn; try done.
    - intros b' p' E'. destruct (C b' p' E') as (? & ? & (? & ? & ?)). rewrite Hv by (try done; congruence). by split_and!.
    - intros b' a. rewrite lookup_insert_Some, length_app. simpl. intros [[<- <-]|[_ Ha]].
      + split; [lia|apply Hb].
      + destruct (D b' a Ha). split; [lia|done].
    - intros b1 b2 a. rewrite !lookup_insert_Some. intros [[<- <-]|[Hn1 Ha]] [[<- ?]|[Hn2 Ha']]; try done.
      + apply D in Ha'. lia.
      + subst a. apply D in Ha. lia.
      + by apply (I b1 b2 a).
    - intros b' a. rewrite lookup_insert_Some, not_elem_of_union, not_elem_of_singleton.
      intros [[<- <-]|[Hne Ha]] [? Hd]; [done|]. destruct (D _ _ Ha). rewrite lookup_app_l by done. by apply K.
    - intros b' buf Hf. destruct (N b' buf Hf) as (? & ? & ? & ?). rewrite Hv by (try done; congruence). by split_and!. }
  split; [done|]. destruct H1 as [A1 B1 C1 D1 I1 K1 L1 M1 N1]. split; cbn in *; try done.
  - intros b' p'. rewrite lookup_insert_Some. intros [[<- <-]|[Hne E']]; [|by apply C1]. split_and!; [done| |done].
    unfold view, new_saved. cbn. by rewrite lookup_insert_eq, list_lookup_middle.
  - intros b' Hb'. destruct (L1 b' Hb') as [p' E']. rewrite lookup_insert_ne by congruence. by eexists.
  - intros Hr'. destruct (M1 Hr') as [HN HM]. split; [done|]. intros rel Hrel. destruct (HM rel Hrel) as (? & ? & ?).
    split_and!; try done. rewrite lookup_insert_ne; [done|]. intros ->. apply (Hr Hr').
    by replace (tw_start + rel - tw_start) with rel by lia.
  - intros b' buf Hf. destruct (N1 b' buf Hf) as (? & ? & ? & ?). split_and!; try done. rewrite lookup_insert_ne; [done|congruence].
Qed.

(** The errors of an operation that finds the tries intact. *)
Definition resource (e : trie_error) : Prop := e = Errno ENOSPC \/ e = ErrTrieJournal.

Lemma wp_modify (f : tstate W -> tstate W) s Q E : Q tt (f s) -> wp (modify f) s Q E.
Proof. done. Qed.

Lemma wp_page_block s X pgs Q E : phys s X pgs ->
  (forall s' X', phys s' X' pgs -> Q 0 s') ->
  (forall s' X' rel, 0 < rel -> phys s' X' pgs -> fresh_block s' X' pgs (tw_start + rel) -> Q rel s') ->
  wp page_block s Q E.
Proof.
  intros Hs HQ0 HQ. unfold wp, page_block.
  assert (Halloc : let '(w, rel) := tw_alloc (t_w s) in Q rel (set_w w s)).
  { destruct (tw_alloc (t_w s)) as [w rel] eqn:Ea. destruct (tl_alloc _ _ _ _ (ph_holds _ _ _ Hs) Ea) as [Hw Hc].
    destruct Hc as [[-> Hh]|(H1 & H2 & H3 & H4 & Hh)].
    - apply (HQ0 _ X). apply (phys_world s X); [done..|]. auto.
    - assert (Hs' : phys (set_w w s) ({[tw_start + rel]} ∪ X) pgs).
      { apply (phys_world s X); [done..|]. set_solver. }
      apply (HQ _ _ _ H1 Hs'). unfold fresh_block, page_block_ok. split_and!; [lia|lia|set_solver|done|..].
      + destruct (pgs !! (tw_start + rel)) as [p|] eqn:E'; [|done]. destruct (ph_page _ _ _ Hs _ _ E') as (_ & _ & (_ & ? & _)). done.
      + destruct (F !! (tw_start + rel)) as [p|] eqn:E'; [|done]. destruct (ph_frame _ _ _ Hs _ _ E') as (_ & ? & _). done.
      + intros Hr Hin. apply (ph_replay _ _ _ Hs) in Hr as [_ Hr]. cbn in Hin.
        replace (tw_start + rel - tw_start) with rel in Hin by lia. by destruct (Hr rel Hin) as ((_ & ? & _) & _). }
  destruct (t_inReplay s) eqn:Er; [|by destruct (tw_alloc (t_w s))].
  destruct (last (t_replay s)) as [rel|] eqn:El; [|by destruct (tw_alloc (t_w s))].
  apply last_Some in El as [l El]. destruct (ph_replay _ _ _ Hs Er) as [HN HM]. rewrite El in *.
  rewrite length_app, Nat.add_sub, take_app_length. apply NoDup_app in HN as (HN & Hdis & _).
  destruct (HM rel) as (Hb & Hpg & HF); [set_solver|]. apply (HQ _ X); [unfold page_block_ok in Hb; lia|..].
  - destruct Hs as [A B C D I K L M N]. split; cbn; try done. intros _. split; [done|]. intros r' Hr'. apply HM. set_solver.
  - split_and!; try done. cbn. intros _ Hin. replace (tw_start + rel - tw_start) with rel in Hin by lia.
    apply (Hdis rel Hin). set_solver.
Qed.

Lemma wp_write_record s X pgs b op Q E : phys s X pgs ->
  (forall s', phys s' X pgs -> t_inReplay s' = t_inReplay s -> t_replay s' = t_replay s -> Q tt s') ->
  (forall s', phys s' X pgs -> E ErrTrieJournal s') ->
  wp (write_record b op) s Q E.
Proof.
  intros Hs HQ HE. unfold wp, write_record. destruct (tw_record _ (t_w s)) as [w x] eqn:Er.
  destruct (tl_record _ _ _ _ _ (ph_holds _ _ _ Hs) Er) as [Hw Hh].
  assert (Hs' : phys (set_w w s) X pgs) by (apply (phys_world s X); [done..|]; auto).
  destruct x; [by apply HE|by apply HQ].
Qed.

Lemma wp_triePageInit s X pgs depth byteVal nodeType Q E : phys s X pgs ->
  is_u8 depth -> is_u8 byteVal -> is_u8 nodeType ->
  (forall s' X' b q, phys s' X' (<[b := q]> pgs) -> pgs !! b = None -> 0 <= b < 2 ^ 58 -> top q = 0 ->
    (forall i, 0 <= i < 64 -> cell_at q i
       = if decide (i = 0) then Some (mkTrieSlot 0 0 0 0 0 depth nodeType byteVal 0 0 0, None) else None) ->
    Q (b * 64) s') ->
  (forall s' X' e, phys s' X' pgs -> resource e -> E e s') ->
  wp (triePageInit depth byteVal nodeType) s Q E.
Proof.
  intros Hs H1 H2 H3 HQ HE. pose proof (tl_start (W := W)) as H0. unfold triePageInit. apply wp_bind.
  apply (wp_page_block s X pgs); [done|..]; clear s X Hs.
  { intros s X Hs. apply wp_fail. by eapply HE; [|left]. }
  intros s X rel Hrel Hs Hfr. rewrite (proj2 (Z.eqb_neq rel 0)) by lia. pose proof Hfr as ((Hb & HX & Hd) & Epg & Ef & Hrep).
  rewrite u64_small by (unfold is_u64; lia). destruct (new_page_spec depth byteVal nodeType H1 H2 H3) as (q & Eq & Hq & Ht & Hc).
  apply wp_bind. eapply wp_lift; [exact Eq|]. set (b := tw_start + rel) in *.
  change (wp (fun s => (try (write_record b 0) (fun _ => _ ← addPartial b; mret (TrieMakeRef b 0))
    (fun e => _ ← modify (fun s => set_w (tw_free rel (t_w s)) s); fail e)) (new_saved s b (image q))) s Q E).
  destruct (phys_new s X pgs b q Hs Hfr Hq) as [Hn1 Hn2]. unfold wp.
  match goal with |- match ?m ?st with _ => _ end => change (wp m st Q E) end.
  apply wp_try. unfold wp, write_record. destruct (tw_record _ _) as [w x] eqn:Er.
  destruct (tl_record _ _ _ _ _ (ph_holds _ _ _ Hn1) Er) as [Hw Hh]. destruct x.
  - assert (Hs1 : phys (set_w w (new_saved s b (image q))) X pgs) by (apply (phys_world _ X); [done..|]; auto).
    apply wp_bind, wp_modify, wp_fail. destruct (tl_free w X rel Hh Hrel HX) as [Hw2 Hh2].
    apply (HE _ (X ∖ {[b]})); [|by right]. apply (phys_world _ X); [exact Hs1|exact Hw2|exact Hh2|].
    intros b' Hb' Hc'. apply elem_of_difference. split; [done|]. rewrite elem_of_singleton. intros ->.
    destruct Hc' as [[? ?]|[[? ?]|(r & Hr1 & Hr2 & Hr3)]]; [congruence|congruence|]. cbn in Hr1, Hr2.
    apply (Hrep Hr1). by replace (b - tw_start) with r by lia.
  - assert (Hs1 : phys (set_w w (new_saved s b (image q))) X (<[b:=q]> pgs)) by (apply (phys_world _ X); [done..|]; auto).
    apply wp_bind, wp_modify, wp_ret. rewrite make_ref, Z.add_0_r by lia. apply (HQ _ X b q); [|done|lia|done|done].
    case_bool_decide; [done|]. apply phys_partials; [done|]. intros b'. rewrite elem_of_app, list_elem_of_singleton.
    intros [Hb'| ->]; [|by rewrite lookup_insert_eq]. by apply (ph_partials _ _ _ Hs1).
Qed.

(** ** Freeing a node *)

(** A page whose cells are those of the store but for node [r]. *)
Lemma node_replaced σ pgs p q r x : (forall r, σ !! r = node pgs r) -> pgs !! TrieRefBlock r = Some p ->
  (forall i, 0 <= i < 64 -> cell_at q i = if decide (i = TrieRefSlot r) then x else cell_at p i) ->
  forall r', node (<[TrieRefBlock r := q]> pgs) r' = if decide (r' = r) then x else σ !! r'.
Proof.
  intros Hσ Eb Hc r'. rewrite node_insert. case_decide as E1.
  - rewrite Hc by apply ref_slot_range. destruct (decide (r' = r)) as [->|Hne]; [by rewrite decide_True|].
    rewrite decide_False by (by apply ref_neq_slot). rewrite Hσ. unfold node. by rewrite E1, Eb.
  - rewrite decide_False by congruence. done.
Qed.

Lemma wp_addPartial s X pgs b Q E : phys s X pgs -> is_Some (pgs !! b) ->
  (forall s', phys s' X pgs -> t_cache s' = t_cache s -> t_heap s' = t_heap s -> Q tt s') -> wp (addPartial b) s Q E.
Proof.
  intros Hs Hb HQ. apply wp_modify. case_bool_decide; [by apply HQ|]. apply HQ; [|done|done]. apply phys_partials; [done|].
  intros b'. rewrite elem_of_app, list_elem_of_singleton. intros [Hb'| ->]; [|done]. by apply (ph_partials _ _ _ Hs).
Qed.

Lemma wp_drop_page s X pgs b p Q E : phys s X pgs -> pgs !! b = Some p ->
  (forall s' X', phys s' X' (delete b pgs) -> Q tt s') ->
  (forall s' X' e, phys s' X' (delete b pgs) -> resource e -> E e s') ->
  wp (_ ← cacheDrop b; _ ← removePartial b; _ ← write_record b 1;
      modify (fun s => set_w (tw_defer b (t_w s)) s)) s Q E.
Proof.
  intros Hs Eb HQ HE. destruct (ph_page _ _ _ Hs _ _ Eb) as (_ & _ & (Hb & HX & Hd)).
  pose proof (phys_drop s X pgs b Hs ltac:(by eexists)) as Hs1.
  apply wp_bind, wp_modify, wp_bind, wp_modify, wp_bind.
  match goal with |- wp _ ?st _ _ => change st with (drop_page b s) end. apply (wp_write_record _ X (delete b pgs)); [done|..].
  - intros s2 Hs2 Hi Hr. apply wp_modify. destruct (tl_defer (t_w s2) X b (ph_holds _ _ _ Hs2) (proj1 Hb) HX) as [Hw Hh].
    apply (HQ _ (X ∖ {[b]})). apply (phys_world _ X); [done..|]. intros b' Hb' Hc. apply elem_of_difference. split; [done|].
    rewrite elem_of_singleton. intros ->. destruct Hc as [[? E']|[[buf E']|(rel & Hr1 & Hr2 & Hr3)]].
    + by rewrite lookup_delete_eq in E'.
    + destruct (ph_frame _ _ _ Hs _ _ E') as (? & _). congruence.
    + rewrite Hi in Hr1. rewrite Hr in Hr2. cbn in Hr1, Hr2. destruct (ph_replay _ _ _ Hs Hr1) as [_ HM].
      destruct (HM rel Hr2) as (_ & ? & _). congruence.
  - intros s2 Hs2. apply (HE _ X); [done|by right].
Qed.

(** The state between zeroing a slot of page [p] and saving the page. *)
Definition scribbled s (a : nat) (p : page) (i : Z) : tstate W :=
  set_cache (<[a := image (with_slot p i zero_slot)]> (t_heap s)) (t_cache s) (t_dirty s) s.

Section free.
Context (s : tstate W) (X : gset Z) (pgs : gmap Z page) (b i : Z) (p : page) (a : nat).
Context (Hs : phys s X pgs) (Ha : t_cache s !! b = Some a) (Eb : pgs !! b = Some p).
Context (Hi : 0 <= i < 64) (Hl : live p i = true).
Let h : TriePage := p_hdr (released p i).

Lemma free_page_ok : page_ok p.
Proof using Hs Eb. by apply (ph_page _ _ _ Hs _ _ Eb). Qed.

Lemma wp_free_last Q E :
  (forall s' X', phys s' X' (delete b pgs) -> Q tt s') ->
  (forall s' X' e, phys s' X' (delete b pgs) -> resource e -> E e s') ->
  wp (_ ← cacheDrop b; _ ← removePartial b; _ ← write_record b 1;
      modify (fun s => set_w (tw_defer b (t_w s)) s)) (scribbled s a p i) Q E.
Proof using Hs Ha Eb Hi Hl HL.
  intros HQ HE. pose proof (page_zero p i free_page_ok Hi Hl) as Hz. set (z := with_slot p i zero_slot) in *.
  pose proof (phys_put s X pgs _ a p z Hs Ha Eb Hz) as Hp2.
  apply (wp_bind_eq _ _ _ (put_saved s b a (image z))).
  { unfold cacheDrop, modify, scribbled, put_saved, set_cache. cbn. by rewrite delete_insert_eq, <- drop_union. }
  rewrite <- (delete_insert_eq pgs b z) in HQ, HE. apply (wp_drop_page _ X (<[b:=z]> pgs) b z); [done|by rewrite lookup_insert_eq|done|done].
Qed.

Lemma wp_free_some Q E :
  (forall s', phys s' X (<[b := released p i]> pgs) -> Q tt s') ->
  wp (_ ← (if negb (tp_FreeSlots h =? 0) then addPartial b else mret tt); _ ← put_page a h; saveBlock b a)
    (scribbled s a p i) Q E.
Proof using Hs Ha Eb Hi Hl.
  intros HQ. pose proof (ok_wf p free_page_ok) as Hwf. destruct (page_release p i free_page_ok Hi Hl) as [Hq _].
  pose proof (ph_addr _ _ _ Hs _ _ Ha) as [Hlt _].
  assert (Hhdr : putPage (image (with_slot p i zero_slot)) h = Ret (image (released p i))).
  { apply putPage_image; [apply page_wf_slot; [done|apply zero_slot_wf]|apply (wf_hdr _ (ok_wf _ Hq))]. }
  assert (Hfin : forall s3, phys s3 X pgs -> t_cache s3 = t_cache s -> length (t_heap s3) = length (t_heap s) ->
    wp (_ ← put_page a h; saveBlock b a) (scribbled s3 a p i) Q E).
  { intros s3 Hs3 Ec3 Eh3. eapply (wp_run _ _ (put_saved s3 b a (image (released p i))) tt).
    - unfold put_page, read_buf, mbind, SM_bind. cbn [scribbled set_cache t_heap].
      rewrite list_lookup_insert_eq by lia. unfold lift.
      rewrite Hhdr. cbn. unfold put_saved. by rewrite list_insert_insert_eq.
    - apply HQ. eapply phys_put; [done|by rewrite Ec3|done|done]. }
  apply wp_bind. destruct (negb _); [|by apply wp_ret, Hfin]. apply wp_modify. cbn. case_bool_decide; [by apply Hfin|].
  refine (Hfin (set_partials (t_partials s ++ [b]) s) _ eq_refl eq_refl). apply phys_partials; [done|].
  intros b'. rewrite elem_of_app, list_elem_of_singleton. intros [Hb'| ->]; [by apply (ph_partials _ _ _ Hs)|by eexists].
Qed.

End free.

Lemma wp_trieFreeNode s X σ r c Q E : tstore s X σ -> σ !! r = Some c ->
  (forall s' X', tstore s' X' (delete r σ) -> Q tt s') ->
  (forall s' X' e, tstore s' X' (delete r σ) -> resource e -> E e s') ->
  wp (trieFreeNode r) s Q E.
Proof.
  intros Hs Hr HQ HE. pose proof (tstore_ref _ _ _ _ _ Hs Hr) as Hr0.
  destruct (node_some _ _ _ _ _ Hs Hr) as (pgs & p & Hp & Hσ & Eb & Hc).
  destruct (ph_page _ _ _ Hp _ _ Eb) as (Hok & _). pose proof (ok_wf p Hok) as Hwf. pose proof (ref_slot_range r) as Hi.
  destruct (live_slot p _ c Hok Hi Hc) as (n & En & _ & Hl & _). destruct (page_release p _ Hok Hi Hl) as [Hq Hcells].
  unfold trieFreeNode, TrieRefIsNull. rewrite (proj2 (Z.eqb_neq r 0)) by lia.
  apply wp_bind. apply (wp_load s X pgs _ p); [done..|]. intros s1 a Hp1 _ Ha Hbuf _.
  apply wp_bind, (wp_read_buf _ _ _ _ _ Hbuf). apply wp_bind. eapply wp_lift; [by apply ReadTriePage_image|].
  rewrite slot_free_live by done. rewrite Hl. cbn [negb].
  apply wp_bind. eapply (wp_run _ _ (scribbled s1 a p (TrieRefSlot r)) tt).
  { unfold put_slot, read_buf, mbind, SM_bind. rewrite Hbuf. unfold lift.
    rewrite (putSlot_image p Hwf) by (try done; apply zero_slot_wf). reflexivity. }
  assert (Hσ' : forall r', delete r σ !! r' = node (<[TrieRefBlock r := released p (TrieRefSlot r)]> pgs) r').
  { intros r'. rewrite (node_replaced σ pgs p _ r None Hσ Eb Hcells).
    case_decide as E'; [by subst; rewrite lookup_delete_eq|by rewrite lookup_delete_ne]. }
  match goal with |- context [if negb (tp_LiveCount ?h0 =? 0) then _ else _] =>
    change h0 with (p_hdr (released p (TrieRefSlot r))) end.
  destruct (tp_LiveCount _ =? 0) eqn:Elive; cbn [negb].
  - apply Z.eqb_eq in Elive.
    assert (Hdel : forall r', delete r σ !! r' = node (delete (TrieRefBlock r) pgs) r').
    { intros r'. rewrite Hσ', node_insert. unfold node. case_decide as E'.
      - rewrite E', lookup_delete_eq. apply empty_page; [done|done|apply ref_slot_range].
      - by rewrite lookup_delete_ne. }
    apply (wp_free_last s1 X pgs); [done..| |].
    + intros s' X' Hs'. apply (HQ _ X'). by eexists.
    + intros s' X' e Hs'. apply (HE _ X'). by eexists.
  - apply (wp_free_some s1 X pgs); [done..|]. intros s' Hs'. apply (HQ _ X). by eexists.
Qed.

(** ** Allocating a node *)
Lemma wp_put_both {A} s X pgs b a p h i n (k : SM (tstate W) A) Q E :
  let q := mkPage h (<[Z.to_nat i := n]> (p_slots p)) (p_heap p) in
  phys s X pgs -> t_heap s !! a = Some (image p) -> page_ok p -> page_ok q -> 0 <= i < 64 -> codec_wf n ->
  wp k (put_saved s b a (image q)) Q E -> wp (_ ← put_page a h; _ ← put_slot a i n; _ ← saveBlock b a; k) s Q E.
Proof.
  intros q Hs Hbuf Hp Hq Hi Hn Hk. pose proof (ok_wf p Hp) as Hwf. pose proof (wf_hdr q (ok_wf q Hq)) as Hh.
  pose proof (lookup_lt_Some _ _ _ Hbuf) as Hlt.
  assert (Hwf1 : page_wf (with_hdr p h)) by (apply page_wf_hdr; [done|done|apply (wf_magic q (ok_wf q Hq))]).
  apply wp_bind. eapply (wp_run _ _ (set_cache (<[a := image (with_hdr p h)]> (t_heap s)) (t_cache s) (t_dirty s) s) tt).
  { unfold put_page, read_buf, mbind, SM_bind. rewrite Hbuf. unfold lift. by rewrite (putPage_image p Hwf). }
  apply wp_bind. eapply (wp_run _ _ (set_cache (<[a := image q]> (t_heap s)) (t_cache s) (t_dirty s) s) tt).
  { unfold put_slot, read_buf, mbind, SM_bind. cbn [set_cache t_heap]. rewrite list_lookup_insert_eq by done. unfold lift.
    rewrite (putSlot_image _ Hwf1) by done. unfold write_buf, modify. cbn [set_cache t_heap t_cache t_dirty].
    by rewrite list_insert_insert_eq. }
  by apply wp_bind, wp_modify.
Qed.

(** The header and the slot of a page that gives out slot [i]. *)
Lemma reserve_taken p i n : page_ok p -> 0 <= n -> top p + n <= heap_size ->
  (let pg := set_free (p_hdr p) (u16 (tp_LiveCount (p_hdr p) + 1)) (tp_FreeNameOff (p_hdr p))
               (Z.ldiff (tp_FreeSlots (p_hdr p)) (shl64 1 i)) in
   if 0 <? n then reserveNameHeap pg zero_slot n else (pg, zero_slot))
  = (p_hdr (taken p i n), set_name zero_slot n (if n =? 0 then 0 else top p + n)).
Proof.
  intros Hp Hn Ht. pose proof (page_top_pos p Hp). unfold heap_size in *. cbn zeta. destruct (Z.ltb_spec 0 n).
  - rewrite (proj2 (Z.eqb_neq n 0)) by lia. unfold reserveNameHeap, taken. cbn [set_free p_hdr tp_FreeNameOff tp_LiveCount tp_FreeSlots].
    change (tp_FreeNameOff (p_hdr p)) with (top p). by rewrite (u16_small (top p + n)) by (unfold is_u16; lia).
  - assert (n = 0) as -> by lia. unfold taken. cbn [p_hdr]. by rewrite Z.add_0_r.
Qed.

Lemma has_heap_iff p n : page_ok p -> 0 <= n <= 300 ->
  triePageHasNameHeap (p_hdr p) 4096 n = true -> top p + n <= heap_size.
Proof.
  intros Hp Hn. pose proof (ok_top p Hp). unfold triePageHasNameHeap. destruct (Z.eqb_spec n 0) as [->|]; [lia|].
  rewrite Z.leb_antisym, full_iff by done. rewrite negb_true_iff, Z.ltb_ge. done.
Qed.

Lemma wp_scan_partials X pgs n E : 0 <= n <= 300 -> forall blocks s Q, phys s X pgs ->
  (forall b, b ∈ blocks -> is_Some (pgs !! b)) ->
  (forall s' out, phys s' X pgs -> out ⊆ blocks -> Q (out, None) s') ->
  (forall s' out b i p, phys s' X (<[b := taken p i n]> pgs) -> out ⊆ blocks -> pgs !! b = Some p -> 0 <= i < 64 ->
    live p i = false -> top p + n <= heap_size -> Q (out, Some (b * 64 + i)) s') ->
  wp (scan_partials blocks n) s Q E.
Proof.
  intros Hn. induction blocks as [|b blocks IH]; intros s Q Hs Hall HQ0 HQ; [by apply (HQ0 s [])|].
  destruct (Hall b ltac:(set_solver)) as [p Eb]. destruct (ph_page _ _ _ Hs _ _ Eb) as (Hok & _ & (Hb & _)).
  pose proof (ok_wf p Hok) as Hwf. pose proof (tl_start (W := W)) as H0.
  assert (Hall' : forall b, b ∈ blocks -> is_Some (pgs !! b)) by (intros; apply Hall; set_solver).
  cbn [scan_partials]. apply wp_try, wp_bind. apply (wp_load s X pgs _ p); [done..|]. intros s1 a Hs1 _ Ha Hbuf _.
  apply wp_bind, (wp_read_buf _ _ _ _ _ Hbuf). apply wp_bind. eapply wp_lift; [by apply ReadTriePage_image|].
  apply wp_ret. cbn beta iota. destruct (triePageHasNameHeap (p_hdr p) 4096 n) eqn:Eh; cbn [negb].
  2: { apply wp_bind. apply IH; [done|done|..].
       - intros s' out Hs' Hout. apply wp_ret, HQ0; [done|clear - Hout; set_solver].
       - intros s' out b' i p' Hs' Hout ? ? ? ?. apply wp_ret, (HQ _ _ b' i p'); [done|clear - Hout; set_solver|done..]. }
  pose proof (has_heap_iff p n Hok Hn Eh) as Ht. pose proof (alloc_slot_spec (p_hdr p) 64 0 ltac:(lia) ltac:(lia)) as Hal.
  unfold triePageAllocSlot. change (Z.to_nat TrieSlotsPerBlock) with 64%nat.
  destruct (alloc_slot 64 0 (p_hdr p)) as [pg [i|]].
  2: { apply IH; [done|done|..].
       - intros s' out Hs' Hout. apply HQ0; [done|clear - Hout; set_solver].
       - intros s' out b' i p' Hs' Hout ? ? ? ?. apply (HQ _ _ b' i p'); [done|clear - Hout; set_solver|done..]. }
  destruct Hal as (Hi & Hfree & ->). rewrite slot_free_live in Hfree by lia. apply negb_true_iff in Hfree.
  pose proof (reserve_taken p i n Hok ltac:(lia) Ht) as Er. cbn zeta in Er. rewrite Er.
  destruct (page_take p i n Hok ltac:(lia) Hfree ltac:(lia) Ht) as [Hq _].
  eapply (wp_put_both s1 X pgs b a p); [done|done|done|exact Hq|lia| |].
  { destruct (slot_at_lt _ (ok_wf _ Hq) i ltac:(lia)) as (sn & Es & Hw). unfold slot_at, taken in Es. cbn [p_slots] in Es.
    rewrite list_lookup_insert_eq in Es by (rewrite (wf_count p Hwf); lia). by injection Es as <-. }
  apply wp_ret. rewrite make_ref by lia. apply (HQ _ _ b i p); [by eapply phys_put| |done|lia|done|done].
  destruct (tp_FreeSlots (p_hdr (taken p i n)) =? 0); [|done]. intros x Hx. by apply list_elem_of_further.
Qed.

(** A node that has just been allocated, with room for a name of [nameLen]
    bytes. *)
Definition new_cell (nameLen : Z) (c : cell) : Prop :=
  core (fst c) = zero_slot /\ (0 < nameLen -> ts_NameLen (fst c) = nameLen + 2).

Definition name_size (nameLen : Z) : Z := if 0 <? nameLen then u16 (nameLen + 2) else 0.

Lemma name_size_range nameLen : nameLen <= BrieFSMaxNameLen ->
  0 <= name_size nameLen <= 300 /\ (0 < nameLen -> name_size nameLen = nameLen + 2).
Proof.
  unfold name_size, BrieFSMaxNameLen. intros H. destruct (Z.ltb_spec 0 nameLen); [|lia].
  rewrite u16_small by (unfold is_u16; lia). lia.
Qed.

(** A cell more. *)
Lemma tstore_add s X σ pgs b i q c : (forall r, σ !! r = node pgs r) -> phys s X (<[b := q]> pgs) -> 0 <= i < 64 ->
  (forall j, 0 <= j < 64 -> cell_at q j = if decide (j = i) then Some c else σ !! (b * 64 + j)) ->
  tstore s X (<[b * 64 + i := c]> σ).
Proof.
  intros Hσ Hs Hi Hc. exists (<[b := q]> pgs). split; [done|]. intros r. rewrite node_insert.
  pose proof (ref_split r) as Hr. pose proof (ref_slot_range r) as Hsr. case_decide as E.
  - subst b. rewrite Hc by done. destruct (decide (TrieRefSlot r = i)) as [<-|Hne].
    + by rewrite <- Hr, lookup_insert_eq.
    + rewrite <- Hr, lookup_insert_ne; [done|lia].
  - rewrite lookup_insert_ne; [done|]. intros <-. apply E. by apply ref_block.
Qed.

(** Reserving heap space on the page that was just made. *)
Lemma wp_reserve_first s X σ pgs b q n c Q E : 0 < n <= 300 -> (forall r, σ !! r = node pgs r) -> pgs !! b = None ->
  phys s X (<[b := q]> pgs) -> 0 <= b < 2 ^ 58 -> top q = 0 ->
  (forall i, 0 <= i < 64 -> cell_at q i = if decide (i = 0) then Some c else None) ->
  (forall s' nm, tstore s' X (<[b * 64 := (set_name (fst c) n n, nm)]> σ) -> Q (b * 64) s') ->
  wp (let block := TrieRefBlock (b * 64) in
      a ← loadBlock block; buf ← read_buf a; pg ← lift (ReadTriePage buf); s ← lift (ReadTrieSlot buf 0);
      let '(pg, s) := reserveNameHeap pg s n in
      _ ← put_page a pg; _ ← put_slot a 0 s; _ ← saveBlock block a; mret (b * 64)) s Q E.
Proof.
  intros Hn Hσ Eb Hs Hb Ht Hc HQ. pose proof (Hc 0 ltac:(lia)) as H0. cbn in H0.
  destruct (ph_page _ _ _ Hs b q (lookup_insert_eq _ _ _)) as (Hok & _). pose proof (ok_wf q Hok) as Hwf.
  destruct (live_slot q 0 c Hok ltac:(lia) H0) as (t & Et & Hw & Hl & -> & _). cbn [fst cell_of] in HQ.
  pose proof (ref_block b 0 ltac:(lia)) as Erb. rewrite Z.add_0_r in Erb. cbn zeta. rewrite Erb.
  apply wp_bind. apply (wp_load s X (<[b := q]> pgs) b q); [done|by rewrite lookup_insert_eq|]. intros s1 a Hs1 _ Ha Hbuf _.
  apply wp_bind, (wp_read_buf _ _ _ _ _ Hbuf). apply wp_bind. eapply wp_lift; [by apply ReadTriePage_image|].
  apply wp_bind. eapply wp_lift; [apply ReadTrieSlot_image; [done|lia|exact Et]|].
  unfold reserveNameHeap. change (tp_FreeNameOff (p_hdr q)) with (top q). rewrite Ht, u16_small by (unfold is_u16; lia).
  destruct (page_reserve q 0 t n Hok ltac:(lia) Hl Et ltac:(lia)) as (_ & Hq & Hw' & _ & Hl' & _ & Hoth);
    [unfold heap_size; lia|]. rewrite Ht, Z.add_0_l in *.
  eapply (wp_put_both s1 X (<[b := q]> pgs) b a q); [done|done|done|exact Hq|lia|exact Hw'|].
  set (q' := mkPage _ _ _) in *.
  assert (Eq' : cell_at q' 0 = Some (set_name t n n, read_name q' (set_name t n n))).
  { unfold cell_at. change (live q' 0) with (live q 0). rewrite Hl. unfold q'.
    rewrite slot_at_with by (try done; lia). done. }
  apply wp_ret. apply (HQ _ (read_name q' (set_name t n n))). rewrite <- (Z.add_0_r (b * 64)).
  eapply (tstore_add _ _ _ pgs b 0 q'); [done| |lia|].
  - rewrite <- (insert_insert_eq pgs b q' q). by eapply phys_put; [|..|rewrite lookup_insert_eq|].
  - intros j Hj. destruct (decide (j = 0)) as [->|E']; [exact Eq'|]. rewrite Hσ, node_block, Eb by done. cbn.
    specialize (Hoth j Hj E'). rewrite Hc, decide_False in Hoth by done. by destruct (cell_at q' j).
Qed.

Lemma wp_trieAllocNode s X σ nameLen Q E : tstore s X σ -> nameLen <= BrieFSMaxNameLen ->
  (forall s' X' r c, tstore s' X' (<[r := c]> σ) -> σ !! r = None -> new_cell nameLen c -> Q r s') ->
  (forall s' X' e, tstore s' X' σ -> resource e -> E e s') ->
  wp (trieAllocNode nameLen) s Q E.
Proof.
  intros (pgs & Hs & Hσ) Hlen HQ HE. destruct (name_size_range nameLen Hlen) as [Hn Hn2]. unfold trieAllocNode.
  fold (name_size nameLen). set (n := name_size nameLen) in *. apply wp_bind.
  match goal with |- wp _ _ ?Q ?E => change (wp (scan_partials (t_partials s) n) s Q E) end.
  apply (wp_scan_partials X pgs n); [done|done|apply (ph_partials _ _ _ Hs)|..].
  - intros s1 out Hs1 Hout. apply wp_bind, wp_modify, wp_bind.
    assert (Hs2 : phys (set_partials out s1) X pgs).
    { apply phys_partials; [done|]. intros b Hb. by apply (ph_partials _ _ _ Hs), Hout. }
    eapply wp_triePageInit; [exact Hs2|unfold is_u8; lia..| |].
    + intros s' X' b q Hs' Eb Hb Ht Hc. destruct (Z.ltb_spec 0 n).
      * eapply wp_reserve_first; [lia|done|exact Eb|exact Hs'|done|done|exact Hc|].
        intros s'' nm Hs''. apply (HQ s'' X' _ _ Hs''); [|split; [done|exact Hn2]].
        rewrite Hσ, <- (Z.add_0_r (b * 64)), node_block, Eb by lia. done.
      * apply wp_ret. rewrite <- (Z.add_0_r (b * 64)).
        eapply (HQ s' X'); [eapply (tstore_add _ _ _ pgs b 0 q)|..]; [done|done|lia| | |].
        -- intros j Hj. rewrite Hc by done. case_decide; [done|]. by rewrite Hσ, node_block, Eb.
        -- by rewrite Hσ, node_block, Eb by lia.
        -- split; [done|]. intros H0. specialize (Hn2 H0). unfold BrieFSMaxNameLen in *. lia.
    + intros s' X' e Hs'. apply (HE s' X'). by exists pgs.
  - intros s1 out b i p Hs1 Hout Eb Hi Hl Ht. apply wp_bind, wp_modify, wp_ret.
    destruct (ph_page _ _ _ Hs _ _ Eb) as (Hok & _). destruct (page_take p i n Hok Hi Hl ltac:(lia) Ht) as (_ & nm & Hc).
    eapply (HQ _ X); [eapply (tstore_add _ _ _ pgs b i (taken p i n))|..]; [done| |done| | |].
    + apply phys_partials; [done|]. intros b' Hb'. destruct (ph_partials _ _ _ Hs b' (Hout _ Hb')) as [p' E'].
      destruct (decide (b' = b)) as [->|]; [by rewrite lookup_insert_eq|]. rewrite lookup_insert_ne by done. by eexists.
    + intros j Hj. rewrite Hc by done. case_decide; [done|]. by rewrite Hσ, node_block, Eb.
    + rewrite Hσ, node_block, Eb by done. cbn. unfold cell_at. by rewrite Hl.
    + split; [done|exact Hn2].
Qed.

(** A page for a root. *)
Lemma wp_new_root s X σ nodeType Q E : tstore s X σ -> is_u8 nodeType ->
  (forall s' X' r, tstore s' X' (<[r := (mkTrieSlot 0 0 0 0 0 0 nodeType 0 0 0 0, None)]> σ) -> σ !! r = None -> Q r s') ->
  (forall s' X' e, tstore s' X' σ -> resource e -> E e s') ->
  wp (triePageInit 0 0 nodeType) s Q E.
Proof.
  intros (pgs & Hs & Hσ) Ht HQ HE. eapply wp_triePageInit; [exact Hs|unfold is_u8; lia|unfold is_u8; lia|done|..].
  - intros s' X' b q Hs' Eb Hb _ Hc. rewrite <- (Z.add_0_r (b * 64)). apply (HQ s' X').
    + eapply (tstore_add _ _ _ pgs b 0 q); [done|done|lia|]. intros j Hj. rewrite Hc by done. case_decide; [done|].
      by rewrite Hσ, node_block, Eb.
    + by rewrite Hσ, node_block, Eb by lia.
  - intros s' X' e Hs'. apply (HE s' X'). by exists pgs.
Qed.

End store.
