(* ===== verification/TrieShape.v ===== *)
(** * The shape of a directory's trie

    A trie is seen as a finite map [T] from paths to node references: the root
    is at the empty path, and the node at [p ++ [b]] is the child of the node at
    [p] for byte [b].  [shape] relates that map to the nodes of a store: the
    children of a node are on its chain of siblings, in some order.  [entries]
    says which names a trie holds.  The lemmas of this file are about the
    changes of links: adding a child at the end of a chain, taking one out of
    it. *)

From stdpp Require Import base numbers list option gmap.
From Stdlib Require Import ZArith Lia.
From S2P Require Import Prelude Codec Bits TriePage Trie TrieStore.

Local Open Scope Z_scope.

Abbreviation path := (list Z).
Abbreviation nodes := (gmap Z cell).

Implicit Types (T : gmap path Z) (σ : nodes) (p q : path) (r k : Z) (bs : list Z) (n : TrieSlot).

(** ** Nodes *)
Definition interm n : bool := negb (Z.land (ts_NodeType n) NodeTypeInterm =? 0).

Definition nxt σ r : option Z := ts_NextSibling ∘ fst <$> σ !! r.

(** The references on the chain of siblings that starts at [r]. *)
Fixpoint chain σ r (ks : list Z) : Prop :=
  match ks with
  | [] => r = 0
  | k :: ks => r = k /\ k <> 0 /\ exists r', nxt σ k = Some r' /\ chain σ r' ks
  end.

Lemma chain_ext σ σ' ks : forall r, (forall k, k ∈ ks -> nxt σ' k = nxt σ k) -> chain σ r ks -> chain σ' r ks.
Proof.
  induction ks as [|k ks IH]; intros r H; [done|]. cbn. intros (-> & Hk & r' & Hn & Hc).
  split_and!; [done|done|]. exists r'. rewrite H by set_solver. split; [done|]. apply IH; [|done]. set_solver.
Qed.


(** ** Families *)
Definition kid T p (b : Z) : Z := default 0 (T !! (p ++ [b])).

(** The children of node [n] at [p] are those for the bytes [bs], in order. *)
Record fam T σ p n bs : Prop := {
  fam_nodup : NoDup bs;
  fam_dom b : is_Some (T !! (p ++ [b])) <-> b ∈ bs;
  fam_chain : chain σ (ts_FirstChild n) (kid T p <$> bs);
  fam_count : ts_ChildCount n = Z.of_nat (length bs);
  fam_leaf : interm n = false -> bs = [];
}.

Record shape T σ : Prop := {
  sh_inj p q r : T !! p = Some r -> T !! q = Some r -> p = q;
  sh_parent p b : is_Some (T !! (p ++ [b])) -> is_Some (T !! p);
  sh_len p : is_Some (T !! p) -> bytes p /\ (length p <= 255)%nat;
  sh_node p r : T !! p = Some r -> r <> 0 /\ exists c bs, σ !! r = Some c /\ fam T σ p (fst c) bs;
  sh_byte p b r c : T !! (p ++ [b]) = Some r -> σ !! r = Some c -> ts_ByteVal (fst c) = b;
}.

Lemma fam_ext T T' σ σ' p n n' bs : fam T σ p n bs ->
  (forall b, T' !! (p ++ [b]) = T !! (p ++ [b])) ->
  (forall b k, T !! (p ++ [b]) = Some k -> nxt σ' k = nxt σ k) ->
  ts_FirstChild n' = ts_FirstChild n -> ts_ChildCount n' = ts_ChildCount n ->
  (interm n = true -> interm n' = true) -> fam T' σ' p n' bs.
Proof.
  intros [A B C D L] HT Hn E1 E2 E3. split; [done| | |congruence|].
  - intros b. by rewrite HT.
  - rewrite E1. rewrite (list_fmap_ext (kid T' p) (kid T p) bs) by (intros; unfold kid; by rewrite HT).
    eapply chain_ext; [|done]. intros k. rewrite list_elem_of_fmap. intros (b & -> & Hb). apply B in Hb as [k Hk].
    unfold kid. rewrite Hk. by apply (Hn b).
  - destruct (interm n); [by rewrite E3|auto].
Qed.

(** ** Changes that keep the links *)
Definition same_links (c c' : cell) : Prop :=
  ts_FirstChild (fst c') = ts_FirstChild (fst c) /\ ts_NextSibling (fst c') = ts_NextSibling (fst c) /\
  ts_ChildCount (fst c') = ts_ChildCount (fst c) /\ ts_ByteVal (fst c') = ts_ByteVal (fst c) /\
  (interm (fst c) = true -> interm (fst c') = true).

Lemma vis_same_links c c' : vis c' = vis c -> same_links c c'.
Proof. destruct c as [[] ?], c' as [[] ?]. unfold vis, core, set_name, same_links, interm. cbn. by intros [= -> -> -> -> -> -> -> -> -> ->]. Qed.

Lemma trie_shape_ext T σ σ' : shape T σ ->
  (forall p r c, T !! p = Some r -> σ !! r = Some c -> exists c', σ' !! r = Some c' /\ same_links c c') ->
  shape T σ'.
Proof.
  intros [A B C D I] H.
  assert (Hn : forall p r, T !! p = Some r -> nxt σ' r = nxt σ r).
  { intros p r Er. destruct (D p r Er) as (_ & c & bs & Ec & _). destruct (H p r c Er Ec) as (c' & Ec' & (_ & E & _)).
    unfold nxt. rewrite Ec, Ec'. cbn. by rewrite E. }
  split; try done.
  - intros p r Er. destruct (D p r Er) as (H0 & c & bs & Ec & Hf). split; [done|].
    destruct (H p r c Er Ec) as (c' & Ec' & (E1 & E2 & E3 & E4 & E5)). exists c', bs. split; [done|].
    eapply fam_ext; [done|done| |done|done|done]. intros b k Hk. by apply (Hn (p ++ [b])).
  - intros p b r c' Er Ec'. destruct (D _ r Er) as (_ & c & bs & Ec & _).
    destruct (H _ r c Er Ec) as (c2 & Ec2 & (_ & _ & _ & E4 & _)). assert (c2 = c') as -> by congruence.
    rewrite E4. by apply (I p b r).
Qed.

(** ** Chains that grow and shrink *)
Lemma chain_snoc σ σ' k l ks : forall r, chain σ r (ks ++ [l]) -> (forall x, x ∈ ks -> nxt σ' x = nxt σ x) ->
  nxt σ' l = Some k -> k <> 0 -> nxt σ' k = Some 0 -> chain σ' r ((ks ++ [l]) ++ [k]).
Proof.
  induction ks as [|x ks IH]; intros r; cbn.
  - intros (-> & Hl & _) _ E Hk E0. split_and!; [done|done|]. exists k. split; [done|]. split_and!; [done|done|]. by exists 0.
  - intros (-> & Hx & r' & En & Hc) Hs E Hk E0. split_and!; [done|done|]. exists r'. rewrite Hs by set_solver.
    split; [done|]. apply IH; [done| |done..]. intros y Hy. apply Hs. set_solver.
Qed.

Lemma chain_cut σ σ' k l ks ks' : forall r, chain σ r (ks ++ l :: k :: ks') ->
  (forall x, x ∈ ks \/ x ∈ ks' -> nxt σ' x = nxt σ x) -> nxt σ' l = nxt σ k -> chain σ' r (ks ++ l :: ks').
Proof.
  induction ks as [|x ks IH]; intros r; cbn.
  - intros (-> & Hl & r1 & E1 & (-> & Hk & r2 & E2 & Hc)) Hs E. split_and!; [done|done|]. exists r2. rewrite E.
    split; [done|]. eapply chain_ext; [|done]. auto.
  - intros (-> & Hx & r' & En & Hc) Hs E. split_and!; [done|done|]. exists r'. rewrite Hs by set_solver.
    split; [done|]. apply IH; [done| |done]. intros y Hy. apply Hs. set_solver.
Qed.

Lemma chain_last σ l ks : forall r, chain σ r (ks ++ [l]) -> nxt σ l = Some 0 /\ l <> 0.
Proof.
  induction ks as [|x ks IH]; intros r; cbn.
  - intros (-> & Hl & r' & E & ->). done.
  - intros (-> & Hx & r' & En & Hc). by apply (IH r').
Qed.

(** ** Changing a link of a family

    The parent [r], with cell [c], or its child [l] is made to point to [x], and
    the number of children changes by [d]. *)
Definition set_nx (x : Z) (c : cell) : cell := (set_next (fst c) x, snd c).

Definition relinked σ r (c : cell) (l x d : Z) : nodes :=
  <[r := (set_count (if l =? 0 then set_first (fst c) x else fst c) (u16 (ts_ChildCount (fst c) + d)), snd c)]>
    (if l =? 0 then σ else alter (set_nx x) l σ).

Section relink.
Context (T : gmap path Z) (σ : nodes) (p : path) (r l x d : Z) (c : cell) (bs : list Z).
Context (HT : shape T σ) (Hr : T !! p = Some r) (Hc : σ !! r = Some c) (Hf : fam T σ p (fst c) bs).
Context (Hl : l = 0 \/ exists b, T !! (p ++ [b]) = Some l).

Lemma relink_neq : l <> r.
Proof using HT Hr Hl.
  destruct Hl as [->|[b Hb]]; [by apply not_eq_sym, (sh_node _ _ HT p)|]. intros ->.
  pose proof (sh_inj _ _ HT _ _ _ Hr Hb) as E. apply (f_equal length) in E. rewrite length_app in E. simpl in E. lia.
Qed.

Let σ' : nodes := relinked σ r c l x d.

Lemma relinked_own : exists n', σ' !! r = Some (n', snd c) /\ ts_NextSibling n' = ts_NextSibling (fst c) /\
  ts_ByteVal n' = ts_ByteVal (fst c) /\ interm n' = interm (fst c) /\
  ts_ChildCount n' = u16 (ts_ChildCount (fst c) + d) /\
  ts_FirstChild n' = if l =? 0 then x else ts_FirstChild (fst c).
Proof using.
  eexists. unfold σ', relinked. rewrite lookup_insert_eq. split; [done|]. by destruct (l =? 0).
Qed.

Lemma relinked_other y : y <> r -> (l <> 0 -> y <> l) -> σ' !! y = σ !! y.
Proof using.
  intros H1 H2. unfold σ', relinked. rewrite lookup_insert_ne by done. destruct (Z.eqb_spec l 0); [done|].
  rewrite lookup_alter_ne; [done|]. by apply not_eq_sym, H2.
Qed.

Lemma relinked_prev : l <> 0 -> σ' !! l = set_nx x <$> σ !! l.
Proof using HT Hr Hl.
  intros H. pose proof relink_neq. unfold σ', relinked. rewrite lookup_insert_ne by done.
  rewrite (proj2 (Z.eqb_neq l 0)) by done. by rewrite lookup_alter_eq.
Qed.

Lemma relinked_nxt y : y <> l -> nxt σ' y = nxt σ y.
Proof using Hc.
  intros Hy. unfold nxt. destruct (decide (y = r)) as [->|]; [|by rewrite relinked_other].
  destruct relinked_own as (n' & -> & E & _). rewrite Hc. cbn. by rewrite E.
Qed.

(** Nodes but the parent keep all but the link that changed. *)
Lemma relinked_node q y cy : T !! q = Some y -> σ !! y = Some cy -> y <> r -> exists cy', σ' !! y = Some cy' /\
  ts_FirstChild (fst cy') = ts_FirstChild (fst cy) /\ ts_ChildCount (fst cy') = ts_ChildCount (fst cy) /\
  ts_ByteVal (fst cy') = ts_ByteVal (fst cy) /\ interm (fst cy') = interm (fst cy).
Proof using HT Hr Hl.
  intros Hq Hy Hne. destruct (decide (y = l)) as [->|].
  - rewrite relinked_prev by (by apply (sh_node _ _ HT q)). rewrite Hy. eexists. by split_and!.
  - rewrite relinked_other by done. eexists. by split_and!.
Qed.

Lemma relinked_fam T' q y : q <> p -> T !! q = Some y -> (forall b, T' !! (q ++ [b]) = T !! (q ++ [b])) ->
  y <> 0 /\ exists cy bs', σ' !! y = Some cy /\ fam T' σ' q (fst cy) bs'.
Proof using HT Hr Hl Hc.
  intros Hne Hq HT'. destruct (sh_node _ _ HT q y Hq) as (H0 & cy & bs' & Ey & Hfy). split; [done|].
  destruct (relinked_node q y cy Hq Ey) as (cy' & Ey' & E1 & E2 & E3 & E4).
  { intros ->. apply Hne. by eapply sh_inj. }
  exists cy', bs'. split; [done|]. eapply fam_ext; [done|done| |done|done|congruence].
  intros b k Hk. apply relinked_nxt. intros ->. destruct Hl as [->|[b' Hb']].
  - by destruct (sh_node _ _ HT _ _ Hk).
  - apply Hne. pose proof (sh_inj _ _ HT _ _ _ Hk Hb') as E. by apply app_inj_tail in E as [-> _].
Qed.

Lemma relinked_byte q b y cy : T !! (q ++ [b]) = Some y -> σ' !! y = Some cy -> ts_ByteVal (fst cy) = b.
Proof using HT Hr Hl Hc.
  intros Hq Hy. destruct (sh_node _ _ HT _ y Hq) as (_ & cy0 & _ & Ey & _).
  rewrite <- (sh_byte _ _ HT q b y cy0) by done. destruct (decide (y = r)) as [->|Hne].
  - destruct relinked_own as (n' & E & _ & E2 & _). assert (cy0 = c) as -> by congruence.
    assert (cy = (n', snd c)) as -> by congruence. done.
  - destruct (relinked_node _ y cy0 Hq Ey Hne) as (cy' & Ey' & _ & _ & E3 & _). by assert (cy = cy') as -> by congruence.
Qed.

End relink.

Lemma NoDup_bytes bs : NoDup bs -> bytes bs -> (length bs <= 256)%nat.
Proof.
  intros Hn Hb. assert (H : bs ⊆+ seqZ 0 256).
  { apply NoDup_submseteq; [done|]. intros b Hb'. apply elem_of_seqZ. unfold bytes in Hb. rewrite Forall_forall in Hb.
    specialize (Hb b Hb'). unfold is_u8 in Hb. lia. }
  apply submseteq_length in H. rewrite length_seqZ in H. lia.
Qed.

Section family.
Context (T : gmap path Z) (σ : nodes) (p : path) (n : TrieSlot) (bs : list Z).
Context (HT : shape T σ) (Hf : fam T σ p n bs).

Lemma kid_some b : b ∈ bs -> T !! (p ++ [b]) = Some (kid T p b).
Proof using Hf. intros Hb. apply (fam_dom _ _ _ _ _ Hf) in Hb as [k Hk]. unfold kid. by rewrite Hk. Qed.

Lemma kid_none b : b ∉ bs -> T !! (p ++ [b]) = None.
Proof using Hf. intros Hb. apply eq_None_not_Some. by rewrite (fam_dom _ _ _ _ _ Hf). Qed.

Lemma kid_inj b b' : b ∈ bs -> b' ∈ bs -> kid T p b = kid T p b' -> b = b'.
Proof using HT Hf.
  intros Hb Hb' E. apply kid_some in Hb, Hb'. rewrite <- E in Hb'. pose proof (sh_inj _ _ HT _ _ _ Hb Hb') as E'.
  by apply app_inj_tail in E' as [_ ->].
Qed.

Lemma fam_bytes : bytes bs.
Proof using HT Hf.
  apply Forall_forall. intros b Hb. destruct (sh_len _ _ HT (p ++ [b])) as [H _]; [by eexists; apply kid_some|].
  apply bytes_app in H as [_ H]. by apply Forall_cons_1 in H as [? _].
Qed.

Lemma fam_length : (length bs <= 256)%nat.
Proof using HT Hf. apply NoDup_bytes; [apply Hf|apply fam_bytes]. Qed.

(** The last of some of the children. *)
Lemma last_kid bs1 bs2 : bs = bs1 ++ bs2 ->
  default 0 (last (kid T p <$> bs1)) = 0 \/ exists b, T !! (p ++ [b]) = Some (default 0 (last (kid T p <$> bs1))).
Proof using Hf.
  clear HT. intros E. destruct bs1 as [|b bs1 _] using rev_ind; [by left|]. right. exists b.
  rewrite fmap_app. csimpl. rewrite last_snoc. apply kid_some. set_solver.
Qed.

End family.

(** ** Adding a child *)
Section link.
Context (T : gmap path Z) (σ : nodes) (p : path) (r : Z) (c : cell) (bs : list Z) (b k : Z) (ck : cell).
Context (HT : shape T σ) (Hr : T !! p = Some r) (Hc : σ !! r = Some c) (Hf : fam T σ p (fst c) bs).
Context (Hint : interm (fst c) = true) (Hb : T !! (p ++ [b]) = None) (Hk : forall q, T !! q <> Some k) (Hk0 : k <> 0).
Context (Hck : σ !! k = Some ck) (Hnext : ts_NextSibling (fst ck) = 0).
Let l : Z := default 0 (last (kid T p <$> bs)).
Let σ' : nodes := relinked σ r c l k 1.

Lemma link_last_ok : l = 0 \/ exists b, T !! (p ++ [b]) = Some l.
Proof using Hf. eapply (last_kid T σ p (fst c) bs Hf bs []). by rewrite app_nil_r. Qed.

Lemma link_new : σ' !! k = Some ck.
Proof using Hf Hck Hk Hk0 Hr.
  unfold σ'. rewrite relinked_other; [done| |].
  - intros ->. by apply (Hk _ Hr).
  - intros _ E. destruct link_last_ok as [E0|[b' Hb']]; [congruence|]. rewrite <- E in Hb'. by apply (Hk _ Hb').
Qed.

Let T' : gmap path Z := <[p ++ [b] := k]> T.

Lemma link_lookup q : q <> p ++ [b] -> T' !! q = T !! q.
Proof using. intros Hq. by apply lookup_insert_ne. Qed.

Lemma link_kids : (kid T' p <$> (bs ++ [b])) = (kid T p <$> bs) ++ [k].
Proof using Hf Hb.
  rewrite fmap_app. f_equal; [|csimpl; unfold kid, T'; by rewrite lookup_insert_eq].
  apply list_fmap_ext. intros i b' Hi%list_elem_of_lookup_2. unfold kid, T'. rewrite lookup_insert_ne; [done|].
  intros E. apply app_inj_tail in E as [_ <-]. apply (fam_dom _ _ _ _ _ Hf) in Hi as [? ?]. congruence.
Qed.

Lemma link_fam : exists c', σ' !! r = Some c' /\ fam T' σ' p (fst c') (bs ++ [b]).
Proof using HT Hr Hc Hf Hint Hb Hk Hk0 Hck Hnext.
  destruct (relinked_own σ r l k 1 c) as (n' & E & _ & _ & E3 & E4 & E5). fold σ' in E.
  exists (n', snd c). split; [done|]. pose proof (fam_length T σ p _ bs HT Hf) as Hlen. pose proof link_last_ok as Hlk.
  assert (Hnb : b ∉ bs) by (rewrite <- (fam_dom _ _ _ _ _ Hf), Hb; by intros [? ?]).
  assert (Hnk : nxt σ' k = Some 0) by (unfold nxt; rewrite link_new; cbn; congruence).
  split; cbn [fst].
  - apply NoDup_app. split_and!; [apply Hf|set_solver|apply NoDup_singleton].
  - intros b'. rewrite elem_of_app, list_elem_of_singleton, <- (fam_dom _ _ _ _ _ Hf).
    destruct (decide (b' = b)) as [->|Hne].
    + unfold T'. rewrite lookup_insert_eq. split; [auto|]. intros _. by eexists.
    + rewrite link_lookup; [tauto|]. intros E'. by apply app_inj_tail in E' as [_ ?].
  - rewrite link_kids, E5. pose proof (fam_chain _ _ _ _ _ Hf) as Hch. unfold l.
    destruct bs as [|b0 bs0 _] using rev_ind; [cbn; split_and!; [done|done|by exists 0]|].
    rewrite fmap_app in *. csimpl. csimpl in Hch. rewrite last_snoc. cbn [default].
    destruct (chain_last _ _ _ _ Hch) as [_ Hl0]. rewrite (proj2 (Z.eqb_neq _ 0)) by done.
    assert (El : l = kid T p b0) by (unfold l; rewrite fmap_app; csimpl; by rewrite last_snoc).
    apply (chain_snoc σ σ'); [done| | |done|done].
    + intros x (b' & -> & Hb')%list_elem_of_fmap. apply relinked_nxt; [done|]. rewrite El. intros E'.
      apply (kid_inj T σ p _ _ HT Hf) in E'; [|set_solver..]. subst b'.
      pose proof (fam_nodup _ _ _ _ _ Hf) as Hnd. apply NoDup_app in Hnd as (_ & Hd & _). by apply (Hd b0); [|left].
    + unfold nxt, σ'. rewrite <- El, relinked_prev with (T := T) (p := p); [|done|done|exact Hlk|by rewrite El].
      rewrite El. pose proof (kid_some T σ p _ _ Hf b0 ltac:(set_solver)) as Hkid.
      destruct (sh_node _ _ HT _ _ Hkid) as (_ & c0 & _ & -> & _). done.
  - rewrite E4, (fam_count _ _ _ _ _ Hf), length_app, u16_small by (unfold is_u16; lia). simpl. lia.
  - by rewrite E3, Hint.
Qed.

Lemma shape_link : is_u8 b -> (length p < 255)%nat -> ts_FirstChild (fst ck) = 0 -> ts_ChildCount (fst ck) = 0 ->
  ts_ByteVal (fst ck) = b -> shape T' σ'.
Proof using HT Hr Hc Hf Hint Hb Hk Hk0 Hck Hnext.
  intros Hub Hlen F1 F2 F3.
  assert (Hnew : forall q x, T' !! q = Some x -> q = p ++ [b] /\ x = k \/ q <> p ++ [b] /\ x <> k /\ T !! q = Some x).
  { intros q x. unfold T'. rewrite lookup_insert_Some. intros [[<- <-]|[Hne E]]; [by left|]. right.
    split_and!; [done| |done]. intros ->. by apply (Hk _ E). }
  assert (Hno : forall b', T !! ((p ++ [b]) ++ [b']) = None).
  { intros b'. apply eq_None_not_Some. intros H%(sh_parent _ _ HT). rewrite Hb in H. by destruct H. }
  assert (Hkids : forall q, q <> p -> forall b', T' !! (q ++ [b']) = T !! (q ++ [b'])).
  { intros q Hq b'. apply link_lookup. intros E. by apply app_inj_tail in E as [? _]. }
  split.
  - intros q1 q2 x E1 E2. apply Hnew in E1 as [[-> ->]|(? & ? & E1)]; apply Hnew in E2 as [[-> ?]|(? & ? & E2)]; try done.
    by eapply (sh_inj _ _ HT).
  - intros q b' H. assert (Hq : is_Some (T !! q) -> is_Some (T' !! q)).
    { intros [x Hx]. destruct (decide (q = p ++ [b])) as [->|]; [congruence|]. rewrite link_lookup by done. by eexists. }
    destruct (decide (q = p)) as [->|Hne]; [apply Hq; by eexists|]. rewrite Hkids in H by done. by apply Hq, (sh_parent _ _ HT _ b').
  - intros q [x H]. apply Hnew in H as [[-> ->]|(_ & _ & E)]; [|apply (sh_len _ _ HT); by eexists].
    destruct (sh_len _ _ HT p ltac:(by eexists)) as [Hbp _]. rewrite length_app. split; [|simpl; lia].
    apply bytes_app. split; [done|by constructor].
  - intros q x H. apply Hnew in H as [[-> ->]|(Hq & _ & E)].
    + split; [done|]. exists ck, []. split; [apply link_new|]. split; [constructor| |by rewrite F1|by rewrite F2|done].
      intros b'. rewrite Hkids, Hno. 2: { intros E. apply (f_equal length) in E. rewrite length_app in E. simpl in E. lia. }
      split; [by intros [? ?]|by intros ?%not_elem_of_nil].
    + destruct (decide (q = p)) as [->|Hne].
      * split; [by apply (sh_node _ _ HT p)|]. assert (x = r) as -> by congruence. destruct link_fam as (c' & ? & ?). by exists c', (bs ++ [b]).
      * apply (relinked_fam T σ p r l k 1 c HT Hr Hc link_last_ok T' q x Hne E (Hkids q Hne)).
  - intros q b' x cx H Hx. apply Hnew in H as [[E ->]|(Hq & _ & E)].
    + rewrite link_new in Hx. apply app_inj_tail in E as [_ ->]. congruence.
    + by eapply (relinked_byte T σ p r l k 1 c HT Hr Hc link_last_ok).
Qed.

End link.

(** ** Taking out a child that has none itself *)
Section unlink.
Context (T : gmap path Z) (σ : nodes) (p : path) (r : Z) (c : cell) (bs1 bs2 : list Z) (b k x : Z).
Context (HT : shape T σ) (Hr : T !! p = Some r) (Hc : σ !! r = Some c) (Hf : fam T σ p (fst c) (bs1 ++ b :: bs2)).
Context (Hk : kid T p b = k) (Hx : nxt σ k = Some x) (Hno : forall b', T !! ((p ++ [b]) ++ [b']) = None).
Let l : Z := default 0 (last (kid T p <$> bs1)).

Lemma unlink_prev_ok : l = 0 \/ exists b, T !! (p ++ [b]) = Some l.
Proof using Hf. by eapply (last_kid T σ p (fst c) _ Hf bs1 _). Qed.

Lemma unlink_kid : T !! (p ++ [b]) = Some k.
Proof using Hf Hk. rewrite <- Hk. apply (kid_some T σ p _ _ Hf). clear. set_solver. Qed.

Let σ' : nodes := relinked σ r c l x (-1).
Let T' : gmap path Z := delete (p ++ [b]) T.

Lemma unlink_nodup : NoDup (bs1 ++ bs2) /\ (b ∉ bs1) /\ b ∉ bs2.
Proof using Hf.
  pose proof (fam_nodup _ _ _ _ _ Hf) as H. apply NoDup_app in H as (H1 & H2 & H3). apply NoDup_cons in H3 as [H3 H4].
  split_and!; [|intros Hin; by apply (H2 b Hin), list_elem_of_here|done]. apply NoDup_app. split_and!; [done| |done].
  intros y Hy Hy2. by apply (H2 y Hy), list_elem_of_further.
Qed.

Lemma unlink_kids : (kid T' p <$> (bs1 ++ bs2)) = (kid T p <$> bs1) ++ (kid T p <$> bs2).
Proof using Hf.
  rewrite <- fmap_app. apply list_fmap_ext. intros i b' Hi%list_elem_of_lookup_2. unfold kid, T'. rewrite lookup_delete_ne; [done|].
  intros E. apply app_inj_tail in E as [_ <-]. destruct unlink_nodup as (_ & H1 & H2). clear - Hi H1 H2. set_solver.
Qed.

Lemma unlink_fam : exists c', σ' !! r = Some c' /\ fam T' σ' p (fst c') (bs1 ++ bs2).
Proof using HT Hr Hc Hf Hk Hx.
  destruct (relinked_own σ r l x (-1) c) as (n' & E & _ & _ & E3 & E4 & E5). fold σ' in E.
  exists (n', snd c). split; [done|]. pose proof (fam_length T σ p _ _ HT Hf) as Hlen. pose proof unlink_prev_ok as Hlk.
  rewrite length_app in Hlen. simpl in Hlen. pose proof unlink_nodup as (Hnd & Hb1 & Hb2).
  split; cbn [fst].
  - done.
  - intros b'. rewrite elem_of_app. pose proof (fam_dom _ _ _ _ _ Hf b') as Hd. rewrite elem_of_app, elem_of_cons in Hd.
    unfold T'. destruct (decide (b' = b)) as [->|Hne].
    + rewrite lookup_delete_eq. split; [by intros [? ?]|tauto].
    + rewrite lookup_delete_ne; [tauto|]. intros E'. by apply app_inj_tail in E' as [_ ?].
  - rewrite unlink_kids, E5. pose proof (fam_chain _ _ _ _ _ Hf) as Hch. rewrite fmap_app in Hch. csimpl in Hch. rewrite Hk in Hch.
    pose proof (fun b => kid_inj T σ p _ _ HT Hf b) as Hinj.
    destruct bs1 as [|b0 bs0 _] using rev_ind.
    { cbn in Hch |- *. destruct Hch as (_ & _ & x' & Ex & Hch). assert (x' = x) as -> by congruence.
      eapply chain_ext; [|done]. intros y (b' & -> & Hb')%list_elem_of_fmap. apply relinked_nxt; [done|].
      unfold l. cbn. by apply (sh_node _ _ HT (p ++ [b'])), (kid_some T σ p _ _ Hf), list_elem_of_further. }
    assert (El : l = kid T p b0) by (unfold l; rewrite fmap_app; csimpl; by rewrite last_snoc).
    assert (Hl0 : kid T p b0 <> 0).
    { apply (sh_node _ _ HT (p ++ [b0])), (kid_some T σ p _ _ Hf). clear. set_solver. }
    rewrite El, (proj2 (Z.eqb_neq _ 0)) by done. rewrite fmap_app in *. csimpl. csimpl in Hch.
    rewrite <- !app_assoc in *. cbn [app] in *.
    apply (chain_cut σ σ' k (kid T p b0)); [done| |].
    + intros y Hy. apply relinked_nxt; [done|]. rewrite El. apply NoDup_app in Hnd as (_ & Hnd1 & Hnd2).
      apply NoDup_cons in Hnd2 as [Hnd2 _].
      destruct Hy as [(b' & -> & Hb')%list_elem_of_fmap|(b' & -> & Hb')%list_elem_of_fmap]; intros E';
        (apply Hinj in E'; [subst b'|clear - Hb'; set_solver|clear; set_solver]).
      * by apply (Hnd1 b0); [|left].
      * done.
    + unfold nxt, σ'. rewrite <- El, relinked_prev with (T := T) (p := p); [|done|done|exact Hlk|by rewrite El].
      rewrite El. pose proof (kid_some T σ p _ _ Hf b0 ltac:(clear; set_solver)) as Hkid.
      destruct (sh_node _ _ HT _ _ Hkid) as (_ & c0 & _ & -> & _). cbn. by rewrite <- Hx.
  - rewrite E4, (fam_count _ _ _ _ _ Hf), !length_app, u16_small by (unfold is_u16; simpl; lia). simpl. lia.
  - rewrite E3. intros E0%(fam_leaf _ _ _ _ _ Hf). by destruct bs1.
Qed.

Lemma shape_unlink : shape T' σ'.
Proof using HT Hr Hc Hf Hk Hx Hno.
  assert (Hold : forall q y, T' !! q = Some y -> q <> p ++ [b] /\ T !! q = Some y).
  { intros q y. unfold T'. rewrite lookup_delete_Some. intros [? ?]. auto. }
  assert (Hkids : forall q, q <> p -> forall b', T' !! (q ++ [b']) = T !! (q ++ [b'])).
  { intros q Hq b'. apply lookup_delete_ne. intros E. by apply app_inj_tail in E as [? _]. }
  split.
  - intros q1 q2 y [_ E1]%Hold [_ E2]%Hold. by eapply (sh_inj _ _ HT).
  - intros q b' [y [Hne H]%Hold]. unfold T'. rewrite lookup_delete_ne; [apply (sh_parent _ _ HT _ b'); by eexists|].
    intros <-. by rewrite Hno in H.
  - intros q [y [_ H]%Hold]. apply (sh_len _ _ HT). by eexists.
  - intros q y [Hq E]%Hold. destruct (decide (q = p)) as [->|Hne].
    + split; [by apply (sh_node _ _ HT p)|]. assert (y = r) as -> by congruence. destruct unlink_fam as (c' & ? & ?). by exists c', (bs1 ++ bs2).
    + apply (relinked_fam T σ p r l x (-1) c HT Hr Hc unlink_prev_ok T' q y Hne E (Hkids q Hne)).
  - intros q b' y cy [Hq E]%Hold Hy. by eapply (relinked_byte T σ p r l x (-1) c HT Hr Hc unlink_prev_ok).
Qed.

End unlink.

(** ** Names *)
Implicit Types (m : gmap path (Z * Z)).

(** A node that is a leaf holds its path as its name, and the entry of it. *)
Definition entry_ok m p (c : cell) : Prop :=
  if TrieIsLeaf (ts_NodeType (fst c))
  then snd c = Some p /\ m !! p = Some (ts_Inode (fst c), ts_FType (fst c))
  else m !! p = None.

Lemma vis_entry m p c c' : vis c' = vis c -> entry_ok m p c -> entry_ok m p c'.
Proof.
  destruct c as [[] ?], c' as [[] ?]. unfold vis, core, set_name, entry_ok. cbn. by intros [= -> -> -> -> -> -> -> -> -> ->].
Qed.

Record entries T σ m : Prop := {
  en_node p r c : T !! p = Some r -> σ !! r = Some c -> entry_ok m p c;
  en_dom p : is_Some (m !! p) -> is_Some (T !! p);
}.

(** What the entries of a trie depend on. *)
Definition ent (c : cell) : Z * Z * Z * option path :=
  (ts_NodeType (fst c), ts_Inode (fst c), ts_FType (fst c), snd c).

Lemma entry_ent m p c c' : ent c' = ent c -> entry_ok m p c -> entry_ok m p c'.
Proof. unfold ent, entry_ok. by intros [= -> -> -> ->]. Qed.

Lemma entries_ext T σ σ' m : entries T σ m -> (forall p r, T !! p = Some r -> ent <$> σ' !! r = ent <$> σ !! r) ->
  entries T σ' m.
Proof.
  intros [A B] H. split; [|done]. intros p r c' Hp Hr. specialize (H p r Hp). rewrite Hr in H.
  destruct (σ !! r) as [c|] eqn:Ec; [|done]. apply (entry_ent m p c); [|by apply (A p r)]. apply (inj Some). exact H.
Qed.

Lemma vis_ent (x y : option cell) : vis <$> x = vis <$> y -> ent <$> x = ent <$> y.
Proof.
  assert (H : forall c, ent c = ent (vis c)) by (by intros [[] ?]). destruct x as [x|], y as [y|]; try done.
  intros E. apply (f_equal (fmap ent)) in E. rewrite <- !option_fmap_compose in E.
  revert E. unfold compose. cbn. by rewrite <- !H.
Qed.

(** The nodes of [T], with the root [root], are a trie that holds [m]. *)
Record trie (root : Z) T σ m : Prop := {
  tr_shape : shape T σ;
  tr_entries : entries T σ m;
  tr_root : T !! [] = Some root;
  tr_top : m !! [] = None;
}.

(** What an operation on one trie does to the store: the nodes of other tries
    stay, and its own new nodes were free. *)
Record evolves T σ T' σ' : Prop := {
  ev_other r : r ∉ map_img (SA := gset Z) T -> is_Some (σ !! r) -> vis <$> σ' !! r = vis <$> σ !! r;
  ev_new r : r ∈ map_img (SA := gset Z) T' -> r ∈ map_img (SA := gset Z) T \/ σ !! r = None;
}.

Lemma evolves_refl T σ : evolves T σ T σ.
Proof. split; auto. Qed.

Lemma evolves_trans T1 σ1 T2 σ2 T3 σ3 : evolves T1 σ1 T2 σ2 -> evolves T2 σ2 T3 σ3 -> evolves T1 σ1 T3 σ3.
Proof.
  intros [A1 B1] [A2 B2]. split.
  - intros r Hr Hs. specialize (A1 r Hr Hs). rewrite <- A1. apply A2.
    + intros Hin. destruct (B1 r Hin) as [?|E]; [done|]. rewrite E in Hs. by destruct Hs.
    + by apply (vis_is_Some _ _ A1).
  - intros r Hin. destruct (B2 r Hin) as [Hin'|E]; [auto|].
    destruct (decide (r ∈ map_img (SA := gset Z) T1)) as [|Hr]; [by left|]. right.
    destruct (σ1 !! r) as [c|] eqn:E1; [|done]. specialize (A1 r Hr ltac:(by eexists)). by rewrite E, E1 in A1.
Qed.

(** Changing nodes of the trie itself, in place. *)
Lemma evolves_own T σ σ' : (forall r, r ∉ map_img (SA := gset Z) T -> is_Some (σ !! r) -> vis <$> σ' !! r = vis <$> σ !! r) ->
  evolves T σ T σ'.
Proof. intros H. split; auto. Qed.

Lemma elem_of_img T p r : T !! p = Some r -> r ∈ map_img (SA := gset Z) T.
Proof. apply elem_of_map_img_2. Qed.

(** Another trie of the store, of whose nodes none is the operation's. *)
Lemma trie_other T σ T' σ' root2 T2 m2 : evolves T σ T' σ' -> trie root2 T2 σ m2 ->
  map_img (SA := gset Z) T2 ## map_img T -> trie root2 T2 σ' m2 /\ map_img (SA := gset Z) T2 ## map_img T'.
Proof.
  intros [A B] [[C1 C2 C3 C4 C5] [D1 D2] E G] Hd.
  assert (Hv : forall p r c, T2 !! p = Some r -> σ !! r = Some c -> exists c', σ' !! r = Some c' /\ vis c' = vis c).
  { intros p r c Hp Hr. assert (Hi : r ∈ map_img (SA := gset Z) T2) by (by eapply elem_of_img).
    specialize (A r (Hd r Hi) ltac:(by eexists)). rewrite Hr in A.
    destruct (σ' !! r) as [c'|]; [|done]. exists c'. split; [done|]. apply (inj Some). exact A. }
  split; [split; [|split; [|done]|done|done]|].
  - eapply trie_shape_ext; [by split|]. intros p r c Hp Hr. destruct (Hv p r c Hp Hr) as (c' & ? & ?). exists c'.
    split; [done|]. by apply vis_same_links.
  - intros p r c' Hp Hr'. destruct (C4 p r Hp) as (_ & c & _ & Hr & _). destruct (Hv p r c Hp Hr) as (c2 & E2 & Ev).
    assert (c2 = c') as -> by congruence. by eapply vis_entry; [|apply (D1 p r)].
  - intros r H2 H'. destruct (B r H') as [H1|E0]; [by apply (Hd r)|].
    apply elem_of_map_img in H2 as [p Hp]. destruct (C4 p r Hp) as (_ & c & _ & Hr & _). congruence.
Qed.

(** Links are no part of the entries. *)
Lemma relinked_ent σ r c l x d y : σ !! r = Some c -> ent <$> relinked σ r c l x d !! y = ent <$> σ !! y.
Proof.
  intros Hr. unfold relinked. destruct (decide (y = r)) as [->|].
  - rewrite lookup_insert_eq, Hr. cbn. by destruct (l =? 0).
  - rewrite lookup_insert_ne by done. destruct (l =? 0); [done|]. destruct (decide (y = l)) as [->|].
    + rewrite lookup_alter_eq. by destruct (σ !! l).
    + by rewrite lookup_alter_ne.
Qed.
