(* ===== verification/TrieOps.v ===== *)
(** * Searching and linking in tries (fuse/trie_mutate.go)

    The specifications of the operations that insertion and removal are made of:
    the search for a child, linking and unlinking it, and its creation, against
    the shape of a trie. *)

From stdpp Require Import base numbers list option gmap.
From Stdlib Require Import ZArith Lia.
From S2P Require Import Prelude Codec Bits TriePage Trie TrieStore TrieShape.

Local Open Scope Z_scope.

(** ** The search among siblings, for any way to read a node *)
Section scan.
Context {S : Type} (σ : nodes) (I : S -> Prop) (readNode : Z -> SM S TrieSlot) (E : trie_error -> S -> Prop).
Context (Hread : forall s r c Q, I s -> σ !! r = Some c -> (forall s', I s' -> Q (fst c) s') -> wp (readNode r) s Q E).
Context (T : gmap path Z) (p : path) (parent b : Z) (HT : shape T σ).

Lemma wp_scan_siblings Q : forall bs fuel cur prev s, I s ->
  chain σ cur (kid T p <$> bs) -> (forall b, b ∈ bs -> T !! (p ++ [b]) = Some (kid T p b)) -> (length bs <= fuel)%nat ->
  (forall s', I s' -> b ∉ bs -> Q (0, 0) s') ->
  (forall s' bs1 bs2, I s' -> bs = bs1 ++ b :: bs2 -> Q (kid T p b, default prev (last (kid T p <$> bs1))) s') ->
  wp (scan_siblings readNode fuel parent cur prev b) s Q E.
Proof using HT Hread.
  induction bs as [|b0 bs IH]; intros fuel cur prev s Hs Hch Hk Hlen HQ0 HQ.
  - cbn in Hch. subst cur. destruct fuel; cbn; apply wp_ret, HQ0; try done; set_solver.
  - cbn in Hch. destruct Hch as (-> & H0 & x & Hx & Hch). simpl in Hlen.
    destruct fuel as [|fuel]; [lia|]. cbn [scan_siblings]. unfold TrieRefIsNull at 1. rewrite (proj2 (Z.eqb_neq _ 0)) by done.
    unfold nxt in Hx. destruct (σ !! kid T p b0) as [c|] eqn:Ec; [|done]. cbn in Hx. injection Hx as <-.
    assert (Hb0 : T !! (p ++ [b0]) = Some (kid T p b0)) by (apply Hk; set_solver).
    apply wp_bind. apply (Hread s _ c); [done|done|]. intros s' Hs'. rewrite (sh_byte _ _ HT p b0 _ c Hb0 Ec).
    destruct (Z.eqb_spec b0 b) as [->|Hne].
    + apply wp_ret. by apply (HQ s' [] bs).
    + apply IH; [done|done| |lia|..].
      * intros b' Hb'. apply Hk. set_solver.
      * intros s2 Hs2 Hn. apply HQ0; [done|]. set_solver.
      * intros s2 bs1 bs2 Hs2 ->. specialize (HQ s2 (b0 :: bs1) bs2 Hs2 eq_refl).
        destruct bs1 as [|b1 bs1 _] using rev_ind; [done|]. rewrite fmap_app. csimpl. rewrite last_snoc.
        revert HQ. rewrite fmap_cons, fmap_app. csimpl. by rewrite last_cons, last_snoc.
Qed.

End scan.

Section ops.
Context {W : Type} {TW : TrieWorld W} {holds : W -> gset Z -> Prop} {disk : Z -> Prop} {HL : TrieLaws W holds disk}.
Context (w0 : W) (F : gmap Z (list Z)).
Implicit Types (s : tstate W) (X : gset Z) (σ : nodes).

Abbreviation tstore := (tstore (holds := holds) (disk := disk) w0 F).

(** ** Finding a child *)
Lemma wp_find_prev s X σ T p r c bs b Q E : tstore s X σ -> shape T σ -> σ !! r = Some c -> fam T σ p (fst c) bs ->
  (forall s', tstore s' X σ -> t_cache s ⊆ t_cache s' -> b ∉ bs -> Q (0, 0) s') ->
  (forall s' bs1 bs2, tstore s' X σ -> t_cache s ⊆ t_cache s' -> bs = bs1 ++ b :: bs2 ->
    Q (kid T p b, default 0 (last (kid T p <$> bs1))) s') ->
  wp (trieFindChildWithPrev r b) s Q E.
Proof using HL.
  intros Hs HT Hr Hf HQ0 HQ. unfold trieFindChildWithPrev. apply wp_bind. eapply wp_trieRead; [exact Hs|exact Hr|].
  intros s1 a Hs1 Hsub _. unfold trieScanSiblings.
  apply (wp_scan_siblings σ (fun s' => tstore s' X σ /\ t_cache s ⊆ t_cache s')) with (T := T) (p := p) (bs := bs).
  - intros s' x cx Q' [Hs' Hsub'] Hx HQ'. apply wp_bind. eapply wp_trieRead; [exact Hs'|exact Hx|].
    intros s2 a' Hs2 Hsub2 _. apply wp_ret, HQ'. split; [done|]. by etrans.
  - done.
  - done.
  - apply Hf.
  - apply (kid_some _ _ _ _ _ Hf).
  - pose proof (fam_length _ _ _ _ _ HT Hf). change (Z.to_nat TrieSiblingMax) with 1024%nat. lia.
  - intros s' [? ?]. auto.
  - intros s' bs1 bs2 [? ?] ->. by eapply HQ.
Qed.

Lemma wp_find s X σ T p r b Q E : tstore s X σ -> shape T σ -> T !! p = Some r ->
  (forall s', tstore s' X σ -> t_cache s ⊆ t_cache s' -> Q (kid T p b) s') -> wp (trieFindChild r b) s Q E.
Proof using HL.
  intros Hs HT Hp HQ. destruct (sh_node _ _ HT p r Hp) as (_ & c & bs & Hr & Hf). unfold trieFindChild. apply wp_bind.
  eapply wp_find_prev; [done..| |].
  - intros s' Hs' Hsub Hb. apply wp_ret. replace 0 with (kid T p b) by (unfold kid; by rewrite (kid_none _ _ _ _ _ Hf)). auto.
  - intros s' bs1 bs2 Hs' Hsub ->. apply wp_ret. auto.
Qed.

(** ** Linking *)
Lemma alter_some σ (f : cell -> cell) l c : σ !! l = Some c -> alter f l σ = <[l := f c]> σ.
Proof using.
  intros Hl. apply map_eq. intros i. destruct (decide (i = l)) as [->|].
  - by rewrite lookup_alter_eq, lookup_insert_eq, Hl.
  - by rewrite lookup_alter_ne, lookup_insert_ne.
Qed.

Lemma set_links_wf n first next count : codec_wf n -> is_u64 first -> is_u64 next -> is_u16 count ->
  codec_wf (set_links n first next count).
Proof using. rewrite !slot_wf_iff. cbn. tauto. Qed.

(** [relinked] keeps the fields in range and the name where it is. *)
Lemma relinked_slot_wf n l x d : codec_wf n -> is_u64 x ->
  codec_wf (set_count (if l =? 0 then set_first n x else n) (u16 (ts_ChildCount n + d))) /\
  ts_NameLen (set_count (if l =? 0 then set_first n x else n) (u16 (ts_ChildCount n + d))) = ts_NameLen n /\
  ts_NameOffset (set_count (if l =? 0 then set_first n x else n) (u16 (ts_ChildCount n + d))) = ts_NameOffset n.
Proof using.
  intros Hn Hx. pose proof (u16_range (ts_ChildCount n + d)) as Hc. revert Hn Hc. set (count := u16 _). clearbody count.
  intros Hn Hc. rewrite slot_wf_iff in Hn.
  destruct (l =? 0); (split; [|done]); apply slot_wf_iff; cbn; tauto.
Qed.

Lemma ref_u64 s X σ r c : tstore s X σ -> σ !! r = Some c -> is_u64 r /\ r <> 0.
Proof using HL. intros Hs Hr. pose proof (tstore_ref _ _ _ _ _ _ _ Hs Hr). unfold is_u64. lia. Qed.

Lemma wp_link_last X σ parent k l cl Q E : σ !! l = Some cl -> is_u64 k -> forall ks fuel cur s,
  tstore s X σ -> chain σ cur (ks ++ [l]) -> (length ks < fuel)%nat ->
  (forall s', tstore s' X (<[l := set_nx k cl]> σ) -> t_cache s ⊆ t_cache s' -> Q tt s') ->
  wp (link_last fuel parent cur k) s Q E.
Proof using HL.
  intros Hl Hk. induction ks as [|y ks IH]; intros fuel cur s Hs Hch Hlen HQ; cbn in Hch.
  - destruct fuel as [|fuel]; [simpl in Hlen; lia|]. destruct Hch as (-> & Hl0 & x & Hx & ->).
    cbn [link_last]. apply wp_bind. eapply wp_trieRead; [exact Hs|exact Hl|]. intros s1 a Hs1 Hsub Ha. cbn beta iota.
    unfold nxt in Hx. rewrite Hl in Hx. cbn in Hx. injection Hx as ->. change (TrieRefIsNull 0) with true.
    pose proof (tstore_wf _ _ _ _ _ _ _ Hs1 Hl) as Hw. pose proof (proj1 (slot_wf_iff _) Hw) as (? & _ & _ & _ & _ & _ & _ & _ & _ & _ & ?).
    eapply wp_save_slot; [exact Hs1|exact Hl|exact Ha|by apply set_links_wf|done|done|].
    intros s' Hs' Hc. apply HQ; [done|]. by rewrite Hc.
  - destruct fuel as [|fuel]; [simpl in Hlen; lia|]. destruct Hch as (-> & Hy0 & x & Hx & Hch).
    unfold nxt in Hx. destruct (σ !! y) as [cy|] eqn:Ey; [|done]. cbn in Hx. injection Hx as <-.
    cbn [link_last]. apply wp_bind. eapply wp_trieRead; [exact Hs|exact Ey|]. intros s1 a Hs1 Hsub Ha. cbn beta iota.
    assert (Hn0 : ts_NextSibling (fst cy) <> 0) by (destruct ks; cbn in Hch; naive_solver).
    unfold TrieRefIsNull. rewrite (proj2 (Z.eqb_neq _ 0)) by done.
    apply IH; [done|done|simpl in Hlen; lia|]. intros s' Hs' Hsub'. apply HQ; [done|]. by etrans.
Qed.

Lemma wp_trieLinkChild s X σ T p r c bs k ck Q E : tstore s X σ -> shape T σ -> T !! p = Some r -> σ !! r = Some c ->
  fam T σ p (fst c) bs -> σ !! k = Some ck ->
  (forall s', tstore s' X (relinked σ r c (default 0 (last (kid T p <$> bs))) k 1) -> Q tt s') ->
  wp (trieLinkChild r k) s Q E.
Proof using HL.
  intros Hs HT Hp Hr Hf Hk HQ. destruct (ref_u64 _ _ _ _ _ Hs Hk) as [Hku _].
  pose proof (last_kid T σ p (fst c) bs Hf bs [] ltac:(by rewrite app_nil_r)) as Hlk.
  remember (default 0 (last (kid T p <$> bs))) as l eqn:El.
  pose proof (relinked_slot_wf (fst c) l k 1 (tstore_wf _ _ _ _ _ _ _ Hs Hr) Hku) as (Hw & Hn1 & Hn2).
  unfold trieLinkChild. apply wp_bind. eapply wp_trieRead; [exact Hs|exact Hr|]. intros s1 a Hs1 Hsub Ha. cbn beta iota zeta.
  pose proof (fam_chain _ _ _ _ _ Hf) as Hch. pose proof (fam_length _ _ _ _ _ HT Hf) as Hlen.
  destruct bs as [|b0 bs _] using rev_ind.
  - cbn in Hch, El. subst l. rewrite Hch. change (TrieRefIsNull 0) with true.
    eapply wp_save_slot; [exact Hs1|exact Hr|exact Ha|exact Hw|exact Hn1|exact Hn2|]. intros s' Hs' _. by apply HQ.
  - rewrite fmap_app in Hch, El. csimpl in Hch. csimpl in El. rewrite last_snoc in El. change (l = kid T p b0) in El.
    assert (Hkid : T !! (p ++ [b0]) = Some l) by (subst l; apply (kid_some _ _ _ _ _ Hf); clear; set_solver).
    rewrite <- El in Hch. destruct (sh_node _ _ HT _ _ Hkid) as (Hl0 & cl & _ & Hl & _).
    unfold TrieRefIsNull. rewrite (proj2 (Z.eqb_neq (ts_FirstChild (fst c)) 0)).
    2: { clear - Hch. destruct bs; cbn in Hch; [naive_solver|]. by destruct Hch as (-> & ? & _). }
    apply wp_bind. eapply wp_link_last; [exact Hl|done|exact Hs1|exact Hch| |].
    { rewrite length_fmap. rewrite length_app in Hlen. simpl in Hlen. change (Z.to_nat TrieSiblingMax) with 1024%nat. lia. }
    intros s2 Hs2 Hsub2.
    assert (Hne : l <> r) by (eapply (relink_neq T σ p); [done|done|right; by exists b0]).
    unfold relinked in HQ. rewrite (proj2 (Z.eqb_neq l 0)) in HQ, Hw, Hn1, Hn2 by done.
    eapply (wp_save_slot _ _ _ _ _ r c); [exact Hs2|by rewrite lookup_insert_ne|by eapply lookup_weaken|exact Hw|exact Hn1|exact Hn2|].
    intros s' Hs' _. apply HQ. by rewrite (alter_some _ _ _ cl).
Qed.

(** ** Creating a child *)

(** The trie has one more node, [k] at [p ++ [b]], without children. *)
Record grown T σ p b k T' σ' (ck : cell) : Prop := {
  gr_T : T' = <[p ++ [b] := k]> T;
  gr_shape : shape T' σ';
  gr_fresh : σ !! k = None;
  gr_node : σ' !! k = Some ck;
  gr_ent q x : T !! q = Some x -> ent <$> σ' !! x = ent <$> σ !! x;
  gr_evolves : evolves T σ T' σ';
}.

Lemma link_grown T σ p r c bs b k ck : shape T σ -> T !! p = Some r -> σ !! r = Some c -> fam T σ p (fst c) bs ->
  interm (fst c) = true -> T !! (p ++ [b]) = None -> is_u8 b -> (length p < 255)%nat -> σ !! k = None -> k <> 0 ->
  ts_FirstChild (fst ck) = 0 -> ts_NextSibling (fst ck) = 0 -> ts_ChildCount (fst ck) = 0 -> ts_ByteVal (fst ck) = b ->
  let σ1 := <[k := ck]> σ in
  shape T σ1 /\ fam T σ1 p (fst c) bs /\
  grown T σ p b k (<[p ++ [b] := k]> T) (relinked σ1 r c (default 0 (last (kid T p <$> bs))) k 1) ck.
Proof using.
  intros HT Hp Hr Hf Hint Hb Hub Hlen Hk Hk0 F1 F2 F3 F4 σ1.
  assert (Hin : forall q x, T !! q = Some x -> is_Some (σ !! x)).
  { intros q x Hq. destruct (sh_node _ _ HT q x Hq) as (_ & cx & _ & Hx & _). by eexists. }
  assert (Hfr : forall q, T !! q <> Some k) by (intros q Hq; destruct (Hin q k Hq); congruence).
  assert (Hσ1 : forall x, x <> k -> σ1 !! x = σ !! x) by (intros; by apply lookup_insert_ne).
  assert (HT1 : shape T σ1).
  { eapply trie_shape_ext; [done|]. intros q x cx Hq Hx. exists cx. rewrite Hσ1 by (intros ->; by apply (Hfr q)). split; [done|]. by split_and!. }
  assert (Hrk : r <> k) by (intros ->; by apply (Hfr p)).
  assert (Hf1 : fam T σ1 p (fst c) bs).
  { eapply fam_ext; [done|done| |done|done|done]. intros b' x Hx. unfold nxt. rewrite Hσ1; [done|]. intros ->. by apply (Hfr _ Hx). }
  assert (Hr1 : σ1 !! r = Some c) by (by rewrite Hσ1).
  assert (Hk1 : σ1 !! k = Some ck) by apply lookup_insert_eq.
  split_and!; [done|done|]. set (l := default 0 _).
  assert (Hlk : l = 0 \/ exists b, T !! (p ++ [b]) = Some l).
  { eapply (last_kid T σ p (fst c) bs Hf bs []). by rewrite app_nil_r. }
  split; [done| |done|by apply (link_new T σ1 p r c bs k ck)| |split].
  - by apply (shape_link T σ1 p r c bs b k ck).
  - intros q x Hq. rewrite relinked_ent, Hσ1; [done| |done]. intros ->. by apply (Hfr q).
  - intros x Hx Hs. assert (x <> k) by (intros ->; rewrite Hk in Hs; by destruct Hs). rewrite relinked_other, Hσ1; [done|done|..].
    + intros ->. apply Hx. by eapply elem_of_img.
    + intros Hl0 ->. destruct Hlk as [E0|[b' Hb']]; [done|]. apply Hx. by eapply elem_of_img.
  - intros x (q & Hq)%elem_of_map_img. apply lookup_insert_Some in Hq as [[_ <-]|[_ Hq]]; [by right|]. left. by eapply elem_of_img.
Qed.

Lemma set_kind_wf n depth byteVal nodeType : codec_wf n -> is_u8 depth -> is_u8 byteVal -> is_u8 nodeType ->
  codec_wf (set_kind n depth byteVal nodeType).
Proof using. rewrite !slot_wf_iff. cbn. tauto. Qed.

(** The fields of a child that was just made. *)
Definition new_child (nameLen depth byteVal nodeType : Z) (c : cell) : Prop :=
  core (fst c) = set_kind zero_slot depth byteVal nodeType /\ (0 < nameLen -> ts_NameLen (fst c) = nameLen + 2).

Lemma new_child_kind nameLen depth byteVal nodeType c : new_cell nameLen c ->
  new_child nameLen depth byteVal nodeType (set_kind (fst c) depth byteVal nodeType, snd c).
Proof using.
  destruct c as [[] nm]. intros [H1 H2]. split; [|exact H2]. unfold core, set_name, zero_slot in H1. cbn in H1.
  injection H1 as -> -> -> -> -> -> -> -> ->. done.
Qed.

Lemma wp_trieCreateChild s X σ T p r c b depth nodeType nameLen Q E : tstore s X σ -> shape T σ ->
  T !! p = Some r -> σ !! r = Some c -> interm (fst c) = true -> T !! (p ++ [b]) = None ->
  is_u8 b -> is_u8 depth -> is_u8 nodeType -> (length p < 255)%nat -> nameLen <= BrieFSMaxNameLen ->
  (forall s' X' σ' T' k ck, tstore s' X' σ' -> grown T σ p b k T' σ' ck -> new_child nameLen depth b nodeType ck -> Q k s') ->
  (forall s' X' e, tstore s' X' σ -> resource e -> E e s') ->
  wp (trieCreateChild r depth b nodeType nameLen) s Q E.
Proof using HL.
  intros Hs HT Hp Hr Hint Hb Hub Hud Hut Hlen Hnl HQ HE. destruct (sh_node _ _ HT p r Hp) as (_ & c' & bs & Hr' & Hf).
  assert (c' = c) as -> by congruence. unfold trieCreateChild. apply wp_bind. eapply wp_trieAllocNode; [exact Hs|done| |exact HE].
  intros s1 X1 k c1 Hs1 Hk Hnew. assert (Hk1 : <[k := c1]> σ !! k = Some c1) by apply lookup_insert_eq.
  destruct (ref_u64 _ _ _ _ _ Hs1 Hk1) as [_ Hk0]. unfold TrieRefIsNull. rewrite (proj2 (Z.eqb_neq k 0)) by done.
  apply wp_try. eapply wp_trieRead; [exact Hs1|exact Hk1|]. intros s2 a Hs2 _ Ha. cbn beta iota.
  pose proof (new_child_kind nameLen depth b nodeType c1 Hnew) as Hchild. set (ck := (set_kind _ _ _ _, _)) in Hchild.
  destruct (link_grown T σ p r c bs b k ck) as (HT1 & Hf1 & Hgr); try done.
  1-3: destruct Hnew as [Hnew _]; destruct c1 as [[] ?]; unfold core, set_name, zero_slot in Hnew; cbn in *; congruence.
  apply wp_bind. eapply wp_save_slot; [exact Hs2|exact Hk1|exact Ha| |done|done|].
  { apply set_kind_wf; try done. by eapply tstore_wf. }
  intros s3 Hs3 _. rewrite insert_insert_eq in Hs3. apply wp_try.
  assert (Hrk : r <> k) by congruence.
  eapply (wp_trieLinkChild _ _ _ T p r c bs k ck); [exact Hs3|done|done|by rewrite lookup_insert_ne|done|apply lookup_insert_eq|].
  intros s4 Hs4. apply wp_ret. by eapply HQ.
Qed.

(** ** Unlinking and freeing a child *)

(** The child for [b], which had no children, is gone. *)
Record pruned T σ p b T' σ' : Prop := {
  pr_T : T' = delete (p ++ [b]) T;
  pr_shape : shape T' σ';
  pr_ent q x : T' !! q = Some x -> ent <$> σ' !! x = ent <$> σ !! x;
  pr_evolves : evolves T σ T' σ';
}.

Section unlink.
Context (T : gmap path Z) (σ : nodes) (p : path) (r : Z) (c : cell) (bs1 bs2 : list Z) (b k : Z) (ck : cell).
Context (HT : shape T σ) (Hp : T !! p = Some r) (Hr : σ !! r = Some c) (Hf : fam T σ p (fst c) (bs1 ++ b :: bs2)).
Context (Hkid : kid T p b = k) (Hk : σ !! k = Some ck).

Lemma unlink_child : T !! (p ++ [b]) = Some k.
Proof using Hf Hkid. by eapply unlink_kid. Qed.

Lemma unlink_prev : let l := default 0 (last (kid T p <$> bs1)) in
  l = 0 /\ bs1 = [] \/ l <> 0 /\ l <> r /\ exists cl, σ !! l = Some cl.
Proof using HT Hp Hf.
  destruct bs1 as [|b0 bs0 _] using rev_ind; [by left|]. right. rewrite fmap_app. csimpl. rewrite last_snoc. cbn [default].
  change (id (kid T p b0)) with (kid T p b0).
  assert (H : T !! (p ++ [b0]) = Some (kid T p b0)) by (apply (kid_some _ _ _ _ _ Hf); clear; set_solver).
  destruct (sh_node _ _ HT _ _ H) as (H0 & cl & _ & Hl & _). split_and!; [done| |by exists cl].
  eapply (relink_neq T σ p); [done|done|right; by exists b0].
Qed.

Let σ' : nodes := relinked σ r c (default 0 (last (kid T p <$> bs1))) (ts_NextSibling (fst ck)) (-1).

Lemma unlink_pruned : (forall b', T !! ((p ++ [b]) ++ [b']) = None) ->
  pruned T σ p b (delete (p ++ [b]) T) (delete k σ').
Proof using HT Hp Hr Hf Hkid Hk.
  intros Hno. pose proof unlink_child as Hch. assert (Hx : nxt σ k = Some (ts_NextSibling (fst ck))) by (unfold nxt; by rewrite Hk).
  pose proof (shape_unlink T σ p r c bs1 bs2 b k _ HT Hp Hr Hf Hkid Hx Hno) as HT'. fold σ' in HT'.
  assert (Hne : forall q x, delete (p ++ [b]) T !! q = Some x -> x <> k /\ T !! q = Some x).
  { intros q x [Hq Hqx]%lookup_delete_Some. split; [|done]. intros ->. apply Hq. by eapply (sh_inj _ _ HT). }
  split; [done| | |split].
  - eapply trie_shape_ext; [done|]. intros q x cx [Hxk _]%Hne Hcx. exists cx. rewrite lookup_delete_ne by done. split; [done|]. by split_and!.
  - intros q x [Hxk _]%Hne. rewrite lookup_delete_ne by done. by apply relinked_ent.
  - intros x Hx' Hs. rewrite lookup_delete_ne by (intros ->; apply Hx'; by eapply elem_of_img).
    unfold σ'. rewrite relinked_other; [done|intros ->; apply Hx'; by eapply elem_of_img|].
    intros Hl0 ->. destruct (last_kid T σ p (fst c) _ Hf bs1 _ eq_refl) as [?|[b' Hb']]; [done|]. apply Hx'. by eapply elem_of_img.
  - intros x (q & [_ Hq]%Hne)%elem_of_map_img. left. by eapply elem_of_img.
Qed.

Lemma wp_trieUnlinkChild s X Q E : tstore s X σ ->
  (forall s', tstore s' X σ' -> Q tt s') ->
  wp (trieUnlinkChild r (default 0 (last (kid T p <$> bs1))) k) s Q E.
Proof using HT Hp Hr Hf Hk HL.
  intros Hs HQ. pose proof unlink_prev as Hprev. unfold σ' in HQ. clear σ'. set (l := default 0 _) in *.
  pose proof (tstore_wf _ _ _ _ _ _ _ Hs Hk) as Hwk. apply slot_wf_iff in Hwk as (_ & Hnx & _).
  pose proof (relinked_slot_wf (fst c) l (ts_NextSibling (fst ck)) (-1) (tstore_wf _ _ _ _ _ _ _ Hs Hr) Hnx) as (Hw & Hn1 & Hn2).
  unfold trieUnlinkChild. apply wp_bind. eapply wp_trieRead; [exact Hs|exact Hr|]. intros s1 a Hs1 Hsub1 Ha. cbn beta iota.
  apply wp_bind. eapply wp_trieRead; [exact Hs1|exact Hk|]. intros s2 a2 Hs2 Hsub2 _. cbn beta iota zeta.
  unfold TrieRefIsNull, relinked in *. destruct Hprev as [[Hl0 _]|(Hl0 & Hlr & cl & Hl)].
  - rewrite Hl0 in *. cbn [Z.eqb] in *. apply wp_bind, wp_ret.
    eapply wp_save_slot; [exact Hs2|exact Hr|by eapply lookup_weaken|exact Hw|exact Hn1|exact Hn2|]. intros s' Hs' _. by apply HQ.
  - rewrite (proj2 (Z.eqb_neq l 0)) in * by done. apply wp_bind, wp_bind.
    eapply wp_trieRead; [exact Hs2|exact Hl|]. intros s3 a3 Hs3 Hsub3 Ha3. cbn beta iota. apply wp_bind.
    pose proof (tstore_wf _ _ _ _ _ _ _ Hs Hl) as Hwl. pose proof (proj1 (slot_wf_iff _) Hwl) as (? & _ & _ & _ & _ & _ & _ & _ & _ & _ & ?).
    eapply wp_save_slot; [exact Hs3|exact Hl|exact Ha3|by apply set_links_wf|done|done|].
    intros s4 Hs4 Hc4. apply wp_ret. eapply (wp_save_slot _ _ _ _ _ r c); [exact Hs4|by rewrite lookup_insert_ne| |exact Hw|exact Hn1|exact Hn2|].
    + rewrite Hc4. eapply lookup_weaken; [exact Ha|]. by do 2 (etrans; [eassumption|]).
    + intros s' Hs' _. apply HQ. by rewrite (alter_some _ _ _ cl).
Qed.

(** The other code that unlinks, in [collapseAncestry]. *)
Lemma wp_relink_walk X l cl x ks' Q E : σ !! l = Some cl -> is_u64 x -> forall ks fuel w s, tstore s X σ ->
  chain σ w (ks ++ l :: k :: ks') -> NoDup (ks ++ l :: k :: ks') -> (length ks < fuel)%nat ->
  (forall s', tstore s' X (<[l := set_nx x cl]> σ) -> t_cache s ⊆ t_cache s' -> Q tt s') ->
  wp (relink_walk fuel w k x) s Q E.
Proof using HL.
  clear σ' HT Hp Hr Hf Hkid Hk. intros Hl Hx. induction ks as [|y ks IH]; intros fuel w s Hs Hch Hnd Hlen HQ; cbn in Hch.
  - destruct fuel as [|fuel]; [simpl in Hlen; lia|]. destruct Hch as (-> & Hl0 & z & Hz & (-> & _)).
    cbn [relink_walk]. unfold TrieRefIsNull. rewrite (proj2 (Z.eqb_neq l 0)) by done.
    apply wp_try. eapply wp_trieRead; [exact Hs|exact Hl|]. intros s1 a Hs1 Hsub Ha. cbn beta iota.
    unfold nxt in Hz. rewrite Hl in Hz. cbn in Hz. injection Hz as ->. rewrite Z.eqb_refl.
    pose proof (tstore_wf _ _ _ _ _ _ _ Hs1 Hl) as Hw. pose proof (proj1 (slot_wf_iff _) Hw) as (? & _ & _ & _ & _ & _ & _ & _ & _ & _ & ?).
    eapply wp_save_slot; [exact Hs1|exact Hl|exact Ha|by apply set_links_wf|done|done|].
    intros s' Hs' Hc. apply HQ; [done|]. by rewrite Hc.
  - destruct fuel as [|fuel]; [simpl in Hlen; lia|]. destruct Hch as (-> & Hy0 & z & Hz & Hch).
    cbn [relink_walk]. unfold TrieRefIsNull. rewrite (proj2 (Z.eqb_neq y 0)) by done.
    unfold nxt in Hz. destruct (σ !! y) as [cy|] eqn:Ey; [|done]. cbn in Hz. injection Hz as <-.
    apply wp_try. eapply wp_trieRead; [exact Hs|exact Ey|]. intros s1 a Hs1 Hsub Ha. cbn beta iota.
    apply NoDup_cons in Hnd as [_ Hnd]. rewrite (proj2 (Z.eqb_neq _ k)).
    2: { intros E0. apply NoDup_app in Hnd as (_ & Hd & Hnd). apply NoDup_cons in Hnd as [Hlk _].
         destruct ks as [|y' ks]; cbn in Hch; destruct Hch as (E1 & _).
         - apply Hlk. rewrite <- E1, E0. apply list_elem_of_here.
         - apply (Hd y'); [apply list_elem_of_here|]. rewrite <- E1, E0. apply list_elem_of_further, list_elem_of_here. }
    apply IH; [done|done|done|simpl in Hlen; lia|]. intros s' Hs' Hsub'. apply HQ; [done|]. by etrans.
Qed.

Lemma kids_nodup bs : fam T σ p (fst c) bs -> NoDup (kid T p <$> bs).
Proof using HT.
  intros Hf'. apply NoDup_fmap_2_strong; [|apply Hf']. intros b1 b2 H1 H2. by eapply kid_inj.
Qed.

Lemma wp_trieRelinkSibling s X Q E : tstore s X σ ->
  let l := default 0 (last (kid T p <$> bs1)) in
  let x := ts_NextSibling (fst ck) in
  (forall s', tstore s' X (if l =? 0 then σ else alter (set_nx x) l σ) -> t_cache s ⊆ t_cache s' ->
    Q (if l =? 0 then set_first (fst c) x else fst c) s') ->
  wp (trieRelinkSibling (fst c) k x) s Q E.
Proof using HT Hp Hr Hf Hkid Hk HL.
  intros Hs l x HQ. pose proof unlink_prev as Hprev. cbn zeta in Hprev. fold l in Hprev.
  pose proof (tstore_wf _ _ _ _ _ _ _ Hs Hk) as Hwk. apply slot_wf_iff in Hwk as (_ & Hnx & _).
  pose proof (kids_nodup _ Hf) as Hnd. pose proof (fam_chain _ _ _ _ _ Hf) as Hch. pose proof (fam_length _ _ _ _ _ HT Hf) as Hlen.
  rewrite fmap_app, fmap_cons, Hkid in Hnd, Hch. unfold trieRelinkSibling.
  assert (Hfuel : (256 < Z.to_nat TrieSiblingMax)%nat) by (vm_compute; lia). revert Hfuel.
  generalize (Z.to_nat TrieSiblingMax) as fuel. intros fuel Hfuel. destruct Hprev as [[Hl0 E0]|(Hl0 & Hlr & cl & Hl)].
  - rewrite Hl0 in HQ. cbn [Z.eqb] in HQ. rewrite E0 in Hch. cbn in Hch. destruct Hch as (-> & _). rewrite Z.eqb_refl.
    by apply wp_ret, HQ.
  - rewrite (proj2 (Z.eqb_neq l 0)) in HQ by done. unfold l in *. clear l. revert HQ Hl Hl0 Hnd Hch Hlen.
    destruct bs1 as [|b0 bs0 _] using rev_ind; [done|]. rewrite fmap_app. csimpl. rewrite last_snoc.
    change (default 0 (Some (kid T p b0))) with (kid T p b0). rewrite <- !app_assoc. cbn [app]. intros HQ Hl Hl0 Hnd Hch Hlen.
    rewrite (proj2 (Z.eqb_neq _ k)).
    2: { intros E0. apply NoDup_app in Hnd as (_ & Hd & Hnd). apply NoDup_cons in Hnd as [Hlk _].
         destruct bs0 as [|b1 bs0]; cbn in Hch; destruct Hch as (E1 & _).
         - apply Hlk. rewrite <- E1, E0. apply list_elem_of_here.
         - apply (Hd (kid T p b1)); [apply list_elem_of_here|]. rewrite <- E1, E0. apply list_elem_of_further, list_elem_of_here. }
    apply wp_bind. eapply wp_relink_walk; [exact Hl|done|exact Hs|exact Hch|exact Hnd| |].
    + rewrite length_fmap. rewrite !length_app in Hlen. simpl in Hlen. lia.
    + intros s' Hs' Hsub. apply wp_ret, HQ; [|done]. by rewrite (alter_some _ _ _ cl).
Qed.

End unlink.

End ops.
