(* ===== verification/TrieInsert.v ===== *)
(** * Inserting a name (fuse/trie_mutate.go)

    [TrieInsert] adds an entry to the map that the directory's trie holds.  The
    loop goes down the trie byte by byte; the nodes it makes on the way hold no
    entry, so that at every point the trie is well formed and holds the old map,
    until the leaf is written. *)

From stdpp Require Import base numbers list option gmap.
From Stdlib Require Import ZArith Lia.
From S2P Require Import Prelude Codec Bits TriePage Trie TrieStore TrieShape TrieOps.

Local Open Scope Z_scope.

(** ** Node types *)
Lemma land_bit t i : 0 <= i -> (Z.land t (2 ^ i) =? 0) = negb (Z.testbit t i).
Proof.
  intros Hi. destruct (Z.testbit t i) eqn:Et; cbn.
  - apply Z.eqb_neq. intros E. apply (f_equal (fun z => Z.testbit z i)) in E.
    rewrite Z.land_spec, Et, Z.pow2_bits_true, Z.bits_0 in E by done. done.
  - apply Z.eqb_eq, Z.bits_inj'. intros j Hj. rewrite Z.land_spec, Z.bits_0, Z.pow2_bits_eqb by done.
    destruct (Z.eqb_spec i j) as [->|]; [by rewrite Et|apply andb_false_r].
Qed.

Lemma interm_bit n : interm n = Z.testbit (ts_NodeType n) 2.
Proof. unfold interm, NodeTypeInterm. change 4 with (2 ^ 2). rewrite land_bit by lia. apply negb_involutive. Qed.

Lemma leaf_bits t : TrieIsLeaf t = negb (Z.testbit t 2) || Z.testbit t 3.
Proof.
  unfold TrieIsLeaf, NodeTypeInterm, NodeStatusLeaf. change 4 with (2 ^ 2). change 8 with (2 ^ 3).
  rewrite !land_bit, negb_involutive by lia. done.
Qed.

Lemma land_leaf t : (Z.land t NodeStatusLeaf =? 0) = negb (Z.testbit t 3).
Proof. unfold NodeStatusLeaf. change 8 with (2 ^ 3). by rewrite land_bit by lia. Qed.

Lemma land_interm n : (Z.land (ts_NodeType n) NodeTypeInterm =? 0) = negb (interm n).
Proof. unfold interm. by rewrite negb_involutive. Qed.

Lemma lor_leaf_bits t i : Z.testbit (Z.lor t NodeStatusLeaf) i = Z.testbit t i || (i =? 3).
Proof.
  unfold NodeStatusLeaf. rewrite Z.lor_spec. change 8 with (2 ^ 3). f_equal.
  rewrite Z.pow2_bits_eqb by lia. apply Z.eqb_sym.
Qed.

Lemma u8_lor a b : is_u8 a -> is_u8 b -> is_u8 (Z.lor a b).
Proof.
  unfold is_u8. intros [A1 A2] [B1 B2]. split; [by apply Z.lor_nonneg|].
  destruct (decide (Z.lor a b = 0)) as [->|]; [lia|]. apply Z.log2_lt_pow2; [pose proof (proj2 (Z.lor_nonneg a b)); lia|].
  rewrite Z.log2_lor by done. apply Z.max_lub_lt.
  - destruct (decide (a = 0)) as [->|]; [simpl; lia|]. apply Z.log2_lt_pow2; lia.
  - destruct (decide (b = 0)) as [->|]; [simpl; lia|]. apply Z.log2_lt_pow2; lia.
Qed.

Section insert.
Context {W : Type} {TW : TrieWorld W} {holds : W -> gset Z -> Prop} {disk : Z -> Prop} {HL : TrieLaws W holds disk}.
Context (w0 : W) (F : gmap Z (list Z)).
Implicit Types (s : tstate W) (X : gset Z) (σ : nodes) (T : gmap path Z) (m : gmap path (Z * Z)).

Abbreviation tstore := (tstore (holds := holds) (disk := disk) w0 F).

(** ** Writing a leaf *)
Lemma set_entry_wf n nodeType ino ftype : codec_wf n -> is_u8 nodeType -> is_u64 ino -> is_u8 ftype ->
  codec_wf (set_entry n nodeType ino ftype).
Proof using. rewrite !slot_wf_iff. cbn. tauto. Qed.

Lemma wp_commitLeafSlot s X σ r c a nodeType ino ftype Q E : tstore s X σ -> σ !! r = Some c ->
  t_cache s !! TrieRefBlock r = Some a -> is_u8 nodeType -> is_u64 ino -> is_u8 ftype ->
  (forall s', tstore s' X (<[r := (set_entry (fst c) nodeType ino ftype, snd c)]> σ) -> Q tt s') ->
  wp (commitLeafSlot a r nodeType ino ftype) s Q E.
Proof using.
  intros Hs Hr Ha Ht Hi Hft HQ. unfold commitLeafSlot.
  destruct (cached_page _ _ _ _ _ _ _ _ Hs Hr Ha) as (pgs & p & Hp & Hσ & Eb & Hc & Hbuf & Hok).
  destruct (live_slot p _ c Hok (ref_slot_range r) Hc) as (n & En & _ & _ & Ec & _).
  apply wp_bind. eapply wp_read_buf; [exact Hbuf|]. apply wp_bind.
  eapply wp_lift; [apply ReadTrieSlot_image; [apply Hok|apply ref_slot_range|exact En]|].
  assert (n = fst c) as -> by (by rewrite Ec). pose proof (tstore_wf _ _ _ _ _ _ _ Hs Hr) as Hw.
  eapply wp_save_slot; [exact Hs|exact Hr|exact Ha|by apply set_entry_wf|done|done|]. intros s' Hs' _. by apply HQ.
Qed.

(** The entries of all nodes but the one at [p] are those of [m]. *)
Definition entries_but p T σ m : Prop := forall q r c, q <> p -> T !! q = Some r -> σ !! r = Some c -> entry_ok m q c.

Lemma commit_trie root T σ m p r n nodeType e : shape T σ -> entries_but p T σ m ->
  (forall q, is_Some (m !! q) -> is_Some (T !! q)) -> T !! [] = Some root -> m !! [] = None -> p <> [] ->
  T !! p = Some r -> σ !! r = Some (n, Some p) -> TrieIsLeaf nodeType = true ->
  (interm n = true -> Z.testbit nodeType 2 = true) ->
  trie root T (<[r := (set_entry n nodeType (fst e) (snd e), Some p)]> σ) (<[p := e]> m).
Proof using.
  intros HT He Hdom Hroot Htop Hp0 Hp Hr Hleaf Hint. split; [| |done|by rewrite lookup_insert_ne].
  - eapply trie_shape_ext; [done|]. intros q x cx Hq Hx. destruct (decide (x = r)) as [->|].
    + rewrite lookup_insert_eq. eexists. split; [done|]. assert (cx = (n, Some p)) as -> by congruence. split_and!; try done.
      rewrite interm_bit in Hint. rewrite !interm_bit. exact Hint.
    + rewrite lookup_insert_ne by done. exists cx. split; [done|]. by split_and!.
  - split.
    + intros q x cx Hq Hx. destruct (decide (q = p)) as [->|Hne].
      * assert (x = r) as -> by congruence. rewrite lookup_insert_eq in Hx. injection Hx as <-. unfold entry_ok. cbn.
        rewrite Hleaf, lookup_insert_eq. by destruct e.
      * rewrite lookup_insert_ne in Hx by (intros ->; apply Hne; by eapply sh_inj). specialize (He q x cx Hne Hq Hx).
        unfold entry_ok in *. by rewrite lookup_insert_ne.
    + intros q. destruct (decide (q = p)) as [->|]; [intros _; by eexists|]. rewrite lookup_insert_ne by done. apply Hdom.
Qed.

(** ** The states an operation on the trie reaches *)
Definition reaches root T σ m s' : Prop :=
  exists X' σ' T', tstore s' X' σ' /\ trie root T' σ' m /\ evolves T σ T' σ'.

Lemma reaches_trans root T σ T1 σ1 m s' : evolves T σ T1 σ1 -> reaches root T1 σ1 m s' -> reaches root T σ m s'.
Proof using. intros Hev (X' & σ' & T' & ? & ? & ?). exists X', σ', T'. split_and!; [done|done|]. by eapply evolves_trans. Qed.

Lemma trie_vis root T σ σ' m : trie root T σ m -> (forall r, vis <$> σ' !! r = vis <$> σ !! r) -> trie root T σ' m.
Proof using.
  intros [A B C D] Hv. split; [| |done|done].
  - eapply trie_shape_ext; [done|]. intros p r c Hp Hr. specialize (Hv r). rewrite Hr in Hv. destruct (σ' !! r) as [c'|]; [|done].
    exists c'. split; [done|]. apply vis_same_links. apply (inj Some). exact Hv.
  - eapply entries_ext; [done|]. intros p r Hp. by apply vis_ent.
Qed.

(** The trie while a node is rewritten, given what is so of the others. *)
Lemma shape_but T σ σ' p r c c' : shape T σ -> T !! p = Some r -> σ !! r = Some c -> σ' !! r = Some c' ->
  same_links c c' -> same_vis (eq r) σ σ' -> shape T σ'.
Proof using.
  intros HT Hp Hr Hr' Hl Hv. eapply trie_shape_ext; [done|]. intros q x cx Hq Hx. destruct (decide (x = r)) as [->|Hne].
  - exists c'. assert (cx = c) as -> by congruence. done.
  - specialize (Hv x ltac:(congruence)). rewrite Hx in Hv. destruct (σ' !! x) as [cx'|]; [|done]. exists cx'. split; [done|].
    apply vis_same_links, (inj Some). exact Hv.
Qed.

Lemma core_same_links c c' : core (fst c') = core (fst c) -> same_links c c'.
Proof using. intros H. apply (vis_same_links (fst c, None) (fst c', None)). unfold vis. cbn [fst snd]. by rewrite H. Qed.

Lemma entries_but_vis T σ σ' m p r : shape T σ -> T !! p = Some r -> entries_but p T σ m -> same_vis (eq r) σ σ' ->
  entries_but p T σ' m.
Proof using.
  intros HT Hp He Hv q x cx' Hne Hq Hx'. assert (Hxr : x <> r) by (intros ->; apply Hne; by eapply sh_inj).
  specialize (Hv x ltac:(congruence)). rewrite Hx' in Hv. destruct (σ !! x) as [cx|] eqn:Hx; [|done].
  apply (entry_ent m q cx); [|by apply (He q x)]. apply vis_ent in Hv. apply (inj Some). exact Hv.
Qed.

Definition good_name (name : path) : Prop := 1 <= blen name <= BrieFSMaxNameLen /\ bytes name.

Lemma good_name_ne name : good_name name -> name <> [].
Proof using. unfold good_name, blen. intros [H _] ->. simpl in H. lia. Qed.

Section leaf.
Context (root : Z) (T : gmap path Z) (m : gmap path (Z * Z)) (name : path) (r : Z).
Context (Hdom : forall q, is_Some (m !! q) -> is_Some (T !! q)) (Hroot : T !! [] = Some root) (Htop : m !! [] = None).
Context (Hname : good_name name) (Hr : T !! name = Some r).

Lemma wp_name_leaf s X σ c Q E : tstore s X σ -> shape T σ -> entries_but name T σ m -> σ !! r = Some c ->
  (forall s' σ' n, tstore s' X σ' -> t_cache s ⊆ t_cache s' -> shape T σ' -> entries_but name T σ' m ->
    σ' !! r = Some (n, Some name) -> core n = core (fst c) -> evolves T σ T σ' -> Q tt s') ->
  (forall s' σ', tstore s' X σ' -> (forall x, vis <$> σ' !! x = vis <$> σ !! x) ->
    ts_NameLen (fst c) < blen name + 2 -> E (Errno ENOSPC) s') ->
  wp (trieStoreName r name) s Q E.
Proof using Hname Hr.
  intros Hs HT He Hc HQ HE. destruct Hname as [Hlen Hb]. eapply wp_trieStoreName; [exact Hs|exact Hc|done|done|..].
  - intros s' σ' n Hs' Hsub Hn Hcore Hv. apply (HQ s' σ' n); try done.
    + eapply (shape_but T σ σ' name r c (n, Some name)); try done. by apply core_same_links.
    + by eapply entries_but_vis.
    + apply evolves_own. intros x Hx _. apply Hv. intros ->. apply Hx. by eapply elem_of_img.
  - intros s' σ' Hs' Hv Hlt. apply (HE s' σ'); [done| |done]. intros x. apply Hv. by intros [].
Qed.

Lemma wp_commit_leaf s X σ n a nodeType ino ftype Q E : tstore s X σ -> shape T σ -> entries_but name T σ m ->
  σ !! r = Some (n, Some name) -> t_cache s !! TrieRefBlock r = Some a ->
  is_u8 nodeType -> is_u64 ino -> is_u8 ftype -> TrieIsLeaf nodeType = true ->
  (interm n = true -> Z.testbit nodeType 2 = true) ->
  (forall s', reaches root T σ (<[name := (ino, ftype)]> m) s' -> Q tt s') ->
  wp (commitLeafSlot a r nodeType ino ftype) s Q E.
Proof using Hdom Hroot Htop Hname Hr.
  intros Hs HT He Hn Ha Ht Hi Hf Hleaf Hint HQ. eapply wp_commitLeafSlot; [exact Hs|exact Hn|exact Ha|done|done|done|].
  intros s' Hs'. apply HQ. eexists X, _, T. split_and!; [exact Hs'| |].
  - apply (commit_trie root T σ m name r n nodeType (ino, ftype)); try done. by apply good_name_ne.
  - apply evolves_own. intros x Hx _. rewrite lookup_insert_ne; [done|]. intros <-. apply Hx. by eapply elem_of_img.
Qed.

End leaf.

(** ** The last byte *)
Lemma new_child_fields nameLen depth b nodeType ck : new_child nameLen depth b nodeType ck ->
  ts_NodeType (fst ck) = nodeType /\ interm (fst ck) = interm (set_kind zero_slot depth b nodeType).
Proof using.
  intros [H _]. unfold interm. destruct ck as [[] ?]. unfold core, set_name, set_kind, zero_slot in H. cbn in H. injection H as -> -> -> -> -> -> -> -> ->. done.
Qed.

Lemma grown_entries T σ m p b k T' σ' ck : entries T σ m -> T !! (p ++ [b]) = None -> grown T σ p b k T' σ' ck ->
  shape T σ -> entries_but (p ++ [b]) T' σ' m /\ (forall q, is_Some (m !! q) -> is_Some (T' !! q)) /\ m !! (p ++ [b]) = None.
Proof using.
  intros [He Hd] Hb [-> A B C D Ev] HT. split_and!.
  - intros q x cx Hne Hq Hx. rewrite lookup_insert_ne in Hq by congruence. specialize (D q x Hq).
    destruct (σ !! x) as [cx0|] eqn:Hx0; [|by rewrite Hx in D]. rewrite Hx in D. apply (entry_ent m q cx0); [|by apply (He q x)].
    apply (inj Some). exact D.
  - intros q Hq%Hd. destruct (decide (q = p ++ [b])) as [->|]; [by rewrite lookup_insert_eq|]. by rewrite lookup_insert_ne.
  - apply eq_None_not_Some. intros H%Hd. rewrite Hb in H. by destruct H.
Qed.

Definition insert_error m (name : path) (e : trie_error) : Prop := e = Errno EEXIST /\ is_Some (m !! name) \/ resource e.

Lemma wp_insert_leaf s X σ root T m p b cur c name ino ftype Q E : tstore s X σ -> trie root T σ m ->
  T !! p = Some cur -> σ !! cur = Some c -> interm (fst c) = true -> T !! (p ++ [b]) = None -> name = p ++ [b] ->
  good_name name -> is_u64 ino -> is_u8 ftype ->
  (forall s', reaches root T σ (<[name := (ino, ftype)]> m) s' -> m !! name = None -> Q None s') ->
  (forall s' e, reaches root T σ m s' -> resource e -> E e s') ->
  wp (insert_leaf cur (blen p) b name ino ftype) s Q E.
Proof using HL.
  intros Hs [HT He Hroot Htop] Hp Hc Hint Hb Ename Hname Hi Hf HQ HE.
  assert (Hbytes : bytes name /\ length name = (length p + 1)%nat) by (split; [apply Hname|rewrite Ename, length_app; done]).
  destruct Hbytes as [Hbytes Hln]. pose proof (proj1 Hname) as Hlen. unfold blen, BrieFSMaxNameLen in Hlen.
  assert (Hub : is_u8 b). { rewrite Ename in Hbytes. apply bytes_app in Hbytes as [_ Hb']. by apply Forall_cons_1 in Hb' as [? _]. }
  unfold insert_leaf. apply wp_bind, wp_try. eapply wp_trieCreateChild; [exact Hs|done|exact Hp|exact Hc|done|done|done| | |lia|apply Hname| |].
  { apply Z.mod_pos_bound. lia. } { unfold is_u8. lia. }
  2: { intros s' X' e Hs' He'. apply wp_fail, HE; [|by left]. exists X', σ, T. split_and!; [done|by split|apply evolves_refl]. }
  intros s1 X1 σ1 T1 k ck Hs1 Hgr Hck. apply wp_ret. destruct (grown_entries _ _ _ _ _ _ _ _ _ He Hb Hgr HT) as (He1 & Hd1 & Hm).
  rewrite <- Ename in *. pose proof (gr_node _ _ _ _ _ _ _ _ Hgr) as Hk. destruct (ref_u64 _ _ _ _ _ _ _ Hs1 Hk) as [_ Hk0].
  assert (HTk : T1 !! name = Some k) by (rewrite (gr_T _ _ _ _ _ _ _ _ Hgr), <- Ename; apply lookup_insert_eq).
  assert (Hr1 : T1 !! [] = Some root).
  { rewrite (gr_T _ _ _ _ _ _ _ _ Hgr). rewrite lookup_insert_ne; [done|]. by destruct p. }
  unfold TrieRefIsNull. rewrite (proj2 (Z.eqb_neq k 0)) by done. cbn zeta. apply wp_bind, wp_try.
  eapply wp_trieRead; [exact Hs1|exact Hk|]. intros s2 a Hs2 _ Ha. apply wp_ret. apply wp_bind, wp_try.
  eapply (wp_name_leaf T1 m name k Hname HTk); [exact Hs2|apply Hgr|done|exact Hk|..].
  - intros s3 σ3 n Hs3 Hsub HT3 He3 Hn Hcore Hev3. apply wp_ret, wp_bind.
    eapply (wp_commit_leaf root T1 m name k); try done; [by eapply lookup_weaken| |].
    + intros Hn2. exfalso. destruct (new_child_fields _ _ _ _ _ Hck) as [Et Ei].
      assert (ts_NodeType n = ts_NodeType (fst ck)) as E2 by (by apply (f_equal ts_NodeType) in Hcore). unfold interm in Hn2. by rewrite E2, Et in Hn2.
    + intros s4 Hre. apply wp_ret, HQ; [|done]. eapply reaches_trans; [|exact Hre]. eapply evolves_trans; [apply Hgr|done].
  - intros s3 σ3 _ _ Hlt. destruct Hck as [_ Hnl]. exfalso. rewrite Hnl in Hlt; unfold blen in *; lia.
Qed.

Lemma leaf_of_bits n : TrieIsLeaf (ts_NodeType n) = negb (interm n) || Z.testbit (ts_NodeType n) 3.
Proof using. by rewrite leaf_bits, interm_bit. Qed.

Lemma entries_all_but T σ m p : entries T σ m -> entries_but p T σ m.
Proof using. intros [A _] q r c _. apply A. Qed.

Lemma wp_insert_existing s X σ root T m cur pos b r name ino ftype Q E : tstore s X σ -> trie root T σ m ->
  T !! name = Some r -> good_name name -> is_u64 ino -> is_u8 ftype ->
  (forall s', reaches root T σ (<[name := (ino, ftype)]> m) s' -> m !! name = None -> Q None s') ->
  (forall s' e, reaches root T σ m s' -> insert_error m name e -> E e s') ->
  wp (insert_existing cur r pos b name ino ftype) s Q E.
Proof using HL.
  intros Hs Htr Hp Hname Hi Hf HQ HE. pose proof Htr as [HT He Hroot Htop].
  destruct (sh_node _ _ HT name r Hp) as (_ & c & bs & Hc & _). pose proof (en_node _ _ _ He name r c Hp Hc) as Hent.
  assert (Hstay : forall s' X', tstore s' X' σ -> reaches root T σ m s').
  { intros s' X' Hs'. exists X', σ, T. split_and!; [done|done|apply evolves_refl]. }
  unfold insert_existing. apply wp_bind. eapply wp_trieRead; [exact Hs|exact Hc|]. intros s1 a Hs1 _ Ha. cbn beta iota.
  rewrite land_interm, land_leaf, !negb_involutive. unfold entry_ok in Hent. rewrite leaf_of_bits in Hent.
  assert (Hdup : snd c = Some name -> is_Some (m !! name) -> forall {A} (k : SM (tstate W) A) Q',
    wp (dup ← has_name a (fst c) name; if (dup : bool) then fail (Errno EEXIST) else k) s1 Q' E).
  { intros Hn Hm A k Q'. apply wp_bind. eapply wp_has_name; [exact Hs1|exact Hc|exact Ha|by apply good_name_ne|].
    rewrite bool_decide_true by done. apply wp_fail, HE; [by eapply Hstay|by left]. }
  destruct (interm (fst c)) eqn:Eint; cbn [negb orb] in *.
  - destruct (Z.testbit (ts_NodeType (fst c)) 3) eqn:Eleaf; cbn [negb].
    + destruct Hent as [Hn Hm]. by apply Hdup.
    + apply wp_bind, wp_ret. cbn iota. apply wp_bind. unfold commitLeafNode. apply wp_bind.
      eapply (wp_name_leaf T m name r Hname Hp); [exact Hs1|done|by apply entries_all_but|exact Hc|..].
      * intros s2 σ2 n Hs2 Hsub HT2 He2 Hn Hcore Hev.
        assert (Et : ts_NodeType n = ts_NodeType (fst c)) by (by apply (f_equal ts_NodeType) in Hcore).
        pose proof (tstore_wf _ _ _ _ _ _ _ Hs2 Hn) as Hw. apply slot_wf_iff in Hw as (_ & _ & _ & _ & _ & _ & Hty & _). cbn in Hty.
        assert (Hb2 : Z.testbit (ts_NodeType (fst c)) 2 = true) by (by rewrite <- interm_bit).
        eapply (wp_commit_leaf root T m name r); try done.
        -- apply He.
        -- by eapply lookup_weaken.
        -- apply u8_lor; [by rewrite <- Et|unfold is_u8, NodeStatusLeaf; lia].
        -- rewrite leaf_bits, !lor_leaf_bits. apply orb_true_iff. right. by rewrite orb_true_r.
        -- intros _. by rewrite lor_leaf_bits, Hb2.
        -- intros s3 Hre. apply wp_ret, HQ; [by eapply reaches_trans|done].
      * intros s2 σ2 Hs2 Hv _. apply HE; [|by right; left]. exists X, σ2, T. split_and!; [done|by eapply trie_vis|].
        apply evolves_own. auto.
  - destruct Hent as [Hn Hm]. by apply Hdup.
Qed.

Lemma wp_insert_last s X σ root T m p cur c b name ino ftype Q E : tstore s X σ -> trie root T σ m ->
  T !! p = Some cur -> σ !! cur = Some c -> interm (fst c) = true -> name = p ++ [b] ->
  good_name name -> is_u64 ino -> is_u8 ftype ->
  (forall s', reaches root T σ (<[name := (ino, ftype)]> m) s' -> m !! name = None -> Q None s') ->
  (forall s' e, reaches root T σ m s' -> insert_error m name e -> E e s') ->
  wp (insert_last cur (blen p) b name ino ftype) s Q E.
Proof using HL.
  intros Hs Htr Hp Hc Hint Ename Hname Hi Hf HQ HE. unfold insert_last. apply wp_bind.
  eapply wp_find; [exact Hs|apply Htr|exact Hp|]. intros s1 Hs1 _. unfold kid. rewrite <- Ename.
  destruct (T !! name) as [r|] eqn:Er; cbn [default].
  - change (id r) with r. pose proof (sh_node _ _ (tr_shape _ _ _ _ Htr) _ _ Er) as [Hr0 _]. unfold TrieRefIsNull.
    rewrite (proj2 (Z.eqb_neq r 0)) by done. cbn [negb]. by eapply wp_insert_existing.
  - cbn [TrieRefIsNull Z.eqb negb]. eapply wp_insert_leaf; try done; [by rewrite <- Ename|].
    intros s' e Hre He. apply HE; [done|by right].
Qed.

(** ** A byte before the last *)

(** The trie and the node that the loop goes on from. *)
Definition descends root T σ m q r s' : Prop :=
  exists X' σ' T' c', tstore s' X' σ' /\ trie root T' σ' m /\ evolves T σ T' σ' /\
    T' !! q = Some r /\ σ' !! r = Some c' /\ interm (fst c') = true.

(** A pure leaf on the way becomes an intermediate node that keeps its entry. *)
Lemma wp_promote s X σ root T m p b cur r c name ino ftype Q E : tstore s X σ -> trie root T σ m ->
  T !! (p ++ [b]) = Some r -> σ !! r = Some c -> interm (fst c) = false ->
  (forall s', descends root T σ m (p ++ [b]) r s' -> Q r s') ->
  wp (trieSplitLeaf cur r (blen p) b name ino ftype) s Q E.
Proof using HL.
  intros Hs Htr Hp Hc Hint HQ. pose proof Htr as [HT He Hroot Htop]. pose proof (en_node _ _ _ He _ _ _ Hp Hc) as Hent.
  unfold entry_ok in Hent. rewrite leaf_of_bits, Hint in Hent. destruct Hent as [Hn Hm].
  pose proof (tstore_name_len _ _ _ _ _ _ _ _ Hs Hc Hn) as Hlen. unfold blen in Hlen. rewrite length_app in Hlen. simpl in Hlen.
  unfold trieSplitLeaf. apply wp_bind. eapply wp_trieRead; [exact Hs|exact Hc|]. intros s1 a Hs1 _ Ha. cbn beta iota zeta.
  rewrite (proj2 (Z.eqb_eq _ _)) by (unfold blen; lia). pose proof (tstore_wf _ _ _ _ _ _ _ Hs Hc) as Hw.
  pose proof (proj1 (slot_wf_iff _) Hw) as (_ & _ & _ & _ & _ & _ & _ & Hby & _).
  apply wp_bind. eapply wp_save_slot; [exact Hs1|exact Hc|exact Ha| |done|done|].
  { apply set_kind_wf; [done|apply Z.mod_pos_bound; lia|done|]. unfold is_u8. vm_compute. intuition congruence. }
  intros s2 Hs2 _. apply wp_ret, HQ. eexists X, _, T, _. split_and!; [exact Hs2| | |done|apply lookup_insert_eq|done].
  - split; [| |done|done].
    + eapply trie_shape_ext; [done|]. intros q x cx Hq Hx. destruct (decide (x = r)) as [->|].
      * rewrite lookup_insert_eq. eexists. split; [done|]. assert (cx = c) as -> by congruence. by split_and!.
      * rewrite lookup_insert_ne by done. exists cx. split; [done|]. by split_and!.
    + split; [|apply He]. intros q x cx Hq Hx. destruct (decide (x = r)) as [->|].
      * rewrite lookup_insert_eq in Hx. injection Hx as <-. assert (q = p ++ [b]) as -> by (by eapply sh_inj). by split.
      * rewrite lookup_insert_ne in Hx by done. by eapply en_node.
  - apply evolves_own. intros x Hx _. rewrite lookup_insert_ne; [done|]. intros <-. apply Hx. by eapply elem_of_img.
Qed.

Lemma wp_find_or_create s X σ root T m p cur c b depth Q E : tstore s X σ -> trie root T σ m ->
  T !! p = Some cur -> σ !! cur = Some c -> interm (fst c) = true -> is_u8 b -> is_u8 depth -> (length p < 255)%nat ->
  (forall s' X' σ' T' r, tstore s' X' σ' -> trie root T' σ' m -> evolves T σ T' σ' -> T' !! (p ++ [b]) = Some r -> Q r s') ->
  (forall s' e, reaches root T σ m s' -> resource e -> E e s') ->
  wp (trieFindOrCreateChild cur depth b) s Q E.
Proof using HL.
  intros Hs Htr Hp Hc Hint Hb Hd Hlen HQ HE. unfold trieFindOrCreateChild. apply wp_bind.
  eapply wp_find; [exact Hs|apply Htr|exact Hp|]. intros s1 Hs1 _. unfold kid.
  destruct (T !! (p ++ [b])) as [r|] eqn:Er; cbn [default].
  - change (id r) with r. pose proof (sh_node _ _ (tr_shape _ _ _ _ Htr) _ _ Er) as [Hr0 _]. unfold TrieRefIsNull.
    rewrite (proj2 (Z.eqb_neq r 0)) by done. cbn [negb]. apply wp_ret. eapply HQ; [exact Hs1|done|apply evolves_refl|done].
  - cbn [TrieRefIsNull Z.eqb negb]. pose proof Htr as [HT He Hroot Htop].
    eapply wp_trieCreateChild; [exact Hs1|done|exact Hp|exact Hc|done|done|done|done|unfold is_u8, NodeTypeInterm; lia|done|unfold BrieFSMaxNameLen; lia|..].
    + intros s2 X2 σ2 T2 k ck Hs2 Hgr Hck. destruct (grown_entries _ _ _ _ _ _ _ _ _ He Er Hgr HT) as (He2 & Hd2 & Hm).
      assert (Hk : T2 !! (p ++ [b]) = Some k) by (rewrite (gr_T _ _ _ _ _ _ _ _ Hgr); apply lookup_insert_eq).
      eapply (HQ s2 X2 σ2 T2 k); [done| |apply Hgr|done]. split; [apply Hgr| | |done].
      * split; [|done]. intros q x cx Hq Hx. destruct (decide (q = p ++ [b])) as [->|]; [|by eapply He2].
        assert (x = k) as -> by congruence. pose proof (gr_node _ _ _ _ _ _ _ _ Hgr) as Hk2. assert (cx = ck) as -> by congruence.
        unfold entry_ok. destruct (new_child_fields _ _ _ _ _ Hck) as [-> _]. done.
      * rewrite (gr_T _ _ _ _ _ _ _ _ Hgr), lookup_insert_ne; [done|]. by destruct p.
    + intros s2 X2 e Hs2 Hres. apply HE; [|done]. exists X2, σ, T. split_and!; [done|done|apply evolves_refl].
Qed.

Lemma wp_insert_step s X σ root T m p cur c b name ino ftype Q E : tstore s X σ -> trie root T σ m ->
  T !! p = Some cur -> σ !! cur = Some c -> interm (fst c) = true -> is_u8 b -> (length p < 255)%nat ->
  (forall s' r, descends root T σ m (p ++ [b]) r s' -> Q r s') ->
  (forall s' e, reaches root T σ m s' -> resource e -> E e s') ->
  wp (insert_step cur (blen p) b name ino ftype) s Q E.
Proof using HL.
  intros Hs Htr Hp Hc Hint Hb Hlen HQ HE. unfold insert_step. apply wp_bind, wp_try.
  eapply wp_find_or_create; [exact Hs|exact Htr|exact Hp|exact Hc|done|done|apply Z.mod_pos_bound; lia|done|..].
  - intros s1 X1 σ1 T1 r Hs1 Htr1 Hev Hr. apply wp_ret. destruct (sh_node _ _ (tr_shape _ _ _ _ Htr1) _ _ Hr) as (Hr0 & cr & bs & Hcr & _).
    unfold TrieRefIsNull. rewrite (proj2 (Z.eqb_neq r 0)) by done. apply wp_bind. eapply wp_trieRead; [exact Hs1|exact Hcr|].
    intros s2 a Hs2 _ _. cbn beta iota. rewrite land_interm. destruct (interm (fst cr)) eqn:Ei; cbn [negb].
    + apply wp_ret, HQ. exists X1, σ1, T1, cr. by split_and!.
    + eapply wp_promote; [exact Hs2|exact Htr1|exact Hr|exact Hcr|done|]. intros s3 (X3 & σ3 & T3 & c3 & ? & ? & Hev3 & ? & ? & ?).
      apply HQ. exists X3, σ3, T3, c3. split_and!; try done. by eapply evolves_trans.
  - intros s1 e Hre _. apply wp_fail, HE; [done|by left].
Qed.

(** ** The loop and the operation *)
Lemma wp_insert_loop root m name ino ftype Q E : good_name name -> is_u64 ino -> is_u8 ftype ->
  forall rest p cur c s X σ T, tstore s X σ -> trie root T σ m -> T !! p = Some cur -> σ !! cur = Some c ->
  interm (fst c) = true -> name = p ++ rest -> rest <> [] ->
  (forall s', reaches root T σ (<[name := (ino, ftype)]> m) s' -> m !! name = None -> Q tt s') ->
  (forall s' e, reaches root T σ m s' -> insert_error m name e -> E e s') ->
  wp (insert_loop rest cur (blen p) name ino ftype) s Q E.
Proof using HL.
  intros Hname Hi Hf. induction rest as [|b rest IH]; [done|]. intros p cur c s X σ T Hs Htr Hp Hc Hint Ename _ HQ HE.
  cbn [insert_loop]. destruct rest as [|b' rest].
  - apply wp_bind. by eapply wp_insert_last.
  - pose proof Hname as [Hlen Hbytes]. rewrite Ename in Hlen, Hbytes. unfold blen, BrieFSMaxNameLen in Hlen. rewrite length_app in Hlen.
    simpl in Hlen. apply bytes_app in Hbytes as [_ Hbytes]. apply Forall_cons_1 in Hbytes as [Hb _].
    apply wp_bind. eapply wp_insert_step; try done; [lia| |].
    + intros s1 r (X1 & σ1 & T1 & c1 & Hs1 & Htr1 & Hev & Hr & Hc1 & Hi1).
      replace (blen p + 1) with (blen (p ++ [b])) by (unfold blen; rewrite length_app; simpl; lia).
      eapply (IH (p ++ [b])); [exact Hs1|exact Htr1|exact Hr|exact Hc1|done|by rewrite <- app_assoc|done|..].
      * intros s' Hre Hm. apply HQ; [by eapply reaches_trans|done].
      * intros s' e Hre He. apply HE; [by eapply reaches_trans|done].
    + intros s' e Hre He. apply HE; [done|by right].
Qed.

Lemma wp_trieCreateRoot s X σ Q E : tstore s X σ ->
  (forall s' X' σ' T' r, tstore s' X' σ' -> trie r T' σ' ∅ -> evolves ∅ σ T' σ' -> r <> 0 -> Q r s') ->
  (forall s' X' e, tstore s' X' σ -> resource e -> E e s') ->
  wp (triePageInit 0 0 NodeTypeInterm) s Q E.
Proof using HL.
  intros Hs HQ HE. eapply wp_new_root; [exact Hs|unfold is_u8, NodeTypeInterm; lia| |exact HE].
  intros s' X' r Hs' Hr. set (σ' := <[r := _]> σ) in *. assert (Hr' : σ' !! r = Some (mkTrieSlot 0 0 0 0 0 0 NodeTypeInterm 0 0 0 0, None)) by apply lookup_insert_eq.
  destruct (ref_u64 _ _ _ _ _ _ _ Hs' Hr') as [_ Hr0].
  assert (HT1 : forall q x, ({[ [] := r ]} : gmap path Z) !! q = Some x -> q = [] /\ x = r).
  { intros q x. rewrite lookup_singleton_Some. by intros [<- <-]. }
  apply (HQ s' X' σ' {[ [] := r ]}); [done| | |done].
  - split; [split| |by rewrite lookup_singleton_eq|done].
    + by intros p q x [-> _]%HT1 [-> _]%HT1.
    + intros p b [x [E' _]%HT1]. by destruct p.
    + intros p [x [-> _]%HT1]. split; [constructor|simpl; lia].
    + intros p x [-> ->]%HT1. split; [done|]. eexists _, []. split; [exact Hr'|]. split; [constructor| |done|done|done].
      intros b. split; [by intros [x [E' _]%HT1]|by intros ?%not_elem_of_nil].
    + intros p b x cx [E' _]%HT1. by destruct p.
    + split; [|intros p [e He]; done]. intros p x cx [-> ->]%HT1 Hx. assert (cx = _) as -> by (rewrite Hr' in Hx; by injection Hx). done.
  - split.
    + intros x _ [cx Hx]. unfold σ'. rewrite lookup_insert_ne; [done|congruence].
    + intros x (q & [_ ->]%HT1)%elem_of_map_img. by right.
Qed.

(** A directory without a root holds no names. *)
Definition dir_trie (root : Z) T σ m : Prop := if root =? 0 then T = ∅ /\ m = ∅ else trie root T σ m.

(** What every operation on a directory preserves: the nodes of the state are
    again a store, the trie is again one of a map, and the nodes of other
    directories are as they were. *)
Definition dir_after T σ (root' : Z) m' s' : Prop :=
  exists X' σ' T', tstore s' X' σ' /\ dir_trie root' T' σ' m' /\ evolves T σ T' σ'.

Lemma trie_dir root T σ m : trie root T σ m -> dir_trie root T σ m.
Proof using.
  intros Ht. unfold dir_trie. pose proof (sh_node _ _ (tr_shape _ _ _ _ Ht) [] root (tr_root _ _ _ _ Ht)) as [H0 _].
  by rewrite (proj2 (Z.eqb_neq root 0)).
Qed.

Lemma reaches_dir root T σ m s' : reaches root T σ m s' -> dir_after T σ root m s'.
Proof using. intros (X' & σ' & T' & ? & ? & ?). exists X', σ', T'. split_and!; [done|by apply trie_dir|done]. Qed.

(** The insertion proper, into a directory with a root. *)
Lemma insert_loop_dir s X σ root T m name ino ftype : tstore s X σ -> trie root T σ m ->
  good_name name -> is_u64 ino -> is_u8 ftype ->
  wp (insert_loop name root 0 name ino ftype) s
    (fun _ s' => dir_after T σ root (<[name := (ino, ftype)]> m) s' /\ m !! name = None)
    (fun e s' => dir_after T σ root m s' /\ insert_error m name e).
Proof using HL.
  intros Hs Htr Hname Hi Hf. pose proof Htr as [HT He Hroot Htop].
  destruct (sh_node _ _ HT [] root Hroot) as (_ & c & bs & Hc & _). pose proof (en_node _ _ _ He [] root c Hroot Hc) as Hent.
  assert (Hint : interm (fst c) = true).
  { unfold entry_ok in Hent. rewrite leaf_of_bits in Hent. destruct (interm (fst c)); [done|]. destruct Hent as [_ E]. congruence. }
  eapply (wp_insert_loop root m name ino ftype _ _ Hname Hi Hf name [] root c); try done.
  - by apply good_name_ne.
  - intros s' Hre Hm. split; [by apply reaches_dir|done].
  - intros s' e Hre He'. split; [by apply reaches_dir|done].
Qed.

Definition insert_result m (name : path) (e : Z * Z) m' (x : res trie_error unit) : Prop :=
  match x with
  | Ret _ => blen name <= BrieFSMaxNameLen /\ m !! name = None /\ m' = <[name := e]> m
  | Err (Errno ENAMETOOLONG) => BrieFSMaxNameLen < blen name /\ m' = m
  | Err (Errno EEXIST) => is_Some (m !! name) /\ m' = m
  | Err err => resource err /\ m' = m
  | Panic => False
  end.

(** The rest of [TrieInsert], once there is a root. *)
Lemma insert_with_root s X σ d T m name ino ftype : tstore s X σ -> trie (ino_DirTrieRoot d) T σ m ->
  good_name name -> is_u64 ino -> is_u8 ftype ->
  let '(s', x) := insert_loop name (ino_DirTrieRoot d) 0 name ino ftype s in
  exists m', dir_after T σ (ino_DirTrieRoot d) m' s' /\ insert_result m name (ino, ftype) m' x.
Proof using HL.
  intros Hs Htr Hname Hi Hf. pose proof (insert_loop_dir s X σ _ T m name ino ftype Hs Htr Hname Hi Hf) as Hwp.
  unfold wp in Hwp. destruct (insert_loop _ _ _ _ _ _ s) as [s' [u|e|]]; [| |done]; destruct Hwp as [Ha Hm].
  - eexists. split; [done|]. split_and!; [apply Hname|done|done].
  - exists m. split; [done|]. destruct Hm as [[-> Hm]|[-> | ->]]; (split; [|done]); [done|by left|by right].
Qed.

Lemma dir_after_trans T σ T1 σ1 root m s' : evolves T σ T1 σ1 -> dir_after T1 σ1 root m s' -> dir_after T σ root m s'.
Proof using. intros Hev (X' & σ' & T' & ? & ? & ?). exists X', σ', T'. split_and!; [done|done|by eapply evolves_trans]. Qed.

Lemma dir_after_stay s X σ root T m : tstore s X σ -> dir_trie root T σ m -> dir_after T σ root m s.
Proof using. intros Hs Hd. exists X, σ, T. split_and!; [done|done|apply evolves_refl]. Qed.

Lemma set_root_id d : d = set_root d (ino_DirTrieRoot d).
Proof using. by destruct d. Qed.

Lemma TrieInsert_spec s X σ di T m name ino ftype : tstore s X σ -> dir_trie (ino_DirTrieRoot di) T σ m ->
  name <> [] -> bytes name -> is_u64 ino -> is_u8 ftype ->
  let '(s', (di', x)) := TrieInsert di name ino ftype s in
  di' = set_root di (ino_DirTrieRoot di') /\
  exists m', dir_after T σ (ino_DirTrieRoot di') m' s' /\ insert_result m name (ino, ftype) m' x.
Proof using HL.
  intros Hs Hdir Hne Hb Hi Hf. unfold TrieInsert. destruct (Z.ltb_spec BrieFSMaxNameLen (blen name)) as [Hlong|Hlen].
  { split; [apply set_root_id|]. exists m. split; [by eapply dir_after_stay|done]. }
  assert (Hname : good_name name).
  { split; [|done]. split; [|done]. destruct name; [done|]. unfold blen. simpl. lia. }
  unfold TrieRefIsNull. pose proof Hdir as Hdir'. unfold dir_trie in Hdir. destruct (Z.eqb_spec (ino_DirTrieRoot di) 0) as [E0|Hr0].
  - destruct Hdir as [-> ->]. unfold trieCreateRoot.
    assert (Hwp : wp (triePageInit 0 0 NodeTypeInterm) s
      (fun r s' => exists X' σ' T', tstore s' X' σ' /\ trie r T' σ' ∅ /\ evolves ∅ σ T' σ')
      (fun e s' => exists X', tstore s' X' σ /\ resource e)).
    { eapply wp_trieCreateRoot; [exact Hs| |]; [intros s' X' σ' T' r ? ? ? _; by exists X', σ', T'|intros s' X' e ? ?; by exists X']. }
    unfold wp in Hwp. destruct (triePageInit 0 0 NodeTypeInterm s) as [s1 [r|e|]]; [| |done].
    + destruct Hwp as (X1 & σ1 & T1 & Hs1 & Htr1 & Hev).
      pose proof (insert_with_root s1 X1 σ1 (set_root di r) T1 ∅ name ino ftype Hs1 Htr1 Hname Hi Hf) as Hins.
      destruct (insert_loop _ _ _ _ _ _ s1) as [s' x]. split; [done|]. destruct Hins as (m' & Ha & Hx).
      exists m'. split; [by eapply dir_after_trans|done].
    + destruct Hwp as (X1 & Hs1 & Hres). split; [apply set_root_id|]. exists ∅. split; [by eapply dir_after_stay|].
      destruct Hres as [-> | ->]; (split; [|done]); [by left|by right].
  - pose proof (insert_with_root s X σ di T m name ino ftype Hs Hdir Hname Hi Hf) as Hins.
    destruct (insert_loop _ _ _ _ _ _ s) as [s' x]. split; [apply set_root_id|done].
Qed.

(** C2 Inserting a name into a directory, whose nodes may share pages with those
    of other directories, adds the name with its inode and type to the map that
    the trie holds; the root is created when there is none.  The operation fails
    only when the name is too long or present, when no block is free or a page
    is full, or when the journal fails, and the trie is then still well formed
    and holds the old map.  It never panics, writes nothing but the journal to
    the device, and leaves all nodes of other directories and all other blocks
    as they were. *)
Theorem TrieInsert_correct s X σ di T m name ino ftype : tstore s X σ -> dir_trie (ino_DirTrieRoot di) T σ m ->
  name <> [] -> bytes name -> is_u64 ino -> is_u8 ftype ->
  let '(s', (di', x)) := TrieInsert di name ino ftype s in
  di' = set_root di (ino_DirTrieRoot di') /\
  exists m', dir_after T σ (ino_DirTrieRoot di') m' s' /\ insert_result m name (ino, ftype) m' x.
Proof using HL. exact (TrieInsert_spec s X σ di T m name ino ftype). Qed.

End insert.
