(* ===== verification/TrieFind.v ===== *)
(** * Looking names up and updating entries (fuse/trie.go, fuse/trie_mutate.go)

    A lookup reads the device, with the deferred blocks in front of it, and finds
    exactly the names that the trie holds.  An update changes the entry of a name
    in place. *)

From stdpp Require Import base numbers list option gmap.
From Stdlib Require Import ZArith Lia.
From S2P Require Import Prelude Codec Bits TriePage Trie TrieStore TrieShape TrieOps TrieInsert.

Local Open Scope Z_scope.

Implicit Types (T : gmap path Z) (σ : nodes) (m : gmap path (Z * Z)).

(** ** Paths that are not in the trie *)
Lemma shape_prefix T σ p q : shape T σ -> is_Some (T !! (p ++ q)) -> is_Some (T !! p).
Proof.
  intros HT. induction q as [|b q IH] using rev_ind; [by rewrite app_nil_r|].
  rewrite app_assoc. intros H%(sh_parent _ _ HT). auto.
Qed.

Lemma no_entry root T σ m p q : trie root T σ m -> T !! p = None -> m !! (p ++ q) = None.
Proof.
  intros [HT He _ _] Hp. apply eq_None_not_Some. intros H%(en_dom _ _ _ He). apply (shape_prefix _ _ _ _ HT) in H as [x Hx]. congruence.
Qed.

Lemma leaf_no_entry root T σ m p r c b q : trie root T σ m -> T !! p = Some r -> σ !! r = Some c -> interm (fst c) = false ->
  m !! (p ++ b :: q) = None.
Proof.
  intros Htr Hp Hc Hi. change (b :: q) with ([b] ++ q). rewrite app_assoc. eapply no_entry; [done|].
  destruct (sh_node _ _ (tr_shape _ _ _ _ Htr) p r Hp) as (_ & c' & bs & Hc' & Hf). assert (c' = c) as -> by congruence.
  apply (kid_none _ _ _ _ _ Hf). rewrite (fam_leaf _ _ _ _ _ Hf Hi). apply not_elem_of_nil.
Qed.

Lemma root_interm root T σ m : trie root T σ m -> exists c, σ !! root = Some c /\ interm (fst c) = true.
Proof.
  intros [HT He Hroot Htop]. destruct (sh_node _ _ HT [] root Hroot) as (_ & c & bs & Hc & _).
  pose proof (en_node _ _ _ He [] root c Hroot Hc) as Hent. exists c. split; [done|].
  unfold entry_ok in Hent. rewrite leaf_of_bits in Hent. destruct (interm (fst c)); [done|]. destruct Hent as [_ E]. congruence.
Qed.

(** ** Lookup *)
Section lookup.
Context (readBlock : Z -> option (list Z)).

(** The nodes that a reader of blocks shows. *)
Definition shown σ : Prop := exists pgs : gmap Z page,
  (forall b p, pgs !! b = Some p -> page_ok p /\ readBlock b = Some (image p)) /\ forall r, σ !! r = node pgs r.

Lemma wp_trieReadNode σ r c Q E : shown σ -> σ !! r = Some c ->
  (forall buf, (forall Q', (forall nm, snd c = Some nm -> Q' nm tt) -> is_Some (snd c) ->
     wp (lift (ReadTrieName buf (ts_NameLen (fst c)) (ts_NameOffset (fst c)))) tt Q' E) -> Q (buf, fst c) tt) ->
  wp (trieReadNode readBlock r) tt Q E.
Proof.
  intros (pgs & Hp & Hσ) Hr HQ. rewrite Hσ in Hr. unfold node in Hr. destruct (pgs !! TrieRefBlock r) as [p|] eqn:Eb; [|done].
  cbn in Hr. destruct (Hp _ _ Eb) as [Hok Hb]. pose proof (ref_slot_range r) as Hi.
  destruct (live_slot p _ c Hok Hi Hr) as (n & En & _ & _ & -> & Hf & _). unfold trieReadNode. rewrite Hb.
  apply wp_bind. eapply wp_lift; [apply ReadTriePage_image, Hok|]. apply wp_bind.
  eapply wp_lift; [apply ReadTrieSlot_image; [apply Hok|apply Hi|exact En]|]. apply wp_ret. cbn [fst snd cell_of] in *. apply HQ.
  intros Q' HQ' [nm Hnm]. pose proof (ReadTrieName_image p n (top p) (ok_wf p Hok) Hf (ok_top p Hok)) as HR. rewrite Hnm in HR.
  eapply wp_lift; [exact HR|]. by apply HQ'.
Qed.

Lemma wp_TrieFindChild σ T p r b Q E : shown σ -> shape T σ -> T !! p = Some r ->
  Q (kid T p b) tt -> wp (TrieFindChild readBlock r b) tt Q E.
Proof.
  intros Hs HT Hp HQ. destruct (sh_node _ _ HT p r Hp) as (_ & c & bs & Hc & Hf). unfold TrieFindChild. apply wp_bind.
  eapply wp_trieReadNode; [done|exact Hc|]. intros buf _. cbn beta iota. apply wp_bind. unfold trieScanSiblings.
  apply (wp_scan_siblings σ (fun _ => True)) with (T := T) (p := p) (bs := bs); try done; try apply Hf.
  - intros [] x cx Q' _ Hx HQ'. apply wp_bind. eapply wp_trieReadNode; [done|exact Hx|]. intros buf' _. by apply wp_ret, HQ'.
  - apply (kid_some _ _ _ _ _ Hf).
  - pose proof (fam_length _ _ _ _ _ HT Hf). change (Z.to_nat TrieSiblingMax) with 1024%nat. lia.
  - intros [] _ Hb. apply wp_ret. unfold kid in HQ. by rewrite (kid_none _ _ _ _ _ Hf) in HQ.
  - intros [] bs1 bs2 _ ->. by apply wp_ret.
Qed.

Definition lookup_result m (name : path) : (Z * Z -> unit -> Prop) * (trie_error -> unit -> Prop) :=
  (fun e _ => m !! name = Some e, fun err _ => err = ErrNotFound /\ m !! name = None).

Lemma wp_lookup_loop σ root T m name : shown σ -> trie root T σ m -> forall rest p cur,
  T !! p = Some cur -> name = p ++ rest -> rest <> [] ->
  wp (lookup_loop readBlock name rest cur) tt (fst (lookup_result m name)) (snd (lookup_result m name)).
Proof.
  intros Hs Htr. induction rest as [|b rest IH]; [done|]. intros p cur Hp Ename _. cbn [lookup_loop].
  assert (Hb : name = (p ++ [b]) ++ rest) by (by rewrite Ename, <- app_assoc).
  apply wp_bind. eapply wp_TrieFindChild; [done|apply Htr|exact Hp|]. unfold kid.
  destruct (T !! (p ++ [b])) as [r|] eqn:Er; cbn [default].
  2: { apply wp_fail. split; [done|]. rewrite Hb. by eapply no_entry. }
  change (id r) with r. destruct (sh_node _ _ (tr_shape _ _ _ _ Htr) _ _ Er) as (Hr0 & c & bs & Hc & Hf).
  pose proof (en_node _ _ _ (tr_entries _ _ _ _ Htr) _ _ _ Er Hc) as Hent. unfold entry_ok in Hent.
  unfold TrieRefIsNull. rewrite (proj2 (Z.eqb_neq r 0)) by done. apply wp_bind. eapply wp_trieReadNode; [done|exact Hc|].
  intros buf Hname. cbn beta iota. destruct rest as [|b' rest].
  - rewrite app_nil_r in Hb. rewrite <- Hb in *. destruct (TrieIsLeaf _); cbn [negb].
    + destruct Hent as [Hn Hm]. apply wp_bind, Hname; [|by eexists]. intros nm Hnm. assert (nm = name) as -> by congruence.
      by rewrite bool_decide_true by done.
    + by apply wp_fail.
  - rewrite land_interm. destruct (interm (fst c)) eqn:Ei; cbn [negb]; [by apply (IH (p ++ [b]))|].
    rewrite leaf_of_bits, Ei in Hent. destruct Hent as [Hn Hm]. apply wp_bind, Hname; [|by eexists].
    intros nm Hnm. assert (nm = p ++ [b]) as -> by congruence. rewrite bool_decide_false.
    + apply wp_fail. split; [done|]. rewrite Hb. by eapply leaf_no_entry.
    + rewrite Hb. intros E. apply (f_equal length) in E. rewrite !length_app in E. simpl in E. lia.
Qed.

(** C17 A lookup in a directory finds a name exactly when the trie holds it, and
    returns its inode and type; any other name is not found. *)
Theorem TrieLookup_correct σ root T m name : shown σ -> trie root T σ m ->
  TrieLookup readBlock root name tt = (tt, match m !! name with Some e => Ret e | None => Err ErrNotFound end).
Proof.
  intros Hs Htr. unfold TrieLookup, TrieRefIsNull. pose proof (sh_node _ _ (tr_shape _ _ _ _ Htr) [] root (tr_root _ _ _ _ Htr)) as [H0 _].
  rewrite (proj2 (Z.eqb_neq root 0)) by done. destruct name as [|b name]; [by rewrite (tr_top _ _ _ _ Htr)|].
  pose proof (wp_lookup_loop σ root T m (b :: name) Hs Htr (b :: name) [] root (tr_root _ _ _ _ Htr) eq_refl ltac:(done)) as Hwp.
  unfold wp in Hwp. destruct (lookup_loop _ _ _ _ _) as [[] [e|e|]]; cbn in Hwp; [by rewrite Hwp| |done].
  by destruct Hwp as [-> ->].
Qed.

End lookup.

(** The state of an operation shows its own nodes. *)
Lemma tstore_shown {W} {TW : TrieWorld W} {holds disk} (w0 : W) F s X σ :
  tstore (holds := holds) (disk := disk) w0 F s X σ -> shown (view s) σ.
Proof.
  intros (pgs & Hp & Hσ). exists pgs. split; [|done]. intros b p Eb. by destruct (ph_page _ _ _ _ _ Hp b p Eb) as (? & ? & _).
Qed.

(** ** Update *)
Section update.
Context {W : Type} {TW : TrieWorld W} {holds : W -> gset Z -> Prop} {disk : Z -> Prop} {HL : TrieLaws W holds disk}.
Context (w0 : W) (F : gmap Z (list Z)).
Implicit Types (s : tstate W) (X : gset Z).

Abbreviation tstore := (tstore (holds := holds) (disk := disk) w0 F).
Abbreviation dir_after := (dir_after (holds := holds) (disk := disk) w0 F).

Definition update_result m (name : path) (e : Z * Z) m' (x : res trie_error unit) : Prop :=
  match x with
  | Ret _ => is_Some (m !! name) /\ m' = <[name := e]> m
  | Err err => err = Errno ENOENT /\ m !! name = None /\ m' = m
  | Panic => False
  end.

Lemma wp_update_loop X σ root T m name ino ftype : trie root T σ m -> is_u64 ino -> is_u8 ftype ->
  forall rest p cur s, tstore s X σ -> T !! p = Some cur -> name = p ++ rest -> rest <> [] ->
  wp (update_loop rest cur name ino ftype) s
    (fun _ s' => is_Some (m !! name) /\ dir_after T σ root (<[name := (ino, ftype)]> m) s')
    (fun e s' => e = Errno ENOENT /\ m !! name = None /\ dir_after T σ root m s').
Proof using HL.
  intros Htr Hi Hf. pose proof Htr as [HT He Hroot Htop]. induction rest as [|b rest IH]; [done|].
  intros p cur s Hs Hp Ename _. cbn [update_loop].
  assert (Hb : name = (p ++ [b]) ++ rest) by (by rewrite Ename, <- app_assoc).
  assert (Hno : forall s1, tstore s1 X σ -> m !! name = None ->
    Errno ENOENT = Errno ENOENT /\ m !! name = None /\ dir_after T σ root m s1).
  { intros s1 Hs1 Hm. split_and!; [done|done|]. eapply dir_after_stay; [done|]. by apply trie_dir. }
  apply wp_bind, wp_try. eapply wp_find; [exact Hs|done|exact Hp|]. intros s1 Hs1 _. apply wp_ret. unfold kid.
  destruct (T !! (p ++ [b])) as [r|] eqn:Er; cbn [default].
  2: { apply wp_fail, Hno; [done|]. rewrite Hb. by eapply no_entry. }
  change (id r) with r. destruct (sh_node _ _ HT _ _ Er) as (Hr0 & c & bs & Hc & Hfam).
  pose proof (en_node _ _ _ He _ _ _ Er Hc) as Hent. unfold entry_ok in Hent.
  unfold TrieRefIsNull. rewrite (proj2 (Z.eqb_neq r 0)) by done. apply wp_bind. eapply wp_trieRead; [exact Hs1|exact Hc|].
  intros s2 a Hs2 _ Ha. cbn beta iota. destruct rest as [|b' rest].
  - rewrite app_nil_r in Hb. rewrite <- Hb in *. destruct (TrieIsLeaf _) eqn:El; [|by apply wp_fail, Hno].
    destruct Hent as [Hn Hm]. assert (Hne : name <> []) by (rewrite Hb; by destruct p).
    apply wp_bind. eapply wp_has_name; [exact Hs2|exact Hc|exact Ha|done|]. rewrite bool_decide_true by done.
    pose proof (tstore_wf _ _ _ _ _ _ _ Hs2 Hc) as Hw. pose proof (proj1 (slot_wf_iff _) Hw) as (_ & _ & _ & _ & _ & _ & Hty & _).
    eapply wp_save_slot; [exact Hs2|exact Hc|exact Ha|by apply set_entry_wf|done|done|]. intros s3 Hs3 _. split; [by eexists|].
    eexists X, _, T. split_and!; [exact Hs3| |].
    + apply trie_dir. rewrite Hn. apply (commit_trie root T σ m name r (fst c) _ (ino, ftype)); try done.
      * by apply entries_all_but.
      * apply He.
      * rewrite Hc. f_equal. destruct c. cbn in *. congruence.
      * by rewrite interm_bit.
    + apply evolves_own. intros x Hx _. rewrite lookup_insert_ne; [done|]. intros <-. apply Hx. by eapply elem_of_img.
  - rewrite land_interm. destruct (interm (fst c)) eqn:Ei; cbn [negb]; [by apply (IH (p ++ [b]))|].
    apply wp_fail, Hno; [done|]. rewrite Hb. by eapply leaf_no_entry.
Qed.

Lemma TrieUpdateEntry_spec s X σ di T m name ino ftype : tstore s X σ -> dir_trie (ino_DirTrieRoot di) T σ m ->
  is_u64 ino -> is_u8 ftype ->
  let '(s', x) := TrieUpdateEntry di name ino ftype s in
  exists m', dir_after T σ (ino_DirTrieRoot di) m' s' /\ update_result m name (ino, ftype) m' x.
Proof using HL.
  intros Hs Hdir Hi Hf. unfold TrieUpdateEntry, TrieRefIsNull. pose proof Hdir as Hd. unfold dir_trie in Hd.
  destruct (Z.eqb_spec (ino_DirTrieRoot di) 0) as [E0|Hr0].
  - destruct Hd as [-> ->]. exists ∅. split; [by eapply dir_after_stay|done].
  - destruct name as [|b name].
    + exists m. split; [by eapply dir_after_stay|]. by split_and!; [|apply Hd|].
    + pose proof (wp_update_loop X σ _ T m (b :: name) ino ftype Hd Hi Hf (b :: name) [] _ s Hs (tr_root _ _ _ _ Hd) eq_refl ltac:(done)) as Hwp.
      unfold wp in Hwp. destruct (update_loop _ _ _ _ _ _) as [s' [u|e|]]; [| |done].
      * destruct Hwp as [Hm Ha]. eexists. split; [exact Ha|]. by split.
      * destruct Hwp as (-> & Hm & Ha). exists m. split; [exact Ha|]. by split_and!.
Qed.

(** C32 Updating a name's entry replaces the inode and the type that the trie
    holds for it and nothing else, and fails with ENOENT exactly when the trie
    does not hold the name. *)
Theorem TrieUpdateEntry_correct s X σ di T m name ino ftype : tstore s X σ -> dir_trie (ino_DirTrieRoot di) T σ m ->
  is_u64 ino -> is_u8 ftype ->
  let '(s', x) := TrieUpdateEntry di name ino ftype s in
  exists m', dir_after T σ (ino_DirTrieRoot di) m' s' /\ update_result m name (ino, ftype) m' x.
Proof using HL. exact (TrieUpdateEntry_spec s X σ di T m name ino ftype). Qed.

End update.
