(* ===== verification/TrieRemove.v ===== *)
(** * Removing a name (fuse/trie_mutate.go)

    [TrieRemove] takes a name out of the map that the trie holds.  A leaf without
    children is unlinked and freed, and then its ancestors as long as they hold
    no entry and have no child; an intermediate node that was the leaf of the
    name only loses its entry. *)

From stdpp Require Import base numbers list option gmap.
From Stdlib Require Import ZArith Lia.
From S2P Require Import Prelude Codec Bits TriePage Trie TrieStore TrieShape TrieOps TrieInsert TrieFind.

Local Open Scope Z_scope.

Implicit Types (T : gmap path Z) (σ : nodes) (m : gmap path (Z * Z)).

(** ** Ancestors: the references on the way to a node, the deepest first *)
Inductive anc T : path -> list Z -> Prop :=
| anc_root r : T !! [] = Some r -> anc T [] [r]
| anc_kid p b r l : anc T p l -> T !! (p ++ [b]) = Some r -> anc T (p ++ [b]) (r :: l).

Lemma anc_length T p l : anc T p l -> length l = S (length p).
Proof. induction 1 as [|p b r l H IH Hr]; [done|]. rewrite length_app. simpl. lia. Qed.

Lemma anc_prefix T T' p l q b : anc T p l -> p `prefix_of` q -> (forall x, x <> q ++ [b] -> T' !! x = T !! x) -> anc T' p l.
Proof.
  intros H. induction H as [r Hr|p b' r l H IH Hr]; intros Hpre HT.
  - constructor. rewrite HT; [done|]. by destruct q.
  - constructor.
    + apply IH; [|done]. destruct Hpre as [k ->]. exists (b' :: k). by rewrite <- app_assoc.
    + rewrite HT; [done|]. intros E. destruct Hpre as [k ->]. apply (f_equal length) in E. rewrite !length_app in E. simpl in E. lia.
Qed.

(** ** The entries of a trie that loses a node *)
Lemma prune_trie root T σ m p b T' σ' : entries_but (p ++ [b]) T σ m -> (forall q, is_Some (m !! q) -> is_Some (T !! q)) ->
  T !! [] = Some root -> m !! [] = None -> pruned T σ p b T' σ' -> m !! (p ++ [b]) = None -> trie root T' σ' m.
Proof.
  intros He Hd Hroot Htop [-> A B _] Hm. split; [done| |by rewrite lookup_delete_ne by (by destruct p)|done]. split.
  - intros q x cx' Hq Hx'. pose proof (B q x Hq) as E. rewrite Hx' in E. destruct (σ !! x) as [cx|] eqn:Hx; [|done].
    apply lookup_delete_Some in Hq as [Hne Hq]. apply (entry_ent m q cx); [apply (inj Some); exact E|].
    by apply (He q x cx (not_eq_sym Hne)).
  - intros q Hq. rewrite lookup_delete_ne; [by apply Hd|]. intros <-. rewrite Hm in Hq. by destruct Hq.
Qed.

Lemma entries_delete T σ m p : entries T σ m -> entries_but p T σ (delete p m) /\
  (forall q, is_Some (delete p m !! q) -> is_Some (T !! q)).
Proof.
  intros [A B]. split.
  - intros q r c Hne Hq Hr. specialize (A q r c Hq Hr). unfold entry_ok in *. by rewrite lookup_delete_ne.
  - intros q [e [_ H]%lookup_delete_Some]. apply B. by eexists.
Qed.

Section remove.
Context {W : Type} {TW : TrieWorld W} {holds : W -> gset Z -> Prop} {disk : Z -> Prop} {HL : TrieLaws W holds disk}.
Context (w0 : W) (F : gmap Z (list Z)).
Implicit Types (s : tstate W) (X : gset Z).

Abbreviation tstore := (tstore (holds := holds) (disk := disk) w0 F).
Abbreviation dir_after := (dir_after (holds := holds) (disk := disk) w0 F).
Abbreviation reaches := (reaches (holds := holds) (disk := disk) w0 F).

(** ** The state after a node was unlinked and freed *)
Definition cut root T σ m p b s' : Prop :=
  exists X' σ' T', tstore s' X' σ' /\ trie root T' σ' m /\ evolves T σ T' σ' /\ T' = delete (p ++ [b]) T.

Lemma cut_reaches root T σ m p b s' : cut root T σ m p b s' -> reaches root T σ m s'.
Proof using. intros (X' & σ' & T' & ? & ? & ? & _). by exists X', σ', T'. Qed.

Lemma wp_unlink_free {A} (K : SM (tstate W) A) s X σ root T m p r c bs1 bs2 b k Q E : tstore s X σ -> shape T σ -> T !! p = Some r -> σ !! r = Some c ->
  fam T σ p (fst c) (bs1 ++ b :: bs2) -> kid T p b = k -> (forall b', T !! ((p ++ [b]) ++ [b']) = None) ->
  entries_but (p ++ [b]) T σ m -> (forall q, is_Some (m !! q) -> is_Some (T !! q)) -> T !! [] = Some root ->
  m !! [] = None -> m !! (p ++ [b]) = None ->
  (forall s', cut root T σ m p b s' -> wp K s' Q E) ->
  (forall s' e, cut root T σ m p b s' -> resource e -> E e s') ->
  wp (_ ← trieUnlinkChild r (default 0 (last (kid T p <$> bs1))) k; _ ← trieFreeNode k; K) s Q E.
Proof using HL.
  intros Hs HT Hp Hr Hf Hk Hno He Hd Hroot Htop Hm HQ HE.
  pose proof (unlink_child T σ p c bs1 bs2 b k Hf Hk) as HTk. destruct (sh_node _ _ HT _ _ HTk) as (_ & ck & _ & Hck & _).
  pose proof (unlink_pruned T σ p r c bs1 bs2 b k ck HT Hp Hr Hf Hk Hck Hno) as Hpr.
  assert (Hcut : forall s' X', tstore s' X' (delete k (relinked σ r c (default 0 (last (kid T p <$> bs1))) (ts_NextSibling (fst ck)) (-1))) ->
    cut root T σ m p b s').
  { intros s' X' Hs'. eexists X', _, _. split_and!; [exact Hs'|by eapply prune_trie|apply Hpr|done]. }
  apply wp_bind. eapply (wp_trieUnlinkChild w0 F T σ p r c bs1 bs2 b k ck); try done. intros s1 Hs1.
  assert (Hk1 : is_Some (relinked σ r c (default 0 (last (kid T p <$> bs1))) (ts_NextSibling (fst ck)) (-1) !! k)).
  { pose proof (relinked_ent σ r c (default 0 (last (kid T p <$> bs1))) (ts_NextSibling (fst ck)) (-1) k Hr) as Hent.
    rewrite Hck in Hent. destruct (relinked _ _ _ _ _ _ !! k); [by eexists|done]. }
  destruct Hk1 as [ck1 Hk1]. apply wp_bind. eapply wp_trieFreeNode; [exact Hs1|exact Hk1|..].
  - intros s' X' Hs'. by eapply HQ, Hcut.
  - intros s' X' e Hs' Hres. by eapply HE; [eapply Hcut|].
Qed.

(** ** The loop *)
Lemma ldiff_leaf_bits t i : Z.testbit (Z.ldiff t NodeStatusLeaf) i = Z.testbit t i && negb (i =? 3).
Proof using.
  unfold NodeStatusLeaf. rewrite Z.ldiff_spec. change 8 with (2 ^ 3). f_equal. f_equal.
  rewrite Z.pow2_bits_eqb by lia. apply Z.eqb_sym.
Qed.

Lemma u8_ldiff a b : is_u8 a -> is_u8 (Z.ldiff a b).
Proof using.
  unfold is_u8. intros [A1 A2]. assert (H0 : 0 <= Z.ldiff a b) by (apply Z.ldiff_nonneg; auto). split; [done|].
  destruct (Z.lt_ge_cases (Z.ldiff a b) (2 ^ 8)) as [|H]; [done|]. exfalso.
  pose proof (Z.bit_log2 (Z.ldiff a b) ltac:(lia)) as Hb. apply Z.log2_le_pow2 in H; [|lia].
  rewrite Z.ldiff_spec in Hb. apply andb_true_iff in Hb as [Hb _]. rewrite Z.bits_above_log2 in Hb; [done|done|].
  apply Z.lt_le_trans with 8; [|done].
  destruct (decide (a = 0)) as [->|]; [simpl; lia|]. apply Z.log2_lt_pow2; lia.
Qed.

(** Clearing the leaf bit of an intermediate node takes its entry away. *)
Lemma unleaf_trie root T σ m p r c : trie root T σ m -> T !! p = Some r -> σ !! r = Some c -> interm (fst c) = true ->
  trie root T (<[r := (set_entry (fst c) (Z.ldiff (ts_NodeType (fst c)) NodeStatusLeaf) (ts_Inode (fst c)) (ts_FType (fst c)), snd c)]> σ)
    (delete p m).
Proof using.
  intros [HT He Hroot Htop] Hp Hc Hi.
  assert (Hb2 : Z.testbit (Z.ldiff (ts_NodeType (fst c)) NodeStatusLeaf) 2 = true) by (by rewrite ldiff_leaf_bits, <- interm_bit, Hi).
  split; [| |done|by apply lookup_delete_None; right].
  - eapply trie_shape_ext; [done|]. intros q x cx Hq Hx. destruct (decide (x = r)) as [->|].
    + rewrite lookup_insert_eq. eexists. split; [done|]. assert (cx = c) as -> by congruence. split_and!; try done.
      intros _. by rewrite interm_bit.
    + rewrite lookup_insert_ne by done. exists cx. split; [done|]. by split_and!.
  - destruct (entries_delete _ _ _ p He) as [He1 He2]. split; [|done]. intros q x cx Hq Hx.
    destruct (decide (q = p)) as [->|Hne].
    + assert (x = r) as -> by congruence. rewrite lookup_insert_eq in Hx. injection Hx as <-. unfold entry_ok. cbn [fst ts_NodeType set_entry].
      rewrite leaf_bits, Hb2, ldiff_leaf_bits, lookup_delete_eq, andb_false_r. done.
    + rewrite lookup_insert_ne in Hx by (intros ->; apply Hne; by eapply sh_inj). by apply (He1 q x).
Qed.

(** What the loop leaves: the name is gone, and [Some l] are the ancestors to
    look at. *)
Definition removed root T σ m name (l : option (list Z)) s' : Prop :=
  exists X' σ' T', tstore s' X' σ' /\ trie root T' σ' (delete name m) /\ evolves T σ T' σ' /\
    match l with None => True | Some l => exists p, anc T' p l end.

Lemma no_kids T σ p n : fam T σ p n [] -> forall b, T !! (p ++ [b]) = None.
Proof using. intros Hf b. apply (kid_none _ _ _ _ _ Hf), not_elem_of_nil. Qed.

(** [FirstChild] and [ChildCount] agree on whether there are children. *)
Lemma fam_empty T σ p n bs : shape T σ -> fam T σ p n bs ->
  (ts_FirstChild n =? 0) = bool_decide (bs = []) /\ (ts_ChildCount n =? 0) = bool_decide (bs = []).
Proof using.
  intros HT Hf. pose proof (fam_chain _ _ _ _ _ Hf) as Hch. rewrite (fam_count _ _ _ _ _ Hf).
  destruct bs as [|b bs]; cbn in Hch; [by rewrite Hch|]. destruct Hch as (-> & H0 & _).
  rewrite !bool_decide_false by done. split; apply Z.eqb_neq; [done|simpl; lia].
Qed.

Lemma cut_removed root T σ T1 σ1 m name p b l s' : evolves T σ T1 σ1 -> anc T1 p l ->
  cut root T1 σ1 (delete name m) p b s' -> removed root T σ m name (Some l) s'.
Proof using.
  intros Hev Hanc (X' & σ' & T' & Hs' & Htr' & Hev' & ->). exists X', σ', (delete (p ++ [b]) T1).
  split_and!; [done|done|by eapply evolves_trans|]. exists p. eapply (anc_prefix T1 _ p l p b); [done|done|].
  intros x Hx. by apply lookup_delete_ne.
Qed.

Definition remove_error root T σ m name (e : trie_error) s' : Prop :=
  e = Errno ENOENT /\ m !! name = None /\ reaches root T σ m s' \/
  resource e /\ is_Some (m !! name) /\ reaches root T σ (delete name m) s'.

(** The last byte of the name, once its node was found. *)
Section found.
Context (root : Z) (X : gset Z) (T : gmap path Z) (σ : nodes) (m : gmap path (Z * Z)) (Htr : trie root T σ m).
Context (p : path) (cur : Z) (c : cell) (bs1 bs2 : list Z) (b k : Z) (ck : cell) (l : list Z).
Context (Hp : T !! p = Some cur) (Hc : σ !! cur = Some c) (Hf : fam T σ p (fst c) (bs1 ++ b :: bs2)).
Context (Hk : T !! (p ++ [b]) = Some k) (Hck : σ !! k = Some ck) (Hanc : anc T p l).
Let name : path := p ++ [b].
Let prev : Z := default 0 (last (kid T p <$> bs1)).

Lemma found_kid : kid T p b = k.
Proof using Hk. unfold kid. by rewrite Hk. Qed.

Lemma wp_free_leaf s Q E : tstore s X σ -> interm (fst ck) = false -> is_Some (m !! name) ->
  (forall s', removed root T σ m name (Some l) s' -> Q (Some l) s') ->
  (forall s' e, remove_error root T σ m name e s' -> E e s') ->
  wp (_ ← trieUnlinkChild cur prev k; _ ← trieFreeNode k; mret (Some l)) s Q E.
Proof using HL Htr Hp Hc Hf Hk Hck Hanc.
  intros Hs Hi Hm HQ HE. pose proof Htr as [HT He Hroot Htop]. destruct (entries_delete _ _ _ name He) as [He1 He2].
  assert (Hno : forall b', T !! ((p ++ [b]) ++ [b']) = None).
  { destruct (sh_node _ _ HT _ _ Hk) as (_ & ck' & bs & Hck' & Hfk). assert (ck' = ck) as -> by congruence.
    rewrite (fam_leaf _ _ _ _ _ Hfk Hi) in Hfk. by eapply no_kids. }
  eapply (wp_unlink_free _ s X σ root T (delete name m)); try done; [apply found_kid|by apply lookup_delete_None; right|apply lookup_delete_eq|..].
  - intros s' Hcut. apply wp_ret, HQ. eapply cut_removed; [apply evolves_refl|done|exact Hcut].
  - intros s' e Hcut Hres. apply HE. right. split_and!; [done|done|]. by eapply cut_reaches.
Qed.

(** An intermediate node that holds the entry. *)
Lemma wp_free_interm s a Q E : tstore s X σ -> t_cache s !! TrieRefBlock k = Some a -> interm (fst ck) = true -> is_Some (m !! name) ->
  (forall s' l', removed root T σ m name l' s' -> Q l' s') ->
  (forall s' e, remove_error root T σ m name e s' -> E e s') ->
  wp (let hasChildren := negb (TrieRefIsNull (ts_FirstChild (fst ck))) || negb (ts_ChildCount (fst ck) =? 0) in
      _ ← save_slot a k (set_entry (fst ck) (Z.ldiff (ts_NodeType (fst ck)) NodeStatusLeaf) (ts_Inode (fst ck)) (ts_FType (fst ck)));
      if hasChildren then mret None else
      _ ← trieUnlinkChild cur prev k; _ ← trieFreeNode k; mret (Some l)) s Q E.
Proof using HL Htr Hp Hc Hf Hk Hck Hanc.
  intros Hs Ha Hi Hm HQ HE. pose proof Htr as [HT He Hroot Htop]. cbn zeta.
  destruct (sh_node _ _ HT _ _ Hk) as (_ & ck' & bs & Hck' & Hfk). assert (ck' = ck) as -> by congruence.
  destruct (fam_empty T σ _ _ _ HT Hfk) as [E1 E2]. unfold TrieRefIsNull. rewrite E1, E2.
  pose proof (tstore_wf _ _ _ _ _ _ _ Hs Hck) as Hw. pose proof (proj1 (slot_wf_iff _) Hw) as (_ & _ & Hino & _ & _ & _ & Hty & _ & Hft & _).
  pose proof (unleaf_trie root T σ m name k ck Htr Hk Hck Hi) as Htr1. set (ck1 := (set_entry _ _ _ _, _)) in Htr1.
  assert (Hev1 : evolves T σ T (<[k := ck1]> σ)).
  { apply evolves_own. intros x Hx _. rewrite lookup_insert_ne; [done|]. intros <-. apply Hx. by eapply elem_of_img. }
  apply wp_bind. eapply wp_save_slot; [exact Hs|exact Hck|exact Ha|apply set_entry_wf; try done; by apply u8_ldiff|done|done|].
  intros s1 Hs1 _. case_bool_decide as Ebs; cbn [negb orb].
  - subst bs. destruct Htr1 as [HT1 He1 Hroot1 Htop1].
    assert (Hne : cur <> k).
    { intros ->. pose proof (sh_inj _ _ HT _ _ _ Hp Hk) as E'. apply (f_equal length) in E'. rewrite length_app in E'. simpl in E'. lia. }
    eapply (wp_unlink_free _ s1 X (<[k := ck1]> σ) root T (delete name m)); try done.
    + by rewrite lookup_insert_ne.
    + eapply fam_ext; [exact Hf|done| |done|done|done]. intros b' y Hy. unfold nxt. destruct (decide (y = k)) as [->|].
      * by rewrite lookup_insert_eq, Hck.
      * by rewrite lookup_insert_ne.
    + apply found_kid.
    + by eapply no_kids.
    + by apply entries_all_but.
    + apply He1.
    + apply lookup_delete_eq.
    + intros s' Hcut. apply wp_ret, HQ. by eapply cut_removed.
    + intros s' e Hcut Hres. apply HE. right. split_and!; [done|done|]. apply cut_reaches in Hcut. by eapply reaches_trans.
  - apply wp_ret, HQ. by exists X, (<[k := ck1]> σ), T.
Qed.

End found.

Lemma wp_remove_loop X σ root T m name Q E : trie root T σ m ->
  (forall s' l', is_Some (m !! name) -> removed root T σ m name l' s' -> Q l' s') ->
  (forall s' e, remove_error root T σ m name e s' -> E e s') ->
  forall rest p cur l s, tstore s X σ -> T !! p = Some cur -> anc T p l -> name = p ++ rest -> rest <> [] ->
  wp (remove_loop rest cur l) s Q E.
Proof using HL.
  intros Htr HQ HE. pose proof Htr as [HT He Hroot Htop]. induction rest as [|b rest IH]; [done|].
  intros p cur l s Hs Hp Hanc Ename _. cbn [remove_loop].
  assert (Hb : name = (p ++ [b]) ++ rest) by (by rewrite Ename, <- app_assoc).
  assert (Hno : forall s1, tstore s1 X σ -> m !! name = None -> E (Errno ENOENT) s1).
  { intros s1 Hs1 Hm. apply HE. left. split_and!; [done|done|]. exists X, σ, T. split_and!; [done|done|apply evolves_refl]. }
  destruct (sh_node _ _ HT p cur Hp) as (_ & c & bs & Hc & Hf). apply wp_bind. eapply wp_find_prev; [exact Hs|exact HT|exact Hc|exact Hf|..].
  { intros s1 Hs1 _ Hnb. cbn beta iota. apply wp_fail, Hno; [done|]. rewrite Hb. eapply no_entry; [exact Htr|]. by apply (kid_none _ _ _ _ _ Hf). }
  intros s1 bs1 bs2 Hs1 _ ->. cbn beta iota.
  assert (Hk : T !! (p ++ [b]) = Some (kid T p b)) by (apply (kid_some _ _ _ _ _ Hf); clear; set_solver).
  destruct (sh_node _ _ HT _ _ Hk) as (Hk0 & ck & bsk & Hck & Hfk). pose proof (en_node _ _ _ He _ _ _ Hk Hck) as Hent.
  unfold entry_ok in Hent. rewrite leaf_of_bits in Hent. unfold TrieRefIsNull at 1. rewrite (proj2 (Z.eqb_neq _ 0)) by done.
  destruct rest as [|b' rest].
  - rewrite app_nil_r in Hb. rewrite <- Hb in Hent. apply wp_bind. eapply wp_trieRead; [exact Hs1|exact Hck|].
    intros s2 a Hs2 _ Ha. cbn beta iota zeta. rewrite land_interm, land_leaf, negb_involutive.
    destruct (interm (fst ck)) eqn:Ei; cbn [negb andb orb] in *.
    + destruct (Z.testbit _ 3); cbn [negb]; [|by apply wp_fail, Hno]. destruct Hent as [_ Hm].
      assert (Hm' : is_Some (m !! (p ++ [b]))) by (rewrite <- Hb; by eexists).
      subst name. eapply (wp_free_interm root X T σ m Htr p cur c bs1 bs2 b _ ck l); try done. intros s' l' Hre. by apply HQ.
    + destruct Hent as [_ Hm]. assert (Hm' : is_Some (m !! (p ++ [b]))) by (rewrite <- Hb; by eexists).
      subst name. eapply (wp_free_leaf root X T σ m Htr p cur c bs1 bs2 b _ ck l); try done. intros s' Hre. by apply HQ.
  - pose proof (anc_length _ _ _ Hanc) as Hlen. destruct (sh_len _ _ HT (p ++ [b]) ltac:(by eexists)) as [_ Hpl].
    rewrite length_app in Hpl. simpl in Hpl. rewrite (proj2 (Nat.ltb_lt _ _)) by (unfold ancestryLimit; lia).
    apply (IH (p ++ [b])); [done|done|by constructor|done|done].
Qed.

(** ** Collapsing the ancestors *)
Lemma wp_collapse_one {A} (K : SM (tstate W) A) s X σ root T m p pr c b r cr a Q E : tstore s X σ -> trie root T σ m ->
  T !! p = Some pr -> σ !! pr = Some c -> T !! (p ++ [b]) = Some r -> σ !! r = Some cr ->
  (forall b', T !! ((p ++ [b]) ++ [b']) = None) -> m !! (p ++ [b]) = None -> t_cache s !! TrieRefBlock pr = Some a ->
  (forall s', cut root T σ m p b s' -> wp K s' Q E) ->
  (forall s' e, cut root T σ m p b s' -> resource e -> E e s') ->
  wp (pnode ← trieRelinkSibling (fst c) r (ts_NextSibling (fst cr));
      _ ← save_slot a pr (set_count pnode (u16 (ts_ChildCount pnode - 1)));
      _ ← trieFreeNode r; K) s Q E.
Proof using HL.
  intros Hs [HT He Hroot Htop] Hp Hc Hr Hcr Hno Hm Ha HQ HE.
  destruct (sh_node _ _ HT _ _ Hp) as (_ & c' & bs & Hc' & Hf). assert (c' = c) as -> by congruence.
  assert (Hin : b ∈ bs) by (apply (fam_dom _ _ _ _ _ Hf); by eexists). apply list_elem_of_split in Hin as (bs1 & bs2 & ->).
  assert (Hk : kid T p b = r) by (unfold kid; by rewrite Hr).
  pose proof (unlink_pruned T σ p pr c bs1 bs2 b r cr HT Hp Hc Hf Hk Hcr Hno) as Hpr.
  pose proof (unlink_prev T σ p pr c bs1 bs2 b HT Hp Hf) as Hprev. cbn zeta in Hprev. set (l := default 0 (last (kid T p <$> bs1))) in *.
  assert (Hnx : is_u64 (ts_NextSibling (fst cr))).
  { pose proof (tstore_wf _ _ _ _ _ _ _ Hs Hcr) as Hw. by apply slot_wf_iff in Hw as (_ & ? & _). }
  pose proof (relinked_slot_wf (fst c) l (ts_NextSibling (fst cr)) (-1) (tstore_wf _ _ _ _ _ _ _ Hs Hc) Hnx) as (Hw & Hn1 & Hn2).
  assert (Hcut : forall s' X', tstore s' X' (delete r (relinked σ pr c l (ts_NextSibling (fst cr)) (-1))) -> cut root T σ m p b s').
  { intros s' X' Hs'. eexists X', _, _. split_and!; [exact Hs'| |apply Hpr|done]. eapply prune_trie; try done; [by apply entries_all_but|apply He]. }
  apply wp_bind. eapply (wp_trieRelinkSibling w0 F T σ p pr c bs1 bs2 b r cr); try done. intros s1 Hs1 Hsub.
  assert (Ecount : forall n x, ts_ChildCount (if l =? 0 then set_first n x else n) = ts_ChildCount n) by (intros; by destruct (l =? 0)).
  fold l. rewrite Ecount. apply wp_bind.
  assert (Hpr1 : (if l =? 0 then σ else alter (set_nx (ts_NextSibling (fst cr))) l σ) !! pr = Some c).
  { destruct Hprev as [[-> _]|(Hl0 & Hlp & _)]; [done|]. rewrite (proj2 (Z.eqb_neq l 0)) by done. by rewrite lookup_alter_ne. }
  eapply (wp_save_slot _ _ _ _ _ pr c); [exact Hs1|exact Hpr1|by eapply lookup_weaken|exact Hw|exact Hn1|exact Hn2|].
  intros s2 Hs2 _. change (tstore s2 X (relinked σ pr c l (ts_NextSibling (fst cr)) (-1))) in Hs2.
  assert (Hr2 : is_Some (relinked σ pr c l (ts_NextSibling (fst cr)) (-1) !! r)).
  { pose proof (relinked_ent σ pr c l (ts_NextSibling (fst cr)) (-1) r Hc) as Hent. rewrite Hcr in Hent.
    destruct (relinked _ _ _ _ _ _ !! r); [by eexists|done]. }
  destruct Hr2 as [cr2 Hr2]. apply wp_bind. eapply wp_trieFreeNode; [exact Hs2|exact Hr2|..].
  - intros s' X' Hs'. by eapply HQ, Hcut.
  - intros s' X' e Hs' Hres. by eapply HE; [eapply Hcut|].
Qed.

Lemma collapse_loop_cons check pblk up : collapse_loop (W := W) (check :: pblk :: up) =
  try (trieRead check)
    (fun '(_, cnode) =>
       if (Z.land (ts_NodeType cnode) NodeTypeInterm =? 0) || negb (Z.land (ts_NodeType cnode) NodeStatusLeaf =? 0) ||
          negb (ts_ChildCount cnode =? 0) || negb (TrieRefIsNull (ts_FirstChild cnode))
       then mret tt
       else
         try (trieRead pblk)
           (fun '(pbuf, pnode) =>
              pnode ← trieRelinkSibling pnode check (ts_NextSibling cnode);
              _ ← save_slot pbuf pblk (set_count pnode (u16 (ts_ChildCount pnode - 1)));
              _ ← trieFreeNode check;
              collapse_loop (pblk :: up))
           (fun _ => mret tt))
    (fun _ => mret tt).
Proof using. reflexivity. Qed.

Lemma wp_collapse_loop root Q E : forall p l s X σ T m, anc T p l -> tstore s X σ -> trie root T σ m ->
  (forall s', reaches root T σ m s' -> Q tt s') ->
  (forall s' e, reaches root T σ m s' -> resource e -> E e s') ->
  wp (collapse_loop l) s Q E.
Proof using HL.
  intros p. induction p as [|b p IH] using rev_ind; intros l s X σ T m Hanc Hs Htr HQ HE.
  - inversion Hanc as [r Hr E1 E2|p b r l' Hl Hr E1 E2]; [|by destruct p]. apply wp_ret, HQ.
    exists X, σ, T. split_and!; [done|done|apply evolves_refl].
  - assert (Hstop : forall s', tstore s' X σ -> Q tt s').
    { intros s' Hs'. apply HQ. exists X, σ, T. split_and!; [done|done|apply evolves_refl]. }
    inversion Hanc as [r Hr E1 E2|p' b' r l' Hl Hr E1 E2]; [by destruct p|]. apply app_inj_tail in E1 as [-> ->]. subst l.
    assert (Hup : exists pr l2, l' = pr :: l2 /\ T !! p = Some pr) by (inversion Hl; subst; by repeat eexists).
    destruct Hup as (pr & l2 & -> & Hpr). pose proof Htr as [HT He Hroot Htop].
    destruct (sh_node _ _ HT _ _ Hr) as (_ & c & bs & Hc & Hf). destruct (sh_node _ _ HT _ _ Hpr) as (_ & cp & bsp & Hcp & _).
    pose proof (en_node _ _ _ He _ _ _ Hr Hc) as Hent. unfold entry_ok in Hent. rewrite leaf_of_bits in Hent.
    destruct (fam_empty T σ _ _ _ HT Hf) as [F1 F2].
    rewrite collapse_loop_cons. apply wp_try. eapply wp_trieRead; [exact Hs|exact Hc|]. intros s1 a1 Hs1 _ _. cbn beta iota.
    unfold TrieRefIsNull. rewrite land_interm, land_leaf, negb_involutive, F1, F2.
    destruct (interm (fst c)); cbn [negb orb]; [|by apply wp_ret, Hstop].
    destruct (Z.testbit _ 3); cbn [negb orb] in *; [by apply wp_ret, Hstop|].
    case_bool_decide as Ebs; cbn [negb orb]; [subst bs|by apply wp_ret, Hstop].
    apply wp_try. eapply wp_trieRead; [exact Hs1|exact Hcp|]. intros s2 a2 Hs2 _ Ha2. cbn beta iota.
    eapply (wp_collapse_one (collapse_loop (pr :: l2)) s2 X σ root T m p pr cp b r c a2);
      [exact Hs2|exact Htr|exact Hpr|exact Hcp|exact Hr|exact Hc|by eapply no_kids|exact Hent|exact Ha2|..].
    + intros s3 (X3 & σ3 & T3 & Hs3 & Htr3 & Hev3 & ->).
      eapply (IH _ s3 X3 σ3 (delete (p ++ [b]) T) m); [|done|done|..].
      * eapply (anc_prefix T _ p _ p b); [done|done|]. intros x Hx. by apply lookup_delete_ne.
      * intros s' Hre. apply HQ. by eapply reaches_trans.
      * intros s' e Hre. apply HE. by eapply reaches_trans.
    + intros s3 e Hcut. apply HE. by eapply cut_reaches.
Qed.

(** ** The root *)
Lemma empty_trie root T σ m c : trie root T σ m -> σ !! root = Some c -> fam T σ [] (fst c) [] -> m = ∅.
Proof using.
  intros [HT He Hroot Htop] Hc Hf. apply map_empty. intros q. apply eq_None_not_Some. intros Hq.
  destruct q as [|b q]; [rewrite Htop in Hq; by destruct Hq|]. apply (en_dom _ _ _ He) in Hq.
  apply (shape_prefix T σ [b] q HT) in Hq. rewrite (no_kids _ _ _ _ Hf b : T !! [b] = None) in Hq. by destruct Hq.
Qed.

Lemma wp_root_empty s X σ root T m Q E : tstore s X σ -> trie root T σ m ->
  (forall s' c, tstore s' X σ -> σ !! root = Some c -> fam T σ [] (fst c) [] -> Q true s') ->
  (forall s', tstore s' X σ -> Q false s') -> wp (root_empty root) s Q E.
Proof using HL.
  intros Hs Htr HQ1 HQ0. pose proof Htr as [HT He Hroot Htop]. destruct (sh_node _ _ HT [] root Hroot) as (_ & c & bs & Hc & Hf).
  destruct (fam_empty T σ _ _ _ HT Hf) as [F1 F2]. unfold root_empty. apply wp_try.
  eapply wp_trieRead; [exact Hs|exact Hc|]. intros s1 a Hs1 _ _. cbn beta iota. apply wp_ret.
  unfold TrieRefIsNull. rewrite F1, F2. case_bool_decide as Ebs; [subst bs|rewrite andb_false_r; by apply HQ0].
  rewrite !andb_true_r. destruct (_ && _); [by eapply HQ1|by apply HQ0].
Qed.

(** The state once the ancestors were collapsed, and perhaps the root. *)
Lemma collapse_dir s X σ di T m p l : tstore s X σ -> trie (ino_DirTrieRoot di) T σ m -> anc T p l ->
  let '(s', (di', x)) := collapseAncestry di l s in
  di' = set_root di (ino_DirTrieRoot di') /\ dir_after T σ (ino_DirTrieRoot di') m s' /\
  match x with Ret _ => True | Err e => resource e | Panic => False end.
Proof using HL.
  intros Hs Htr Hanc. unfold collapseAncestry. set (root := ino_DirTrieRoot di) in *.
  assert (Hc : wp (collapse_loop l) s (fun _ s' => reaches root T σ m s') (fun e s' => reaches root T σ m s' /\ resource e)).
  { eapply wp_collapse_loop; [exact Hanc|exact Hs|exact Htr|..]; by auto. }
  unfold wp in Hc. destruct (collapse_loop l s) as [s1 [u|e|]]; [| |done].
  2: { destruct Hc as [Hc Hres]. split; [apply set_root_id|]. split; [by apply reaches_dir|done]. }
  destruct Hc as (X1 & σ1 & T1 & Hs1 & Htr1 & Hev1). pose proof (sh_node _ _ (tr_shape _ _ _ _ Htr1) [] root (tr_root _ _ _ _ Htr1)) as [Hr0 _].
  unfold TrieRefIsNull. rewrite (proj2 (Z.eqb_neq root 0)) by done.
  assert (He : wp (root_empty root) s1
    (fun b s' => tstore s' X1 σ1 /\ (b = true -> exists c, σ1 !! root = Some c /\ fam T1 σ1 [] (fst c) [])) (fun _ _ => False)).
  { eapply wp_root_empty; [exact Hs1|exact Htr1|..].
    - intros s' c Hs' Hc Hf. split; [done|]. intros _. by exists c.
    - intros s' Hs'. by split. }
  unfold wp in He. destruct (root_empty root s1) as [s2 [[|]|e|]]; [| |done|done]; destruct He as [Hs2 Hemp].
  2: { split; [apply set_root_id|]. split; [|done]. apply reaches_dir. by exists X1, σ1, T1. }
  destruct (Hemp eq_refl) as (c & Hc & Hf). pose proof (empty_trie _ _ _ _ _ Htr1 Hc Hf) as ->.
  assert (Hdir : forall s' X', tstore s' X' (delete root σ1) -> dir_after T σ 0 ∅ s').
  { intros s' X' Hs'. exists X', (delete root σ1), ∅. split_and!; [done|done|]. eapply evolves_trans; [exact Hev1|]. split.
    - intros x Hx _. rewrite lookup_delete_ne; [done|]. intros <-. apply Hx. eapply elem_of_img, Htr1.
    - intros x (q & Hq)%elem_of_map_img. done. }
  assert (Hfree : wp (trieFreeNode root) s2 (fun _ s' => dir_after T σ 0 ∅ s') (fun e s' => dir_after T σ 0 ∅ s' /\ resource e)).
  { eapply wp_trieFreeNode; [exact Hs2|exact Hc|..]; eauto. }
  unfold wp in Hfree. destruct (trieFreeNode root s2) as [s3 [u'|e|]]; [| |done].
  - split; [done|]. by split.
  - split; [done|]. by destruct Hfree.
Qed.

Definition remove_result m (name : path) m' (x : res trie_error unit) : Prop :=
  match x with
  | Ret _ => is_Some (m !! name) /\ m' = delete name m
  | Err (Errno ENOENT) => m !! name = None /\ m' = m
  | Err e => resource e /\ is_Some (m !! name) /\ m' = delete name m
  | Panic => False
  end.

Lemma TrieRemove_spec s X σ di T m name : tstore s X σ -> dir_trie (ino_DirTrieRoot di) T σ m ->
  let '(s', (di', x)) := TrieRemove di name s in
  di' = set_root di (ino_DirTrieRoot di') /\
  exists m', dir_after T σ (ino_DirTrieRoot di') m' s' /\ remove_result m name m' x.
Proof using HL.
  intros Hs Hdir. unfold TrieRemove, TrieRefIsNull. pose proof Hdir as Htr. unfold dir_trie in Htr.
  destruct (Z.eqb_spec (ino_DirTrieRoot di) 0) as [E0|Hr0].
  { destruct Htr as [-> ->]. split; [apply set_root_id|]. exists ∅. split; [by eapply dir_after_stay|done]. }
  destruct name as [|b name].
  { split; [apply set_root_id|]. exists m. split; [by eapply dir_after_stay|]. split; [apply Htr|done]. }
  pose proof Htr as [HT He Hroot Htop].
  assert (Hwp : wp (remove_loop (b :: name) (ino_DirTrieRoot di) [ino_DirTrieRoot di]) s
    (fun l s' => is_Some (m !! (b :: name)) /\ removed (ino_DirTrieRoot di) T σ m (b :: name) l s')
    (fun e s' => remove_error (ino_DirTrieRoot di) T σ m (b :: name) e s')).
  { eapply (wp_remove_loop X σ _ T m (b :: name)); try done. by constructor. }
  unfold wp in Hwp. destruct (remove_loop _ _ _ s) as [s1 [l|e|]]; [| |done].
  - destruct Hwp as (Hm & X1 & σ1 & T1 & Hs1 & Htr1 & Hev1 & Hl). destruct l as [l|].
    + destruct Hl as [p Hanc]. pose proof (collapse_dir s1 X1 σ1 di T1 (delete (b :: name) m) p l Hs1 Htr1 Hanc) as Hcol.
      destruct (collapseAncestry di l s1) as [s2 [di' x]]. destruct Hcol as (Hd & Ha & Hx). split; [done|].
      exists (delete (b :: name) m). split; [by eapply dir_after_trans|]. destruct x as [u|e|]; [done| |done]. destruct Hx as [-> | ->]; (split; [|done]); [by left|by right].
    + split; [apply set_root_id|]. exists (delete (b :: name) m). split; [|done]. apply reaches_dir. by exists X1, σ1, T1.
  - split; [apply set_root_id|]. destruct Hwp as [(-> & Hm & Hre)|(Hres & Hm & Hre)].
    + exists m. split; [by apply reaches_dir|done].
    + exists (delete (b :: name) m). split; [by apply reaches_dir|]. destruct Hres as [-> | ->]; (split; [|done]); [by left|by right].
Qed.

(** C3 Removing a name from a directory takes exactly that name out of the map
    that the trie holds, and fails with ENOENT when it is not there.  The only
    other failure is that of the journal.  The operation never panics, whatever
    it reaches is a well-formed trie, and the nodes of other directories and all
    other blocks are as they were. *)
Theorem TrieRemove_correct s X σ di T m name : tstore s X σ -> dir_trie (ino_DirTrieRoot di) T σ m ->
  let '(s', (di', x)) := TrieRemove di name s in
  di' = set_root di (ino_DirTrieRoot di') /\
  exists m', dir_after T σ (ino_DirTrieRoot di') m' s' /\ remove_result m name m' x.
Proof using HL. exact (TrieRemove_spec s X σ di T m name). Qed.

End remove.
