(* ===== verification/TrieWalk.v ===== *)
(** * Walking a directory's trie (briefs/trie_walk.go)

    The depth-first walk that readdir, the seeding of the page pool and fsck
    share: a stack of references, the set of visited nodes, the pages kept from
    the scan of a sibling chain, and a hook for what goes wrong.  The reader and
    the hooks carry a state [S]. *)

From stdpp Require Import base numbers list option gmap.
From Stdlib Require Import ZArith Lia.
From S2P Require Import Prelude Codec Bits TriePage Trie TrieStore.

Local Open Scope Z_scope.

Inductive TrieWalkNote :=
| TrieNoteRead | TrieNotePage | TrieNoteSlot | TrieNoteCycle | TrieNoteSiblingCap | TrieNoteSiblingRead.

(** The top of the stack comes first; [stack] and [emit] are one list of pairs. *)
Record TrieWalker := mkWalker {
  w_stack : list (Z * bool);
  w_visited : gset Z;
  w_pages : gmap Z (list Z);
  w_done : bool;
}.

Definition NewTrieWalker (root : Z) : TrieWalker :=
  mkWalker (if negb (TrieRefIsNull root) then [(root, false)] else []) ∅ ∅ false.

(** A node as [Next] hands it out. *)
Record visit := mkVisit { v_ref : Z; v_emitted : bool; v_buf : list Z; v_page : TriePage; v_node : TrieSlot }.

Section walker.
Context {S : Type}.
(** [TrieReadFunc], and the [Note] hook, which says whether to abort. *)
Context (read : Z -> SM S (list Z)) (Note : option (Z -> TrieWalkNote -> option trie_error -> S -> S * bool)).

Abbreviation WM := (SM (TrieWalker * S)).

Definition set_stack (l : list (Z * bool)) (w : TrieWalker) : TrieWalker := mkWalker l (w_visited w) (w_pages w) (w_done w).
Definition set_visited (v : gset Z) (w : TrieWalker) : TrieWalker := mkWalker (w_stack w) v (w_pages w) (w_done w).
Definition set_pages (m : gmap Z (list Z)) (w : TrieWalker) : TrieWalker := mkWalker (w_stack w) (w_visited w) m (w_done w).

Definition upd (f : TrieWalker -> TrieWalker) : WM unit := fun '(w, s) => ((f w, s), Ret tt).

Definition note (ref : Z) (kind : TrieWalkNote) (err : option trie_error) : WM bool := fun '(w, s) =>
  match Note with
  | None => ((w, s), Ret false)
  | Some hook =>
      let '(s, abort) := hook ref kind err s in
      if abort : bool then ((mkWalker (w_stack w) (w_visited w) (w_pages w) true, s), Ret true)
      else ((w, s), Ret false)
  end.

Definition w_read (block : Z) : WM (list Z) := fun '(w, s) => let '(s, x) := read block s in ((w, s), x).

(** The page from the scan that scheduled the node, or a fresh read. *)
Definition take_page (block : Z) : WM (list Z) := fun '(w, s) =>
  match w_pages w !! block with
  | Some cached => ((set_pages (delete block (w_pages w)) w, s), Ret cached)
  | None => w_read block (w, s)
  end.

Definition readNode (ref : Z) : WM (option (list Z * TriePage * TrieSlot)) :=
  let skip (kind : TrieWalkNote) (e : trie_error) : WM (option (list Z * TriePage * TrieSlot)) :=
    _ ← note ref kind (Some e); mret None in
  try (take_page (TrieRefBlock ref))
    (fun buf =>
       try (lift (ReadTriePage buf))
         (fun page =>
            try (lift (ReadTrieSlot buf (TrieRefSlot ref)))
              (fun node => mret (Some (buf, page, node)))
              (skip TrieNoteSlot))
         (skip TrieNotePage))
    (skip TrieNoteRead).

(** The loop of [collectChildren]; [fuel] counts the hops left of
    [TrieSiblingMax]. *)
Fixpoint collect_children (fuel : nat) (parentRef child : Z) : WM (list Z) :=
  if TrieRefIsNull child then mret [] else
  match fuel with
  | O => _ ← note parentRef TrieNoteSiblingCap (Some (ErrSiblings parentRef)); mret []
  | Datatypes.S fuel =>
      let blk := TrieRefBlock child in
      try (cbuf ← w_read blk;
           _ ← upd (fun w => set_pages (<[blk := cbuf]> (w_pages w)) w);
           _ ← lift (ReadTriePage cbuf);
           lift (ReadTrieSlot cbuf (TrieRefSlot child)))
        (fun cn => rest ← collect_children fuel parentRef (ts_NextSibling cn); mret (child :: rest))
        (fun e => _ ← note parentRef TrieNoteSiblingRead (Some e); mret [child])
  end.

Definition collectChildren (parentRef : Z) (node : TrieSlot) : WM (list Z) :=
  collect_children (Z.to_nat TrieSiblingMax) parentRef (ts_FirstChild node).

Definition pushChildren (parentRef : Z) (node : TrieSlot) : WM unit :=
  children ← collectChildren parentRef node;
  upd (fun w => set_stack (((fun c => (c, false)) <$> children) ++ w_stack w) w).

(** The subtree of a node that was reached. *)
Definition schedule (ref : Z) (emitted : bool) (node : TrieSlot) : WM unit :=
  if emitted then pushChildren ref node
  else if TrieIsLeaf (ts_NodeType node) then
    if negb (TrieRefIsNull (ts_FirstChild node))
    then upd (fun w => set_stack ((ref, true) :: w_stack w) w) else mret tt
  else pushChildren ref node.

(** The loop of [Next]: every round pops a reference, and only the last one
    pushes, so [n] is the height of the stack. *)
Fixpoint next_loop (n : nat) : WM (option visit) := fun '(w, s) =>
  match n, w_done w, w_stack w with
  | Datatypes.S n, false, (ref, emitted) :: stack =>
      (_ ← upd (set_stack stack);
       if bool_decide (ref ∈ w_visited w) && negb emitted then
         stop ← note ref TrieNoteCycle None;
         if (stop : bool) then mret None else next_loop n
       else
         _ ← (if negb emitted then upd (set_visited ({[ref]} ∪ w_visited w)) else mret tt);
         x ← readNode ref;
         match x with
         | None => next_loop n
         | Some (buf, page, node) =>
             _ ← schedule ref emitted node;
             mret (Some (mkVisit ref emitted buf page node))
         end) (w, s)
  | _, _, _ => ((w, s), Ret None)
  end.

Definition Next : WM (option visit) := fun '(w, s) => next_loop (length (w_stack w)) (w, s).

End walker.

(** ** The eager walk *)

(** What [VisitNode] says: go on, skip the node's entry, or stop. *)
Inductive verdict (E : Type) := Continue | SkipTrieNode | Abort (e : E).
Arguments Continue {E}.
Arguments SkipTrieNode {E}.
Arguments Abort {E}.

Record TrieVisitor (S E : Type) := mkVisitor {
  VisitNode : option (visit -> S -> S * verdict E);
  VisitLeaf : option (visit -> S -> S * option E);
  VisitNote : option (Z -> TrieWalkNote -> option trie_error -> S -> S * option E);
}.
Arguments mkVisitor {S E}.
Arguments VisitNode {S E}.
Arguments VisitLeaf {S E}.
Arguments VisitNote {S E}.

Section walk.
Context {S E : Type} (read : Z -> SM S (list Z)) (v : TrieVisitor S E).

(** The walk's own hook keeps the error of the abort beside the state. *)
Definition walk_read (block : Z) : SM (S * option E) (list Z) := fun '(s, ab) =>
  let '(s, x) := read block s in ((s, ab), x).

Definition walk_note (ref : Z) (kind : TrieWalkNote) (err : option trie_error) : S * option E -> (S * option E) * bool :=
  fun '(s, ab) =>
  match VisitNote v with
  | None => ((s, ab), false)
  | Some hook => let '(s, x) := hook ref kind err s in match x with None => ((s, ab), false) | Some e => ((s, Some e), true) end
  end.

(** One node: whether the walk stops there, and with what. *)
Definition visit_one (x : visit) (s : S) : S * option E :=
  let '(s, d) := match VisitNode v with Some f => f x s | None => (s, Continue) end in
  match d with
  | SkipTrieNode => (s, None)
  | Abort e => (s, Some e)
  | Continue =>
      if negb (v_emitted x) && TrieIsLeaf (ts_NodeType (v_node x)) then
        match VisitLeaf v with
        | Some f => f x s
        | None => (s, None)
        end
      else (s, None)
  end.

(** The loop of [WalkTrie].  Running out of fuel is [Panic]. *)
Fixpoint walk_loop (fuel : nat) (w : TrieWalker) (s : S * option E) : S * res trie_error (option E) :=
  match fuel with
  | O => (fst s, Panic)
  | Datatypes.S fuel =>
      match Next walk_read (Some walk_note) (w, s) with
      | ((_, s), Panic) => (fst s, Panic)
      | ((_, s), Err e) => (fst s, Err e)
      | ((_, s), Ret None) => (fst s, Ret (snd s))
      | ((w, (s, ab)), Ret (Some x)) =>
          match visit_one x s with
          | (s, Some e) => (s, Ret (Some e))
          | (s, None) => walk_loop fuel w (s, ab)
          end
      end
  end.

Definition WalkTrie (fuel : nat) (root : Z) (s : S) : S * res trie_error (option E) :=
  walk_loop fuel (NewTrieWalker root) (s, None).

End walk.

(** ** The iterator of readdir *)
Section iterator.
Context {S : Type} (read : Z -> SM S (list Z)).

(** The loop of [TrieIterator.Next]; a zero inode ends the directory. *)
Fixpoint iter_next (fuel : nat) : SM (TrieWalker * S) (Z * Z * list Z) :=
  match fuel with
  | O => lift Panic
  | Datatypes.S fuel =>
      x ← Next read None;
      match x with
      | None => mret (0, 0, [])
      | Some x =>
          if v_emitted x || negb (TrieIsLeaf (ts_NodeType (v_node x))) then iter_next fuel else
          try (lift (ReadTrieName (v_buf x) (ts_NameLen (v_node x)) (ts_NameOffset (v_node x))))
            (fun name => mret (ts_Inode (v_node x), ts_FType (v_node x), name))
            (fun _ => iter_next fuel)
      end
  end.

(** The loop of Readdir. *)
Fixpoint readdir_loop (fuel : nat) : SM (TrieWalker * S) (list (Z * Z * list Z)) :=
  match fuel with
  | O => lift Panic
  | Datatypes.S fuel' =>
      try (iter_next fuel)
        (fun '(ino, ftype, name) =>
           if ino =? 0 then mret [] else
           rest ← readdir_loop fuel';
           mret ((ino, ftype, name) :: rest))
        (fun _ => mret [])
  end.

End iterator.

(** ** The walk ends on any device *)
Lemma ReadTriePage_total buf : bytes buf -> ReadTriePage buf <> Panic.
Proof.
  intros Hb. unfold ReadTriePage. destruct (blen buf <? _) eqn:El; [done|]. destruct (negb _); [done|].
  destruct (UnmarshalBinary_total (A := TriePage) (take (Z.to_nat TriePageHeaderSize) buf)) as (p & -> & _); [by apply bytes_take| |done].
  apply Z.ltb_ge in El. rewrite length_take. unfold blen, TriePageHeaderSize in *. change (Size TriePage) with 20%nat. lia.
Qed.

Lemma ReadTrieSlot_total buf i : bytes buf -> 0 <= i -> ReadTrieSlot buf i <> Panic.
Proof.
  intros Hb Hi. unfold ReadTrieSlot. destruct (blen buf <? _) eqn:El; [done|]. apply Z.ltb_ge in El.
  unfold slice. destruct (UnmarshalBinary_total (A := TrieSlot) (take (Z.to_nat (SlotOffset i + TrieSlotSize) - Z.to_nat (SlotOffset i)) (drop (Z.to_nat (SlotOffset i)) buf)))
    as (p & -> & _); [by apply bytes_take, bytes_drop| |done].
  rewrite length_take, length_drop. change (Size TrieSlot) with 36%nat. unfold SlotOffset, TriePageHeaderSize, TrieSlotSize, blen in *. lia.
Qed.

Section total.
Context {S : Type} (read : Z -> SM S (list Z)) (Note : option (Z -> TrieWalkNote -> option trie_error -> S -> S * bool)).
Context (blocks : gset Z).
Context (Hread : forall b s, match read b s with
  | (_, Ret buf) => b ∈ blocks /\ bytes buf | (_, Err _) => True | (_, Panic) => False end).

Implicit Types (w : TrieWalker) (s : S).

Definition pages_ok w : Prop := forall b buf, w_pages w !! b = Some buf -> b ∈ blocks /\ bytes buf.

(** The same walk, up to the pages kept and the flag. *)
Definition calm w w' : Prop := w_stack w' = w_stack w /\ w_visited w' = w_visited w /\ pages_ok w'.

Lemma calm_refl w : pages_ok w -> calm w w.
Proof using. intros. unfold calm. by split_and!. Qed.
Lemma calm_trans w1 w2 w3 : calm w1 w2 -> calm w2 w3 -> calm w1 w3.
Proof using. intros (H1 & H2 & _) (H3 & H4 & H5). unfold calm. split_and!; [congruence..|done]. Qed.

Abbreviation quiet := (fun (_ : trie_error) (_ : TrieWalker * S) => False).

Lemma wp_note ref kind err w s Q E : pages_ok w -> (forall w' s' b, calm w w' -> Q b (w', s')) -> wp (note Note ref kind err) (w, s) Q E.
Proof using.
  intros Hw HQ. unfold wp, note. destruct Note as [hook|]; [|apply HQ; by apply calm_refl].
  destruct (hook ref kind err s) as [s' []]; apply HQ; unfold calm; by split_and!.
Qed.

Lemma wp_w_read b w s Q E : pages_ok w -> (forall w' s' buf, calm w w' -> b ∈ blocks -> bytes buf -> Q buf (w', s')) ->
  (forall w' s' e, calm w w' -> E e (w', s')) -> wp (w_read read b) (w, s) Q E.
Proof using Hread.
  intros Hw HQ HE. unfold wp, w_read. pose proof (Hread b s) as H. destruct (read b s) as [s' [buf|e|]]; [|apply HE; by apply calm_refl|done].
  destruct H. apply HQ; [by apply calm_refl|done|done].
Qed.

Lemma wp_readNode ref w s Q : pages_ok w ->
  (forall w' s' x, calm w w' -> (is_Some x -> TrieRefBlock ref ∈ blocks) -> Q x (w', s')) ->
  wp (readNode read Note ref) (w, s) Q quiet.
Proof using Hread.
  intros Hw HQ. unfold readNode.
  assert (Hskip : forall kind e w' s', calm w w' -> wp (_ ← note Note ref kind (Some e); mret None) (w', s') Q quiet).
  { intros kind e w' s' Hc. apply wp_bind, wp_note; [apply Hc|]. intros w2 s2 b Hc2. apply wp_ret, HQ; [by eapply calm_trans|]. by intros []. }
  assert (Hgo : forall buf w' s', calm w w' -> TrieRefBlock ref ∈ blocks -> bytes buf ->
    wp (try (lift (ReadTriePage buf))
         (fun page => try (lift (ReadTrieSlot buf (TrieRefSlot ref))) (fun node => mret (Some (buf, page, node)))
           (fun e => _ ← note Note ref TrieNoteSlot (Some e); mret None))
         (fun e => _ ← note Note ref TrieNotePage (Some e); mret None)) (w', s') Q quiet).
  { intros buf w' s' Hc Hin Hb. apply wp_try. pose proof (ReadTriePage_total buf Hb) as Hp.
    unfold wp at 1, lift at 1. destruct (ReadTriePage buf) as [page|e|]; [|by apply Hskip|done].
    apply wp_try. pose proof (ReadTrieSlot_total buf (TrieRefSlot ref) Hb (proj1 (ref_slot_range ref))) as Hsl.
    unfold wp at 1, lift at 1. destruct (ReadTrieSlot buf _) as [node|e|]; [|by apply Hskip|done]. by apply wp_ret, HQ. }
  apply wp_try. unfold wp at 1, take_page. destruct (w_pages w !! TrieRefBlock ref) as [cached|] eqn:Ec.
  - destruct (Hw _ _ Ec) as [Hin Hb]. apply Hgo; [|done|done]. unfold calm. split_and!; [done|done|].
    intros b buf. cbn. intros [_ Hbuf]%lookup_delete_Some. by apply Hw.
  - apply (wp_w_read (TrieRefBlock ref) w s); [done|intros; by apply Hgo|intros; by apply Hskip].
Qed.

Lemma wp_collect fuel : forall parent child w s Q, pages_ok w -> (forall w' s' l, calm w w' -> Q l (w', s')) ->
  wp (collect_children read Note fuel parent child) (w, s) Q quiet.
Proof using Hread.
  induction fuel as [|fuel IH]; intros parent child w s Q Hw HQ; cbn [collect_children]; (case_match; [by apply wp_ret, HQ, calm_refl|]).
  - apply wp_bind, wp_note; [done|]. intros. by apply wp_ret, HQ.
  - apply wp_try, wp_bind. assert (Hstop : forall e w' s', calm w w' ->
      wp (_ ← note Note parent TrieNoteSiblingRead (Some e); mret [child]) (w', s') Q quiet).
    { intros e w' s' Hc. apply wp_bind, wp_note; [apply Hc|]. intros w2 s2 b Hc2. apply wp_ret, HQ. by eapply calm_trans. }
    apply wp_w_read; [done| |auto]. intros w' s' buf Hc Hin Hb. apply wp_bind. unfold wp at 1, upd.
    set (w2 := set_pages _ w'). assert (Hc2 : calm w w2).
    { destruct Hc as (H1 & H2 & H3). unfold calm. split_and!; [done|done|]. intros b buf'. cbn. intros [[<- <-]|[_ ?]]%lookup_insert_Some; [done|by apply H3]. }
    apply wp_bind. pose proof (ReadTriePage_total buf Hb). unfold wp at 1, lift at 1. destruct (ReadTriePage buf); [|by apply Hstop|done].
    pose proof (ReadTrieSlot_total buf (TrieRefSlot child) Hb (proj1 (ref_slot_range child))).
    unfold wp at 1, lift at 1. destruct (ReadTrieSlot buf _); [|by apply Hstop|done].
    apply wp_bind, IH; [apply Hc2|]. intros w3 s3 l Hc3. apply wp_ret, HQ. by eapply calm_trans.
Qed.

(** The work left: nodes not visited yet count twice, leaves to come back to
    once. *)
Definition refs : gset Z := list_to_set (elements blocks ≫= fun b => (fun i => b * 64 + i) <$> seqZ 0 64).

Definition work w : nat := 2 * size (refs ∖ w_visited w) + length (filter (fun x => x.2 = true) (w_stack w)).

Lemma elem_of_refs r : TrieRefBlock r ∈ blocks -> r ∈ refs.
Proof using.
  intros Hr. unfold refs. apply elem_of_list_to_set, list_elem_of_bind. exists (TrieRefBlock r).
  split; [|by apply elem_of_elements]. apply list_elem_of_fmap.
  exists (TrieRefSlot r). split; [apply ref_split|]. apply elem_of_seqZ. pose proof (ref_slot_range r). lia.
Qed.

Lemma refs_size : (size refs <= 64 * size blocks)%nat.
Proof using.
  unfold refs. etrans; [apply size_list_le|]. change (size blocks) with (length (elements blocks)).
  induction (elements blocks) as [|b bs IH]; [done|]. cbn [mbind list_bind]. rewrite length_app, length_fmap, length_seqZ. cbn [length]. lia.
Qed.

Lemma wp_pushChildren ref node w s Q : pages_ok w ->
  (forall w' s' l, pages_ok w' -> w_visited w' = w_visited w -> w_stack w' = ((fun c => (c, false)) <$> l) ++ w_stack w -> Q tt (w', s')) ->
  wp (pushChildren read Note ref node) (w, s) Q quiet.
Proof using Hread.
  intros Hw HQ. unfold pushChildren, collectChildren. apply wp_bind, wp_collect; [done|].
  intros w' s' l (H1 & H2 & H3). unfold wp, upd. apply (HQ _ _ l); [done|done|]. cbn. by rewrite H1.
Qed.

Lemma filter_pushed (l : list Z) (st : list (Z * bool)) :
  filter (fun x => x.2 = true) (((fun c => (c, false)) <$> l) ++ st) = filter (fun x => x.2 = true) st.
Proof using. induction l as [|c l IH]; [done|]. rewrite fmap_cons, <- app_comm_cons. rewrite filter_cons_False by done. exact IH. Qed.

Lemma wp_schedule ref (emitted : bool) node w s Q : pages_ok w ->
  (forall w' s', pages_ok w' -> (work w' <= work w + if emitted then 0 else 1)%nat -> Q tt (w', s')) ->
  wp (schedule read Note ref emitted node) (w, s) Q quiet.
Proof using Hread.
  intros Hw HQ. assert (Hpush : wp (pushChildren read Note ref node) (w, s) Q quiet).
  { apply wp_pushChildren; [done|]. intros w' s' l H1 H2 H3. apply HQ; [done|]. unfold work. rewrite H2, H3, filter_pushed. lia. }
  unfold schedule. destruct emitted; [done|]. case_match; [|done]. case_match; [|apply HQ; [done|lia]].
  apply HQ; [done|]. unfold work. cbn [w_stack w_visited set_stack]. rewrite filter_cons_True by done. cbn. lia.
Qed.

Lemma visited_work w ref (emitted : bool) : (emitted = false -> ref ∉ w_visited w) ->
  let w' := if negb emitted then set_visited ({[ref]} ∪ w_visited w) w else w in
  (work w' <= work w)%nat /\ (ref ∈ refs -> (work w' + (if emitted then 0 else 2) <= work w)%nat).
Proof using.
  clear Hread Note read. intros Hv. destruct emitted; cbn; [lia|]. specialize (Hv eq_refl). unfold work. cbn [w_stack w_visited set_visited].
  assert (E : refs ∖ ({[ref]} ∪ w_visited w) = (refs ∖ w_visited w) ∖ {[ref]}) by set_solver. rewrite E. split.
  - pose proof (subseteq_size ((refs ∖ w_visited w) ∖ {[ref]}) (refs ∖ w_visited w) ltac:(set_solver)). lia.
  - intros Hr. assert (Hin : {[ref]} ⊆ refs ∖ w_visited w) by set_solver. rewrite size_difference by done. rewrite size_singleton.
    pose proof (subseteq_size {[ref]} (refs ∖ w_visited w) Hin) as Hs. rewrite size_singleton in Hs. lia.
Qed.

(** Every node that [Next] hands out leaves less to do. *)
Lemma wp_next_loop n : forall w s Q, pages_ok w -> length (w_stack w) = n ->
  (forall w' s', pages_ok w' -> Q None (w', s')) ->
  (forall w' s' x, pages_ok w' -> (work w' < work w)%nat -> Q (Some x) (w', s')) ->
  wp (next_loop read Note n) (w, s) Q quiet.
Proof using Hread.
  induction n as [|n IH]; intros w s Q Hw Hn HQ0 HQ1; [by apply HQ0|].
  cbn [next_loop]. unfold wp. destruct (w_done w); [by apply HQ0|].
  destruct (w_stack w) as [|[ref emitted] st] eqn:Est; [done|]. cbn in Hn. injection Hn as Hn.
  match goal with |- match ?m ?s with _ => _ end => change (wp m s Q quiet) end.
  apply wp_bind. unfold wp at 1, upd. set (w1 := set_stack st w).
  assert (Hwork : (work w1 + (if emitted then 1 else 0) = work w)%nat).
  { unfold work. rewrite Est. cbn [w1 set_stack w_stack w_visited]. destruct emitted; [rewrite filter_cons_True by done|rewrite filter_cons_False by done]; cbn; lia. }
  assert (Hagain : forall w' s', w_stack w' = st -> pages_ok w' -> (work w' <= work w)%nat -> wp (next_loop read Note n) (w', s') Q quiet).
  { intros w' s' H1 H2 Hl. apply IH; [done|by rewrite H1|done|]. intros w2 s2 x Hw2 Hlt. apply HQ1; [done|lia]. }
  assert (Hcalm : forall w2 w', calm w2 w' -> work w' = work w2) by (intros w2 w' (H1 & H2 & _); unfold work; by rewrite H1, H2).
  destruct (bool_decide (ref ∈ w_visited w) && negb emitted) eqn:Ev.
  - apply wp_bind, wp_note; [done|]. intros w' s' [] Hc; [apply wp_ret, HQ0, Hc|]. pose proof (Hcalm _ _ Hc). destruct Hc as (? & _ & ?).
    apply Hagain; [done|done|lia].
  - apply wp_bind. set (w2 := if negb emitted then set_visited ({[ref]} ∪ w_visited w) w1 else w1).
    assert (Hrun : wp (if negb emitted then upd (set_visited ({[ref]} ∪ w_visited w)) else mret tt) (w1, s)
      (fun _ st => st = (w2, s)) quiet) by (unfold w2; by destruct emitted).
    eapply wp_mono; [exact Hrun| |done]. intros _ ? ->. apply wp_bind.
    assert (Hw2 : pages_ok w2) by (unfold w2; by destruct emitted).
    assert (Hst2 : w_stack w2 = st) by (unfold w2; by destruct emitted).
    apply wp_readNode; [done|]. intros w3 s3 x Hc3 Hx. pose proof (Hcalm _ _ Hc3) as Hw3.
    pose proof (visited_work w1 ref emitted ltac:(by destruct emitted, (bool_decide_reflect (ref ∈ w_visited w)))) as [Hle Hlt].
    change (w_visited w1) with (w_visited w) in Hle, Hlt. fold w2 in Hle, Hlt.
    destruct Hc3 as (H1 & H2 & H3). destruct x as [[[buf page] node]|]; [|apply Hagain; [by rewrite H1|done|lia]].
    apply wp_bind, wp_schedule; [done|]. intros w4 s4 Hw4 Hwork4. apply wp_ret, HQ1; [done|].
    specialize (Hlt (elem_of_refs ref (Hx ltac:(by eexists)))). destruct emitted; lia.
Qed.

Lemma wp_Next w s Q : pages_ok w ->
  (forall w' s', pages_ok w' -> Q None (w', s')) ->
  (forall w' s' x, pages_ok w' -> (work w' < work w)%nat -> Q (Some x) (w', s')) ->
  wp (Next read Note) (w, s) Q quiet.
Proof using Hread. intros Hw H1 H2. by apply wp_next_loop. Qed.

Lemma new_walker_work root : pages_ok (NewTrieWalker root) /\ (work (NewTrieWalker root) <= 128 * size blocks)%nat.
Proof using.
  clear Hread. split; [intros b buf; cbn; by rewrite lookup_empty|]. pose proof refs_size. unfold work.
  assert (E : filter (fun x => x.2 = true) (w_stack (NewTrieWalker root)) = []) by (unfold NewTrieWalker; by destruct (negb _)).
  rewrite E. pose proof (subseteq_size (refs ∖ w_visited (NewTrieWalker root)) refs ltac:(set_solver)). cbn [length]. lia.
Qed.

End total.

Section ends.
Context {S E : Type} (read : Z -> SM S (list Z)) (blocks : gset Z).
Context (Hread : forall b s, match read b s with
  | (_, Ret buf) => b ∈ blocks /\ bytes buf | (_, Err _) => True | (_, Panic) => False end).

Lemma walk_loop_total (v : TrieVisitor S E) n : forall w s, pages_ok blocks w -> (work blocks w < n)%nat ->
  exists s' x, walk_loop read v n w s = (s', Ret x).
Proof using Hread.
  induction n as [|n IH]; intros w s Hw Hn; [lia|]. cbn [walk_loop].
  assert (Hwp : wp (Next (walk_read read) (Some (walk_note v))) (w, s)
    (fun x ws => match x with None => True | Some _ => pages_ok blocks (fst ws) /\ (work blocks (fst ws) < work blocks w)%nat end) (fun _ _ => False)).
  { apply (wp_Next _ _ blocks); [|done|done|done]. intros b [s0 ab]. unfold walk_read. pose proof (Hread b s0) as H. by destruct (read b s0) as [? []]. }
  unfold wp in Hwp. destruct (Next _ _ (w, s)) as [[w' [s' ab]] [[x|]|e|]]; [|eauto|done..]. cbn [fst] in Hwp. destruct Hwp as [Hp Hl].
  destruct (visit_one v x s') as [s2 [e|]]; [eauto|]. apply IH; [done|lia].
Qed.

(** C26 The walk of a trie ends on any device, whatever links the pages hold, with
    any visitor and however its hooks answer: [blocks] are the blocks that can be
    read, and no more than 128 nodes a page are handed out. *)
Theorem WalkTrie_total (v : TrieVisitor S E) root s : exists s' x, WalkTrie read v (128 * size blocks + 1) root s = (s', Ret x).
Proof using Hread.
  destruct (new_walker_work blocks root) as [H1 H2]. apply walk_loop_total; [done|lia].
Qed.

End ends.

(** A page whose only node is its own child and its own sibling. *)
Definition loop_page : list Z :=
  let slot := mkTrieSlot 321 321 0 0 0 0 NodeTypeInterm 0 0 0 0 in
  match WriteTriePage (zeros 4096) (mkTriePage MagicTriePage 1 1 4096 0) with
  | Ret buf => match WriteTrieSlot buf 1 slot with Ret buf => buf | _ => [] end
  | _ => []
  end.

Definition loop_read (b : Z) : SM nat (list Z) := fun s => (s, if b =? 5 then Ret loop_page else Err (ErrTrieRead b)).

Lemma loop_read_ok b s : match loop_read b s with
  | (_, Ret buf) => b ∈ ({[5]} : gset Z) /\ bytes buf | (_, Err _) => True | (_, Panic) => False end.
Proof.
  unfold loop_read. destruct (Z.eqb_spec b 5) as [->|]; [|exact I].
  split; [by apply elem_of_singleton|]. apply bytesb_bytes. vm_compute. reflexivity.
Qed.

(** It counts the nodes. *)
Definition loop_visitor : TrieVisitor nat unit := mkVisitor (Some (fun _ n => (S n, Continue))) None None.

Lemma WalkTrie_total_witness :
  (exists s' x, WalkTrie loop_read loop_visitor (128 * size ({[5]} : gset Z) + 1) 321 0%nat = (s', Ret x)) /\
  fst (WalkTrie loop_read loop_visitor 129 321 0%nat) = 1%nat.
Proof. split; [exact (WalkTrie_total loop_read {[5]} loop_read_ok loop_visitor 321 0%nat)|vm_compute; reflexivity]. Defined.
