(* ===== verification/TrieDir.v ===== *)
(** * What the walk of a well-formed trie shows

    The walk reaches every node of a directory's trie once, and a second time
    those that hold an entry and have children.  So readdir lists exactly the
    directory's entries, and the test for an empty directory is right on a trie
    whose pages can be read; on one whose root page cannot, it says empty. *)

From stdpp Require Import base numbers list option gmap.
From Stdlib Require Import ZArith Lia.
From S2P Require Import Prelude Codec Bits Inode TriePage Trie TrieStore TrieShape TrieInsert TrieFind TrieWalk.

Local Open Scope Z_scope.

(** ** The order of the visits *)
Section order.
Context (T : gmap path Z) (σ : nodes).
Implicit Types (p q : path) (st L : list (path * bool)).

Definition kids (p : path) (bs : list Z) : list (path * bool) := (fun b => (p ++ [b], false)) <$> bs.

(** With the nodes [st] on the stack, the walk makes the visits [L]; the flag
    marks a second visit. *)
Inductive walks : list (path * bool) -> list (path * bool) -> Prop :=
| walks_nil : walks [] []
| walks_leaf p r c st L : T !! p = Some r -> σ !! r = Some c -> TrieIsLeaf (ts_NodeType (fst c)) = true ->
    ts_FirstChild (fst c) = 0 -> walks st L -> walks ((p, false) :: st) ((p, false) :: L)
| walks_branch p r c st L : T !! p = Some r -> σ !! r = Some c -> TrieIsLeaf (ts_NodeType (fst c)) = true ->
    ts_FirstChild (fst c) <> 0 -> walks ((p, true) :: st) L -> walks ((p, false) :: st) ((p, false) :: L)
| walks_inner p r c bs st L : T !! p = Some r -> σ !! r = Some c -> TrieIsLeaf (ts_NodeType (fst c)) = false ->
    fam T σ p (fst c) bs -> walks (kids p bs ++ st) L -> walks ((p, false) :: st) ((p, false) :: L)
| walks_again p r c bs st L : T !! p = Some r -> σ !! r = Some c ->
    fam T σ p (fst c) bs -> walks (kids p bs ++ st) L -> walks ((p, true) :: st) ((p, true) :: L).

Lemma walks_inv p (e : bool) st L : walks ((p, e) :: st) L -> exists r c L', L = (p, e) :: L' /\ T !! p = Some r /\ σ !! r = Some c /\
  (if negb e && TrieIsLeaf (ts_NodeType (fst c)) then
     if ts_FirstChild (fst c) =? 0 then walks st L' else walks ((p, true) :: st) L'
   else exists bs, fam T σ p (fst c) bs /\ walks (kids p bs ++ st) L').
Proof using.
  inversion 1; subst; eexists _, _, _; (split; [done|]); (split; [done|]); (split; [done|]); cbn [negb andb];
    repeat match goal with H : TrieIsLeaf _ = _ |- _ => rewrite H end; [by rewrite (proj2 (Z.eqb_eq _ 0))|by rewrite (proj2 (Z.eqb_neq _ 0))|eauto|eauto].
Qed.

Lemma walks_kids p bs st L : (forall b st L, b ∈ bs -> walks st L -> exists L', walks ((p ++ [b], false) :: st) L') ->
  walks st L -> exists L', walks (kids p bs ++ st) L'.
Proof using.
  revert st L. induction bs as [|b bs IH]; intros st L Hk HL; [by exists L|].
  destruct (IH st L) as [L1 H1]; [intros; apply (Hk b0 st0 L0); [by right|done]|done|].
  apply (Hk b _ L1); [by left|done].
Qed.

(** Names have at most 255 bytes, so there is an order. *)
Lemma walks_exist n : shape T σ -> forall p r st L, T !! p = Some r -> (255 < length p + n)%nat -> walks st L ->
  exists L', walks ((p, false) :: st) L'.
Proof using.
  intros HT. induction n as [|n IH]; intros p r st L Hp Hn HL.
  { destruct (sh_len _ _ HT p) as [_ Hl]; [by eexists|]. lia. }
  destruct (sh_node _ _ HT p r Hp) as (_ & c & bs & Hc & Hf).
  assert (Hkids : exists L', walks (kids p bs ++ st) L').
  { apply (walks_kids p bs st L); [|done]. intros b st' L1 Hb H1. destruct (proj2 (fam_dom _ _ _ _ _ Hf b) Hb) as [k Hk].
    apply (IH (p ++ [b]) k st' L1); [done| |done]. rewrite length_app. cbn. lia. }
  destruct Hkids as [L' HL']. destruct (TrieIsLeaf (ts_NodeType (fst c))) eqn:El.
  - destruct (decide (ts_FirstChild (fst c) = 0)).
    + exists ((p, false) :: L). by eapply walks_leaf.
    + exists ((p, false) :: (p, true) :: L'). eapply walks_branch; [done..|]. by eapply walks_again.
  - exists ((p, false) :: L'). by eapply walks_inner.
Qed.

(** ** Every node is reached once *)
Definition firsts L : list path := omap (fun x : path * bool => if x.2 then None else Some x.1) L.

Definition covers (x : path * bool) q : Prop := is_Some (T !! q) /\ x.1 `prefix_of` q /\ (x.2 = true -> q <> x.1).
Definition cover st q : Prop := exists x, x ∈ st /\ covers x q.

Fixpoint spread st : Prop :=
  match st with [] => True | x :: st => (forall q, covers x q -> ~ cover st q) /\ spread st end.

Lemma cover_cons x st q : cover (x :: st) q <-> covers x q \/ cover st q.
Proof using. unfold cover. setoid_rewrite elem_of_cons. naive_solver. Qed.
Lemma cover_app st st' q : cover (st ++ st') q <-> cover st q \/ cover st' q.
Proof using. unfold cover. setoid_rewrite elem_of_app. naive_solver. Qed.

(** The children of a node cover what is strictly below it. *)
Lemma cover_kids p n bs q : shape T σ -> fam T σ p n bs -> cover (kids p bs) q <-> covers (p, true) q.
Proof using.
  intros HT Hf. unfold cover, covers, kids. split.
  - intros ([p' e] & Hin & Hq & Hpre & _). apply list_elem_of_fmap in Hin as (b & [= -> ->] & Hb). cbn in *. split_and!; [done| |].
    + etrans; [|done]. by apply prefix_app_r.
    + intros _ ->. destruct Hpre as [k E]. apply (f_equal length) in E. rewrite !length_app in E. cbn in E. lia.
  - cbn. intros (Hq & [k ->] & Hne). destruct k as [|b k]; [rewrite app_nil_r in Hne; by destruct Hne|].
    exists (p ++ [b], false). assert (Hb : p ++ b :: k = (p ++ [b]) ++ k) by (by rewrite <- app_assoc). split; [|cbn; split_and!; [done| |done]].
    + apply list_elem_of_fmap. exists b. split; [done|]. apply (fam_dom _ _ _ _ _ Hf). apply (shape_prefix T σ (p ++ [b]) k HT). by rewrite <- Hb.
    + rewrite Hb. by apply prefix_app_r.
Qed.

Lemma covers_split p q : is_Some (T !! p) -> covers (p, false) q <-> q = p \/ covers (p, true) q.
Proof using. intros Hp. unfold covers. cbn. destruct (decide (q = p)) as [->|]; naive_solver. Qed.

Lemma kid_apart p b b' q : covers (p ++ [b], false) q -> covers (p ++ [b'], false) q -> b = b'.
Proof using.
  intros (_ & [k1 ->] & _) (_ & [k2 E] & _). cbn in E. rewrite <- !app_assoc in E. apply app_inv_head in E. by injection E.
Qed.

Lemma spread_kids p n bs st : shape T σ -> fam T σ p n bs -> (forall q, covers (p, true) q -> ~ cover st q) -> spread st ->
  spread (kids p bs ++ st).
Proof using.
  intros HT Hf Hst Hsp. assert (Hall : forall bs', bs' ⊆ bs -> NoDup bs' -> spread (kids p bs' ++ st)).
  { induction bs' as [|b bs' IH]; intros Hsub Hnd; [done|]. apply NoDup_cons in Hnd as [Hb Hnd]. cbn. split; [|apply IH; [set_solver|done]].
    intros q Hq. rewrite cover_app. intros [([p' e] & Hin & Hq')|Hq'].
    - apply list_elem_of_fmap in Hin as (b' & [= -> ->] & Hb'). by rewrite (kid_apart p b b' q Hq Hq') in Hb.
    - apply (Hst q); [|done]. apply (cover_kids p n bs q HT Hf). exists (p ++ [b], false). split; [|done].
      apply list_elem_of_fmap. exists b. split; [done|]. apply Hsub. by left. }
  apply Hall; [done|apply Hf].
Qed.

Lemma first_visit p st st' L : is_Some (T !! p) -> (forall q, covers (p, false) q -> ~ cover st q) ->
  (forall q, cover st' q <-> covers (p, true) q \/ cover st q) ->
  NoDup (firsts L) -> (forall q, q ∈ firsts L <-> cover st' q) ->
  NoDup (firsts ((p, false) :: L)) /\ (forall q, q ∈ firsts ((p, false) :: L) <-> cover ((p, false) :: st) q).
Proof using.
  intros Hp Hx Hst' N C. cbn. split.
  - apply NoDup_cons. split; [|done]. rewrite C, Hst'. intros [(_ & _ & Hne)|Hc]; [by apply Hne|].
    apply (Hx p); [|done]. by apply covers_split; [|left].
  - intros q. rewrite elem_of_cons, C, Hst', cover_cons, (covers_split p q Hp). tauto.
Qed.

Lemma spread_true p st : (forall q, covers (p, false) q -> ~ cover st q) -> forall q, covers (p, true) q -> ~ cover st q.
Proof using. intros H q (H1 & H2 & H3). apply H. by split_and!. Qed.

Lemma no_children p n bs : fam T σ p n bs -> ts_FirstChild n = 0 -> bs = [].
Proof using. intros Hf E0. pose proof (fam_chain _ _ _ _ _ Hf) as Hc. rewrite E0 in Hc. destruct bs; [done|]. cbn in Hc. by destruct Hc as (<- & [] & _). Qed.

Lemma filter_kids p bs st : filter (fun x => x.2 = true) (kids p bs ++ st) = filter (fun x => x.2 = true) st.
Proof using. induction bs as [|b bs IH]; [done|]. unfold kids in *. rewrite fmap_cons, <- app_comm_cons. by rewrite filter_cons_False. Qed.

Lemma walks_cover st L : shape T σ -> walks st L -> spread st ->
  NoDup (firsts L) /\ (forall q, q ∈ firsts L <-> cover st q) /\
  (length L <= 2 * length (firsts L) + length (filter (fun x => x.2 = true) st))%nat.
Proof using.
  intros HT Hw. induction Hw as [|p r c st L Hp Hc El E0 Hw IH|p r c st L Hp Hc El E0 Hw IH|p r c bs st L Hp Hc El Hf Hw IH|p r c bs st L Hp Hc Hf Hw IH]; intros Hsp.
  - split_and!; [constructor|intros q; split; [by intros ?%elem_of_nil|by intros (? & ?%elem_of_nil & _)]|done].
  - destruct Hsp as [Hx Hsp]. destruct (IH Hsp) as (N & C & Len). rewrite filter_cons_False by done.
    destruct (sh_node _ _ HT p r Hp) as (_ & c' & bs & Hc' & Hf). assert (c' = c) as -> by congruence.
    destruct (first_visit p st st L) as [N' C']; [by eexists|done| |done|done|split_and!; [done|done|change (firsts ((p, false) :: L)) with (p :: firsts L); cbn [length]; lia]].
    intros q. rewrite <- (cover_kids p _ bs q HT Hf), (no_children _ _ _ Hf E0). split; [tauto|]. intros [(? & ?%elem_of_nil & _)|?]; done.
  - destruct Hsp as [Hx Hsp]. destruct IH as (N & C & Len); [split; [by apply spread_true|done]|].
    rewrite filter_cons_True in Len by done. rewrite filter_cons_False by done.
    destruct (first_visit p st ((p, true) :: st) L) as [N' C']; [by eexists|done|intros q; apply cover_cons|done|done|].
    split_and!; [done|done|]. change (firsts ((p, false) :: L)) with (p :: firsts L). cbn [length] in *. lia.
  - destruct Hsp as [Hx Hsp]. destruct IH as (N & C & Len); [eapply spread_kids; [done..|by apply spread_true|done]|].
    rewrite filter_kids in Len. rewrite filter_cons_False by done.
    destruct (first_visit p st (kids p bs ++ st) L) as [N' C']; [by eexists|done| |done|done|split_and!; [done|done|change (firsts ((p, false) :: L)) with (p :: firsts L); cbn [length]; lia]].
    intros q. by rewrite cover_app, (cover_kids p _ bs q HT Hf).
  - destruct Hsp as [Hx Hsp]. destruct IH as (N & C & Len); [by eapply spread_kids|].
    rewrite filter_kids in Len. rewrite filter_cons_True by done. change (firsts ((p, true) :: L)) with (firsts L). cbn [length]. split_and!; [done| |lia].
    intros q. rewrite C, cover_app, cover_cons, (cover_kids p _ bs q HT Hf). done.
Qed.

(** The whole trie. *)
Lemma walks_all root : shape T σ -> T !! [] = Some root ->
  exists L, walks [([], false)] L /\ NoDup (firsts L) /\ (forall q, q ∈ firsts L <-> is_Some (T !! q)) /\
    (length L <= 2 * size T)%nat.
Proof using.
  intros HT Hr. destruct (walks_exist 256 HT [] root [] [] Hr) as [L HL]; [cbn; lia|constructor|]. exists L.
  destruct (walks_cover _ L HT HL) as (N & C & Len).
  { split; [|done]. intros q _ (? & ?%elem_of_nil & _). done. }
  assert (C' : forall q, q ∈ firsts L <-> is_Some (T !! q)).
  { intros q. rewrite C, cover_cons. unfold covers. cbn. split.
    - intros [(? & _)|(? & ?%elem_of_nil & _)]; done.
    - intros ?. left. split_and!; [done|apply prefix_nil|done]. }
  split_and!; [done|done|done|]. rewrite filter_cons_False in Len by done. cbn in Len.
  assert (Hsz : size T = length (firsts L)); [|lia].
  rewrite <- size_dom. rewrite <- (size_list_to_set (C := gset path) (firsts L)) by done. f_equal. apply set_eq. intros q.
  by rewrite elem_of_list_to_set, elem_of_dom, C'.
Qed.

End order.

(** ** The walker follows that order *)
Section sim.
Context {S : Type} (read : Z -> SM S (list Z)) (Note : option (Z -> TrieWalkNote -> option trie_error -> S -> S * bool)).
Context (pgs : gmap Z page) (T : gmap path Z) (σ : nodes).
Context (Hpg : forall b pg, pgs !! b = Some pg -> page_ok pg) (Hσ : forall r, σ !! r = node pgs r) (HT : shape T σ).
(** What the reads keep of the state. *)
Context (I : S -> Prop).
Context (Hread : forall b pg s, pgs !! b = Some pg -> I s -> exists s', read b s = (s', Ret (image pg)) /\ I s').

Implicit Types (w : TrieWalker) (s : S) (p q : path) (st L : list (path * bool)).

Definition pages_shown w : Prop := forall b buf, w_pages w !! b = Some buf -> exists pg, pgs !! b = Some pg /\ buf = image pg.

Definition kept w w' : Prop :=
  w_stack w' = w_stack w /\ w_visited w' = w_visited w /\ w_done w' = w_done w /\ pages_shown w'.

Lemma kept_refl w : pages_shown w -> kept w w.
Proof using. intros H. unfold kept. split_and!; [reflexivity..|exact H]. Qed.

Lemma kept_trans w1 w2 w3 : kept w1 w2 -> kept w2 w3 -> kept w1 w3.
Proof using. intros (A & B & C & _) (A' & B' & C' & D). unfold kept. split_and!; [congruence..|done]. Qed.

Abbreviation never := (fun (_ : trie_error) (_ : TrieWalker * S) => False).

(** The page and the slot of a node. *)
Lemma node_page r c : σ !! r = Some c -> exists pg, pgs !! TrieRefBlock r = Some pg /\ page_ok pg /\
  ReadTriePage (image pg) = Ret (p_hdr pg) /\ ReadTrieSlot (image pg) (TrieRefSlot r) = Ret (fst c) /\
  c = cell_of pg (fst c) /\ name_fits (top pg) (fst c).
Proof using Hpg Hσ.
  intros Hr. rewrite Hσ in Hr. unfold node in Hr. destruct (pgs !! TrieRefBlock r) as [pg|] eqn:Eb; [|done]. cbn in Hr.
  pose proof (Hpg _ _ Eb) as Hok. pose proof (ref_slot_range r) as Hi. exists pg.
  destruct (live_slot pg _ c Hok Hi Hr) as (n & En & _ & _ & -> & Hf & _). cbn [fst cell_of].
  split_and!; [done|done|apply ReadTriePage_image, Hok|apply ReadTrieSlot_image; [apply Hok|apply Hi|done]|done|done].
Qed.

Lemma sim_readNode r c w s Q : σ !! r = Some c -> pages_shown w -> I s ->
  (forall w' s' pg, kept w w' -> I s' -> pgs !! TrieRefBlock r = Some pg -> Q (Some (image pg, p_hdr pg, fst c)) (w', s')) ->
  wp (readNode read Note r) (w, s) Q never.
Proof using Hpg Hσ Hread.
  intros Hr Hw Hs HQ. destruct (node_page r c Hr) as (pg & Eb & Hok & E1 & E2 & _). unfold readNode. apply wp_try.
  assert (Hgo : forall w' s', kept w w' -> I s' ->
    wp (try (lift (ReadTriePage (image pg)))
         (fun page => try (lift (ReadTrieSlot (image pg) (TrieRefSlot r))) (fun node => mret (Some (image pg, page, node)))
           (fun e => _ ← note Note r TrieNoteSlot (Some e); mret None))
         (fun e => _ ← note Note r TrieNotePage (Some e); mret None)) (w', s') Q never).
  { intros w' s' Hk Hs'. apply wp_try. eapply wp_lift; [exact E1|]. apply wp_try. eapply wp_lift; [exact E2|]. by apply wp_ret, HQ. }
  unfold wp at 1, take_page. destruct (w_pages w !! TrieRefBlock r) as [cached|] eqn:Ec.
  - destruct (Hw _ _ Ec) as (pg' & Eb' & ->). assert (pg' = pg) as -> by congruence. apply Hgo; [|done].
    unfold kept. split_and!; [done..|]. intros b buf. cbn. intros [_ Hb]%lookup_delete_Some. by apply Hw.
  - unfold w_read. destruct (Hread _ pg s Eb Hs) as (s' & -> & Hs'). apply Hgo; [by apply kept_refl|exact Hs'].
Qed.

Lemma sim_collect ks : forall fuel parent child w s Q, chain σ child ks -> (length ks <= fuel)%nat -> pages_shown w -> I s ->
  (forall w' s', kept w w' -> I s' -> Q ks (w', s')) ->
  wp (collect_children read Note fuel parent child) (w, s) Q never.
Proof using Hpg Hσ Hread.
  induction ks as [|k ks IH]; intros fuel parent child w s Q Hch Hlen Hw Hs HQ; cbn in Hch.
  { subst child. destruct fuel; exact (HQ w s (kept_refl w Hw) Hs). }
  destruct Hch as (-> & Hk & r' & Hn & Hch). destruct fuel as [|fuel]; cbn in Hlen; [lia|].
  unfold nxt in Hn. destruct (σ !! k) as [c|] eqn:Ec; [|done]. cbn in Hn. injection Hn as <-.
  destruct (node_page k c Ec) as (pg & Eb & Hok & E1 & E2 & _). cbn [collect_children].
  unfold TrieRefIsNull. rewrite (proj2 (Z.eqb_neq k 0)) by done. apply wp_try, wp_bind.
  unfold wp at 1, w_read. destruct (Hread _ pg s Eb Hs) as (s' & -> & Hs'). apply wp_bind. unfold wp at 1, upd.
  apply wp_bind. eapply wp_lift; [exact E1|]. eapply wp_lift; [exact E2|]. apply wp_bind.
  set (w1 := set_pages _ w). assert (Hk1 : kept w w1).
  { unfold kept. split_and!; [done..|]. intros b buf. cbn. intros [[<- <-]|[_ ?]]%lookup_insert_Some; [exists pg; split; [exact Eb|reflexivity]|by apply Hw]. }
  apply IH; [done|lia|apply Hk1|done|]. intros w' s2 Hk2 Hs2. apply wp_ret, HQ; [exact (kept_trans _ _ _ Hk1 Hk2)|done].
Qed.

(** ** One step *)
Definition ref_of (x : path * bool) : Z * bool := (default 0 (T !! x.1), x.2).

(** The walker with [st] on its stack, before the visits [L]. *)
Record at_ w st L : Prop := {
  at_stack : w_stack w = ref_of <$> st;
  at_pages : pages_shown w;
  at_done : w_done w = false;
  at_fresh q r : q ∈ firsts L -> T !! q = Some r -> r ∉ w_visited w;
}.

Lemma ref_kids p bs n : fam T σ p n bs -> ref_of <$> kids p bs = (fun c => (c, false)) <$> (kid T p <$> bs).
Proof using. intros _. unfold kids. rewrite <- !list_fmap_compose. done. Qed.

Lemma sim_push p r (c : cell) bs w s Q : T !! p = Some r -> fam T σ p (fst c) bs -> pages_shown w -> I s ->
  (forall w' s', I s' -> w_stack w' = (ref_of <$> kids p bs) ++ w_stack w -> w_visited w' = w_visited w -> w_done w' = w_done w ->
    pages_shown w' -> Q tt (w', s')) ->
  wp (pushChildren read Note r (fst c)) (w, s) Q never.
Proof using Hpg Hσ Hread HT.
  intros Hp Hf Hw Hs HQ. unfold pushChildren, collectChildren. apply wp_bind.
  apply (sim_collect (kid T p <$> bs)); [apply Hf| |done|done|].
  { rewrite length_fmap. pose proof (fam_length _ _ _ _ _ HT Hf). change (Z.to_nat TrieSiblingMax) with 1024%nat. lia. }
  intros w' s' (H1 & H2 & H3 & H4) Hs'. unfold wp, upd. apply HQ; [done| |done|done|done]. cbn. by rewrite H1, (ref_kids p bs (fst c) Hf).
Qed.

(** The node that [Next] hands out. *)
Definition shows p (e : bool) (x : visit) : Prop :=
  exists r c pg, T !! p = Some r /\ σ !! r = Some c /\ pgs !! TrieRefBlock r = Some pg /\
    x = mkVisit r e (image pg) (p_hdr pg) (fst c).

Lemma sim_schedule p e st L r (c : cell) w s Q : walks T σ ((p, e) :: st) ((p, e) :: L) -> T !! p = Some r -> σ !! r = Some c ->
  pages_shown w -> w_stack w = ref_of <$> st -> I s ->
  (forall w' s' st', I s' -> walks T σ st' L -> w_stack w' = ref_of <$> st' -> w_visited w' = w_visited w -> w_done w' = w_done w ->
    pages_shown w' -> Q tt (w', s')) ->
  wp (schedule read Note r e (fst c)) (w, s) Q never.
Proof using Hpg Hσ Hread HT.
  intros Hw Hp Hc Hpages Hst Hs HQ.
  assert (Hpush : forall bs, fam T σ p (fst c) bs -> walks T σ (kids p bs ++ st) L ->
    wp (pushChildren read Note r (fst c)) (w, s) Q never).
  { intros bs Hf Hws. eapply sim_push; [done..|]. intros w' s' Hs' Est Ev Ed Hpg'. eapply HQ; [done|exact Hws| |done..].
    by rewrite Est, Hst, fmap_app. }
  destruct (walks_inv _ _ _ _ _ _ Hw) as (r' & c' & L' & [= <-] & Hp' & Hc' & Hcase).
  assert (r' = r) as -> by congruence. assert (c' = c) as -> by congruence. unfold schedule, TrieRefIsNull.
  destruct e; cbn [negb andb] in Hcase; [by destruct Hcase as (bs & Hf & Hws); eapply Hpush|].
  destruct (TrieIsLeaf _); [|by destruct Hcase as (bs & Hf & Hws); eapply Hpush].
  destruct (ts_FirstChild (fst c) =? 0); cbn [negb].
  - apply (HQ w s st); [done..].
  - apply (HQ _ s ((p, true) :: st)); [done|done| |done|done|done]. cbn. rewrite Hst. f_equal. unfold ref_of. cbn. by rewrite Hp.
Qed.

(** The next visit. *)
Lemma sim_next x L st w s Q : walks T σ st (x :: L) -> NoDup (firsts (x :: L)) -> at_ w st (x :: L) -> I s ->
  (forall w' s' st' v, I s' -> walks T σ st' L -> at_ w' st' L -> shows x.1 x.2 v -> Q (Some v) (w', s')) ->
  wp (Next read Note) (w, s) Q never.
Proof using Hpg Hσ Hread HT.
  intros Hw Hnd [A B C D] Hs HQ. destruct st as [|[p e] st]; [by inversion Hw|].
  destruct (walks_inv _ _ _ _ _ _ Hw) as (r & c & L' & [= -> <-] & Hp & Hc & _).
  unfold wp, Next. rewrite A, length_fmap. cbn [length next_loop]. rewrite C, A. cbn [fmap list_fmap ref_of]. 
  cbn [fst snd]. rewrite Hp. cbn [default].
  match goal with |- match ?m ?s with _ => _ end => change (wp m s Q never) end. change (id r) with r.
  apply wp_bind. unfold wp at 1, upd. set (w1 := set_stack (ref_of <$> st) w).
  assert (Hfresh : e = false -> r ∉ w_visited w) by (intros ->; apply (D p r); [by left|done]).
  assert (Ev : bool_decide (r ∈ w_visited w) && negb e = false).
  { destruct e; [apply andb_false_r|]. by rewrite bool_decide_false by (by apply Hfresh). }
  rewrite Ev. apply wp_bind. set (w2 := if negb e then set_visited ({[r]} ∪ w_visited w) w1 else w1).
  assert (Hrun : wp (if negb e then upd (set_visited ({[r]} ∪ w_visited w)) else mret tt) (w1, s)
    (fun _ ws => ws = (w2, s)) never) by (unfold w2; by destruct e).
  eapply wp_mono; [exact Hrun| |done]. intros _ ? ->. apply wp_bind.
  eapply (sim_readNode r c); [done|unfold w2; by destruct e|done|]. intros w3 s3 pg (K1 & K2 & K3 & K4) Hs3 Hb.
  apply wp_bind. eapply (sim_schedule p e st L); [done|done|done|done| |done|].
  { rewrite K1. unfold w2. by destruct e. }
  intros w4 s4 st' Hs4 Hw4 A4 V4 D4 P4. apply wp_ret. apply (HQ _ _ st'); [done|done| |exists r, c, pg; by split_and!].
  assert (Hdone : w_done w2 = false) by (unfold w2; by destruct e). split; [done|done|by rewrite D4, K3|].
  intros q r' Hq Hr'. rewrite V4, K2. unfold w2. destruct e; cbn; [by apply (D q r')|].
  cbn in Hnd. apply NoDup_cons in Hnd as [Hnin _]. rewrite elem_of_union, elem_of_singleton. intros [->|Hin].
  - apply Hnin. by rewrite (sh_inj _ _ HT p q r Hp Hr').
  - apply (D q r'); [by right|done|done].
Qed.

Lemma sim_end w s Q : at_ w [] [] -> Q None (w, s) -> wp (Next read Note) (w, s) Q never.
Proof using. intros [A B C D] HQ. unfold wp, Next. rewrite A. cbn. exact HQ. Qed.

Lemma at_root root L : T !! [] = Some root -> walks T σ [([], false)] L -> at_ (NewTrieWalker root) [([], false)] L.
Proof using HT.
  intros Hr Hw. destruct (sh_node _ _ HT [] root Hr) as [H0 _]. split; cbn.
  - unfold TrieRefIsNull. rewrite (proj2 (Z.eqb_neq _ 0)) by done. cbn. unfold ref_of. cbn. by rewrite Hr.
  - intros b buf. cbn. by rewrite lookup_empty.
  - done.
  - intros q r _ _. apply not_elem_of_empty.
Qed.

End sim.

(** ** Readdir *)
Section readdir.
Context {S : Type} (read : Z -> SM S (list Z)).
Context (pgs : gmap Z page) (T : gmap path Z) (σ : nodes) (m : gmap path (Z * Z)) (root : Z).
Context (Hpg : forall b pg, pgs !! b = Some pg -> page_ok pg) (Hσ : forall r, σ !! r = node pgs r) (Htr : trie root T σ m).
Context (I : S -> Prop).
Context (Hread : forall b pg s, pgs !! b = Some pg -> I s -> exists s', read b s = (s', Ret (image pg)) /\ I s').

Implicit Types (w : TrieWalker) (s : S) (p q : path) (st L : list (path * bool)).

(** The entries among the visits [L]. *)
Definition entry_of (x : path * bool) : option (Z * Z * path) :=
  if x.2 then None else (fun e : Z * Z => (e.1, e.2, x.1)) <$> m !! x.1.
Definition listing L : list (Z * Z * path) := omap entry_of L.

Abbreviation never := (fun (_ : trie_error) (_ : TrieWalker * S) => False).

(** What the iterator makes of a visit. *)
Lemma visit_entry x v : shows pgs T σ x.1 x.2 v ->
  match entry_of x with
  | Some (ino, ft, name) => v_emitted v || negb (TrieIsLeaf (ts_NodeType (v_node v))) = false /\
      ReadTrieName (v_buf v) (ts_NameLen (v_node v)) (ts_NameOffset (v_node v)) = Ret name /\
      ino = ts_Inode (v_node v) /\ ft = ts_FType (v_node v)
  | None => v_emitted v || negb (TrieIsLeaf (ts_NodeType (v_node v))) = true
  end.
Proof using Hpg Hσ Htr.
  destruct x as [p e]. intros (r & c & pg & Hp & Hc & Hb & ->). unfold entry_of. cbn [fst snd v_emitted v_node v_buf].
  destruct e; cbn [orb]; [done|]. pose proof (en_node _ _ _ (tr_entries _ _ _ _ Htr) p r c Hp Hc) as Hent. unfold entry_ok in Hent.
  destruct (TrieIsLeaf _); cbn [negb]; [|by rewrite Hent]. destruct Hent as [Hn ->]. cbn.
  destruct (node_page pgs σ Hpg Hσ r c Hc) as (pg' & Hb' & Hok & _ & _ & Hcell & Hfit). assert (pg' = pg) as -> by congruence.
  pose proof (ReadTrieName_image pg (fst c) (top pg) (ok_wf pg Hok) Hfit (ok_top pg Hok)) as HR.
  rewrite Hcell in Hn. cbn in Hn. rewrite Hn in HR. done.
Qed.

Lemma wp_iter_next L : forall fuel st w s Q, walks T σ st L -> NoDup (firsts L) -> at_ pgs T w st L -> I s -> (length L < fuel)%nat ->
  (listing L = [] -> forall w' s', Q (0, 0, []) (w', s')) ->
  (forall e w' s' st' L', listing L = e :: listing L' -> I s' -> walks T σ st' L' -> NoDup (firsts L') -> at_ pgs T w' st' L' ->
     (length L' < length L)%nat -> Q e (w', s')) ->
  wp (iter_next read fuel) (w, s) Q never.
Proof using Hpg Hσ Htr Hread.
  induction L as [|x L IH]; intros fuel st w s Q Hw Hnd Hat Hs Hfuel HQ0 HQ1; (destruct fuel as [|fuel]; [cbn in Hfuel; lia|]); cbn [iter_next].
  - apply wp_bind. assert (st = []) as -> by (by inversion Hw). eapply sim_end; [exact Hat|]. by apply wp_ret, HQ0.
  - apply wp_bind. eapply (sim_next read None pgs T σ Hpg Hσ (tr_shape _ _ _ _ Htr) I Hread); [exact Hw|exact Hnd|exact Hat|exact Hs|].
    intros w' s' st' v Hs' Hw' Hat' Hv. cbn in Hfuel. pose proof (visit_entry x v Hv) as Hent.
    assert (Hnd' : NoDup (firsts L)) by (destruct x as [? []]; [done|by apply NoDup_cons in Hnd as [_ ?]]).
    unfold listing in HQ0, HQ1. cbn [omap list_omap] in HQ0, HQ1. destruct (entry_of x) as [[[ino ft] name]|].
    + destruct Hent as (-> & Hname & -> & ->). apply wp_try. eapply wp_lift; [exact Hname|]. apply wp_ret.
      apply (HQ1 _ w' s' st' L); try done. cbn. lia.
    + rewrite Hent. apply (IH fuel st' w' s'); [done|done|done|done|lia|done|].
      intros e w2 s2 st2 L2 E2 H1 H2 H3 H4 H5. apply (HQ1 e w2 s2 st2 L2); try done. cbn. lia.
Qed.

Lemma wp_readdir fuel : forall L st w s (Q : list (Z * Z * path) -> TrieWalker * S -> Prop), walks T σ st L -> NoDup (firsts L) -> at_ pgs T w st L -> I s ->
  (length L < fuel)%nat -> (forall e, e ∈ listing L -> e.1.1 <> 0) -> (forall w' s', Q (listing L) (w', s')) ->
  wp (readdir_loop read fuel) (w, s) Q never.
Proof using Hpg Hσ Htr Hread.
  induction fuel as [|fuel IH]; intros L st w s Q Hw Hnd Hat Hs Hfuel H0 HQ; [lia|]. cbn [readdir_loop]. apply wp_try.
  eapply wp_mono; [eapply (wp_iter_next L (Datatypes.S fuel) st w s (fun a ws => wp _ ws Q never)); [done..| |]|intros a ws Ha; exact Ha|done].
  - intros El w' s'. pose proof (HQ w' s') as HQ'. rewrite El in HQ'. exact HQ'.
  - intros e w' s' st' L' El Hs' Hw' Hnd' Hat' Hlen. destruct e as [[ino ft] name].
    assert (Hi : ino <> 0) by (apply (H0 (ino, ft, name)); rewrite El; by left). rewrite (proj2 (Z.eqb_neq _ 0)) by done.
    apply wp_bind, (IH L' st'); [done..|lia| |].
    + intros e He. apply H0. rewrite El. by right.
    + intros w2 s2. apply wp_ret. rewrite <- El. apply HQ.
Qed.

(** The entries of all nodes are the directory. *)
Lemma listing_all L : NoDup (firsts L) -> (forall q, q ∈ firsts L <-> is_Some (T !! q)) ->
  listing L ≡ₚ (fun x : path * (Z * Z) => (x.2.1, x.2.2, x.1)) <$> map_to_list m.
Proof using Htr.
  intros Hnd Hall. assert (E : listing L = omap (fun q => (fun e : Z * Z => (e.1, e.2, q)) <$> m !! q) (firsts L)).
  { clear Hnd Hall. induction L as [|[p e] L IH]; [done|].
    change (listing ((p, e) :: L)) with (match entry_of (p, e) with Some x => x :: listing L | None => listing L end).
    destruct e; [exact IH|]. change (firsts ((p, false) :: L)) with (p :: firsts L). cbn [entry_of fst snd omap list_omap].
    destruct (m !! p); cbn [fmap option_fmap option_map]; by rewrite IH. }
  rewrite E. apply NoDup_Permutation.
  - clear E. induction (firsts L) as [|q l IH] in Hnd |- *; [constructor|]. apply NoDup_cons in Hnd as [Hq Hnd]. cbn.
    destruct (m !! q) as [e|]; cbn; [|by apply IH]. apply NoDup_cons. split; [|by apply IH].
    intros (q' & Hq' & E')%list_elem_of_omap. destruct (m !! q'); cbn in E'; congruence.
  - apply NoDup_fmap_2; [|apply NoDup_map_to_list]. intros [p [i f]] [p' [i' f']]. cbn. congruence.
  - intros [[i f] q]. rewrite list_elem_of_omap, list_elem_of_fmap. split.
    + intros (q' & Hq' & E'). destruct (m !! q') as [[i' f']|] eqn:Em; [|done]. injection E' as -> -> ->. exists (q, (i, f)).
      split; [done|]. by apply elem_of_map_to_list.
    + intros ([q' [i' f']] & [= -> -> ->] & Hin). apply elem_of_map_to_list in Hin. exists q'. rewrite Hin. split; [|done].
      apply Hall. apply (en_dom _ _ _ (tr_entries _ _ _ _ Htr)). by eexists.
Qed.

End readdir.

(** ** The handlers *)
Section handlers.
Context (readBlock : Z -> option (list Z)).

Definition dev_read (block : Z) : SM unit (list Z) := fun s =>
  (s, match readBlock block with Some buf => Ret buf | None => Err (ErrTrieRead block) end).

Record DirEntry := mkDirEntry { de_Mode : Z; de_Ino : Z; de_Name : list Z }.

(** [Readdir], given the directory's inode and its parent's number. *)
Definition Readdir (fuel : nat) (diskInode : Inode) (ino parentIno : Z) : res trie_error (list DirEntry) :=
  let dots := [mkDirEntry ModeDir ino [46]; mkDirEntry ModeDir parentIno [46; 46]] in
  if ino_DirTrieRoot diskInode =? 0 then Ret dots else
  match snd (readdir_loop dev_read fuel (NewTrieWalker (ino_DirTrieRoot diskInode), tt)) with
  | Ret l => Ret (dots ++ ((fun '(ino, ftype, name) => mkDirEntry (u32 (Z.shiftl ftype 12)) ino name) <$> l))
  | Err e => Err e
  | Panic => Panic
  end.

Definition dirIsEmpty (fuel : nat) (di : Inode) : res trie_error bool :=
  if ino_DirTrieRoot di =? 0 then Ret true else
  match snd (iter_next dev_read fuel (NewTrieWalker (ino_DirTrieRoot di), tt)) with
  | Ret (ino, _, _) => Ret (ino =? 0)
  | Err _ => Ret true
  | Panic => Panic
  end.

Section correct.
Context (blocks : gset Z) (fuel : nat) (σ : nodes) (T : gmap path Z) (m : gmap path (Z * Z)) (di : Inode).
Context (Hblocks : forall b, is_Some (readBlock b) -> b ∈ blocks) (Hfuel : (128 * size blocks < fuel)%nat).
Context (Hshown : shown readBlock σ) (Htr : trie (ino_DirTrieRoot di) T σ m).

(** The trie has at most 64 nodes for every block. *)
Lemma trie_size : (2 * size T < fuel)%nat.
Proof using Hblocks Hfuel Hshown Htr.
  pose proof (tr_shape _ _ _ _ Htr) as HT. destruct Hshown as (pgs & Hp & Hσ).
  assert (Hsize : (size T <= size (refs blocks))%nat); [|pose proof (refs_size blocks); lia].
  rewrite <- length_map_to_list, <- (length_fmap snd). apply submseteq_length, NoDup_submseteq.
  - apply NoDup_fmap_2_strong; [|apply NoDup_map_to_list]. intros [p r] [q r'] H1%elem_of_map_to_list H2%elem_of_map_to_list. cbn.
    intros <-. f_equal. by apply (sh_inj _ _ HT p q r).
  - intros r ([p r'] & -> & Hr%elem_of_map_to_list)%list_elem_of_fmap. cbn. apply elem_of_elements, elem_of_refs, Hblocks.
    destruct (sh_node _ _ HT p r' Hr) as (_ & c & bs & Hc & _). rewrite Hσ in Hc. unfold node in Hc.
    destruct (pgs !! TrieRefBlock r') as [pg|] eqn:Eb; [|done]. by rewrite (proj2 (Hp _ _ Eb)).
Qed.

(** What both handlers start from. *)
Lemma walk_start (P : gmap Z page -> list (path * bool) -> Prop) :
  (forall pgs L, (forall b pg, pgs !! b = Some pg -> page_ok pg) -> (forall r, σ !! r = node pgs r) ->
     (forall b pg s, pgs !! b = Some pg -> True -> exists s', dev_read b s = (s', Ret (image pg)) /\ True) ->
     walks T σ [([], false)] L -> NoDup (firsts L) -> (length L < fuel)%nat ->
     at_ pgs T (NewTrieWalker (ino_DirTrieRoot di)) [([], false)] L ->
     listing m L ≡ₚ (fun x : path * (Z * Z) => (x.2.1, x.2.2, x.1)) <$> map_to_list m -> P pgs L) ->
  (ino_DirTrieRoot di =? 0) = false /\ exists pgs L, P pgs L.
Proof using Hblocks Hfuel Hshown Htr.
  intros HP. pose proof trie_size as Hsz. pose proof (tr_shape _ _ _ _ Htr) as HT. pose proof (tr_root _ _ _ _ Htr) as Hr.
  split; [apply Z.eqb_neq; by destruct (sh_node _ _ HT [] _ Hr)|].
  destruct (walks_all T σ (ino_DirTrieRoot di) HT Hr) as (L & Hw & Hnd & Hall & Hlen). destruct Hshown as (pgs & Hp & Hσ).
  exists pgs, L. apply HP; try done.
  - intros b pg Hb. by destruct (Hp b pg Hb).
  - intros b pg s Hb _. exists s. unfold dev_read. by rewrite (proj2 (Hp b pg Hb)).
  - lia.
  - by eapply at_root.
  - by eapply listing_all.
Qed.

(** C6 Reading a directory lists "." and ".." and then every entry of its trie,
    each once and nothing else, with the type shifted into the mode; the walk
    ends within 128 steps for every block of the device. *)
Theorem Readdir_correct ino parentIno : (forall name e, m !! name = Some e -> fst e <> 0) ->
  exists l, Readdir fuel di ino parentIno = Ret ([mkDirEntry ModeDir ino [46]; mkDirEntry ModeDir parentIno [46; 46]] ++ l)
    /\ l ≡ₚ (fun x : path * (Z * Z) => mkDirEntry (u32 (Z.shiftl x.2.2 12)) x.2.1 x.1) <$> map_to_list m.
Proof using Hblocks Hfuel Hshown Htr.
  intros Hino. unfold Readdir.
  destruct (walk_start (fun pgs L => snd (readdir_loop dev_read fuel (NewTrieWalker (ino_DirTrieRoot di), tt)) = Ret (listing m L)
    /\ listing m L ≡ₚ (fun x : path * (Z * Z) => (x.2.1, x.2.2, x.1)) <$> map_to_list m)) as (-> & pgs & L & E & HL).
  - intros pgs L Hok Hσ Hrd Hw Hnd Hlen Hat HL. split; [|exact HL].
    assert (Hwp : wp (readdir_loop dev_read fuel) (NewTrieWalker (ino_DirTrieRoot di), tt) (fun x _ => x = listing m L) (fun _ _ => False)).
    { eapply (wp_readdir dev_read pgs T σ m) with (I := fun _ => True); try done. intros x Hx. rewrite HL in Hx. apply list_elem_of_fmap in Hx as ([p e] & -> & He).
      exact (Hino p e (proj1 (elem_of_map_to_list _ _ _) He)). }
    unfold wp in Hwp. destruct (readdir_loop _ _ _) as [ws [x|e|]]; [by subst|done|done].
  - rewrite E. eexists. split; [reflexivity|]. rewrite HL, <- list_fmap_compose. done.
Qed.

(** rmdir's test: a directory whose trie can be read is found empty exactly
    when it has no entry. *)
Theorem dirIsEmpty_correct : (forall name e, m !! name = Some e -> fst e <> 0) ->
  dirIsEmpty fuel di = Ret (bool_decide (m = ∅)).
Proof using Hblocks Hfuel Hshown Htr.
  intros Hino. unfold dirIsEmpty.
  destruct (walk_start (fun pgs L => snd (iter_next dev_read fuel (NewTrieWalker (ino_DirTrieRoot di), tt)) = Ret (default (0, 0, []) (head (listing m L)))
    /\ listing m L ≡ₚ (fun x : path * (Z * Z) => (x.2.1, x.2.2, x.1)) <$> map_to_list m)) as (-> & pgs & L & E & HL).
  - intros pgs L Hok Hσ Hrd Hw Hnd Hlen Hat HL. split; [|exact HL].
    assert (Hwp : wp (iter_next dev_read fuel) (NewTrieWalker (ino_DirTrieRoot di), tt)
      (fun x _ => x = default (0, 0, []) (head (listing m L))) (fun _ _ => False)).
    { eapply (wp_iter_next dev_read pgs T σ m) with (I := fun _ => True); try done; [by intros ->|]. by intros e w' s' st' L' ->. }
    unfold wp in Hwp. destruct (iter_next _ _ _) as [ws [x|e|]]; [by subst|done|done].
  - rewrite E. destruct (decide (m = ∅)) as [->|Hne].
    + rewrite map_to_list_empty in HL. apply Permutation_nil_r in HL. by rewrite HL.
    + rewrite bool_decide_false by done. destruct (listing m L) as [|[[i f] p] l]; [|].
      * symmetry in HL. apply Permutation_nil_r in HL. destruct (map_to_list m) eqn:Em; [|done]. by apply map_to_list_empty_iff in Em.
      * cbn. f_equal. apply Z.eqb_neq. assert (He : (i, f, p) ∈ (i, f, p) :: l) by left. rewrite HL in He.
        apply list_elem_of_fmap in He as ([p' e'] & [= -> -> ->] & He). exact (Hino p' e' (proj1 (elem_of_map_to_list _ _ _) He)).
Qed.
End correct.

(** A directory whose first page cannot be read counts as empty: the walk
    skips what it cannot read, so [rmdir] takes the directory for empty
    whatever it holds. *)
Theorem dirIsEmpty_unreadable fuel di : readBlock (TrieRefBlock (ino_DirTrieRoot di)) = None -> dirIsEmpty (S fuel) di = Ret true.
Proof.
  intros Hr. unfold dirIsEmpty. destruct (_ =? 0) eqn:E; [done|]. 
  cbn [iter_next]. unfold mbind, SM_bind at 1, Next, NewTrieWalker, TrieRefIsNull. rewrite E.
  cbn -[TrieRefBlock TrieRefSlot]. unfold readNode, try, take_page. cbn -[TrieRefBlock TrieRefSlot].
  by rewrite Hr.
Qed.

End handlers.
