(* ===== verification/MetaCache.v ===== *)
(** * Deferred metadata (fuse/cache.go)

    Between operations the bridge keeps the metadata blocks it has changed in
    memory: an operation ends by moving its dirty blocks into that map, readers
    see the map ahead of the device, and the journal's sync drains it to the
    device once the records are committed.  Blocks that were freed wait in a
    queue until then. *)

From stdpp Require Import base numbers list option gmap.
From Stdlib Require Import ZArith Lia.
From S2P Require Import Prelude Bits AllocCore Extents Device AllocRuntime AllocRuns Trie.

Local Open Scope Z_scope.

(** The deferred map, the queue of frees, the device and the data allocator. *)
Record deferred := mkDeferred {
  d_dirty : gmap Z (list Z);
  d_frees : list blockRun;
  d_disk : gmap Z (list Z);
  d_alloc : Allocator;
}.

Definition set_dirty (x : gmap Z (list Z)) (d : deferred) : deferred := mkDeferred x (d_frees d) (d_disk d) (d_alloc d).
Definition set_frees (x : list blockRun) (d : deferred) : deferred := mkDeferred (d_dirty d) x (d_disk d) (d_alloc d).
Definition set_disk (x : gmap Z (list Z)) (d : deferred) : deferred := mkDeferred (d_dirty d) (d_frees d) x (d_alloc d).
Definition set_alloc (x : Allocator) (d : deferred) : deferred := mkDeferred (d_dirty d) (d_frees d) (d_disk d) x.

(** ** The map *)
Definition setDirtyBlock (block : Z) (buf : list Z) (d : deferred) : deferred :=
  set_dirty (<[block := buf]> (d_dirty d)) d.

Definition dirtyView (d : deferred) (block : Z) : option (list Z) := d_dirty d !! block.

(** [dev.ReadBlock] on the mounted device. *)
Definition readBlock (d : deferred) (block : Z) : option (list Z) :=
  match ReadBlock (Some (dirtyView d)) (d_disk d) block with Ret buf => Some buf | _ => None end.

(** ** The queue of frees *)
Definition deferBlockFreeRun (dataRegionStart abs n : Z) (d : deferred) : deferred :=
  set_frees (addRun (d_frees d) (u64 (abs - dataRegionStart)) n) d.
Definition deferBlockFree (dataRegionStart abs : Z) (d : deferred) : deferred :=
  deferBlockFreeRun dataRegionStart abs 1 d.
Definition pendingFreeCount (d : deferred) : Z := count (d_frees d).

(** The return of a block whose freeing has been committed already. *)
Definition freeBlockNow (dataRegionStart abs : Z) (d : deferred) : res alloc_error deferred :=
  a ← FreeBlock (d_alloc d) (u64 (abs - dataRegionStart));
  Ret (set_alloc a (set_dirty (delete abs (d_dirty d)) d)).

(** ** The end of an operation *)

(** The dirty blocks of an operation's cache.  The source visits the cache in no
    particular order; the blocks are distinct. *)
Definition dirty_blocks {W} (s : tstate W) : gmap Z (list Z) :=
  omap (fun a => t_heap s !! a) (filter (fun '(b, _) => b ∈ t_dirty s) (t_cache s)).

Definition mergeCache {W} (s : tstate W) (d : deferred) : deferred :=
  set_dirty (dirty_blocks s ∪ d_dirty d) d.

(** [cacheAbort] and what [mergeCache] does to the cache. *)
Definition drop_cache {W} (s : tstate W) : tstate W :=
  mkT (t_w s) (t_heap s) ∅ ∅ (t_partials s) (t_inReplay s) (t_replay s).

(** Writing blocks in order, up to the first error. *)
Definition write_blocks (os : Z -> option (list Z)) (disk : gmap Z (list Z)) (l : list (Z * list Z))
    : gmap Z (list Z) * option dev_error :=
  let '(disk, e) := write_all os disk ((fun '(b, buf) => (tt, b, buf)) <$> l) in (disk, snd <$> e).

(** The write-through end of an operation, at mount. *)
Definition flushCacheToDevice {W} (os : Z -> option (list Z)) (s : tstate W) (d : deferred)
    : deferred * option dev_error :=
  let '(disk, e) := write_blocks os (d_disk d) (map_to_list (dirty_blocks s)) in (set_disk disk d, e).

(** ** The drain *)
Fixpoint free_runs (a : Allocator) (runs : list blockRun) : res alloc_error Allocator :=
  match runs with
  | [] => Ret a
  | r :: runs => a ← FreeRun a (run_first r) (run_n r); free_runs a runs
  end.

(** What is left of the map: the entries that are not those of the snapshot any
    more. *)
Definition undrained (snap dirty : gmap Z (list Z)) : gmap Z (list Z) :=
  filter (fun '(b, buf) => snap !! b <> Some buf) dirty.

(** [SyncMeta] with nothing else running; the snapshot is written in the order
    of [map_to_list]. *)
Definition SyncMeta (os : Z -> option (list Z)) (d : deferred) : res alloc_error (deferred * option dev_error) :=
  let frees := d_frees d in
  if bool_decide (d_dirty d = ∅) then
    a ← free_runs (d_alloc d) frees; Ret (set_alloc a (set_frees [] d), None)
  else
    let snap := d_dirty d in
    let '(disk, e) := write_blocks os (d_disk d) (map_to_list snap) in
    match e with
    | Some e => Ret (set_disk disk (set_frees (frees ++ []) d), Some e)
    | None =>
        a ← free_runs (d_alloc d) frees;
        Ret (mkDeferred (undrained snap (d_dirty d)) [] disk a, None)
    end.

(** ** Facts *)
Lemma readBlock_view d b : readBlock d b = match d_dirty d !! b with Some buf => Some buf | None => d_disk d !! b end.
Proof. unfold readBlock, ReadBlock, dirtyView. destruct (d_dirty d !! b); [done|]. by destruct (d_disk d !! b). Qed.

Lemma readBlock_set d b buf b' :
  readBlock (setDirtyBlock b buf d) b' = if decide (b' = b) then Some buf else readBlock d b'.
Proof.
  rewrite !readBlock_view. cbn. case_decide as E; [subst; by rewrite lookup_insert_eq|by rewrite lookup_insert_ne].
Qed.

Lemma lookup_dirty_blocks {W} (s : tstate W) b : dirty_blocks s !! b =
  if decide (b ∈ t_dirty s) then t_cache s !! b ≫= fun a => t_heap s !! a else None.
Proof.
  unfold dirty_blocks. rewrite lookup_omap, map_lookup_filter. destruct (t_cache s !! b) as [a|]; cbn; [|by case_decide].
  destruct (decide (b ∈ t_dirty s)) as [H|H].
  - rewrite option_guard_True by done. done.
  - by rewrite option_guard_False.
Qed.

(** After the merge, readers see what the operation saw. *)
Lemma mergeCache_view {W} {TW : TrieWorld W} (s : tstate W) d b :
  (forall b, tw_read (t_w s) b = readBlock d b) ->
  (forall b a, t_cache s !! b = Some a -> (a < length (t_heap s))%nat) ->
  (forall b a, t_cache s !! b = Some a -> b ∉ t_dirty s -> t_heap s !! a = tw_read (t_w s) b) ->
  readBlock (mergeCache s d) b = match t_cache s !! b with Some a => t_heap s !! a | None => tw_read (t_w s) b end.
Proof.
  intros Hr Ha Hc. rewrite readBlock_view. cbn. rewrite lookup_union, lookup_dirty_blocks.
  destruct (t_cache s !! b) as [a|] eqn:Ec.
  - case_decide as Hd.
    + cbn. destruct (lookup_lt_is_Some_2 (t_heap s) a) as [buf ->]; [by apply (Ha b)|]. by destruct (d_dirty d !! b).
    + rewrite (Hc b a Ec Hd), Hr, readBlock_view. by destruct (d_dirty d !! b).
  - rewrite Hr, readBlock_view. case_decide; cbn; by destruct (d_dirty d !! b).
Qed.

Lemma FreeRun_spec a first n : rt_ok a -> 0 < first -> is_u64 first -> is_u64 n ->
  exists a', FreeRun a first n = Ret a' /\ rt_ok a' /\ BlockCount (a_pyr a') = BlockCount (a_pyr a) /\
    a_shield a' = a_shield a /\ free_set (a_pyr a') = free_set (a_pyr a) ∪ run_set (a_pyr a) first n.
Proof.
  intros Ha Hf0 Hf Hn. pose proof Ha as (HP & H0 & Hsh). unfold FreeRun. rewrite L0_nonempty by apply HP.
  pose proof (wf_bc _ (wf_shape _ HP)) as Hbc. unfold is_u64 in *.
  destruct (false || (n =? 0) || (BlockCount (a_pyr a) <=? first)) eqn:Eg.
  { exists a. split_and!; try done. apply set_eq. intros i. rewrite elem_of_union, elem_of_run_set.
    rewrite orb_false_l, orb_true_iff, Z.eqb_eq, Z.leb_le in Eg. split; [auto|]. intros [?|?]; [done|lia]. }
  rewrite orb_false_l, orb_false_iff, Z.eqb_neq, Z.leb_gt in Eg. destruct Eg as [Eg1 Eg2].
  rewrite (u64_small (_ - first)) by (unfold is_u64; lia).
  replace (if _ <? n then _ else n) with (Z.min n (BlockCount (a_pyr a) - first))
    by (destruct (Z.ltb_spec (BlockCount (a_pyr a) - first) n); lia).
  set (m := Z.min n _).
  destruct (AllocMarkFreeRun_spec (a_pyr a) first m HP) as (Q & -> & HQ & HbQ & HfQ);
    [unfold is_u64; lia|unfold is_u64; lia|]. cbn [mbind res_bind].
  assert (HQ0 : 0 ∉ free_set Q) by (rewrite HfQ, elem_of_union, elem_of_run_set; intuition lia).
  assert (Hfs : free_set Q = free_set (a_pyr a) ∪ run_set (a_pyr a) first n).
  { rewrite HfQ. apply set_eq. intros i. rewrite !elem_of_union, !elem_of_run_set.
    assert (first <= i < first + m /\ i < BlockCount (a_pyr a) <-> first <= i < first + n /\ i < BlockCount (a_pyr a)) by (unfold m; lia). tauto. }
  eexists. split; [done|]. destruct (0 <? _); split_and!; done.
Qed.

Lemma FreeBlock_spec a rel : rt_ok a -> 0 < rel ->
  exists a', FreeBlock a rel = Ret a' /\ rt_ok a' /\ BlockCount (a_pyr a') = BlockCount (a_pyr a) /\
    free_set (a_pyr a') = free_set (a_pyr a) ∪ (if decide (rel < BlockCount (a_pyr a)) then {[rel]} else ∅).
Proof.
  intros (HP & H0 & Hsh) Hrel. unfold FreeBlock. rewrite L0_nonempty by apply HP.
  destruct (AllocMarkFree_spec (a_pyr a) rel HP) as (Q & -> & HQ & HbQ & HfQ); [lia|]. cbn [mbind res_bind].
  eexists. split; [done|]. assert (0 ∉ free_set Q) by (rewrite HfQ; case_decide; set_solver by lia).
  destruct (bool_decide _); split_and!; done.
Qed.

(** ** What a commit may do *)
Section commit.
Context (start : Z).

Definition pend (d : deferred) : gset Z := list_to_set (run_blocks (d_frees d)).

(** The allocator and the queue of frees are in order. *)
Record good (d : deferred) : Prop := {
  go_rt : rt_ok (d_alloc d);
  go_start : 0 <= start;
  go_end : start + BlockCount (a_pyr (d_alloc d)) < 2 ^ 58;
  go_runs : Extents.runs_ok (d_frees d);
  go_pend : pend d ## free_set (a_pyr (d_alloc d));
  go_range r : r ∈ pend d -> 0 < r < BlockCount (a_pyr (d_alloc d));
}.

(** Committing may free what waits to be freed, and changes no content a reader
    sees. *)
Record commits (disk : Z -> Prop) (d d' : deferred) : Prop := {
  cm_good : good d';
  cm_count : BlockCount (a_pyr (d_alloc d')) = BlockCount (a_pyr (d_alloc d));
  cm_free : free_set (a_pyr (d_alloc d')) ⊆ free_set (a_pyr (d_alloc d)) ∪ pend d;
  cm_pend : pend d' ⊆ pend d;
  cm_read b : disk b -> readBlock d' b = readBlock d b;
}.

Lemma commits_refl disk d : good d -> commits disk d d.
Proof. intros Hd. split; [done|done|set_solver|done|done]. Qed.

Lemma free_runs_spec runs : forall a, rt_ok a -> Extents.runs_ok runs -> BlockCount (a_pyr a) < 2 ^ 58 ->
  (forall i, i ∈ run_blocks runs -> 0 < i < BlockCount (a_pyr a)) ->
  exists a', free_runs a runs = Ret a' /\ rt_ok a' /\ BlockCount (a_pyr a') = BlockCount (a_pyr a) /\
    free_set (a_pyr a') = free_set (a_pyr a) ∪ list_to_set (run_blocks runs).
Proof.
  induction runs as [|r runs IH]; intros a Ha Hok Hbc Hr; cbn [free_runs].
  - exists a. split_and!; try done. unfold run_blocks. cbn. set_solver.
  - apply Forall_cons_1 in Hok as [(H1 & H2 & H3) Hok].
    assert (Hblocks : run_blocks (r :: runs) = seqZ (run_first r) (run_n r) ++ run_blocks runs) by done.
    rewrite Hblocks in *. assert (Hf0 : 0 < run_first r).
    { apply Hr. rewrite elem_of_app, elem_of_seqZ. left. lia. }
    destruct (FreeRun_spec a (run_first r) (run_n r)) as (a1 & -> & Ha1 & Hb1 & _ & Hf1); [done|done|unfold is_u64; lia..|].
    rewrite bind_ret. destruct (IH a1) as (a2 & -> & Ha2 & Hb2 & Hf2); [done|done|lia| |].
    { intros i Hi. rewrite Hb1. apply Hr. rewrite elem_of_app. by right. }
    exists a2. split_and!; [done|done|congruence|]. rewrite Hf2, Hf1, list_to_set_app_L. apply set_eq. intros i.
    rewrite !elem_of_union, elem_of_run_set, !elem_of_list_to_set, elem_of_seqZ.
    assert (run_first r <= i < run_first r + run_n r -> i < BlockCount (a_pyr a)).
    { intros Hi. apply Hr. rewrite elem_of_app, elem_of_seqZ. by left. }
    tauto.
Qed.

Lemma write_blocks_other os disk l b : (forall buf, (b, buf) ∉ l) -> fst (write_blocks os disk l) !! b = disk !! b.
Proof.
  intros Hb. unfold write_blocks. pose proof (write_all_other os ((fun '(b, buf) => (tt, b, buf)) <$> l) disk b) as H.
  destruct (write_all _ _ _) as [disk' e]. apply H. apply Forall_forall. intros [[u b'] buf] Hin. cbn. intros ->.
  apply list_elem_of_fmap in Hin as ([b' buf'] & [= _ -> ->] & Hin). by apply (Hb buf').
Qed.

Lemma write_blocks_ok os disk (snap : gmap Z (list Z)) l disk' : l ≡ₚ map_to_list snap ->
  write_blocks os disk l = (disk', None) -> forall b buf, snap !! b = Some buf -> disk' !! b = Some buf.
Proof.
  intros Hl Hw b buf Hb. unfold write_blocks in Hw.
  destruct (write_all os disk _) as [d' [e|]] eqn:E; [done|]. injection Hw as <-.
  eapply (write_all_image os (fun b => snap !! b) _ disk d') with (lab := tt); [|exact E|].
  - apply Forall_forall. intros [[u b'] buf'] Hin. cbn. apply list_elem_of_fmap in Hin as ([b2 buf2] & [= _ -> ->] & Hin).
    rewrite Hl in Hin. by apply elem_of_map_to_list in Hin.
  - apply list_elem_of_fmap. exists (b, buf). split; [done|]. rewrite Hl. by apply elem_of_map_to_list.
Qed.

Lemma undrained_all snap : undrained snap snap = ∅.
Proof.
  apply map_eq. intros b. rewrite lookup_empty. unfold undrained. apply map_lookup_filter_None.
  right. intros buf Hb Hne. by apply Hne.
Qed.

(** The drain with nothing else running. *)
Lemma SyncMeta_commits os d : good d -> exists d' e, SyncMeta os d = Ret (d', e) /\ commits (fun _ => True) d d' /\
  (e = None -> pend d' = ∅ /\ d_dirty d' = ∅).
Proof.
  intros Hd. pose proof Hd as [A B C D I K]. unfold SyncMeta.
  destruct (free_runs_spec (d_frees d) (d_alloc d) A D ltac:(lia)) as (a' & Ea & Ha' & Hbc & Hf).
  { intros i Hi. apply K. unfold pend. by apply elem_of_list_to_set. }
  assert (Hgood : forall dirty disk, good (mkDeferred dirty [] disk a')).
  { intros dirty disk. split; cbn; try done; [by rewrite Hbc|constructor|unfold pend, run_blocks; cbn; set_solver..]. }
  case_bool_decide as Ed.
  - rewrite Ea, bind_ret. eexists _, None. split; [done|]. split; [|by split].
    split; [apply Hgood|done|cbn; by rewrite Hf|unfold pend, run_blocks; cbn; set_solver|by intros b _].
  - pose proof (write_blocks_other os (d_disk d) (map_to_list (d_dirty d))) as Ho.
    pose proof (write_blocks_ok os (d_disk d) (d_dirty d) (map_to_list (d_dirty d))) as Hok.
    destruct (write_blocks os (d_disk d) (map_to_list (d_dirty d))) as [disk' e]. cbn [fst] in Ho.
    assert (Hother : forall b, d_dirty d !! b = None -> disk' !! b = d_disk d !! b).
    { intros b Hb. apply Ho. intros buf Hin. apply elem_of_map_to_list in Hin. congruence. }
    destruct e as [e|].
    + eexists _, (Some e). split; [done|]. split; [|done]. rewrite app_nil_r. split; cbn; [|done|set_solver|done|].
      * split; cbn; done.
      * intros b _. rewrite !readBlock_view. cbn. destruct (d_dirty d !! b) eqn:Eb; [done|]. by apply Hother.
    + rewrite Ea, bind_ret. eexists _, None. split; [done|]. rewrite undrained_all. split; [|by split].
      split; [apply Hgood|done|cbn; by rewrite Hf|unfold pend, run_blocks; cbn; set_solver|].
      intros b _. rewrite !readBlock_view. cbn. rewrite lookup_empty. destruct (d_dirty d !! b) as [buf|] eqn:Eb.
      * by apply (Hok disk' ltac:(done) eq_refl).
      * by apply Hother.
Qed.

(** A volume with nothing deferred. *)
Lemma fresh_good disk a : rt_ok a -> 0 <= start -> start + BlockCount (a_pyr a) < 2 ^ 58 ->
  good (mkDeferred ∅ [] disk a).
Proof using. intros Ha H0 Hb. split; [done|done|done|constructor|set_solver|set_solver]. Qed.

End commit.
