(* ===== verification/MetaSync.v ===== *)
(** * The drain among concurrent operations (fuse/cache.go, SyncMeta)

    [SyncMeta] takes its snapshot under a lock and then writes, frees and deletes
    without holding the locks of the operations, which go on storing metadata,
    writing data, allocating and freeing blocks.  Here the drain is cut at the
    points where the lock is released, and the operations run between its steps
    in any order.  A ghost map says who owns each block and what its owner last
    put there; the theorems compare it with what readers see. *)

From stdpp Require Import base numbers list option gmap.
From Stdlib Require Import ZArith Lia.
From S2P Require Import Prelude Bits AllocCore Extents Device AllocRuntime AllocRuns MetaCache.

Local Open Scope Z_scope.

#[local] Arguments run_blocks : simpl never.
#[local] Arguments readBlock : simpl never.

Abbreviation blocks := (gmap Z (list Z)).

(** ** Where the drain is *)
Inductive drain_pc :=
| Idle
| Writing (snap : blocks) (todo : list (Z * list Z)) (frees : list blockRun)
| Freeing (snap : option blocks) (runs : list blockRun)
| Deleting (snap : blocks).

(** ** Owners

    A block of metadata is [Fresh] from its allocation to the first store.  A
    write-through leaves it [Torn] from the device write to the update of the
    map, and an operation that armed an inode slot leaves it [Open] until it
    ends.  Data, index and attribute blocks are written to the device at once. *)
Inductive owner :=
| Fresh
| Meta (c : list Z)
| Torn
| Open
| Data (c : option (list Z)).

Definition held (o : owner) : Prop := match o with Meta _ | Torn | Open => True | _ => False end.

Record mstate := mkM { m_d : deferred; m_pc : drain_pc; m_own : gmap Z owner }.

Definition pc_runs (pc : drain_pc) : list blockRun :=
  match pc with Writing _ _ frees => frees | Freeing _ runs => runs | _ => [] end.

(** The snapshot and what is left of it to write. *)
Definition pc_snap (pc : drain_pc) : option (blocks * list (Z * list Z)) :=
  match pc with
  | Writing snap todo _ => Some (snap, todo)
  | Freeing (Some snap) _ | Deleting snap => Some (snap, [])
  | _ => None
  end.

(** From the first free to the deletion, the map may still serve the old content
    of blocks that have been freed. *)
Definition window (pc : drain_pc) (b : Z) (buf : list Z) : Prop :=
  match pc with Freeing (Some snap) _ | Deleting snap => snap !! b = Some buf | _ => False end.

(** The map's new content for [b] is that of the snapshot, byte for byte, while
    the drain neither has it on the device nor is about to. *)
Definition returns (s : mstate) (b : Z) (buf : list Z) : Prop :=
  match pc_snap (m_pc s) with
  | Some (snap, todo) => snap !! b = Some buf /\ ((b, buf) ∉ todo) /\ d_disk (m_d s) !! b <> Some buf
  | None => False
  end.
#[export] Instance returns_dec s b buf : Decision (returns s b buf).
Proof. unfold returns. destruct (pc_snap (m_pc s)) as [[snap todo]|]; apply _. Defined.

Section sync.
Context (start : Z).

(** ** The drain's steps *)
Inductive drain_step : mstate -> mstate -> Prop :=
| D_begin d own todo :
    d_dirty d <> ∅ -> todo ≡ₚ map_to_list (d_dirty d) ->
    drain_step (mkM d Idle own) (mkM (set_frees [] d) (Writing (d_dirty d) todo (d_frees d)) own)
| D_begin_empty d own :
    d_dirty d = ∅ -> drain_step (mkM d Idle own) (mkM (set_frees [] d) (Freeing None (d_frees d)) own)
| D_write d own snap b buf todo frees os disk :
    WriteBlock os (d_disk d) b buf = (disk, None) ->
    drain_step (mkM d (Writing snap ((b, buf) :: todo) frees) own) (mkM (set_disk disk d) (Writing snap todo frees) own)
| D_fail d own snap b buf todo frees os disk e :
    WriteBlock os (d_disk d) b buf = (disk, Some e) ->
    drain_step (mkM d (Writing snap ((b, buf) :: todo) frees) own)
      (mkM (set_frees (frees ++ d_frees d) (set_disk disk d)) Idle own)
| D_written d own snap frees :
    drain_step (mkM d (Writing snap [] frees) own) (mkM d (Freeing (Some snap) frees) own)
| D_free d own snap r runs a :
    FreeRun (d_alloc d) (run_first r) (run_n r) = Ret a ->
    drain_step (mkM d (Freeing snap (r :: runs)) own) (mkM (set_alloc a d) (Freeing snap runs) own)
| D_freed d own snap :
    drain_step (mkM d (Freeing (Some snap) []) own) (mkM d (Deleting snap) own)
| D_freed_empty d own :
    drain_step (mkM d (Freeing None []) own) (mkM d Idle own)
| D_delete d own snap :
    drain_step (mkM d (Deleting snap) own) (mkM (set_dirty (undrained snap (d_dirty d)) d) Idle own).

(** ** The steps of operations *)
Inductive op :=
| Store (b : Z) (buf : list Z)             (* setDirtyBlock *)
| Put (b : Z) (buf : list Z)               (* WriteBlock of a metadata block *)
| PutSlot (b : Z) (off : nat) (data : list Z)  (* WriteBlockSlot *)
| Patch (b : Z) (off : nat) (data : list Z)    (* the slot in the map's copy *)
| Settle (b : Z)                           (* the operation ends without a store *)
| Alloc (data forMeta : bool)
| DataWrite (b : Z) (buf : list Z)
| Defer (b : Z)
| FreeNow (b : Z)
| FreeUndo (b : Z).                        (* FreeBlock on the way out of a failed operation *)

Definition patch (off : nat) (data : list Z) (m : blocks) (b : Z) : blocks :=
  match m !! b with Some cur => <[b := blit off data cur]> m | None => m end.

Inductive op_step : op -> mstate -> mstate -> Prop :=
| O_store d pc own b buf o :
    own !! b = Some o -> held o \/ o = Fresh -> length buf = 4096%nat ->
    op_step (Store b buf) (mkM d pc own) (mkM (setDirtyBlock b buf d) pc (<[b := Meta buf]> own))
| O_put d pc own b buf c os disk :
    own !! b = Some (Meta c) -> WriteBlock os (d_disk d) b buf = (disk, None) ->
    op_step (Put b buf) (mkM d pc own) (mkM (set_disk disk d) pc (<[b := Torn]> own))
| O_put_slot d pc own b off data c :
    own !! b = Some (Meta c) -> (off + length data <= 4096)%nat ->
    op_step (PutSlot b off data) (mkM d pc own)
      (mkM (set_disk (patch off data (d_disk d) b) d) pc (<[b := Torn]> own))
| O_patch d pc own b off data :
    own !! b = Some Torn -> (off + length data <= 4096)%nat ->
    op_step (Patch b off data) (mkM d pc own)
      (mkM (set_dirty (patch off data (d_dirty d) b) d) pc (<[b := Open]> own))
| O_settle d pc own b c :
    own !! b = Some Open -> readBlock d b = Some c ->
    op_step (Settle b) (mkM d pc own) (mkM d pc (<[b := Meta c]> own))
| O_alloc d pc own data forMeta a rel :
    tryAllocBlock (d_alloc d) forMeta = (a, rel) -> rel <> 0 ->
    op_step (Alloc data forMeta) (mkM d pc own)
      (mkM (set_alloc a d) pc (<[start + rel := if data : bool then Data None else Fresh]> own))
| O_data d pc own b buf c os disk :
    own !! b = Some (Data c) -> WriteBlock os (d_disk d) b buf = (disk, None) ->
    op_step (DataWrite b buf) (mkM d pc own) (mkM (set_disk disk d) pc (<[b := Data (Some buf)]> own))
| O_defer d pc own b o :
    own !! b = Some o -> start < b < start + BlockCount (a_pyr (d_alloc d)) ->
    op_step (Defer b) (mkM d pc own) (mkM (deferBlockFree start b d) pc (delete b own))
| O_free_now d pc own b c d' :
    own !! b = Some (Data c) -> start < b < start + BlockCount (a_pyr (d_alloc d)) -> freeBlockNow start b d = Ret d' ->
    op_step (FreeNow b) (mkM d pc own) (mkM d' pc (delete b own))
| O_free_undo d pc own b o a :
    own !! b = Some o -> ~ held o -> start < b < start + BlockCount (a_pyr (d_alloc d)) ->
    FreeBlock (d_alloc d) (u64 (b - start)) = Ret a ->
    op_step (FreeUndo b) (mkM d pc own) (mkM (set_alloc a d) pc (delete b own)).

Inductive step : mstate -> mstate -> Prop :=
| S_drain s s' : drain_step s s' -> step s s'
| S_op l s s' : op_step l s s' -> step s s'.

(** The deletions of the drain compare contents.  [taint] adds a block whose
    entry an operation brings back to the content of the snapshot behind the
    drain; the next store of other content takes it out again. *)
Definition taint (l : op) (s : mstate) (Q : gset Z) : gset Z :=
  match l with
  | Store b buf => if decide (returns s b buf) then {[b]} ∪ Q else Q ∖ {[b]}
  | Patch b off data =>
      match d_dirty (m_d s) !! b with
      | Some cur => if decide (returns s b (blit off data cur)) then {[b]} ∪ Q else Q
      | None => Q
      end
  | _ => Q
  end.

(** The runs from [s0], with the tainted blocks. *)
Inductive run (s0 : mstate) : gset Z -> mstate -> Prop :=
| R_start : run s0 ∅ s0
| R_drain Q s s' : run s0 Q s -> drain_step s s' -> run s0 Q s'
| R_op Q l s s' : run s0 Q s -> op_step l s s' -> run s0 (taint l s Q) s'.

(** ** The invariant *)
Abbreviation rel_in b runs := (b - start ∈ run_blocks runs).

(** [Q] are the tainted blocks. *)
Record inv (Q : gset Z) (s : mstate) : Prop := {
  v_rt : rt_ok (d_alloc (m_d s));
  v_start : 0 <= start;
  v_end : start + BlockCount (a_pyr (d_alloc (m_d s))) < 2 ^ 58;
  v_runs : Extents.runs_ok (pc_runs (m_pc s) ++ d_frees (m_d s));
  v_nodup : NoDup (run_blocks (pc_runs (m_pc s) ++ d_frees (m_d s)));
  v_limbo r : r ∈ run_blocks (pc_runs (m_pc s) ++ d_frees (m_d s)) ->
    0 < r < BlockCount (a_pyr (d_alloc (m_d s))) /\ r ∉ free_set (a_pyr (d_alloc (m_d s)));
  v_own b o : m_own s !! b = Some o ->
    (b - start ∉ free_set (a_pyr (d_alloc (m_d s)))) /\ ~ rel_in b (pc_runs (m_pc s) ++ d_frees (m_d s));
  v_meta b c : b ∉ Q -> m_own s !! b = Some (Meta c) -> readBlock (m_d s) b = Some c;
  v_data b c : m_own s !! b = Some (Data (Some c)) -> d_disk (m_d s) !! b = Some c;
  (* the entries of the map *)
  v_stale b buf : d_dirty (m_d s) !! b = Some buf ->
    (exists o, m_own s !! b = Some o /\ held o) \/ rel_in b (pc_runs (m_pc s) ++ d_frees (m_d s)) \/
    window (m_pc s) b buf;
  v_len b buf : d_dirty (m_d s) !! b = Some buf -> length buf = 4096%nat;
  (* the snapshot *)
  v_written snap todo b buf : b ∉ Q -> pc_snap (m_pc s) = Some (snap, todo) -> snap !! b = Some buf ->
    d_dirty (m_d s) !! b = Some buf -> m_own s !! b = Some (Meta buf) \/ m_own s !! b = Some Open ->
    (b, buf) ∈ todo \/ d_disk (m_d s) !! b = Some buf;
  v_todo snap todo b buf : pc_snap (m_pc s) = Some (snap, todo) -> (b, buf) ∈ todo ->
    snap !! b = Some buf /\ length buf = 4096%nat;
  v_snap snap todo frees b buf : m_pc s = Writing snap todo frees -> snap !! b = Some buf ->
    is_Some (d_dirty (m_d s) !! b) /\
    ((exists o, m_own s !! b = Some o /\ held o) \/ rel_in b (frees ++ d_frees (m_d s)));
  v_same b buf : rel_in b (pc_runs (m_pc s)) -> d_dirty (m_d s) !! b = Some buf ->
    exists snap todo, pc_snap (m_pc s) = Some (snap, todo) /\ snap !! b = Some buf;
}.

(** ** The drain keeps it *)
Lemma inv_begin Q d own todo : inv Q (mkM d Idle own) -> todo ≡ₚ map_to_list (d_dirty d) ->
  inv Q (mkM (set_frees [] d) (Writing (d_dirty d) todo (d_frees d)) own).
Proof using.
  intros [A B C R N L O M K St Ln Wr Td Sn Sm] Hp. cbn in *. split; cbn; rewrite ?app_nil_r; try done.
  - intros snap t b buf _ [= <- <-] _ Hb _. left. rewrite Hp. by apply elem_of_map_to_list.
  - intros snap t b buf [= <- <-] Hb. rewrite Hp in Hb. apply elem_of_map_to_list in Hb. eauto.
  - intros snap t frees b buf [= <- <- <-] Hb. rewrite app_nil_r. split; [done|]. destruct (St b buf Hb) as [?|[?|[]]]; auto.
  - intros b buf _ Hb. eauto.
Qed.

Lemma inv_begin_empty Q d own : inv Q (mkM d Idle own) -> d_dirty d = ∅ ->
  inv Q (mkM (set_frees [] d) (Freeing None (d_frees d)) own).
Proof using.
  intros [A B C R N L O M K St Ln Wr Td Sn Sm] Hd. cbn in *.
  split; cbn; rewrite ?app_nil_r; try done; intros b buf; rewrite Hd; [by intros ?%lookup_empty_Some..|].
  by intros _ ?%lookup_empty_Some.
Qed.

Lemma WriteBlock_done os disk b buf disk' : WriteBlock os disk b buf = (disk', None) ->
  disk' = <[b := buf]> disk /\ length buf = 4096%nat.
Proof using. unfold WriteBlock. destruct (negb _) eqn:E; [done|]. case_match; [done|]. intros [= <-]. split; [done|]. unfold BlockSize in E. lia. Qed.

(** A change of the device at [b] is seen only there, and not when the map has
    the block. *)
Lemma readBlock_disk d b disk b' : (forall m, m <> b -> disk !! m = d_disk d !! m) ->
  b' <> b \/ is_Some (d_dirty d !! b') -> readBlock (set_disk disk d) b' = readBlock d b'.
Proof using.
  intros Hd Hb. rewrite !readBlock_view. cbn. destruct (d_dirty d !! b') eqn:E; [done|].
  destruct Hb as [Hb|[? ?]]; [by apply Hd|done].
Qed.

Lemma inv_write Q d own snap b buf todo frees disk : inv Q (mkM d (Writing snap ((b, buf) :: todo) frees) own) ->
  disk = <[b := buf]> (d_disk d) -> inv Q (mkM (set_disk disk d) (Writing snap todo frees) own).
Proof using.
  intros [A B C R N L O M K St Ln Wr Td Sn Sm] ->. cbn in *.
  assert (Hb : snap !! b = Some buf) by (apply (Td snap _ b buf eq_refl); by left).
  destruct (Sn snap _ frees b buf eq_refl Hb) as [Hd Hown].
  assert (Hnd : forall c, own !! b <> Some (Data c)).
  { intros c Hc. destruct Hown as [(o & Ho & Hh)|Hl]; [rewrite Hc in Ho; by injection Ho as <-|by apply (O b _ Hc)]. }
  split; cbn; try done.
  - intros b' c HQ Hc. rewrite (readBlock_disk d b); [by apply M|intros m Hm; by apply lookup_insert_ne|].
    destruct (decide (b' = b)) as [->|]; auto.
  - intros b' c Hc. rewrite lookup_insert_ne; [by apply K|]. intros <-. by apply (Hnd (Some c)).
  - intros snap' t b' buf' HQ [= <- <-] Hs Hdb Ho. destruct (decide (b' = b)) as [->|Hne].
    + right. rewrite lookup_insert_eq. congruence.
    + rewrite lookup_insert_ne by done. destruct (Wr snap _ b' buf' HQ eq_refl Hs Hdb Ho) as [Hin|?]; [|auto].
      apply elem_of_cons in Hin as [[= -> _]|?]; [done|auto].
  - intros snap' t b' buf' [= <- <-] Hin. apply (Td snap _ b' buf' eq_refl). by right.
  - intros snap' t f b' buf' [= <- <- <-] Hs. by apply (Sn snap _ frees b' buf' eq_refl).
  - intros b' buf' Hr Hb'. destruct (Sm b' buf' Hr Hb') as (? & ? & [= <- <-] & ?). eauto.
Qed.

Lemma inv_fail Q d own snap b buf todo frees disk : inv Q (mkM d (Writing snap ((b, buf) :: todo) frees) own) ->
  (forall m, m <> b -> disk !! m = d_disk d !! m) ->
  inv Q (mkM (set_frees (frees ++ d_frees d) (set_disk disk d)) Idle own).
Proof using.
  intros [A B C R N L O M K St Ln Wr Td Sn Sm] Hdisk. cbn in *.
  assert (Hb : snap !! b = Some buf) by (apply (Td snap _ b buf eq_refl); by left).
  destruct (Sn snap _ frees b buf eq_refl Hb) as [Hd Hown].
  split; cbn; try done.
  - intros b' c HQ Hc. change (readBlock (set_disk disk d) b' = Some c).
    rewrite (readBlock_disk d b disk); [by apply M|done|]. destruct (decide (b' = b)) as [->|]; auto.
  - intros b' c Hc. rewrite Hdisk; [by apply K|]. intros ->.
    destruct Hown as [(o & Ho & Hh)|Hl]; [rewrite Hc in Ho; by injection Ho as <-|by apply (O b _ Hc)].
  - intros b' buf' Hr. by apply elem_of_nil in Hr.
Qed.

Lemma inv_written Q d own snap frees : inv Q (mkM d (Writing snap [] frees) own) -> inv Q (mkM d (Freeing (Some snap) frees) own).
Proof using.
  intros [A B C R N L O M K St Ln Wr Td Sn Sm]. cbn in *. split; cbn; try done.
  intros b buf Hb. destruct (St b buf Hb) as [?|[?|[]]]; auto.
Qed.

Lemma inv_free Q d own snap r runs a : inv Q (mkM d (Freeing snap (r :: runs)) own) ->
  FreeRun (d_alloc d) (run_first r) (run_n r) = Ret a -> inv Q (mkM (set_alloc a d) (Freeing snap runs) own).
Proof using.
  intros [A B C R N L O M K St Ln Wr Td Sn Sm] E. cbn in *. apply Forall_cons_1 in R as [(R1 & R2 & R3) R].
  assert (Hrb : run_blocks (r :: runs ++ d_frees d) = seqZ (run_first r) (run_n r) ++ run_blocks (runs ++ d_frees d)) by done.
  rewrite Hrb in *. apply NoDup_app in N as (_ & N1 & N2).
  assert (Hr0 : forall i, run_first r <= i < run_first r + run_n r -> 0 < i < BlockCount (a_pyr (d_alloc d))).
  { intros i Hi. apply L. rewrite elem_of_app, elem_of_seqZ. by left. }
  destruct (FreeRun_spec (d_alloc d) (run_first r) (run_n r)) as (a' & E' & Ha & Hbc & _ & Hf); [done|apply Hr0; lia|unfold is_u64; lia..|].
  rewrite E in E'. injection E' as <-.
  assert (Hin : forall i, i ∈ run_set (a_pyr (d_alloc d)) (run_first r) (run_n r) -> i ∈ seqZ (run_first r) (run_n r)).
  { intros i Hi%elem_of_run_set. rewrite elem_of_seqZ. lia. }
  split; cbn; rewrite ?Hbc, ?Hf; try done.
  - intros i Hi. destruct (L i) as [L1 L2]; [rewrite elem_of_app; by right|]. split; [done|].
    rewrite elem_of_union. intros [?|Hi']; [done|]. by apply (N1 i (Hin i Hi')).
  - intros b o Ho. destruct (O b o Ho) as [O1 O2]. rewrite elem_of_app in O2.
    split; [|tauto]. rewrite elem_of_union. intros [?|Hi']; [done|]. apply O2. left. by apply Hin.
  - intros b buf Hb. destruct (St b buf Hb) as [?|[Hl|?]]; [auto| |auto]. rewrite elem_of_app in Hl.
    destruct Hl as [Hl|?]; [|auto]. right. right. destruct (Sm b buf) as (sn & t & Es & Hs); [|done|].
    { change (run_blocks (r :: runs)) with (seqZ (run_first r) (run_n r) ++ run_blocks runs). rewrite elem_of_app. by left. }
    destruct snap; [by injection Es as <- <-|done].
  - intros b buf Hr Hb. apply (Sm b buf); [|done].
    change (run_blocks (r :: runs)) with (seqZ (run_first r) (run_n r) ++ run_blocks runs). rewrite elem_of_app. by right.
Qed.

Lemma inv_freed Q d own snap : inv Q (mkM d (Freeing (Some snap) []) own) -> inv Q (mkM d (Deleting snap) own).
Proof using. intros [A B C R N L O M K St Ln Wr Td Sn Sm]. cbn in *. by split; cbn. Qed.

Lemma inv_freed_empty Q d own : inv Q (mkM d (Freeing None []) own) -> inv Q (mkM d Idle own).
Proof using. intros [A B C R N L O M K St Ln Wr Td Sn Sm]. cbn in *. by split; cbn. Qed.

Lemma lookup_undrained (snap m : blocks) b : undrained snap m !! b =
  match m !! b with Some buf => if decide (snap !! b = Some buf) then None else Some buf | None => None end.
Proof using.
  unfold undrained. rewrite map_lookup_filter. destruct (m !! b) as [buf|]; [|done]. cbn.
  destruct (decide (snap !! b = Some buf)) as [E|E]; [rewrite option_guard_False by tauto|rewrite option_guard_True by done]; done.
Qed.

Lemma inv_delete Q d own snap : inv Q (mkM d (Deleting snap) own) ->
  inv Q (mkM (set_dirty (undrained snap (d_dirty d)) d) Idle own).
Proof using.
  intros [A B C R N L O M K St Ln Wr Td Sn Sm]. cbn in *. split; cbn; try done.
  - intros b c HQ Hc. specialize (M b c HQ Hc). rewrite readBlock_view in *. cbn. rewrite lookup_undrained.
    destruct (d_dirty d !! b) as [buf|] eqn:Eb; [|done]. injection M as ->. case_decide as Es; [|done].
    destruct (Wr snap [] b c HQ eq_refl Es Eb) as [Hin|?]; [by left|by apply elem_of_nil in Hin|done].
  - intros b buf Hb. rewrite lookup_undrained in Hb. destruct (d_dirty d !! b) as [buf'|] eqn:Eb; [|done].
    case_decide as Es; [done|]. injection Hb as ->. destruct (St b buf Eb) as [?|[?|?]]; [auto..|done].
  - intros b buf Hb. rewrite lookup_undrained in Hb. destruct (d_dirty d !! b) as [buf'|] eqn:Eb; [|done].
    case_decide; [done|]. injection Hb as ->. by apply (Ln b).
  - intros b buf Hr. by apply elem_of_nil in Hr.
Qed.

Lemma inv_drain Q s s' : inv Q s -> drain_step s s' -> inv Q s'.
Proof using.
  intros Hi Hs. destruct Hs as [| |? ? ? ? ? ? ? ? ? E|? ? ? ? ? ? ? os ? ? E| | | | |].
  - by apply inv_begin.
  - by apply inv_begin_empty.
  - apply WriteBlock_done in E as [-> _]. by eapply inv_write.
  - eapply inv_fail; [done|]. intros m Hm. pose proof (WriteBlock_other os (d_disk d) b buf m Hm) as H. by rewrite E in H.
  - by apply inv_written.
  - by eapply inv_free.
  - by apply inv_freed.
  - by apply inv_freed_empty.
  - by apply inv_delete.
Qed.

(** ** Operations keep it *)
Lemma held_insert (own : gmap Z owner) b b' o : held o ->
  (exists o, own !! b' = Some o /\ held o) -> exists o', <[b := o]> own !! b' = Some o' /\ held o'.
Proof using.
  intros Ho Hb. destruct (decide (b' = b)) as [->|Hne]; [rewrite lookup_insert_eq; eauto|by rewrite lookup_insert_ne].
Qed.

Lemma returns_not snap todo s b buf : ~ returns s b buf -> pc_snap (m_pc s) = Some (snap, todo) -> snap !! b = Some buf ->
  (b, buf) ∈ todo \/ d_disk (m_d s) !! b = Some buf.
Proof using.
  unfold returns. intros Hn Ep Hs. rewrite Ep in Hn. destruct (decide ((b, buf) ∈ todo)); [by left|].
  destruct (decide (d_disk (m_d s) !! b = Some buf)); [by right|]. by destruct Hn.
Qed.

(** A store or a patch of [b] may change whether [b] is tainted, nothing else. *)
Lemma inv_store Q Q' d pc own b buf o : inv Q (mkM d pc own) -> own !! b = Some o -> held o \/ o = Fresh ->
  length buf = 4096%nat -> (forall b', b' <> b -> b' ∉ Q' -> b' ∉ Q) -> (b ∉ Q' -> ~ returns (mkM d pc own) b buf) ->
  inv Q' (mkM (setDirtyBlock b buf d) pc (<[b := Meta buf]> own)).
Proof using.
  intros [A B C R N L O M K St Ln Wr Td Sn Sm] Ho Hh Hl HQ' Hnr. cbn in *. destruct (O b o Ho) as [O1 O2].
  split; cbn; try done.
  - intros b' o' Hb'. destruct (decide (b' = b)) as [->|Hne]; [done|]. rewrite lookup_insert_ne in Hb' by done. by apply (O b' o').
  - intros b' c HQ Hc. rewrite readBlock_set. case_decide as E; [subst; rewrite lookup_insert_eq in Hc; by injection Hc as ->|].
    rewrite lookup_insert_ne in Hc by done. apply M; auto.
  - intros b' c Hc. destruct (decide (b' = b)) as [->|Hne]; [by rewrite lookup_insert_eq in Hc|].
    rewrite lookup_insert_ne in Hc by done. by apply K.
  - intros b' buf' Hb'. destruct (decide (b' = b)) as [->|Hne]; [left; eexists; by rewrite lookup_insert_eq|].
    rewrite !lookup_insert_ne in * by done. by apply St.
  - intros b' buf' Hb'. destruct (decide (b' = b)) as [->|Hne]; [rewrite lookup_insert_eq in Hb'; by injection Hb' as <-|].
    rewrite lookup_insert_ne in Hb' by done. by apply (Ln b').
  - intros snap t b' buf' HQ Ep Hs Hd Hown. destruct (decide (b' = b)) as [->|Hne].
    + rewrite lookup_insert_eq in Hd. injection Hd as <-. by apply (returns_not snap t (mkM d pc own)); auto.
    + rewrite !lookup_insert_ne in * by done. apply (Wr snap t); auto.
  - intros snap t f b' buf' -> Hs. destruct (Sn snap t f b' buf' eq_refl Hs) as [H1 H2]. split.
    + destruct (decide (b' = b)) as [->|Hne]; [rewrite lookup_insert_eq; eauto|by rewrite lookup_insert_ne].
    + destruct H2 as [H2|?]; [left; by apply held_insert|auto].
  - intros b' buf' Hr Hb'. rewrite lookup_insert_ne in Hb'; [by apply Sm|].
    intros <-. apply O2. rewrite run_blocks_app, elem_of_app. by left.
Qed.

(** The device write of a write-through. *)
Lemma inv_put Q d pc own b c disk : inv Q (mkM d pc own) -> own !! b = Some (Meta c) ->
  (forall m, m <> b -> disk !! m = d_disk d !! m) -> inv Q (mkM (set_disk disk d) pc (<[b := Torn]> own)).
Proof using.
  intros [A B C R N L O M K St Ln Wr Td Sn Sm] Ho Hdisk. cbn in *.
  assert (Hown : forall b' o', <[b := Torn]> own !! b' = Some o' -> b' = b /\ o' = Torn \/ b' <> b /\ own !! b' = Some o').
  { intros b' o' [[-> <-]|[? ?]]%lookup_insert_Some; auto. }
  split; cbn; try done.
  - intros b' o' Hb'. destruct (Hown b' o' Hb') as [[-> ->]|[_ ?]]; by eapply O.
  - intros b' c' HQ Hb'. destruct (Hown b' _ Hb') as [[_ ?]|[? ?]]; [done|].
    rewrite (readBlock_disk d b); [by apply M|done|by left].
  - intros b' c' Hb'. destruct (Hown b' _ Hb') as [[_ ?]|[? ?]]; [done|]. rewrite Hdisk by done. by apply K.
  - intros b' buf' Hb'. destruct (St b' buf' Hb') as [?|?]; [left; by apply held_insert|auto].
  - intros snap t b' buf' HQ Ep Hs Hd Hb'.
    assert (b' <> b /\ (own !! b' = Some (Meta buf') \/ own !! b' = Some Open)) as [Hne Hb2].
    { destruct Hb' as [Hb'|Hb']; destruct (Hown b' _ Hb') as [[_ ?]|[? ?]]; done || auto. }
    rewrite Hdisk by done. by apply (Wr snap t).
  - intros snap t f b' buf' -> Hs. destruct (Sn snap t f b' buf' eq_refl Hs) as [H1 H2]. split; [done|].
    destruct H2 as [H2|?]; [left; by apply held_insert|auto].
Qed.

Lemma length_blit_4096 off (data buf : list Z) : (off + length data <= 4096)%nat -> length buf = 4096%nat ->
  length (blit off data buf) = 4096%nat.
Proof using. intros H1 H2. rewrite length_blit; lia. Qed.

Lemma inv_patch Q Q' d pc own b off data : inv Q (mkM d pc own) -> own !! b = Some Torn ->
  (off + length data <= 4096)%nat ->
  (forall b', b' <> b -> b' ∉ Q' -> b' ∉ Q) ->
  (forall buf, b ∉ Q' -> d_dirty d !! b = Some buf -> ~ returns (mkM d pc own) b (blit off data buf)) ->
  inv Q' (mkM (set_dirty (patch off data (d_dirty d) b) d) pc (<[b := Open]> own)).
Proof using.
  intros [A B C R N L O M K St Ln Wr Td Sn Sm] Ho Hoff HQ' Hnr. cbn in *. destruct (O b _ Ho) as [O1 O2].
  assert (Hd : forall b' buf', patch off data (d_dirty d) b !! b' = Some buf' ->
    b' = b /\ (exists buf, d_dirty d !! b = Some buf /\ buf' = blit off data buf) \/ b' <> b /\ d_dirty d !! b' = Some buf').
  { intros b' buf'. unfold patch. destruct (d_dirty d !! b) as [cur|] eqn:Eb.
    - intros [[-> <-]|[? ?]]%lookup_insert_Some; eauto.
    - intros Hb'. right. split; [congruence|done]. }
  assert (Hother : forall b', b' <> b -> patch off data (d_dirty d) b !! b' = d_dirty d !! b').
  { intros b' Hne. unfold patch. case_match; [by rewrite lookup_insert_ne|done]. }
  split; cbn; try done.
  - intros b' o' [[<- <-]|[? ?]]%lookup_insert_Some; by eapply O.
  - intros b' c' HQ [[_ ?]|[Hne Hb']]%lookup_insert_Some; [done|]. specialize (M b' c' (HQ' b' (not_eq_sym Hne) HQ) Hb'). rewrite readBlock_view in *. cbn.
    by rewrite Hother.
  - intros b' c' [[_ ?]|[? ?]]%lookup_insert_Some; [done|by apply K].
  - intros b' buf' Hb'. destruct (Hd b' buf' Hb') as [[-> _]|[Hne Hb2]]; [left; eexists; by rewrite lookup_insert_eq|].
    destruct (St b' buf' Hb2) as [?|?]; [left; by apply held_insert|auto].
  - intros b' buf' Hb'. destruct (Hd b' buf' Hb') as [[-> (cur & Hc & ->)]|[_ ?]]; [|by eapply Ln].
    apply length_blit_4096; [done|by eapply Ln].
  - intros snap t b' buf' HQ Ep Hs Hb' Hown. destruct (Hd b' buf' Hb') as [[-> (cur & Hc & ->)]|[Hne Hb2]].
    + by apply (returns_not snap t (mkM d pc own)); auto.
    + rewrite !lookup_insert_ne in Hown by done. apply (Wr snap t); auto.
  - intros snap t f b' buf' -> Hs. destruct (Sn snap t f b' buf' eq_refl Hs) as [H1 H2]. split.
    + destruct (decide (b' = b)) as [->|Hne]; [|by rewrite Hother]. unfold patch. destruct H1 as [cur ->].
      by rewrite lookup_insert_eq.
    + destruct H2 as [H2|?]; [left; by apply held_insert|auto].
  - intros b' buf' Hr Hb'. destruct (Hd b' buf' Hb') as [[-> _]|[_ ?]]; [|by apply Sm].
    destruct O2. rewrite run_blocks_app, elem_of_app. by left.
Qed.

Lemma inv_settle Q d pc own b c : inv Q (mkM d pc own) -> own !! b = Some Open -> readBlock d b = Some c ->
  inv Q (mkM d pc (<[b := Meta c]> own)).
Proof using.
  intros [A B C R N L O M K St Ln Wr Td Sn Sm] Ho Hc. cbn in *. split; cbn; try done.
  - intros b' o' [[<- <-]|[? ?]]%lookup_insert_Some; by eapply O.
  - intros b' c' HQ [[<- [= <-]]|[Hne Hb']]%lookup_insert_Some; [done|by apply M].
  - intros b' c' [[_ ?]|[? ?]]%lookup_insert_Some; [done|by apply K].
  - intros b' buf' Hb'. destruct (St b' buf' Hb') as [?|?]; [left; by apply held_insert|auto].
  - intros snap t b' buf' HQ Ep Hs Hb' Hown. apply (Wr snap t b' buf'); try done.
    destruct (decide (b' = b)) as [->|Hne]; [auto|by rewrite !lookup_insert_ne in Hown by done].
  - intros snap t f b' buf' -> Hs. destruct (Sn snap t f b' buf' eq_refl Hs) as [H1 H2]. split; [done|].
    destruct H2 as [H2|?]; [left; by apply held_insert|auto].
Qed.

(** Blocks that are not held change hands. *)
Lemma inv_alloc Q d pc own (data forMeta : bool) a rel : inv Q (mkM d pc own) ->
  tryAllocBlock (d_alloc d) forMeta = (a, rel) -> rel <> 0 ->
  inv Q (mkM (set_alloc a d) pc (<[start + rel := if data then Data None else Fresh]> own)).
Proof using.
  intros [A B C R N L O M K St Ln Wr Td Sn Sm] E Hrel. cbn in *.
  destruct (tryAllocBlock_spec (d_alloc d) forMeta A) as [[_ E']|(_ & a' & r & E' & [Hl _] & _ & Ht & _)];
    rewrite E in E'; injection E' as -> ->; [done|]. destruct Ht as (HQ & HbQ & HfQ & HsQ).
  set (o := if data then Data None else Fresh). assert (Hno : own !! (start + r) = None).
  { destruct (own !! (start + r)) as [o'|] eqn:Eo; [|done]. destruct (O _ _ Eo) as [[] _].
    by replace (start + r - start) with r by lia. }
  assert (Hheld : forall b, (exists o, own !! b = Some o /\ held o) -> exists o', <[start + r := o]> own !! b = Some o' /\ held o').
  { intros b (o' & Ho' & Hh). exists o'. rewrite lookup_insert_ne by congruence. done. }
  assert (Hget : forall b o', <[start + r := o]> own !! b = Some o' -> (o' = Fresh \/ o' = Data None) \/ own !! b = Some o').
  { intros b o' [[_ <-]|[_ ?]]%lookup_insert_Some; [|auto]. unfold o. destruct data; auto. }
  split; cbn; rewrite ?HfQ, ?HbQ; try done.
  - destruct A as (A1 & A2 & A3). split_and!; [done|by rewrite HfQ, elem_of_difference; intros [? _]|by rewrite HsQ].
  - intros i Hi. destruct (L i Hi) as [L1 L2]. split; [done|by rewrite elem_of_difference; intros [? _]].
  - intros b o' [[<- _]|[Hne Hb]]%lookup_insert_Some.
    + replace (start + r - start) with r by lia. split; [by rewrite elem_of_difference, elem_of_singleton; intros [_ []]|]. intros Hi. by apply (L r Hi).
    + destruct (O b o' Hb). split; [by rewrite elem_of_difference; intros [? _]|done].
  - intros b c HQt Hb. destruct (Hget b _ Hb) as [[?|?]|?]; [done..|by apply M].
  - intros b c Hb. destruct (Hget b _ Hb) as [[?|?]|?]; [done..|by apply K].
  - intros b buf Hb. destruct (St b buf Hb) as [?|?]; auto.
  - intros snap t b buf HQt Ep Hs Hb Hown. apply (Wr snap t); try done.
    destruct Hown as [Hown|Hown]; destruct (Hget b _ Hown) as [[?|?]|?]; done || auto.
  - intros snap t f b buf -> Hs. destruct (Sn snap t f b buf eq_refl Hs) as [H1 H2]. split; [done|].
    destruct H2 as [?|?]; auto.
Qed.

Lemma inv_data_write Q d pc own b c buf : inv Q (mkM d pc own) -> own !! b = Some (Data c) ->
  inv Q (mkM (set_disk (<[b := buf]> (d_disk d)) d) pc (<[b := Data (Some buf)]> own)).
Proof using.
  intros [A B C R N L O M K St Ln Wr Td Sn Sm] Ho. cbn in *.
  assert (Hheld : forall b', (exists o, own !! b' = Some o /\ held o) -> exists o', <[b := Data (Some buf)]> own !! b' = Some o' /\ held o').
  { intros b' (o' & Ho' & Hh). exists o'. split; [|done]. rewrite lookup_insert_ne; [done|]. intros <-. rewrite Ho in Ho'. by injection Ho' as <-. }
  split; cbn; try done.
  - intros b' o' [[<- <-]|[? ?]]%lookup_insert_Some; by eapply O.
  - intros b' c' HQ [[_ ?]|[Hne Hb']]%lookup_insert_Some; [done|].
    rewrite (readBlock_disk d b); [by apply M|intros m Hm; by apply lookup_insert_ne|by left].
  - intros b' c' [[<- [= <-]]|[Hne Hb']]%lookup_insert_Some; [by rewrite lookup_insert_eq|].
    rewrite lookup_insert_ne by done. by apply K.
  - intros b' buf' Hb'. destruct (St b' buf' Hb') as [?|?]; auto.
  - intros snap t b' buf' HQ Ep Hs Hb' Hown. assert (b' <> b) as Hne.
    { intros ->. rewrite lookup_insert_eq in Hown. by destruct Hown. }
    rewrite !lookup_insert_ne in * by done. by apply (Wr snap t).
  - intros snap t f b' buf' -> Hs. destruct (Sn snap t f b' buf' eq_refl Hs) as [H1 H2]. split; [done|].
    destruct H2 as [?|?]; auto.
Qed.

Lemma inv_defer Q d pc own b o : inv Q (mkM d pc own) -> own !! b = Some o ->
  start < b < start + BlockCount (a_pyr (d_alloc d)) -> inv Q (mkM (deferBlockFree start b d) pc (delete b own)).
Proof using.
  intros [A B C R N L O M K St Ln Wr Td Sn Sm] Ho Hb. cbn in *. destruct (O b o Ho) as [O1 O2].
  unfold deferBlockFree, deferBlockFreeRun. rewrite u64_small by (unfold is_u64; lia).
  apply Forall_app in R as [R1 R2].
  destruct (addRun_spec (d_frees d) (b - start) 1 R2) as [Hok Hbl]; [lia..|].
  set (fr := addRun (d_frees d) (b - start) 1) in *. clearbody fr.
  assert (Hall : run_blocks (pc_runs pc ++ fr) = run_blocks (pc_runs pc ++ d_frees d) ++ [b - start]).
  { rewrite !run_blocks_app, Hbl, <- app_assoc. by do 2 f_equal. }
  assert (Hlim : forall b', rel_in b' (pc_runs pc ++ fr) <-> rel_in b' (pc_runs pc ++ d_frees d) \/ b' = b).
  { intros b'. rewrite Hall, elem_of_app, list_elem_of_singleton. split; (intros [?|?]; [auto|right; lia]). }
  assert (Hheld : forall b', (exists o, own !! b' = Some o /\ held o) \/ rel_in b' (pc_runs pc ++ d_frees d) ->
    (exists o', delete b own !! b' = Some o' /\ held o') \/ rel_in b' (pc_runs pc ++ fr)).
  { intros b' [(o' & Ho' & Hh)|?]; rewrite Hlim; [|auto]. destruct (decide (b' = b)) as [->|Hne]; [auto|].
    left. exists o'. by rewrite lookup_delete_ne. }
  split; cbn; try done.
  - apply Forall_app. by split.
  - rewrite Hall. apply NoDup_app. split_and!; [done| |by apply NoDup_singleton].
    intros i Hi ->%list_elem_of_singleton. done.
  - intros r. rewrite Hall, elem_of_app, list_elem_of_singleton. intros [Hr| ->]; [by apply L|]. split; [lia|done].
  - intros b' o' [Hne Hb']%lookup_delete_Some. destruct (O b' o' Hb'). split; [done|]. rewrite Hlim. naive_solver.
  - intros b' c HQ [_ ?]%lookup_delete_Some. by apply M.
  - intros b' c [_ ?]%lookup_delete_Some. by apply K.
  - intros b' buf Hb'. destruct (St b' buf Hb') as [?|[?|?]]; [destruct (Hheld b'); auto..|auto].
  - intros snap t b' buf HQ Ep Hs Hd Hown. apply (Wr snap t); try done.
    destruct Hown as [[_ ?]%lookup_delete_Some|[_ ?]%lookup_delete_Some]; auto.
  - intros snap t f b' buf -> Hs. destruct (Sn snap t f b' buf eq_refl Hs) as [H1 H2]. split; [done|]. by apply Hheld.
Qed.

(** A block that is not held goes straight back to the allocator; the entry that
    the map may still have for it goes at the drain's last step. *)
Lemma inv_free_undo Q d pc own b o a : inv Q (mkM d pc own) -> own !! b = Some o -> ~ held o ->
  start < b < start + BlockCount (a_pyr (d_alloc d)) -> FreeBlock (d_alloc d) (u64 (b - start)) = Ret a ->
  inv Q (mkM (set_alloc a d) pc (delete b own)).
Proof using.
  intros [A B C R N L O M K St Ln Wr Td Sn Sm] Ho Hh Hb E. cbn in *. destruct (O b o Ho) as [O1 O2].
  rewrite u64_small in E by (unfold is_u64; lia).
  destruct (FreeBlock_spec (d_alloc d) (b - start)) as (a' & E' & Ha & Hbc & Hf); [done|lia|].
  rewrite E in E'. injection E' as <-. rewrite decide_True in Hf by lia.
  assert (Hheld : forall b', (exists o, own !! b' = Some o /\ held o) -> exists o', delete b own !! b' = Some o' /\ held o').
  { intros b' (o' & Ho' & Hh'). exists o'. split; [|done]. rewrite lookup_delete_ne; [done|congruence]. }
  split; cbn; rewrite ?Hf, ?Hbc; try done.
  - intros r Hr. destruct (L r Hr) as [L1 L2]. split; [done|]. rewrite elem_of_union, elem_of_singleton. intros [?| ->]; done.
  - intros b' o' [Hne Hb']%lookup_delete_Some. destruct (O b' o' Hb') as [H1 H2]. split; [|done].
    rewrite elem_of_union, elem_of_singleton. intros [?|?]; [done|lia].
  - intros b' c HQ [_ ?]%lookup_delete_Some. by apply M.
  - intros b' c [_ ?]%lookup_delete_Some. by apply K.
  - intros b' buf Hb'. destruct (St b' buf Hb') as [?|?]; auto.
  - intros snap t b' buf HQ Ep Hs Hd Hown. apply (Wr snap t); try done.
    destruct Hown as [[_ ?]%lookup_delete_Some|[_ ?]%lookup_delete_Some]; auto.
  - intros snap t f b' buf -> Hs. destruct (Sn snap t f b' buf eq_refl Hs) as [H1 H2]. split; [done|].
    destruct H2 as [?|?]; auto.
Qed.

Lemma inv_free_now Q d pc own b c d' : inv Q (mkM d pc own) -> own !! b = Some (Data c) ->
  start < b < start + BlockCount (a_pyr (d_alloc d)) -> freeBlockNow start b d = Ret d' ->
  inv Q (mkM d' pc (delete b own)).
Proof using.
  unfold freeBlockNow. intros Hi Ho Hb E. destruct (FreeBlock _ _) as [a|?|] eqn:E1; [|done..]. injection E as <-. rename E1 into E.
  destruct (inv_free_undo Q d pc own b _ a Hi Ho (fun H => H) Hb E) as [A B C R N L O M K St Ln Wr Td Sn Sm].
  destruct Hi as [_ _ _ _ _ _ O0 _ _ _ _ _ _ Sn0 _]. cbn in *.
  split; cbn; try done.
  - intros b' c' HQ [Hne Hb']%lookup_delete_Some. specialize (M b' c' HQ). rewrite readBlock_view in *. cbn in *.
    rewrite !lookup_delete_ne in * by done. by apply M.
  - intros b' buf [_ ?]%lookup_delete_Some. by apply St.
  - intros b' buf [_ ?]%lookup_delete_Some. by eapply Ln.
  - intros snap t b' buf HQ Ep Hs [_ ?]%lookup_delete_Some Hown. by apply (Wr snap t).
  - intros snap t f b' buf -> Hs. destruct (Sn snap t f b' buf eq_refl Hs) as [H1 H2]. split; [|done].
    rewrite lookup_delete_ne; [done|]. intros <-. destruct (Sn0 snap t f b buf eq_refl Hs) as [_ [(o & Ho' & Hh)|Hl]].
    + rewrite Ho in Ho'. by injection Ho' as <-.
    + by destruct (O0 b _ Ho).
  - intros b' buf Hr [_ ?]%lookup_delete_Some. by apply Sm.
Qed.

Lemma inv_op Q l s s' : inv Q s -> op_step l s s' -> inv (taint l s Q) s'.
Proof using.
  intros Hi Hs. destruct Hs as [|? ? ? ? ? ? os ? ? E| | | | |? ? ? ? ? ? ? ? ? E| | |]; cbn [taint].
  - eapply inv_store; [done..| |]; case_decide; [set_solver..|done].
  - eapply inv_put; [done..|]. intros m Hm. pose proof (WriteBlock_other os (d_disk d) b buf m Hm) as H0. by rewrite E in H0.
  - eapply inv_put; [done..|]. intros m Hm. unfold patch. case_match; [by rewrite lookup_insert_ne|done].
  - apply (inv_patch Q); [done..| |]; cbn [m_d]; destruct (d_dirty d !! b); try case_decide; [set_solver..| |done].
    intros ? _ [= <-]. done.
  - by apply inv_settle.
  - by eapply inv_alloc.
  - apply WriteBlock_done in E as [-> _]. by eapply inv_data_write.
  - by eapply inv_defer.
  - by eapply inv_free_now.
  - by eapply inv_free_undo.
Qed.

Lemma run_inv s0 Q s : inv ∅ s0 -> run s0 Q s -> inv Q s.
Proof using. intros Hi Hr. induction Hr; [done|by eapply inv_drain|by eapply inv_op]. Qed.

(** Every sequence of steps is a run. *)
Lemma run_extend s0 Q s s' : run s0 Q s -> rtc step s s' -> exists Q', run s0 Q' s'.
Proof using.
  intros H Hr. revert Q H. induction Hr as [s|s s1 s2 Hs _ IH]; intros Q H; [by exists Q|].
  destruct Hs; [eapply IH; by eapply R_drain|eapply IH; by eapply R_op].
Qed.
Lemma steps_run s0 s : rtc step s0 s -> exists Q, run s0 Q s.
Proof using. apply (run_extend s0 ∅). apply R_start. Qed.

(** ** The volume at mount: nothing is deferred *)
Record mounted (s : mstate) : Prop := {
  mo_good : good start (m_d s);
  mo_idle : m_pc s = Idle;
  mo_dirty : d_dirty (m_d s) = ∅;
  mo_frees : d_frees (m_d s) = [];
  mo_own b o : m_own s !! b = Some o -> b - start ∉ free_set (a_pyr (d_alloc (m_d s)));
  mo_meta b c : m_own s !! b = Some (Meta c) -> d_disk (m_d s) !! b = Some c;
  mo_data b c : m_own s !! b = Some (Data (Some c)) -> d_disk (m_d s) !! b = Some c;
}.

Lemma mounted_inv s : mounted s -> inv ∅ s.
Proof using.
  intros [[A B C _ _ _] Hp Hd Hf O M K]. destruct s as [d pc own]. cbn in *. subst pc.
  split; cbn; rewrite ?Hf, ?Hd; try done.
  - constructor.
  - by apply NoDup_nil.
  - intros r Hr. by apply elem_of_nil in Hr.
  - intros b o Ho. split; [by eapply O|]. by intros ?%elem_of_nil.
  - intros b c _ Hc. rewrite readBlock_view, Hd, lookup_empty. by apply M.
Qed.

(** The drain is not between its first free and its deletions. *)
Definition closed (pc : drain_pc) : Prop := match pc with Freeing (Some _) _ | Deleting _ => False | _ => True end.

(** C4 Take any interleaving of one drain with operations that keep to blocks
    they own, with any failing writes.  A reader of a metadata block sees what was
    last stored there, except in a tainted block: one whose map entry was brought
    back to the content of the drain's snapshot behind its write.  Without any
    exception, the device holds what was last written to each data block, so that
    the drain never overwrites the data of a block's next owner; outside the
    window between the frees and the deletions a reader that goes through the map
    sees that data too; and no block is free, or waiting to be freed, while it has
    an owner. *)
Theorem drain_coherent s0 Q s b : mounted s0 -> run s0 Q s ->
  match m_own s !! b with
  | Some (Meta c) => b ∉ Q -> readBlock (m_d s) b = Some c
  | Some (Data (Some c)) => d_disk (m_d s) !! b = Some c /\ (closed (m_pc s) -> readBlock (m_d s) b = Some c)
  | _ => True
  end /\
  (is_Some (m_own s !! b) -> (b - start ∉ free_set (a_pyr (d_alloc (m_d s)))) /\
                           (b - start ∉ run_blocks (pc_runs (m_pc s) ++ d_frees (m_d s)))).
Proof using.
  intros Hm Hr. pose proof (run_inv _ _ _ (mounted_inv _ Hm) Hr) as [A B C R N L O M K St Ln Wr Td Sn Sm].
  destruct (m_own s !! b) as [o|] eqn:Eo; [|split; [done|by intros []]].
  split; [|intros _; by apply (O b o)]. destruct o as [|c| | |[c|]]; try done; [intros HQ; by apply M|].
  split; [by apply K|]. intros Hc. rewrite readBlock_view. destruct (d_dirty (m_d s) !! b) as [buf|] eqn:Eb; [|by apply K].
  destruct (St b buf Eb) as [(o & Ho & Hh)|[Hl|Hw]].
  - rewrite Eo in Ho. by injection Ho as <-.
  - by destruct (O b _ Eo).
  - unfold window, closed in *. repeat case_match; done.
Qed.

(** ** The drain ends *)
Definition drain_work (pc : drain_pc) : nat :=
  match pc with
  | Idle => 0
  | Writing _ todo frees => length todo + length frees + 3
  | Freeing _ runs => length runs + 2
  | Deleting _ => 1
  end.

Lemma drain_step_work s s' : drain_step s s' -> m_pc s <> Idle -> (drain_work (m_pc s') < drain_work (m_pc s))%nat.
Proof using. intros Hs Hp. destruct Hs; cbn in *; try done; lia. Qed.

Lemma drain_progress Q s : inv Q s -> m_pc s <> Idle -> exists s', drain_step s s'.
Proof using.
  intros [A B C R N L O M K St Ln Wr Td Sn Sm] Hp. destruct s as [d pc own]. cbn in *.
  destruct pc as [|snap [|[b buf] todo] frees|snap [|r runs]|snap]; [done|by eexists; apply D_written| | | |by eexists; apply D_delete].
  - destruct (WriteBlock (fun _ => None) (d_disk d) b buf) as [disk [e|]] eqn:E; eexists; [by eapply D_fail|by eapply D_write].
  - destruct snap; eexists; [apply D_freed|apply D_freed_empty].
  - apply Forall_cons_1 in R as [(R1 & R2 & R3) R].
    assert (0 < run_first r < BlockCount (a_pyr (d_alloc d))).
    { apply L. cbn [pc_runs app]. change (run_blocks (r :: runs ++ d_frees d)) with (seqZ (run_first r) (run_n r) ++ run_blocks (runs ++ d_frees d)).
      rewrite elem_of_app, elem_of_seqZ. left. lia. }
    destruct (FreeRun_spec (d_alloc d) (run_first r) (run_n r)) as (a & E & _); [done|lia|unfold is_u64; lia..|].
    eexists. by apply D_free.
Qed.

(** [during n s s']: from [s] to [s'] the drain takes [n] steps, all of one call,
    with any operations in between. *)
Inductive during : nat -> mstate -> mstate -> Prop :=
| U_refl s : during 0 s s
| U_drain n s s' s'' : m_pc s <> Idle -> drain_step s s' -> during n s' s'' -> during (S n) s s''
| U_op n l s s' s'' : op_step l s s' -> during n s' s'' -> during n s s''.

Lemma during_steps n s s' : during n s s' -> rtc step s s'.
Proof using. intros Hd. induction Hd; [done|eapply rtc_l; [by apply S_drain|done]|eapply rtc_l; [by eapply S_op|done]]. Qed.

Lemma during_work n s s' : during n s s' -> (n + drain_work (m_pc s') <= drain_work (m_pc s))%nat.
Proof using.
  intros Hd. induction Hd as [s|n s s1 s2 Hp Hs _ IH|n l s s1 s2 Hs _ IH]; [lia| |].
  - pose proof (drain_step_work _ _ Hs Hp). lia.
  - by replace (m_pc s) with (m_pc s1) by (by destruct Hs).
Qed.

(** C27 A drain that has begun ends, whatever operations are interleaved with it:
    the number of steps it can still take is bounded by the blocks it had left to
    write and the runs it had left to free at the outset, plus three, so that
    concurrent stores and frees cannot prolong it; and as long as it has not
    returned it has a next step, that is, no operation can make a free of the
    drain fail.  A failing write ends it early. *)
Theorem drain_terminates s0 s n s' : mounted s0 -> rtc step s0 s -> during n s s' ->
  (n <= drain_work (m_pc s))%nat /\ (m_pc s' = Idle \/ (n < drain_work (m_pc s))%nat /\ exists s'', drain_step s' s'').
Proof using.
  intros Hm Hr Hd. pose proof (during_work _ _ _ Hd) as Hw. split; [lia|].
  destruct (decide (drain_work (m_pc s') = 0%nat)) as [E|E]; [left; by destruct (m_pc s'); cbn in E; first [done|lia]|]. right. split; [lia|].
  destruct (steps_run s0 s') as [Q HQ]; [etrans; [done|by eapply during_steps]|].
  eapply drain_progress; [by eapply run_inv, HQ; apply mounted_inv|]. by intros Hp; rewrite Hp in E.
Qed.

End sync.

(** ** The drain with nothing else running *)
Section alone.
Context (os : Z -> option (list Z)) (own : gmap Z owner).

Lemma writes_run l : forall d snap frees disk e, write_blocks os (d_disk d) l = (disk, e) ->
  rtc drain_step (mkM d (Writing snap l frees) own)
    (match e with
     | None => mkM (set_disk disk d) (Freeing (Some snap) frees) own
     | Some _ => mkM (set_frees (frees ++ d_frees d) (set_disk disk d)) Idle own
     end).
Proof using.
  induction l as [|[b buf] l IH]; intros d snap frees disk e; unfold write_blocks; cbn.
  { intros [= <- <-]. destruct d. apply rtc_once, D_written. }
  destruct (WriteBlock os (d_disk d) b buf) as [disk1 [e1|]] eqn:E1.
  - intros [= <- <-]. apply rtc_once. by eapply D_fail.
  - intros E. eapply rtc_l; [by eapply D_write|]. exact (IH (set_disk disk1 d) snap frees disk e E).
Qed.

Lemma frees_run runs : forall d snap a, free_runs (d_alloc d) runs = Ret a ->
  rtc drain_step (mkM d (Freeing snap runs) own) (mkM (set_alloc a d) (Freeing snap []) own).
Proof using.
  induction runs as [|r runs IH]; intros d snap a; cbn.
  { intros [= <-]. by destruct d. }
  destruct (FreeRun (d_alloc d) (run_first r) (run_n r)) as [a1|?|] eqn:E1; [|done..].
  intros E. eapply rtc_l; [by apply D_free|]. exact (IH (set_alloc a1 d) snap a E).
Qed.

(** [SyncMeta] as it runs alone is one of the runs of the interleaved drain. *)
Theorem SyncMeta_is_drain d d' e : SyncMeta os d = Ret (d', e) ->
  rtc drain_step (mkM d Idle own) (mkM d' Idle own).
Proof using.
  unfold SyncMeta. case_bool_decide as Ed.
  - destruct (free_runs (d_alloc d) (d_frees d)) as [a|?|] eqn:Ef; [|done..]. intros [= <- _].
    eapply rtc_l; [by apply D_begin_empty|]. etrans; [by apply frees_run|]. apply rtc_once, D_freed_empty.
  - destruct (write_blocks os (d_disk d) (map_to_list (d_dirty d))) as [disk x] eqn:Ew. intros E.
    eapply rtc_l; [by apply D_begin|]. etrans; [by apply writes_run|]. destruct x as [x|].
    + injection E as <- _. apply rtc_refl.
    + destruct (free_runs (d_alloc d) (d_frees d)) as [a|?|] eqn:Ef; [|done..]. injection E as <- _.
      etrans; [by apply frees_run|]. eapply rtc_l; [apply D_freed|]. apply rtc_once, D_delete.
Qed.

End alone.

(** ** Two runs of a small volume

    Block 500 is a block of the inode table; the data region starts at 1000. *)
Definition page_of (x : Z) : list Z := replicate 4096 x.

Definition sample_volume : mstate :=
  mkM (mkDeferred ∅ [] {[500 := page_of 0]} sample_alloc) Idle {[500 := Meta (page_of 0)]}.

Lemma volume_mounted a c : rt_ok a -> 1000 + BlockCount (a_pyr a) < 2 ^ 58 ->
  mounted 1000 (mkM (mkDeferred ∅ [] {[500 := c]} a) Idle {[500 := Meta c]}).
Proof.
  intros Ha Hb. split; cbn; try done.
  - by apply fresh_good.
  - intros b o [<- <-]%lookup_singleton_Some. intros Hin. apply free_set_range in Hin. lia.
  - intros b c' [<- [= <-]]%lookup_singleton_Some. by rewrite lookup_singleton_eq.
  - intros b c' [_ ?]%lookup_singleton_Some. done.
Qed.

Lemma sample_volume_mounted : mounted 1000 sample_volume.
Proof. apply volume_mounted; [exact sample_alloc_ok|vm_compute; reflexivity]. Qed.

(** A metadata block is stored, freed and drained, and goes to a file before the
    drain deletes its entry. *)
Definition reused_taken : Allocator := fst (tryAllocBlock sample_alloc true).
Definition reused_freed : Allocator := match FreeRun reused_taken 1 1 with Ret a => a | _ => reused_taken end.
Definition reused_data : Allocator := fst (tryAllocBlock reused_freed false).

Definition reused : mstate :=
  mkM (mkDeferred {[1001 := page_of 1]} [] (<[1001 := page_of 2]> (<[1001 := page_of 1]> {[500 := page_of 0]})) reused_data)
    (Freeing (Some {[1001 := page_of 1]}) [])
    {[500 := Meta (page_of 0); 1001 := Data (Some (page_of 2))]}.

Lemma reused_allocs : tryAllocBlock sample_alloc true = (reused_taken, 1) /\ FreeRun reused_taken 1 1 = Ret reused_freed /\
  tryAllocBlock reused_freed false = (reused_data, 1).
Proof. split_and!; vm_compute; reflexivity. Qed.

Lemma write_page disk b x : WriteBlock (fun _ => None) disk b (page_of x) = (<[b := page_of x]> disk, None).
Proof. unfold WriteBlock, page_of. by rewrite length_replicate. Qed.

(** A run of one more step. *)
Lemma run_drain s0 s Q s' : run 1000 s0 Q s -> drain_step s s' -> run 1000 s0 Q s'.
Proof. apply R_drain. Qed.
Lemma run_op s0 Q Q' l s s' : run 1000 s0 Q s -> op_step 1000 l s s' -> taint l s Q = Q' -> run 1000 s0 Q' s'.
Proof. intros Hr Hs <-. by eapply R_op. Qed.

Lemma reused_run : run 1000 sample_volume ∅ reused.
Proof.
  destruct reused_allocs as (E1 & E2 & E3). unfold reused. pose proof (R_start 1000 sample_volume) as H. unfold sample_volume in H at 2.
  eapply run_op in H; [|eapply (O_alloc 1000 _ _ _ false true); [exact E1|done]|reflexivity].
  eapply run_op in H; [|eapply (O_store 1000 _ _ _ 1001 (page_of 1) Fresh); [by rewrite lookup_insert_eq|by right|apply length_replicate]|reflexivity].
  eapply run_op in H; [|eapply (O_defer 1000 _ _ _ 1001); [by rewrite lookup_insert_eq|split; [lia|vm_compute; reflexivity]]|reflexivity].
  eapply run_drain in H; [|apply (D_begin _ _ [(1001, page_of 1)]); [done|cbn; by rewrite insert_empty, map_to_list_singleton]].
  eapply run_drain in H; [|eapply D_write, write_page].
  eapply run_drain in H; [|eapply D_written].
  eapply run_drain in H; [|eapply (D_free _ _ _ (mkRun 1 1)); exact E2].
  eapply run_op in H; [|eapply (O_alloc 1000 _ _ _ true false); [exact E3|done]|reflexivity].
  eapply run_op in H; [|eapply (O_data 1000 _ _ _ 1001 (page_of 2)); [by rewrite lookup_insert_eq|apply write_page]|reflexivity].
  cbn in H. rewrite insert_empty in H. exact H.
Qed.

(** C29 Between the frees and the deletions a reader that goes through the map sees
    the old metadata in place of a file's data: a block is stored as metadata,
    freed and drained; the drain returns it to the allocator, a file takes it and
    writes it, and until the drain deletes the entry [ReadBlock] of the file's
    block returns the old page, on which a partial write of the file is then
    based. *)
Theorem drain_window_stale :
  run 1000 sample_volume ∅ reused /\ m_own reused !! 1001 = Some (Data (Some (page_of 2))) /\
  d_disk (m_d reused) !! 1001 = Some (page_of 2) /\ readBlock (m_d reused) 1001 = Some (page_of 1).
Proof.
  split; [exact reused_run|]. split; [reflexivity|]. split; [reflexivity|]. reflexivity.
Qed.

Lemma drain_coherent_witness :
  mounted 1000 sample_volume /\ run 1000 sample_volume ∅ reused /\
  readBlock (m_d reused) 500 = Some (page_of 0) /\ d_disk (m_d reused) !! 1001 = Some (page_of 2).
Proof.
  pose proof (drain_coherent 1000 sample_volume ∅ reused 500 sample_volume_mounted reused_run) as [H1 _].
  pose proof (drain_coherent 1000 sample_volume ∅ reused 1001 sample_volume_mounted reused_run) as [H2 _].
  split; [exact sample_volume_mounted|]. split; [exact reused_run|]. split; [exact (H1 (not_elem_of_empty 500))|exact (proj1 H2)].
Defined.

Lemma run_steps start s0 Q s : run start s0 Q s -> rtc (step start) s0 s.
Proof. intros Hr. induction Hr; [done|eapply rtc_r; [done|by apply S_drain]|eapply rtc_r; [done|by eapply S_op]]. Qed.

Lemma drain_terminates_witness : rtc (step 1000) sample_volume reused /\ during 1000 1 reused (mkM (m_d reused) (Deleting {[1001 := page_of 1]}) (m_own reused)) /\
  exists s'', drain_step (mkM (m_d reused) (Deleting {[1001 := page_of 1]}) (m_own reused)) s''.
Proof.
  assert (H : during 1000 1 reused (mkM (m_d reused) (Deleting {[1001 := page_of 1]}) (m_own reused))).
  { eapply U_drain; [discriminate|apply D_freed|apply U_refl]. }
  pose proof (run_steps _ _ _ _ reused_run) as Hr. split; [exact Hr|]. split; [exact H|].
  destruct (drain_terminates 1000 sample_volume reused 1 _ sample_volume_mounted Hr H) as [_ [Hp|[_ Hs]]]; [discriminate|exact Hs].
Defined.

Lemma SyncMeta_is_drain_witness : exists d', rtc drain_step (mkM (m_d sample_volume) Idle ∅) (mkM d' Idle ∅).
Proof.
  eexists. apply (SyncMeta_is_drain (fun _ => None) ∅ (m_d sample_volume) _ None). reflexivity.
Defined.

Definition armed_slot : list Z := blit 0 [9] (page_of 1).

Definition returned : mstate :=
  mkM (mkDeferred ∅ [] (<[500 := armed_slot]> (<[500 := page_of 1]> {[500 := page_of 0]})) sample_alloc) Idle
    (<[500 := Meta (page_of 1)]> (<[500 := Open]> (<[500 := Torn]> (<[500 := Meta (page_of 1)]> {[500 := Meta (page_of 0)]})))).

Lemma returned_run : rtc (step 1000) sample_volume returned.
Proof.
  unfold sample_volume.
  eapply rtc_l; [eapply S_op, (O_store 1000 _ _ _ 500 (page_of 1));
    [by rewrite lookup_singleton_eq|by left|apply length_replicate]|].
  eapply rtc_l; [apply S_drain, (D_begin _ _ [(500, page_of 1)]); [done|]|].
  { cbn. by rewrite insert_empty, map_to_list_singleton. }
  eapply rtc_l; [apply S_drain; eapply D_write, write_page|].
  eapply rtc_l; [eapply S_op, (O_put_slot 1000 _ _ _ 500 0 [9]); [by rewrite lookup_insert_eq|cbn; lia]|].
  eapply rtc_l; [eapply S_op, (O_patch 1000 _ _ _ 500 0 [9]); [by rewrite lookup_insert_eq|cbn; lia]|].
  eapply rtc_l; [eapply S_op, (O_store 1000 _ _ _ 500 (page_of 1));
    [by rewrite lookup_insert_eq|by left|apply length_replicate]|].
  eapply rtc_l; [apply S_drain, D_written|]. eapply rtc_l; [apply S_drain, D_freed|].
  eapply rtc_l; [apply S_drain, D_delete|].
  apply rtc_refl.
Qed.

(** The deletions compare contents, not stores: when a slot of a block is
    written through while the drain runs and the operation's end brings the
    block back to the content of the snapshot, as the creation and removal of a
    file do, the drain deletes the entry and readers see the slot again. *)
Theorem drain_return_lost :
  rtc (step 1000) sample_volume returned /\ m_own returned !! 500 = Some (Meta (page_of 1)) /\
  readBlock (m_d returned) 500 = Some armed_slot /\ armed_slot <> page_of 1.
Proof.
  split; [exact returned_run|]. split; [reflexivity|]. split; [reflexivity|]. discriminate.
Qed.

(** ** Two drains

    [journal.Sync] calls [SyncMeta] with the journal's lock held, but Fsync goes on
    to [flushDirtyMeta], which calls it with no lock: two drains can overlap. *)
Record mstate2 := mkM2 { m2_d : deferred; m2_pc : drain_pc; m2_pc' : drain_pc; m2_own : gmap Z owner }.

Inductive step2 : mstate2 -> mstate2 -> Prop :=
| T_first d pc pc' own d1 pc1 own1 :
    drain_step (mkM d pc own) (mkM d1 pc1 own1) -> step2 (mkM2 d pc pc' own) (mkM2 d1 pc1 pc' own1)
| T_second d pc pc' own d1 pc1 own1 :
    drain_step (mkM d pc' own) (mkM d1 pc1 own1) -> step2 (mkM2 d pc pc' own) (mkM2 d1 pc pc1 own1)
| T_op l d pc pc' own d1 own1 :
    op_step 1000 l (mkM d Idle own) (mkM d1 Idle own1) -> step2 (mkM2 d pc pc' own) (mkM2 d1 pc pc' own1).

Definition volume2 : mstate2 := mkM2 (m_d sample_volume) Idle Idle (m_own sample_volume).
Definition overtaken : mstate2 :=
  mkM2 (mkDeferred ∅ [] (<[500 := page_of 1]> (<[500 := page_of 2]> {[500 := page_of 0]})) sample_alloc) Idle Idle
    (<[500 := Meta (page_of 2)]> (<[500 := Meta (page_of 1)]> {[500 := Meta (page_of 0)]})).

Lemma overtaken_run : rtc step2 volume2 overtaken.
Proof.
  unfold volume2, sample_volume.
  eapply rtc_l; [eapply T_op, (O_store 1000 _ _ _ 500 (page_of 1)); [reflexivity|by left|apply length_replicate]|].
  eapply rtc_l; [apply T_first, (D_begin _ _ [(500, page_of 1)]); [done|cbn; by rewrite insert_empty, map_to_list_singleton]|].
  eapply rtc_l; [eapply T_op, (O_store 1000 _ _ _ 500 (page_of 2)); [by rewrite lookup_insert_eq|by left|apply length_replicate]|].
  eapply rtc_l; [apply T_second, (D_begin _ _ [(500, page_of 2)]); [done|]|].
  { cbn. by rewrite insert_empty, insert_singleton_eq, map_to_list_singleton. }
  eapply rtc_l; [eapply T_second, D_write, write_page|].
  eapply rtc_l; [eapply T_second, D_written|]. eapply rtc_l; [eapply T_second, D_freed|]. eapply rtc_l; [eapply T_second, D_delete|].
  eapply rtc_l; [eapply T_first, D_write, write_page|].
  eapply rtc_l; [eapply T_first, D_written|]. eapply rtc_l; [eapply T_first, D_freed|]. eapply rtc_l; [eapply T_first, D_delete|].
  apply rtc_refl.
Qed.

(** C28 Two drains that overlap lose a stored block: one takes its snapshot and is
    overtaken by a store and a second drain that writes and deletes the newer
    copy; when the first writes its snapshot, readers see the older content, and
    nothing is left in memory to repair it. *)
Theorem two_drains_lose_store :
  rtc step2 volume2 overtaken /\ m2_own overtaken !! 500 = Some (Meta (page_of 2)) /\
  readBlock (m2_d overtaken) 500 = Some (page_of 1) /\ d_dirty (m2_d overtaken) = ∅.
Proof.
  split; [exact overtaken_run|]. split; [reflexivity|]. split; [reflexivity|]. reflexivity.
Qed.
