(* ===== verification/InodeTable.v ===== *)
(** * The inode table (fuse/fs.go, fuse/file_ops.go, fuse/cache.go)

    An inode is a 512-byte slot of a block of the inode table.  The bridge reads
    and patches slots in four ways: straight on the device with the deferred map
    kept in step, in the deferred map only, in the block cache of the running
    operation, and, for a fresh inode, by a slot-sized write to the device. *)

From stdpp Require Import base numbers list option gmap.
From Stdlib Require Import ZArith Lia.
From S2P Require Import Prelude Codec Extents Device AllocRuntime AllocRuns Superblock Inode TriePage Trie TrieStore MetaCache.

Local Open Scope Z_scope.

Inductive itable_error :=
| ErrInodeRead (ino blk : Z)
| ErrInodeCodec (e : codec_error)
| ErrInodeDev (e : dev_error).

Definition lift_icodec {A} (x : res codec_error A) : res itable_error A :=
  match x with Ret a => Ret a | Err e => Err (ErrInodeCodec e) | Panic => Panic end.

Section table.
Context (sb : SuperblockLayout).

(** [briefs.InodeLocation] has no error to return. *)
Definition inodeLocation {E} (ino : Z) : res E (Z * Z) :=
  match InodeLocation sb ino with Ret x => Ret x | _ => Panic end.

(** ** On the device, through the deferred map *)
Definition ReadInode (read : Z -> option (list Z)) (ino : Z) : res itable_error Inode :=
  '(blk, off) ← inodeLocation ino;
  match read blk with
  | None => Err (ErrInodeRead ino blk)
  | Some buf =>
      inodeData ← subslice buf off (u64 (off + sb_InodeSize sb));
      lift_icodec (UnmarshalInode inodeData)
  end.

Definition patchInodeSlot (read : Z -> option (list Z)) (in_ : Inode) : res itable_error (Z * list Z) :=
  '(blk, off) ← inodeLocation (ino_InodeNumber in_);
  match read blk with
  | None => Err (ErrInodeRead (ino_InodeNumber in_) blk)
  | Some buf =>
      data ← lift_icodec (MarshalBinary in_);
      buf ← copy_at buf off data;
      Ret (blk, buf)
  end.

Section write.
Context (os : Z -> option (list Z)).

Definition put_block (blk : Z) (buf : list Z) (d : deferred) : deferred * res itable_error unit :=
  let '(disk, e) := WriteBlock os (d_disk d) blk buf in
  (set_disk disk d, match e with None => Ret tt | Some e => Err (ErrInodeDev e) end).

Definition WriteInode (in_ : Inode) (d : deferred) : deferred * res itable_error unit :=
  match patchInodeSlot (readBlock d) in_ with
  | Ret (blk, buf) => put_block blk buf d
  | Err e => (d, Err e)
  | Panic => (d, Panic)
  end.

Definition writeInodeDirect (in_ : Inode) (d : deferred) : deferred * res itable_error unit :=
  match patchInodeSlot (readBlock d) in_ with
  | Ret (blk, buf) =>
      match put_block blk buf d with
      | (d, Ret _) => (setDirtyBlock blk buf d, Ret tt)
      | x => x
      end
  | Err e => (d, Err e)
  | Panic => (d, Panic)
  end.

Definition writeInodeOwned (in_ : Inode) (d : deferred) : deferred * res itable_error unit :=
  match patchInodeSlot (readBlock d) in_ with
  | Ret (blk, buf) => (setDirtyBlock blk buf d, Ret tt)
  | Err e => (d, Err e)
  | Panic => (d, Panic)
  end.

(** A write within a block; a block the device did not have yet is zero but for
    the slot. *)
Definition WriteBlockSlot (d : gmap Z (list Z)) (blockNum offsetInBlock : Z) (data : list Z) : gmap Z (list Z) * option dev_error :=
  if BlockSize <? u64 (offsetInBlock + xlen data)
  then (d, Some (Device.ErrSlotRange blockNum offsetInBlock (xlen data)))
  else match os blockNum with
       | Some junk => (<[blockNum := junk]> d, Some (ErrWrite blockNum))
       | None => (<[blockNum := blit (Z.to_nat offsetInBlock) data (default (zeros 4096) (d !! blockNum))]> d, None)
       end.

Definition writeThroughFreshInodeSlot (in_ : Inode) (d : deferred) : deferred * res itable_error unit :=
  match inodeLocation (ino_InodeNumber in_) with
  | Ret (blk, off) =>
      match lift_icodec (MarshalBinary in_) with
      | Ret data =>
          let '(disk, e) := WriteBlockSlot (d_disk d) blk off data in
          match e with
          | Some e => (set_disk disk d, Err (ErrInodeDev e))
          | None =>
              let d := set_disk disk d in
              match d_dirty d !! blk with
              | Some cur =>
                  match copy_at cur off data with
                  | Ret merged => (setDirtyBlock blk merged d, Ret tt)
                  | Err e => (d, Err e)
                  | Panic => (d, Panic)
                  end
              | None => (d, Ret tt)
              end
          end
      | Err e => (d, Err e)
      | Panic => (d, Panic)
      end
  | Err e => (d, Err e)
  | Panic => (d, Panic)
  end.

End write.

(** ** Through the operation's block cache *)
Section cached.
Context {W : Type} `{TW : TrieWorld W}.

Definition readInodeCached (ino : Z) : SM (tstate W) Inode :=
  '(blk, off) ← lift (inodeLocation ino);
  a ← loadBlock blk;
  buf ← read_buf a;
  data ← lift (subslice buf off (u64 (off + sb_InodeSize sb)));
  lift (lift_codec (UnmarshalInode data)).

Definition writeInodeCached (inode : Inode) : SM (tstate W) unit :=
  '(blk, off) ← lift (inodeLocation (ino_InodeNumber inode));
  a ← loadBlock blk;
  data ← lift (lift_codec (MarshalBinary inode));
  buf ← read_buf a;
  buf ← lift (copy_at buf off data);
  _ ← write_buf a buf;
  saveBlock blk a.

(** The loop that zeroes the slot byte by byte. *)
Definition zeroInodeCached (ino : Z) : SM (tstate W) unit :=
  '(blk, off) ← lift (inodeLocation ino);
  a ← loadBlock blk;
  buf ← read_buf a;
  _ ← lift (subslice buf off (off + sb_InodeSize sb));
  _ ← write_buf a (blit (Z.to_nat off) (zeros (Z.to_nat (sb_InodeSize sb))) buf);
  saveBlock blk a.

End cached.

End table.

(** ** Slots *)
Section slots.
Context (sb : SuperblockLayout) (last : Z).

(** The table ends before block [last]. *)
Record geometry : Prop := {
  ge_inode : sb_InodeSize sb = 512;
  ge_block : sb_BlockSize sb = 4096;
  ge_start : 0 <= sb_InodeTableOffset sb;
  ge_last : last < 2 ^ 58;
}.
Definition iblk (i : Z) : Z := sb_InodeTableOffset sb + (i - 1) / 8.
Definition ioff (i : Z) : Z := (i - 1) mod 8 * 512.
Definition in_table (i : Z) : Prop := 0 < i /\ iblk i < last.

Definition table_ok (view : Z -> option (list Z)) : Prop :=
  forall i, in_table i -> exists buf, view (iblk i) = Some buf /\ length buf = 4096%nat.

Context (Hg : geometry).

Lemma ioff_range i : 0 <= ioff i <= 3584.
Proof using. unfold ioff. pose proof (Z.mod_pos_bound (i - 1) 8). lia. Qed.

Lemma iblk_range i : in_table i -> sb_InodeTableOffset sb <= iblk i < last.
Proof using. intros [H1 H2]. unfold iblk in *. assert (0 <= (i - 1) / 8) by (apply Z.div_pos; lia). lia. Qed.

Lemma location {E} i : in_table i -> inodeLocation (E := E) sb i = Ret (iblk i, ioff i).
Proof using Hg.
  intros Hi. pose proof (iblk_range i Hi) as Hr. destruct Hg as [G1 G2 G3 G4], Hi as [H1 H2].
  pose proof (Z.div_mod (i - 1) 8 ltac:(lia)). pose proof (Z.mod_pos_bound (i - 1) 8 ltac:(lia)). unfold iblk in *.
  unfold inodeLocation, InodeLocation. rewrite G1, G2. cbn [Z.eqb]. change (4096 / 512) with 8. cbn [Z.eqb].
  rewrite (u64_small (i - 1)) by (unfold is_u64; lia). unfold ioff. by rewrite !u64_small by (unfold is_u64; lia).
Qed.

Lemma other_slot i j : i <> j -> iblk i = iblk j -> ioff i + 512 <= ioff j \/ ioff j + 512 <= ioff i.
Proof using.
  unfold iblk, ioff. intros Hne He. pose proof (Z.div_mod (i - 1) 8 ltac:(lia)). pose proof (Z.div_mod (j - 1) 8 ltac:(lia)).
  assert ((i - 1) mod 8 <> (j - 1) mod 8) by lia. lia.
Qed.

Lemma ReadInode_slot view i buf : in_table i -> view (iblk i) = Some buf -> length buf = 4096%nat ->
  ReadInode sb view i = lift_icodec (UnmarshalInode (slice (Z.to_nat (ioff i)) (Z.to_nat (ioff i) + 512) buf)).
Proof using Hg.
  intros Hi Hv Hl. unfold ReadInode. rewrite (location i Hi). cbn [mbind res_bind]. rewrite Hv. pose proof (ioff_range i). rewrite (ge_inode Hg).
  rewrite u64_small by (unfold is_u64; lia). rewrite subslice_ok by (unfold xlen; lia). cbn [mbind res_bind]. f_equal. f_equal. f_equal. lia.
Qed.

(** Reading the table after slot [ino] of its block was overwritten by [data]. *)
Lemma ReadInode_blit view view' ino data buf : in_table ino -> length data = 512%nat -> view (iblk ino) = Some buf -> length buf = 4096%nat ->
  view' (iblk ino) = Some (blit (Z.to_nat (ioff ino)) data buf) -> (forall i, in_table i -> iblk i <> iblk ino -> view' (iblk i) = view (iblk i)) ->
  forall i, in_table i -> ReadInode sb view' i = if decide (i = ino) then lift_icodec (UnmarshalInode data) else ReadInode sb view i.
Proof using Hg.
  intros Hi Hd Hv Hl Hv' Ho j Hj. pose proof (ioff_range ino). pose proof (ioff_range j).
  assert (Hl' : length (blit (Z.to_nat (ioff ino)) data buf) = 4096%nat) by (rewrite length_blit; lia).
  destruct (decide (iblk j = iblk ino)) as [Eb|Eb].
  - rewrite (ReadInode_slot view' j _ Hj ltac:(rewrite Eb; exact Hv') Hl'). case_decide as E.
    + subst j. rewrite <- Hd at 1. rewrite slice_blit_same by lia. done.
    + rewrite (ReadInode_slot view j _ Hj ltac:(rewrite Eb; exact Hv) Hl). rewrite slice_blit_other; [done|lia|].
      destruct (other_slot j ino E Eb); lia.
  - rewrite decide_False by (by intros ->). unfold ReadInode. rewrite (location j Hj). cbn [mbind res_bind]. by rewrite Ho.
Qed.

Lemma ReadInode_same view view' i : in_table i -> view' (iblk i) = view (iblk i) -> ReadInode sb view' i = ReadInode sb view i.
Proof using Hg. intros Hi E. unfold ReadInode. rewrite (location i Hi). cbn [mbind res_bind]. by rewrite E. Qed.

Lemma patchInodeSlot_ok view in_ buf : in_table (ino_InodeNumber in_) -> codec_wf in_ -> view (iblk (ino_InodeNumber in_)) = Some buf -> length buf = 4096%nat ->
  patchInodeSlot sb view in_ = Ret (iblk (ino_InodeNumber in_), blit (Z.to_nat (ioff (ino_InodeNumber in_))) (encode in_) buf).
Proof using Hg.
  intros Hi Hw Hv Hl. unfold patchInodeSlot. rewrite (location _ Hi). cbn [mbind res_bind]. rewrite Hv.
  rewrite MarshalBinary_encode by done. cbn [lift_icodec mbind res_bind]. pose proof (ioff_range (ino_InodeNumber in_)). by rewrite copy_at_ok by (unfold xlen; lia).
Qed.

Lemma inode_length (in_ : Inode) : codec_wf in_ -> length (encode in_) = 512%nat.
Proof using. intros Hw. by rewrite encode_length. Qed.

Lemma inode_decode (in_ : Inode) : codec_wf in_ -> lift_icodec (UnmarshalInode (encode in_)) = Ret in_.
Proof using. intros Hw. unfold UnmarshalInode. rewrite <- (app_nil_r (encode in_)). by rewrite UnmarshalBinary_encode. Qed.

(** What the table shows after [in_] was written. *)
Definition wrote (in_ : Inode) (view view' : Z -> option (list Z)) : Prop :=
  table_ok view' /\ (forall b, b <> iblk (ino_InodeNumber in_) -> view' b = view b) /\
  forall i, in_table i -> ReadInode sb view' i = if decide (i = ino_InodeNumber in_) then Ret in_ else ReadInode sb view i.

Lemma wrote_blit view view' in_ buf (ino := ino_InodeNumber in_) : table_ok view -> in_table ino -> codec_wf in_ -> view (iblk ino) = Some buf ->
  length buf = 4096%nat -> view' (iblk ino) = Some (blit (Z.to_nat (ioff ino)) (encode in_) buf) -> (forall b, b <> iblk ino -> view' b = view b) -> wrote in_ view view'.
Proof using Hg.
  intros Ht Hi Hw Hv Hl Hv' Ho. split; [|split; [exact Ho|]].
  - intros i Hi'. destruct (decide (iblk i = iblk ino)) as [->|Hne]; [|rewrite Ho by done; by apply Ht].
    eexists. split; [exact Hv'|]. pose proof (ioff_range ino). rewrite length_blit; lia.
  - intros i Hi'. rewrite (ReadInode_blit view view' ino (encode in_) buf) by (done || (by apply inode_length) || (intros; by apply Ho)). by rewrite inode_decode.
Qed.

(** ** The writers *)
Lemma writeInodeDirect_spec os in_ d (ino := ino_InodeNumber in_) : table_ok (readBlock d) -> in_table ino -> codec_wf in_ ->
  let '(d', x) := writeInodeDirect sb os in_ d in
  match x with
  | Ret _ => wrote in_ (readBlock d) (readBlock d') /\ d_disk d' !! iblk ino = readBlock d' (iblk ino) /\ os (iblk ino) = None
  | Err _ => is_Some (os (iblk ino)) /\ forall b, b <> iblk ino -> readBlock d' b = readBlock d b
  | Panic => False
  end /\ d_alloc d' = d_alloc d /\ d_frees d' = d_frees d /\
  (forall b, b <> iblk ino -> d_dirty d' !! b = d_dirty d !! b /\ d_disk d' !! b = d_disk d !! b).
Proof using Hg.
  intros Ht Hi Hw. destruct (Ht ino Hi) as (buf & Hv & Hl). unfold writeInodeDirect. rewrite (patchInodeSlot_ok _ in_ buf) by done. fold ino.
  set (buf' := blit (Z.to_nat (ioff ino)) (encode in_) buf). pose proof (ioff_range ino).
  assert (Hl' : length buf' = 4096%nat) by (unfold buf'; rewrite length_blit; lia).
  unfold put_block, WriteBlock. rewrite Hl'. cbn [Z.eqb negb]. unfold BlockSize. change (negb (Z.of_nat 4096 =? 4096)) with false. cbv iota.
  destruct (os (iblk ino)) as [junk|] eqn:Eo.
  - split_and!; [by eauto| |done|done|]; intros b Hb; [rewrite !readBlock_view|]; cbn; rewrite lookup_insert_ne by done; done.
  - split_and!; [|cbn; rewrite lookup_insert_eq, readBlock_set; by rewrite decide_True|done|done|done|].
    + eapply (wrote_blit _ _ in_ buf); try done; [by rewrite readBlock_set, decide_True|]. intros b Hb. rewrite readBlock_set, decide_False by done.
      rewrite !readBlock_view. cbn. by rewrite lookup_insert_ne.
    + intros b Hb. cbn. by rewrite !lookup_insert_ne.
Qed.

(** C20 Writing an inode directly: when the write succeeds, the inode reads back,
    every other inode reads as before, also those in the same block, no other
    block changes, and the device holds the same block as the deferred map, so
    that the next drain cannot bring the old slot back; when it fails, no other
    block has changed. *)
Theorem writeInodeDirect_correct os in_ d (ino := ino_InodeNumber in_) : table_ok (readBlock d) -> in_table ino -> codec_wf in_ ->
  let '(d', x) := writeInodeDirect sb os in_ d in
  match x with
  | Ret _ => wrote in_ (readBlock d) (readBlock d') /\ d_disk d' !! iblk ino = readBlock d' (iblk ino) /\ os (iblk ino) = None
  | Err _ => is_Some (os (iblk ino)) /\ forall b, b <> iblk ino -> readBlock d' b = readBlock d b
  | Panic => False
  end /\ d_alloc d' = d_alloc d /\ d_frees d' = d_frees d /\
  (forall b, b <> iblk ino -> d_dirty d' !! b = d_dirty d !! b /\ d_disk d' !! b = d_disk d !! b).
Proof using Hg. apply writeInodeDirect_spec. Qed.

(** Deferring it only leaves the device alone. *)
Lemma writeInodeOwned_spec in_ d : table_ok (readBlock d) -> in_table (ino_InodeNumber in_) -> codec_wf in_ ->
  exists d', writeInodeOwned sb in_ d = (d', Ret tt) /\ wrote in_ (readBlock d) (readBlock d') /\ d_disk d' = d_disk d.
Proof using Hg.
  intros Ht Hi Hw. destruct (Ht _ Hi) as (buf & Hv & Hl). unfold writeInodeOwned. rewrite (patchInodeSlot_ok _ in_ buf) by done.
  eexists. split; [done|]. split; [|done]. eapply (wrote_blit _ _ in_ buf); try done; [by rewrite readBlock_set, decide_True|].
  intros b Hb. by rewrite readBlock_set, decide_False.
Qed.

(** C21 The slot of a fresh inode is written through: readers see the new inode
    and the other inodes as before; on the device the same slot changes and no
    other, so that nothing deferred of its neighbours reaches the device. *)
Theorem writeThroughFreshInodeSlot_correct os in_ d (ino := ino_InodeNumber in_) : table_ok (readBlock d) -> table_ok (fun b => d_disk d !! b) ->
  in_table ino -> codec_wf in_ -> os (iblk ino) = None ->
  exists d', writeThroughFreshInodeSlot sb os in_ d = (d', Ret tt) /\ wrote in_ (readBlock d) (readBlock d') /\
    wrote in_ (fun b => d_disk d !! b) (fun b => d_disk d' !! b) /\ dom (d_dirty d') = dom (d_dirty d).
Proof using Hg.
  intros Ht Htd Hi Hw Hos. destruct (Ht _ Hi) as (buf & Hv & Hl), (Htd _ Hi) as (dbuf & Hvd & Hld). pose proof (ioff_range ino).
  unfold writeThroughFreshInodeSlot. fold ino. rewrite (location ino Hi), MarshalBinary_encode by done. cbn [lift_icodec]. unfold WriteBlockSlot, xlen, BlockSize.
  rewrite (inode_length in_ Hw), u64_small by (unfold is_u64; lia). rewrite (proj2 (Z.ltb_ge _ _)) by lia. rewrite Hos, Hvd. cbn [default from_option id].
  set (data := encode in_). set (disk := <[iblk ino := blit (Z.to_nat (ioff ino)) data dbuf]> (d_disk d)).
  assert (Hdisk : wrote in_ (fun b => d_disk d !! b) (fun b => disk !! b)).
  { apply (wrote_blit _ _ in_ dbuf); try done; [unfold disk; by rewrite lookup_insert_eq|intros b Hb; unfold disk; by rewrite lookup_insert_ne]. }
  pose proof (readBlock_view d (iblk ino)) as Hrv. rewrite Hv in Hrv. change (d_dirty (set_disk disk d)) with (d_dirty d).
  destruct (d_dirty d !! iblk ino) as [cur|] eqn:Ec.
  - injection Hrv as <-. rewrite copy_at_ok by (unfold xlen; lia). eexists. split; [done|]. split_and!; [|exact Hdisk|cbn; rewrite dom_insert_L; apply elem_of_dom_2 in Ec; set_solver].
    eapply (wrote_blit _ _ in_ buf); try done; [by rewrite readBlock_set, decide_True|]. intros b Hb. rewrite readBlock_set, decide_False by done.
    rewrite !readBlock_view. cbn. unfold disk. by rewrite lookup_insert_ne.
  - rewrite Hvd in Hrv. injection Hrv as <-. eexists. split; [done|]. split_and!; [|exact Hdisk|done].
    eapply (wrote_blit _ _ in_ buf); try done; [rewrite readBlock_view; change (d_dirty (set_disk disk d)) with (d_dirty d); fold ino; rewrite Ec; cbn [d_disk set_disk]; unfold disk; by rewrite lookup_insert_eq|].
    intros b Hb. rewrite !readBlock_view. cbn. unfold disk. by rewrite lookup_insert_ne.
Qed.

(** ** Through the cache *)
Section cached.
Context {W : Type} `{TW : TrieWorld W}.
Implicit Types s : tstate W.

Abbreviation view := (@TrieStore.view W TW).

(** The cache of an operation: no two blocks share a buffer, and a buffer that
    was not saved holds what the block holds. *)
Record cached s : Prop := {
  ca_addr b a : t_cache s !! b = Some a -> (a < length (t_heap s))%nat;
  ca_inj b b' a : t_cache s !! b = Some a -> t_cache s !! b' = Some a -> b = b';
  ca_clean b a : t_cache s !! b = Some a -> b ∉ t_dirty s -> t_heap s !! a = tw_read (t_w s) b;
}.

Lemma load_cached s b buf : cached s -> view s b = Some buf ->
  exists s' a, loadBlock b s = (s', Ret a) /\ cached s' /\ t_cache s' !! b = Some a /\ t_heap s' !! a = Some buf /\ t_w s' = t_w s /\ forall b', view s' b' = view s b'.
Proof using.
  intros [A I C] Hv. unfold TrieStore.view in Hv. unfold loadBlock. destruct (t_cache s !! b) as [a|] eqn:Eb; [by exists s, a|]. rewrite Hv.
  eexists _, _. split; [reflexivity|]. cbn. rewrite lookup_insert_eq, list_lookup_middle by done. split_and!; try done.
  - assert (Hnew : forall b' a, t_cache s !! b' = Some a -> a <> length (t_heap s)) by (intros b' a Ha%A; lia). split; cbn.
    + intros b' a. rewrite lookup_insert_Some, length_app. cbn. intros [[<- <-]|[_ Ha%A]]; lia.
    + intros b1 b2 a. rewrite !lookup_insert_Some. intros [[<- <-]|[H1 Ha]] [[<- H]|[H2 Ha']]; try done; [by apply Hnew in Ha'|subst a; by apply Hnew in Ha|by eapply I].
    + intros b' a. rewrite lookup_insert_Some. intros [[<- <-]|[H1 Ha]] Hd; [by rewrite list_lookup_middle, Hv|]. rewrite lookup_app_l by (by eapply A). by apply C.
  - intros b'. unfold TrieStore.view. cbn. destruct (decide (b' = b)) as [->|].
    + by rewrite lookup_insert_eq, Eb, list_lookup_middle, Hv by done.
    + rewrite lookup_insert_ne by done. destruct (t_cache s !! b') as [a|] eqn:Ea; [|done]. by rewrite lookup_app_l by (by eapply A).
Qed.

Lemma save_cached s b a buf (s' := put_saved s b a buf) : cached s -> t_cache s !! b = Some a ->
  cached s' /\ t_w s' = t_w s /\ view s' b = Some buf /\ forall b', b' <> b -> view s' b' = view s b'.
Proof using.
  intros [A I C] Ha. pose proof (A _ _ Ha) as Hlt. subst s'. unfold put_saved. split; [split; cbn; rewrite ?(insert_id _ _ _ Ha)|split_and!].
  - intros b' a'. rewrite length_insert. apply A.
  - intros b1 b2 a'. apply I.
  - intros b' a' Ha' [H1 H2]%not_elem_of_union. rewrite not_elem_of_singleton in H1. rewrite list_lookup_insert_ne by (intros <-; by apply H1, (I _ _ a)). by apply C.
  - done.
  - unfold TrieStore.view. cbn. rewrite lookup_insert_eq. by apply list_lookup_insert_eq.
  - intros b' Hb'. unfold TrieStore.view. cbn. rewrite lookup_insert_ne by done. destruct (t_cache s !! b') as [a'|] eqn:Ea; [|done].
    rewrite list_lookup_insert_ne; [done|]. intros <-. by apply Hb', (I _ _ a).
Qed.

(** Patching [data] into slot [ino] through the cache. *)
Lemma patch_cached s ino : cached s -> table_ok (view s) -> in_table ino ->
  exists s1 a buf, loadBlock (iblk ino) s = (s1, Ret a) /\ t_heap s1 !! a = Some buf /\ length buf = 4096%nat /\ view s (iblk ino) = Some buf /\
  forall data, (length data <= 512)%nat -> let s2 := put_saved s1 (iblk ino) a (blit (Z.to_nat (ioff ino)) data buf) in
    cached s2 /\ t_w s2 = t_w s /\ view s2 (iblk ino) = Some (blit (Z.to_nat (ioff ino)) data buf) /\ forall b, b <> iblk ino -> view s2 b = view s b.
Proof using.
  intros Hc Ht Hi. destruct (Ht ino Hi) as (buf & Hv & Hl). destruct (load_cached s (iblk ino) buf Hc Hv) as (s1 & a & E & Hc1 & Ha & Hh & Hw & Hv1).
  exists s1, a, buf. split_and!; try done. intros data Hd s2. destruct (save_cached s1 (iblk ino) a (blit (Z.to_nat (ioff ino)) data buf) Hc1 Ha) as (P1 & P2 & P3 & P4).
  split_and!; [exact P1|by rewrite <- Hw|exact P3|]. intros b Hb. rewrite <- Hv1. by apply P4.
Qed.

Lemma readInodeCached_spec s i : cached s -> table_ok (view s) -> in_table i ->
  exists s', cached s' /\ t_w s' = t_w s /\ (forall b, view s' b = view s b) /\
    readInodeCached sb i s = (s', match ReadInode sb (view s) i with Ret x => Ret x | Err (ErrInodeCodec e) => Err (ErrCodec e) | _ => Panic end).
Proof using Hg.
  intros Hc Ht Hi. destruct (Ht i Hi) as (buf & Hv & Hl). destruct (load_cached s (iblk i) buf Hc Hv) as (s1 & a & E & Hc1 & Ha & Hh & Hw & Hv1).
  exists s1. split_and!; try done. rewrite (ReadInode_slot (view s) i buf Hi Hv Hl). unfold readInodeCached. unfold mbind, SM_bind, lift at 1. rewrite (location i Hi), E.
  unfold read_buf. rewrite Hh. unfold lift. pose proof (ioff_range i). rewrite (ge_inode Hg), u64_small by (unfold is_u64; lia).
  rewrite subslice_ok by (unfold xlen; lia). replace (Z.to_nat (ioff i + 512)) with (Z.to_nat (ioff i) + 512)%nat by lia. by destruct (UnmarshalInode _).
Qed.

Lemma writeInodeCached_spec s in_ : cached s -> table_ok (view s) -> in_table (ino_InodeNumber in_) -> codec_wf in_ ->
  exists s', writeInodeCached sb in_ s = (s', Ret tt) /\ cached s' /\ t_w s' = t_w s /\ wrote in_ (view s) (view s').
Proof using Hg.
  intros Hc Ht Hi Hw. destruct (patch_cached s _ Hc Ht Hi) as (s1 & a & buf & E & Hh & Hl & Hv & Hp). destruct (Hp (encode in_)) as (P1 & P2 & P3 & P4); [by rewrite (inode_length in_ Hw)|].
  eexists. split; [|split; [exact P1|split; [exact P2|by eapply wrote_blit]]].
  unfold writeInodeCached. unfold mbind, SM_bind, lift at 1. rewrite (location _ Hi), E, MarshalBinary_encode by done. unfold lift, lift_codec, read_buf. rewrite Hh.
  pose proof (ioff_range (ino_InodeNumber in_)). by rewrite copy_at_ok by (unfold xlen; lia).
Qed.

(** Writing an inode through the operation's cache and ending the operation:
    readers then see the new inode, the other inodes as the operation saw them,
    and the device has not been touched. *)
Theorem writeInodeCached_merged s in_ d : (forall b, tw_read (t_w s) b = readBlock d b) -> cached s -> table_ok (view s) ->
  in_table (ino_InodeNumber in_) -> codec_wf in_ ->
  exists s', writeInodeCached sb in_ s = (s', Ret tt) /\ wrote in_ (view s) (readBlock (mergeCache s' d)) /\ d_disk (mergeCache s' d) = d_disk d.
Proof using Hg.
  intros Hr Hc Ht Hi Hw. destruct (writeInodeCached_spec s in_ Hc Ht Hi Hw) as (s' & E & Hc' & Ew & H1 & H2 & H3). exists s'. split; [exact E|]. split; [|done].
  assert (Hv : forall b, readBlock (mergeCache s' d) b = view s' b) by (intros b; apply mergeCache_view; [by rewrite Ew|apply Hc'|apply Hc']).
  split_and!.
  - intros i Hi'. rewrite Hv. by apply H1.
  - intros b Hb. rewrite Hv. by apply H2.
  - intros i Hi'. rewrite <- H3 by done. by apply ReadInode_same.
Qed.

(** The inode an all-zero slot spells. *)
Definition zero_inode : Inode :=
  mkInode 0 0 0 0 0 0 0 0 0 0 0 0 0 0 0 0 0 0 0 (zeros 256) 0 0 0 0 0 0 0 0 0 (zeros 68).

Lemma zeroInodeCached_spec s ino : cached s -> table_ok (view s) -> in_table ino ->
  exists s', zeroInodeCached sb ino s = (s', Ret tt) /\ cached s' /\ t_w s' = t_w s /\ (forall b, b <> iblk ino -> view s' b = view s b) /\
    forall i, in_table i -> ReadInode sb (view s') i = if decide (i = ino) then Ret zero_inode else ReadInode sb (view s) i.
Proof using Hg.
  intros Hc Ht Hi. destruct (patch_cached s _ Hc Ht Hi) as (s1 & a & buf & E & Hh & Hl & Hv & Hp). destruct (Hp (zeros 512)) as (P1 & P2 & P3 & P4); [by rewrite length_zeros|].
  eexists. split; [|split; [exact P1|split; [exact P2|split; [exact P4|]]]].
  - unfold zeroInodeCached. unfold mbind, SM_bind, lift at 1. rewrite (location _ Hi), E. unfold lift, read_buf. rewrite Hh. rewrite (ge_inode Hg).
    pose proof (ioff_range ino). by rewrite subslice_ok by (unfold xlen; lia).
  - intros i Hi'. rewrite (ReadInode_blit (view s) _ ino (zeros 512) buf) by (done || (by rewrite length_zeros) || (intros; by apply P4)).
    case_decide; [|done]. vm_compute. reflexivity.
Qed.

End cached.

End slots.

(** ** A small table

    One block at 40 with eight slots; inode 3 is deferred, its slot on the device
    is still empty. *)
Definition small_sb : SuperblockLayout :=
  mkSuperblockLayout 0 0 0 0 0 0 4096 512 0 0 0 0 0 0 0 0 0 0 0 [] 0 0 0 0 0 0 0 0 40 0 0 0 0 0 [] [] [].

Lemma small_geometry : geometry small_sb 41.
Proof. by split. Qed.

Definition small_file (ino : Z) : Inode := NewInode 0 0 ino 0x81A4.
Definition small_table : deferred :=
  mkDeferred {[40 := blit 1024 (encode (small_file 3)) (zeros 4096)]} [] {[40 := zeros 4096]} sample_alloc.

Lemma small_iblk i : in_table small_sb 41 i -> iblk small_sb i = 40.
Proof. intros Hi. pose proof (iblk_range small_sb 41 i Hi) as H. change (sb_InodeTableOffset small_sb) with 40 in H. lia. Qed.

Lemma small_table_ok : table_ok small_sb 41 (readBlock small_table) /\ table_ok small_sb 41 (fun b => d_disk small_table !! b).
Proof. split; intros i Hi; rewrite (small_iblk i Hi); eexists; (split; [vm_compute; reflexivity|reflexivity]). Qed.

Lemma small_in i : 0 < i <= 8 -> in_table small_sb 41 i.
Proof. intros Hi. split; [lia|]. unfold iblk. change (sb_InodeTableOffset small_sb) with 40. assert ((i - 1) / 8 = 0) by (apply Z.div_small; lia). lia. Qed.

Lemma small_file_wf ino : is_u64 ino -> codec_wf (small_file ino).
Proof.
  intros []. split; [|done]. repeat (apply Forall_cons_2; [first [split; [apply length_zeros|apply bytes_zeros]|cbn; lia|cbn; done]|]). apply Forall_nil_2.
Qed.

Lemma writeInodeDirect_correct_witness :
  ReadInode small_sb (readBlock (fst (writeInodeDirect small_sb (fun _ => None) (small_file 5) small_table))) 3 = Ret (small_file 3) /\
  ReadInode small_sb (readBlock (fst (writeInodeDirect small_sb (fun _ => None) (small_file 5) small_table))) 5 = Ret (small_file 5).
Proof.
  pose proof (writeInodeDirect_correct small_sb 41 small_geometry (fun _ => None) (small_file 5) small_table (proj1 small_table_ok)
    (small_in 5 ltac:(lia)) (small_file_wf 5 ltac:(unfold is_u64; lia))) as H.
  destruct (writeInodeDirect _ _ _ _) as [d' [[]|e|]]; cbn [fst]; [|by destruct H as [[[] _] _]|by destruct H].
  destruct H as (((_ & _ & H) & _) & _). split; [rewrite (H 3 (small_in 3 ltac:(lia))); vm_compute; reflexivity|].
  rewrite (H 5 (small_in 5 ltac:(lia))). reflexivity.
Defined.

Lemma writeThroughFreshInodeSlot_correct_witness : exists d',
  writeThroughFreshInodeSlot small_sb (fun _ => None) (small_file 5) small_table = (d', Ret tt) /\
  ReadInode small_sb (readBlock d') 3 = Ret (small_file 3) /\ ReadInode small_sb (fun b => d_disk d' !! b) 3 = Ret zero_inode /\
  ReadInode small_sb (fun b => d_disk d' !! b) 5 = Ret (small_file 5).
Proof.
  destruct (writeThroughFreshInodeSlot_correct small_sb 41 small_geometry (fun _ => None) (small_file 5) small_table (proj1 small_table_ok) (proj2 small_table_ok)
    (small_in 5 ltac:(lia)) (small_file_wf 5 ltac:(unfold is_u64; lia)) eq_refl) as (d' & E & (_ & _ & H1) & (_ & _ & H2) & _).
  exists d'. split; [exact E|]. split; [rewrite (H1 3 (small_in 3 ltac:(lia))); vm_compute; reflexivity|].
  split; [rewrite (H2 3 (small_in 3 ltac:(lia))); vm_compute; reflexivity|]. rewrite (H2 5 (small_in 5 ltac:(lia))). reflexivity.
Defined.

(** A world that is nothing but the device. *)
#[local] Instance quiet_world : TrieWorld deferred := {|
  tw_read := readBlock; tw_alloc d := (d, 0); tw_free _ d := d; tw_record _ d := (d, false); tw_defer := deferBlockFree 1000; tw_start := 1000;
|}.

Lemma writeInodeCached_merged_witness : exists s', writeInodeCached small_sb (small_file 5) (mkT small_table [] ∅ ∅ [] false []) = (s', Ret tt) /\
  ReadInode small_sb (readBlock (mergeCache s' small_table)) 3 = Ret (small_file 3) /\
  ReadInode small_sb (readBlock (mergeCache s' small_table)) 5 = Ret (small_file 5).
Proof.
  destruct (writeInodeCached_merged (TW := quiet_world) small_sb 41 small_geometry (mkT small_table [] ∅ ∅ [] false []) (small_file 5) small_table ltac:(intros b; reflexivity)
    ltac:(split; intros *; cbn; by rewrite lookup_empty) (proj1 small_table_ok) (small_in 5 ltac:(lia)) (small_file_wf 5 ltac:(unfold is_u64; lia))) as (s' & E & (_ & _ & H) & _).
  exists s'. split; [exact E|]. split; [rewrite (H 3 (small_in 3 ltac:(lia))); vm_compute; reflexivity|]. rewrite (H 5 (small_in 5 ltac:(lia))). reflexivity.
Defined.
