(* ===== verification/InodeAlloc.v ===== *)
(** * Allocating and freeing inodes (fuse/inode_alloc.go)

    An inode number is a bit of the inode allocator plus one.  A number that is
    handed out was free and is journaled before the inode exists; freeing zeroes
    the slot in the operation's cache, journals, and only then returns the
    number. *)

From stdpp Require Import base numbers list option gmap.
From Stdlib Require Import ZArith Lia.
From S2P Require Import Prelude Codec Bits AllocCore Allocator Extents Device AllocRuntime AllocRuns JournalRecord Superblock Inode TriePage Trie TrieStore MetaCache InodeTable.

Local Open Scope Z_scope.

Inductive ialloc_error :=
| ErrNoInodes
| ErrJournalInode (ino : Z)
| ErrZeroInode (ino : Z) (e : trie_error).

(** The inode allocator and the journal.  The boolean says that the record was
    not written. *)
Class InodeWorld (W : Type) := {
  iw_alloc : W -> Allocator;                     (* inodeAlloc *)
  iw_set_alloc : Allocator -> W -> W;
  iw_record : Z -> list Z -> W -> W * bool;      (* journal.WriteRecord *)
}.

(** The fields that [AllocInode] sets after [NewInode]. *)
Definition set_owner (in_ : Inode) (Uid Gid Nlinks ParentInode Generation : Z) : Inode :=
  mkInode (ino_InodeNumber in_) (ino_Magic in_) (ino_Filemode in_) Uid Gid
    (ino__Pad0 in_) (ino_FileSize in_) (ino_CtimeSec in_) (ino_CtimeNsec in_) (ino_AtimeSec in_)
    (ino_AtimeNsec in_) (ino_MtimeSec in_) (ino_MtimeNsec in_) (ino_CreationTimeSec in_)
    (ino_CreationTimeNsec in_) Nlinks (ino_NumExtentsInline in_)
    (ino_ExtentInlineBase in_) (ino_NumExtentsTotal in_) (ino_inlineRegion in_)
    (ino_XattrOffset in_) (ino_XattrSize in_) ParentInode (ino_Unused in_)
    (ino_Flags in_) (ino_DirTrieRoot in_) (ino_Rdev in_) Generation (ino_UserFlags in_)
    (ino_Reserved in_).

Section ops.
Context (sb : SuperblockLayout) {W : Type} `{TW : TrieWorld W} {IW : InodeWorld W}.

(** [inodeAlloc.FreeBlock], which returns nothing. *)
Definition free_number (rel : Z) (w : W) : W * res ialloc_error unit :=
  match FreeBlock (iw_alloc w) rel with
  | Ret a => (iw_set_alloc a w, Ret tt)
  | Err _ => (w, Ret tt)
  | Panic => (w, Panic)
  end.

(** The clock and the generation, a random 32-bit number, are parameters.  The
    inode allocator has no reclaim hook. *)
Definition AllocInode (sec nsec generation : Z) (mode uid gid parentIno : Z) (w : W) : W * res ialloc_error Inode :=
  let '(a, rel) := AllocRuntime.AllocBlock (fun _ => None) (iw_alloc w) in
  let w := iw_set_alloc a w in
  if rel =? 0 then (w, Err ErrNoInodes) else
  let ino := u64 (rel + 1) in
  let isDir := Z.land mode ModeTypeMask =? ModeDir in
  let nlink := if isDir then 2 else 1 in
  let '(w, failed) := iw_record JRN_INODE_ALLOC (Marshal (mkJrnInodeAlloc ino mode nlink uid gid 0 0 0)) w in
  if failed : bool then
    match free_number rel w with
    | (w, Panic) => (w, Panic)
    | (w, _) => (w, Err (ErrJournalInode ino))
    end
  else (w, Ret (set_owner (NewInode sec nsec ino mode) uid gid nlink (if isDir then parentIno else 0) generation)).

Definition FreeInode (ino : Z) (s : tstate W) : tstate W * res ialloc_error unit :=
  if ino =? 0 then (s, Ret tt) else
  match zeroInodeCached sb ino s with
  | (s, Ret _) =>
      let '(w, failed) := iw_record JRN_INODE_FREE (Marshal (mkJrnInodeFree ino (zeros 3) 0 0)) (t_w s) in
      if failed : bool then (set_w w s, Err (ErrJournalInode ino)) else
      let '(w, x) := free_number (u64 (ino - 1)) w in (set_w w s, x)
  | (s, Err e) => (s, Err (ErrZeroInode ino e))
  | (s, Panic) => (s, Panic)
  end.

End ops.

(** ** What the two operations rely on

    [ready] is an invariant of the world; a record keeps it, the free numbers,
    and what readers see of the blocks of the inode table, also when it forces a
    checkpoint. *)
Class InodeLaws (sb : SuperblockLayout) (last : Z) {W : Type} `{TW : TrieWorld W} {IW : InodeWorld W} (ready : W -> Prop) : Prop := {
  il_get a w : iw_alloc (iw_set_alloc a w) = a;
  il_set_ready a w : ready w -> ready (iw_set_alloc a w);
  il_set_read a w b : tw_read (iw_set_alloc a w) b = tw_read w b;
  il_record_ready t data w : ready w -> ready (fst (iw_record t data w));
  il_record_alloc t data w : ready w -> a_pyr (iw_alloc (fst (iw_record t data w))) = a_pyr (iw_alloc w) /\
    a_shield (iw_alloc (fst (iw_record t data w))) = a_shield (iw_alloc w);
  il_record_read t data w i : ready w -> in_table sb last i -> tw_read (fst (iw_record t data w)) (iblk sb i) = tw_read w (iblk sb i);
}.

Section laws.
Context (sb : SuperblockLayout) (last : Z) (Hg : geometry sb last) {W : Type} `{TW : TrieWorld W} {IW : InodeWorld W}.
Context (ready : W -> Prop) {HL : InodeLaws sb last ready}.

Definition numbers (w : W) : gset Z := free_set (a_pyr (iw_alloc w)).
(** The readers' view of the table. *)
Definition same_table (w w' : W) : Prop := forall i, in_table sb last i -> tw_read w' (iblk sb i) = tw_read w (iblk sb i).

Lemma same_pyr_ok a a' : a_pyr a' = a_pyr a -> a_shield a' = a_shield a -> rt_ok a -> rt_ok a'.
Proof using. intros Hp Hs (H1 & H2 & H3). unfold rt_ok. rewrite Hp, Hs. by split_and!. Qed.

Lemma record_spec t data w : ready w -> rt_ok (iw_alloc w) ->
  let w' := fst (iw_record t data w) in ready w' /\ rt_ok (iw_alloc w') /\ numbers w' = numbers w /\
    BlockCount (a_pyr (iw_alloc w')) = BlockCount (a_pyr (iw_alloc w)) /\ same_table w w'.
Proof using HL.
  intros Hr Ha. destruct (il_record_alloc t data w Hr) as [Hp Hs]. split; [by apply il_record_ready|]. split; [by apply (same_pyr_ok (iw_alloc w))|].
  unfold numbers. rewrite Hp. split; [done|]. split; [done|]. intros i Hi. by apply il_record_read.
Qed.

Lemma free_number_spec rel w : ready w -> rt_ok (iw_alloc w) -> 0 < rel < BlockCount (a_pyr (iw_alloc w)) ->
  exists w', free_number rel w = (w', Ret tt) /\ ready w' /\ rt_ok (iw_alloc w') /\ numbers w' = {[rel]} ∪ numbers w /\ same_table w w'.
Proof using HL.
  intros Hr (HP & H0 & Hs) Hb. destruct (AllocMarkFree_spec (a_pyr (iw_alloc w)) rel HP ltac:(lia)) as (Q & EQ & HQ & HbQ & HfQ). rewrite decide_True in HfQ by lia.
  unfold free_number, FreeBlock. rewrite L0_nonempty by apply HP. rewrite EQ. cbn [mbind res_bind]. eexists. split; [done|]. split; [by apply il_set_ready|].
  unfold numbers, rt_ok. rewrite il_get. destruct (bool_decide _); cbn [a_pyr a_shield touch with_pyr]; rewrite HfQ.
  all: split; [split_and!; [done| |exact Hs]; rewrite elem_of_union, elem_of_singleton; intros [?|?]; [done|lia]|].
  all: split; [apply (comm_L _)|]; intros i _; by rewrite il_set_read.
Qed.

(** The inode that [AllocInode] makes. *)
Definition fresh_inode (sec nsec generation mode uid gid parentIno ino : Z) : Inode :=
  let isDir := Z.land mode ModeTypeMask =? ModeDir in
  set_owner (NewInode sec nsec ino mode) uid gid (if isDir then 2 else 1) (if isDir then parentIno else 0) generation.

Lemma fresh_inode_wf sec nsec generation mode uid gid parentIno ino : is_u64 nsec -> is_u32 generation -> is_u32 mode -> is_u32 uid -> is_u32 gid ->
  is_u64 parentIno -> is_u64 ino -> codec_wf (fresh_inode sec nsec generation mode uid gid parentIno ino).
Proof using.
  intros [] [] [] [] [] [] []. pose proof (Z.mod_pos_bound sec (2 ^ 64) ltac:(lia)). unfold fresh_inode. destruct (_ =? _).
  all: split; [|done]; repeat (apply Forall_cons_2; [first [split; [apply length_zeros|apply bytes_zeros]|cbn; unfold u64; lia|cbn; done]|]); apply Forall_nil_2.
Qed.

(** C22 Allocating an inode: the number handed out is the lowest free one plus
    one, so it is the number of no inode in use, it is taken, and the inode has
    the mode and owner asked for, with two links and its parent for a directory,
    and encodes; when the journal refuses the record, the number is free again;
    out of numbers is reported only when none is available, and no operation
    changes the inode table. *)
Theorem AllocInode_correct sec nsec generation mode uid gid parentIno w : ready w -> rt_ok (iw_alloc w) ->
  is_u64 nsec -> is_u32 generation -> is_u32 mode -> is_u32 uid -> is_u32 gid -> is_u64 parentIno ->
  let '(w', x) := AllocInode sec nsec generation mode uid gid parentIno w in
  ready w' /\ rt_ok (iw_alloc w') /\ same_table w w' /\
  match x with
  | Ret in_ => exists rel, least (numbers w) rel /\ rel <> 0 /\ numbers w' = numbers w ∖ {[rel]} /\ codec_wf in_ /\
      in_ = fresh_inode sec nsec generation mode uid gid parentIno (rel + 1)
  | Err ErrNoInodes => dataAvail (iw_alloc w) = 0 /\ numbers w' = numbers w
  | Err _ => numbers w' = numbers w
  | Panic => False
  end.
Proof using HL.
  intros Hr Ha Hn Hge Hm Hu Hgi Hpa. unfold AllocInode, AllocRuntime.AllocBlock, allocBlock.
  destruct (tryAllocBlock_spec (iw_alloc w) false Ha) as [[Hav E]|(_ & a' & rel & E & Hl & Hne & Ht & _)]; rewrite E.
  - cbn [Z.eqb]. unfold numbers. rewrite il_get. split; [by apply il_set_ready|]. split; [done|]. split; [|done]. intros i _. apply il_set_read.
  - rewrite (proj2 (Z.eqb_neq rel 0) Hne). rewrite (proj2 (Z.eqb_neq rel 0) Hne). pose proof (free_set_range _ _ (proj1 Hl)) as Hb. pose proof (wf_bc _ (wf_shape _ (proj1 Ha))) as Hbc.
    rewrite (u64_small (rel + 1)) by (unfold is_u64; lia). set (w1 := iw_set_alloc a' w). assert (Ea : iw_alloc w1 = a') by apply il_get.
    assert (Hr1 : ready w1) by by apply il_set_ready. assert (Ha1 : rt_ok (iw_alloc w1)) by (rewrite Ea; by eapply took_rt_ok).
    destruct Ht as (_ & HbQ & HfQ & _). match goal with |- context [iw_record ?t ?d w1] => pose proof (record_spec t d w1 Hr1 Ha1) as H2; destruct (iw_record t d w1) as [w2 failed] end.
    cbn [fst] in H2. destruct H2 as (Hr2 & Ha2 & N2 & B2 & S2). assert (N1 : numbers w1 = numbers w ∖ {[rel]}) by (unfold numbers; by rewrite Ea).
    assert (S : same_table w w2) by (intros i Hi; rewrite (S2 i Hi); apply il_set_read).
    destruct failed.
    + destruct (free_number_spec rel w2 Hr2 Ha2) as (w3 & -> & Hr3 & Ha3 & N3 & S3); [rewrite B2, Ea, HbQ; lia|]. split; [done|]. split; [done|].
      split; [intros i Hi; rewrite (S3 i Hi); by apply S|]. rewrite N3, N2, N1. symmetry. apply union_difference_singleton_L. apply Hl.
    + split; [done|]. split; [done|]. split; [done|]. exists rel. split; [done|]. split; [done|]. split; [by rewrite N2|].
      split; [|done]. apply fresh_inode_wf; try done. unfold is_u64. lia.
Qed.

Lemma table_set_w s w' i : same_table (t_w s) w' -> in_table sb last i -> view (set_w w' s) (iblk sb i) = view s (iblk sb i).
Proof using. intros Hs Hi. unfold view. cbn. destruct (t_cache s !! iblk sb i); [done|]. by apply Hs. Qed.

(** C23 Freeing an inode: its slot reads as zeros within the operation and every
    other slot as before; its number is free afterwards, unless the journal
    refuses the record, in which case the number stays taken, so that a number is
    never free while the journal does not say so. *)
Theorem FreeInode_correct ino s : ready (t_w s) -> rt_ok (iw_alloc (t_w s)) -> cached s -> table_ok sb last (view s) -> in_table sb last ino ->
  1 < ino <= BlockCount (a_pyr (iw_alloc (t_w s))) ->
  let '(s', x) := FreeInode sb ino s in
  ready (t_w s') /\ rt_ok (iw_alloc (t_w s')) /\
  (forall i, in_table sb last i -> ReadInode sb (view s') i = if decide (i = ino) then Ret zero_inode else ReadInode sb (view s) i) /\
  match x with
  | Ret _ => numbers (t_w s') = {[ino - 1]} ∪ numbers (t_w s)
  | Err e => e = ErrJournalInode ino /\ numbers (t_w s') = numbers (t_w s)
  | Panic => False
  end.
Proof using HL Hg.
  intros Hr Ha Hc Ht Hi Hb. pose proof (wf_bc _ (wf_shape _ (proj1 Ha))) as Hbc. unfold FreeInode. rewrite (proj2 (Z.eqb_neq ino 0)) by lia.
  destruct (zeroInodeCached_spec sb last Hg s ino Hc Ht Hi) as (s1 & -> & _ & Ew & _ & Hz). rewrite Ew.
  match goal with |- context [iw_record ?t ?d (t_w s)] => pose proof (record_spec t d (t_w s) Hr Ha) as H2; destruct (iw_record t d (t_w s)) as [w2 failed] end.
  cbn [fst] in H2. destruct H2 as (Hr2 & Ha2 & N2 & B2 & S2).
  assert (Hv : forall w', same_table (t_w s) w' -> forall i, in_table sb last i -> ReadInode sb (view (set_w w' s1)) i = if decide (i = ino) then Ret zero_inode else ReadInode sb (view s) i).
  { intros w' Hs i Hi'. rewrite <- (Hz i Hi'). unfold ReadInode. rewrite (location sb last Hg i Hi'). cbn [mbind res_bind]. by rewrite table_set_w by (done || by rewrite Ew). }
  destruct failed; [split; [done|]; split; [done|]; split; [by apply Hv|done]|].
  rewrite (u64_small (ino - 1)) by (unfold is_u64; lia). destruct (free_number_spec (ino - 1) w2 Hr2 Ha2) as (w3 & -> & Hr3 & Ha3 & N3 & S3); [rewrite B2; lia|].
  split; [done|]. split; [done|]. split; [apply Hv; intros i Hi'; rewrite (S3 i Hi'); by apply S2|]. cbn. by rewrite N3, N2.
Qed.

End laws.

(** ** A small world

    The table of [small_table], numbers 1 and 4 taken, and a journal with room
    for two records. *)
Record small_world := mkSmall { sm_d : deferred; sm_inodes : Allocator; sm_log : list (Z * list Z) }.

#[local] Instance small_tries : TrieWorld small_world := {|
  tw_read w := readBlock (sm_d w);
  tw_alloc w := (w, 0);
  tw_free _ w := w;
  tw_record _ w := (w, true);
  tw_defer _ w := w;
  tw_start := 1000;
|}.
#[local] Instance small_inodes : InodeWorld small_world := {|
  iw_alloc := sm_inodes;
  iw_set_alloc a w := mkSmall (sm_d w) a (sm_log w);
  iw_record t data w := if decide (length (sm_log w) < 2)%nat then (mkSmall (sm_d w) (sm_inodes w) (sm_log w ++ [(t, data)]), false) else (w, true);
|}.
#[local] Instance small_laws : InodeLaws small_sb 41 (fun _ : small_world => True).
Proof. split; intros; cbn [iw_record small_inodes]; try done; by case_decide. Qed.

Definition small_start (n : nat) : small_world := mkSmall small_table sample_alloc (replicate n (0, [])).
Definition small_make (n : nat) : small_world * res ialloc_error Inode := AllocInode 7 0 99 0x41ED 1000 100 1 (small_start n).
Definition small_drop (n : nat) : tstate small_world * res ialloc_error unit :=
  FreeInode small_sb 4 (mkT (small_start n) [] ∅ ∅ [] false []).

Lemma AllocInode_correct_witness : snd (small_make 0) = Ret (fresh_inode 7 0 99 0x41ED 1000 100 1 2) /\ (1 ∉ numbers (fst (small_make 0))) /\
  snd (small_make 2) = Err (ErrJournalInode 2) /\ numbers (fst (small_make 2)) = numbers (small_start 2).
Proof.
  assert (H : forall n, let '(w', x) := small_make n in rt_ok (iw_alloc w') /\ match x with
    | Ret in_ => exists rel, least (numbers (small_start n)) rel /\ numbers w' = numbers (small_start n) ∖ {[rel]} /\ in_ = fresh_inode 7 0 99 0x41ED 1000 100 1 (rel + 1)
    | Err ErrNoInodes => True | Err _ => numbers w' = numbers (small_start n) | Panic => False end).
  { intros n. pose proof (AllocInode_correct small_sb 41 (fun _ => True) 7 0 99 0x41ED 1000 100 1 (small_start n) I sample_alloc_ok
      ltac:(unfold is_u64; lia) ltac:(unfold is_u32; lia) ltac:(unfold is_u32; lia) ltac:(unfold is_u32; lia) ltac:(unfold is_u32; lia) ltac:(unfold is_u64; lia)) as H.
    fold (small_make n) in H. destruct (small_make n) as [w' [in_|[]|]]; destruct H as (_ & H1 & _ & H2); (split; [exact H1|]); [|exact I|exact H2|exact H2|exact H2].
    destruct H2 as (rel & A & _ & B & _ & C). exists rel. split; [exact A|]. split; [exact B|exact C]. }
  assert (E0 : snd (small_make 0) = Ret (fresh_inode 7 0 99 0x41ED 1000 100 1 2)) by (vm_compute; reflexivity).
  assert (E2 : snd (small_make 2) = Err (ErrJournalInode 2)) by (vm_compute; reflexivity).
  split; [exact E0|]. split; [|split; [exact E2|]].
  - pose proof (H 0%nat) as H0. destruct (small_make 0) as [w' x]. cbn [fst snd] in *. subst x. destruct H0 as (_ & rel & _ & Hn & Hi).
    apply (f_equal ino_InodeNumber) in Hi. change (2 = rel + 1) in Hi. assert (rel = 1) as -> by lia. rewrite Hn. clear. set_solver.
  - pose proof (H 2%nat) as H2. destruct (small_make 2) as [w' x]. cbn [fst snd] in *. subst x. exact (proj2 H2).
Defined.

Lemma FreeInode_correct_witness : snd (small_drop 0) = Ret tt /\ numbers (t_w (fst (small_drop 0))) = {[3]} ∪ numbers (small_start 0) /\
  ReadInode small_sb (view (fst (small_drop 0))) 3 = Ret (small_file 3) /\
  snd (small_drop 2) = Err (ErrJournalInode 4) /\ numbers (t_w (fst (small_drop 2))) = numbers (small_start 2).
Proof.
  assert (H : forall n, let '(s', x) := small_drop n in ReadInode small_sb (view s') 3 = Ret (small_file 3) /\ match x with
    | Ret _ => numbers (t_w s') = {[3]} ∪ numbers (small_start n) | Err e => numbers (t_w s') = numbers (small_start n) | Panic => False end).
  { intros n. set (s := mkT (small_start n) [] ∅ ∅ [] false []).
    assert (Hc : cached s) by (split; intros b; [intros a Ha|intros b' a Ha|intros a Ha]; unfold s in Ha; cbn [t_cache] in Ha; by rewrite lookup_empty in Ha).
    pose proof (FreeInode_correct small_sb 41 small_geometry (fun _ => True) 4 s I sample_alloc_ok Hc (proj1 small_table_ok) (small_in 4 ltac:(lia)) ltac:(split; [lia|done])) as H.
    change (FreeInode small_sb 4 s) with (small_drop n) in H. destruct (small_drop n) as [s' x]. destruct H as (_ & _ & Hv & Hx). split.
    - rewrite (Hv 3 (small_in 3 ltac:(lia))). vm_compute. reflexivity.
    - destruct x as [u|e|]; [exact Hx|exact (proj2 Hx)|exact Hx]. }
  assert (E0 : snd (small_drop 0) = Ret tt) by (vm_compute; reflexivity). assert (E2 : snd (small_drop 2) = Err (ErrJournalInode 4)) by (vm_compute; reflexivity).
  pose proof (H 0%nat) as H0. pose proof (H 2%nat) as H2. clear H. destruct (small_drop 0) as [s0 x0], (small_drop 2) as [s2 x2]. cbn [fst snd] in *. subst x0 x2.
  split; [reflexivity|]. split; [exact (proj2 H0)|]. split; [exact (proj1 H0)|]. split; [reflexivity|exact (proj2 H2)].
Defined.
