(* ===== verification/TrieBridge.v ===== *)
(** * Directory tries over the real allocator, free queue and deferred metadata

    The instance of the interface [TrieWorld] by the data allocator of
    fuse/fs.go and the deferred metadata of fuse/cache.go, whose own theorems
    discharge [TrieLaws].  The journal is a parameter: all the tries need of it
    is that writing a record and syncing only commit. *)

From stdpp Require Import base numbers list option gmap.
From Stdlib Require Import ZArith Lia.
From S2P Require Import Prelude Bits AllocCore Allocator Extents Device AllocRuntime AllocRuns.
From S2P Require Import Codec TriePage Trie TrieStore TrieShape TrieOps TrieInsert TrieFind TrieRemove TrieDir MetaCache Inode.

Local Open Scope Z_scope.

Section bridge.
Context {J : Type}.

Record trie_world := mkTrieWorld { tb_d : deferred; tb_j : J }.

Definition set_d (d : deferred) (w : trie_world) : trie_world := mkTrieWorld d (tb_j w).

Definition tryAlloc (w : trie_world) : trie_world * Z :=
  let '(a, rel) := tryAllocBlock (d_alloc (tb_d w)) false in (set_d (set_alloc a (tb_d w)) w, rel).

Context (start : Z).

(** The blocks of [X] are addressable, not free, and not waiting to be freed. *)
Definition in_use (w : trie_world) (X : gset Z) : Prop :=
  good start (tb_d w) /\
  forall x, x ∈ X -> 0 <= x < start + BlockCount (a_pyr (d_alloc (tb_d w))) /\
    (x - start ∉ free_set (a_pyr (d_alloc (tb_d w)))) /\ (x - start ∉ pend (tb_d w)).

Lemma commits_in_use disk w w' X : in_use w X -> commits start disk (tb_d w) (tb_d w') -> in_use w' X.
Proof using.
  intros [Hg HX] [Hg' Hc Hf Hp _]. split; [done|]. intros x Hx. destruct (HX x Hx) as (H1 & H2 & H3).
  rewrite Hc. split_and!; [lia..| |]; clear - H2 H3 Hf Hp; set_solver.
Qed.

Lemma tryAlloc_spec w X w' rel : in_use w X -> tryAlloc w = (w', rel) ->
  readBlock (tb_d w') = readBlock (tb_d w) /\ pend (tb_d w') = pend (tb_d w) /\
  (rel = 0 /\ in_use w' X \/
   0 < rel /\ start + rel < 2 ^ 58 /\ (start + rel ∉ X) /\ in_use w' ({[start + rel]} ∪ X)).
Proof using.
  intros [Hg HX] E. pose proof Hg as [A B C D I K]. unfold tryAlloc in E.
  destruct (tryAllocBlock_spec (d_alloc (tb_d w)) false A) as [[_ E']|(_ & a' & b & E' & [Hl _] & Hb & Ht & _)];
    rewrite E' in E; injection E as <- <-; (split; [done|]); (split; [done|]).
  { left. split; [done|]. split; [by split|done]. }
  destruct Ht as (HQ & HbQ & HfQ & HsQ). right. pose proof (free_set_range _ _ Hl).
  split_and!; [lia|lia| |].
  { intros Hx. destruct (HX _ Hx) as (_ & H1 & _). apply H1. by replace (start + b - start) with b by lia. }
  split.
  - destruct A as (A1 & A2 & A3). split; cbn; rewrite ?HfQ, ?HbQ; try done; [|set_solver].
    split_and!; [done|rewrite HfQ; set_solver|by rewrite HsQ].
  - cbn. rewrite HfQ, HbQ. intros x [->%elem_of_singleton|Hx]%elem_of_union.
    + replace (start + b - start) with b by lia. split_and!; [lia|lia|set_solver|].
      change (pend (set_alloc a' (tb_d w))) with (pend (tb_d w)). set_solver.
    + destruct (HX x Hx) as (? & ? & ?). split_and!; [lia|lia|set_solver|done].
Qed.

(** [journal.Sync(false)] and [journal.WriteRecord]; the boolean says that the
    call failed. *)
Context (sync : trie_world -> trie_world * bool) (record : list Z -> trie_world -> trie_world * bool).

(** [BrieFS.reclaimPendingFrees], the allocator's hook. *)
Definition reclaimPendingFrees (w : trie_world) : trie_world * bool :=
  if pendingFreeCount (tb_d w) =? 0 then (w, false) else
  let '(w, failed) := sync w in (w, negb failed).

(** [dataAlloc.AllocBlock] with that hook. *)
Definition AllocBlock (w : trie_world) : trie_world * Z :=
  let '(w, rel) := tryAlloc w in
  if rel =? 0 then
    let '(w, again) := reclaimPendingFrees w in if again then tryAlloc w else (w, rel)
  else (w, rel).

#[local] Instance real_trie : TrieWorld trie_world := {|
  tw_read w := readBlock (tb_d w);
  tw_alloc := AllocBlock;
  tw_free rel w := match FreeBlock (d_alloc (tb_d w)) rel with Ret a => set_d (set_alloc a (tb_d w)) w | _ => w end;
  tw_record := record;
  tw_defer b w := set_d (deferBlockFree start b (tb_d w)) w;
  tw_start := start;
|}.

(** The blocks below the data region's end that a commit must leave alone. *)
Definition in_data (b : Z) : Prop := start < b.

(** What the tries rely on of the journal. *)
Record journal_ok : Prop := {
  jo_sync w : good start (tb_d w) -> commits start in_data (tb_d w) (tb_d (fst (sync w)));
  jo_record rec w : good start (tb_d w) -> commits start in_data (tb_d w) (tb_d (fst (record rec w)));
}.

(** Allocation keeps what a sync keeps, and hands out a block that was not in
    use. *)
Lemma AllocBlock_any (keeps : Z -> Prop) w X w' rel :
  (forall w, good start (tb_d w) -> commits start keeps (tb_d w) (tb_d (fst (sync w)))) -> in_use w X -> AllocBlock w = (w', rel) ->
  same_disk keeps w w' /\
  (rel = 0 /\ in_use w' X \/
   0 < rel /\ start + rel < 2 ^ 58 /\ (start + rel ∉ X) /\ in_data (start + rel) /\
   in_use w' ({[start + rel]} ∪ X)).
Proof using.
  intros HJ HX. unfold AllocBlock. destruct (tryAlloc w) as [w1 r1] eqn:E1.
  destruct (tryAlloc_spec w X w1 r1 HX E1) as (R1 & P1 & C1). destruct (Z.eqb_spec r1 0) as [Hr|Hr].
  - destruct C1 as [[_ HX1]|?]; [|lia]. unfold reclaimPendingFrees.
    assert (Hsame1 : same_disk keeps w w1) by (intros b _; cbn; by rewrite R1).
    destruct (pendingFreeCount (tb_d w1) =? 0); [intros [= <- <-]; by eauto|].
    pose proof (HJ w1 (proj1 HX1)) as Hc. destruct (sync w1) as [w2 failed]. cbn [fst] in Hc.
    pose proof (commits_in_use _ _ _ _ HX1 Hc) as HX2.
    assert (Hsame2 : same_disk keeps w w2).
    { intros b Hb. cbn. rewrite (cm_read _ _ _ _ Hc b Hb). by apply Hsame1. }
    destruct failed; cbn [negb]; [intros [= <- <-]; by eauto|]. intros E2.
    destruct (tryAlloc_spec w2 X w' rel HX2 E2) as (R2 & _ & C2). split.
    { intros b Hb. cbn. rewrite R2. by apply Hsame2. }
    destruct C2 as [?|(? & ? & ? & ?)]; [by left|right]. split_and!; try done. unfold in_data. lia.
  - intros [= <- <-]. split; [intros b _; cbn; by rewrite R1|].
    destruct C1 as [[? _]|(? & ? & ? & ?)]; [done|right]. split_and!; try done. unfold in_data. lia.
Qed.

Lemma AllocBlock_spec w X w' rel : journal_ok -> in_use w X -> AllocBlock w = (w', rel) ->
  same_disk in_data w w' /\
  (rel = 0 /\ in_use w' X \/
   0 < rel /\ start + rel < 2 ^ 58 /\ (start + rel ∉ X) /\ in_data (start + rel) /\
   in_use w' ({[start + rel]} ∪ X)).
Proof using. intros HJ. apply AllocBlock_any. apply HJ. Qed.

Lemma real_trie_laws : 0 <= start -> journal_ok -> TrieLaws trie_world in_use in_data.
Proof using.
  intros H0 HJ. split; [done| | | |].
  - intros w X w' rel HX E. by apply AllocBlock_spec.
  - intros w X rel [Hg HX] Hrel Hin. cbn in *. pose proof Hg as [A B C D I K].
    destruct (FreeBlock_spec (d_alloc (tb_d w)) rel A Hrel) as (a' & -> & Ha' & Hb & Hf). split; [by intros b _|].
    destruct (HX _ Hin) as (H1 & H2 & H3). replace (start + rel - start) with rel in * by lia.
    rewrite decide_True in Hf by lia. split.
    + split; cbn; rewrite ?Hf, ?Hb; try done. change (pend (set_alloc a' (tb_d w))) with (pend (tb_d w)). set_solver.
    + cbn. rewrite Hf, Hb. change (pend (set_alloc a' (tb_d w))) with (pend (tb_d w)).
      intros x [Hx Hn]%elem_of_difference. destruct (HX x Hx) as (? & ? & ?).
      assert (x - start <> rel) by (intros <-; apply Hn; rewrite elem_of_singleton; lia). set_solver.
  - intros w X rec w' x HX E. cbn in E. pose proof (jo_record HJ rec w (proj1 HX)) as Hc. rewrite E in Hc.
    split; [intros b Hb; by apply (cm_read _ _ _ _ Hc)|by apply (commits_in_use _ _ _ _ HX Hc)].
  - intros w X b [Hg HX] Hb Hin. cbn in *. pose proof Hg as [A B C D I K]. destruct (HX _ Hin) as (H1 & H2 & H3).
    split; [by intros b' _|]. unfold in_use. cbn [tb_d set_d]. unfold deferBlockFree, deferBlockFreeRun.
    rewrite u64_small by (unfold is_u64; lia).
    destruct (addRun_spec (d_frees (tb_d w)) (b - start) 1 D) as [Hok Hbl]; [lia..|].
    assert (Hpend : pend (set_frees (addRun (d_frees (tb_d w)) (b - start) 1) (tb_d w)) = {[b - start]} ∪ pend (tb_d w)).
    { unfold pend. cbn [d_frees set_frees]. rewrite Hbl, list_to_set_app_L. cbn. set_solver by lia. }
    split.
    + split; rewrite ?Hpend; cbn; try done; [set_solver|]. intros r [->%elem_of_singleton|Hr]%elem_of_union; [lia|by apply K].
    + rewrite Hpend. cbn. intros x [Hx Hn]%elem_of_difference. destruct (HX x Hx) as (? & ? & ?).
      assert (x - start <> b - start) by (intros ?; apply Hn; rewrite elem_of_singleton; lia). set_solver.
Qed.

Lemma fresh_store d j (w := mkTrieWorld d j) : good start d -> d_dirty d = ∅ ->
  tstore (holds := in_use) (disk := in_data) w ∅ (mkT w [] ∅ ∅ [] false []) ∅ ∅.
Proof using.
  intros Hg Hd. exists ∅. split; [|intros r; unfold node; by rewrite !lookup_empty].
  split; try done; set_solver.
Qed.

End bridge.

Arguments trie_world : clear implicits.

(** ** A small volume

    200 data blocks from block 1000 on; the journal keeps the records since the
    last sync, and a sync drains the deferred metadata. *)
Definition sample_sync (w : trie_world (list (list Z))) : trie_world (list (list Z)) * bool :=
  match SyncMeta (fun _ => None) (tb_d w) with
  | Ret (d, e) => (mkTrieWorld d [], bool_decide (is_Some e))
  | _ => (w, true)
  end.

Definition sample_record (rec : list Z) (w : trie_world (list (list Z))) : trie_world (list (list Z)) * bool :=
  (mkTrieWorld (tb_d w) (tb_j w ++ [rec]), false).

Lemma sample_journal_ok : journal_ok 1000 sample_sync sample_record.
Proof.
  split.
  - intros w Hg. destruct (SyncMeta_commits 1000 (fun _ => None) (tb_d w) Hg) as (d' & e & E & Hc & _).
    unfold sample_sync. rewrite E. destruct Hc as [A B C D I]. split; [exact A|exact B|exact C|exact D|].
    intros b _. by apply I.
  - intros rec w Hg. by apply commits_refl.
Qed.

#[local] Instance sample_trie : TrieWorld (trie_world (list (list Z))) := real_trie 1000 sample_sync sample_record.
#[local] Instance sample_laws : TrieLaws (trie_world (list (list Z))) (in_use 1000) (in_data 1000).
Proof. apply real_trie_laws; [done|exact sample_journal_ok]. Qed.

Definition sample_world : trie_world (list (list Z)) := mkTrieWorld (mkDeferred ∅ [] ∅ sample_alloc) [].
Definition sample_state : tstate (trie_world (list (list Z))) := mkT sample_world [] ∅ ∅ [] false [].

Abbreviation sample_store := (tstore (holds := in_use 1000) (disk := in_data 1000) sample_world ∅).

Lemma sample_state_store : sample_store sample_state ∅ ∅.
Proof.
  apply (fresh_store 1000 sample_sync sample_record (mkDeferred ∅ [] ∅ sample_alloc) []); [|reflexivity].
  apply fresh_good; [exact sample_alloc_ok|done|vm_compute; reflexivity].
Qed.

Definition sample_dir : Inode := NewInode 0 0 7 0x41ED.

(** "ab" is file 12. *)
Definition sample_inserted := TrieInsert sample_dir [97; 98] 12 8 sample_state.

Abbreviation sample_after := (dir_after (holds := in_use 1000) (disk := in_data 1000) sample_world ∅).

Lemma TrieInsert_correct_witness :
  fst (snd sample_inserted) = set_root sample_dir 64064 /\ snd (snd sample_inserted) = Ret tt /\
  sample_after ∅ ∅ 64064 {[ [97; 98] := (12, 8) ]} (fst sample_inserted).
Proof.
  assert (E1 : fst (snd sample_inserted) = set_root sample_dir 64064) by (vm_compute; reflexivity).
  assert (E2 : snd (snd sample_inserted) = Ret tt) by (vm_compute; reflexivity).
  split; [exact E1|]. split; [exact E2|].
  pose proof (TrieInsert_correct sample_world ∅ sample_state ∅ ∅ sample_dir ∅ ∅ [97; 98] 12 8 sample_state_store
    (conj eq_refl eq_refl) ltac:(discriminate) ltac:(repeat constructor; discriminate) ltac:(unfold is_u64; lia) ltac:(unfold is_u8; lia)) as H.
  change (TrieInsert _ _ _ _ _) with sample_inserted in H. destruct sample_inserted as [s' [di' x]]. cbn [fst snd] in *. subst di' x.
  destruct H as (_ & m' & Ha & _ & _ & ->). exact Ha.
Defined.

(** The state after that insertion, as the other operations find it. *)
Lemma sample_inserted_dir : exists X σ T, sample_store (fst sample_inserted) X σ /\
  dir_trie (ino_DirTrieRoot (fst (snd sample_inserted))) T σ {[ [97; 98] := (12, 8) ]}.
Proof.
  pose proof (TrieInsert_spec sample_world ∅ sample_state ∅ ∅ sample_dir ∅ ∅ [97; 98] 12 8 sample_state_store
    (conj eq_refl eq_refl) ltac:(discriminate) ltac:(repeat constructor; discriminate) ltac:(unfold is_u64; lia) ltac:(unfold is_u8; lia)) as H.
  change (TrieInsert _ _ _ _ _) with sample_inserted in H. assert (E2 : snd (snd sample_inserted) = Ret tt) by (vm_compute; reflexivity).
  destruct sample_inserted as [s' [di' x]]. cbn [fst snd] in *. subst x.
  destruct H as (_ & m' & (X & σ & T & Hs & Hd & _) & _ & _ & ->). by exists X, σ, T.
Qed.

Lemma sample_inserted_root : ino_DirTrieRoot (fst (snd sample_inserted)) = 64064.
Proof. vm_compute. reflexivity. Qed.

Lemma TrieLookup_correct_witness :
  TrieLookup (view (fst sample_inserted)) 64064 [97; 98] tt = (tt, Ret (12, 8)) /\
  TrieLookup (view (fst sample_inserted)) 64064 [97] tt = (tt, Err ErrNotFound).
Proof.
  destruct sample_inserted_dir as (X & σ & T & Hs & Hd). rewrite sample_inserted_root in Hd.
  pose proof (tstore_shown _ _ _ _ _ Hs) as Hsh.
  pose proof (TrieLookup_correct (view (fst sample_inserted)) σ 64064 T _ [97; 98] Hsh Hd) as H1.
  pose proof (TrieLookup_correct (view (fst sample_inserted)) σ 64064 T _ [97] Hsh Hd) as H2.
  rewrite lookup_singleton_eq in H1. rewrite lookup_singleton_ne in H2 by discriminate. split; [exact H1|exact H2].
Defined.

(** The blocks that can be read then. *)
Definition sample_blocks : gset Z :=
  dom (t_cache (fst sample_inserted)) ∪ dom (d_dirty (tb_d (t_w (fst sample_inserted)))) ∪ dom (d_disk (tb_d (t_w (fst sample_inserted)))).

Lemma sample_blocks_all b : is_Some (view (fst sample_inserted) b) -> b ∈ sample_blocks.
Proof.
  unfold sample_blocks, view. generalize (fst sample_inserted). intros s Hb. rewrite !elem_of_union, !elem_of_dom.
  destruct (t_cache s !! b) as [a|]; [left; left; by eexists|]. cbn in Hb. rewrite readBlock_view in Hb.
  destruct (d_dirty _ !! b); [left; right; by eexists|right; exact Hb].
Qed.

Lemma sample_entries name e : ({[ [97; 98] := (12, 8) ]} : gmap (list Z) (Z * Z)) !! name = Some e -> fst e <> 0.
Proof. intros [_ <-]%lookup_singleton_Some. discriminate. Qed.

(** The same state and directory, as a reader finds them. *)
Lemma sample_inserted_shown : exists σ T, shown (view (fst sample_inserted)) σ /\
  trie (ino_DirTrieRoot (fst (snd sample_inserted))) T σ {[ [97; 98] := (12, 8) ]}.
Proof.
  destruct sample_inserted_dir as (X & σ & T & Hs & Hd). exists σ, T. split; [exact (tstore_shown _ _ _ _ _ Hs)|].
  rewrite sample_inserted_root in *. exact Hd.
Qed.

Lemma Readdir_correct_witness : exists l,
  Readdir (view (fst sample_inserted)) (S (128 * size sample_blocks)) (fst (snd sample_inserted)) 7 1 =
    Ret ([mkDirEntry ModeDir 7 [46]; mkDirEntry ModeDir 1 [46; 46]] ++ l) /\
  l ≡ₚ [mkDirEntry 0x8000 12 [97; 98]].
Proof.
  destruct sample_inserted_shown as (σ & T & Hsh & Hd).
  destruct (Readdir_correct (view (fst sample_inserted)) sample_blocks (S (128 * size sample_blocks)) σ T {[ [97; 98] := (12, 8) ]} (fst (snd sample_inserted))
    sample_blocks_all (Nat.lt_succ_diag_r _) Hsh Hd 7 1 sample_entries) as (l & E1 & E2).
  exists l. split; [exact E1|]. rewrite map_to_list_singleton in E2. exact E2.
Defined.

Lemma dirIsEmpty_correct_witness :
  dirIsEmpty (view (fst sample_inserted)) (S (128 * size sample_blocks)) (fst (snd sample_inserted)) = Ret false.
Proof.
  destruct sample_inserted_shown as (σ & T & Hsh & Hd).
  rewrite (dirIsEmpty_correct (view (fst sample_inserted)) sample_blocks (S (128 * size sample_blocks)) σ T {[ [97; 98] := (12, 8) ]} (fst (snd sample_inserted))
    sample_blocks_all (Nat.lt_succ_diag_r _) Hsh Hd sample_entries).
  rewrite bool_decide_false; [reflexivity|]. apply map_non_empty_singleton.
Defined.

Lemma dirIsEmpty_unreadable_witness : dirIsEmpty (fun _ => None) 1 (fst (snd sample_inserted)) = Ret true.
Proof. apply (dirIsEmpty_unreadable (fun _ => None) 0). reflexivity. Defined.

Lemma TrieUpdateEntry_correct_witness :
  let '(s', x) := TrieUpdateEntry (fst (snd sample_inserted)) [97; 98] 13 4 (fst sample_inserted) in
  exists T σ m', sample_after T σ 64064 m' s' /\ update_result {[ [97; 98] := (12, 8) ]} [97; 98] (13, 4) m' x.
Proof.
  destruct sample_inserted_dir as (X & σ & T & Hs & Hd).
  pose proof (TrieUpdateEntry_correct sample_world ∅ _ X σ _ T _ [97; 98] 13 4 Hs Hd
    ltac:(unfold is_u64; lia) ltac:(unfold is_u8; lia)) as H.
  rewrite sample_inserted_root in H. destruct (TrieUpdateEntry _ _ _ _ _) as [s' x].
  destruct H as (m' & H1 & H2). exists T, σ, m'. split; [exact H1|exact H2].
Defined.

Lemma TrieRemove_correct_witness :
  let '(s', (di', x)) := TrieRemove (fst (snd sample_inserted)) [97; 98] (fst sample_inserted) in
  exists T σ m', sample_after T σ (ino_DirTrieRoot di') m' s' /\ remove_result {[ [97; 98] := (12, 8) ]} [97; 98] m' x.
Proof.
  destruct sample_inserted_dir as (X & σ & T & Hs & Hd).
  pose proof (TrieRemove_correct sample_world ∅ _ X σ _ T _ [97; 98] Hs Hd) as H.
  destruct (TrieRemove _ _ _) as [s' [di' x]]. destruct H as (_ & m' & H1 & H2).
  exists T, σ, m'. split; [exact H1|exact H2].
Defined.
