(* ===== verification/XattrDisk.v ===== *)
(** * Blocks of extended attributes (briefs/xattr_disk.go)

    The header of a block in its two versions, and the entries that follow it. *)

From stdpp Require Import base numbers list option.
From Stdlib Require Import ZArith Lia.
From S2P Require Import Prelude Codec Crc32c.

Local Open Scope Z_scope.

(** ** Constants *)
Definition MagicXattr : Z := 0x58415454.
Definition BrieFSXattrVersion : Z := 2.
Definition BrieFSXattrFlagCont : Z := 1.
Definition XattrEntrySize : Z := 8.
Definition XattrMaxUsed : Z := 4044.
Definition XattrMaxChain : Z := 1024.

Inductive xattr_error :=
| ErrXattrShort (len : Z)
| ErrXattrMagic (magic : Z)
| ErrXattrVersion (version : Z)
| ErrXattrCodec (e : codec_error)
| ErrXattrEntry (entryOff len : Z)
| ErrXattrLoop (block : Z)
| ErrXattrLong
| ErrXattrRead (block : Z)
| ErrXattrCrc (block : Z)
| ErrXattrWrite (block : Z)
| ErrXattrJournal
| ErrXattrInode (ino : Z)
| XErrno (e : errno).

Definition lift_xcodec {A} (x : res codec_error A) : res xattr_error A :=
  match x with Ret a => Ret a | Err e => Err (ErrXattrCodec e) | Panic => Panic end.


(** [int(_)] *)
Definition XattrHeaderSize (version : Z) : Z := if version =? 1 then 16 else 32.

(** ** Headers *)
Definition ReadXattrHeader (buf : list Z) : res xattr_error XattrHeader :=
  if xlen buf <? XattrHeaderSize 1 then Err (ErrXattrShort (xlen buf)) else
  let magic := le_get (take 4 buf) in
  if negb (magic =? MagicXattr) then Err (ErrXattrMagic magic) else
  let version := le_get (slice 4 8 buf) in
  if negb (version =? 1) && negb (version =? 2) then Err (ErrXattrVersion version) else
  let hdrSize := XattrHeaderSize version in
  if xlen buf <? hdrSize then Err (ErrXattrShort (xlen buf)) else
  if version =? 2 then lift_xcodec (UnmarshalBinary (take (Z.to_nat hdrSize) buf))
  else lift_xcodec (UnmarshalBinary (blit 0 (take (Z.to_nat (XattrHeaderSize 1)) buf) (zeros (Z.to_nat (XattrHeaderSize 2))))).

Definition WriteXattrHeader (buf : list Z) (h : XattrHeader) : res xattr_error (list Z) :=
  let hdrSize := XattrHeaderSize (xh_Version h) in
  if xlen buf <? hdrSize then Err (ErrXattrShort (xlen buf)) else
  data ← lift_xcodec (MarshalBinary h);
  Ret (blit 0 (take (Z.to_nat hdrSize) data) buf).

(** ** Entries

    [entryOff] is a Go int that the callers compute from unsigned values. *)
Definition ReadXattrEntry (buf : list Z) (entryOff : Z) : res xattr_error XattrEntry :=
  if xlen buf <? entryOff + XattrEntrySize then Err (ErrXattrEntry entryOff (xlen buf)) else
  lift_xcodec (UnmarshalBinary (slice (Z.to_nat entryOff) (Z.to_nat (entryOff + XattrEntrySize)) buf)).

Definition WriteXattrEntry (buf : list Z) (entryOff : Z) (e : XattrEntry) : res xattr_error (list Z) :=
  if xlen buf <? entryOff + XattrEntrySize then Err (ErrXattrEntry entryOff (xlen buf)) else
  data ← lift_xcodec (MarshalBinary e);
  Ret (blit (Z.to_nat entryOff) data buf).

(** ** What is read back *)
Lemma slice_take {A} n a b (l : list A) : (b <= n)%nat -> slice a b (take n l) = slice a b l.
Proof.
  intros H. unfold slice. destruct (decide (b <= a)%nat); [by replace (b - a)%nat with O by lia|].
  rewrite !take_drop_commute, take_take. f_equal. f_equal. lia.
Qed.

Lemma ReadXattrHeader_image buf h : codec_wf h -> (32 <= length buf)%nat -> take 32 buf = encode h ->
  xh_Magic h = MagicXattr -> xh_Version h = 2 -> ReadXattrHeader buf = Ret h.
Proof.
  intros Hh Hl Ht Hm Hv. unfold ReadXattrHeader, xlen. change (XattrHeaderSize 1) with 16. rewrite (proj2 (Z.ltb_ge _ _)) by lia.
  assert (E4 : le_get (take 4 buf) = MagicXattr).
  { replace (take 4 buf) with (take 4 (take 32 buf)) by (rewrite take_take; f_equal; lia). rewrite Ht. unfold encode. cbn [fields XattrHeader_codec XattrHeader_MarshalBinary fmap list_fmap concat].
    rewrite take_app_length' by done. cbn. rewrite le_get_put; [exact Hm|]. rewrite Hm. unfold MagicXattr. lia. }
  assert (E8 : le_get (slice 4 8 buf) = 2).
  { rewrite <- (slice_take 32) by lia. rewrite Ht. unfold encode. cbn [fields XattrHeader_codec XattrHeader_MarshalBinary fmap list_fmap concat].
    change 8%nat with (4 + 4)%nat. rewrite slice_app' by done. cbn. rewrite le_get_put; [exact Hv|]. lia. }
  rewrite E4, E8. change (XattrHeaderSize 2) with 32. cbn [negb Z.eqb andb Pos.eqb]. rewrite (proj2 (Z.ltb_ge _ _)) by lia.
  change (Z.to_nat 32) with 32%nat. rewrite Ht. pose proof (UnmarshalBinary_encode h [] Hh) as E. rewrite app_nil_r in E. by rewrite E.
Qed.

Lemma ReadXattrHeader_total buf : bytes buf -> ReadXattrHeader buf <> Panic.
Proof.
  intros Hb. unfold ReadXattrHeader. destruct (xlen buf <? _) eqn:E1; [done|]. destruct (negb (_ =? MagicXattr)); [done|].
  apply Z.ltb_ge in E1. unfold xlen in *. change (XattrHeaderSize 1) with 16 in *.
  destruct (Z.eqb_spec (le_get (slice 4 8 buf)) 1) as [->|N1]; [|destruct (Z.eqb_spec (le_get (slice 4 8 buf)) 2) as [->|N2]; [|done]]; cbn -[UnmarshalBinary].
  - destruct (_ <? _); [done|]. destruct (UnmarshalBinary_total (A := XattrHeader) (blit 0 (take 16 buf) (zeros 32))) as (h & E & _).
    + rewrite blit_zeros by (rewrite length_take; lia). apply bytes_app. split; [by apply bytes_take|apply bytes_zeros].
    + rewrite length_blit by lia. rewrite length_zeros. done.
    + enough (H : lift_xcodec (UnmarshalBinary (A := XattrHeader) (blit 0 (take 16 buf) (zeros 32))) <> Panic) by exact H. by rewrite E.
  - destruct (_ <? _) eqn:E2; [done|]. apply Z.ltb_ge in E2.
    destruct (UnmarshalBinary_total (A := XattrHeader) (take 32 buf)) as (h & E & _); [by apply bytes_take|rewrite length_take; change (Size XattrHeader) with 32%nat; lia|].
    enough (H : lift_xcodec (UnmarshalBinary (A := XattrHeader) (take 32 buf)) <> Panic) by exact H. by rewrite E.
Qed.

Lemma ReadXattrEntry_image buf off e : codec_wf e -> 0 <= off -> off + 8 <= xlen buf ->
  slice (Z.to_nat off) (Z.to_nat off + 8) buf = encode e -> ReadXattrEntry buf off = Ret e.
Proof.
  intros He H0 Hl Hs. unfold ReadXattrEntry, XattrEntrySize. rewrite (proj2 (Z.ltb_ge _ _)) by lia.
  replace (Z.to_nat (off + 8)) with (Z.to_nat off + 8)%nat by lia. rewrite Hs.
  pose proof (UnmarshalBinary_encode e [] He) as E. rewrite app_nil_r in E. by rewrite E.
Qed.

Lemma ReadXattrEntry_total buf off : bytes buf -> 0 <= off -> ReadXattrEntry buf off <> Panic.
Proof.
  intros Hb H0. unfold ReadXattrEntry, XattrEntrySize. destruct (_ <? _) eqn:E; [done|]. apply Z.ltb_ge in E. unfold xlen in E.
  destruct (UnmarshalBinary_total (A := XattrEntry) (slice (Z.to_nat off) (Z.to_nat (off + 8)) buf)) as (e & -> & _); [by apply bytes_take, bytes_drop| |done].
  rewrite length_slice by lia. change (Size XattrEntry) with 8%nat. lia.
Qed.
