(* ===== verification/Xattr.v ===== *)
(** * Chains of attribute blocks (fuse/xattr.go)

    The entries of an inode are packed into blocks: an entry block holds a table
    of entries and then names and values; a value that does not fit is continued
    in the blocks that follow.  Here are the plan of the blocks, their images, and
    the reading of a chain; XattrRead has the round trip between them. *)

From stdpp Require Import base numbers list option gmap.
From Stdlib Require Import ZArith Lia.
From S2P Require Import Prelude Codec Crc32c XattrDisk.

Local Open Scope Z_scope.

Definition xattrBlockMaxEntries : Z := 501.
Definition xattrPayloadCap : Z := XattrMaxUsed - 32.

Record xattrKV := mkKV { kv_name : list Z; kv_value : list Z }.

Record xattrBlockDesc := mkDesc {
  xd_cont : bool; xd_payloadUsed : Z; xd_kv : list Z; xd_inlineLen : list Z;
  xd_kvIdx : Z; xd_valueOff : Z; xd_fragLen : Z;
}.

(** On a uint32. *)
Definition align4 (n : Z) : Z := Z.ldiff (u32 (n + 3)) 3.

(** ** The plan *)
Definition entry_block : xattrBlockDesc := mkDesc false 0 [] [] 0 0 0.
Definition cont_block (kvIdx valueOff frag : Z) : xattrBlockDesc := mkDesc true frag [] [] kvIdx valueOff frag.

Definition full (needEntry : Z) (d : xattrBlockDesc) : bool :=
  (u32 (xattrPayloadCap - xd_payloadUsed d) <? needEntry) || (xattrBlockMaxEntries <=? Z.of_nat (length (xd_kv d))).

(** The [goto again] loop: [None] when it has not ended within [fuel] rounds. *)
Fixpoint find_block (fuel : nat) (needEntry : Z) (descs : list xattrBlockDesc) (cur : nat) : option (list xattrBlockDesc * nat) :=
  match fuel, descs !! cur with
  | S fuel, Some d => if full needEntry d then find_block fuel needEntry (descs ++ [entry_block]) (length descs) else Some (descs, cur)
  | _, _ => None
  end.

Definition inline_len (valueLen remaining : Z) : Z :=
  if (valueLen =? 0) || (remaining <? 4) then 0
  else if align4 valueLen <=? remaining then valueLen
  else let r4 := Z.ldiff remaining 3 in if r4 <? valueLen then r4 else valueLen.

(** The rest of a value in blocks of their own; a round takes at least a byte. *)
Fixpoint cont_loop (fuel : nat) (i off rem : Z) : list xattrBlockDesc :=
  match fuel with
  | O => []
  | S fuel =>
      if 0 <? rem then
        let frag := if xattrPayloadCap <? rem then xattrPayloadCap else rem in
        cont_block i off frag :: cont_loop fuel i (u32 (off + frag)) (u32 (rem - frag))
      else []
  end.
Definition cont_blocks (i off rem : Z) : list xattrBlockDesc := cont_loop (Z.to_nat rem) i off rem.

Definition add_entry (d : xattrBlockDesc) (i needEntry inlineLen : Z) : xattrBlockDesc :=
  mkDesc (xd_cont d) (u32 (xd_payloadUsed d + u32 (needEntry + align4 inlineLen))) (xd_kv d ++ [u32 i]) (xd_inlineLen d ++ [inlineLen])
    (xd_kvIdx d) (xd_valueOff d) (xd_fragLen d).

Definition plan_entry (fuel : nat) (i : Z) (kv : xattrKV) (descs : list xattrBlockDesc) (cur : nat) : option (list xattrBlockDesc * nat) :=
  let nameLen := u32 (xlen (kv_name kv)) in
  let valueLen := u32 (xlen (kv_value kv)) in
  let needEntry := u32 (XattrEntrySize + align4 nameLen) in
  '(descs, cur) ← find_block fuel needEntry descs cur;
  d ← descs !! cur;
  let remaining := u32 (u32 (xattrPayloadCap - xd_payloadUsed d) - needEntry) in
  let inlineLen := inline_len valueLen remaining in
  let descs := <[cur := add_entry d i needEntry inlineLen]> descs in
  Some (descs ++ (if inlineLen <? valueLen then cont_blocks (u32 i) inlineLen (u32 (valueLen - inlineLen)) else []), cur).

Fixpoint plan_loop (fuel : nat) (i : Z) (kvs : list xattrKV) (descs : list xattrBlockDesc) (cur : nat) : option (list xattrBlockDesc) :=
  match kvs with
  | [] => Some descs
  | kv :: kvs => '(descs, cur) ← plan_entry fuel i kv descs cur; plan_loop fuel (i + 1) kvs descs cur
  end.

Definition buildXattrChain (fuel : nat) (kvs : list xattrKV) : option (res xattr_error (list xattrBlockDesc)) :=
  if decide (kvs = []) then Some (Ret []) else
  descs ← plan_loop fuel 0 kvs [entry_block] 0;
  Some (if XattrMaxChain <? Z.of_nat (length descs) then Err (XErrno ENOSPC) else Ret descs).

(** ** The images *)

(** One entry at index [j]; the error of [WriteXattrEntry] is ignored. *)
Definition serialize_entry (kvs : list xattrKV) (d : xattrBlockDesc) (kvIdx j off : Z) (buf : list Z) : res xattr_error (list Z * Z) :=
  let hdrSize := XattrHeaderSize BrieFSXattrVersion in
  kv ← index kvs kvIdx;
  inlineLen ← index (xd_inlineLen d) j;
  let nameLen := u32 (xlen (kv_name kv)) in
  let valueLen := u32 (xlen (kv_value kv)) in
  let base := u32 (hdrSize + u32 (j * XattrEntrySize)) in
  let nameOff := off in
  buf ← copy_at buf off (kv_name kv);
  let off := u32 (off + align4 nameLen) in
  '(buf, valueOff, off) ←
    (if (valueLen =? 0) || (inlineLen =? 0) then Ret (buf, 0, off) else
     part ← subslice (kv_value kv) 0 inlineLen;
     buf ← copy_at buf off part;
     Ret (buf, u16 off, u32 (off + align4 inlineLen)));
  match WriteXattrEntry buf base (mkXattrEntry (u16 nameLen) (u16 valueLen) (u16 nameOff) valueOff) with
  | Ret buf => Ret (buf, off)
  | Err _ => Ret (buf, off)
  | Panic => Panic
  end.

Fixpoint serialize_entries (kvs : list xattrKV) (d : xattrBlockDesc) (idxs : list Z) (j off : Z) (buf : list Z) : res xattr_error (list Z * Z) :=
  match idxs with
  | [] => Ret (buf, off)
  | kvIdx :: idxs => '(buf, off) ← serialize_entry kvs d kvIdx j off buf; serialize_entries kvs d idxs (j + 1) off buf
  end.

(** The checksum is stored as [SetBtreeNodeChecksum] stores that of a node. *)
Definition seal (buf : list Z) (blockSize : Z) : res xattr_error (list Z) :=
  match SetBtreeNodeChecksum buf blockSize with Ret buf => Ret buf | _ => Panic end.

Definition serializeXattrBlock (d : xattrBlockDesc) (kvs : list xattrKV) (absBlocks : list Z) (i : nat) (blockSize : Z) : res xattr_error (list Z) :=
  let buf := zeros (Z.to_nat blockSize) in
  let hdrSize := XattrHeaderSize BrieFSXattrVersion in
  let NextBlock := default 0 (absBlocks !! S i) in
  '(buf, used, flags, count) ←
    (if xd_cont d then
       kv ← index kvs (xd_kvIdx d);
       part ← subslice (kv_value kv) (xd_valueOff d) (u32 (xd_valueOff d + xd_fragLen d));
       buf ← copy_at buf hdrSize part;
       Ret (buf, u32 (hdrSize + xd_fragLen d), BrieFSXattrFlagCont, 0)
     else
       let n := u32 (Z.of_nat (length (xd_kv d))) in
       '(buf, off) ← serialize_entries kvs d (xd_kv d) 0 (u32 (hdrSize + u32 (n * XattrEntrySize))) buf;
       Ret (buf, off, 0, n));
  buf ← (match WriteXattrHeader buf (mkXattrHeader MagicXattr BrieFSXattrVersion used count NextBlock flags 0) with
         | Ret buf => Ret buf | Err _ => Ret buf | Panic => Panic end);
  seal buf blockSize.

Fixpoint serialize_blocks (kvs : list xattrKV) (absBlocks : list Z) (blockSize : Z) (i : nat) (descs : list xattrBlockDesc) : res xattr_error (list (list Z)) :=
  match descs with
  | [] => Ret []
  | d :: descs =>
      buf ← serializeXattrBlock d kvs absBlocks i blockSize;
      bufs ← serialize_blocks kvs absBlocks blockSize (S i) descs;
      Ret (buf :: bufs)
  end.

Definition usedSizeOf (buf : list Z) : Z :=
  match ReadXattrHeader buf with Ret h => xh_UsedSize h | _ => 0 end.

(** ** Reading a chain *)
Section read.
Context (readBlock : Z -> option (list Z)) (blockSize : Z).

(** A block of a chain: its number, its content and its header. *)
Abbreviation link := (Z * list Z * XattrHeader)%type.

Definition abs_blocks (chain : list link) : list Z := (fun x => x.1.1) <$> chain.

Definition verify_block (verifyCRC : bool) (block : Z) (buf : list Z) : res xattr_error unit :=
  if verifyCRC then
    match VerifyChainChecksum buf blockSize with Ret _ => Ret tt | Err _ => Err (ErrXattrCrc block) | Panic => Panic end
  else Ret tt.

(** More than [XattrMaxChain] visited blocks end the walk, so that
    [XattrMaxChain + 2] rounds are enough. *)
Fixpoint walk_chain (fuel : nat) (verifyCRC : bool) (visited : gset Z) (block : Z) : res xattr_error (list link) :=
  if block =? 0 then Ret [] else
  match fuel with
  | O => Panic
  | S fuel =>
      if bool_decide (block ∈ visited) then Err (ErrXattrLoop block) else
      if XattrMaxChain <? Z.of_nat (size visited) then Err ErrXattrLong else
      match readBlock block with
      | None => Err (ErrXattrRead block)
      | Some buf =>
          h ← ReadXattrHeader buf;
          _ ← verify_block verifyCRC block buf;
          rest ← walk_chain fuel verifyCRC ({[block]} ∪ visited) (xh_NextBlock h);
          Ret ((block, buf, h) :: rest)
      end
  end.

Definition walkXattrChain (head : Z) (verifyCRC : bool) : res xattr_error (list link) :=
  walk_chain (Z.to_nat (XattrMaxChain + 2)) verifyCRC ∅ head.

Definition is_cont (h : XattrHeader) : bool := negb (Z.land (xh_Flags h) BrieFSXattrFlagCont =? 0).

(** The rest of a value from the continuation blocks that follow; [acc] is what
    was copied. *)
Fixpoint take_cont (following : list link) (valueLen : Z) (acc : list Z) : res xattr_error (list Z) :=
  if valueLen <=? xlen acc then Ret acc else
  match following with
  | [] => Ret acc
  | (_, cbuf, ch) :: following =>
      if negb (is_cont ch) then Ret acc else
      let chdrSize := XattrHeaderSize (xh_Version ch) in
      let cap := u32 (xh_UsedSize ch - chdrSize) in
      let n := if u32 (valueLen - xlen acc) <? cap then u32 (valueLen - xlen acc) else cap in
      part ← subslice cbuf chdrSize (u32 (chdrSize + n));
      take_cont following valueLen (acc ++ part)
  end.

Definition inline_part (buf : list Z) (used valueLen valueOff : Z) : res xattr_error (list Z) :=
  if valueOff =? 0 then Ret [] else
  let avail := u32 (used - valueOff) in
  let n := if valueLen <? avail then valueLen else avail in
  subslice buf valueOff (u32 (valueOff + n)).

Definition load_entry (buf : list Z) (h : XattrHeader) (following : list link) (j : Z) : res xattr_error xattrKV :=
  e ← ReadXattrEntry buf (u32 (XattrHeaderSize (xh_Version h) + u32 (j * XattrEntrySize)));
  name ← subslice buf (xe_NameOffset e) (u32 (xe_NameOffset e + xe_NameLen e));
  value ← (if 0 <? xe_ValueLen e then
             acc ← inline_part buf (xh_UsedSize h) (xe_ValueLen e) (xe_ValueOffset e);
             take_cont following (xe_ValueLen e) acc
           else Ret []);
  Ret (mkKV name (value ++ zeros (Z.to_nat (xe_ValueLen e) - length value))).

Fixpoint load_entries (buf : list Z) (h : XattrHeader) (following : list link) (n : nat) (j : Z) : res xattr_error (list xattrKV) :=
  match n with
  | O => Ret []
  | S n =>
      kv ← load_entry buf h following j;
      kvs ← load_entries buf h following n (j + 1);
      Ret (kv :: kvs)
  end.

Fixpoint load_blocks (chain : list link) : res xattr_error (list xattrKV) :=
  match chain with
  | [] => Ret []
  | (_, buf, h) :: following =>
      kvs ← (if is_cont h then Ret [] else load_entries buf h following (Z.to_nat (xh_EntryCount h)) 0);
      rest ← load_blocks following;
      Ret (kvs ++ rest)
  end.

Definition loadXattrEntries (XattrOffset : Z) : res xattr_error (list xattrKV * list Z) :=
  if XattrOffset =? 0 then Ret ([], []) else
  chain ← walkXattrChain XattrOffset true;
  kvs ← load_blocks chain;
  Ret (kvs, abs_blocks chain).

Definition walkXattrChainBlocks (head : Z) : res xattr_error (list Z) :=
  chain ← walkXattrChain head false;
  Ret (abs_blocks chain).

End read.
