(* ===== verification/XattrChain.v ===== *)
(** * What a chain of attribute blocks holds

    The plan of a chain is a sequence of groups, an entry block and the
    continuation blocks of its last entry; the images of the blocks read back as
    the entries they were planned for. *)

From stdpp Require Import base numbers list option gmap.
From Stdlib Require Import ZArith Lia.
From S2P Require Import Prelude Codec Crc32c XattrDisk Xattr.

Local Open Scope Z_scope.

(** ** Alignment *)
Lemma ldiff3 n : Z.ldiff n 3 = 4 * (n / 4).
Proof.
  change 3 with (Z.ones 2). rewrite Z.ldiff_ones_r by lia. rewrite Z.shiftl_mul_pow2, Z.shiftr_div_pow2 by lia.
  change (2 ^ 2) with 4. lia.
Qed.

Lemma align4_eq n : 0 <= n < 2 ^ 32 - 3 -> align4 n = 4 * ((n + 3) / 4).
Proof. intros H. unfold align4. rewrite u32_small by (unfold is_u32; lia). apply ldiff3. Qed.

Lemma align4_spec n : 0 <= n < 2 ^ 32 - 3 -> n <= align4 n < n + 4 /\ align4 n mod 4 = 0.
Proof.
  intros H. rewrite align4_eq by done. pose proof (Z.div_mod (n + 3) 4 ltac:(lia)). pose proof (Z.mod_pos_bound (n + 3) 4 ltac:(lia)).
  split; [lia|]. rewrite Z.mul_comm. apply Z.mod_mul. lia.
Qed.

Lemma align4_exact n : 0 <= n < 2 ^ 32 - 3 -> n mod 4 = 0 -> align4 n = n.
Proof.
  intros H Hm. pose proof (align4_spec n H) as [H1 H2]. pose proof (Z.div_mod n 4 ltac:(lia)). pose proof (Z.div_mod (align4 n) 4 ltac:(lia)). lia.
Qed.

#[global] Opaque align4.

(** ** Groups *)

(** An entry with the part of its value that stays in the entry block. *)
Abbreviation planned := (xattrKV * Z)%type.

Definition vlen (kv : xattrKV) : Z := xlen (kv_value kv).
Definition nlen (kv : xattrKV) : Z := xlen (kv_name kv).

Definition esize (x : planned) : Z := 8 + align4 (nlen x.1) + align4 x.2.
Definition total (es : list planned) : Z := foldr (fun x n => esize x + n) 0 es.

Definition conts (i : Z) (x : planned) : list xattrBlockDesc :=
  if x.2 <? vlen x.1 then cont_blocks i x.2 (vlen x.1 - x.2) else [].

(** What an entry block and the blocks after it must be able to take. *)
Definition fits (kv : xattrKV) : Prop := nlen kv <= 4004 /\ vlen kv <= 65536.

Record group (a : Z) (d : xattrBlockDesc) (cs : list xattrBlockDesc) (es : list planned) : Prop := {
  g_desc : d = mkDesc false (total es) (seqZ a (Z.of_nat (length es))) es.*2 0 0 0;
  g_total : total es <= 4012;
  g_fits : Forall (fun x => fits x.1 /\ 0 <= x.2 <= vlen x.1) es;
  g_whole k x : es !! k = Some x -> (S k < length es)%nat -> x.2 = vlen x.1;
  g_last x : last es = Some x -> cs = conts (a + Z.of_nat (length es) - 1) x /\
    (x.2 < vlen x.1 -> total es = 4012 /\ x.2 mod 4 = 0);
  g_nil : es = [] -> cs = [];
}.

Inductive plan : Z -> list xattrBlockDesc -> list xattrKV -> Prop :=
| plan_nil a : plan a [] []
| plan_group a d cs es descs kvs : group a d cs es -> plan (a + Z.of_nat (length es)) descs kvs ->
    plan a (d :: cs ++ descs) (es.*1 ++ kvs).

Lemma plan_snoc a D K d cs es : plan a D K -> group (a + Z.of_nat (length K)) d cs es -> plan a (D ++ d :: cs) (K ++ es.*1).
Proof.
  intros HD. revert d cs es. induction HD as [a|a d0 cs0 es0 D K Hg0 HD IH]; intros d cs es Hg; cbn [app].
  - replace (d :: cs) with (d :: cs ++ []) by (by rewrite app_nil_r). rewrite <- (app_nil_r (es.*1)).
    rewrite Z.add_0_r in Hg. apply plan_group; [exact Hg|constructor].
  - rewrite <- !app_assoc. apply plan_group; [exact Hg0|]. apply IH. rewrite length_app, length_fmap in Hg.
    by replace (a + Z.of_nat (length es0) + Z.of_nat (length K)) with (a + Z.of_nat (length es0 + length K)) by lia.
Qed.

Lemma esize_bound x : fits x.1 -> 0 <= x.2 <= vlen x.1 -> 8 <= esize x /\ esize x mod 4 = 0.
Proof.
  intros [H1 H2] H3. unfold esize, nlen, vlen, xlen in *.
  destruct (align4_spec (Z.of_nat (length (kv_name x.1)))) as [H4 H5]; [lia|]. destruct (align4_spec x.2) as [H6 H7]; [lia|].
  split; [lia|]. rewrite Z.add_mod, (Z.add_mod 8), H5, H7 by lia. reflexivity.
Qed.

Lemma total_app es es' : total (es ++ es') = total es + total es'.
Proof. induction es as [|x es IH]; cbn; [done|]. unfold total in *. lia. Qed.

Lemma total_bound es : Forall (fun x : planned => fits x.1 /\ 0 <= x.2 <= vlen x.1) es ->
  8 * Z.of_nat (length es) <= total es /\ total es mod 4 = 0.
Proof.
  induction 1 as [|x es [H1 H2] _ [IH1 IH2]]; [done|]. destruct (esize_bound x H1 H2) as [H3 H4]. change (total (x :: es)) with (esize x + total es).
  split; [cbn [length]; lia|]. by rewrite Z.add_mod, H4, IH2 by lia.
Qed.

Lemma inline_len_spec v rem : 0 <= v <= 65536 -> 0 <= rem <= 4012 -> rem mod 4 = 0 ->
  let inl := inline_len v rem in
  0 <= inl <= v /\ align4 inl <= rem /\ (inl < v -> align4 inl = rem /\ inl mod 4 = 0).
Proof.
  intros Hv Hr Hm inl. unfold inl, inline_len. pose proof (align4_spec v ltac:(lia)) as [A1 A2].
  destruct (Z.eqb_spec v 0) as [->|Hv0]; [cbn; rewrite (align4_exact 0) by done; lia|]. cbn [orb].
  destruct (Z.ltb_spec rem 4) as [H4|H4].
  { pose proof (Z.div_mod rem 4 ltac:(lia)). rewrite (align4_exact 0) by done. split; [lia|]. split; [lia|]. intros _. split; [lia|done]. }
  destruct (Z.leb_spec (align4 v) rem) as [H5|H5]; [lia|]. rewrite ldiff3.
  pose proof (Z.div_mod rem 4 ltac:(lia)). replace (4 * (rem / 4)) with rem by lia. pose proof (Z.div_mod (align4 v) 4 ltac:(lia)).
  destruct (Z.ltb_spec rem v) as [H6|H6]; [|exfalso; lia]. rewrite align4_exact by lia. lia.
Qed.

#[global] Opaque inline_len.

(** ** The plan *)
Definition grow (i : Z) (kv : xattrKV) (d : xattrBlockDesc) : xattrBlockDesc * list xattrBlockDesc :=
  let need := 8 + align4 (nlen kv) in
  let inl := inline_len (vlen kv) (4012 - xd_payloadUsed d - need) in
  (add_entry d i need inl, conts i (kv, inl)).

Lemma group_grow a d es kv : group a d [] es -> fits kv -> 0 <= a -> a + Z.of_nat (length es) < 2 ^ 32 ->
  8 + align4 (nlen kv) <= 4012 - total es ->
  exists inl, let i := a + Z.of_nat (length es) in
    inl = inline_len (vlen kv) (4012 - total es - (8 + align4 (nlen kv))) /\
    group a (fst (grow i kv d)) (snd (grow i kv d)) (es ++ [(kv, inl)]).
Proof.
  intros [A B C D E F] Hkv Ha Hlen Hroom. eexists. split; [reflexivity|].
  destruct (total_bound es C) as [T1 T2]. assert (Hn : 0 <= nlen kv <= 4004) by (destruct Hkv; unfold nlen, xlen in *; lia).
  assert (Hv : 0 <= vlen kv <= 65536) by (destruct Hkv; unfold vlen, xlen in *; lia).
  destruct (align4_spec (nlen kv)) as [N1 N2]; [lia|].
  set (rem := 4012 - total es - (8 + align4 (nlen kv))).
  assert (Hm : rem mod 4 = 0).
  { unfold rem. rewrite Zminus_mod, (Zminus_mod 4012), T2, (Z.add_mod 8), N2 by lia. reflexivity. }
  assert (Hrem : 0 <= rem <= 4012) by (unfold rem; lia).
  destruct (inline_len_spec (vlen kv) rem Hv Hrem Hm) as (I1 & I2 & I3). set (inl := inline_len (vlen kv) rem) in *.
  assert (Ht : total (es ++ [(kv, inl)]) = total es + (8 + align4 (nlen kv)) + align4 inl).
  { rewrite total_app. cbn. unfold esize. cbn. lia. }
  assert (Hi : 0 <= align4 inl) by (pose proof (align4_spec inl ltac:(lia)); lia).
  assert (Hd : xd_payloadUsed d = total es) by (by rewrite A). unfold grow. rewrite Hd. fold rem. fold inl. cbn [fst snd]. split.
  - rewrite A. unfold add_entry. cbn [xd_cont xd_payloadUsed xd_kv xd_inlineLen xd_kvIdx xd_valueOff xd_fragLen].
    rewrite (u32_small (8 + align4 (nlen kv) + align4 inl)) by (unfold is_u32; lia).
    rewrite !u32_small by (unfold is_u32, rem in *; lia). f_equal; [lia| |by rewrite fmap_app].
    rewrite length_app. cbn [length]. rewrite Nat2Z.inj_add, seqZ_app by lia. done.
  - unfold rem in *. lia.
  - apply Forall_app. split; [exact C|]. by apply Forall_singleton.
  - intros k x Hx Hk. rewrite length_app in Hk. cbn in Hk. rewrite lookup_app_l in Hx by lia.
    destruct (decide (S k < length es)%nat) as [Hlt|]; [by eapply D|].
    destruct (E x) as [E1 E2]; [rewrite last_lookup; by replace (Nat.pred (length es)) with k by lia|].
    pose proof (Forall_lookup_1 _ _ _ _ C Hx) as [_ ?]. destruct (decide (x.2 = vlen x.1)); [done|]. lia.
  - intros x Hx. rewrite last_snoc in Hx. injection Hx as <-. cbn [fst snd]. rewrite length_app. cbn [length]. split; [f_equal; lia|]. intros H. apply I3 in H. lia.
  - intros H. by apply app_nil in H as [_ ?].
Qed.

Lemma group_empty a : group a entry_block [] [].
Proof. by split. Qed.

Lemma not_full a d cs es need : group a d cs es -> 0 < need -> full need d = false -> need <= 4012 - total es /\ cs = [].
Proof.
  intros [A B C D E F] Hn Hf. unfold full in Hf. apply orb_false_iff in Hf as [Hf _]. rewrite A in Hf. cbn [xd_payloadUsed] in Hf.
  destruct (total_bound es C) as [T1 _]. change xattrPayloadCap with 4012 in Hf. rewrite u32_small in Hf by (unfold is_u32; lia).
  apply Z.ltb_ge in Hf. split; [lia|]. destruct (last es) as [x|] eqn:El; [|by apply F, last_None].
  destruct (E x eq_refl) as [-> E2]. unfold conts. destruct (Z.ltb_spec x.2 (vlen x.1)); [|done]. lia.
Qed.

(** The state of the planning loop after the entries [K]. *)
Definition planning (K : list xattrKV) (descs : list xattrBlockDesc) (cur : nat) : Prop :=
  exists D d cs es K1, descs = D ++ d :: cs /\ cur = length D /\ plan 0 D K1 /\
    group (Z.of_nat (length K1)) d cs es /\ K = K1 ++ es.*1.

Lemma find_block_spec fuel K descs cur need : planning K descs cur -> 0 < need <= 4012 ->
  exists descs' cur' d, find_block (S (S fuel)) need descs cur = Some (descs', cur') /\
    descs' !! cur' = Some d /\ full need d = false /\ planning K descs' cur'.
Proof.
  intros Hp Hn. assert (Hp' := Hp). destruct Hp as (D & d & cs & es & K1 & -> & -> & HD & Hg & ->).
  cbn [find_block]. rewrite list_lookup_middle by done. destruct (full need d) eqn:Ef.
  - rewrite lookup_app_r, Nat.sub_diag by lia. cbn [lookup list_lookup].
    assert (full need entry_block = false) as E.
    { unfold full. change (u32 (xattrPayloadCap - xd_payloadUsed entry_block)) with 4012. rewrite (proj2 (Z.ltb_ge _ _)) by lia. done. }
    rewrite E. exists ((D ++ d :: cs) ++ [entry_block]), (length (D ++ d :: cs)), entry_block. split; [done|].
    split; [by rewrite lookup_app_r, Nat.sub_diag by lia|]. split; [done|].
    exists (D ++ d :: cs), entry_block, [], [], (K1 ++ es.*1). split; [done|]. split; [done|].
    split; [by apply plan_snoc|]. split; [apply group_empty|by rewrite app_nil_r].
  - exists (D ++ d :: cs), (length D), d. split; [done|]. split; [by apply list_lookup_middle|]. split; [done|]. exact Hp'.
Qed.

Lemma plan_entry_spec fuel K descs cur kv : planning K descs cur -> fits kv -> Z.of_nat (length K) < 2 ^ 32 ->
  exists descs' cur', plan_entry (S (S fuel)) (Z.of_nat (length K)) kv descs cur = Some (descs', cur') /\ planning (K ++ [kv]) descs' cur'.
Proof.
  intros Hp Hkv Hlen. assert (Hn : 0 <= nlen kv <= 4004) by (destruct Hkv; unfold nlen, xlen in *; lia).
  assert (Hv : 0 <= vlen kv <= 65536) by (destruct Hkv; unfold vlen, xlen in *; lia).
  pose proof (align4_spec (nlen kv) ltac:(lia)) as [N1 N2]. unfold plan_entry, XattrEntrySize. fold (nlen kv) (vlen kv).
  rewrite (u32_small (nlen kv)), (u32_small (vlen kv)) by (unfold is_u32; lia).
  assert (Hneed : 8 + align4 (nlen kv) <= 4012) by (pose proof (Z.div_mod (align4 (nlen kv)) 4 ltac:(lia)); lia).
  rewrite (u32_small (8 + _)) by (unfold is_u32; lia).
  destruct (find_block_spec fuel K descs cur (8 + align4 (nlen kv)) Hp ltac:(lia)) as (descs' & cur' & d & -> & Hd & Hf & Hp').
  cbn [mbind option_bind]. rewrite Hd. cbn [mbind option_bind]. eexists _, _. split; [reflexivity|].
  destruct Hp' as (D & d' & cs & es & K1 & -> & -> & HD & Hg & ->). rewrite list_lookup_middle in Hd by done. injection Hd as ->.
  destruct (not_full _ _ _ _ (8 + align4 (nlen kv)) Hg ltac:(lia) Hf) as [Hroom ->]. rewrite length_app, length_fmap, Nat2Z.inj_add in Hlen |- *.
  destruct (group_grow _ _ _ kv Hg Hkv ltac:(lia) Hlen Hroom) as (inl & Einl & Hg'). unfold grow in Hg'.
  assert (Ep : xd_payloadUsed d = total es) by (by rewrite (g_desc _ _ _ _ Hg)). rewrite Ep in Hg' |- *. rewrite <- Einl in Hg'. cbn [fst snd] in Hg'.
  destruct (total_bound es (g_fits _ _ _ _ Hg)) as [T1 _]. change xattrPayloadCap with 4012.
  rewrite (u32_small (4012 - total es)) by (unfold is_u32; lia). rewrite (u32_small (4012 - total es - _)) by (unfold is_u32; lia). rewrite <- Einl.
  rewrite (u32_small (_ + _)) by (unfold is_u32; lia).
  exists D, (add_entry d (Z.of_nat (length K1) + Z.of_nat (length es)) (8 + align4 (nlen kv)) inl), (conts (Z.of_nat (length K1) + Z.of_nat (length es)) (kv, inl)), (es ++ [(kv, inl)]), K1.
  split; [|split; [done|split; [done|split; [exact Hg'|by rewrite fmap_app, app_assoc]]]].
  rewrite insert_app_r_alt, Nat.sub_diag by lia. cbn [insert list_insert]. rewrite <- app_assoc. f_equal. cbn [app]. f_equal.
  unfold conts. cbn [fst snd]. destruct (Z.ltb_spec inl (vlen kv)); [|done].
  pose proof (Forall_app (fun x : planned => fits x.1 /\ 0 <= x.2 <= vlen x.1) es [(kv, inl)]) as [HF _]. destruct (HF (g_fits _ _ _ _ Hg')) as [_ [[_ Hi] _]%Forall_cons].
  cbn in Hi. by rewrite u32_small by (unfold is_u32; lia).
Qed.

Lemma plan_loop_spec fuel kvs : forall K descs cur, planning K descs cur -> Forall fits kvs -> Z.of_nat (length K + length kvs) < 2 ^ 32 ->
  exists descs', plan_loop (S (S fuel)) (Z.of_nat (length K)) kvs descs cur = Some descs' /\ plan 0 descs' (K ++ kvs).
Proof.
  induction kvs as [|kv kvs IH]; intros K descs cur Hp Hf Hlen; cbn [plan_loop].
  - exists descs. split; [done|]. destruct Hp as (D & d & cs & es & K1 & -> & -> & HD & Hg & ->). rewrite app_nil_r. by apply plan_snoc.
  - apply Forall_cons in Hf as [Hkv Hf]. cbn [length] in Hlen.
    destruct (plan_entry_spec fuel K descs cur kv Hp Hkv ltac:(lia)) as (descs1 & cur1 & -> & Hp1). cbn [mbind option_bind].
    replace (Z.of_nat (length K) + 1) with (Z.of_nat (length (K ++ [kv]))) by (rewrite length_app; cbn; lia).
    destruct (IH (K ++ [kv]) descs1 cur1 Hp1 Hf) as (descs' & E & Hplan); [rewrite length_app; cbn; lia|].
    exists descs'. split; [exact E|]. by rewrite <- app_assoc in Hplan.
Qed.

(** Two rounds of the inner loop are enough for names that fit in a block. *)
Lemma buildXattrChain_spec fuel kvs : kvs <> [] -> Forall fits kvs -> Z.of_nat (length kvs) < 2 ^ 32 ->
  exists descs, plan 0 descs kvs /\
    buildXattrChain (S (S fuel)) kvs = Some (if XattrMaxChain <? Z.of_nat (length descs) then Err (XErrno ENOSPC) else Ret descs).
Proof.
  intros Hne Hf Hlen. unfold buildXattrChain. rewrite decide_False by done.
  destruct (plan_loop_spec fuel kvs [] [entry_block] 0) as (descs & E & Hp); [|done|done|].
  - exists [], entry_block, [], [], []. split; [done|]. split; [done|]. split; [constructor|]. split; [apply group_empty|done].
  - exists descs. split; [exact Hp|]. change (Z.of_nat (length (A := xattrKV) [])) with 0 in E. by rewrite E.
Qed.

(** ** Images *)
Definition has (buf : list Z) (pos : Z) (src : list Z) : Prop :=
  0 <= pos /\ pos + xlen src <= xlen buf /\ slice (Z.to_nat pos) (Z.to_nat pos + length src) buf = src.

Lemma has_same buf pos src : 0 <= pos -> pos + xlen src <= xlen buf -> has (blit (Z.to_nat pos) src buf) pos src.
Proof.
  intros H1 H2. unfold has, xlen in *. rewrite length_blit by lia. split; [done|]. split; [lia|]. apply slice_blit_same. lia.
Qed.

Lemma has_other buf pos src at_ new : has buf pos src -> 0 <= at_ -> at_ + xlen new <= xlen buf ->
  pos + xlen src <= at_ \/ at_ + xlen new <= pos -> has (blit (Z.to_nat at_) new buf) pos src.
Proof.
  intros (H1 & H2 & H3) H4 H5 H6. unfold has, xlen in *. rewrite length_blit by lia. split; [done|]. split; [lia|].
  rewrite slice_blit_other by lia. done.
Qed.

Lemma has_subslice {E} buf pos src n : has buf pos src -> n = pos + xlen src -> subslice (E := E) buf pos n = Ret src.
Proof.
  intros (H1 & H2 & H3) ->. unfold subslice. rewrite (proj2 (Z.leb_le _ _)), (proj2 (Z.leb_le _ _)) by (unfold xlen in *; lia). cbn [andb].
  replace (Z.to_nat (pos + xlen src)) with (Z.to_nat pos + length src)%nat by (unfold xlen; lia). by rewrite H3.
Qed.

Lemma bytes_blit pos src dst : bytes src -> bytes dst -> bytes (blit pos src dst).
Proof. intros H1 H2. unfold blit. apply bytes_app. split; [by apply bytes_take|]. apply bytes_app. split; [by apply bytes_take|by apply bytes_drop]. Qed.

(** The names and values after the entry table. *)
Definition psize (x : planned) : Z := align4 (nlen x.1) + align4 x.2.
Definition payload (es : list planned) : Z := foldr (fun x n => psize x + n) 0 es.

Lemma total_payload es : total es = 8 * Z.of_nat (length es) + payload es.
Proof.
  induction es as [|x es IH]; [done|]. change (total (x :: es)) with (esize x + total es). change (payload (x :: es)) with (psize x + payload es).
  unfold esize, psize. cbn [length]. lia.
Qed.

Definition entry_at (x : planned) (off : Z) : XattrEntry :=
  mkXattrEntry (nlen x.1) (u16 (vlen x.1)) off (if x.2 =? 0 then 0 else off + align4 (nlen x.1)).

Fixpoint entries_at (buf : list Z) (j off : Z) (es : list planned) : Prop :=
  match es with
  | [] => True
  | x :: es =>
      (has buf (32 + 8 * j) (encode (entry_at x off)) /\ has buf off (kv_name x.1) /\
       has buf (off + align4 (nlen x.1)) (take (Z.to_nat x.2) (kv_value x.1))) /\
      entries_at buf (j + 1) (off + psize x) es
  end.

Definition good_entry (x : planned) : Prop := fits x.1 /\ 0 <= x.2 <= vlen x.1 /\ bytes (kv_name x.1) /\ bytes (kv_value x.1).

Lemma psize_bound x : good_entry x -> nlen x.1 <= align4 (nlen x.1) /\ x.2 <= align4 x.2 /\ 0 <= nlen x.1 /\ 0 <= x.2 <= 65536.
Proof.
  intros ([H1 H2] & H3 & _). unfold nlen, vlen, xlen in *. pose proof (align4_spec (Z.of_nat (length (kv_name x.1))) ltac:(lia)).
  pose proof (align4_spec x.2 ltac:(lia)). lia.
Qed.

Lemma payload_bound es : Forall good_entry es -> 0 <= payload es.
Proof. induction 1 as [|x es Hx _ IH]; [done|]. apply psize_bound in Hx. change (payload (x :: es)) with (psize x + payload es). unfold psize. lia. Qed.

Lemma entry_wf x off : good_entry x -> 0 <= off -> off + psize x <= 4044 -> codec_wf (entry_at x off).
Proof.
  intros Hx H0 Hoff. apply psize_bound in Hx as Hb. destruct Hb as (B1 & B2 & B3 & B4). unfold psize in Hoff. unfold entry_at.
  pose proof (u16_range (vlen x.1)) as Hr. unfold is_u16 in Hr. destruct (x.2 =? 0); codec_wf_tac.
Qed.

Lemma u16_u32_small n : 0 <= n < 2 ^ 16 -> u16 (u32 n) = n /\ u16 n = n /\ u32 n = n.
Proof. intros H. rewrite !u32_small, !u16_small by (unfold is_u16, is_u32; lia). done. Qed.

(** What one entry writes. *)
Lemma serialize_entry_spec kvs d kvIdx j off buf x : good_entry x -> index (E := xattr_error) kvs kvIdx = Ret x.1 -> index (E := xattr_error) (xd_inlineLen d) j = Ret x.2 ->
  0 <= j -> 40 + 8 * j <= off -> off + psize x <= 4044 -> xlen buf = 4096 -> bytes buf ->
  exists buf', serialize_entry kvs d kvIdx j off buf = Ret (buf', off + psize x) /\ xlen buf' = 4096 /\ bytes buf' /\
    entries_at buf' j off [x] /\
    forall pos src, has buf pos src -> pos + xlen src <= 32 + 8 * j \/ (40 + 8 * j <= pos /\ pos + xlen src <= off) -> has buf' pos src.
Proof.
  intros Hx Hkv Hinl Hj Hoff Hend Hl Hb. apply psize_bound in Hx as Hpb. destruct Hpb as (B1 & B2 & B3 & B4). pose proof (entry_wf x off Hx ltac:(lia) Hend) as Hwf.
  destruct Hx as ([F1 F2] & F3 & F4 & F5). unfold psize in Hend.
  unfold serialize_entry, XattrEntrySize. change (XattrHeaderSize BrieFSXattrVersion) with 32. rewrite Hkv. cbn [mbind res_bind]. rewrite Hinl. cbn [mbind res_bind].
  fold (nlen x.1) (vlen x.1). set (voff := off + align4 (nlen x.1)) in *.
  rewrite (u32_small (j * 8)), (u32_small (32 + j * 8)), (u32_small (nlen x.1)), (u32_small (vlen x.1)) by (unfold is_u32, vlen, xlen in *; lia).
  rewrite (u32_small (off + align4 (nlen x.1))) by (unfold is_u32; lia). fold voff.
  destruct (u16_u32_small (nlen x.1)) as (_ & -> & _); [lia|]. destruct (u16_u32_small off) as (_ & -> & _); [lia|].
  rewrite copy_at_ok by lia. cbn [mbind res_bind]. set (buf1 := blit (Z.to_nat off) (kv_name x.1) buf).
  assert (L1 : xlen buf1 = 4096) by (unfold buf1, xlen in *; rewrite length_blit; lia).
  set (part := take (Z.to_nat x.2) (kv_value x.1)). assert (Lp : xlen part = x.2) by (unfold part, vlen, xlen in *; rewrite length_take; lia).
  set (buf2 := blit (Z.to_nat voff) part buf1). assert (L2 : xlen buf2 = 4096) by (unfold buf2, xlen in *; rewrite length_blit; lia).
  assert (Hval : (if (vlen x.1 =? 0) || (x.2 =? 0) then Ret (buf1, 0, voff) else
     part ← subslice (kv_value x.1) 0 x.2; buf ← copy_at buf1 voff part; Ret (buf, u16 voff, u32 (voff + align4 x.2))) =
     Ret (E := xattr_error) (buf2, if x.2 =? 0 then 0 else voff, off + psize x)).
  { destruct (Z.eqb_spec x.2 0) as [E0|E0].
    - rewrite orb_true_r. assert (part = []) as Ep by (unfold part; by rewrite E0). unfold buf2. rewrite Ep. unfold psize. rewrite E0, (align4_exact 0) by done.
      f_equal. f_equal; [f_equal|lia]. unfold blit. rewrite take_nil, Nat.add_0_r, app_nil_l. by rewrite take_drop.
    - rewrite (proj2 (Z.eqb_neq (vlen x.1) 0)) by lia. cbn [orb]. unfold subslice. rewrite (proj2 (Z.leb_le _ _)), (proj2 (Z.leb_le _ _)) by (unfold vlen in *; lia).
      cbn [andb mbind res_bind]. change (Z.to_nat 0) with O. unfold slice. rewrite drop_0, Nat.sub_0_r. fold part. rewrite copy_at_ok by lia. cbn [mbind res_bind].
      fold buf2. destruct (u16_u32_small voff) as (_ & -> & _); [lia|]. rewrite u32_small by (unfold is_u32; lia). unfold psize. do 2 f_equal. lia. }
  rewrite Hval. cbn [mbind res_bind]. clear Hval.
  fold (entry_at x off). unfold WriteXattrEntry, XattrEntrySize. rewrite (proj2 (Z.ltb_ge _ _)) by lia.
  replace (mkXattrEntry (nlen x.1) (u16 (vlen x.1)) off (if x.2 =? 0 then 0 else voff)) with (entry_at x off) by done.
  rewrite MarshalBinary_encode by done. cbn [lift_xcodec mbind res_bind].
  assert (Le : xlen (encode (entry_at x off)) = 8) by (unfold xlen; by rewrite encode_length).
  eexists. split; [reflexivity|]. replace (32 + j * 8) with (32 + 8 * j) by lia.
  split; [unfold xlen in *; rewrite length_blit; lia|]. split; [apply bytes_blit; [by apply encode_bytes|]; apply bytes_blit; [by apply bytes_take|by apply bytes_blit]|].
  fold (nlen x.1) in *. assert (Ln : xlen (kv_name x.1) = nlen x.1) by done. split.
  - split; [|done]. split; [apply has_same; lia|]. split.
    + apply has_other; [|lia|lia|lia]. apply has_other; [|lia|lia|lia]. apply has_same; lia.
    + fold voff part. apply has_other; [|lia|lia|lia]. apply has_same; lia.
  - intros pos src Hhas Hpos. apply has_other; [|lia|lia|lia]. apply has_other; [|lia|lia|lia]. apply has_other; [done|lia|lia|lia].
Qed.

Lemma entries_at_keep buf buf' es : forall j off, entries_at buf j off es -> Forall good_entry es -> 0 <= j -> 32 + 8 * (j + Z.of_nat (length es)) <= off ->
  (forall pos src, has buf pos src -> 32 + 8 * j <= pos -> pos + xlen src <= off + payload es -> 
     pos + xlen src <= 32 + 8 * (j + Z.of_nat (length es)) \/ off <= pos -> has buf' pos src) -> entries_at buf' j off es.
Proof.
  induction es as [|x es IH]; intros j off Hat Hg Hj Hoff Hk; [done|]. apply Forall_cons in Hg as [Hx Hg]. destruct Hat as [(H1 & H2 & H3) Hat].
  cbn [length] in Hoff, Hk. change (payload (x :: es)) with (psize x + payload es) in Hk. pose proof (payload_bound es Hg) as Hp.
  apply psize_bound in Hx as Hpb. destruct Hpb as (B1 & B2 & B3 & B4). assert (Hps : psize x = align4 (nlen x.1) + align4 x.2) by done.
  assert (Le : length (encode (entry_at x off)) = 8%nat) by done.
  assert (Lt : xlen (take (Z.to_nat x.2) (kv_value x.1)) <= x.2) by (unfold xlen; rewrite length_take; lia).
  assert (Ln : xlen (kv_name x.1) = nlen x.1) by done. split.
  - split; [|split]; (apply Hk; [done|lia| |]); unfold xlen in *; rewrite ?Le in *; try lia.
  - apply IH; [done|done|lia|lia|]. intros pos src Hh P1 P2 P3. apply Hk; [done|lia|lia|lia].
Qed.

Lemma serialize_entries_spec kvs d a es : forall j off buf, Forall good_entry es -> 0 <= a -> 0 <= j ->
  (forall k x, es !! k = Some x -> kvs !! Z.to_nat (a + j + Z.of_nat k) = Some x.1 /\ xd_inlineLen d !! Z.to_nat (j + Z.of_nat k) = Some x.2) ->
  32 + 8 * (j + Z.of_nat (length es)) <= off -> off + payload es <= 4044 -> xlen buf = 4096 -> bytes buf ->
  exists buf', serialize_entries kvs d (seqZ (a + j) (Z.of_nat (length es))) j off buf = Ret (buf', off + payload es) /\ xlen buf' = 4096 /\ bytes buf' /\
    entries_at buf' j off es /\
    forall pos src, has buf pos src -> pos + xlen src <= 32 + 8 * j \/ (32 + 8 * (j + Z.of_nat (length es)) <= pos /\ pos + xlen src <= off) -> has buf' pos src.
Proof.
  induction es as [|x es IH]; intros j off buf Hg Ha Hj Hix Hoff Hend Hl Hb.
  - cbn. rewrite Z.add_0_r. exists buf. done.
  - apply Forall_cons in Hg as [Hx Hg]. cbn [length] in *. change (payload (x :: es)) with (psize x + payload es) in *.
    rewrite seqZ_cons by lia. cbn [serialize_entries]. pose proof (payload_bound es Hg) as Hp.
    destruct (Hix O x eq_refl) as [Hk1 Hk2]. rewrite !Z.add_0_r in Hk1, Hk2.
    destruct (serialize_entry_spec kvs d (a + j) j off buf x) as (buf1 & E & L1 & Hb1 & Hat1 & Hkeep1); try done; try lia.
    { unfold index. rewrite decide_True by lia. by rewrite Hk1. } { unfold index. rewrite decide_True by lia. by rewrite Hk2. }
    rewrite E. cbn [mbind res_bind]. apply psize_bound in Hx as Hpb. destruct Hpb as (B1 & B2 & B3 & B4). assert (Hps : 0 <= psize x) by (unfold psize; lia).
    destruct (IH (j + 1) (off + psize x) buf1) as (buf2 & E2 & L2 & Hb2 & Hat2 & Hkeep2); try done; try lia.
    { intros k y Hy. specialize (Hix (S k) y Hy). replace (a + (j + 1) + Z.of_nat k) with (a + j + Z.of_nat (S k)) by lia.
      by replace (j + 1 + Z.of_nat k) with (j + Z.of_nat (S k)) by lia. }
    replace (Z.succ (a + j)) with (a + (j + 1)) by lia. replace (Z.pred (Z.of_nat (S (length es)))) with (Z.of_nat (length es)) by lia.
    exists buf2. rewrite E2. split; [do 2 f_equal; lia|]. split; [done|]. split; [done|]. split; [split; [|done]|].
    + apply (entries_at_keep buf1 buf2 [x] j off) in Hat1 as [Hat1 _]; [done|by apply Forall_singleton|done|cbn; lia|].
      intros pos src Hh P1 P2 P3. cbn [length payload foldr] in P2, P3. apply Hkeep2; [done|lia].
    + intros pos src Hh Hpos. apply Hkeep2; [apply Hkeep1; [done|lia]|lia].
Qed.

(** The header and the checksum of a block. *)
Lemma seal_spec buf : xlen buf = 4096 -> bytes buf ->
  exists buf', seal buf 4096 = Ret buf' /\ xlen buf' = 4096 /\ bytes buf' /\ VerifyChainChecksum buf' 4096 = Ret tt /\
    forall pos src, has buf pos src -> pos + xlen src <= 4080 -> has buf' pos src.
Proof.
  intros Hl Hb. unfold xlen in Hl. set (body := take 4080 buf). set (field := slice 4080 4088 buf). set (slack := drop 4088 buf).
  assert (E : buf = body ++ field ++ slack).
  { etransitivity; [symmetry; apply (take_drop 4080)|]. unfold body. f_equal.
    etransitivity; [symmetry; apply (take_drop 8)|]. unfold slack. by rewrite drop_drop. }
  assert (Lb : length body = ExtentChainChecksumOffset) by (unfold body; rewrite length_take, checksum_offset; lia).
  assert (Lf : length field = 8%nat) by (unfold field; rewrite length_slice; lia). assert (Ls : length slack = 8%nat) by (unfold slack; rewrite length_drop; lia).
  assert (Bb : bytes body) by (by apply bytes_take). pose proof (Crc32c_body_range body Lb Bb) as Hc.
  set (crc := Crc32c 0 body) in *. exists (body ++ le_put 8 crc ++ slack). unfold seal. rewrite E, SetBtreeNodeChecksum_body by done. fold crc.
  split; [done|]. split; [unfold xlen; rewrite sealed_length; rewrite ?length_le_put; done|].
  split; [rewrite !bytes_app; split_and!; [done|apply bytes_le_put|by apply bytes_drop]|].
  split; [by apply (verify_stored body slack crc); [..|lia|]|].
  intros pos src Hh Hpos. rewrite <- E in Hh. replace (body ++ le_put 8 crc ++ slack) with (blit (Z.to_nat 4080) (le_put 8 crc) buf).
  - apply has_other; [done|lia|unfold xlen; rewrite length_le_put; lia|lia].
  - rewrite E. change (Z.to_nat 4080) with 4080%nat. rewrite <- checksum_offset, <- Lb. apply blit_app. by rewrite length_le_put.
Qed.

Lemma finish_spec buf h : xlen buf = 4096 -> bytes buf -> codec_wf h -> xh_Magic h = MagicXattr -> xh_Version h = 2 ->
  exists buf', (buf ← (match WriteXattrHeader buf h with Ret buf => Ret buf | Err _ => Ret buf | Panic => Panic end); seal buf 4096) = Ret buf' /\
    xlen buf' = 4096 /\ bytes buf' /\ ReadXattrHeader buf' = Ret h /\ VerifyChainChecksum buf' 4096 = Ret tt /\
    forall pos src, has buf pos src -> 32 <= pos -> pos + xlen src <= 4080 -> has buf' pos src.
Proof.
  intros Hl Hb Hh Hm Hv. unfold WriteXattrHeader. rewrite Hv. change (XattrHeaderSize 2) with 32. rewrite (proj2 (Z.ltb_ge _ _)) by lia.
  rewrite MarshalBinary_encode by done. cbn [lift_xcodec mbind res_bind]. assert (Le : length (encode h) = 32%nat) by (by rewrite encode_length).
  rewrite (take_ge (encode h)) by lia. set (buf1 := blit 0 (encode h) buf).
  assert (L1 : xlen buf1 = 4096) by (unfold buf1, xlen in *; rewrite length_blit; lia).
  destruct (seal_spec buf1 L1) as (buf' & -> & L2 & B2 & V2 & K2); [by apply bytes_blit; [apply encode_bytes|]|].
  assert (Hhas : has buf' 0 (encode h)). { apply K2; [|unfold xlen; lia]. apply (has_same buf 0); unfold xlen in *; lia. }
  exists buf'. split; [done|]. split; [done|]. split; [done|]. split; [|split; [done|]].
  - apply ReadXattrHeader_image; [done|unfold xlen in *; lia| |done|done]. destruct Hhas as (_ & _ & Hs). rewrite Le in Hs. unfold slice in Hs. by rewrite drop_0 in Hs.
  - intros pos src Hp P1 P2. apply K2; [|done]. apply (has_other buf pos src 0); [done|lia|unfold xlen in *; lia|unfold xlen in *; lia].
Qed.

(** ** Blocks *)
Record block_image (buf : list Z) (h : XattrHeader) (used count next flags : Z) : Prop := {
  bi_len : xlen buf = 4096;
  bi_bytes : bytes buf;
  bi_h : h = mkXattrHeader MagicXattr 2 used count next flags 0;
  bi_read : ReadXattrHeader buf = Ret h;
  bi_sum : VerifyChainChecksum buf 4096 = Ret tt;
}.

Section images.
Context (kvs : list xattrKV) (absBlocks : list Z).
Context (Habs : Forall is_u64 absBlocks).

Abbreviation next i := (default 0 (absBlocks !! S i)).

Lemma next_u64 i : is_u64 (next i).
Proof using Habs. destruct (absBlocks !! S i) as [b|] eqn:E; [by apply (Forall_lookup_1 _ _ _ _ Habs E)|unfold is_u64; cbn; lia]. Qed.

Lemma xheader_wf used count nxt flags : is_u32 used -> is_u32 count -> is_u64 nxt -> is_u32 flags -> codec_wf (mkXattrHeader MagicXattr 2 used count nxt flags 0).
Proof using. intros [] [] [] []. unfold MagicXattr. codec_wf_tac. Qed.

Lemma entry_image a d cs es i : group a d cs es -> Forall good_entry es -> 0 <= a ->
  (forall k x, es !! k = Some x -> kvs !! Z.to_nat (a + Z.of_nat k) = Some x.1) ->
  exists buf h, serializeXattrBlock d kvs absBlocks i 4096 = Ret buf /\ block_image buf h (32 + total es) (Z.of_nat (length es)) (next i) 0 /\
    entries_at buf 0 (32 + 8 * Z.of_nat (length es)) es.
Proof using Habs.
  intros Hg Hgood Ha Hix. pose proof (g_desc _ _ _ _ Hg) as Ed. pose proof (g_total _ _ _ _ Hg) as Ht. pose proof (total_bound es (g_fits _ _ _ _ Hg)) as [T1 _].
  pose proof (total_payload es) as Tp. pose proof (payload_bound es Hgood) as Pp. unfold serializeXattrBlock. rewrite Ed. cbn [xd_cont xd_kv].
  rewrite length_seqZ, Nat2Z.id. change (XattrHeaderSize BrieFSXattrVersion) with 32. unfold XattrEntrySize.
  rewrite (u32_small (Z.of_nat (length es))), (u32_small (_ * 8)), (u32_small (32 + _)) by (unfold is_u32; lia).
  destruct (serialize_entries_spec kvs (mkDesc false (total es) (seqZ a (Z.of_nat (length es))) es.*2 0 0 0) a es 0 (32 + Z.of_nat (length es) * 8) (zeros (Z.to_nat 4096)))
    as (buf1 & E & L1 & B1 & Hat & _); [done|done|done| |lia|lia|unfold xlen; by rewrite length_zeros|apply bytes_zeros|].
  { intros k x Hx. rewrite Z.add_0_r. split; [by apply Hix|]. cbn [xd_inlineLen]. rewrite Z.add_0_l, Nat2Z.id, list_lookup_fmap, Hx. done. }
  rewrite Z.add_0_r in E. rewrite E. cbn [mbind res_bind].
  replace (32 + Z.of_nat (length es) * 8 + payload es) with (32 + total es) by lia.
  change BrieFSXattrVersion with 2. destruct (finish_spec buf1 (mkXattrHeader MagicXattr 2 (32 + total es) (Z.of_nat (length es)) (next i) 0 0)) as (buf & E2 & L2 & B2 & R2 & V2 & K2); [done|done| |done|done|].
  { apply xheader_wf; [unfold is_u32; lia..|apply next_u64|unfold is_u32; lia]. }
  exists buf. eexists. split; [exact E2|]. split; [split; [exact L2|exact B2|reflexivity|exact R2|exact V2]|]. replace (32 + Z.of_nat (length es) * 8) with (32 + 8 * Z.of_nat (length es)) in Hat by lia.
  apply (entries_at_keep buf1 buf es 0); [done|done|lia|lia|]. intros pos src Hh P1 P2 _. apply K2; [done|lia|lia].
Qed.

Lemma cont_image_ok kv kvIdx off frag i : 0 <= kvIdx -> kvs !! Z.to_nat kvIdx = Some kv -> bytes (kv_value kv) -> vlen kv <= 65536 -> 0 <= off -> 0 <= frag <= 4012 -> off + frag <= vlen kv ->
  exists buf h, serializeXattrBlock (cont_block kvIdx off frag) kvs absBlocks i 4096 = Ret buf /\ block_image buf h (32 + frag) 0 (next i) 1 /\
    has buf 32 (slice (Z.to_nat off) (Z.to_nat (off + frag)) (kv_value kv)).
Proof using Habs.
  intros H0 Hkv Hb Hv Hoff Hfrag Hend. assert (Lz : xlen (zeros (Z.to_nat 4096)) = 4096) by (unfold xlen; rewrite length_zeros; lia).
  pose proof (bytes_zeros (Z.to_nat 4096)) as Bz. unfold serializeXattrBlock, cont_block. set (z := zeros (Z.to_nat 4096)) in *. clearbody z. cbn [xd_cont xd_kvIdx xd_valueOff xd_fragLen].
  unfold index. rewrite decide_True by done. rewrite Hkv. cbn [mbind res_bind]. change (XattrHeaderSize BrieFSXattrVersion) with 32.
  rewrite (u32_small (off + frag)), (u32_small (32 + frag)) by (unfold is_u32; lia). unfold subslice. fold (vlen kv).
  rewrite (proj2 (Z.leb_le _ _)), (proj2 (Z.leb_le _ _)) by lia. cbn [andb mbind res_bind]. set (part := slice _ _ (kv_value kv)).
  assert (Lp : xlen part = frag) by (unfold part, vlen, xlen in *; rewrite length_slice; lia).
  rewrite copy_at_ok by lia. cbn [mbind res_bind].
  change BrieFSXattrFlagCont with 1. change BrieFSXattrVersion with 2.
  destruct (finish_spec (blit (Z.to_nat 32) part z) (mkXattrHeader MagicXattr 2 (32 + frag) 0 (next i) 1 0)) as (buf & E2 & L2 & B2 & R2 & V2 & K2); [| | |done|done|].
  { unfold xlen in *. rewrite length_blit by lia. exact Lz. } { apply bytes_blit; [by apply bytes_take, bytes_drop|exact Bz]. }
  { apply xheader_wf; [unfold is_u32; lia..|apply next_u64|unfold is_u32; lia]. }
  exists buf. eexists. split; [exact E2|]. split; [split; [exact L2|exact B2|reflexivity|exact R2|exact V2]|]. apply K2; [apply has_same; lia|lia|lia].
Qed.

End images.
