(* ===== verification/XattrRead.v ===== *)
(** * Reading a chain back

    What the blocks of a planned chain read back as, and the walk along them. *)

From stdpp Require Import base numbers list option gmap.
From Stdlib Require Import ZArith Lia.
From S2P Require Import Prelude Codec Crc32c XattrDisk Xattr XattrChain.

Local Open Scope Z_scope.

(** ** Reading *)

(** The length of a value is stored in 16 bits: a value of 65536 bytes, the most
    that is accepted, has length 0 there. *)
Definition readback (kv : xattrKV) : xattrKV := mkKV (kv_name kv) (if vlen kv =? 65536 then [] else kv_value kv).

Abbreviation link := (Z * list Z * XattrHeader)%type.

Definition cont_link (kv : xattrKV) (d : xattrBlockDesc) (x : link) : Prop :=
  exists nxt, block_image x.1.2 x.2 (32 + xd_fragLen d) 0 nxt 1 /\
    has x.1.2 32 (slice (Z.to_nat (xd_valueOff d)) (Z.to_nat (xd_valueOff d + xd_fragLen d)) (kv_value kv)).

Lemma cont_link_cont kv d x : cont_link kv d x -> is_cont x.2 = true.
Proof. intros (nxt & [_ _ -> _ _] & _). done. Qed.

(** The rounds of the loop over the rest of a value. *)
Lemma cont_loop_cons fuel i off rem : 0 < rem <= 65536 -> 0 <= off -> off + rem <= 65536 ->
  let frag := Z.min rem 4012 in
  cont_loop (S fuel) i off rem = cont_block i off frag :: cont_loop fuel i (off + frag) (rem - frag).
Proof.
  intros Hr Ho He frag. cbn [cont_loop]. rewrite (proj2 (Z.ltb_lt _ _)) by lia. change xattrPayloadCap with 4012.
  replace (if 4012 <? rem then 4012 else rem) with frag by (unfold frag; destruct (Z.ltb_spec 4012 rem); lia).
  by rewrite !u32_small by (unfold is_u32, frag; lia).
Qed.

Lemma take_slice {A} a b (l : list A) : (a <= b)%nat -> take a l ++ slice a b l = take b l.
Proof.
  intros H. unfold slice. rewrite take_drop_commute. replace (a + (b - a))%nat with b by lia.
  etransitivity; [|apply (take_drop a)]. f_equal. rewrite take_take. f_equal. lia.
Qed.

Lemma take_cont_done l kv : take_cont l (vlen kv) (take (Z.to_nat (vlen kv)) (kv_value kv)) = Ret (kv_value kv).
Proof.
  unfold vlen, xlen. rewrite take_ge by lia. destruct l as [|[[b cbuf] ch] l]; cbn [take_cont]; unfold xlen; by rewrite (proj2 (Z.leb_le _ _)) by lia.
Qed.

Lemma take_cont_spec kv i rest fuel : forall off rem cl, 0 <= off -> 0 <= rem -> off + rem = vlen kv -> vlen kv <= 65536 -> rem <= Z.of_nat fuel ->
  Forall2 (cont_link kv) (cont_loop fuel i off rem) cl ->
  take_cont (cl ++ rest) (vlen kv) (take (Z.to_nat off) (kv_value kv)) = Ret (kv_value kv).
Proof.
  induction fuel as [|fuel IH]; intros off rem cl H0 Hr Hsum Hv Hf Hcl.
  - assert (off = vlen kv) as -> by lia. apply take_cont_done.
  - destruct (decide (rem = 0)) as [->|Hne].
    { assert (off = vlen kv) as -> by lia. apply take_cont_done. }
    rewrite cont_loop_cons in Hcl by lia. cbn zeta in Hcl. set (frag := Z.min rem 4012) in *.
    apply Forall2_cons_inv_l in Hcl as ([[b cbuf] ch] & cl' & (nxt & Himg & Hhas) & Hcl & ->). cbn [fst snd cont_block xd_fragLen xd_valueOff] in *.
    cbn [app take_cont]. assert (La : xlen (take (Z.to_nat off) (kv_value kv)) = off) by (unfold vlen, xlen in *; rewrite length_take; lia).
    rewrite La, (proj2 (Z.leb_gt _ _)) by lia. rewrite (bi_h _ _ _ _ _ _ Himg). cbn [is_cont xh_Flags xh_Version xh_UsedSize].
    change (XattrHeaderSize 2) with 32. change (negb (is_cont _)) with false. cbn iota.
    rewrite (u32_small (vlen kv - off)), (u32_small (32 + frag - 32)) by (unfold is_u32, frag; lia).
    replace (if vlen kv - off <? 32 + frag - 32 then vlen kv - off else 32 + frag - 32) with frag by (unfold frag; destruct (Z.ltb_spec (vlen kv - off) (32 + Z.min rem 4012 - 32)); lia).
    rewrite u32_small by (unfold is_u32, frag; lia). erewrite has_subslice; [|exact Hhas|unfold vlen, xlen in *; rewrite length_slice; unfold frag; lia].
    cbn [mbind res_bind]. rewrite take_slice by (unfold frag; lia). apply (IH (off + frag) (rem - frag)); [unfold frag; lia..|exact Hcl].
Qed.

(** An entry is whole, or the last one of its block and continued by [cl]. *)
Definition continued (cl : list link) (x : planned) (es : list planned) : Prop :=
  x.2 = vlen x.1 \/ (es = [] /\ x.2 mod 4 = 0 /\ exists i, Forall2 (cont_link x.1) (conts i x) cl).

Lemma load_entry_spec buf h nxt used count cl rest j off x es : block_image buf h used count nxt 0 -> good_entry x -> entries_at buf j off (x :: es) ->
  0 <= j -> 32 + 8 * j + 8 <= off -> off + payload (x :: es) = used -> 0 <= payload es -> used <= 4044 -> continued cl x es ->
  load_entry buf h (cl ++ rest) j = Ret (readback x.1).
Proof.
  intros Himg Hx [(H1 & H2 & H3) _] Hj Hoff Hend Hpay Hused Hc. change (payload (x :: es)) with (psize x + payload es) in Hend.
  apply psize_bound in Hx as Hpb. destruct Hpb as (B1 & B2 & B3 & B4). assert (Hps : psize x = align4 (nlen x.1) + align4 x.2) by done.
  pose proof (entry_wf x off Hx ltac:(lia) ltac:(lia)) as Hwf. destruct Hx as ([F1 F2] & F3 & F4 & F5).
  unfold load_entry, XattrEntrySize. rewrite (bi_h _ _ _ _ _ _ Himg). cbn [xh_Version xh_UsedSize]. change (XattrHeaderSize 2) with 32.
  rewrite (u32_small (j * 8)), (u32_small (32 + j * 8)) by (unfold is_u32; lia). pose proof (bi_len _ _ _ _ _ _ Himg) as Hl.
  rewrite (ReadXattrEntry_image buf (32 + j * 8) (entry_at x off)); [|done|lia|lia|destruct H1 as (_ & _ & H1); by replace (32 + 8 * j) with (32 + j * 8) in H1 by lia].
  cbn [mbind res_bind entry_at xe_NameOffset xe_NameLen xe_ValueLen xe_ValueOffset]. rewrite (u32_small (off + nlen x.1)) by (unfold is_u32; lia).
  rewrite (has_subslice buf off (kv_name x.1)) by done. cbn [mbind res_bind]. unfold readback.
  assert (Hvl : 0 <= vlen x.1) by (unfold vlen, xlen; lia).
  destruct (Z.eqb_spec (vlen x.1) 65536) as [E16|N16]; [rewrite E16; done|]. rewrite (u16_small (vlen x.1)) by (unfold is_u16; lia).
  destruct (Z.ltb_spec 0 (vlen x.1)) as [Hpos|Hzero].
  2: { cbn [mbind res_bind]. destruct (kv_value x.1) as [|? ?] eqn:E; [|unfold vlen, xlen in Hzero; rewrite E in Hzero; cbn in Hzero; lia]. unfold vlen, xlen. by rewrite E. }
  assert (Hin : inline_part buf used (vlen x.1) (if x.2 =? 0 then 0 else off + align4 (nlen x.1)) = Ret (take (Z.to_nat x.2) (kv_value x.1))).
  { unfold inline_part. destruct (Z.eqb_spec x.2 0) as [->|N0]; [done|]. rewrite (proj2 (Z.eqb_neq (off + _) 0)) by lia.
    rewrite (u32_small (used - _)) by (unfold is_u32; lia).
    assert (En : (if vlen x.1 <? used - (off + align4 (nlen x.1)) then vlen x.1 else used - (off + align4 (nlen x.1))) = x.2).
    { destruct Hc as [Ew|(-> & Hm & _)]; [destruct (Z.ltb_spec (vlen x.1) (used - (off + align4 (nlen x.1)))); lia|].
      rewrite (align4_exact x.2) in Hps by lia. cbn [payload foldr] in Hend. destruct (Z.ltb_spec (vlen x.1) (used - (off + align4 (nlen x.1)))); lia. }
    rewrite En, u32_small by (unfold is_u32; lia). apply has_subslice; [done|]. unfold vlen, xlen in *. rewrite length_take. lia. }
  rewrite Hin. cbn [mbind res_bind].
  assert (Ht : take_cont (cl ++ rest) (vlen x.1) (take (Z.to_nat x.2) (kv_value x.1)) = Ret (kv_value x.1)).
  { destruct (decide (x.2 = vlen x.1)) as [->|Hlt].
    - apply take_cont_done.
    - destruct Hc as [Ew|(_ & _ & i & Hcl)]; [done|]. unfold conts in Hcl. rewrite (proj2 (Z.ltb_lt _ _)) in Hcl by lia.
      eapply take_cont_spec; [..|exact Hcl]; lia. }
  rewrite Ht. cbn [mbind res_bind]. do 2 f_equal. rewrite <- (app_nil_r (kv_value x.1)) at 3. f_equal. unfold vlen, xlen. by rewrite Nat2Z.id, Nat.sub_diag.
Qed.

Lemma load_entries_spec buf h nxt used count cl rest es : forall j off, block_image buf h used count nxt 0 -> Forall good_entry es -> entries_at buf j off es ->
  0 <= j -> 32 + 8 * (j + Z.of_nat (length es)) <= off -> off + payload es = used -> used <= 4044 ->
  (forall es1 x es2, es = es1 ++ x :: es2 -> continued cl x es2) ->
  load_entries buf h (cl ++ rest) (length es) j = Ret (readback <$> es.*1).
Proof.
  induction es as [|x es IH]; intros j off Himg Hg Hat Hj Hoff Hend Hused Hc; [done|]. assert (Hg' := Hg). apply Forall_cons in Hg as [Hx Hg].
  pose proof (payload_bound es Hg) as Hp. cbn [length load_entries fmap list_fmap] in *.
  rewrite (load_entry_spec buf h nxt used count cl rest j off x es); try done; [|lia|by apply (Hc [] x es)]. cbn [mbind res_bind].
  destruct Hat as [_ Hat]. change (payload (x :: es)) with (psize x + payload es) in Hend. apply psize_bound in Hx as Hpb. unfold psize in *.
  rewrite (IH (j + 1) (off + psize x)); try done; unfold psize in *; try lia. intros es1 y es2 ->. by apply (Hc (x :: es1) y es2).
Qed.

Lemma load_conts kv cs cl rest : Forall2 (cont_link kv) cs cl -> load_blocks (cl ++ rest) = load_blocks rest.
Proof.
  induction 1 as [|d [[b buf] h] cs cl Hx _ IH]; [done|]. cbn [app load_blocks]. apply cont_link_cont in Hx. cbn in Hx. rewrite Hx. cbn [mbind res_bind].
  rewrite IH. by destruct (load_blocks rest).
Qed.

Definition links (bs : list Z) (l : list (list Z * XattrHeader)) : list link := zip_with (fun b x => (b, x.1, x.2)) bs l.

Section chain.
Context (kvs : list xattrKV) (absBlocks : list Z).
Context (Habs : Forall is_u64 absBlocks) (Hkvs : Forall (fun kv => fits kv /\ bytes (kv_name kv) /\ bytes (kv_value kv)) kvs).

(** The images of the blocks [descs] from index [i] on; [bs] are their numbers. *)
Definition imaged (i : nat) (descs : list xattrBlockDesc) (l : list (list Z * XattrHeader)) : Prop :=
  serialize_blocks kvs absBlocks 4096 i descs = Ret (l.*1) /\ length l = length descs /\
  forall k x, l !! k = Some x -> exists used count flags, 0 <= used <= 4096 /\ block_image x.1 x.2 used count (default 0 (absBlocks !! S (i + k))) flags.

Lemma imaged_cons i d descs buf h used count flags l : 0 <= used <= 4096 ->
  serializeXattrBlock d kvs absBlocks i 4096 = Ret buf -> block_image buf h used count (default 0 (absBlocks !! S i)) flags ->
  imaged (S i) descs l -> imaged i (d :: descs) ((buf, h) :: l).
Proof using.
  intros Hu E Himg (E2 & L2 & H2). split; [|split].
  - cbn [serialize_blocks]. rewrite E. cbn [mbind res_bind]. rewrite E2. done.
  - cbn. by rewrite L2.
  - intros [|k] x Hx; cbn in Hx; [injection Hx as <-; rewrite Nat.add_0_r; by exists used, count, flags|].
    destruct (H2 k x Hx) as (u & c & f & Hi). rewrite Nat.add_succ_r. by exists u, c, f.
Qed.

Lemma imaged_conts kv kvIdx i fuel : forall off rem descs l, 0 <= kvIdx -> kvs !! Z.to_nat kvIdx = Some kv -> 0 <= off -> 0 <= rem -> off + rem = vlen kv -> vlen kv <= 65536 ->
  bytes (kv_value kv) -> imaged (i + length (cont_loop fuel kvIdx off rem)) descs l ->
  exists cl, imaged i (cont_loop fuel kvIdx off rem ++ descs) (cl ++ l) /\ length cl = length (cont_loop fuel kvIdx off rem) /\
    forall bs, length bs = length cl -> Forall2 (cont_link kv) (cont_loop fuel kvIdx off rem) (links bs cl).
Proof using Habs.
  revert i. induction fuel as [|fuel IH]; intros i off rem descs l H0 Hkv Ho Hr Hsum Hv Hb Hl.
  - exists []. rewrite Nat.add_0_r in Hl. split; [done|]. split; [done|]. intros [|] ?; [constructor|done].
  - destruct (decide (rem = 0)) as [->|Hne].
    { cbn in Hl |- *. rewrite Nat.add_0_r in Hl. exists []. split; [done|]. split; [done|]. intros [|] ?; [constructor|done]. }
    rewrite cont_loop_cons in Hl |- * by lia. cbn zeta in *. set (frag := Z.min rem 4012) in *.
    destruct (cont_image_ok kvs absBlocks Habs kv kvIdx off frag i) as (buf & h & E & Himg & Hhas); try done; try (unfold frag; lia).
    cbn [length] in Hl. rewrite Nat.add_succ_r in Hl.
    destruct (IH (S i) (off + frag) (rem - frag) descs l) as (cl & Hcl & Lcl & Hlinks); try done; try (unfold frag; lia).
    exists ((buf, h) :: cl). cbn [app]. split; [eapply imaged_cons; [|exact E|exact Himg|exact Hcl]; unfold frag; lia|]. split; [cbn; by rewrite Lcl|].
    intros [|b bs] Hbs; [done|]. cbn in Hbs. injection Hbs as Hbs. cbn [links zip_with]. constructor; [|by apply Hlinks].
    eexists. split; [exact Himg|exact Hhas].
Qed.

Lemma group_conts a d cs es i descs l : group a d cs es -> 0 <= a ->
  (forall k x, es !! k = Some x -> kvs !! Z.to_nat (a + Z.of_nat k) = Some x.1) -> imaged (i + length cs) descs l ->
  exists cl, imaged i (cs ++ descs) (cl ++ l) /\ length cl = length cs /\
    forall bs rest, length bs = length cl -> load_blocks (links bs cl ++ rest) = load_blocks rest /\
      (forall es1 x es2, es = es1 ++ x :: es2 -> continued (links bs cl) x es2).
Proof using Habs Hkvs.
  intros [A B C D E F] Ha Hix Hl. destruct (last es) as [x|] eqn:El.
  2: { apply last_None in El as ->. rewrite F in * by done. rewrite Nat.add_0_r in Hl. exists []. split; [done|]. split; [done|].
       intros [|] rest ?; [|done]. split; [done|]. by intros []. }
  destruct (E x eq_refl) as [Ecs Em]. apply last_Some in El as [es0 El].
  assert (Hwhole : forall es1 y es2, es = es1 ++ y :: es2 -> es2 <> [] -> y.2 = vlen y.1).
  { intros es1 y es2 -> Hne. apply (D (length es1)); [by apply list_lookup_middle|]. rewrite length_app. destruct es2; [done|]. cbn. lia. }
  assert (Hxe : forall es1 y, es = es1 ++ [y] -> y = x). { intros es1 y Ey. rewrite El in Ey. by apply app_inj_tail in Ey as [_ ->]. }
  unfold conts in Ecs. destruct (Z.ltb_spec x.2 (vlen x.1)) as [Hlt|Hge].
  - assert (Hx : es !! length es0 = Some x) by (rewrite El; by apply list_lookup_middle). pose proof (Forall_lookup_1 _ _ _ _ C Hx) as [[_ Hv] H2].
    assert (Hlen : Z.of_nat (length es) - 1 = Z.of_nat (length es0)) by (rewrite El, length_app; cbn; lia).
    pose proof (Hix _ _ Hx) as Hkx. pose proof (Forall_lookup_1 _ _ _ _ Hkvs Hkx) as (_ & _ & Hb).
    destruct (Em Hlt) as [_ Hm]. rewrite Ecs in Hl. replace (a + Z.of_nat (length es) - 1) with (a + Z.of_nat (length es0)) in Hl, Ecs by lia.
    destruct (imaged_conts x.1 (a + Z.of_nat (length es0)) i (Z.to_nat (vlen x.1 - x.2)) x.2 (vlen x.1 - x.2) descs l ltac:(lia) Hkx ltac:(lia) ltac:(lia) ltac:(lia) Hv Hb Hl) as (cl & Hcl & Lcl & Hlinks).
    exists cl. fold (cont_blocks (a + Z.of_nat (length es0)) x.2 (vlen x.1 - x.2)) in Hcl, Lcl, Hlinks. rewrite <- Ecs in *. split; [done|]. split; [done|].
    intros bs rest Hbs. specialize (Hlinks bs Hbs). split; [by eapply load_conts|].
    intros es1 y es2 Ey. destruct es2 as [|z es2]; [|left; by eapply Hwhole]. right. rewrite (Hxe es1 y Ey) in *. split; [done|]. split; [done|].
    exists (a + Z.of_nat (length es0)). unfold conts. rewrite (proj2 (Z.ltb_lt _ _)) by lia. by rewrite <- Ecs.
  - rewrite Ecs in *. rewrite Nat.add_0_r in Hl. exists []. split; [done|]. split; [done|]. intros [|] rest ?; [|done]. split; [done|].
    intros es1 y es2 Ey. left. destruct es2 as [|z es2]; [|by eapply Hwhole]. rewrite (Hxe es1 y Ey).
    assert (Hx : es !! length es0 = Some x) by (rewrite El; by apply list_lookup_middle). pose proof (Forall_lookup_1 _ _ _ _ C Hx) as [_ H2]. lia.
Qed.

Lemma good_entries a d cs es : group a d cs es -> (forall k x, es !! k = Some x -> kvs !! Z.to_nat (a + Z.of_nat k) = Some x.1) -> Forall good_entry es.
Proof using Hkvs.
  intros Hg Hix. apply Forall_lookup. intros k x Hx. pose proof (Forall_lookup_1 _ _ _ _ (g_fits _ _ _ _ Hg) Hx) as [H1 H2].
  pose proof (Forall_lookup_1 _ _ _ _ Hkvs (Hix k x Hx)) as (_ & H3 & H4). by split.
Qed.

Lemma links_app bs bs' l l' : length bs = length l -> links (bs ++ bs') (l ++ l') = links bs l ++ links bs' l'.
Proof using. intros H. by apply zip_with_app. Qed.

Lemma plan_imaged a descs K : plan a descs K -> 0 <= a -> (forall k kv, K !! k = Some kv -> kvs !! Z.to_nat (a + Z.of_nat k) = Some kv) ->
  forall i, exists l, imaged i descs l /\ forall bs, length bs = length l -> load_blocks (links bs l) = Ret (readback <$> K).
Proof using Habs Hkvs.
  induction 1 as [a|a d cs es descs K Hg Hplan IH]; intros Ha Hix i.
  - exists []. split; [|by intros [|]]. split; [done|]. split; [done|]. intros k x Hx. by rewrite lookup_nil in Hx.
  - assert (Hix1 : forall k x, es !! k = Some x -> kvs !! Z.to_nat (a + Z.of_nat k) = Some x.1).
    { intros k x Hx. apply Hix. rewrite lookup_app_l by (rewrite length_fmap; by eapply lookup_lt_Some). by rewrite list_lookup_fmap, Hx. }
    destruct (IH ltac:(lia)) with (i := (S i + length cs)%nat) as (l & Hl & Hload).
    { intros k kv Hk. replace (a + Z.of_nat (length es) + Z.of_nat k) with (a + Z.of_nat (length es + k)) by lia. apply Hix.
      rewrite lookup_app_r; rewrite length_fmap; [|lia]. by replace (length es + k - length es)%nat with k by lia. }
    destruct (group_conts a d cs es (S i) descs l Hg Ha Hix1 Hl) as (cl & Hcl & Lcl & Hc).
    pose proof (good_entries a d cs es Hg Hix1) as Hgood. pose proof (total_payload es) as Tp. pose proof (g_total _ _ _ _ Hg) as Tt.
    destruct (entry_image kvs absBlocks Habs a d cs es i Hg Hgood Ha Hix1) as (buf & h & E & Himg & Hat).
    pose proof (payload_bound es Hgood) as Hpay. exists ((buf, h) :: cl ++ l). split; [eapply imaged_cons; [|exact E|exact Himg|exact Hcl]; lia|]. intros [|b bs] Hbs; [done|]. cbn in Hbs. injection Hbs as Hbs. rewrite length_app in Hbs.
    rewrite <- (take_drop (length cl) bs). assert (L1 : length (take (length cl) bs) = length cl) by (rewrite length_take; lia).
    assert (L2 : length (drop (length cl) bs) = length l) by (rewrite length_drop; lia).
    change (links (b :: take (length cl) bs ++ drop (length cl) bs) ((buf, h) :: cl ++ l)) with ((b, buf, h) :: links (take (length cl) bs ++ drop (length cl) bs) (cl ++ l)).
    rewrite links_app by done. destruct (Hc (take (length cl) bs) (links (drop (length cl) bs) l) L1) as [Hskip Hcont]. cbn [load_blocks].
    assert (is_cont h = false) as -> by (by rewrite (bi_h _ _ _ _ _ _ Himg)).
    replace (Z.to_nat (xh_EntryCount h)) with (length es) by (rewrite (bi_h _ _ _ _ _ _ Himg); cbn [xh_EntryCount]; lia).
    rewrite (load_entries_spec buf h _ _ _ (links (take (length cl) bs) cl) _ es 0 _ Himg Hgood Hat); [|lia|lia|lia|lia|done]. cbn [mbind res_bind].
    rewrite Hskip, (Hload _ L2). cbn [mbind res_bind]. by rewrite fmap_app.
Qed.

Lemma walk_imaged readBlock descs l : imaged 0 descs l -> length absBlocks = length l -> NoDup absBlocks -> Forall (fun b => b <> 0) absBlocks ->
  (length l <= Z.to_nat XattrMaxChain)%nat -> (forall k b x, absBlocks !! k = Some b -> l !! k = Some x -> readBlock b = Some x.1) ->
  forall fuel k, (length l < k + fuel)%nat -> (k <= length l)%nat ->
  walk_chain readBlock 4096 fuel true (list_to_set (take k absBlocks)) (default 0 (absBlocks !! k)) = Ret (links (drop k absBlocks) (drop k l)).
Proof using.
  intros (_ & _ & Himg) Hlen Hnd Hnz Hmax Hread. induction fuel as [|fuel IH]; intros k Hf Hk; [lia|]. cbn [walk_chain].
  destruct (absBlocks !! k) as [b|] eqn:Eb; cbn [default from_option id].
  2: { apply lookup_ge_None in Eb. rewrite !drop_ge by lia. done. }
  destruct (lookup_lt_is_Some_2 l k) as [[buf h] Ex]; [rewrite <- Hlen; by eapply lookup_lt_Some|].
  rewrite (proj2 (Z.eqb_neq b 0)) by (apply (Forall_lookup_1 _ _ _ _ Hnz Eb)).
  assert (Hnew : b ∉ (list_to_set (take k absBlocks) : gset Z)).
  { rewrite elem_of_list_to_set. intros (k' & Hk')%list_elem_of_lookup. pose proof (lookup_lt_Some _ _ _ Hk') as Hlt. rewrite length_take in Hlt.
    rewrite lookup_take_lt in Hk' by lia. pose proof (NoDup_lookup _ _ _ _ Hnd Hk' Eb). lia. }
  rewrite bool_decide_false by done. rewrite (proj2 (Z.ltb_ge _ _)).
  2: { pose proof (size_list_le (take k absBlocks)) as Hs. rewrite length_take in Hs. unfold XattrMaxChain in *. lia. }
  rewrite (Hread k b (buf, h) Eb Ex). cbn [fst]. destruct (Himg k (buf, h) Ex) as (u & c & f & _ & Hi). cbn [fst snd] in Hi.
  rewrite (bi_read _ _ _ _ _ _ Hi). cbn [mbind res_bind]. unfold verify_block. rewrite (bi_sum _ _ _ _ _ _ Hi). cbn [mbind res_bind].
  replace (xh_NextBlock h) with (default 0 (absBlocks !! S k)) by (by rewrite (bi_h _ _ _ _ _ _ Hi)).
  pose proof (lookup_lt_Some _ _ _ Ex). replace ({[b]} ∪ list_to_set (take k absBlocks)) with (list_to_set (take (S k) absBlocks) : gset Z).
  - rewrite (IH (S k)) by lia. cbn [mbind res_bind]. by rewrite (drop_S absBlocks b k Eb), (drop_S l (buf, h) k Ex).
  - rewrite (take_S_r _ _ _ Eb), list_to_set_app_L. cbn. rewrite (right_id_L ∅ (∪)). by rewrite (comm_L (∪)).
Qed.

End chain.

Lemma abs_links bs l : length bs = length l -> abs_blocks (links bs l) = bs.
Proof. revert l. induction bs as [|b bs IH]; intros [|x l] H; try done. cbn. f_equal. apply IH. by injection H. Qed.

(** A set of attributes that can be stored. *)
Definition storable (kv : xattrKV) : Prop := fits kv /\ bytes (kv_name kv) /\ bytes (kv_value kv).

Lemma chain_roundtrip fuel kvs absBlocks descs : kvs <> [] -> Forall storable kvs -> Z.of_nat (length kvs) < 2 ^ 32 ->
  buildXattrChain (S (S fuel)) kvs = Some (Ret descs) -> length absBlocks = length descs -> NoDup absBlocks -> Forall (fun b => 0 < b < 2 ^ 64) absBlocks ->
  exists bufs, serialize_blocks kvs absBlocks 4096 0 descs = Ret bufs /\ length bufs = length descs /\
    Forall (fun buf => xlen buf = 4096 /\ 0 <= usedSizeOf buf <= 4096 /\ VerifyChainChecksum buf 4096 = Ret tt) bufs /\
    forall readBlock, (forall k b buf, absBlocks !! k = Some b -> bufs !! k = Some buf -> readBlock b = Some buf) ->
      loadXattrEntries readBlock 4096 (default 0 (head absBlocks)) = Ret (readback <$> kvs, absBlocks).
Proof.
  intros Hne Hst Hlen Hbuild Habs Hnd Hpos.
  destruct (buildXattrChain_spec fuel kvs Hne) as (descs' & Hplan & E); [by eapply Forall_impl; [exact Hst|intros kv [? _]]|done|].
  rewrite E in Hbuild. destruct (Z.ltb_spec XattrMaxChain (Z.of_nat (length descs'))) as [|Hmax]; [done|]. injection Hbuild as ->.
  destruct (plan_imaged kvs absBlocks) with (a := 0) (descs := descs) (K := kvs) (i := O) as (l & Himg & Hload); [|exact Hst|done|done|intros k kv Hk; by rewrite Z.add_0_l, Nat2Z.id|].
  { eapply Forall_impl; [exact Hpos|]. unfold is_u64. lia. }
  assert (Himg' := Himg). destruct Himg' as (Es & Ll & Hb). exists (l.*1). split; [done|]. split; [by rewrite length_fmap|]. split.
  { apply Forall_lookup. intros k buf Hk. rewrite list_lookup_fmap in Hk. apply fmap_Some in Hk as (x & Hx & ->). destruct (Hb k x Hx) as (u & c & f & Hu & Hi).
    split; [apply Hi|]. split; [|apply Hi]. unfold usedSizeOf. rewrite (bi_read _ _ _ _ _ _ Hi), (bi_h _ _ _ _ _ _ Hi). exact Hu. }
  intros readBlock Hread. pose proof (walk_imaged kvs absBlocks readBlock descs l Himg ltac:(lia) Hnd) as Hwalk.
  assert (Hnz : Forall (fun b => b <> 0) absBlocks) by (eapply Forall_impl; [exact Hpos|]; intros b; cbn; lia).
  specialize (Hwalk Hnz ltac:(unfold XattrMaxChain in *; lia)).
  assert (Hrd : forall k b x, absBlocks !! k = Some b -> l !! k = Some x -> readBlock b = Some x.1).
  { intros k b x Hkb Hx. apply (Hread k b x.1 Hkb). by rewrite list_lookup_fmap, Hx. }
  specialize (Hwalk Hrd (Z.to_nat (XattrMaxChain + 2)) O ltac:(unfold XattrMaxChain in *; lia) ltac:(lia)).
  unfold loadXattrEntries, walkXattrChain. rewrite take_0, !drop_0 in Hwalk. rewrite <- head_lookup in Hwalk. cbn [list_to_set] in Hwalk. rewrite Hwalk.
  destruct absBlocks as [|b absBlocks]; [destruct Hplan; done|]. cbn [head default from_option id].
  rewrite (proj2 (Z.eqb_neq b 0)) by (by apply Forall_cons in Hnz as [? _]). cbn [mbind res_bind].
  rewrite Hload by (rewrite Ll; done). cbn [mbind res_bind]. rewrite abs_links by (rewrite Ll; done). done.
Qed.

(** No chain within the limit holds more entries than fit in its blocks. *)
Lemma plan_length a descs K : plan a descs K -> (length K <= 501 * length descs)%nat.
Proof.
  induction 1 as [|a d cs es descs K Hg _ IH]; [cbn; lia|]. rewrite length_app, length_fmap. cbn [length]. rewrite length_app.
  pose proof (total_bound es (g_fits _ _ _ _ Hg)) as [T1 _]. pose proof (g_total _ _ _ _ Hg). lia.
Qed.

Lemma readback_all kvs : Forall (fun kv => storable kv /\ vlen kv < 65536) kvs -> readback <$> kvs = kvs.
Proof.
  induction 1 as [|kv kvs [_ H] _ IH]; [done|]. cbn. rewrite IH. f_equal. unfold readback. rewrite (proj2 (Z.eqb_neq _ _)) by lia. by destruct kv.
Qed.

(** ** Names that do not fit *)
Lemma find_block_full fuel need : forall descs cur, 4012 < need -> (forall d, descs !! cur = Some d -> 0 <= xd_payloadUsed d <= 4012) -> find_block fuel need descs cur = None.
Proof.
  induction fuel as [|fuel IH]; intros descs cur Hn Hd; cbn [find_block]; [done|]. destruct (descs !! cur) as [d|]; [|done].
  assert (Hf : full need d = true).
  { unfold full, xattrPayloadCap. apply orb_true_iff. left. apply Z.ltb_lt. specialize (Hd d eq_refl). change (_ - 32) with 4012. rewrite u32_small by (unfold is_u32; lia). lia. }
  rewrite Hf. apply IH; [done|]. intros d'. rewrite lookup_app_r, Nat.sub_diag by lia. intros [= <-]. cbn. lia.
Qed.

Lemma plan_loop_long fuel pre : forall K descs cur kv post, planning K descs cur -> Forall fits pre -> Z.of_nat (length K + length pre) < 2 ^ 32 ->
  4004 < nlen kv <= 65535 -> plan_loop (S (S fuel)) (Z.of_nat (length K)) (pre ++ kv :: post) descs cur = None.
Proof.
  induction pre as [|kv0 pre IH]; intros K descs cur kv post Hp Hf Hlen Hn; cbn [plan_loop app].
  - pose proof (align4_spec (nlen kv) ltac:(lia)) as [N1 N2]. unfold plan_entry. fold (nlen kv). rewrite (u32_small (nlen kv)) by (unfold is_u32; lia). unfold XattrEntrySize.
    assert (4012 < 8 + align4 (nlen kv)) by (pose proof (Z.div_mod (align4 (nlen kv)) 4 ltac:(lia)); lia).
    rewrite (u32_small (8 + _)) by (unfold is_u32; lia). rewrite find_block_full; [done|done|]. intros d Hd. destruct Hp as (D & d' & cs & es & K1 & -> & -> & HD & Hg & ->).
    rewrite list_lookup_middle in Hd by done. injection Hd as <-. pose proof (total_bound es (g_fits _ _ _ _ Hg)) as [T1 _]. pose proof (g_total _ _ _ _ Hg). rewrite (g_desc _ _ _ _ Hg). cbn. lia.
  - apply Forall_cons in Hf as [Hkv Hf]. cbn [length] in Hlen. destruct (plan_entry_spec fuel K descs cur kv0 Hp Hkv ltac:(lia)) as (descs1 & cur1 & -> & Hp1). cbn [mbind option_bind].
    replace (Z.of_nat (length K) + 1) with (Z.of_nat (length (K ++ [kv0]))) by (rewrite length_app; cbn; lia). apply IH; [done|done|rewrite length_app; cbn; lia|done].
Qed.

(** ** Theorems *)

(** C18 A set of attributes whose names and values are within the limits is laid
    out in finitely many rounds, in at most 1024 blocks or refused with ENOSPC,
    and the blocks written for it, wherever they are, are read back as exactly
    that set, in that order, with the numbers of the blocks. *)
Theorem xattr_chain_roundtrip fuel kvs : kvs <> [] -> Forall (fun kv => storable kv /\ vlen kv < 65536) kvs -> Z.of_nat (length kvs) < 2 ^ 32 ->
  exists r, buildXattrChain (S (S fuel)) kvs = Some r /\
  match r with
  | Ret descs => Z.of_nat (length descs) <= 1024 /\
      forall absBlocks, length absBlocks = length descs -> NoDup absBlocks -> Forall (fun b => 0 < b < 2 ^ 64) absBlocks ->
      exists bufs, serialize_blocks kvs absBlocks 4096 0 descs = Ret bufs /\
        Forall (fun buf => xlen buf = 4096 /\ VerifyChainChecksum buf 4096 = Ret tt) bufs /\
        forall readBlock, (forall k b buf, absBlocks !! k = Some b -> bufs !! k = Some buf -> readBlock b = Some buf) ->
          loadXattrEntries readBlock 4096 (default 0 (head absBlocks)) = Ret (kvs, absBlocks)
  | Err e => e = XErrno ENOSPC
  | Panic => False
  end.
Proof.
  intros Hne Hk Hlen. assert (Hfit : Forall storable kvs) by (eapply Forall_impl; [exact Hk|by intros kv []]).
  destruct (buildXattrChain_spec fuel kvs Hne) as (descs & Hplan & Eb); [by eapply Forall_impl; [exact Hfit|intros kv [? _]]|done|].
  eexists. split; [exact Eb|]. destruct (Z.ltb_spec XattrMaxChain (Z.of_nat (length descs))) as [|Hmax]; [done|]. split; [exact Hmax|]. intros absBlocks Ha Hnd Hpos.
  destruct (chain_roundtrip fuel kvs absBlocks descs Hne Hfit Hlen Eb Ha Hnd Hpos) as (bufs & Es & Lb & Hb & Hload).
  exists bufs. split; [exact Es|]. rewrite (readback_all kvs Hk) in Hload. split; [|exact Hload].
  eapply Forall_impl; [exact Hb|]. intros buf (? & _ & ?). done.
Qed.

Definition sample_kvs : list xattrKV := [mkKV [117; 46; 97] (zeros 5000); mkKV [117; 46; 98] [1; 2; 3]].

Lemma sample_kvs_ok : Forall (fun kv => storable kv /\ vlen kv < 65536) sample_kvs.
Proof.
  apply Forall_cons_2; [|apply Forall_cons_2; [|apply Forall_nil_2]]; (split; [|vm_compute; reflexivity]); (split; [split; vm_compute; discriminate|]);
    (split; apply bytesb_bytes; vm_compute; reflexivity).
Qed.

Lemma xattr_chain_roundtrip_witness : exists descs bufs, buildXattrChain 2 sample_kvs = Some (Ret descs) /\ length descs = 3%nat /\
  serialize_blocks sample_kvs [70; 9; 12] 4096 0 descs = Ret bufs /\
  loadXattrEntries (fun b => if b =? 70 then bufs !! 0%nat else if b =? 9 then bufs !! 1%nat else bufs !! 2%nat) 4096 70 = Ret (sample_kvs, [70; 9; 12]).
Proof.
  assert (H3 : NoDup [70; 9; 12] /\ Forall (fun b => 0 < b < 2 ^ 64) [70; 9; 12]).
  { split; [apply (bool_decide_unpack _); vm_compute; exact I|repeat (apply Forall_cons_2; [lia|]); apply Forall_nil_2]. }
  destruct (xattr_chain_roundtrip 0 sample_kvs ltac:(discriminate) sample_kvs_ok ltac:(vm_compute; reflexivity)) as (r & Eb & Hr).
  assert (E : exists descs, buildXattrChain 2 sample_kvs = Some (Ret descs) /\ length descs = 3%nat) by (eexists; split; vm_compute; reflexivity).
  destruct E as (descs & E & Hl). assert (Er : r = Ret descs) by (injection (eq_trans (eq_sym Eb) E) as Er; exact Er). subst r. clear Eb. destruct Hr as [_ Hr].
  destruct (Hr [70; 9; 12] (eq_sym Hl) (proj1 H3) (proj2 H3)) as (bufs & Es & _ & Hload).
  exists descs, bufs. split; [exact E|]. split; [exact Hl|]. split; [exact Es|]. apply (Hload _). clear. intros k b buf Hb Hbuf.
  destruct k as [|[|[|k]]]; [injection Hb as <-; exact Hbuf..|discriminate].
Defined.

(** C30 A value of the largest size that setting an attribute accepts, 65536
    bytes, is lost: its length does not fit the 16 bits the entry has for it, and
    the attribute is read back with an empty value. *)
Theorem largest_value_lost fuel name value b descs absBlocks : storable (mkKV name value) -> xlen value = 65536 ->
  buildXattrChain (S (S fuel)) [mkKV name value] = Some (Ret descs) -> length (b :: absBlocks) = length descs -> NoDup (b :: absBlocks) ->
  Forall (fun b => 0 < b < 2 ^ 64) (b :: absBlocks) ->
  exists bufs, serialize_blocks [mkKV name value] (b :: absBlocks) 4096 0 descs = Ret bufs /\
    forall readBlock, (forall k b' buf, (b :: absBlocks) !! k = Some b' -> bufs !! k = Some buf -> readBlock b' = Some buf) ->
      loadXattrEntries readBlock 4096 b = Ret ([mkKV name []], b :: absBlocks).
Proof.
  intros Hst Hv Hb Hl Hnd Hpos. destruct (chain_roundtrip fuel [mkKV name value] (b :: absBlocks) descs) as (bufs & Es & _ & _ & Hload); try done; [by constructor|].
  exists bufs. split; [exact Es|]. intros readBlock Hr. specialize (Hload readBlock Hr). cbn in Hload. rewrite Hload. unfold readback, vlen. cbn. by rewrite Hv.
Qed.

Lemma largest_value_lost_witness : exists descs bufs, buildXattrChain 2 [mkKV [117; 46; 97] (zeros 65536)] = Some (Ret descs) /\
  serialize_blocks [mkKV [117; 46; 97] (zeros 65536)] (seqZ 7 17) 4096 0 descs = Ret bufs /\
  loadXattrEntries (fun b => bufs !! Z.to_nat (b - 7)) 4096 7 = Ret ([mkKV [117; 46; 97] []], seqZ 7 17).
Proof.
  assert (E : exists descs, buildXattrChain 2 [mkKV [117; 46; 97] (zeros 65536)] = Some (Ret descs) /\ length descs = 17%nat) by (eexists; split; vm_compute; reflexivity).
  destruct E as (descs & E & Hl). change (seqZ 7 17) with (7 :: seqZ 8 16).
  destruct (largest_value_lost 0 [117; 46; 97] (zeros 65536) 7 descs (seqZ 8 16)) as (bufs & Es & Hload).
  - split; [split; vm_compute; discriminate|]. split; [by apply bytesb_bytes|apply bytes_zeros].
  - unfold xlen. rewrite length_zeros. vm_compute. reflexivity.
  - exact E.
  - by rewrite Hl.
  - change (7 :: seqZ 8 16) with (seqZ 7 17). apply NoDup_seqZ.
  - change (7 :: seqZ 8 16) with (seqZ 7 17). apply Forall_forall. intros x Hx%elem_of_seqZ. lia.
  - exists descs, bufs. split; [exact E|]. split; [exact Es|]. apply Hload. intros k b' buf Hk Hbuf. change (7 :: seqZ 8 16) with (seqZ 7 17) in Hk.
    apply lookup_seqZ in Hk as [-> _]. replace (Z.to_nat (7 + Z.of_nat k - 7)) with k by lia. exact Hbuf.
Defined.

(** C31 The layout of a set with a name of more than 4004 bytes never ends: no
    block has room for the entry, and every round adds another block.  Setting
    an attribute accepts no such name; loading one from a block checks only that
    it ends within the block. *)
Theorem long_name_never_placed fuel pre kv post : Forall fits pre -> Z.of_nat (length pre) < 2 ^ 32 -> 4004 < nlen kv <= 65535 ->
  buildXattrChain (S (S fuel)) (pre ++ kv :: post) = None.
Proof.
  intros Hf Hlen Hn. unfold buildXattrChain. rewrite decide_False by (by destruct pre). change 0 with (Z.of_nat (length (A := xattrKV) [])).
  rewrite plan_loop_long; [done| |done|done|done]. exists [], entry_block, [], [], []. split; [done|]. split; [done|]. split; [constructor|]. split; [apply group_empty|done].
Qed.

(** A block with such a name and no checksum. *)
Definition long_name_block : list Z :=
  encode (mkXattrHeader MagicXattr 2 4046 1 0 0 0) ++ encode (mkXattrEntry 4006 0 40 0) ++ replicate 4006 97 ++ zeros 50.

Lemma long_name_never_placed_witness :
  loadXattrEntries (fun _ => Some long_name_block) 4096 9 = Ret ([mkKV (replicate 4006 97) []], [9]) /\
  forall fuel, buildXattrChain (S (S fuel)) [mkKV (replicate 4006 97) []; mkKV [117; 46; 97] [1]] = None.
Proof.
  split; [vm_compute; reflexivity|]. intros fuel.
  refine (long_name_never_placed fuel [] (mkKV (replicate 4006 97) []) [mkKV [117; 46; 97] [1]] (Forall_nil_2 _) _ _); [done|].
  unfold nlen, xlen. cbn [kv_name]. rewrite length_replicate. split; vm_compute; [reflexivity|discriminate].
Defined.
