(* ===== verification/XattrOps.v ===== *)
(** * Operations on extended attributes (fuse/xattr.go)

    Getting, listing, setting and removing attributes over an interface to the
    device, the allocator, the journal and the inode table.  XattrMap has the
    theorem that they implement a map from names to values for every inode. *)

From stdpp Require Import base numbers list option gmap.
From Stdlib Require Import ZArith Lia.
From S2P Require Import Prelude Codec Extents Crc32c JournalRecord Inode XattrDisk Xattr XattrChain XattrRead.

Local Open Scope Z_scope.

Definition xattrMaxNameLen : Z := 255.
Definition xattrMaxValueLen : Z := 65536.

(** ** What the operations call

    The booleans say that a call failed. *)
Class XattrWorld (W : Type) := {
  xw_read : W -> Z -> option (list Z);              (* dev.ReadBlock *)
  xw_inode : W -> Z -> option Inode;                (* inodes.ReadInode *)
  xw_frozen : W -> bool;                            (* frozen *)
  xw_alloc : W -> W * Z;                            (* dataAlloc.AllocBlock: 0 when full *)
  xw_free_run : Z -> Z -> W -> W;                   (* dataAlloc.FreeRun *)
  xw_write : Z -> list Z -> W -> W * bool;          (* dev.WriteBlock *)
  xw_record : Z -> list Z -> W -> W * bool;         (* journal.WriteRecord *)
  xw_sync : W -> W * bool;                          (* journal.Sync(false) *)
  xw_free_now : Z -> W -> W;                        (* freeBlockNow *)
  xw_flush : W -> W * bool;                         (* dev.FlushPendingWB *)
  xw_write_inode : Inode -> W -> W * bool;          (* writeInodeDirect *)
  xw_fail : W -> W;                                 (* failWrite *)
  xw_start : Z;                                     (* dataRegionStart *)
  xw_table : Z -> Prop;                             (* the inode numbers the table has room for *)
}.

(** ** State and errors *)
Definition XM (W A : Type) : Type := W -> W * res xattr_error A.

#[export] Instance XM_ret W : MRet (XM W) := fun A a w => (w, Ret a).
#[export] Instance XM_bind W : MBind (XM W) := fun A B k m w =>
  match m w with
  | (w', Ret a) => k a w'
  | (w', Err e) => (w', Err e)
  | (w', Panic) => (w', Panic)
  end.

Section ops.
Context {W : Type} {XW : XattrWorld W}.
(** The clock, and the bound on the rounds of [buildXattrChain]'s inner loop. *)
Context (sec nsec : Z) (fuel : nat).

Definition xlift {A} (x : res xattr_error A) : XM W A := fun w => (w, x).
Definition xfail {A} (e : xattr_error) : XM W A := fun w => (w, Err e).

(** A call whose failure ends the operation with [e]; after the first journal
    record it also makes the volume read-only. *)
Definition call (e : xattr_error) (f : W -> W * bool) : XM W unit := fun w =>
  let '(w, failed) := f w in (w, if failed : bool then Err e else Ret tt).
Definition failWrite {A} (m : XM W A) : XM W A := fun w =>
  match m w with
  | (w', Err e) => (xw_fail w', Err e)
  | x => x
  end.

Fixpoint each {A} (f : A -> XM W unit) (l : list A) : XM W unit :=
  match l with
  | [] => mret tt
  | a :: l => _ ← f a; each f l
  end.

(** ** Reading *)
Definition load (w : W) (in_ : Inode) : res xattr_error (list xattrKV * list Z) :=
  loadXattrEntries (xw_read w) 4096 (ino_XattrOffset in_).

Definition loadM (in_ : Inode) : XM W (list xattrKV * list Z) := fun w => (w, load w in_).
Definition walkM (head : Z) : XM W (list Z) := fun w => (w, walkXattrChainBlocks (xw_read w) 4096 head).

Definition read_inode (ino : Z) : XM W Inode := fun w =>
  (w, match xw_inode w ino with Some in_ => Ret in_ | None => Err (ErrXattrInode ino) end).

Definition getXattrFromKvs (kvs : list xattrKV) (name : list Z) : option (list Z) :=
  kv_value <$> find (fun kv => bool_decide (kv_name kv = name)) kvs.

Definition getXattr (ino : Z) (name : list Z) : XM W (list Z) :=
  if xattrMaxNameLen <? xlen name then xfail (XErrno ERANGE) else
  in_ ← read_inode ino;
  '(kvs, _) ← loadM in_;
  match getXattrFromKvs kvs name with
  | Some value => mret value
  | None => xfail (XErrno ENODATA)
  end.

Definition listXattr (ino : Z) : XM W (list (list Z)) :=
  in_ ← read_inode ino;
  '(kvs, _) ← loadM in_;
  mret (kv_name <$> kvs).

(** ** Writing *)

(** The new entries; a value of [None] removes the name. *)
Definition edit_entries (kvs : list xattrKV) (name : list Z) (value : option (list Z)) (flags : Z) : res xattr_error (list xattrKV) :=
  match list_find (fun kv => kv_name kv = name) kvs, value with
  | None, None => Err (XErrno ENODATA)
  | Some (idx, _), None => Ret (take idx kvs ++ drop (S idx) kvs)
  | Some (idx, kv), Some v =>
      if negb (Z.land flags 1 =? 0) then Err (XErrno EEXIST) else Ret (<[idx := mkKV (kv_name kv) v]> kvs)
  | None, Some v =>
      if negb (Z.land flags 2 =? 0) then Err (XErrno ENODATA) else Ret (kvs ++ [mkKV name v])
  end.

Definition rollbackAlloc (allocated : list blockRun) : XM W unit := fun w =>
  (foldl (fun w r => xw_free_run (run_first r) (run_n r) w) w allocated, Ret tt).

(** A block for every descriptor. *)
Fixpoint alloc_blocks (n : nat) (allocated : list blockRun) (absBlocks : list Z) : XM W (list blockRun * list Z) :=
  match n with
  | O => mret (allocated, absBlocks)
  | S n => fun w =>
      let '(w, rel) := xw_alloc w in
      if rel =? 0 then (_ ← rollbackAlloc allocated; xfail (XErrno ENOSPC)) w else
      alloc_blocks n (addBlock allocated rel) (absBlocks ++ [u64 (xw_start + rel)]) w
  end.

Definition write_or_undo (allocated : list blockRun) (block : Z) (buf : list Z) : XM W unit := fun w =>
  let '(w, failed) := xw_write block buf w in
  if failed : bool then (_ ← rollbackAlloc allocated; xfail (ErrXattrWrite block)) w else (w, Ret tt).

(** The images of the blocks, each written as it is made. *)
Fixpoint write_chain (kvs : list xattrKV) (absBlocks : list Z) (allocated : list blockRun) (i : nat) (descs : list xattrBlockDesc) (bufs : list (list Z)) : XM W (list (list Z)) :=
  match descs with
  | [] => mret bufs
  | d :: descs =>
      buf ← xlift (serializeXattrBlock d kvs absBlocks i 4096);
      block ← xlift (index absBlocks (Z.of_nat i));
      _ ← write_or_undo allocated block buf;
      write_chain kvs absBlocks allocated (S i) descs (bufs ++ [buf])
  end.

Definition journalExtentAlloc (ino offset phys length : Z) : XM W unit :=
  call ErrXattrJournal (xw_record JRN_EXTENT_ALLOC (Marshal (mkJrnExtentAlloc ino offset length phys (2 ^ 32 - 1) (zeros 44)))).
Definition journalExtentFree (ino phys length : Z) : XM W unit :=
  call ErrXattrJournal (xw_record JRN_EXTENT_FREE (Marshal (mkJrnExtentFree ino 0 phys length (zeros 48)))).
Definition journalInodeFull (in_ : Inode) : XM W unit :=
  raw ← xlift (lift_xcodec (MarshalBinary in_));
  call ErrXattrJournal (xw_record JRN_INODE_FULL (MarshalJrnInodeFull (ino_InodeNumber in_) raw)).

Definition free_now (blk : Z) : XM W unit := fun w => (xw_free_now blk w, Ret tt).

Definition journal_block (ino : Z) (x : Z * list Z) : XM W unit :=
  _ ← journalExtentAlloc ino 0 x.1 1;
  let used := usedSizeOf x.2 in
  data ← xlift (subslice x.2 0 used);
  call ErrXattrJournal (xw_record JRN_XATTR_DATA (JrnXattrData_Marshal (mkJrnXattrData ino x.1 used data))).

Definition commitXattrOp (in_ : Inode) (blocks : list (Z * list Z)) (oldHead : Z) (freeOld : bool) : XM W unit :=
  let ino := ino_InodeNumber in_ in
  failWrite (
    _ ← each (journal_block ino) blocks;
    _ ← journalInodeFull in_;
    _ ← (if freeOld || negb (oldHead =? 0) then
           oldBlocks ← walkM oldHead;
           _ ← each (fun blk => journalExtentFree ino blk 1) oldBlocks;
           _ ← call ErrXattrJournal xw_sync;
           each free_now oldBlocks
         else call ErrXattrJournal xw_sync);
    _ ← call ErrXattrJournal xw_flush;
    _ ← call (ErrXattrInode ino) (xw_write_inode in_);
    call ErrXattrJournal xw_flush).

(** It returns the inode, which it changes in place.  A layout that does not end
    within the bound counts as a panic, which the theorems exclude. *)
Definition setXattrLocked (in_ : Inode) (name : list Z) (value : option (list Z)) (flags : Z) : XM W Inode :=
  let oldHead := ino_XattrOffset in_ in
  '(kvs, _) ← loadM in_;
  kvs ← xlift (edit_entries kvs name value flags);
  if decide (kvs = []) then
    let in_ := set_ctime (set_xattr in_ 0 0) sec nsec in
    _ ← commitXattrOp in_ [] oldHead true; mret in_
  else
  descs ← xlift (match buildXattrChain fuel kvs with Some x => x | None => Panic end);
  '(allocated, absBlocks) ← alloc_blocks (length descs) [] [];
  bufs ← write_chain kvs absBlocks allocated 0 descs [];
  head ← xlift (index absBlocks 0);
  buf ← xlift (index bufs 0);
  let in_ := set_ctime (set_xattr in_ head (usedSizeOf buf)) sec nsec in
  _ ← commitXattrOp in_ (zip absBlocks bufs) oldHead false; mret in_.

Definition setXattr (ino : Z) (name : list Z) (value : option (list Z)) (flags : Z) : XM W unit := fun w =>
  if xattrMaxNameLen <? xlen name then (w, Err (XErrno ERANGE)) else
  if xattrMaxValueLen <? xlen (default [] value) then (w, Err (XErrno E2BIG)) else
  if xw_frozen w then (w, Err (XErrno EROFS)) else
  (in_ ← read_inode ino; _ ← setXattrLocked in_ name value flags; mret tt) w.

Definition removeXattr (ino : Z) (name : list Z) : XM W unit := setXattr ino name None 0.

End ops.
