(* ===== verification/XattrMap.v ===== *)
(** * Attributes as a map

    Setting and removing attributes on a volume changes exactly the attributes
    of the inode, whatever the allocator, the journal and the device do within
    their contracts; an operation that fails leaves everything as it was or the
    volume read-only. *)

From stdpp Require Import base numbers list option gmap.
From Stdlib Require Import ZArith Lia.
From S2P Require Import Prelude Codec Extents Crc32c JournalRecord Inode XattrDisk Xattr XattrChain XattrRead XattrOps.

Local Open Scope Z_scope.

(** ** What a walk depends on *)
Section walks.
Implicit Types (r : Z -> option (list Z)).

Lemma verify_weaken n block buf : verify_block n true block buf = Ret tt -> verify_block n false block buf = Ret tt.
Proof. done. Qed.

Lemma walk_chain_inv r n fuel v visited block chain : walk_chain r n fuel v visited block = Ret chain -> block <> 0 ->
  exists fuel' buf h rest, fuel = S fuel' /\ (block ∉ visited) /\ r block = Some buf /\ ReadXattrHeader buf = Ret h /\
    verify_block n v block buf = Ret tt /\ walk_chain r n fuel' v ({[block]} ∪ visited) (xh_NextBlock h) = Ret rest /\ chain = (block, buf, h) :: rest.
Proof.
  destruct fuel as [|fuel]; cbn [walk_chain]; intros H Hb; rewrite (proj2 (Z.eqb_neq block 0)) in H by done; [done|].
  case_bool_decide as Hv; [done|]. destruct (_ <? _); [done|]. destruct (r block) as [buf|] eqn:Eb; [|done].
  destruct (ReadXattrHeader buf) as [h| |] eqn:Eh; cbn [mbind res_bind] in H; [|done..].
  destruct (verify_block n v block buf) as [[]| |] eqn:Ev; cbn [mbind res_bind] in H; [|done..].
  destruct (walk_chain r n fuel v _ _) as [rest| |] eqn:Ew; cbn [mbind res_bind] in H; [|done..].
  injection H as <-. by exists fuel, buf, h, rest.
Qed.

(** The same walk with another reader that agrees on the blocks of the chain. *)
Lemma walk_chain_same r r' n v v' fuel : forall visited block chain, walk_chain r n fuel v visited block = Ret chain ->
  (forall b, b ∈ abs_blocks chain -> r' b = r b) -> (v' = true -> v = true) -> walk_chain r' n fuel v' visited block = Ret chain.
Proof.
  induction fuel as [|fuel IH]; intros visited block chain H Hr Hv; (destruct (decide (block = 0)) as [->|Hb]; [exact H|]);
    destruct (walk_chain_inv _ _ _ _ _ _ _ H Hb) as (f & buf & h & rest & Ef & Hn & E1 & E2 & E3 & E4 & ->); [done|]. injection Ef as <-.
  cbn [walk_chain] in H |- *. rewrite (proj2 (Z.eqb_neq block 0)) in H |- * by done. rewrite bool_decide_false in H |- * by done.
  destruct (XattrMaxChain <? _); [done|]. rewrite (Hr block) by (by left). rewrite E1, E2. cbn [mbind res_bind].
  assert (E3' : verify_block n v' block buf = Ret tt) by (destruct v'; [rewrite Hv in E3 by done; done|done]). rewrite E3'. cbn [mbind res_bind].
  rewrite (IH _ _ _ E4); [done| |done]. intros b Hb'. apply Hr. by right.
Qed.

Lemma walk_chain_nodup r n v fuel : forall visited block chain, walk_chain r n fuel v visited block = Ret chain ->
  NoDup (abs_blocks chain) /\ forall b, b ∈ abs_blocks chain -> b ∉ visited.
Proof.
  induction fuel as [|fuel IH]; intros visited block chain H; (destruct (decide (block = 0)) as [->|Hb];
    [injection H as <-; split; [constructor|by intros b ?%elem_of_nil]|]);
    destruct (walk_chain_inv _ _ _ _ _ _ _ H Hb) as (f & buf & h & rest & Ef & Hn & E1 & E2 & E3 & E4 & ->); [done|]. injection Ef as <-.
  destruct (IH _ _ _ E4) as [H1 H2]. split.
  - apply NoDup_cons. split; [|done]. intros Hin. apply (H2 _ Hin). apply elem_of_union. left. by apply elem_of_singleton.
  - intros b [->|Hin]%elem_of_cons; [done|]. intros Hv. apply (H2 _ Hin). apply elem_of_union. by right.
Qed.

Lemma load_same r r' n head kvs bs : loadXattrEntries r n head = Ret (kvs, bs) -> (forall b, b ∈ bs -> r' b = r b) ->
  loadXattrEntries r' n head = Ret (kvs, bs) /\ walkXattrChainBlocks r' n head = Ret bs /\ NoDup bs.
Proof.
  unfold loadXattrEntries, walkXattrChainBlocks, walkXattrChain. destruct (Z.eqb_spec head 0) as [->|Hh].
  { intros [= <- <-] _. split; [done|]. split; [done|constructor]. }
  destruct (walk_chain r n _ true ∅ head) as [chain| |] eqn:Ew; cbn [mbind res_bind]; [|done..].
  destruct (load_blocks chain) as [kvs'| |] eqn:El; cbn [mbind res_bind]; [|done..]. intros [= <- <-] Hr.
  rewrite (walk_chain_same _ r' _ _ true _ _ _ _ Ew) by done. rewrite (walk_chain_same _ r' _ _ false _ _ _ _ Ew) by done. cbn [mbind res_bind].
  rewrite El. split; [done|]. split; [done|]. by apply (walk_chain_nodup _ _ _ _ _ _ _ Ew).
Qed.

End walks.

(** ** Contracts *)
Section laws.
Context {W : Type} {XW : XattrWorld W}.

(** The blocks of [X] read as before, and so do the inodes. *)
Definition same (X : gset Z) (w w' : W) : Prop :=
  (forall b, b ∈ X -> xw_read w' b = xw_read w b) /\ (forall ino, xw_table ino -> xw_inode w' ino = xw_inode w ino).

Lemma same_refl X w : same X w w.
Proof. done. Qed.
Lemma same_trans X w1 w2 w3 : same X w1 w2 -> same X w2 w3 -> same X w1 w3.
Proof. intros [A B] [C D]. split; intros; rewrite ?C, ?D by done; auto. Qed.
Lemma same_sub X Y w w' : Y ⊆ X -> same X w w' -> same Y w w'.
Proof. intros H [A B]. split; auto. Qed.

(** [holds w X]: the blocks of [X] are data blocks in use. *)
Class XattrLaws (holds : W -> gset Z -> Prop) : Prop := {
  xl_start : 0 <= xw_start;
  xl_data w X b : holds w X -> b ∈ X -> xw_start < b < 2 ^ 58;
  xl_alloc w X w' rel : holds w X -> xw_alloc w = (w', rel) -> same X w w' /\
    (rel = 0 /\ holds w' X \/ 0 < rel /\ (xw_start + rel ∉ X) /\ holds w' ({[xw_start + rel]} ∪ X));
  xl_free_run w X first n : holds w X -> 0 < first -> 0 < n -> (forall r, first <= r < first + n -> xw_start + r ∈ X) ->
    let X' := X ∖ list_to_set ((fun r => xw_start + r) <$> seqZ first n) in
    holds (xw_free_run first n w) X' /\ same X' w (xw_free_run first n w);
  xl_write w X b buf w' failed : holds w X -> b ∈ X -> xlen buf = 4096 -> xw_write b buf w = (w', failed) ->
    holds w' X /\ same (X ∖ {[b]}) w w' /\ (failed = false -> xw_read w' b = Some buf);
  xl_record w X ty rec w' failed : holds w X -> xw_record ty rec w = (w', failed) -> holds w' X /\ same X w w';
  xl_sync w X w' failed : holds w X -> xw_sync w = (w', failed) -> holds w' X /\ same X w w';
  xl_free_now w X b : holds w X -> b ∈ X -> holds (xw_free_now b w) (X ∖ {[b]}) /\ same (X ∖ {[b]}) w (xw_free_now b w);
  xl_flush w X w' failed : holds w X -> xw_flush w = (w', failed) -> holds w' X /\ same X w w';
  xl_write_inode w X in_ w' : holds w X -> codec_wf in_ -> xw_table (ino_InodeNumber in_) -> is_Some (xw_inode w (ino_InodeNumber in_)) ->
    xw_write_inode in_ w = (w', false) ->
    holds w' X /\ (forall b, b ∈ X -> xw_read w' b = xw_read w b) /\
    forall ino, xw_table ino -> xw_inode w' ino = if decide (ino = ino_InodeNumber in_) then Some in_ else xw_inode w ino;
  xl_fail w : xw_frozen (xw_fail w) = true;
}.

(** ** Running *)
Definition xwp {A} (m : XM W A) (w : W) (Q : A -> W -> Prop) (E : xattr_error -> W -> Prop) : Prop :=
  match m w with
  | (w', Ret a) => Q a w'
  | (w', Err e) => E e w'
  | (_, Panic) => False
  end.

Lemma xwp_ret {A} (a : A) w (Q : A -> W -> Prop) E : Q a w -> xwp (mret a) w Q E.
Proof. done. Qed.
Lemma xwp_bind {A B} (m : XM W A) (k : A -> XM W B) w Q E : xwp m w (fun a w' => xwp (k a) w' Q E) E -> xwp (m ≫= k) w Q E.
Proof. unfold xwp, mbind, XM_bind. by destruct (m w) as [w' []]. Qed.
Lemma xwp_lift {A} (x : res xattr_error A) a w (Q : A -> W -> Prop) E : x = Ret a -> Q a w -> xwp (xlift x) w Q E.
Proof. by intros ->. Qed.
Lemma xwp_mono {A} (m : XM W A) w (Q Q' : A -> W -> Prop) (E E' : xattr_error -> W -> Prop) :
  xwp m w Q E -> (forall a w', Q a w' -> Q' a w') -> (forall e w', E e w' -> E' e w') -> xwp m w Q' E'.
Proof. unfold xwp. destruct (m w) as [w' []]; auto. Qed.
Lemma xwp_call e f w Q (E : xattr_error -> W -> Prop) :
  (forall w' failed, f w = (w', failed) -> if failed : bool then E e w' else Q tt w') -> xwp (call e f) w Q E.
Proof. intros H. unfold xwp, call. destruct (f w) as [w' []] eqn:Ef; exact (H _ _ eq_refl). Qed.
Lemma xwp_failWrite {A} (m : XM W A) w Q (E : xattr_error -> W -> Prop) : (forall e w', E e (xw_fail w')) -> xwp m w Q (fun _ _ => True) -> xwp (failWrite m) w Q E.
Proof. intros HE. unfold xwp, failWrite. destruct (m w) as [w' []]; auto. Qed.

(** A loop whose rounds keep [I]. *)
Lemma xwp_each {A} (f : A -> XM W unit) l (I : list A -> W -> Prop) w Q E :
  (forall a l w, I (a :: l) w -> xwp (f a) w (fun _ w' => I l w') E) -> I l w -> (forall w', I [] w' -> Q tt w') -> xwp (each f l) w Q E.
Proof.
  intros Hf. revert w. induction l as [|a l IH]; intros w Hw HQ; cbn [each]; [by apply xwp_ret, HQ|].
  apply xwp_bind. eapply xwp_mono; [by apply Hf| |done]. intros [] w' Hw'. by apply IH.
Qed.

End laws.

(** ** The volume *)
Section volume.
Context {W : Type} {XW : XattrWorld W} (holds : W -> gset Z -> Prop) {HL : XattrLaws holds}.

(** The attributes of an inode and the blocks they are in. *)
Abbreviation attrs := (list xattrKV * list Z)%type.

Definition kept_entries (kvs : list xattrKV) : Prop :=
  Forall (fun kv => storable kv /\ vlen kv < 65536) kvs /\ NoDup (kv_name <$> kvs) /\ Z.of_nat (length kvs) <= 1024 * 501.

Record stored (w : W) (X : gset Z) (ino : Z) (x : attrs) (in_ : Inode) : Prop := {
  sd_inode : xw_inode w ino = Some in_;
  sd_table : xw_table ino;
  sd_wf : codec_wf in_;
  sd_ino : ino_InodeNumber in_ = ino;
  sd_load : load w in_ = Ret x;
  sd_blocks : list_to_set x.2 ⊆ X;
  sd_entries : kept_entries x.1;
}.

Record attr_world (w : W) (X : gset Z) (A : gmap Z attrs) : Prop := {
  aw_holds : holds w X;
  aw_stored ino x : A !! ino = Some x -> exists in_, stored w X ino x in_;
  aw_disj ino ino' x x' : A !! ino = Some x -> A !! ino' = Some x' -> ino <> ino' -> (list_to_set x.2 : gset Z) ## list_to_set x'.2;
}.

Lemma stored_same w w' X Y ino x in_ : stored w X ino x in_ -> list_to_set x.2 ⊆ Y ->
  (forall b, b ∈ Y -> xw_read w' b = xw_read w b) -> xw_inode w' ino = xw_inode w ino -> stored w' Y ino x in_.
Proof using.
  intros [A T B C D E F] HY S1 S2. split; [by rewrite S2|exact T|exact B|exact C| |exact HY|exact F]. destruct x as [kvs bs].
  destruct (load_same _ (xw_read w') _ _ _ _ D) as [H _]; [|exact H]. intros b Hb. apply S1, HY. by apply elem_of_list_to_set.
Qed.

Lemma attr_world_same w w' X A : attr_world w X A -> holds w' X -> same X w w' -> attr_world w' X A.
Proof using.
  intros [H1 H2 H3] Hh Hs. split; [done| |done]. intros ino x Hx. destruct (H2 ino x Hx) as [in_ Hi]. exists in_.
  eapply stored_same; [exact Hi|apply Hi|apply Hs|apply Hs, Hi].
Qed.

(** ** Allocation *)

(** The blocks allocated so far, as runs and as numbers. *)
Definition taken (X : gset Z) (w : W) (allocated : list blockRun) (abs : list Z) : Prop :=
  holds w (list_to_set abs ∪ X) /\ Extents.runs_ok allocated /\ abs = (fun r => xw_start + r) <$> run_blocks allocated /\
  NoDup abs /\ (list_to_set abs : gset Z) ## X.

Lemma rollback_spec X : forall allocated abs w, taken X w allocated abs ->
  holds (fst (rollbackAlloc allocated w)) X /\ same X w (fst (rollbackAlloc allocated w)).
Proof using HL.
  unfold rollbackAlloc. cbn [fst]. induction allocated as [|r allocated IH]; intros abs w (Hh & Hok & -> & Hnd & Hd).
  - cbn in *. rewrite (left_id_L ∅ (∪)) in Hh. by split.
  - apply Forall_cons in Hok as [(R1 & R2 & R3) Hok]. change (run_blocks (r :: allocated)) with (seqZ (run_first r) (run_n r) ++ run_blocks allocated) in *.
    rewrite fmap_app in *. rewrite list_to_set_app_L in *. apply NoDup_app in Hnd as (Hnd1 & Hnd2 & Hnd3). cbn [foldl].
    set (B := list_to_set ((fun r => xw_start + r) <$> seqZ (run_first r) (run_n r)) : gset Z) in *.
    set (C := list_to_set ((fun r => xw_start + r) <$> run_blocks allocated) : gset Z) in *.
    assert (Hin : forall r0, run_first r <= r0 < run_first r + run_n r -> xw_start + r0 ∈ B).
    { intros r0 Hr0. apply elem_of_list_to_set, list_elem_of_fmap. exists r0. split; [done|]. by apply elem_of_seqZ. }
    assert (HBC : B ## C). { intros b Hb1 Hb2. apply elem_of_list_to_set in Hb1, Hb2. by apply (Hnd2 b). }
    destruct (xl_free_run w _ (run_first r) (run_n r) Hh) as [F1 F2].
    { assert (Hs : xw_start + run_first r ∈ B ∪ C ∪ X) by (apply elem_of_union_l, elem_of_union_l, Hin; lia). pose proof (xl_data _ _ _ Hh Hs). lia. }
    { lia. } { intros r0 Hr0. by apply elem_of_union_l, elem_of_union_l, Hin. }
    fold B in F1, F2. assert (EX : (B ∪ C ∪ X) ∖ B = C ∪ X) by (clear - HBC Hd; set_solver). rewrite EX in F1, F2.
    destruct (IH ((fun r => xw_start + r) <$> run_blocks allocated) (xw_free_run (run_first r) (run_n r) w)) as [G1 G2]; [split; [exact F1|]; split; [done|]; split; [reflexivity|]; split; [done|clear - Hd; set_solver]|].
    split; [done|]. eapply same_trans; [|exact G2]. eapply same_sub; [|exact F2]. clear. set_solver.
Qed.

Lemma run_blocks_add allocated rel : Extents.runs_ok allocated -> 0 <= rel < 2 ^ 58 ->
  Extents.runs_ok (addBlock allocated rel) /\ run_blocks (addBlock allocated rel) = run_blocks allocated ++ [rel].
Proof using. intros Hok Hr. rewrite addBlock_addRun. by destruct (addRun_spec allocated rel 1 Hok) as [? ->]; [lia..|]. Qed.

Lemma alloc_blocks_spec X n : forall allocated abs w, taken X w allocated abs ->
  xwp (alloc_blocks n allocated abs) w
    (fun r w' => taken X w' r.1 r.2 /\ same X w w' /\ length r.2 = (length abs + n)%nat)
    (fun e w' => e = XErrno ENOSPC /\ holds w' X /\ same X w w').
Proof using HL.
  induction n as [|n IH]; intros allocated abs w Ht; cbn [alloc_blocks].
  - apply xwp_ret. cbn [fst snd]. rewrite Nat.add_0_r. by split_and!.
  - unfold xwp. destruct (xw_alloc w) as [w1 rel] eqn:Ea. pose proof Ht as (Hh & Hok & Hab & Hnd & Hd).
    destruct (xl_alloc w _ w1 rel Hh Ea) as [Hs Hc]. assert (HsX : same X w w1) by (eapply same_sub; [|exact Hs]; set_solver).
    destruct Hc as [[-> Hh1]|(Hpos & Hnew & Hh1)].
    + assert (Ht1 : taken X w1 allocated abs) by (by split_and!). destruct (rollback_spec X _ _ _ Ht1) as [R1 R2].
      unfold mbind, XM_bind. destruct (rollbackAlloc allocated w1) as [w2 x] eqn:Er. cbn [fst] in *.
      assert (x = Ret tt) as -> by (by injection Er). cbn. split; [done|]. split; [done|]. by eapply same_trans.
    + rewrite (proj2 (Z.eqb_neq rel 0)) by lia.
      pose proof (xl_data w1 _ (xw_start + rel) Hh1 ltac:(apply elem_of_union_l; by apply elem_of_singleton)) as Hdata. pose proof xl_start as H0.
      rewrite u64_small by (unfold is_u64; lia). destruct (run_blocks_add allocated rel Hok ltac:(lia)) as [Hok' Hrb].
      pose proof (IH (addBlock allocated rel) (abs ++ [xw_start + rel]) w1) as HI. unfold xwp in HI.
      assert (Ht1 : taken X w1 (addBlock allocated rel) (abs ++ [xw_start + rel])).
      { split; [|split; [done|split; [by rewrite Hrb, fmap_app, Hab|split]]].
        - rewrite list_to_set_app_L. cbn. by replace (list_to_set abs ∪ ({[xw_start + rel]} ∪ ∅) ∪ X) with ({[xw_start + rel]} ∪ (list_to_set abs ∪ X)) by (clear; set_solver).
        - apply NoDup_app. split; [done|]. split; [|apply NoDup_singleton]. intros b Hb ->%list_elem_of_singleton. apply Hnew. apply elem_of_union_l. by apply elem_of_list_to_set.
        - rewrite list_to_set_app_L. cbn. clear - Hd Hnew. set_solver. }
      specialize (HI Ht1). destruct (alloc_blocks n _ _ w1) as [w2 [r|e|]]; [|destruct HI as (-> & ? & ?); split; [done|]; split; [done|by eapply same_trans]|done].
      destruct HI as (T1 & T2 & T3). split; [done|]. split; [by eapply same_trans|]. rewrite T3, length_app. cbn. lia.
Qed.

(** ** Writing the blocks *)
Lemma write_or_undo_spec X allocated abs block buf w : taken X w allocated abs -> block ∈ abs -> xlen buf = 4096 ->
  xwp (write_or_undo allocated block buf) w
    (fun _ w' => taken X w' allocated abs /\ same ((list_to_set abs ∪ X) ∖ {[block]}) w w' /\ xw_read w' block = Some buf)
    (fun _ w' => holds w' X /\ same X w w').
Proof using HL.
  intros Ht Hb Hl. pose proof Ht as (Hh & Hok & Hab & Hnd & Hd). unfold xwp, write_or_undo. destruct (xw_write block buf w) as [w1 failed] eqn:Ew.
  destruct (xl_write w _ block buf w1 failed Hh) as (H1 & H2 & H3); [apply elem_of_union_l; by apply elem_of_list_to_set|done|done|].
  assert (Ht1 : taken X w1 allocated abs) by (by split_and!). destruct failed; [|by split_and!; [| |apply H3]].
  destruct (rollback_spec X _ _ _ Ht1) as [R1 R2]. unfold mbind, XM_bind. destruct (rollbackAlloc allocated w1) as [w2 x] eqn:Er. cbn [fst] in *.
  assert (x = Ret tt) as -> by (by injection Er). cbn. split; [done|]. eapply same_trans; [|exact R2]. eapply same_sub; [|exact H2].
  assert (block ∈ (list_to_set abs : gset Z)) by (by apply elem_of_list_to_set). clear - H Hd. set_solver.
Qed.

Lemma write_chain_spec X kvs abs allocated : forall descs i acc bufs w, taken X w allocated abs ->
  serialize_blocks kvs abs 4096 i descs = Ret bufs -> length abs = (i + length descs)%nat -> Forall (fun buf => xlen buf = 4096) bufs -> length acc = i ->
  (forall k b buf, abs !! k = Some b -> acc !! k = Some buf -> xw_read w b = Some buf) ->
  xwp (write_chain kvs abs allocated i descs acc) w
    (fun r w' => r = acc ++ bufs /\ taken X w' allocated abs /\ same X w w' /\ forall k b buf, abs !! k = Some b -> (acc ++ bufs) !! k = Some buf -> xw_read w' b = Some buf)
    (fun _ w' => holds w' X /\ same X w w').
Proof using HL.
  induction descs as [|d descs IH]; intros i acc bufs w Ht Hs Hlen Hl Hacc Hread; cbn [write_chain].
  - injection Hs as <-. apply xwp_ret. rewrite app_nil_r. by split_and!.
  - cbn [serialize_blocks] in Hs. destruct (serializeXattrBlock d kvs abs i 4096) as [buf| |] eqn:Ed; cbn [mbind res_bind] in Hs; [|done..].
    destruct (serialize_blocks kvs abs 4096 (S i) descs) as [bufs'| |] eqn:Es; cbn [mbind res_bind] in Hs; [|done..]. injection Hs as <-.
    apply Forall_cons in Hl as [Hl1 Hl2]. cbn [length] in Hlen. destruct (lookup_lt_is_Some_2 abs i ltac:(lia)) as [block Eb].
    apply xwp_bind. eapply xwp_lift; [reflexivity|]. apply xwp_bind. eapply (xwp_lift _ block); [unfold index; rewrite decide_True by lia; by rewrite Nat2Z.id, Eb|].
    apply xwp_bind. eapply xwp_mono; [apply (write_or_undo_spec X allocated abs block buf w Ht); [by eapply list_elem_of_lookup_2|done]| |done].
    intros _ w1 (Ht1 & Hs1 & Hr1). pose proof Ht as (_ & _ & _ & Hnd & Hd). assert (Hin : block ∈ (list_to_set abs : gset Z)) by (apply elem_of_list_to_set; by eapply list_elem_of_lookup_2).
    assert (HsX : same X w w1) by (eapply same_sub; [|exact Hs1]; clear - Hin Hd; set_solver).
    eapply xwp_mono; [apply (IH (S i) (acc ++ [buf]) bufs' w1); [done|done|lia|done|rewrite length_app; cbn; lia|]| |].
    + intros k b buf' Hkb Hkbuf. destruct (decide (k = i)) as [->|Hne].
      * assert (b = block) as -> by congruence. rewrite lookup_app_r in Hkbuf by lia. rewrite Hacc, Nat.sub_diag in Hkbuf. by injection Hkbuf as <-.
      * rewrite lookup_app_l in Hkbuf by (pose proof (lookup_lt_Some _ _ _ Hkbuf) as Hlt; rewrite length_app in Hlt; cbn in Hlt; lia).
        rewrite <- (Hread k b buf' Hkb Hkbuf). apply Hs1. apply elem_of_difference. split; [apply elem_of_union_l, elem_of_list_to_set; by eapply list_elem_of_lookup_2|].
        rewrite elem_of_singleton. intros ->. apply Hne. by eapply NoDup_lookup.
    + intros r w2 (-> & T2 & S2 & R2). rewrite <- app_assoc in R2 |- *. split; [done|]. split; [done|]. split; [by eapply same_trans|done].
    + intros e w2 [T2 S2]. split; [done|by eapply same_trans].
Qed.

(** ** Committing *)

(** A call that leaves the blocks and the inodes alone. *)
Lemma call_keeps Y w0 e f w Q : (forall w w' failed, holds w Y -> f w = (w', failed) -> holds w' Y /\ same Y w w') -> holds w Y /\ same Y w0 w ->
  (forall w', holds w' Y /\ same Y w0 w' -> Q tt w') -> xwp (call e f) w Q (fun _ _ => True).
Proof using.
  intros Hf [H1 H2] HQ. apply xwp_call. intros w' failed E. destruct (Hf w w' failed H1 E) as [H3 H4]. destruct failed; [done|].
  apply HQ. split; [done|]. by eapply same_trans.
Qed.

Lemma record_keeps Y w0 e ty rec w Q : holds w Y /\ same Y w0 w -> (forall w', holds w' Y /\ same Y w0 w' -> Q tt w') -> xwp (call e (xw_record ty rec)) w Q (fun _ _ => True).
Proof using HL. apply call_keeps. intros ? ? ? ? ?. by eapply xl_record. Qed.

Lemma free_all Y bs w0 w Q : NoDup bs -> list_to_set bs ⊆ Y -> holds w Y /\ same Y w0 w ->
  (forall w', holds w' (Y ∖ list_to_set bs) /\ same (Y ∖ list_to_set bs) w0 w' -> Q tt w') -> xwp (each free_now bs) w Q (fun _ _ => True).
Proof using HL.
  intros Hnd Hsub [H1 H2] HQ.
  apply (xwp_each _ _ (fun l w => exists done, bs = done ++ l /\ holds w (Y ∖ list_to_set done) /\ same (Y ∖ list_to_set done) w0 w)).
  - intros b l w1 (dn & -> & Hh & Hs). unfold xwp, free_now. exists (dn ++ [b]). rewrite <- app_assoc. split; [done|].
    apply NoDup_app in Hnd as (_ & Hnd & _). destruct (xl_free_now w1 _ b Hh) as [F1 F2].
    { apply elem_of_difference. split; [apply Hsub, elem_of_list_to_set, elem_of_app; right; by left|]. intros Hb%elem_of_list_to_set. apply (Hnd b Hb). by left. }
    rewrite list_to_set_app_L. cbn. replace (Y ∖ (list_to_set dn ∪ ({[b]} ∪ ∅))) with ((Y ∖ list_to_set dn) ∖ {[b]}) by (clear; set_solver).
    split; [done|]. eapply same_trans; [|exact F2]. eapply same_sub; [|exact Hs]. clear. set_solver.
  - exists []. split; [done|]. cbn. by rewrite difference_empty_L.
  - intros w' (dn & Ed & Hh & Hs). rewrite app_nil_r in Ed. subst dn. by apply HQ.
Qed.

Lemma commit_spec Y w in_ blocks oldHead freeOld kvs bs : holds w Y -> codec_wf in_ -> xw_table (ino_InodeNumber in_) -> is_Some (xw_inode w (ino_InodeNumber in_)) ->
  Forall (fun x : Z * list Z => xlen x.2 = 4096 /\ 0 <= usedSizeOf x.2 <= 4096) blocks ->
  loadXattrEntries (xw_read w) 4096 oldHead = Ret (kvs, bs) -> list_to_set bs ⊆ Y ->
  xwp (commitXattrOp in_ blocks oldHead freeOld) w
    (fun _ w' => holds w' (Y ∖ list_to_set bs) /\ (forall b, b ∈ Y ∖ list_to_set bs -> xw_read w' b = xw_read w b) /\
       forall ino, xw_table ino -> xw_inode w' ino = if decide (ino = ino_InodeNumber in_) then Some in_ else xw_inode w ino)
    (fun _ w' => xw_frozen w' = true).
Proof using HL.
  intros Hh Hwf Htab Hino Hblocks Hload Hsub. assert (Hsame0 := same_refl Y w). unfold commitXattrOp. apply xwp_failWrite; [intros; apply xl_fail|].
  apply xwp_bind. apply (xwp_each _ _ (fun l w' => Forall (fun x : Z * list Z => xlen x.2 = 4096 /\ 0 <= usedSizeOf x.2 <= 4096) l /\ holds w' Y /\ same Y w w')); [|by split_and!|].
  { intros x l w1 [[[Hx1 Hx2] Hl]%Forall_cons H1]. apply xwp_bind. eapply record_keeps; [exact H1|]. intros w2 H2. apply xwp_bind.
    eapply xwp_lift; [unfold subslice; rewrite (proj2 (Z.leb_le _ _)), (proj2 (Z.leb_le _ _)) by lia; reflexivity|].
    eapply record_keeps; [exact H2|]. intros w3 H3. by split. }
  intros w1 [_ H1]. apply xwp_bind. unfold journalInodeFull. apply xwp_bind.
  apply (xwp_lift _ (encode in_)); [rewrite MarshalBinary_encode by exact Hwf; reflexivity|]. eapply record_keeps; [exact H1|]. intros w2 H2.
  assert (Hold : forall w', same Y w w' -> walkXattrChainBlocks (xw_read w') 4096 oldHead = Ret bs /\ NoDup bs).
  { intros w' [Hs _]. destruct (load_same _ (xw_read w') _ _ _ _ Hload) as (_ & ? & ?); [|done]. intros b Hb. apply Hs, Hsub. by apply elem_of_list_to_set. }
  assert (Hsync : forall w (Q : unit -> W -> Prop), holds w Y /\ same Y w2 w -> (forall w', holds w' Y /\ same Y w2 w' -> Q tt w') -> xwp (call ErrXattrJournal xw_sync) w Q (fun _ _ => True)).
  { intros w3 Q. apply call_keeps. intros ? ? ? ? ?. by eapply xl_sync. }
  set (Z_ := Y ∖ list_to_set bs). apply xwp_bind.
  assert (Hmid : forall w3, holds w3 Z_ /\ same Z_ w w3 -> xwp (_ ← call ErrXattrJournal xw_flush; _ ← call (ErrXattrInode (ino_InodeNumber in_)) (xw_write_inode in_); call ErrXattrJournal xw_flush) w3
    (fun _ w' => holds w' Z_ /\ (forall b, b ∈ Z_ -> xw_read w' b = xw_read w b) /\
       forall ino, xw_table ino -> xw_inode w' ino = if decide (ino = ino_InodeNumber in_) then Some in_ else xw_inode w ino) (fun _ _ => True)).
  { intros w3 H3. apply xwp_bind. eapply (call_keeps Z_ w); [intros ? ? ? ? ?; by eapply xl_flush|exact H3|]. intros w4 [H4 H4'].
    apply xwp_bind, xwp_call. intros w5 failed E5. destruct failed; [done|].
    destruct (xl_write_inode w4 Z_ in_ w5 H4 Hwf Htab) as (H5 & R5 & I5); [by rewrite (proj2 H4')|done|]. apply xwp_call. intros w6 failed6 E6. destruct (xl_flush w5 Z_ w6 failed6 H5 E6) as [H6 [R6 I6]].
    destruct failed6; [done|]. split; [done|]. split.
    - intros b Hb. rewrite R6, R5 by done. by apply H4'.
    - intros ino Hin. rewrite I6, I5 by done. case_decide; [done|]. by apply H4'. }
  destruct (freeOld || negb (oldHead =? 0)) eqn:Eold.
  - destruct H2 as [H2 H2']. destruct (Hold w2 H2') as [Ew Hnd]. apply xwp_bind. unfold xwp at 1, walkM. rewrite Ew.
    apply xwp_bind. apply (xwp_each _ _ (fun _ w' => holds w' Y /\ same Y w2 w')); [|by split|].
    { intros blk l w3 H3. eapply record_keeps; [exact H3|]. done. }
    intros w3 H3. apply xwp_bind. apply Hsync; [exact H3|]. intros w4 H4. eapply (free_all Y bs w2); [done|done|exact H4|].
    intros w5 [H5 H5']. apply Hmid. split; [done|]. eapply same_trans; [|exact H5']. eapply same_sub; [|exact H2']. unfold Z_. clear. set_solver.
  - apply orb_false_iff in Eold as [_ Eold]. apply negb_false_iff, Z.eqb_eq in Eold. rewrite Eold in Hload. cbn in Hload. injection Hload as <- <-.
    apply Hsync; [split; [apply H2|done]|]. intros w3 [H3 H3']. apply Hmid. unfold Z_. cbn. rewrite difference_empty_L. split; [done|]. eapply same_trans; [apply H2|done].
Qed.

(** ** Setting *)
Lemma edit_entries_kept kvs name value flags kvs' : kept_entries kvs -> bytes name -> xlen name <= 255 ->
  (forall v, value = Some v -> bytes v /\ xlen v < 65536) -> edit_entries kvs name value flags = Ret kvs' ->
  Forall (fun kv => storable kv /\ vlen kv < 65536) kvs' /\ NoDup (kv_name <$> kvs') /\ Z.of_nat (length kvs') < 2 ^ 32.
Proof using.
  intros (Hk & Hnd & Hlen) Hn Hnl Hv. unfold edit_entries. destruct (list_find _ kvs) as [[idx kv]|] eqn:Ef.
  - apply list_find_Some in Ef as (Ekv & Ename & _). pose proof (Forall_lookup_1 _ _ _ _ Hk Ekv) as [[[F1 F2] [F3 F4]] F5]. destruct value as [v|].
    + destruct (negb _); [done|]. intros [= <-]. destruct (Hv v eq_refl) as [V1 V2]. rewrite length_insert. split_and!; [| |lia].
      * apply Forall_insert; [done|]. split; [|done]. split; [split; [done|unfold vlen; cbn; lia]|done].
      * rewrite list_fmap_insert. cbn. by rewrite list_insert_id by (by rewrite list_lookup_fmap, Ekv).
    + intros [= <-]. split_and!; [apply Forall_app; split; [by apply Forall_take|by apply Forall_drop]| |rewrite length_app, length_take, length_drop; lia].
      eapply sublist_NoDup; [exact Hnd|]. apply fmap_sublist. rewrite <- (take_drop idx kvs) at 3. apply sublist_app; [done|].
      rewrite (drop_S _ _ _ Ekv). by apply sublist_cons.
  - apply list_find_None in Ef. destruct value as [v|]; [|done]. destruct (negb _); [done|]. intros [= <-]. destruct (Hv v eq_refl) as [V1 V2].
    rewrite length_app, fmap_app. cbn [length fmap list_fmap]. split_and!; [| |lia].
    + apply Forall_app. split; [done|]. apply Forall_singleton. split; [|done]. split; [split; [unfold nlen; cbn; lia|unfold vlen; cbn; lia]|done].
    + apply NoDup_app. split; [done|]. split; [|apply NoDup_singleton]. intros n Hin Hn0%list_elem_of_singleton.
      apply list_elem_of_fmap in Hin as (kv & Ekv & Hin). apply (proj1 (Forall_forall _ _) Ef kv Hin). cbn in Hn0. congruence.
Qed.

(** What the new entries hold. *)
Lemma edit_entries_get kvs name value flags kvs' n : NoDup (kv_name <$> kvs) -> edit_entries kvs name value flags = Ret kvs' ->
  getXattrFromKvs kvs' n = if decide (n = name) then value else getXattrFromKvs kvs n.
Proof using.
  revert kvs'. unfold edit_entries, getXattrFromKvs. induction kvs as [|kv kvs IH]; intros kvs' Hnd.
  - cbn. destruct value as [v|]; [|done]. destruct (negb _); [done|]. intros [= <-]. cbn. case_decide as E; [subst; by rewrite bool_decide_true|by rewrite bool_decide_false by congruence].
  - apply NoDup_cons in Hnd as [Hnew Hnd]. cbn [list_find]. destruct (decide (kv_name kv = name)) as [Ek|Ek].
    + assert (Hno : find (fun kv => bool_decide (kv_name kv = name)) kvs = None).
      { apply eq_None_not_Some. intros [kv' Ef]. apply find_some in Ef as [Hin E%bool_decide_eq_true]. apply Hnew. rewrite Ek, <- E.
        apply list_elem_of_fmap. exists kv'. split; [reflexivity|]. by apply list_elem_of_In. }
      destruct value as [v|].
      * destruct (negb _); [done|]. intros [= <-]. cbn. rewrite Ek. case_decide as E; [subst; by rewrite !bool_decide_true|by rewrite !bool_decide_false by congruence].
      * intros [= <-]. cbn. rewrite drop_0. case_decide as E; [subst n; by rewrite Hno|]. by rewrite Ek, bool_decide_false by congruence.
    + destruct (list_find (fun kv => kv_name kv = name) kvs) as [[idx kv0]|]; cbn [fmap option_fmap option_map prod_map fst snd];
        destruct value as [v|]; try done; try (destruct (negb _); [done|]); intros [= <-]; cbn;
        (case_bool_decide; [cbn; case_decide; congruence|exact (IH _ Hnd eq_refl)]).
Qed.

Lemma inode_wf in_ head used sec nsec : codec_wf in_ -> is_u64 head -> is_u64 used -> is_u64 sec -> is_u64 nsec ->
  codec_wf (set_ctime (set_xattr in_ head used) sec nsec).
Proof using.
  intros [Hf Hw] [] [] [] []. split; [|done]. cbn in Hf. repeat (apply Forall_cons in Hf as [? Hf]). repeat (apply Forall_cons_2; [cbn; done || lia|]). apply Forall_nil_2.
Qed.

(** The volume after a commit that replaces the blocks [bs] of [ino] by [abs]. *)
Lemma attr_world_commit w w' X A ino kvs bs in_ in_' N kvs' : attr_world w X A -> A !! ino = Some (kvs, bs) -> stored w X ino (kvs, bs) in_ ->
  ino_InodeNumber in_' = ino -> codec_wf in_' -> (list_to_set N : gset Z) ## X -> kept_entries kvs' -> load w' in_' = Ret (kvs', N) ->
  let Y := (list_to_set N ∪ X) ∖ list_to_set bs in holds w' Y ->
  (forall b, b ∈ X ∖ list_to_set bs -> xw_read w' b = xw_read w b) ->
  (forall i, xw_table i -> xw_inode w' i = if decide (i = ino) then Some in_' else xw_inode w i) ->
  attr_world w' Y (<[ino := (kvs', N)]> A).
Proof using.
  intros [H1 H2 H3] HA Hst Hno Hwf HN Hk Hl Y Hh Hread Hinode. pose proof (sd_blocks _ _ _ _ _ Hst) as Hbs. cbn in Hbs.
  assert (HNY : list_to_set N ⊆ Y) by (unfold Y; clear - HN Hbs; set_solver).
  assert (Hother : forall i x, A !! i = Some x -> i <> ino -> list_to_set x.2 ⊆ X /\ (list_to_set x.2 : gset Z) ## list_to_set bs).
  { intros i x Hx Hne. destruct (H2 i x Hx) as [i_ Hi]. split; [apply Hi|]. by apply (H3 i ino x (kvs, bs)). }
  split; [done| |].
  - intros i x [[<- <-]|[Hne Hx]]%lookup_insert_Some.
    + exists in_'. split; [rewrite Hinode by apply Hst; by rewrite decide_True|apply Hst|exact Hwf|exact Hno|exact Hl|exact HNY|exact Hk].
    + destruct (H2 i x Hx) as [i_ Hi]. exists i_. destruct (Hother i x Hx ltac:(done)) as [O1 O2].
      assert (Hx2 : list_to_set x.2 ⊆ X ∖ list_to_set bs) by (clear - O1 O2; set_solver).
      assert (Hi' : stored w' (X ∖ list_to_set bs) i x i_) by (eapply stored_same; [exact Hi|exact Hx2|exact Hread|rewrite Hinode by apply Hi; by rewrite decide_False]).
      destruct Hi' as [B1 BT B2 B3 B4 B5 B6]. split; [exact B1|exact BT|exact B2|exact B3|exact B4| |exact B6]. unfold Y. clear - Hx2. set_solver.
  - intros i i' x x' [[<- <-]|[Hne Hx]]%lookup_insert_Some [[<- <-]|[Hne' Hx']]%lookup_insert_Some Hii; [done| | |by apply (H3 i i')].
    + destruct (Hother i' x' Hx' ltac:(done)) as [O1 _]. cbn. clear - O1 HN. set_solver.
    + destruct (Hother i x Hx ltac:(done)) as [O1 _]. cbn. clear - O1 HN. set_solver.
Qed.

Section set.
Context (sec nsec : Z) (Hsec : is_u64 sec) (Hnsec : is_u64 nsec) (fuel : nat).
Context (w : W) (X : gset Z) (A : gmap Z attrs) (Hw : attr_world w X A).

(** What an operation on [ino] with the new entries [kvs'] leads to: [in_] is
    the inode as the caller passes it on, [in'] what it has become. *)
Definition set_done (ino : Z) (bs : list Z) (kvs' : list xattrKV) (in_ in' : Inode) (w' : W) : Prop :=
  (exists off size, in' = set_ctime (set_xattr in_ off size) sec nsec) /\ exists bs' X',
  attr_world w' X' (<[ino := (kvs', bs')]> A) /\ X ∖ list_to_set bs ⊆ X' /\ (forall b, b ∈ X ∖ list_to_set bs -> xw_read w' b = xw_read w b) /\
  forall i, xw_table i -> xw_inode w' i = if decide (i = ino) then Some in' else xw_inode w i.

(** The caller may have changed other fields of the stored inode. *)
Definition passed (ino : Z) (in0 in_ : Inode) : Prop := codec_wf in_ /\ ino_InodeNumber in_ = ino /\ ino_XattrOffset in_ = ino_XattrOffset in0.

Definition set_failed (w' : W) : Prop := xw_frozen w' = true \/ (attr_world w' X A /\ same X w w').

Lemma set_failed_same w' : holds w' X -> same X w w' -> set_failed w'.
Proof using Hw. intros H1 H2. right. split; [|done]. by eapply attr_world_same. Qed.

Lemma set_chain ino kvs bs in0 in_ kvs' : A !! ino = Some (kvs, bs) -> stored w X ino (kvs, bs) in0 -> passed ino in0 in_ -> kvs' <> [] ->
  Forall (fun kv => storable kv /\ vlen kv < 65536) kvs' -> NoDup (kv_name <$> kvs') -> Z.of_nat (length kvs') < 2 ^ 32 ->
  xwp (descs ← xlift (match buildXattrChain (S (S fuel)) kvs' with Some x => x | None => Panic end);
       '(allocated, absBlocks) ← alloc_blocks (length descs) [] [];
       bufs ← write_chain kvs' absBlocks allocated 0 descs [];
       head ← xlift (index absBlocks 0);
       buf ← xlift (index bufs 0);
       let in' := set_ctime (set_xattr in_ head (usedSizeOf buf)) sec nsec in
       _ ← commitXattrOp in' (zip absBlocks bufs) (ino_XattrOffset in_) false; mret in') w
    (fun in' w' => set_done ino bs kvs' in_ in' w') (fun _ w' => set_failed w').
Proof using HL Hw Hsec Hnsec.
  intros HA Hst (S2' & S3' & SX) Hne Hk Hndn Hlen. assert (Hfit : Forall storable kvs') by (eapply Forall_impl; [exact Hk|by intros kv []]).
  destruct (buildXattrChain_spec fuel kvs' Hne) as (descs & Hplan & Eb); [by eapply Forall_impl; [exact Hfit|intros kv [? _]]|done|].
  assert (Hb := Eb). rewrite Eb. destruct (Z.ltb_spec XattrMaxChain (Z.of_nat (length descs))) as [|Hmax].
  { unfold xwp, mbind, XM_bind. cbn. apply set_failed_same; [apply Hw|apply same_refl]. }
  apply xwp_bind. eapply xwp_lift; [reflexivity|]. apply xwp_bind. pose proof (aw_holds _ _ _ Hw) as Hh.
  assert (Ht0 : taken X w [] []).
  { split; [cbn; by rewrite (left_id_L ∅ (∪))|]. split; [constructor|]. split; [done|]. split; [constructor|]. cbn. apply disjoint_empty_l. }
  eapply xwp_mono; [apply (alloc_blocks_spec X (length descs) [] [] w Ht0)| |].
  2: { intros e w1 (_ & H1 & H2). by apply set_failed_same. }
  intros [allocated abs] w1 (Ht & Hs1 & Hla). cbn [fst snd] in *. pose proof Ht as (Hh1 & _ & _ & Hnd & Hd).
  assert (Hpos : Forall (fun b => 0 < b < 2 ^ 64) abs).
  { apply Forall_forall. intros b Hb'. pose proof (xl_data w1 _ b Hh1 ltac:(apply elem_of_union_l; by apply elem_of_list_to_set)). pose proof xl_start. lia. }
  destruct (chain_roundtrip fuel kvs' abs descs Hne Hfit Hlen Hb Hla Hnd Hpos) as (bufs & Es & Lb & Hbufs0 & Hload).
  assert (Hbufs : Forall (fun buf => xlen buf = 4096 /\ 0 <= usedSizeOf buf <= 4096) bufs) by (eapply Forall_impl; [exact Hbufs0|by intros ? (? & ? & ?)]). clear Hbufs0.
  apply xwp_bind. eapply xwp_mono; [apply (write_chain_spec X kvs' abs allocated descs 0 [] bufs w1); [done|done|by rewrite Hla|by eapply Forall_impl; [exact Hbufs|intros ? []]|done|done]| |].
  2: { intros e w2 [H1 H2]. apply set_failed_same; [done|by eapply same_trans]. }
  intros r w2 (-> & Ht2 & Hs2 & Hread). cbn [app] in *.
  assert (Hdne : descs <> []) by (intros ->; inversion Hplan; congruence).
  destruct abs as [|head abs]; [destruct descs; done|]. destruct bufs as [|buf bufs]; [destruct descs; done|].
  apply xwp_bind. eapply (xwp_lift _ head); [done|]. apply xwp_bind. eapply (xwp_lift _ buf); [done|].
  set (abs_ := head :: abs) in *. set (bufs_ := buf :: bufs) in *. set (in_' := set_ctime (set_xattr in_ head (usedSizeOf buf)) sec nsec).
  assert (Hs02 : same X w w2) by (by eapply same_trans). assert (Hst' := Hst). destruct Hst as [S1 ST S2 S3 S4 S5 S6]. cbn in S5. unfold load in S4. rewrite <- SX in S4.
  assert (Hwf' : codec_wf in_'). { apply Forall_cons in Hpos as [? _]. apply Forall_cons in Hbufs as [[? ?] _]. apply inode_wf; try done; unfold is_u64; lia. }
  destruct (load_same _ (xw_read w2) _ _ _ _ S4) as (Hl2 & _ & _). { intros b Hb'. apply Hs02, S5. by apply elem_of_list_to_set. }
  pose proof Ht2 as (Hh2 & _). cbv zeta. apply xwp_bind.
  eapply xwp_mono; [apply (commit_spec (list_to_set abs_ ∪ X) w2 in_' (zip abs_ bufs_) (ino_XattrOffset in_) false kvs bs); [exact Hh2|exact Hwf'|change (ino_InodeNumber in_') with (ino_InodeNumber in_); by rewrite S3'| | |exact Hl2|clear - S5; set_solver]| |].
  - change (ino_InodeNumber in_') with (ino_InodeNumber in_). rewrite S3'. exists in0. by rewrite (proj2 Hs02) by done.
  - apply Forall_forall. intros [b bf] Hin. cbn [fst snd]. apply list_elem_of_lookup in Hin as [k Hin]. apply lookup_zip_Some in Hin as [_ Hin].
    exact (Forall_lookup_1 _ _ _ _ Hbufs Hin).
  - intros _ w3 (Hh3 & Hr3 & Hi3). change (ino_InodeNumber in_') with (ino_InodeNumber in_) in Hi3. rewrite S3' in Hi3.
    assert (HI3 : forall i, xw_table i -> xw_inode w3 i = if decide (i = ino) then Some in_' else xw_inode w i) by (intros i Hi; rewrite Hi3 by done; case_decide; [done|by apply Hs02]).
    assert (Hdis : (list_to_set abs_ : gset Z) ## list_to_set bs) by (clear - Hd S5; set_solver).
    assert (HX3 : forall b, b ∈ X ∖ list_to_set bs -> xw_read w3 b = xw_read w b).
    { intros b Hb'. rewrite Hr3 by (clear - Hb'; set_solver). apply Hs02. clear - Hb'. set_solver. }
    apply xwp_ret. split; [by exists head, (usedSizeOf buf)|]. exists abs_, ((list_to_set abs_ ∪ X) ∖ list_to_set bs). split; [|split; [clear; set_solver|split; [exact HX3|exact HI3]]].
    apply (attr_world_commit w w3 X A ino kvs bs in0 in_' abs_ kvs'); [exact Hw|exact HA|exact Hst'|exact S3'|exact Hwf'|exact Hd| | |exact Hh3|exact HX3|exact HI3].
    + split; [done|]. split; [done|]. pose proof (plan_length _ _ _ Hplan). unfold XattrMaxChain in *. lia.
    + unfold load. change (ino_XattrOffset in_') with head. rewrite <- (readback_all kvs' Hk). apply (Hload (xw_read w3)). intros k b bf Hkb Hkbf.
      rewrite <- (Hread k b bf Hkb Hkbf). apply Hr3. assert (b ∈ (list_to_set abs_ : gset Z)) by (apply elem_of_list_to_set; by eapply list_elem_of_lookup_2).
      clear - H Hdis. set_solver.
  - intros e w3 Hf. by left.
Qed.

(** The answers that are given before anything is changed. *)
Definition refused (kvs : list xattrKV) (name : list Z) (value : option (list Z)) (flags : Z) : option xattr_error :=
  if xattrMaxNameLen <? xlen name then Some (XErrno ERANGE)
  else if xattrMaxValueLen <? xlen (default [] value) then Some (XErrno E2BIG)
  else if xw_frozen w then Some (XErrno EROFS)
  else match edit_entries kvs name value flags with Err e => Some e | _ => None end.

Lemma xbind_ret {B C} (m : XM W B) (f : B -> XM W C) (w1 w2 : W) x : m w1 = (w2, Ret x) -> (x ← m; f x) w1 = f x w2.
Proof using. intros E. unfold mbind, XM_bind. by rewrite E. Qed.

Lemma load_none w' in_ : ino_XattrOffset in_ = 0 -> load w' in_ = Ret ([], []).
Proof using. intros E. unfold load, loadXattrEntries. by rewrite E. Qed.

Lemma set_last ino kvs bs in0 in_ : A !! ino = Some (kvs, bs) -> stored w X ino (kvs, bs) in0 -> passed ino in0 in_ ->
  xwp (let in' := set_ctime (set_xattr in_ 0 0) sec nsec in _ ← commitXattrOp in' [] (ino_XattrOffset in_) true; mret in') w
    (fun in' w' => set_done ino bs [] in_ in' w') (fun _ w' => set_failed w').
Proof using HL Hw Hsec Hnsec.
  intros HA Hst (S2' & S3' & SX). assert (Hst' := Hst). destruct Hst as [S1 ST S2 S3 S4 S5 S6]. cbn in S5, S6. unfold load in S4. rewrite <- SX in S4.
  set (in_' := set_ctime (set_xattr in_ 0 0) sec nsec). assert (Hwf' : codec_wf in_') by (apply inode_wf; try done; unfold is_u64; lia). cbv zeta. apply xwp_bind.
  eapply xwp_mono; [apply (commit_spec X w in_' [] (ino_XattrOffset in_) true kvs bs (aw_holds _ _ _ Hw) Hwf'); [change (ino_InodeNumber in_') with (ino_InodeNumber in_); by rewrite S3'| |constructor|exact S4|exact S5]| |intros e w' Hf; by left].
  - change (ino_InodeNumber in_') with (ino_InodeNumber in_). rewrite S3'. by exists in0.
  - change (ino_InodeNumber in_') with (ino_InodeNumber in_). rewrite S3'. intros _ w' (C1 & C2 & C3).
    apply xwp_ret. split; [by exists 0, 0|]. exists [], (X ∖ list_to_set bs). split; [|split; [reflexivity|split; [exact C2|exact C3]]].
    pose proof (attr_world_commit w w' X A ino kvs bs in0 in_' [] [] Hw HA Hst' S3' Hwf') as Hc. cbn [list_to_set] in Hc. rewrite (left_id_L ∅ (∪)) in Hc.
    apply Hc; [apply disjoint_empty_l| |by apply load_none|exact C1|exact C2|exact C3]. split; [constructor|]. split; [constructor|]. rewrite length_nil. lia.
Qed.

Lemma setXattrLocked_spec ino kvs bs in0 in_ name value flags kvs' : A !! ino = Some (kvs, bs) -> stored w X ino (kvs, bs) in0 -> passed ino in0 in_ ->
  bytes name -> xlen name <= 255 -> (forall v, value = Some v -> bytes v /\ xlen v < 65536) -> edit_entries kvs name value flags = Ret kvs' ->
  xwp (setXattrLocked sec nsec (S (S fuel)) in_ name value flags) w (fun in' w' => set_done ino bs kvs' in_ in' w') (fun _ w' => set_failed w').
Proof using HL Hw Hsec Hnsec.
  intros HA Hst Hp Hn Hnl Hv Ee. pose proof Hst as [S1 ST S2 S3 S4 S5 S6]. cbn in S6. unfold load in S4. rewrite <- (proj2 (proj2 Hp)) in S4. fold (load w in_) in S4. destruct (edit_entries_kept _ _ _ _ _ S6 Hn Hnl Hv Ee) as (K1 & K2 & K3).
  unfold setXattrLocked. apply xwp_bind. unfold loadM, xwp at 1. rewrite S4. apply xwp_bind. apply (xwp_lift _ kvs'); [exact Ee|].
  destruct (decide (kvs' = [])) as [->|Hne]; [by apply (set_last ino kvs bs in0)|by apply (set_chain ino kvs bs in0)].
Qed.

Lemma edit_entries_no_panic kvs name value flags : edit_entries kvs name value flags <> Panic.
Proof using. unfold edit_entries. destruct (list_find _ kvs) as [[? ?]|], value; try done; by destruct (negb _). Qed.

Lemma setXattrLocked_refused in_ kvs bs name value flags e : load w in_ = Ret (kvs, bs) -> edit_entries kvs name value flags = Err e ->
  setXattrLocked sec nsec (S (S fuel)) in_ name value flags w = (w, Err e).
Proof using. intros El Ee. unfold setXattrLocked. rewrite (xbind_ret (loadM in_) _ w w (kvs, bs)) by (unfold loadM; by rewrite El). unfold mbind, XM_bind, xlift at 1. by rewrite Ee. Qed.

Lemma setXattr_spec ino kvs bs name value flags : A !! ino = Some (kvs, bs) -> bytes name ->
  (forall v, value = Some v -> bytes v /\ xlen v <> 65536) ->
  let '(w', x) := setXattr sec nsec (S (S fuel)) ino name value flags w in
  match refused kvs name value flags with
  | Some e => w' = w /\ x = Err e
  | None => match x with
            | Ret _ => exists in_ in' kvs', xw_inode w ino = Some in_ /\ edit_entries kvs name value flags = Ret kvs' /\ set_done ino bs kvs' in_ in' w'
            | Err _ => set_failed w'
            | Panic => False
            end
  end.
Proof using HL Hw Hsec Hnsec.
  intros HA Hn Hv. destruct (aw_stored _ _ _ Hw ino _ HA) as [in_ Hst].
  unfold refused, setXattr, xattrMaxNameLen, xattrMaxValueLen. destruct (Z.ltb_spec 255 (xlen name)) as [|Hnl]; [done|].
  destruct (Z.ltb_spec 65536 (xlen (default [] value))) as [|Hvl]; [done|]. destruct (xw_frozen w); [done|].
  rewrite (xbind_ret (read_inode ino) _ w w in_) by (unfold read_inode; by rewrite (sd_inode _ _ _ _ _ Hst)).
  destruct (edit_entries kvs name value flags) as [kvs'|e|] eqn:Ee; [|unfold mbind, XM_bind; by rewrite (setXattrLocked_refused in_ kvs bs _ _ _ e (sd_load _ _ _ _ _ Hst) Ee)|by apply edit_entries_no_panic in Ee].
  assert (Hv' : forall v, value = Some v -> bytes v /\ xlen v < 65536) by (intros v ->; destruct (Hv v eq_refl); cbn in Hvl; split; [done|lia]).
  pose proof (setXattrLocked_spec ino kvs bs in_ in_ name value flags kvs' HA Hst (conj (sd_wf _ _ _ _ _ Hst) (conj (sd_ino _ _ _ _ _ Hst) eq_refl)) Hn Hnl Hv' Ee) as Hc. unfold xwp in Hc. revert Hc. unfold mbind, XM_bind.
  destruct (setXattrLocked sec nsec (S (S fuel)) in_ name value flags w) as [w' [in'|e|]]; [|done|done]. intros Hd. exists in_, in', kvs'. split; [apply Hst|]. by split.
Qed.

(** C5 Setting or removing an attribute of an inode: a call that is refused, for
    its name, its value, its flags or a read-only volume, changes nothing; one
    that succeeds replaces the entries of that inode by the edited ones, changes
    nothing of the inode but where its attributes are and its change time, and
    leaves all other inodes, their attributes and the content of all other blocks
    in use as they were; one that fails on the way leaves everything as it was,
    with the blocks it had taken returned, or the volume read-only.  Values of
    exactly 65536 bytes are excluded. *)
Theorem setXattr_correct ino kvs bs name value flags : A !! ino = Some (kvs, bs) -> bytes name ->
  (forall v, value = Some v -> bytes v /\ xlen v <> 65536) ->
  let '(w', x) := setXattr sec nsec (S (S fuel)) ino name value flags w in
  match refused kvs name value flags with
  | Some e => w' = w /\ x = Err e
  | None => match x with
            | Ret _ => exists in_ in' kvs', xw_inode w ino = Some in_ /\ edit_entries kvs name value flags = Ret kvs' /\ set_done ino bs kvs' in_ in' w'
            | Err _ => set_failed w'
            | Panic => False
            end
  end.
Proof using HL Hw Hsec Hnsec. apply setXattr_spec. Qed.

Lemma getXattr_spec ino kvs bs n : A !! ino = Some (kvs, bs) -> xlen n <= 255 ->
  getXattr ino n w = (w, match getXattrFromKvs kvs n with Some v => Ret v | None => Err (XErrno ENODATA) end).
Proof using Hw.
  intros HA Hn. destruct (aw_stored _ _ _ Hw ino _ HA) as [in_ [S1 _ _ _ S4 _ _]]. unfold getXattr, xattrMaxNameLen. rewrite (proj2 (Z.ltb_ge _ _)) by lia.
  unfold mbind, XM_bind at 1, read_inode. rewrite S1. unfold XM_bind, loadM. rewrite S4. by destruct (getXattrFromKvs kvs n).
Qed.

End set.

(** C19 After an attribute has been set or removed without an error, getting it
    returns the new value, or ENODATA when it was removed, and getting any other
    attribute of any inode returns what it returned before, for names of at most
    255 bytes.  A value of exactly 65536 bytes is excluded: the code accepts it, but
    its length does not fit the entry and it reads back as empty. *)
Theorem getXattr_after_set sec nsec fuel w X A ino kvs bs name value flags w' ino' kvs2 bs2 n :
  is_u64 sec -> is_u64 nsec -> attr_world w X A -> A !! ino = Some (kvs, bs) -> bytes name -> (forall v, value = Some v -> bytes v /\ xlen v <> 65536) ->
  setXattr sec nsec (S (S fuel)) ino name value flags w = (w', Ret tt) -> A !! ino' = Some (kvs2, bs2) -> xlen n <= 255 ->
  snd (getXattr ino' n w') =
    if decide (ino' = ino /\ n = name) then match value with Some v => Ret v | None => Err (XErrno ENODATA) end else snd (getXattr ino' n w).
Proof using HL.
  intros Hsec Hnsec Hw HA Hn Hv Hset HA' Hnl. pose proof (setXattr_spec sec nsec Hsec Hnsec fuel w X A Hw ino kvs bs name value flags HA Hn Hv) as H.
  rewrite Hset in H. destruct (refused w kvs name value flags); [by destruct H|]. destruct H as (in0 & in' & kvs' & _ & Ee & _ & bs' & X' & Hw' & _).
  rewrite (getXattr_spec w X A Hw ino' kvs2 bs2 n HA' Hnl). destruct (aw_stored _ _ _ Hw ino _ HA) as [in_ [_ _ _ _ _ _ (_ & Hnd & _)]]. cbn [fst snd] in *.
  destruct (decide (ino' = ino)) as [->|Hne].
  - assert ((kvs2, bs2) = (kvs, bs)) as [= -> ->] by congruence.
    rewrite (getXattr_spec w' X' _ Hw' ino kvs' bs' n) by (done || by rewrite lookup_insert_eq). rewrite (edit_entries_get _ _ _ _ _ n Hnd Ee). cbn [snd].
    destruct (decide (n = name)); [by rewrite decide_True|by rewrite decide_False by (by intros [])].
  - rewrite (getXattr_spec w' X' _ Hw' ino' kvs2 bs2 n) by (done || by rewrite lookup_insert_ne). by rewrite decide_False by (by intros []).
Qed.

End volume.
