(* ===== verification/XattrBridge.v ===== *)
(** * Attributes over the real allocator, inode table and deferred metadata

    The instance of the interface [XattrWorld] by the data allocator, the inode
    table and the deferred metadata of the bridge, whose own theorems discharge
    [XattrLaws].  The journal is a parameter: all that is needed of it is that
    writing a record and syncing only commit. *)

From stdpp Require Import base numbers list option gmap.
From Stdlib Require Import ZArith Lia.
From S2P Require Import Prelude Bits AllocCore Allocator Extents Device AllocRuntime AllocRuns Codec Superblock Inode Trie TrieStore MetaCache InodeTable TrieBridge.
From S2P Require Import XattrDisk Xattr XattrChain XattrRead XattrOps XattrMap.

Local Open Scope Z_scope.

Section bridge.
Context {J : Type} (sb : SuperblockLayout) (last start : Z).

Record xattr_world := mkXattrWorld { xb_t : trie_world J; xb_readOnly : bool; xb_shutdown : bool }.

Definition set_t (t : trie_world J) (w : xattr_world) : xattr_world := mkXattrWorld t (xb_readOnly w) (xb_shutdown w).
Definition set_deferred (d : deferred) (w : xattr_world) : xattr_world := set_t (set_d d (xb_t w)) w.
Definition xb_d (w : xattr_world) : deferred := tb_d (xb_t w).

(** The device, the journal ([Sync(false)] and [WriteRecord] with the record's
    type) and the outcome of a writeback. *)
Context (os : Z -> option (list Z)) (sync : trie_world J -> trie_world J * bool)
  (record : Z -> list Z -> trie_world J -> trie_world J * bool) (flush : trie_world J -> bool).

#[local] Instance real_xattr : XattrWorld xattr_world := {|
  xw_read w := readBlock (xb_d w);
  xw_inode w ino := match ReadInode sb (readBlock (xb_d w)) ino with Ret i => Some i | _ => None end;
  xw_frozen w := xb_readOnly w || xb_shutdown w;
  xw_alloc w := let '(t, rel) := AllocBlock sync (xb_t w) in (set_t t w, rel);
  xw_free_run first n w := match FreeRun (d_alloc (xb_d w)) first n with Ret a => set_deferred (set_alloc a (xb_d w)) w | _ => w end;
  xw_write b buf w := let '(disk, e) := WriteBlock os (d_disk (xb_d w)) b buf in (set_deferred (set_disk disk (xb_d w)) w, bool_decide (is_Some e));
  xw_record ty rec w := let '(t, failed) := record ty rec (xb_t w) in (set_t t w, failed);
  xw_sync w := let '(t, failed) := sync (xb_t w) in (set_t t w, failed);
  xw_free_now b w := match freeBlockNow start b (xb_d w) with Ret d => set_deferred d w | _ => w end;
  xw_flush w := (w, flush (xb_t w));
  xw_write_inode in_ w := let '(d, x) := writeInodeDirect sb os in_ (xb_d w) in (set_deferred d w, match x with Ret _ => false | _ => true end);
  xw_fail w := mkXattrWorld (xb_t w) true (xb_shutdown w);
  xw_start := start;
  xw_table := in_table sb last;
|}.

(** The blocks a commit leaves alone: the data region and the inode table. *)
Definition kept (b : Z) : Prop := start < b \/ (exists i, in_table sb last i /\ iblk sb i = b).

(** No free block has a deferred content. *)
Definition clean (d : deferred) : Prop := forall b, is_Some (d_dirty d !! b) -> b - start ∉ free_set (a_pyr (d_alloc d)).

Definition commits_clean (d d' : deferred) : Prop :=
  commits start kept d d' /\ (clean d -> clean d') /\ forall b, d_dirty d !! b = None -> d_dirty d' !! b = None.

(** What the attributes rely on of the journal. *)
Record journal_keeps : Prop := {
  jk_sync w : good start (tb_d w) -> commits_clean (tb_d w) (tb_d (fst (sync w)));
  jk_record ty rec w : good start (tb_d w) -> commits_clean (tb_d w) (tb_d (fst (record ty rec w)));
}.

(** [X] is in use, none of it is deferred, and the inode table can be read. *)
Record ready (w : xattr_world) (X : gset Z) : Prop := {
  rd_use : in_use start (xb_t w) X;
  rd_clean : clean (xb_d w);
  rd_data b : b ∈ X -> start < b /\ d_dirty (xb_d w) !! b = None;
  rd_table : table_ok sb last (readBlock (xb_d w));
}.

Context (Hg : geometry sb last) (Hlast : last <= start + 1) (Hstart : 0 <= start) (HJ : journal_keeps).

Lemma table_below i : in_table sb last i -> iblk sb i <= start.
Proof using Hlast. intros Hi. pose proof (iblk_range _ _ _ Hi). lia. Qed.

Lemma ready_data w X b : ready w X -> b ∈ X -> start < b < 2 ^ 58.
Proof using.
  intros [[Hgd HX] _ HD _] Hb. destruct (HD b Hb) as [? _], (HX b Hb) as [? _]. pose proof (go_end _ _ Hgd). lia.
Qed.

(** A step that leaves the contents alone. *)
Lemma same_reads X w w' : (forall b, b ∈ X \/ kept b -> readBlock (xb_d w') b = readBlock (xb_d w) b) -> same X w w'.
Proof using Hg.
  intros H. split; [intros b Hb; apply H; by left|]. intros ino Hi. cbn. by rewrite (ReadInode_same sb last Hg (readBlock (xb_d w)) (readBlock (xb_d w')) ino Hi) by (apply H; right; right; by exists ino).
Qed.

Lemma table_reads w w' : (forall b, kept b -> readBlock (xb_d w') b = readBlock (xb_d w) b) -> table_ok sb last (readBlock (xb_d w)) -> table_ok sb last (readBlock (xb_d w')).
Proof using. intros H Ht i Hi. rewrite H by (right; by exists i). by apply Ht. Qed.

Lemma commit_ready w w' X : ready w X -> commits_clean (xb_d w) (xb_d w') -> ready w' X /\ same X w w'.
Proof using Hg.
  intros Hr (Hc & Hcl & Hno). pose proof Hr as [H1 H2 H3 H4]. split; [split|].
  - by eapply commits_in_use.
  - by apply Hcl.
  - intros b Hb. destruct (H3 b Hb). split; [done|by apply Hno].
  - eapply table_reads; [|exact H4]. apply Hc.
  - apply same_reads. intros b [Hb|Hb]; apply Hc; [left; by apply H3|done].
Qed.

(** ** Allocation *)
Lemma tryAlloc_clean (t t' : trie_world J) rel : good start (tb_d t) -> clean (tb_d t) -> tryAlloc t = (t', rel) ->
  clean (tb_d t') /\ d_dirty (tb_d t') = d_dirty (tb_d t) /\ (rel <> 0 -> d_dirty (tb_d t') !! (start + rel) = None).
Proof using.
  clear Hg Hlast Hstart HJ. intros Hgd Hc E. unfold tryAlloc in E. destruct (tryAllocBlock_spec (d_alloc (tb_d t)) false (go_rt _ _ Hgd)) as [[_ E']|(_ & a' & b & E' & [Hl _] & Hb & (_ & _ & Hf & _) & _)];
    rewrite E' in E; injection E as <- <-; [done|]. split_and!.
  - intros b' Hb'. cbn. rewrite Hf. pose proof (Hc b' Hb'). set_solver.
  - done.
  - intros _. cbn. apply eq_None_not_Some. intros Hd. apply (Hc _ Hd). by replace (start + b - start) with b by lia.
Qed.

Lemma AllocBlock_clean (t t' : trie_world J) X rel : in_use start t X -> clean (tb_d t) -> AllocBlock sync t = (t', rel) ->
  clean (tb_d t') /\ (forall b, d_dirty (tb_d t) !! b = None -> d_dirty (tb_d t') !! b = None) /\ (rel <> 0 -> d_dirty (tb_d t') !! (start + rel) = None).
Proof using HJ.
  intros HX Hc. unfold AllocBlock. destruct (tryAlloc t) as [t1 r1] eqn:E1. destruct (tryAlloc_clean t t1 r1 (proj1 HX) Hc E1) as (C1 & D1 & N1).
  destruct (tryAlloc_spec start t X t1 r1 HX E1) as (_ & _ & S1). destruct (Z.eqb_spec r1 0) as [Hr|Hr]; [|intros [= <- <-]; rewrite D1 in *; by split_and!].
  destruct S1 as [[_ HX1]|?]; [|lia]. unfold reclaimPendingFrees. destruct (pendingFreeCount (tb_d t1) =? 0); [intros [= <- <-]; rewrite D1 in *; by split_and!|].
  destruct (jk_sync HJ t1 (proj1 HX1)) as (K1 & K2 & K3). destruct (sync t1) as [t2 failed]. cbn [fst] in *. rewrite D1 in K3.
  destruct failed; cbn [negb]; [intros [= <- <-]; split_and!; [by apply K2|done|done]|]. intros E2.
  destruct (tryAlloc_clean t2 t' rel (cm_good _ _ _ _ K1) (K2 C1) E2) as (C2 & D2 & N2). rewrite D2 in *. by split_and!.
Qed.

Lemma alloc_ready w X w' rel : ready w X -> xw_alloc w = (w', rel) -> same X w w' /\
  (rel = 0 /\ ready w' X \/ 0 < rel /\ (start + rel ∉ X) /\ ready w' ({[start + rel]} ∪ X)).
Proof using Hg HJ.
  intros [H1 H2 H3 H4]. cbn. destruct (AllocBlock sync (xb_t w)) as [t r] eqn:E. intros [= <- <-].
  destruct (AllocBlock_any start sync (record 0) kept (xb_t w) X t r (fun t Hgd => proj1 (jk_sync HJ t Hgd)) H1 E) as [Hs Hc].
  destruct (AllocBlock_clean _ _ _ _ H1 H2 E) as (C1 & C2 & C3).
  assert (Hsame : forall b, kept b -> readBlock (tb_d t) b = readBlock (xb_d w) b) by (intros b Hb; by apply Hs).
  split; [apply same_reads; intros b [Hb|Hb]; apply Hsame; [left; by apply H3|done]|].
  assert (Hrd : forall Y, in_use start t Y -> (forall b, b ∈ Y -> start < b /\ d_dirty (tb_d t) !! b = None) -> ready (set_t t w) Y).
  { intros Y HY HD. split; [exact HY|exact C1|exact HD|]. exact (table_reads w (set_t t w) Hsame H4). }
  assert (HD : forall b, b ∈ X -> start < b /\ d_dirty (tb_d t) !! b = None) by (intros b Hb; destruct (H3 b Hb); split; [done|by apply C2]).
  destruct Hc as [[-> HX]|(P1 & P2 & P3 & P4 & HX)]; [left; split; [done|by apply Hrd]|right]. split; [done|]. split; [done|]. apply Hrd; [exact HX|].
  intros b [->%elem_of_singleton|Hb]%elem_of_union; [|by apply HD]. split; [lia|]. apply C3. lia.
Qed.

(** ** Freeing *)
Lemma free_ready w X a' Y (d' := set_alloc a' (xb_d w)) : ready w X -> rt_ok a' -> BlockCount (a_pyr a') = BlockCount (a_pyr (d_alloc (xb_d w))) ->
  free_set (a_pyr a') = free_set (a_pyr (d_alloc (xb_d w))) ∪ Y -> (forall r, r ∈ Y -> start + r ∈ X) ->
  forall X', X' ⊆ X -> (forall b, b ∈ X' -> b - start ∉ Y) -> ready (set_deferred d' w) X' /\ same X' w (set_deferred d' w).
Proof using Hg.
  intros [[Hgd HX] H2 H3 H4] Ha Hb Hf HY X' HX' Hn. pose proof Hgd as [A B C D I K].
  assert (HYp : forall r, r ∈ Y -> (r ∉ pend (xb_d w)) /\ d_dirty (xb_d w) !! (start + r) = None).
  { intros r Hr. destruct (HX _ (HY r Hr)) as (_ & _ & Hp). replace (start + r - start) with r in Hp by lia. split; [exact Hp|]. apply H3. by apply HY. }
  split; [split|apply same_reads; done].
  - split; [split; cbn; rewrite ?Hf, ?Hb; try done; change (pend (set_alloc a' (xb_d w))) with (pend (xb_d w))|].
    + apply disjoint_union_r. split; [exact I|]. intros r Hr1 Hr2. by apply (HYp r Hr2).
    + intros x Hx. destruct (HX x (HX' x Hx)) as (P1 & P2 & P3). cbn. rewrite Hf, Hb. split; [exact P1|]. split; [|exact P3]. pose proof (Hn x Hx). clear - P2 H. set_solver.
  - intros b Hd. cbn in *. rewrite Hf. apply not_elem_of_union. split; [by apply H2|]. intros Hr. destruct (HYp _ Hr) as [_ E]. replace (start + (b - start)) with b in E by lia.
    rewrite E in Hd. by destruct Hd.
  - intros b Hb'. apply H3. by apply HX'.
  - exact H4.
Qed.

Lemma free_run_ready w X first n : ready w X -> 0 < first -> 0 < n -> (forall r, first <= r < first + n -> start + r ∈ X) ->
  let X' := X ∖ list_to_set ((fun r => start + r) <$> seqZ first n) in ready (xw_free_run first n w) X' /\ same X' w (xw_free_run first n w).
Proof using Hg.
  intros Hr Hf Hn Hin X'. pose proof (rd_use _ _ Hr) as [Hgd _]. assert (Hbound : first + n <= 2 ^ 58).
  { pose proof (ready_data w X (start + (first + n - 1)) Hr ltac:(apply Hin; lia)). pose proof (go_start _ _ Hgd). lia. }
  cbn [xw_free_run real_xattr]. destruct (FreeRun_spec (d_alloc (xb_d w)) first n (go_rt _ _ Hgd)) as (a' & -> & Ha & Hb & _ & Hfs); [lia|unfold is_u64; lia..|].
  apply (free_ready w X a' _ Hr Ha Hb Hfs).
  - intros r [? _]%elem_of_run_set. by apply Hin.
  - unfold X'. clear. set_solver.
  - intros b [_ Hb']%elem_of_difference [Hr' _]%elem_of_run_set. apply Hb', elem_of_list_to_set, list_elem_of_fmap. exists (b - start). split; [lia|]. by apply elem_of_seqZ.
Qed.

Lemma free_now_ready w X b : ready w X -> b ∈ X -> ready (xw_free_now b w) (X ∖ {[b]}) /\ same (X ∖ {[b]}) w (xw_free_now b w).
Proof using Hg.
  intros Hr Hb. pose proof (rd_use _ _ Hr) as [Hgd HX]. pose proof (ready_data w X b Hr Hb). destruct (HX b Hb) as (B1 & _).
  pose proof (go_start _ _ Hgd). cbn [xw_free_now real_xattr]. unfold freeBlockNow. rewrite u64_small by (unfold is_u64; lia).
  destruct (FreeBlock_spec (d_alloc (xb_d w)) (b - start) (go_rt _ _ Hgd)) as (a' & -> & Ha & Hbc & Hf); [lia|]. cbn [mbind res_bind].
  rewrite decide_True in Hf by (unfold xb_d; lia). rewrite delete_id by apply (rd_data _ _ Hr b Hb).
  replace (set_alloc a' (set_dirty (d_dirty (xb_d w)) (xb_d w))) with (set_alloc a' (xb_d w)) by done.
  apply (free_ready w X a' _ Hr Ha Hbc Hf).
  - intros r ->%elem_of_singleton. by replace (start + (b - start)) with b by lia.
  - clear. set_solver.
  - intros b' [_ Hne]%elem_of_difference Heq%elem_of_singleton. apply Hne, elem_of_singleton. lia.
Qed.

(** ** Writing *)
Lemma write_ready w X b buf w' failed : ready w X -> b ∈ X -> xlen buf = 4096 -> xw_write b buf w = (w', failed) ->
  ready w' X /\ same (X ∖ {[b]}) w w' /\ (failed = false -> readBlock (xb_d w') b = Some buf).
Proof using Hg Hlast.
  intros [[Hgd HX] H2 H3 H4] Hb Hl. destruct (H3 b Hb) as [Hb1 Hb2]. cbn. pose proof (WriteBlock_other os (d_disk (xb_d w)) b buf) as Ho.
  destruct (WriteBlock os (d_disk (xb_d w)) b buf) as [disk e] eqn:Ew. intros [= <- <-]. cbn [fst] in Ho.
  assert (Hother : forall b', b' <> b -> readBlock (set_disk disk (xb_d w)) b' = readBlock (xb_d w) b').
  { intros b' Hne. rewrite !readBlock_view. cbn. destruct (d_dirty (xb_d w) !! b'); [done|by apply Ho]. }
  assert (Hkept : forall i, in_table sb last i -> iblk sb i <> b) by (intros i Hi; pose proof (table_below i Hi); lia).
  split_and!.
  - split; [split; [|done]|done|done|].
    + destruct Hgd as [A B C D I K]. by split.
    + intros i Hi. cbn. rewrite Hother by (by apply Hkept). by apply H4.
  - split; [intros b' [_ Hne]%elem_of_difference; apply Hother; by rewrite elem_of_singleton in Hne|].
    intros ino Hi. cbn. by rewrite (ReadInode_same sb last Hg (readBlock (xb_d w)) _ ino Hi) by (apply Hother, Hkept, Hi).
  - intros Hf. apply bool_decide_eq_false, eq_None_not_Some in Hf as ->. cbn. rewrite readBlock_view. cbn. rewrite Hb2. unfold WriteBlock in Ew. revert Ew.
    unfold xlen in Hl. rewrite Hl. change (negb (4096 =? BlockSize)) with false. cbv iota. destruct (os b); [done|]. intros [= <-]. by rewrite lookup_insert_eq.
Qed.

Lemma write_inode_ready w X in_ w' : ready w X -> codec_wf in_ -> in_table sb last (ino_InodeNumber in_) -> xw_write_inode in_ w = (w', false) ->
  ready w' X /\ (forall b, b ∈ X -> readBlock (xb_d w') b = readBlock (xb_d w) b) /\
  forall ino, in_table sb last ino -> xw_inode w' ino = if decide (ino = ino_InodeNumber in_) then Some in_ else xw_inode w ino.
Proof using Hg Hlast.
  intros [[Hgd HX] H2 H3 H4] Hw Hi. pose proof (writeInodeDirect_spec sb last Hg os in_ (xb_d w) H4 Hi Hw) as Hsp. cbn.
  destruct (writeInodeDirect sb os in_ (xb_d w)) as [d' [[]|e|]]; [|done..]. intros [= <-]. destruct Hsp as ((Hx & _) & Ea & Ef & Ho). set (blk := iblk sb (ino_InodeNumber in_)) in *.
  pose proof (table_below _ Hi) as Hblk. fold blk in Hblk.
  assert (Hread : forall b, b <> blk -> readBlock d' b = readBlock (xb_d w) b) by (intros b Hb; rewrite !readBlock_view; by destruct (Ho b Hb) as [-> ->]).
  split_and!.
  - split.
    + destruct Hgd as [A B C D I K]. unfold in_use. cbn [tb_d set_deferred set_t set_d xb_t]. split; [split; unfold pend; rewrite ?Ea, ?Ef; done|]. unfold pend. rewrite Ea, Ef. exact HX.
    + intros b Hb. cbn. rewrite Ea. destruct (decide (b = blk)) as [->|Hne]; [|apply H2; by rewrite <- (proj1 (Ho b Hne))].
      intros Hin. pose proof (free_set_range _ _ Hin). assert (blk - start = 0) as E0 by lia. rewrite E0 in Hin. by apply (proj1 (proj2 (go_rt _ _ Hgd))).
    + intros b Hb. destruct (H3 b Hb) as [P1 P2]. split; [done|]. cbn. by rewrite (proj1 (Ho b ltac:(lia))).
    + apply Hx.
  - intros b Hb. apply Hread. pose proof (H3 b Hb). lia.
  - intros ino Hino. cbn. rewrite (proj2 (proj2 Hx) ino Hino). by case_decide.
Qed.

Lemma real_xattr_laws : XattrLaws ready.
Proof using Hg Hlast Hstart HJ.
  split; [exact Hstart|exact ready_data|exact alloc_ready|exact free_run_ready|exact write_ready| | |exact free_now_ready| | |done].
  - intros w X ty rec w' failed Hr. cbn. pose proof (jk_record HJ ty rec (xb_t w) (proj1 (rd_use _ _ Hr))) as Hc. destruct (record ty rec (xb_t w)) as [t f]. intros [= <- <-]. by apply commit_ready.
  - intros w X w' failed Hr. cbn. pose proof (jk_sync HJ (xb_t w) (proj1 (rd_use _ _ Hr))) as Hc. destruct (sync (xb_t w)) as [t f]. intros [= <- <-]. by apply commit_ready.
  - intros w X w' failed Hr. cbn. intros [= <- _]. by split.
  - intros w X in_ w' Hr Hw Ht _ E. by apply (write_inode_ready w X in_ w').
Qed.

End bridge.

Arguments xattr_world : clear implicits.

(** The drain leaves no free block deferred. *)
Lemma SyncMeta_clean start os d d' e : good start d -> SyncMeta os d = Ret (d', e) ->
  (clean start d -> clean start d') /\ forall b, d_dirty d !! b = None -> d_dirty d' !! b = None.
Proof.
  intros Hg E. unfold SyncMeta in E. destruct (free_runs (d_alloc d) (d_frees d)) as [a| |] eqn:Ef.
  2,3: destruct (free_runs_spec (d_frees d) (d_alloc d) (go_rt _ _ Hg) (go_runs _ _ Hg)) as (? & ? & _);
    [pose proof (go_end _ _ Hg); pose proof (go_start _ _ Hg); lia|intros i Hi; apply (go_range _ _ Hg); by apply elem_of_list_to_set|congruence].
  rewrite bind_ret in E. case_bool_decide as Ed.
  - injection E as <- <-. unfold clean. cbn. rewrite Ed. split; [by intros _ b []|done].
  - destruct (write_blocks os (d_disk d) (map_to_list (d_dirty d))) as [disk [e'|]]; injection E as <- <-; [done|]. cbn. rewrite undrained_all.
    split; [unfold clean; cbn; by intros _ b []|done].
Qed.

(** ** A small volume

    The 200 data blocks from block 1000 on, with the table of eight inodes at
    block 40. *)
Definition sample_records (ty : Z) (rec : list Z) (t : trie_world (list (list Z))) : trie_world (list (list Z)) * bool := sample_record rec t.

#[local] Instance sample_xattr : XattrWorld (xattr_world (list (list Z))) :=
  real_xattr small_sb 41 1000 (fun _ => None) sample_sync sample_records (fun _ => false).

Lemma sample_keeps : journal_keeps small_sb 41 1000 sample_sync sample_records.
Proof.
  split.
  - intros w Hg. destruct (SyncMeta_commits 1000 (fun _ => None) (tb_d w) Hg) as (d' & e & E & Hc & _). unfold sample_sync. rewrite E. cbn [fst].
    split; [destruct Hc as [A B C D I]; split; [exact A|exact B|exact C|exact D|]; intros b _; by apply I|]. split.
    + intros Hcl. by apply (SyncMeta_clean 1000 _ _ _ _ Hg E).
    + by apply (SyncMeta_clean 1000 _ _ _ _ Hg E).
  - intros ty rec w Hg. split; [by apply commits_refl|done].
Qed.

Abbreviation sample_ready := (ready small_sb 41 1000 (J := list (list Z))).

#[local] Instance sample_xattr_laws : XattrLaws sample_ready.
Proof. apply real_xattr_laws; [exact small_geometry|lia|lia|exact sample_keeps]. Qed.

Definition sample_volume : xattr_world (list (list Z)) :=
  mkXattrWorld (mkTrieWorld (mkDeferred ∅ [] {[40 := blit 2048 (encode (small_file 5)) (zeros 4096)]} sample_alloc) []) false false.

Lemma sample_volume_ready : sample_ready sample_volume ∅.
Proof.
  split; [split; [|intros x Hx; destruct (not_elem_of_empty x Hx)]|intros b [buf Hb]; change (d_dirty (xb_d sample_volume)) with (∅ : gmap Z (list Z)) in Hb; rewrite lookup_empty in Hb; discriminate Hb|intros x Hx; destruct (not_elem_of_empty x Hx)|].
  - apply fresh_good; [exact sample_alloc_ok|lia|vm_compute; reflexivity].
  - intros i Hi. rewrite (small_iblk i Hi). eexists. split; [vm_compute; reflexivity|reflexivity].
Qed.

(** Inode 5 has no attributes. *)
Lemma sample_attrs : attr_world sample_ready sample_volume ∅ {[5 := ([], [])]}.
Proof.
  split; [exact sample_volume_ready| |].
  - intros ino x [<- <-]%lookup_singleton_Some. exists (small_file 5).
    split; [vm_compute; reflexivity|apply small_in; lia|apply small_file_wf; unfold is_u64; lia|done|by apply load_none|set_solver|].
    split; [constructor|]. split; [constructor|cbn; lia].
  - intros ino ino' x x' [<- _]%lookup_singleton_Some [<- _]%lookup_singleton_Some. done.
Qed.

Definition attr_name : list Z := [117; 115; 101; 114; 46; 97].
Definition sample_set := setXattr 7 0 2 5 attr_name (Some [120; 121]) 0 sample_volume.

Lemma sample_set_done : snd sample_set = Ret tt.
Proof. vm_compute. reflexivity. Qed.

Lemma setXattr_correct_witness : snd sample_set = Ret tt /\ exists in',
  set_done sample_ready 7 0 sample_volume ∅ {[5 := ([], [])]} 5 [] [mkKV attr_name [120; 121]] (small_file 5) in' (fst sample_set).
Proof.
  split; [exact sample_set_done|].
  pose proof (setXattr_correct sample_ready 7 0 ltac:(unfold is_u64; lia) ltac:(unfold is_u64; lia) 0 sample_volume ∅ _ sample_attrs 5 [] [] attr_name (Some [120; 121]) 0
    eq_refl (bytesb_bytes attr_name eq_refl) ltac:(intros v [= <-]; split; [by apply bytesb_bytes|done])) as H.
  change (setXattr 7 0 2 5 attr_name (Some [120; 121]) 0 sample_volume) with sample_set in H. pose proof sample_set_done as E. destruct sample_set as [w' x]. cbn [fst snd] in *. subst x.
  change (refused sample_volume [] attr_name (Some [120; 121]) 0) with (@None xattr_error) in H. destruct H as (in_ & in' & kvs' & Ei & [= <-] & Hd).
  assert (Ei' : xw_inode sample_volume 5 = Some (small_file 5)) by (vm_compute; reflexivity). rewrite Ei' in Ei. injection Ei as <-. exists in'. exact Hd.
Defined.

Lemma getXattr_after_set_witness : snd (getXattr 5 attr_name (fst sample_set)) = Ret [120; 121].
Proof.
  assert (E : sample_set = (fst sample_set, Ret tt)) by (rewrite <- sample_set_done; apply surjective_pairing).
  rewrite (getXattr_after_set sample_ready 7 0 0 sample_volume ∅ _ 5 [] [] attr_name (Some [120; 121]) 0 (fst sample_set) 5 [] [] attr_name
    ltac:(unfold is_u64; lia) ltac:(unfold is_u64; lia) sample_attrs eq_refl (bytesb_bytes attr_name eq_refl)
    ltac:(intros v [= <-]; split; [by apply bytesb_bytes|done]) E eq_refl ltac:(vm_compute; discriminate)).
  clear E. rewrite decide_True; [reflexivity|split; reflexivity].
Defined.
