(* ===== verification/PosixAcl.v ===== *)
(** * POSIX ACLs (fuse/posix_acl.go, fuse/xattr.go, fuse/extent_ops.go, fuse/caller_status.go)

    The access and default ACLs of an inode are attributes in the kernel's wire
    format.  Storing an access ACL sets the permission bits of the mode, a chmod
    rewrites the stored ACL, a default ACL restricts the mode of a new file, and
    an unprivileged write drops the setid bits and the file capabilities. *)

From Stdlib Require Import ZArith Lia Btauto String Ascii.
From stdpp Require Import base numbers list option gmap.
From S2P Require Import Prelude Bits Codec Crc32c Extents Inode InodeTable XattrDisk Xattr XattrChain XattrRead XattrOps XattrMap XattrBridge.

Local Open Scope Z_scope.

(** ** Constants *)
Definition posixAclVersion : Z := 2.
Definition posixAclEntrySz : Z := 8.
Definition aclTagUserObj : Z := 0x01.
Definition aclTagUser : Z := 0x02.
Definition aclTagGroupObj : Z := 0x04.
Definition aclTagGroup : Z := 0x08.
Definition aclTagMask : Z := 0x10.
Definition aclTagOther : Z := 0x20.

(** The octal constants 0o700, 0o070, 0o007 and 0o777. *)
Definition sIRWXU : Z := 448.
Definition sIRWXG : Z := 56.
Definition sIRWXO : Z := 7.
Definition sIRWXUGO : Z := 511.
Definition s_ISUID : Z := 2048.
Definition s_ISGID : Z := 1024.
Definition s_IXGRP : Z := 8.

(** [^x] of a uint32. *)
Definition not32 (x : Z) : Z := Z.lxor x (2 ^ 32 - 1).

Definition str (s : string) : list Z := (fun c => Z.of_nat (nat_of_ascii c)) <$> list_ascii_of_string s.
Definition aclDefaultName : list Z := str "system.posix_acl_default".
Definition aclAccessName : list Z := str "system.posix_acl_access".

Record posixAclEntry := mkAcl { ae_tag : Z; ae_perm : Z; ae_id : Z }.

Definition set_perm (e : posixAclEntry) (perm : Z) : posixAclEntry := mkAcl (ae_tag e) perm (ae_id e).

(** ** The wire format *)
Definition known_tag (tag : Z) : bool :=
  (tag =? aclTagUserObj) || (tag =? aclTagUser) || (tag =? aclTagGroupObj) || (tag =? aclTagGroup) || (tag =? aclTagMask) || (tag =? aclTagOther).

(** The loop takes eight bytes a round; the length is a multiple of eight. *)
Fixpoint decode_entries (n : nat) (rest : list Z) : option (list posixAclEntry) :=
  match n with
  | O => Some []
  | S n =>
      let tag := le_get (slice 0 2 rest) in
      if negb (known_tag tag) then None else
      entries ← decode_entries n (drop 8 rest);
      Some (mkAcl tag (le_get (slice 2 4 rest)) (le_get (slice 4 8 rest)) :: entries)
  end.

Definition decodePosixAcl (blob : list Z) : option (list posixAclEntry) :=
  if (xlen blob <? 4) || negb (le_get (take 4 blob) =? posixAclVersion) then None else
  let rest := drop 4 blob in
  if negb (xlen rest mod posixAclEntrySz =? 0) then None else
  entries ← decode_entries (Z.to_nat (xlen rest / posixAclEntrySz)) rest;
  if bool_decide (entries = []) then None else Some entries.

Definition encode_entry (e : posixAclEntry) : list Z := le_put 2 (ae_tag e) ++ le_put 2 (ae_perm e) ++ le_put 4 (ae_id e).
Definition encodePosixAcl (entries : list posixAclEntry) : list Z := le_put 4 posixAclVersion ++ concat (encode_entry <$> entries).

(** ** Modes *)

(** The loop of [createModeFromACL]: the mode so far and the indices of the last
    GROUP_OBJ and MASK entries. *)
Fixpoint create_loop (mode : Z) (i : nat) (entries : list posixAclEntry) (m : Z) (groupIdx maskIdx : option nat)
    : option (list posixAclEntry * Z * option nat * option nat) :=
  match entries with
  | [] => Some ([], m, groupIdx, maskIdx)
  | e :: entries =>
      let next e m groupIdx maskIdx :=
        '(entries, m, g, k) ← create_loop mode (S i) entries m groupIdx maskIdx; Some (e :: entries, m, g, k) in
      if ae_tag e =? aclTagUserObj then
        let e := set_perm e (Z.land (ae_perm e) (u16 (Z.lor (Z.shiftr mode 6) (not32 sIRWXO)))) in
        next e (Z.land m (Z.lor (u32 (Z.shiftl (ae_perm e) 6)) (not32 sIRWXU))) groupIdx maskIdx
      else if (ae_tag e =? aclTagUser) || (ae_tag e =? aclTagGroup) then next e m groupIdx maskIdx
      else if ae_tag e =? aclTagGroupObj then next e m (Some i) maskIdx
      else if ae_tag e =? aclTagOther then
        let e := set_perm e (Z.land (ae_perm e) (u16 (Z.lor mode (not32 sIRWXO)))) in
        next e (Z.land m (Z.lor (ae_perm e) (not32 sIRWXO))) groupIdx maskIdx
      else if ae_tag e =? aclTagMask then next e m groupIdx (Some i)
      else None
  end.

(** The entry of the group class: the MASK when there is one. *)
Definition group_class (groupIdx maskIdx : option nat) : option nat :=
  match maskIdx with Some i => Some i | None => groupIdx end.

Definition createModeFromACL (entries : list posixAclEntry) (mode : Z) : option Z :=
  '(entries, m, groupIdx, maskIdx) ← create_loop mode 0 entries mode None None;
  gi ← group_class groupIdx maskIdx;
  e ← entries !! gi;
  let perm := Z.land (ae_perm e) (u16 (Z.lor (Z.shiftr m 3) (not32 sIRWXO))) in
  let m := Z.land m (Z.lor (u32 (Z.shiftl perm 3)) (not32 sIRWXG)) in
  Some (Z.lor (Z.ldiff mode sIRWXUGO) m).

Definition access_bits (mode : Z) (e : posixAclEntry) : Z :=
  let perm := Z.land (ae_perm e) 7 in
  if ae_tag e =? aclTagUserObj then Z.lor mode (Z.shiftl perm 6)
  else if ae_tag e =? aclTagGroupObj then Z.lor mode (Z.shiftl perm 3)
  else if ae_tag e =? aclTagOther then Z.lor mode perm
  else if ae_tag e =? aclTagMask then Z.lor (Z.ldiff mode sIRWXG) (Z.shiftl perm 3)
  else mode.
Definition accessAclMode (entries : list posixAclEntry) : Z := foldl access_bits 0 entries.

Fixpoint chmod_loop (mode : Z) (i : nat) (entries : list posixAclEntry) (groupIdx maskIdx : option nat)
    : list posixAclEntry * option nat * option nat :=
  match entries with
  | [] => ([], groupIdx, maskIdx)
  | e :: entries =>
      let next e groupIdx maskIdx := let '(entries, g, k) := chmod_loop mode (S i) entries groupIdx maskIdx in (e :: entries, g, k) in
      if ae_tag e =? aclTagUserObj then next (set_perm e (u16 (Z.shiftr (Z.land mode sIRWXU) 6))) groupIdx maskIdx
      else if ae_tag e =? aclTagGroupObj then next e (Some i) maskIdx
      else if ae_tag e =? aclTagMask then next e groupIdx (Some i)
      else if ae_tag e =? aclTagOther then next (set_perm e (u16 (Z.land mode sIRWXO))) groupIdx maskIdx
      else next e groupIdx maskIdx
  end.

(** [None]: there is no entry of the group class. *)
Definition chmodAcl (entries : list posixAclEntry) (mode : Z) : option (list posixAclEntry) :=
  let '(entries, groupIdx, maskIdx) := chmod_loop mode 0 entries None None in
  gi ← group_class groupIdx maskIdx;
  e ← entries !! gi;
  Some (<[gi := set_perm e (u16 (Z.shiftr (Z.land mode sIRWXG) 3))]> entries).

(** ** The caller (fuse/caller_status.go) *)
Record callerCheck := mkCaller { cc_haveEgid : bool; cc_egid : Z; cc_capEff : Z; cc_umask : Z; cc_groups : list Z }.

Definition capFOwnerBit : Z := 3.
Definition capFSetIDBit : Z := 7.

Definition hasCap (cc : callerCheck) (bit : Z) : bool := negb (Z.land (cc_capEff cc) (Z.shiftl 1 bit) =? 0).
Definition inGroup (cc : callerCheck) (gid : Z) : bool :=
  (cc_haveEgid cc && (cc_egid cc =? gid)) || existsb (fun g => g =? gid) (cc_groups cc).

(** ** Handlers *)
Section handlers.
Context {W : Type} {XW : XattrWorld W} (sec nsec : Z) (fuel : nat).

Definition applyCreateMode (parent : Inode) (mode umask : Z) : XM W Z := fun w =>
  let masked := Z.ldiff mode (Z.land umask sIRWXUGO) in
  if ino_XattrOffset parent =? 0 then (w, Ret masked) else
  match load w parent with
  | Ret (kvs, _) =>
      (w, Ret (default masked
        (blob ← getXattrFromKvs kvs aclDefaultName;
         acl ← decodePosixAcl blob;
         newMode ← createModeFromACL acl (Z.land mode 4095);
         Some (Z.lor newMode (Z.ldiff mode 4095)))))
  | Err _ => (w, Ret masked)
  | Panic => (w, Panic)
  end.

(** It returns the inode, which it may have changed. *)
Definition syncAccessAclToMode (in_ : Inode) : XM W Inode :=
  '(kvs, _) ← loadM in_;
  match getXattrFromKvs kvs aclAccessName with
  | None => mret in_
  | Some blob =>
      match (acl ← decodePosixAcl blob; chmodAcl acl (Z.land (ino_Filemode in_) sIRWXUGO)) with
      | None => mret in_
      | Some acl =>
          let newBlob := encodePosixAcl acl in
          if bool_decide (newBlob = blob) then mret in_ else setXattrLocked sec nsec fuel in_ aclAccessName (Some newBlob) 0
      end
  end.

Definition acl_mode (caller : callerCheck) (in_ : Inode) (acl : list posixAclEntry) : Z :=
  let mode := Z.lor (Z.ldiff (ino_Filemode in_) sIRWXUGO) (accessAclMode acl) in
  if negb (inGroup caller (ino_Gid in_)) && negb (hasCap caller capFOwnerBit) then Z.ldiff mode s_ISGID else mode.

Definition setXattrOp (caller : callerCheck) (ino : Z) (name : list Z) (value : option (list Z)) (flags : Z) : XM W unit :=
  match (if bool_decide (name = aclAccessName) then value ≫= decodePosixAcl else None) with
  | None => setXattr sec nsec fuel ino name value flags
  | Some acl => fun w =>
      if xattrMaxValueLen <? xlen (default [] value) then (w, Err (XErrno E2BIG)) else
      if xw_frozen w then (w, Err (XErrno EROFS)) else
      (in_ ← read_inode ino;
       _ ← setXattrLocked sec nsec fuel (set_mode in_ (acl_mode caller in_ acl)) name value flags; mret tt) w
  end.

(** [in.Filemode] after the setid bits are dropped. *)
Definition killed_mode (caller : callerCheck) (in_ : Inode) : Z :=
  if hasCap caller capFSetIDBit then ino_Filemode in_ else
  let clear := if negb (Z.land (ino_Filemode in_) s_ISUID =? 0) then s_ISUID else 0 in
  let clear := if negb (Z.land (ino_Filemode in_) s_ISGID =? 0) &&
                  (negb (Z.land (ino_Filemode in_) s_IXGRP =? 0) || negb (inGroup caller (ino_Gid in_)))
               then Z.lor clear s_ISGID else clear in
  Z.ldiff (ino_Filemode in_) clear.

Definition removePrivs (caller : callerCheck) (in_ : Inode) : XM W Inode :=
  if negb (IsFile in_) then mret in_ else
  let in_ := set_mode in_ (killed_mode caller in_) in
  if ino_XattrOffset in_ =? 0 then mret in_ else fun w =>
  match setXattrLocked sec nsec fuel in_ (str "security.capability") None 0 w with
  | (w, Err (XErrno ENODATA)) => (w, Ret in_)
  | x => x
  end.

End handlers.

(** ** The wire format round trips *)
Definition entry_wf (e : posixAclEntry) : Prop := known_tag (ae_tag e) = true /\ is_u16 (ae_perm e) /\ is_u32 (ae_id e).

Lemma known_tag_range tag : known_tag tag = true -> 0 < tag <= 32.
Proof. unfold known_tag, aclTagUserObj, aclTagUser, aclTagGroupObj, aclTagGroup, aclTagMask, aclTagOther. rewrite !orb_true_iff, !Z.eqb_eq. lia. Qed.

Lemma length_encode_entry e : length (encode_entry e) = 8%nat.
Proof. unfold encode_entry. by rewrite !length_app, !length_le_put. Qed.

Lemma entry_parts e rest : entry_wf e -> le_get (slice 0 2 (encode_entry e ++ rest)) = ae_tag e /\
  le_get (slice 2 4 (encode_entry e ++ rest)) = ae_perm e /\ le_get (slice 4 8 (encode_entry e ++ rest)) = ae_id e.
Proof.
  intros (Ht & Hp & Hi). apply known_tag_range in Ht. unfold is_u16, is_u32 in *. unfold encode_entry. rewrite <- !app_assoc.
  split_and!.
  - unfold slice. rewrite drop_0. cbn [Nat.sub]. rewrite take_app_length' by (by rewrite length_le_put). apply le_get_put. cbn. lia.
  - rewrite (slice_app' (le_put 2 (ae_tag e)) (le_put 2 (ae_perm e)) _ 2 2) by apply length_le_put. apply le_get_put. cbn. lia.
  - rewrite (app_assoc (le_put 2 (ae_tag e))). rewrite (slice_app' _ (le_put 4 (ae_id e)) _ 4 4) by (rewrite ?length_app; by rewrite ?length_le_put). apply le_get_put. cbn. lia.
Qed.

Lemma decode_encode_entries entries : Forall entry_wf entries -> decode_entries (length entries) (concat (encode_entry <$> entries)) = Some entries.
Proof.
  induction 1 as [|e entries He _ IH]; [done|]. cbn [decode_entries length fmap list_fmap concat]. destruct (entry_parts e (concat (encode_entry <$> entries)) He) as (-> & -> & ->).
  rewrite (proj1 He). cbn [negb]. rewrite <- (length_encode_entry e), drop_app_length, IH. cbn. by destruct e.
Qed.

Lemma length_encode_entries entries : length (concat (encode_entry <$> entries)) = (8 * length entries)%nat.
Proof. induction entries as [|e entries IH]; [done|]. cbn [fmap list_fmap concat]. rewrite length_app, IH, length_encode_entry. cbn. lia. Qed.

Lemma decode_encode entries : entries <> [] -> Forall entry_wf entries -> decodePosixAcl (encodePosixAcl entries) = Some entries.
Proof.
  intros Hne Hw. unfold decodePosixAcl, encodePosixAcl. set (body := concat (encode_entry <$> entries)).
  assert (Hlen : xlen (le_put 4 posixAclVersion ++ body) = 4 + 8 * Z.of_nat (length entries)) by (unfold xlen, body; rewrite length_app, length_le_put, length_encode_entries; lia).
  rewrite Hlen, (proj2 (Z.ltb_ge _ _)) by lia. rewrite (take_app_length' (le_put 4 posixAclVersion)) by (by rewrite length_le_put). cbn [orb].
  rewrite le_get_put by (cbn; unfold posixAclVersion; lia). change (negb (posixAclVersion =? posixAclVersion)) with false. cbv iota.
  rewrite (drop_app_length' (le_put 4 posixAclVersion)) by (by rewrite length_le_put).
  assert (Hx : xlen body = Z.of_nat (length entries) * 8) by (unfold xlen, body; rewrite length_encode_entries; lia).
  unfold posixAclEntrySz. rewrite Hx, Z_mod_mult, Z_div_mult by lia. cbn [Z.eqb negb]. rewrite Nat2Z.id. unfold body. rewrite decode_encode_entries by done. cbn [mbind option_bind].
  by rewrite bool_decide_false.
Qed.

Lemma encode_decode_entries n : forall rest entries, bytes rest -> length rest = (8 * n)%nat -> decode_entries n rest = Some entries ->
  concat (encode_entry <$> entries) = rest /\ Forall entry_wf entries.
Proof.
  induction n as [|n IH]; intros rest entries Hb Hl; cbn [decode_entries].
  - intros [= <-]. destruct rest; [by split|done].
  - destruct (known_tag (le_get (slice 0 2 rest))) eqn:Et; [|done]. cbn [negb]. destruct (decode_entries n (drop 8 rest)) as [es|] eqn:Ed; [|done]. cbn [mbind option_bind]. intros [= <-].
    destruct (IH (drop 8 rest) es) as [IH1 IH2]; [by apply bytes_drop|rewrite length_drop; lia|done|].
    assert (Hs : forall a b, (a <= b <= 8)%nat -> bytes (slice a b rest) /\ length (slice a b rest) = (b - a)%nat) by (intros a b Hab; split; [apply bytes_take, bytes_drop, Hb|apply length_slice; lia]).
    destruct (Hs 0 2)%nat as [B1 L1]; [lia|]. destruct (Hs 2 4)%nat as [B2 L2]; [lia|]. destruct (Hs 4 8)%nat as [B3 L3]; [lia|].
    split.
    + cbn [fmap list_fmap concat]. rewrite IH1. unfold encode_entry. cbn [ae_tag ae_perm ae_id].
      pose proof (le_put_get _ B1) as P1. pose proof (le_put_get _ B2) as P2. pose proof (le_put_get _ B3) as P3. rewrite L1 in P1. rewrite L2 in P2. rewrite L3 in P3. cbn [Nat.sub] in P1, P2, P3.
      rewrite P1, P2, P3. unfold slice. cbn [Nat.sub]. rewrite drop_0. rewrite <- !app_assoc. transitivity (take 2 rest ++ drop 2 rest); [|apply take_drop]. f_equal.
      transitivity (take 2 (drop 2 rest) ++ drop 2 (drop 2 rest)); [|apply take_drop]. f_equal. rewrite drop_drop.
      transitivity (take 4 (drop 4 rest) ++ drop 4 (drop 4 rest)); [by rewrite drop_drop|apply take_drop].
    + constructor; [|exact IH2]. pose proof (le_get_range _ B2) as R2. pose proof (le_get_range _ B3) as R3. rewrite L2 in R2. rewrite L3 in R3. split; [exact Et|]. split; [exact R2|exact R3].
Qed.

Lemma encode_decode blob entries : bytes blob -> decodePosixAcl blob = Some entries -> encodePosixAcl entries = blob /\ Forall entry_wf entries /\ entries <> [].
Proof.
  intros Hb. unfold decodePosixAcl. destruct (Z.ltb_spec (xlen blob) 4) as [|Hl]; [done|]. cbn [orb]. destruct (Z.eqb_spec (le_get (take 4 blob)) posixAclVersion) as [Ev|]; [|done]. cbn [negb].
  unfold posixAclEntrySz. destruct (Z.eqb_spec (xlen (drop 4 blob) mod 8) 0) as [Em|]; [|done]. cbn [negb].
  destruct (decode_entries _ _) as [es|] eqn:Ed; [|done]. cbn [mbind option_bind]. case_bool_decide as Hne; [done|]. intros [= <-].
  pose proof (Z.div_mod (xlen (drop 4 blob)) 8 ltac:(lia)) as Hd. assert (0 <= xlen (drop 4 blob) / 8) by (apply Z.div_pos; unfold xlen; lia).
  assert (Hn : length (drop 4 blob) = (8 * Z.to_nat (xlen (drop 4 blob) / 8))%nat) by (unfold xlen in *; lia).
  destruct (encode_decode_entries _ _ _ (bytes_drop 4 _ Hb) Hn Ed) as [E Hw]. split; [|by split]. unfold encodePosixAcl. rewrite E, <- Ev.
  assert (Ht : length (take 4 blob) = 4%nat) by (rewrite length_take; unfold xlen in Hl; lia). pose proof (le_put_get _ (bytes_take 4 _ Hb)) as P. rewrite Ht in P. rewrite P. apply take_drop.
Qed.

(** ACLs in the kernel's wire format round trip both ways: a non-empty list of
    entries with known tags decodes to itself once encoded, and a blob that
    decodes at all is the encoding of what it decodes to. *)
Theorem acl_wire_roundtrip blob entries : bytes blob -> decodePosixAcl blob = Some entries <-> entries <> [] /\ Forall entry_wf entries /\ encodePosixAcl entries = blob.
Proof.
  intros Hb. split.
  - intros E. destruct (encode_decode blob entries Hb E) as (? & ? & ?). by split_and!.
  - intros (Hne & Hw & <-). by apply decode_encode.
Qed.

(** ** Bits *)
Lemma testbit_u16 x n : 0 <= n -> Z.testbit (u16 x) n = (n <? 16) && Z.testbit x n.
Proof.
  intros Hn. unfold u16. destruct (Z.ltb_spec n 16); [by rewrite Z.mod_pow2_bits_low by lia|by rewrite Z.mod_pow2_bits_high by lia].
Qed.
Lemma testbit_u32 x n : 0 <= n -> Z.testbit (u32 x) n = (n <? 32) && Z.testbit x n.
Proof.
  intros Hn. unfold u32. destruct (Z.ltb_spec n 32); [by rewrite Z.mod_pow2_bits_low by lia|by rewrite Z.mod_pow2_bits_high by lia].
Qed.
Lemma testbit_not32 x n : 0 <= n -> Z.testbit (not32 x) n = xorb (Z.testbit x n) (n <? 32).
Proof. intros Hn. unfold not32. rewrite Z.lxor_spec. f_equal. change (2 ^ 32 - 1) with (Z.ones 32). rewrite Z.testbit_ones by lia. by rewrite (proj2 (Z.leb_le _ _) Hn). Qed.
Lemma testbit_shl x k n : 0 <= n -> Z.testbit (Z.shiftl x k) n = Z.testbit x (n - k).
Proof. intros Hn. by apply Z.shiftl_spec. Qed.
Lemma high_bits p k n : 0 <= p < 2 ^ k -> k <= n -> Z.testbit p n = false.
Proof.
  intros Hp Hk. destruct (decide (p = 0)) as [->|]; [apply Z.bits_0|]. apply Z.bits_above_log2; [lia|]. apply Z.lt_le_trans with k; [|lia]. apply Z.log2_lt_pow2; lia.
Qed.

(** Two masks agree when their bits do.  The bits of a number that is not a
    constant are a function, of which the context may know that they end after
    the third; what is left is a boolean tautology. *)
Definition small_bits (f : Z -> bool) : Prop := forall n, n < 0 \/ 3 <= n -> f n = false.

Lemma small_testbit p : 0 <= p < 8 -> small_bits (Z.testbit p).
Proof. intros Hp n [Hn|Hn]; [by apply Z.testbit_neg_r|by apply (high_bits p 3)]. Qed.

Ltac bit_specs := repeat first [rewrite Z.lor_spec|rewrite Z.land_spec|rewrite Z.ldiff_spec|rewrite testbit_u16 by lia|rewrite testbit_u32 by lia|rewrite testbit_not32 by lia|rewrite testbit_shl by lia|rewrite Z.shiftr_spec by lia|
  match goal with |- context [Z.testbit ?x ?n] => rewrite (Z.testbit_neg_r x n) by (clear; lia) end].
Ltac bit_cases n :=
  let H := fresh in
  assert (H : n = 0 \/ n = 1 \/ n = 2 \/ n = 3 \/ n = 4 \/ n = 5 \/ n = 6 \/ n = 7 \/ n = 8) by lia;
  repeat destruct H as [->|H]; subst.
Ltac small p H f :=
  let B := fresh "B" in pose proof (small_testbit p H) as B; clear H; set (f := Z.testbit p) in *; clearbody f.
Ltac bits :=
  repeat match goal with
  | |- context [?a - ?b] => let v := eval vm_compute in (a - b) in change (a - b) with v
  | |- context [?a + ?b] => let v := eval vm_compute in (a + b) in change (a + b) with v
  end; cbn; repeat match goal with B : small_bits ?f |- context [?f ?n] => rewrite (B n) by (clear; lia) end;
  repeat match goal with |- context [?f ?n] => match type of (f n) with bool => is_var f; destruct (f n) end end; reflexivity.

(** The permission bits of the classes of owner, group and others. *)
Definition class_mode (pu pg po : Z) : Z := Z.lor (Z.lor (Z.shiftl pu 6) (Z.shiftl pg 3)) po.

Definition create_owner (mode pu : Z) : Z :=
  Z.land mode (Z.lor (u32 (Z.shiftl (Z.land pu (u16 (Z.lor (Z.shiftr mode 6) (not32 sIRWXO)))) 6)) (not32 sIRWXU)).
Definition create_other (mode m po : Z) : Z := Z.land m (Z.lor (Z.land po (u16 (Z.lor mode (not32 sIRWXO)))) (not32 sIRWXO)).
Definition create_group (m pg : Z) : Z :=
  Z.land m (Z.lor (u32 (Z.shiftl (Z.land pg (u16 (Z.lor (Z.shiftr m 3) (not32 sIRWXO)))) 3)) (not32 sIRWXG)).

Lemma create_bits mode pu pg po : 0 <= mode < 2 ^ 32 -> 0 <= pu < 8 -> 0 <= pg < 8 -> 0 <= po < 8 ->
  Z.lor (Z.ldiff mode sIRWXUGO) (create_group (create_other mode (create_owner mode pu) po) pg) =
  Z.lor (Z.ldiff mode sIRWXUGO) (Z.land mode (class_mode pu pg po)).
Proof.
  intros Hm Hu Hg Ho. apply Z.bits_inj'. intros n Hn. unfold create_group, create_other, create_owner, class_mode. destruct (decide (9 <= n)) as [H9|H9].
  - rewrite !Z.lor_spec, Z.ldiff_spec. change sIRWXUGO with (Z.ones 9). rewrite (Z.ones_spec_high 9 n) by lia. rewrite !Z.land_spec. by destruct (Z.testbit mode n).
  - bit_cases n; bit_specs; clear Hm; set (fm := Z.testbit mode); clearbody fm; small pu Hu fu; small pg Hg fg; small po Ho fo; bits.
Qed.

(** ** Well-formed ACLs

    The order the kernel stores: the owner, named users, the owning group, named
    groups, at most one mask, others. *)
Record shape := mkShape { sh_u : posixAclEntry; sh_us : list posixAclEntry; sh_g : posixAclEntry; sh_gs : list posixAclEntry; sh_k : option posixAclEntry; sh_o : posixAclEntry }.

Definition entries_of (s : shape) : list posixAclEntry :=
  sh_u s :: sh_us s ++ sh_g s :: sh_gs s ++ option_list (sh_k s) ++ [sh_o s].

Definition perm_ok (e : posixAclEntry) : Prop := 0 <= ae_perm e < 8.

Record shape_ok (s : shape) : Prop := {
  so_u : ae_tag (sh_u s) = aclTagUserObj; so_us : Forall (fun e => ae_tag e = aclTagUser) (sh_us s);
  so_g : ae_tag (sh_g s) = aclTagGroupObj; so_gs : Forall (fun e => ae_tag e = aclTagGroup) (sh_gs s);
  so_k k : sh_k s = Some k -> ae_tag k = aclTagMask; so_o : ae_tag (sh_o s) = aclTagOther;
  so_perm : perm_ok (sh_u s) /\ perm_ok (sh_g s) /\ perm_ok (sh_o s) /\ forall k, sh_k s = Some k -> perm_ok k;
}.

(** The entry of the group class. *)
Definition sh_class (s : shape) : posixAclEntry := default (sh_g s) (sh_k s).

Definition quiet (e : posixAclEntry) : Prop := ae_tag e = aclTagUser \/ ae_tag e = aclTagGroup.

Lemma create_loop_quiet mode es rest : Forall quiet es -> forall i m g k,
  create_loop mode i (es ++ rest) m g k = ('(r, m, g, k) ← create_loop mode (i + length es) rest m g k; Some (es ++ r, m, g, k)).
Proof.
  induction 1 as [|e es He _ IH]; intros i m g k; cbn [app length].
  - rewrite Nat.add_0_r. by destruct (create_loop _ _ _ _ _ _) as [[[[? ?] ?] ?]|].
  - cbn [create_loop]. replace (i + S (length es))%nat with (S i + length es)%nat by lia.
    destruct He as [-> | ->]; cbn; rewrite IH; by destruct (create_loop _ _ _ _ _ _) as [[[[? ?] ?] ?]|].
Qed.

Lemma quiet_named s : shape_ok s -> Forall quiet (sh_us s) /\ Forall quiet (sh_gs s).
Proof. intros [_ H1 _ H2 _ _ _]. split; (eapply Forall_impl; [eassumption|]); intros e He; [by left|by right]. Qed.

Lemma lookup_class {A} (u : A) us g gs k r : (u :: us ++ g :: gs ++ k :: r) !! (S (1 + length us) + length gs)%nat = Some k.
Proof.
  replace (u :: us ++ g :: gs ++ k :: r) with ((u :: us ++ g :: gs) ++ k :: r) by (cbn; by rewrite <- app_assoc). apply list_lookup_middle. cbn. rewrite length_app. cbn. lia.
Qed.
Lemma lookup_group {A} (u : A) us g r : (u :: us ++ g :: r) !! (1 + length us)%nat = Some g.
Proof. change (u :: us ++ g :: r) with ((u :: us) ++ g :: r). by apply list_lookup_middle. Qed.

Lemma createMode_eval s mode : shape_ok s ->
  createModeFromACL (entries_of s) mode =
  Some (Z.lor (Z.ldiff mode sIRWXUGO) (create_group (create_other mode (create_owner mode (ae_perm (sh_u s))) (ae_perm (sh_o s))) (ae_perm (sh_class s)))).
Proof.
  intros Hs. destruct (quiet_named s Hs) as [Qu Qg]. destruct s as [u us g gs k o], Hs as [H1 _ H3 _ H5 H6 _]. cbn in *. unfold createModeFromACL, entries_of, sh_class. cbn [sh_u sh_us sh_g sh_gs sh_k sh_o].
  cbn [create_loop]. rewrite H1. cbn [Z.eqb aclTagUserObj Pos.eqb]. rewrite (create_loop_quiet mode us _ Qu). cbn [create_loop]. rewrite H3. cbn [Z.eqb orb aclTagUserObj aclTagUser aclTagGroup aclTagGroupObj Pos.eqb].
  rewrite (create_loop_quiet mode gs _ Qg). destruct k as [k|]; cbn [default from_option id].
  - change (option_list (Some k) ++ [o]) with [k; o]. cbn [create_loop]. rewrite (H5 k eq_refl), H6. cbn [Z.eqb orb aclTagUserObj aclTagUser aclTagGroup aclTagGroupObj aclTagOther aclTagMask Pos.eqb mbind option_bind group_class].
    rewrite lookup_class. reflexivity.
  - change (option_list None ++ [o]) with [o]. cbn [create_loop]. rewrite H6. cbn [Z.eqb orb aclTagUserObj aclTagUser aclTagGroup aclTagGroupObj aclTagOther aclTagMask Pos.eqb mbind option_bind group_class].
    rewrite lookup_group. reflexivity.
Qed.

(** ** What an ACL says of the mode *)
Lemma land7 p : 0 <= p < 8 -> Z.land p 7 = p.
Proof. intros Hp. change 7 with (Z.ones 3). rewrite Z.land_ones by lia. apply Z.mod_small. lia. Qed.

Lemma access_quiet es : Forall quiet es -> forall m, foldl access_bits m es = m.
Proof. induction 1 as [|e es He _ IH]; intros m; [done|]. cbn [foldl]. replace (access_bits m e) with m; [apply IH|]. unfold access_bits. by destruct He as [-> | ->]. Qed.

Lemma mask_bits pu pg pk po : 0 <= pu < 8 -> 0 <= pg < 8 -> 0 <= pk < 8 -> 0 <= po < 8 ->
  Z.lor (Z.lor (Z.ldiff (Z.lor (Z.shiftl pu 6) (Z.shiftl pg 3)) sIRWXG) (Z.shiftl pk 3)) po = class_mode pu pk po.
Proof.
  intros Hu Hg Hk Ho. apply Z.bits_inj'. intros n Hn. unfold class_mode. destruct (decide (9 <= n)) as [H9|H9].
  - bit_specs. rewrite !(high_bits _ 3 _ Hu), !(high_bits _ 3 _ Hg), !(high_bits _ 3 _ Hk), !(high_bits _ 3 _ Ho) by lia. done.
  - bit_cases n; bit_specs; small pu Hu fu; small pg Hg fg; small pk Hk fk; small po Ho fo; bits.
Qed.

Lemma access_eval s : shape_ok s -> accessAclMode (entries_of s) = class_mode (ae_perm (sh_u s)) (ae_perm (sh_class s)) (ae_perm (sh_o s)).
Proof.
  intros Hs. destruct (quiet_named s Hs) as [Qu Qg]. destruct s as [u us g gs k o], Hs as [H1 _ H3 _ H5 H6 (P1 & P2 & P3 & P4)]. unfold perm_ok in *. cbn in *.
  unfold accessAclMode, entries_of, sh_class. cbn [sh_u sh_us sh_g sh_gs sh_k sh_o foldl]. rewrite foldl_app, (access_quiet us Qu). cbn [foldl]. rewrite foldl_app, (access_quiet gs Qg).
  assert (Hu : access_bits 0 u = Z.shiftl (ae_perm u) 6) by (unfold access_bits; rewrite H1, (land7 _ P1); done). rewrite Hu.
  assert (Hg : forall m, access_bits m g = Z.lor m (Z.shiftl (ae_perm g) 3)) by (intros m; unfold access_bits; rewrite H3, (land7 _ P2); done). rewrite Hg.
  assert (Ho : forall m, access_bits m o = Z.lor m (ae_perm o)) by (intros m; unfold access_bits; rewrite H6, (land7 _ P3); done).
  destruct k as [k|]; cbn [default from_option id].
  - change (option_list (Some k) ++ [o]) with [k; o]. cbn [foldl]. rewrite Ho. unfold access_bits at 1. rewrite (H5 k eq_refl), (land7 _ (P4 k eq_refl)).
    cbn [Z.eqb aclTagMask aclTagUserObj aclTagGroupObj aclTagOther Pos.eqb]. by apply mask_bits; [| |apply P4|].
  - change (option_list None ++ [o]) with [o]. cbn [foldl]. by rewrite Ho.
Qed.

(** Every permission bit that the ACL does not grant its class is removed, the
    others and the setid bits are kept. *)
Lemma createModeFromACL_masks s mode : shape_ok s -> 0 <= mode < 2 ^ 32 ->
  createModeFromACL (entries_of s) mode = Some (Z.lor (Z.ldiff mode sIRWXUGO) (Z.land mode (accessAclMode (entries_of s)))).
Proof.
  intros Hs Hm. pose proof (so_perm s Hs) as (P1 & P2 & P3 & P4). rewrite (createMode_eval s mode Hs), (access_eval s Hs). f_equal. apply create_bits; try done.
  unfold sh_class. destruct (sh_k s) as [k|]; cbn; [by apply P4|done].
Qed.

(** ** A chmod *)
Lemma chmod_loop_quiet mode es rest : Forall quiet es -> forall i g k,
  chmod_loop mode i (es ++ rest) g k = let '(r, g, k) := chmod_loop mode (i + length es) rest g k in (es ++ r, g, k).
Proof.
  induction 1 as [|e es He _ IH]; intros i g k; cbn [app length].
  - rewrite Nat.add_0_r. by destruct (chmod_loop _ _ _ _ _) as [[? ?] ?].
  - cbn [chmod_loop]. replace (i + S (length es))%nat with (S i + length es)%nat by lia.
    destruct He as [-> | ->]; cbn; rewrite IH; by destruct (chmod_loop _ _ _ _ _) as [[? ?] ?].
Qed.

Definition owner_perm (mode : Z) : Z := u16 (Z.shiftr (Z.land mode sIRWXU) 6).
Definition group_perm (mode : Z) : Z := u16 (Z.shiftr (Z.land mode sIRWXG) 3).
Definition other_perm (mode : Z) : Z := u16 (Z.land mode sIRWXO).

Definition chmod_shape (s : shape) (mode : Z) : shape :=
  let set_class e := set_perm e (group_perm mode) in
  mkShape (set_perm (sh_u s) (owner_perm mode)) (sh_us s) (if sh_k s then sh_g s else set_class (sh_g s)) (sh_gs s) (set_class <$> sh_k s) (set_perm (sh_o s) (other_perm mode)).

Lemma insert_class {A} (u : A) us g gs k r k' : <[(S (1 + length us) + length gs)%nat := k']> (u :: us ++ g :: gs ++ k :: r) = u :: us ++ g :: gs ++ k' :: r.
Proof.
  assert (E : forall x, u :: us ++ g :: gs ++ x :: r = (u :: us ++ g :: gs) ++ x :: r) by (intros x; cbn; by rewrite <- app_assoc). rewrite !E.
  replace (S (1 + length us) + length gs)%nat with (length (u :: us ++ g :: gs) + 0)%nat by (cbn; rewrite length_app; cbn; lia). by rewrite insert_app_r.
Qed.
Lemma insert_group {A} (u : A) us g r g' : <[(1 + length us)%nat := g']> (u :: us ++ g :: r) = u :: us ++ g' :: r.
Proof.
  change (u :: us ++ g :: r) with ((u :: us) ++ g :: r). replace (1 + length us)%nat with (length (u :: us) + 0)%nat by (cbn; lia). by rewrite insert_app_r.
Qed.

Lemma chmod_eval s mode : shape_ok s -> chmodAcl (entries_of s) mode = Some (entries_of (chmod_shape s mode)).
Proof.
  intros Hs. destruct (quiet_named s Hs) as [Qu Qg]. destruct s as [u us g gs k o], Hs as [H1 _ H3 _ H5 H6 _]. cbn in *. unfold chmodAcl, entries_of, chmod_shape. cbn [sh_u sh_us sh_g sh_gs sh_k sh_o].
  cbn [chmod_loop]. rewrite H1. cbn [Z.eqb aclTagUserObj Pos.eqb]. rewrite (chmod_loop_quiet mode us _ Qu). cbn [chmod_loop]. rewrite H3. cbn [Z.eqb aclTagUserObj aclTagGroupObj Pos.eqb].
  rewrite (chmod_loop_quiet mode gs _ Qg). destruct k as [k|]; cbn [fmap option_fmap option_map].
  - change (option_list (Some k) ++ [o]) with [k; o]. cbn [chmod_loop]. rewrite (H5 k eq_refl), H6. cbn [Z.eqb aclTagUserObj aclTagGroupObj aclTagOther aclTagMask Pos.eqb group_class mbind option_bind].
    rewrite lookup_class. cbn [mbind option_bind]. by rewrite insert_class.
  - change (option_list None ++ [o]) with [o]. cbn [chmod_loop]. rewrite H6. cbn [Z.eqb aclTagUserObj aclTagGroupObj aclTagOther aclTagMask Pos.eqb group_class mbind option_bind].
    rewrite lookup_group. cbn [mbind option_bind]. by rewrite insert_group.
Qed.

Lemma class_perm mode k : 0 <= k -> u16 (Z.shiftr (Z.land mode (Z.shiftl 7 k)) k) = Z.shiftr mode k mod 8.
Proof.
  intros Hk. rewrite Z.shiftr_land, Z.shiftr_shiftl_l, Z.sub_diag by lia. change (Z.shiftl 7 0) with (Z.ones 3). rewrite Z.land_ones by lia.
  pose proof (Z.mod_pos_bound (Z.shiftr mode k) (2 ^ 3) ltac:(lia)). rewrite u16_small by (unfold is_u16; lia). done.
Qed.

Lemma chmod_perms mode : owner_perm mode = Z.shiftr mode 6 mod 8 /\ group_perm mode = Z.shiftr mode 3 mod 8 /\ other_perm mode = mode mod 8.
Proof.
  split_and!; [apply (class_perm mode 6); lia|apply (class_perm mode 3); lia|]. pose proof (class_perm mode 0 ltac:(lia)) as H. rewrite !Z.shiftr_0_r in H. exact H.
Qed.

Lemma chmod_mode mode : class_mode (owner_perm mode) (group_perm mode) (other_perm mode) = Z.land mode sIRWXUGO.
Proof.
  destruct (chmod_perms mode) as (-> & -> & ->). change 8 with (2 ^ 3). rewrite <- !Z.land_ones by lia. apply Z.bits_inj'. intros n Hn. unfold class_mode. destruct (decide (9 <= n)) as [H9|H9].
  - change sIRWXUGO with (Z.ones 9). bit_specs. rewrite !Z.ones_spec_high by lia. by rewrite !andb_false_r.
  - bit_cases n; bit_specs; set (fm := Z.testbit mode); clearbody fm; bits.
Qed.

Lemma chmod_shape_ok s mode : shape_ok s -> shape_ok (chmod_shape s mode).
Proof.
  intros [H1 H2 H3 H4 H5 H6 (P1 & P2 & P3 & P4)]. destruct (chmod_perms mode) as (Eu & Eg & Eo). destruct s as [u us g gs k o]. unfold perm_ok in *. cbn in *.
  split; cbn; try done; [by destruct k|intros k'; destruct k as [k|]; cbn; [intros [= <-]; by apply (H5 k)|done]|].
  unfold perm_ok. cbn. rewrite Eu, Eo. split; [apply Z.mod_pos_bound; lia|]. split; [|split; [apply Z.mod_pos_bound; lia|]].
  - destruct k; [done|]. cbn. rewrite Eg. apply Z.mod_pos_bound. lia.
  - intros k'. destruct k as [k|]; cbn; [intros [= <-]|done]. cbn. rewrite Eg. apply Z.mod_pos_bound. lia.
Qed.

Lemma chmod_access s mode : shape_ok s -> accessAclMode (entries_of (chmod_shape s mode)) = Z.land mode sIRWXUGO.
Proof. intros Hs. rewrite (access_eval _ (chmod_shape_ok s mode Hs)), <- chmod_mode. destruct s as [u us g gs [k|] o]; done. Qed.

Lemma class_parts pu pg po : 0 <= pu < 8 -> 0 <= pg < 8 -> 0 <= po < 8 ->
  owner_perm (class_mode pu pg po) = pu /\ group_perm (class_mode pu pg po) = pg /\ other_perm (class_mode pu pg po) = po.
Proof.
  intros Hu Hg Ho. destruct (chmod_perms (class_mode pu pg po)) as (-> & -> & ->). change 8 with (2 ^ 3). rewrite <- !Z.land_ones by lia. unfold class_mode.
  split_and!; apply Z.bits_inj'; intros n Hn; (destruct (decide (3 <= n)) as [H3|H3];
    [bit_specs; rewrite Z.ones_spec_high by lia; rewrite andb_false_r; symmetry; by eapply (high_bits _ 3)|]);
    (bit_cases n; try lia; bit_specs; small pu Hu fu; small pg Hg fg; small po Ho fo; bits).
Qed.

Lemma set_same_perm e p : ae_perm e = p -> set_perm e p = e.
Proof. intros <-. by destruct e. Qed.

Lemma chmod_same s : shape_ok s -> chmod_shape s (accessAclMode (entries_of s)) = s.
Proof.
  intros Hs. rewrite (access_eval s Hs). destruct Hs as [_ _ _ _ _ _ (P1 & P2 & P3 & P4)]. destruct s as [u us g gs k o]. unfold perm_ok in *. cbn in P1, P2, P3, P4.
  assert (Pc : 0 <= ae_perm (sh_class (mkShape u us g gs k o)) < 8) by (destruct k as [k|]; cbn; [by apply P4|done]).
  destruct (class_parts _ _ _ P1 Pc P3) as (E1 & E2 & E3). unfold chmod_shape. cbn [sh_u sh_us sh_g sh_gs sh_k sh_o]. rewrite E1, E2, E3. rewrite (set_same_perm u), (set_same_perm o) by done.
  f_equal; destruct k as [k|]; cbn; try done; [by rewrite set_same_perm|by rewrite set_same_perm].
Qed.

(** A chmod rewrites an access ACL so that it says exactly the new permission
    bits; only the entries of the owner, the group class and others change, and
    only their permissions; and an ACL that says the bits already is left as it
    is. *)
Theorem chmodAcl_correct s mode : shape_ok s -> exists s', chmodAcl (entries_of s) mode = Some (entries_of s') /\ shape_ok s' /\
  accessAclMode (entries_of s') = Z.land mode sIRWXUGO /\ sh_us s' = sh_us s /\ sh_gs s' = sh_gs s /\
  (is_Some (sh_k s) -> sh_g s' = sh_g s) /\ (accessAclMode (entries_of s) = mode -> s' = s).
Proof.
  intros Hs. exists (chmod_shape s mode). split; [by apply chmod_eval|]. split; [by apply chmod_shape_ok|]. split; [by apply chmod_access|]. split; [done|]. split; [done|]. split.
  - intros [k Hk]. cbn. by rewrite Hk.
  - intros <-. by apply chmod_same.
Qed.

(** ** On a volume *)
Lemma lor_range a b k : 0 <= k -> 0 <= a < 2 ^ k -> 0 <= b < 2 ^ k -> 0 <= Z.lor a b < 2 ^ k.
Proof.
  intros Hk Ha Hb. rewrite <- (Z.mod_small a (2 ^ k)), <- (Z.mod_small b (2 ^ k)) by done. rewrite <- !Z.land_ones by done. rewrite <- Z.land_lor_distr_l, Z.land_ones by done.
  apply Z.mod_pos_bound. lia.
Qed.
Lemma ldiff_range a b k : 0 <= k -> 0 <= a < 2 ^ k -> 0 <= Z.ldiff a b < 2 ^ k.
Proof.
  intros Hk Ha. rewrite <- (Z.mod_small a (2 ^ k)) by done. rewrite <- Z.land_ones, Z.ldiff_land, <- Z.land_assoc, (Z.land_comm (Z.ones k)), Z.land_assoc, Z.land_ones by done.
  apply Z.mod_pos_bound. lia.
Qed.

Lemma access_range s : shape_ok s -> 0 <= accessAclMode (entries_of s) < 512.
Proof.
  intros Hs. rewrite (access_eval s Hs). destruct (so_perm s Hs) as (P1 & P2 & P3 & P4). unfold perm_ok in *. unfold class_mode.
  assert (Pc : 0 <= ae_perm (sh_class s) < 8) by (unfold sh_class; destruct (sh_k s) as [k|]; cbn; [by apply P4|done]).
  rewrite !Z.shiftl_mul_pow2 by lia. apply (lor_range _ _ 9); [lia|apply (lor_range _ _ 9); lia|lia].
Qed.

Lemma set_mode_wf in_ mode : codec_wf in_ -> is_u32 mode -> codec_wf (set_mode in_ mode).
Proof.
  intros [Hf Hw] [H1 H2]. split; [|done]. cbn in Hf. repeat (apply Forall_cons in Hf as [? Hf]). repeat (apply Forall_cons_2; [cbn; done || lia|]). apply Forall_nil_2.
Qed.

Lemma filemode_range (in_ : Inode) : codec_wf in_ -> 0 <= ino_Filemode in_ < 2 ^ 32.
Proof. intros [Hf _]. cbn in Hf. do 2 (apply Forall_cons in Hf as [_ Hf]). apply Forall_cons in Hf as [H _]. exact H. Qed.

(** The bits of the mode that an access ACL decides, and those it may clear. *)
(** The callers that keep the set-group-id bit (the kernel's in_group_or_capable). *)
Definition keeps_sgid (caller : callerCheck) (in_ : Inode) : bool := inGroup caller (ino_Gid in_) || hasCap caller capFOwnerBit.

Lemma sgid_bit f a : (forall n, 9 <= n -> Z.testbit a n = false) -> Z.land (Z.lor (Z.ldiff f sIRWXUGO) a) s_ISGID = Z.land f s_ISGID.
Proof.
  intros Ba. apply Z.bits_inj'. intros n Hn. bit_specs. change s_ISGID with (2 ^ 10). rewrite Z.pow2_bits_eqb by lia. destruct (Z.eqb_spec 10 n) as [<-|]; [|by rewrite !andb_false_r].
  rewrite (Ba 10) by lia. change (Z.testbit sIRWXUGO 10) with false. cbn. by rewrite orb_false_r, !andb_true_r.
Qed.

Lemma acl_mode_spec caller in_ s : codec_wf in_ -> shape_ok s ->
  is_u32 (acl_mode caller in_ (entries_of s)) /\ Z.land (acl_mode caller in_ (entries_of s)) sIRWXUGO = accessAclMode (entries_of s) /\
  Z.ldiff (acl_mode caller in_ (entries_of s)) (Z.lor sIRWXUGO s_ISGID) = Z.ldiff (ino_Filemode in_) (Z.lor sIRWXUGO s_ISGID) /\
  Z.land (acl_mode caller in_ (entries_of s)) s_ISGID = (if keeps_sgid caller in_ then Z.land (ino_Filemode in_) s_ISGID else 0).
Proof.
  intros Hw Hs. pose proof (filemode_range in_ Hw) as Hf. pose proof (access_range s Hs) as Ha. unfold acl_mode. set (a := accessAclMode (entries_of s)) in *. set (f := ino_Filemode in_) in *.
  assert (Hm : 0 <= Z.lor (Z.ldiff f sIRWXUGO) a < 2 ^ 32) by (apply lor_range; [lia|by apply ldiff_range|lia]).
  assert (Ba : forall n, 9 <= n -> Z.testbit a n = false) by (intros n Hn; by apply (high_bits a 9)).
  assert (Hbits : forall n, 0 <= n -> Z.testbit (Z.land (Z.lor (Z.ldiff f sIRWXUGO) a) sIRWXUGO) n = Z.testbit a n).
  { intros n Hn. bit_specs. change sIRWXUGO with (Z.ones 9). destruct (decide (9 <= n)); [rewrite Z.ones_spec_high, (Ba n) by lia; by rewrite andb_false_r|].
    rewrite Z.ones_spec_low by lia. cbn. by rewrite andb_false_r, andb_true_r. }
  unfold keeps_sgid. rewrite <- negb_orb. destruct (inGroup caller (ino_Gid in_) || hasCap caller capFOwnerBit); cbn [negb].
  2: { split; [by apply ldiff_range|]. split; [|split].
    + apply Z.bits_inj'. intros n Hn. rewrite <- Hbits by done. bit_specs. destruct (decide (n = 10)) as [->|]; [change (Z.testbit sIRWXUGO 10) with false; by rewrite !andb_false_r|]. change s_ISGID with (2 ^ 10). rewrite Z.pow2_bits_eqb by lia.
      rewrite (proj2 (Z.eqb_neq 10 n)) by lia. cbn. by rewrite andb_true_r.
    + apply Z.bits_inj'. intros n Hn. bit_specs. change sIRWXUGO with (Z.ones 9). destruct (decide (9 <= n)); [rewrite (Ba n), Z.ones_spec_high by lia|rewrite Z.ones_spec_low by lia]; cbn.
      * rewrite orb_false_r, !andb_true_r. by destruct (Z.testbit f n), (Z.testbit s_ISGID n).
      * by rewrite !andb_false_r.
    + apply Z.bits_inj'. intros n Hn. bit_specs. rewrite Z.bits_0. by destruct (Z.testbit s_ISGID n); rewrite ?andb_false_r. }
  split; [done|]. split; [apply Z.bits_inj'; exact Hbits|]. split; [|by apply sgid_bit].
    apply Z.bits_inj'. intros n Hn. bit_specs. change sIRWXUGO with (Z.ones 9). destruct (decide (9 <= n)); [rewrite (Ba n), Z.ones_spec_high by lia|rewrite Z.ones_spec_low by lia]; cbn.
    + by rewrite orb_false_r, andb_true_r.
    + by rewrite !andb_false_r.
Qed.

Lemma bytes_encode entries : bytes (encodePosixAcl entries).
Proof.
  unfold encodePosixAcl. apply bytes_app. split; [apply bytes_le_put|]. induction entries as [|e entries IH]; [constructor|]. cbn [fmap list_fmap concat]. apply bytes_app. split; [|done].
  unfold encode_entry. rewrite !bytes_app. split_and!; apply bytes_le_put.
Qed.

Lemma names_ok : bytes aclAccessName /\ xlen aclAccessName <= 255 /\ bytes (str "security.capability") /\ xlen (str "security.capability") <= 255.
Proof. split_and!; try (apply bytesb_bytes; vm_compute; reflexivity); vm_compute; discriminate. Qed.

(** ** Which errors a store returns

    ENODATA is the answer for an attribute that is not there; nothing below the
    edit of the entries returns it. *)
Definition absent : xattr_error := XErrno ENODATA.
Definition other_res {A} (x : res xattr_error A) : Prop := x <> Err absent.
Definition other_errors {W A} (m : XM W A) : Prop := forall w w', m w <> (w', Err absent).

Lemma other_res_bind {A B} (x : res xattr_error A) (k : A -> res xattr_error B) : other_res x -> (forall a, other_res (k a)) -> other_res (x ≫= k).
Proof. intros Hx Hk. destruct x as [a|e|]; cbn; [apply Hk|intros [= ->]; by apply Hx|done]. Qed.
Lemma other_codec {A} (x : res codec_error A) : other_res (lift_xcodec x).
Proof. by destruct x. Qed.
Lemma other_header buf : other_res (ReadXattrHeader buf).
Proof. unfold ReadXattrHeader. repeat (destruct (_ <? _); [done|]). destruct (negb _); [done|]. destruct (negb _ && negb _); [done|]. destruct (_ <? _); [done|]. destruct (_ =? 2); apply other_codec. Qed.
Lemma other_walk r n fuel v : forall visited block, other_res (walk_chain r n fuel v visited block).
Proof.
  induction fuel as [|fuel IH]; intros visited block; cbn [walk_chain]; (destruct (block =? 0); [done|]); [done|]. destruct (bool_decide _); [done|]. destruct (_ <? _); [done|].
  destruct (r block) as [buf|]; [|done]. apply other_res_bind; [apply other_header|]. intros h. apply other_res_bind; [unfold verify_block; by destruct v, (VerifyChainChecksum buf n)|].
  intros _. apply other_res_bind; [apply IH|]. done.
Qed.

Section errors.
Context {W : Type} {XW : XattrWorld W}.

Lemma other_bind {A B} (m : XM W A) (k : A -> XM W B) : other_errors m -> (forall a, other_errors (k a)) -> other_errors (m ≫= k).
Proof. intros Hm Hk w w'. unfold mbind, XM_bind. destruct (m w) as [w1 [a|e|]] eqn:E; [apply Hk|intros [= -> ->]; by apply (Hm w w')|done]. Qed.
Lemma other_lift {A} (x : res xattr_error A) : other_res x -> other_errors (xlift (W := W) x).
Proof. intros Hx w w' [= _ E]. by apply Hx. Qed.
Lemma other_mret {A} (a : A) : other_errors (mret (M := XM W) a).
Proof. done. Qed.
Lemma other_call e (f : W -> W * bool) : e <> absent -> other_errors (call e f).
Proof. intros He w w'. unfold call. destruct (f w) as [w1 []]; [intros [= _ E]; by apply He|done]. Qed.
Lemma other_each {A} (f : A -> XM W unit) l : (forall a, other_errors (f a)) -> other_errors (each f l).
Proof. intros Hf. induction l as [|a l IH]; [done|]. apply other_bind; [apply Hf|]. by intros _. Qed.
Lemma other_failWrite {A} (m : XM W A) : other_errors m -> other_errors (failWrite m).
Proof. intros Hm w w'. unfold failWrite. destruct (m w) as [w1 [a|e|]] eqn:E; [done| |done]. intros [= _ ->]. by apply (Hm w w1). Qed.

Lemma other_alloc n : forall allocated abs, other_errors (alloc_blocks (W := W) n allocated abs).
Proof.
  induction n as [|n IH]; intros allocated abs w w'; cbn [alloc_blocks]; [done|]. destruct (xw_alloc w) as [w1 rel]. destruct (rel =? 0); [done|apply IH].
Qed.
Lemma index_other {A} (l : list A) i : other_res (index l i).
Proof. unfold index, other_res. repeat case_match; done. Qed.
Lemma other_serialize d kvs abs i n : other_res (serializeXattrBlock d kvs abs i n).
Proof.
  assert (Hsub : forall l a b, other_res (subslice l a b)) by (intros l a b; unfold subslice; by destruct (_ && _)).
  assert (Hcopy : forall l a b, other_res (copy_at l a b)) by (intros l a b; unfold copy_at; by destruct (_ <=? _)).
  assert (Hes : forall idxs j off buf, other_res (serialize_entries kvs d idxs j off buf)).
  { induction idxs as [|ix idxs IH]; intros j off buf; [done|]. cbn [serialize_entries]. apply other_res_bind; [|intros [? ?]; apply IH]. unfold serialize_entry.
    apply other_res_bind; [apply index_other|]. intros kv. apply other_res_bind; [apply index_other|]. intros il. apply other_res_bind; [apply Hcopy|]. intros buf1.
    apply other_res_bind; [destruct (_ || _); [done|]; apply other_res_bind; [apply Hsub|]; intros part; by apply other_res_bind; [apply Hcopy|]|]. intros [[b v] o]. by destruct (WriteXattrEntry _ _ _). }
  unfold serializeXattrBlock. apply other_res_bind.
  - destruct (xd_cont d).
    + apply other_res_bind; [apply index_other|]. intros kv. apply other_res_bind; [apply Hsub|]. intros part. by apply other_res_bind; [apply Hcopy|].
    + apply other_res_bind; [apply Hes|]. by intros [? ?].
  - intros [[[b u] f] c]. apply other_res_bind; [by destruct (WriteXattrHeader _ _)|]. intros b'. unfold seal. by destruct (SetBtreeNodeChecksum _ _).
Qed.
Lemma other_write kvs abs allocated : forall descs i bufs, other_errors (write_chain (W := W) kvs abs allocated i descs bufs).
Proof.
  induction descs as [|d descs IH]; intros i bufs; cbn [write_chain]; [done|]. apply other_bind; [apply other_lift, other_serialize|]. intros buf. apply other_bind; [apply other_lift, index_other|].
  intros block. apply other_bind; [|intros _; apply IH]. intros w w'. unfold write_or_undo. destruct (xw_write block buf w) as [w1 []]; done.
Qed.
Lemma other_commit in_ blocks oldHead freeOld : other_errors (commitXattrOp (W := W) in_ blocks oldHead freeOld).
Proof.
  unfold commitXattrOp. apply other_failWrite. apply other_bind; [apply other_each; intros [b buf]|intros _].
  { unfold journal_block. apply other_bind; [by apply other_call|]. intros _. apply other_bind; [apply other_lift; unfold subslice; by destruct (_ && _)|]. intros data. by apply other_call. }
  apply other_bind; [unfold journalInodeFull; apply other_bind; [apply other_lift, other_codec|]; intros raw; by apply other_call|]. intros _. apply other_bind.
  - destruct (_ || _); [|by apply other_call]. apply other_bind.
    + intros w w' [= _ E]. revert E. apply other_res_bind; [apply other_walk|done].
    + intros old. apply other_bind; [apply other_each; intros b; by apply other_call|]. intros _. apply other_bind; [by apply other_call|]. intros _. by apply other_each.
  - intros _. apply other_bind; [by apply other_call|]. intros _. apply other_bind; [by apply other_call|]. intros _. by apply other_call.
Qed.

Lemma setXattrLocked_only sec nsec fuel in_ name value flags w w' kvs bs : setXattrLocked (W := W) sec nsec fuel in_ name value flags w = (w', Err absent) ->
  load w in_ = Ret (kvs, bs) -> edit_entries kvs name value flags = Err absent.
Proof.
  intros E Hl. unfold setXattrLocked in E. rewrite (xbind_ret (loadM in_) _ w w (kvs, bs)) in E by (unfold loadM; by rewrite Hl).
  destruct (edit_entries kvs name value flags) as [kvs'|e|] eqn:Ee.
  - exfalso. rewrite (xbind_ret (xlift _) _ w w kvs') in E by done. revert E. revert w w' Hl. destruct (decide (kvs' = [])).
    + intros w w' _. cbv zeta. apply other_bind; [apply other_commit|done].
    + intros w w' _. revert w w'. apply other_bind.
      { apply other_lift. unfold buildXattrChain. destruct (decide (kvs' = [])); [done|]. destruct (plan_loop _ _ _ _ _); cbn; [by destruct (_ <? _)|done]. }
      intros descs. apply other_bind; [apply other_alloc|]. intros [al abs]. apply other_bind; [apply other_write|]. intros bufs. apply other_bind; [apply other_lift, index_other|].
      intros hd. apply other_bind; [apply other_lift, index_other|]. intros buf. cbv zeta. apply other_bind; [apply other_commit|done].
  - unfold mbind, XM_bind, xlift in E. by injection E as _ ->.
  - by apply edit_entries_no_panic in Ee.
Qed.

End errors.

Lemma edit_absent kvs name flags : edit_entries kvs name None flags = Err absent -> getXattrFromKvs kvs name = None.
Proof.
  unfold edit_entries. destruct (list_find _ kvs) as [[? ?]|] eqn:El; [done|]. intros _. apply list_find_None in El. unfold getXattrFromKvs.
  apply fmap_None. apply eq_None_not_Some. intros [kv Ef]. apply find_some in Ef as [Hin E%bool_decide_eq_true]. rewrite Forall_forall in El. apply (El kv); [by apply list_elem_of_In|done].
Qed.

Section volume.
Context {W : Type} {XW : XattrWorld W} (holds : W -> gset Z -> Prop) {HL : XattrLaws holds}.
Context (sec nsec : Z) (Hsec : is_u64 sec) (Hnsec : is_u64 nsec) (fuel : nat).
Context (w : W) (X : gset Z) (A : gmap Z (list xattrKV * list Z)) (Hw : attr_world holds w X A).

Lemma encode_nonempty s : entries_of s <> [].
Proof using. done. Qed.

(** The outcome of a store on the locked inode, as the handlers use it. *)
Lemma locked_store ino kvs bs in0 in_ name value : A !! ino = Some (kvs, bs) -> xw_inode w ino = Some in0 -> passed ino in0 in_ ->
  bytes name -> xlen name <= 255 -> (forall v, value = Some v -> bytes v /\ xlen v < 65536) -> forall flags,
  let '(w', x) := setXattrLocked sec nsec (S (S fuel)) in_ name value flags w in
  match x with
  | Ret in' => xw_inode w' ino = Some in' /\ ino_Filemode in' = ino_Filemode in_ /\
      snd (getXattr ino name w') = match value with Some v => Ret v | None => Err (XErrno ENODATA) end
  | Err e => (w' = w /\ edit_entries kvs name value flags = Err e) \/ set_failed holds w X A w'
  | Panic => False
  end.
Proof using HL Hw Hsec Hnsec.
  intros HA Hi Hp Hn Hnl Hv flags. destruct (aw_stored _ _ _ _ Hw ino _ HA) as [in0' Hst]. assert (in0' = in0) as -> by (pose proof (sd_inode _ _ _ _ _ Hst); congruence).
  destruct (edit_entries kvs name value flags) as [kvs'|e|] eqn:Ee; [| |by apply edit_entries_no_panic in Ee].
  - pose proof (setXattrLocked_spec holds sec nsec Hsec Hnsec fuel w X A Hw ino kvs bs in0 in_ name value flags kvs' HA Hst Hp Hn Hnl Hv Ee) as Hc. unfold xwp in Hc.
    destruct (setXattrLocked sec nsec (S (S fuel)) in_ name value flags w) as [w' [in'|e|]]; [|by right|done].
    destruct Hc as ((off & size & ->) & bs' & X' & Hw' & _ & _ & Hin). split; [|split; [done|]].
    + rewrite Hin by apply Hst. by rewrite decide_True.
    + rewrite (getXattr_spec holds w' X' _ Hw' ino kvs' bs' name) by (done || by rewrite lookup_insert_eq). cbn [snd].
      destruct (sd_entries _ _ _ _ _ Hst) as (_ & Hnd & _). rewrite (edit_entries_get _ _ _ _ _ name Hnd Ee). by rewrite decide_True.
  - rewrite (setXattrLocked_refused sec nsec fuel w in_ kvs bs name value flags e); [by left| |done]. unfold load. rewrite (proj2 (proj2 Hp)). apply Hst.
Qed.

(** C24 Storing an access ACL through the handler: when it succeeds, the
    attribute is the new ACL and the permission bits of the mode are those the
    ACL implies, with the file type and the other special bits kept but for the
    set-group-id bit, which is cleared exactly when the caller is neither in the
    group nor has CAP_FOWNER; when it does not,
    the volume is as it was or read-only. *)
Theorem setXattrOp_sets_mode caller ino kvs bs in0 s flags (blob := encodePosixAcl (entries_of s)) : A !! ino = Some (kvs, bs) -> xw_inode w ino = Some in0 ->
  shape_ok s -> Forall entry_wf (entries_of s) -> xlen blob < 65536 ->
  let '(w', x) := setXattrOp sec nsec (S (S fuel)) caller ino aclAccessName (Some blob) flags w in
  match x with
  | Ret _ => snd (getXattr ino aclAccessName w') = Ret blob /\ exists in', xw_inode w' ino = Some in' /\
      Z.land (ino_Filemode in') sIRWXUGO = accessAclMode (entries_of s) /\
      Z.ldiff (ino_Filemode in') (Z.lor sIRWXUGO s_ISGID) = Z.ldiff (ino_Filemode in0) (Z.lor sIRWXUGO s_ISGID) /\
      Z.land (ino_Filemode in') s_ISGID = (if keeps_sgid caller in0 then Z.land (ino_Filemode in0) s_ISGID else 0)
  | Err _ => w' = w \/ set_failed holds w X A w'
  | Panic => False
  end.
Proof using HL Hw Hsec Hnsec.
  intros HA Hi Hs He Hl. destruct (aw_stored _ _ _ _ Hw ino _ HA) as [in0' Hst]. assert (in0' = in0) as -> by (pose proof (sd_inode _ _ _ _ _ Hst); congruence).
  unfold setXattrOp. rewrite bool_decide_true by done. cbn [mbind option_bind]. unfold blob. rewrite decode_encode by done. fold blob. cbn [default from_option id].
  unfold xattrMaxValueLen. rewrite (proj2 (Z.ltb_ge _ _)) by lia. destruct (xw_frozen w); [by left|].
  rewrite (xbind_ret (read_inode ino) _ w w in0) by (unfold read_inode; by rewrite Hi). destruct (acl_mode_spec caller in0 s (sd_wf _ _ _ _ _ Hst) Hs) as (M1 & M2 & M3).
  set (in1 := set_mode in0 (acl_mode caller in0 (entries_of s))). destruct names_ok as (N1 & N2 & _).
  pose proof (locked_store ino kvs bs in0 in1 aclAccessName (Some blob) HA Hi) as Hc. specialize (Hc (conj (set_mode_wf _ _ (sd_wf _ _ _ _ _ Hst) M1) (conj (sd_ino _ _ _ _ _ Hst) eq_refl)) N1 N2).
  specialize (Hc ltac:(intros v [= <-]; split; [apply bytes_encode|exact Hl]) flags). unfold mbind, XM_bind.
  destruct (setXattrLocked sec nsec (S (S fuel)) in1 aclAccessName (Some blob) flags w) as [w' [in'|e|]]; [|by destruct Hc as [[-> _]|Hc]; [left|right]|done].
  destruct Hc as (C1 & C2 & C3). split; [exact C3|]. exists in'. split; [exact C1|]. rewrite C2. split; [exact M2|exact M3].
Qed.

(** C25 After a chmod the stored access ACL agrees with the mode: syncing it
    either leaves the volume alone, because the ACL says the permission bits
    already, or stores an ACL that does; it changes no bit of the mode. *)
Theorem syncAccessAclToMode_correct ino kvs bs in0 in_ s (blob := encodePosixAcl (entries_of s)) : A !! ino = Some (kvs, bs) -> xw_inode w ino = Some in0 -> passed ino in0 in_ ->
  shape_ok s -> Forall entry_wf (entries_of s) -> xlen blob < 65536 -> getXattrFromKvs kvs aclAccessName = Some blob ->
  let '(w', x) := syncAccessAclToMode sec nsec (S (S fuel)) in_ w in
  match x with
  | Ret in' => ino_Filemode in' = ino_Filemode in_ /\ exists s', snd (getXattr ino aclAccessName w') = Ret (encodePosixAcl (entries_of s')) /\
      accessAclMode (entries_of s') = Z.land (ino_Filemode in_) sIRWXUGO
  | Err _ => set_failed holds w X A w'
  | Panic => False
  end.
Proof using HL Hw Hsec Hnsec.
  intros HA Hi Hp Hs He Hl Hget. destruct (aw_stored _ _ _ _ Hw ino _ HA) as [in0' Hst]. assert (in0' = in0) as -> by (pose proof (sd_inode _ _ _ _ _ Hst); congruence).
  destruct names_ok as (N1 & N2 & _). unfold syncAccessAclToMode. rewrite (xbind_ret (loadM in_) _ w w (kvs, bs)) by (unfold loadM, load; rewrite (proj2 (proj2 Hp)); f_equal; apply Hst).
  rewrite Hget. unfold blob. rewrite decode_encode by done. fold blob. cbn [mbind option_bind]. set (m := Z.land (ino_Filemode in_) sIRWXUGO). rewrite (chmod_eval s m Hs).
  assert (Hm : Z.land m sIRWXUGO = m) by (unfold m; rewrite <- Z.land_assoc; by rewrite Z.land_diag).
  assert (Hacc : accessAclMode (entries_of (chmod_shape s m)) = m) by (rewrite chmod_access by done; exact Hm). set (blob' := encodePosixAcl (entries_of (chmod_shape s m))).
  assert (Hl' : xlen blob' = xlen blob).
  { unfold xlen, blob', blob, encodePosixAcl. rewrite !length_app, !length_encode_entries. unfold entries_of, chmod_shape. cbn. rewrite !length_app. cbn. rewrite !length_app. by destruct (sh_k s). }
  case_bool_decide as Eb.
  - unfold mret, XM_ret. split; [done|]. exists (chmod_shape s m). split; [|exact Hacc]. fold blob'. rewrite Eb. rewrite (getXattr_spec holds w X A Hw ino kvs bs aclAccessName HA N2). by rewrite Hget.
  - pose proof (locked_store ino kvs bs in0 in_ aclAccessName (Some blob') HA Hi Hp N1 N2 ltac:(intros v [= <-]; split; [apply bytes_encode|lia]) 0) as Hc.
    destruct (setXattrLocked sec nsec (S (S fuel)) in_ aclAccessName (Some blob') 0 w) as [w' [in'|e|]]; [| |done].
    + destruct Hc as (C1 & C2 & C3). split; [exact C2|]. exists (chmod_shape s m). by split.
    + destruct Hc as [[-> Ee]|Hc]; [|exact Hc]. exfalso. revert Ee. unfold edit_entries. destruct (list_find _ kvs) as [[? ?]|]; done.
Qed.

Lemma killed_mode_spec caller in_ (m := killed_mode caller in_) (f := ino_Filemode in_) : 0 <= f < 2 ^ 32 ->
  is_u32 m /\ Z.ldiff m (Z.lor s_ISUID s_ISGID) = Z.ldiff f (Z.lor s_ISUID s_ISGID) /\ (hasCap caller capFSetIDBit = true -> m = f) /\
  (hasCap caller capFSetIDBit = false -> Z.land m s_ISUID = 0 /\
    (Z.land f s_IXGRP <> 0 \/ inGroup caller (ino_Gid in_) = false -> Z.land m s_ISGID = 0) /\
    (Z.land f s_IXGRP = 0 -> inGroup caller (ino_Gid in_) = true -> Z.land m s_ISGID = Z.land f s_ISGID)).
Proof using.
  intros Hf. unfold m, killed_mode. fold f. destruct (hasCap caller capFSetIDBit); [by split_and!|].
  set (c1 := if negb (Z.land f s_ISUID =? 0) then s_ISUID else 0). match goal with |- context [Z.ldiff f ?c] => set (c2 := c) end.
  split; [by apply ldiff_range|]. assert (Hc : c2 = 0 \/ c2 = s_ISUID \/ c2 = s_ISGID \/ c2 = Z.lor s_ISUID s_ISGID).
  { unfold c2, c1. destruct (negb (Z.land f s_ISUID =? 0)), (negb (Z.land f s_ISGID =? 0) && _); cbn; auto. }
  split; [|split; [done|intros _; split; [|split]]].
  - apply Z.bits_inj'. intros n Hn. rewrite !Z.ldiff_spec. destruct (Z.testbit f n); [|done]. cbn.
    destruct Hc as [-> | [-> | [-> | ->]]]; rewrite ?Z.bits_0, ?Z.lor_spec; by destruct (Z.testbit s_ISUID n), (Z.testbit s_ISGID n).
  - apply Z.bits_inj'. intros n Hn. rewrite Z.land_spec, Z.ldiff_spec, Z.bits_0. destruct (Z.testbit s_ISUID n) eqn:En; [|by rewrite andb_false_r]. rewrite andb_true_r.
    unfold c2, c1. destruct (Z.eqb_spec (Z.land f s_ISUID) 0) as [E0|E0]; cbn [negb].
    + assert (Hz : Z.testbit (Z.land f s_ISUID) n = false) by (rewrite E0; apply Z.bits_0). rewrite Z.land_spec, En, andb_true_r in Hz. by rewrite Hz.
    + destruct (negb _ && _); [rewrite Z.lor_spec|]; rewrite En; cbn; by rewrite andb_false_r.
  - intros Hg. apply Z.bits_inj'. intros n Hn. rewrite Z.land_spec, Z.ldiff_spec, Z.bits_0. destruct (Z.testbit s_ISGID n) eqn:En; [|by rewrite andb_false_r]. rewrite andb_true_r.
    unfold c2. destruct (Z.eqb_spec (Z.land f s_ISGID) 0) as [E0|E0]; cbn [negb andb].
    + assert (Hz : Z.testbit (Z.land f s_ISGID) n = false) by (rewrite E0; apply Z.bits_0). rewrite Z.land_spec, En, andb_true_r in Hz. by rewrite Hz.
    + assert (Hor : negb (Z.land f s_IXGRP =? 0) || negb (inGroup caller (ino_Gid in_)) = true).
      { destruct Hg as [Hg| ->]; [by rewrite (proj2 (Z.eqb_neq _ _) Hg)|by rewrite orb_true_r]. }
      rewrite Hor, Z.lor_spec, En, orb_true_r. cbn. by rewrite andb_false_r.
  - intros Hx Hi. assert (Hc2 : c2 = c1) by (unfold c2; rewrite Hx, Hi; by rewrite andb_false_r). rewrite Hc2. apply Z.bits_inj'. intros n Hn. rewrite !Z.land_spec, Z.ldiff_spec.
    destruct (Z.testbit s_ISGID n) eqn:En; [|by rewrite !andb_false_r]. assert (Hd : Z.land s_ISUID s_ISGID = 0) by reflexivity.
    assert (E1 : Z.testbit s_ISUID n = false) by (assert (Hz : Z.testbit (Z.land s_ISUID s_ISGID) n = false) by (rewrite Hd; apply Z.bits_0); by rewrite Z.land_spec, En, andb_true_r in Hz).
    unfold c1. destruct (negb _); rewrite ?E1, ?Z.bits_0; cbn; by rewrite !andb_true_r.
Qed.

(** C39 A write by an unprivileged caller drops the privileges of a regular file:
    the set-user-id bit, the set-group-id bit exactly where the file is group
    executable or the caller outside its group, and, for every caller, the file
    capabilities; the other bits of the mode stay. *)
Theorem removePrivs_correct caller ino kvs bs in0 in_ : A !! ino = Some (kvs, bs) -> xw_inode w ino = Some in0 -> passed ino in0 in_ -> IsFile in_ = true ->
  let '(w', x) := removePrivs sec nsec (S (S fuel)) caller in_ w in
  match x with
  | Ret in' => snd (getXattr ino (str "security.capability") w') = Err (XErrno ENODATA) /\
      Z.ldiff (ino_Filemode in') (Z.lor s_ISUID s_ISGID) = Z.ldiff (ino_Filemode in_) (Z.lor s_ISUID s_ISGID) /\
      (hasCap caller capFSetIDBit = true -> ino_Filemode in' = ino_Filemode in_) /\
      (hasCap caller capFSetIDBit = false -> Z.land (ino_Filemode in') s_ISUID = 0 /\
        (Z.land (ino_Filemode in_) s_IXGRP <> 0 \/ inGroup caller (ino_Gid in_) = false -> Z.land (ino_Filemode in') s_ISGID = 0) /\
        (Z.land (ino_Filemode in_) s_IXGRP = 0 -> inGroup caller (ino_Gid in_) = true -> Z.land (ino_Filemode in') s_ISGID = Z.land (ino_Filemode in_) s_ISGID))
  | Err _ => set_failed holds w X A w'
  | Panic => False
  end.
Proof using HL Hw Hsec Hnsec.
  intros HA Hi (Hp1 & Hp2 & Hp3) Hf. destruct (aw_stored _ _ _ _ Hw ino _ HA) as [in0' Hst]. assert (in0' = in0) as -> by (pose proof (sd_inode _ _ _ _ _ Hst); congruence).
  unfold removePrivs. rewrite Hf. cbn [negb]. set (in1 := set_mode in_ (killed_mode caller in_)). destruct (killed_mode_spec caller in_ (filemode_range in_ Hp1)) as (M1 & M2).
  destruct names_ok as (_ & _ & N3 & N4). pose proof (getXattr_spec holds w X A Hw ino kvs bs _ HA N4) as Hg. change (ino_XattrOffset in1) with (ino_XattrOffset in_).
  destruct (Z.eqb_spec (ino_XattrOffset in_) 0) as [E0|E0].
  - unfold mret, XM_ret. split; [|exact M2]. rewrite Hg. pose proof (sd_load _ _ _ _ _ Hst) as Hld. rewrite load_none in Hld by congruence. injection Hld as <- <-. done.
  - pose proof (locked_store ino kvs bs in0 in1 (str "security.capability") None HA Hi) as Hc.
    specialize (Hc (conj (set_mode_wf _ _ Hp1 M1) (conj Hp2 Hp3)) N3 N4 ltac:(done) 0).
    pose proof (fun w' => setXattrLocked_only sec nsec (S (S fuel)) in1 (str "security.capability") None 0 w w' kvs bs) as Hnd.
    assert (Hld : load w in1 = Ret (kvs, bs)) by (unfold load; change (ino_XattrOffset in1) with (ino_XattrOffset in_); rewrite Hp3; apply Hst).
    destruct (setXattrLocked sec nsec (S (S fuel)) in1 (str "security.capability") None 0 w) as [w' [in'|e|]] eqn:El; [| |done].
    + destruct Hc as (C1 & C2 & C3). rewrite C2. by split.
    + assert (Habs : e = absent -> w' = w /\ getXattrFromKvs kvs (str "security.capability") = None).
      { intros ->. pose proof (Hnd w' eq_refl Hld) as Ee. rewrite (setXattrLocked_refused sec nsec fuel w in1 kvs bs _ _ _ _ Hld Ee) in El. injection El as <-. split; [done|]. by apply (edit_absent _ _ 0). }
      destruct Hc as [[-> Ee]|Hc].
      * assert (He : e = absent) by (revert Ee; unfold edit_entries; destruct (list_find _ kvs) as [[? ?]|]; [done|by intros [= <-]]). destruct (Habs He) as [_ Hn]. rewrite He.
        split; [|exact M2]. rewrite Hg. cbn [snd]. by rewrite Hn.
      * destruct e as [| | | | | | | | | | | |[]]; try exact Hc. destruct (Habs eq_refl) as [-> Hn]. split; [|exact M2]. rewrite Hg. cbn [snd]. by rewrite Hn.
Qed.

Lemma create_type mode a : 0 <= a < 512 ->
  Z.lor (Z.lor (Z.ldiff (Z.land mode 4095) sIRWXUGO) (Z.land (Z.land mode 4095) a)) (Z.ldiff mode 4095) = Z.lor (Z.ldiff mode sIRWXUGO) (Z.land mode a).
Proof using.
  intros Ha. apply Z.bits_inj'. intros n Hn. bit_specs. change 4095 with (Z.ones 12). change sIRWXUGO with (Z.ones 9).
  destruct (decide (12 <= n)); [rewrite (Z.ones_spec_high 12), (Z.ones_spec_high 9), (high_bits a 9) by lia; cbn; rewrite ?andb_false_r, ?andb_true_r; cbn; by rewrite ?orb_false_r|].
  rewrite (Z.ones_spec_low 12) by lia. cbn. by rewrite !andb_true_r, andb_false_r, orb_false_r.
Qed.

(** C40 The mode of a new file: under a default ACL of the parent every permission
    bit that the ACL does not grant its class is removed, the other bits are kept
    and the umask plays no part; without one the umask is removed. *)
Theorem applyCreateMode_correct ino kvs bs parent mode umask : A !! ino = Some (kvs, bs) -> xw_inode w ino = Some parent -> 0 <= mode < 2 ^ 32 ->
  (getXattrFromKvs kvs aclDefaultName = None -> applyCreateMode parent mode umask w = (w, Ret (Z.ldiff mode (Z.land umask sIRWXUGO)))) /\
  forall s, shape_ok s -> Forall entry_wf (entries_of s) -> getXattrFromKvs kvs aclDefaultName = Some (encodePosixAcl (entries_of s)) ->
    applyCreateMode parent mode umask w = (w, Ret (Z.lor (Z.ldiff mode sIRWXUGO) (Z.land mode (accessAclMode (entries_of s))))).
Proof using Hw.
  intros HA Hi Hm. destruct (aw_stored _ _ _ _ Hw ino _ HA) as [in0' Hst]. assert (in0' = parent) as -> by (pose proof (sd_inode _ _ _ _ _ Hst); congruence).
  pose proof (sd_load _ _ _ _ _ Hst) as Hld. unfold applyCreateMode. split.
  - intros Hget. destruct (_ =? 0); [done|]. rewrite Hld, Hget. done.
  - intros s Hs He Hget. destruct (Z.eqb_spec (ino_XattrOffset parent) 0) as [E0|E0].
    { rewrite load_none in Hld by done. injection Hld as <- <-. done. }
    rewrite Hld, Hget. cbn [mbind option_bind]. rewrite decode_encode by done. cbn [mbind option_bind].
    assert (Hr : 0 <= Z.land mode 4095 < 2 ^ 32) by (change 4095 with (Z.ones 12); rewrite Z.land_ones by lia; pose proof (Z.mod_pos_bound mode (2 ^ 12)); lia).
    rewrite (createModeFromACL_masks s _ Hs Hr). cbn [mbind option_bind default from_option id]. by rewrite create_type by (by apply access_range).
Qed.

End volume.

(** ** A small volume

    An ACL with a named user and a mask, rw-, rw-, r--. *)
Definition sample_shape : shape :=
  mkShape (mkAcl aclTagUserObj 6 0) [mkAcl aclTagUser 7 1000] (mkAcl aclTagGroupObj 4 0) [] (Some (mkAcl aclTagMask 6 0)) (mkAcl aclTagOther 4 0).
Definition sample_blob : list Z := encodePosixAcl (entries_of sample_shape).
Definition plain_caller : callerCheck := mkCaller true 100 0 18 [].

Lemma sample_shape_ok : shape_ok sample_shape /\ Forall entry_wf (entries_of sample_shape).
Proof.
  split; [split; [reflexivity|apply Forall_cons_2; [reflexivity|apply Forall_nil_2]|reflexivity|apply Forall_nil_2|by intros k [= <-]|reflexivity|]|].
  - unfold perm_ok. cbn. split; [lia|]. split; [lia|]. split; [lia|]. intros k [= <-]. cbn. lia.
  - unfold entries_of. cbn. repeat (apply Forall_cons_2; [split; [reflexivity|unfold is_u16, is_u32; cbn; lia]|]). apply Forall_nil_2.
Qed.

Lemma acl_wire_roundtrip_witness : decodePosixAcl sample_blob = Some (entries_of sample_shape).
Proof. apply (acl_wire_roundtrip sample_blob (entries_of sample_shape)); [apply bytes_encode|]. split; [done|]. split; [apply sample_shape_ok|reflexivity]. Defined.

Lemma chmodAcl_correct_witness : exists s', chmodAcl (entries_of sample_shape) 416 = Some (entries_of s') /\ accessAclMode (entries_of s') = 416 /\ sh_us s' = [mkAcl aclTagUser 7 1000].
Proof. destruct (chmodAcl_correct sample_shape 416 (proj1 sample_shape_ok)) as (s' & E & _ & H & Hu & _). exists s'. split; [exact E|]. split; [exact H|exact Hu]. Defined.

#[local] Existing Instance sample_xattr.
#[local] Existing Instance sample_xattr_laws.

(** The volume with the ACL stored under a name at inode 5. *)
Definition sample_with (name : list Z) := setXattr 7 0 2 5 name (Some sample_blob) 0 sample_volume.

Lemma sample_with_attr name : bytes name -> xlen name <= 255 -> snd (sample_with name) = Ret tt -> exists in' X' bs',
  xw_inode (fst (sample_with name)) 5 = Some in' /\ codec_wf in' /\ ino_InodeNumber in' = 5 /\ ino_Filemode in' = 0x81A4 /\
  attr_world sample_ready (fst (sample_with name)) X' {[5 := ([mkKV name sample_blob], bs')]}.
Proof.
  intros Hn Hl E. assert (Hu : is_u64 7 /\ is_u64 0) by (unfold is_u64; lia).
  pose proof (setXattr_spec sample_ready 7 0 (proj1 Hu) (proj2 Hu) 0 sample_volume ∅ _ sample_attrs 5 [] [] name (Some sample_blob) 0 (lookup_singleton_eq _ _) Hn) as H.
  specialize (H ltac:(intros v Hv; injection Hv as <-; split; [apply bytes_encode|vm_compute; discriminate])). change (setXattr 7 0 2 5 name (Some sample_blob) 0 sample_volume) with (sample_with name) in H.
  destruct (sample_with name) as [w' x]. cbn [fst snd] in *. subst x. destruct (refused _ _ _ _ _); [by destruct H|].
  destruct H as (in_ & in' & kvs' & Ei & Ee & (off & size & ->) & bs' & X' & Hw & _ & _ & Hin). injection Ee as <-. rewrite insert_singleton_eq in Hw.
  assert (Ei' : xw_inode sample_volume 5 = Some (small_file 5)) by (vm_compute; reflexivity). rewrite Ei' in Ei. injection Ei as <-.
  assert (Hx : xw_inode w' 5 = Some (set_ctime (set_xattr (small_file 5) off size) 7 0)) by (apply Hin; apply small_in; lia).
  destruct (aw_stored _ _ _ _ Hw 5 _ (lookup_singleton_eq _ _)) as [i Hst]. assert (Ei2 : i = set_ctime (set_xattr (small_file 5) off size) 7 0) by (pose proof (sd_inode _ _ _ _ _ Hst) as Hs; rewrite Hx in Hs; by injection Hs).
  exists (set_ctime (set_xattr (small_file 5) off size) 7 0), X', bs'. split; [exact Hx|]. split; [rewrite <- Ei2; apply Hst|]. split; [reflexivity|]. split; [reflexivity|exact Hw].
Qed.

Lemma small_clock : is_u64 7 /\ is_u64 0.
Proof. unfold is_u64. lia. Qed.

Lemma sample_blob_short : xlen sample_blob < 65536.
Proof. vm_compute. reflexivity. Qed.

Lemma default_name_ok : bytes aclDefaultName /\ xlen aclDefaultName <= 255.
Proof. split; [apply bytesb_bytes; vm_compute; reflexivity|vm_compute; discriminate]. Qed.

Lemma sample_acls_stored : snd (sample_with aclAccessName) = Ret tt /\ snd (sample_with aclDefaultName) = Ret tt.
Proof. split; vm_compute; reflexivity. Qed.

Lemma sample_found name : getXattrFromKvs [mkKV name sample_blob] name = Some sample_blob.
Proof. unfold getXattrFromKvs. cbn. by rewrite bool_decide_true. Qed.

Definition sample_acl_set := setXattrOp 7 0 2 plain_caller 5 aclAccessName (Some sample_blob) 0 sample_volume.

Lemma setXattrOp_sets_mode_witness : snd sample_acl_set = Ret tt /\ exists in', xw_inode (fst sample_acl_set) 5 = Some in' /\ Z.land (ino_Filemode in') sIRWXUGO = 436.
Proof.
  assert (E : snd sample_acl_set = Ret tt) by (vm_compute; reflexivity). split; [exact E|].
  assert (Ei : xw_inode sample_volume 5 = Some (small_file 5)) by (vm_compute; reflexivity).
  pose proof (setXattrOp_sets_mode sample_ready 7 0 (proj1 small_clock) (proj2 small_clock) 0 sample_volume ∅ _ sample_attrs plain_caller 5 [] [] (small_file 5) sample_shape 0
    (lookup_singleton_eq _ _) Ei (proj1 sample_shape_ok) (proj2 sample_shape_ok) sample_blob_short) as H.
  change (setXattrOp 7 0 2 plain_caller 5 aclAccessName (Some (encodePosixAcl (entries_of sample_shape))) 0 sample_volume) with sample_acl_set in H.
  destruct sample_acl_set as [w' x]. cbn [fst snd] in *. subst x. destruct H as (_ & in' & H1 & H2 & _). exists in'. split; [exact H1|exact H2].
Defined.

Lemma syncAccessAclToMode_correct_witness : exists in_ s', xw_inode (fst (sample_with aclAccessName)) 5 = Some in_ /\
  let '(w', x) := syncAccessAclToMode 7 0 2 in_ (fst (sample_with aclAccessName)) in
  match x with
  | Ret _ => snd (getXattr 5 aclAccessName w') = Ret (encodePosixAcl (entries_of s')) /\ accessAclMode (entries_of s') = 420
  | Err _ => xw_frozen w' = true \/ exists X A, attr_world sample_ready w' X A
  | Panic => False
  end.
Proof.
  destruct names_ok as (N1 & N2 & _). destruct (sample_with_attr aclAccessName N1 N2 (proj1 sample_acls_stored)) as (in' & X' & bs' & Hi & Hwf & Hno & Hm & Hw). exists in'.
  pose proof (syncAccessAclToMode_correct sample_ready 7 0 (proj1 small_clock) (proj2 small_clock) 0 _ X' _ Hw 5 _ bs' in' in' sample_shape (lookup_singleton_eq _ _) Hi
    (conj Hwf (conj Hno eq_refl)) (proj1 sample_shape_ok) (proj2 sample_shape_ok) sample_blob_short (sample_found aclAccessName)) as H.
  set (w1 := fst (sample_with aclAccessName)) in *. clearbody w1. change (S (S 0)) with 2%nat in H. destruct (syncAccessAclToMode 7 0 2 in' w1) as [w' [x|e|]].
  - destruct H as (_ & s' & H1 & H2). exists s'. split; [exact Hi|]. split; [exact H1|]. rewrite H2, Hm. reflexivity.
  - exists sample_shape. split; [exact Hi|]. destruct H as [H|[H _]]; [by left|right; eauto].
  - destruct H.
Defined.

Lemma removePrivs_correct_witness : exists in_, xw_inode (fst (sample_with aclAccessName)) 5 = Some in_ /\
  let '(w', x) := removePrivs 7 0 2 plain_caller (set_mode in_ 0x89FD) (fst (sample_with aclAccessName)) in
  match x with
  | Ret in' => snd (getXattr 5 (str "security.capability") w') = Err (XErrno ENODATA) /\ Z.land (ino_Filemode in') s_ISUID = 0
  | Err _ => xw_frozen w' = true \/ exists X A, attr_world sample_ready w' X A
  | Panic => False
  end.
Proof.
  destruct names_ok as (N1 & N2 & _). destruct (sample_with_attr aclAccessName N1 N2 (proj1 sample_acls_stored)) as (in' & X' & bs' & Hi & Hwf & Hno & Hm & Hw). exists in'. split; [exact Hi|].
  pose proof (removePrivs_correct sample_ready 7 0 (proj1 small_clock) (proj2 small_clock) 0 _ X' _ Hw plain_caller 5 _ bs' in' (set_mode in' 0x89FD) (lookup_singleton_eq _ _) Hi
    (conj (set_mode_wf in' 0x89FD Hwf ltac:(unfold is_u32; lia)) (conj Hno eq_refl)) eq_refl) as H.
  set (w1 := fst (sample_with aclAccessName)) in *. clearbody w1. change (S (S 0)) with 2%nat in H. destruct (removePrivs 7 0 2 plain_caller (set_mode in' 0x89FD) w1) as [w' [x|e|]].
  - destruct H as (H1 & _ & _ & H2). split; [exact H1|]. apply (H2 eq_refl).
  - destruct H as [H|[H _]]; [by left|right; eauto].
  - destruct H.
Defined.

Lemma applyCreateMode_correct_witness : exists parent, xw_inode (fst (sample_with aclDefaultName)) 5 = Some parent /\
  snd (applyCreateMode parent 0x81FF 63 (fst (sample_with aclDefaultName))) = Ret 0x81B4.
Proof.
  destruct default_name_ok as [N1 N2]. destruct (sample_with_attr aclDefaultName N1 N2 (proj2 sample_acls_stored)) as (in' & X' & bs' & Hi & Hwf & Hno & Hm & Hw). exists in'. split; [exact Hi|].
  pose proof (applyCreateMode_correct sample_ready _ X' _ Hw 5 _ bs' in' 0x81FF 63 (lookup_singleton_eq _ _) Hi ltac:(lia)) as [_ H].
  rewrite (H sample_shape (proj1 sample_shape_ok) (proj2 sample_shape_ok) (sample_found aclDefaultName)). reflexivity.
Defined.
