(* ===== verification/Btree.v ===== *)
(** * The extent B+ tree: nodes and the walk (briefs/btree.go)

    The layout of a node (header, extents or index entries, trailing child,
    checksum), the descent [WalkBtree] with its fault policy and its cycle and
    depth guards, and [IterateInodeExtents].  The visitor and the fault hook are
    functions on a state of the caller's; the walk returns that state whether it
    succeeds or not, since callers keep what was recorded before a fault.

    The walk always returns, never panics on a device of full blocks, and visits
    no block twice.  On a tree that is stored on the device ([stored]) it is the
    preorder traversal of the tree. *)

From stdpp Require Import base numbers list option gmap.
From Stdlib Require Import ZArith Lia.
From S2P Require Import Prelude Codec Crc32c Inode.

Local Open Scope Z_scope.

(** ** Constants *)
Definition BtreeMagic : Z := 0x42545245.
Definition BtreeFlagLeaf : Z := 1.
Definition BtreeHeaderSize : nat := 24.
Definition BtreeLeafFanout : Z := 126.
Definition BtreeIdxFanout : Z := 253.
Definition BtreeTrailingChildOffset : nat := 4072.
Definition BtreeMaxDepth : Z := 16.

(** ** Node contents

    [buf[offset:]] panics when the offset is beyond the buffer. *)
Definition zero_header : BtreeNodeHeader := mkBtreeNodeHeader 0 0 0 0 0 0.
Definition zero_entry : BtreeIdxEntry := mkBtreeIdxEntry 0 0.

Definition UnmarshalBtreeHeader (buf : list Z) : BtreeNodeHeader := unmarshal_into zero_header buf.

Definition IsLeaf (h : BtreeNodeHeader) : bool := negb (Z.land (bn_Flags h) BtreeFlagLeaf =? 0).

Section contents.
Context {E : Type}.

Definition tail_at (buf : list Z) (offset : nat) : res E (list Z) :=
  if decide (offset <= length buf)%nat then Ret (drop offset buf) else Panic.

Definition ReadBtreeLeafExtent (buf : list Z) (i : nat) : res E Extent :=
  b ← tail_at buf (BtreeHeaderSize + i * 32); Ret (unmarshal_into zero_extent b).

Definition ReadBtreeIdxEntry (buf : list Z) (i : nat) : res E BtreeIdxEntry :=
  b ← tail_at buf (BtreeHeaderSize + i * 16); Ret (unmarshal_into zero_entry b).

Definition BtreeTrailingChild (buf : list Z) : res E Z :=
  if decide (BtreeTrailingChildOffset + 8 <= length buf)%nat
  then Ret (le_get (slice BtreeTrailingChildOffset (BtreeTrailingChildOffset + 8) buf)) else Panic.

Definition MarshalBtreeHeader (buf : list Z) (hdr : BtreeNodeHeader) : res E (list Z) :=
  if decide (BtreeHeaderSize <= length buf)%nat then Ret (blit 0 (Marshal hdr) buf) else Panic.

Definition PutBtreeLeafExtent (buf : list Z) (i : nat) (ext : Extent) : res E (list Z) :=
  _ ← tail_at buf (BtreeHeaderSize + i * 32);
  Ret (blit (BtreeHeaderSize + i * 32) (Marshal ext) buf).

Definition PutBtreeIdxEntry (buf : list Z) (i : nat) (e : BtreeIdxEntry) : res E (list Z) :=
  _ ← tail_at buf (BtreeHeaderSize + i * 16);
  Ret (blit (BtreeHeaderSize + i * 16) (Marshal e) buf).

Definition SetBtreeTrailingChild (buf : list Z) (child : Z) : res E (list Z) :=
  if decide (BtreeTrailingChildOffset + 8 <= length buf)%nat
  then Ret (blit BtreeTrailingChildOffset (le_put 8 child) buf) else Panic.

End contents.

(** ** The walk *)

(** The faults, each reported with the block it was found at. *)
Inductive btree_fault :=
| ErrBtreeBadChild
| ErrBtreeDepth
| ErrBtreeCycle
| ErrBtreeRead
| ErrBtreeBadMagic (magic : Z)
| ErrBtreeBadChecksum
| ErrBtreeCountOverflow (leaf : bool) (n : Z)
| ErrBtreeUnsorted (offset prev : Z).

Inductive walk_error (V : Type) :=
| WalkFault (block : Z) (f : btree_fault)
| WalkVisitor (e : V)
| WalkOutOfFuel.
Arguments WalkFault {V} block f.
Arguments WalkVisitor {V} e.
Arguments WalkOutOfFuel {V}.

Record BtreeNodeInfo := mkNodeInfo {
  ni_Block : Z; ni_Hdr : BtreeNodeHeader; ni_Buf : list Z; ni_Depth : Z; ni_IsRoot : bool;
  ni_ExpectedLevel : Z;
}.

(** A visitor changes the state [S]; an error of type [V] aborts the walk. *)
Record BtreeNodeVisitor (S V : Type) := mkVisitor {
  VisitNode : option (BtreeNodeInfo -> S -> S * option V);
  VisitLeaf : option (BtreeNodeInfo -> list Extent -> S -> S * option V);
}.
Arguments mkVisitor {S V}.
Arguments VisitNode {S V}.
Arguments VisitLeaf {S V}.

Record BtreeWalkOptions (S : Type) := mkWalkOptions {
  o_BlockSize : Z;
  o_VerifyCRC : bool;
  o_NullChildIsFault : bool;
  o_Tolerant : bool;
  o_OnFault : option (Z -> btree_fault -> S -> S);
}.
Arguments mkWalkOptions {S}.
Arguments o_BlockSize {S}.
Arguments o_VerifyCRC {S}.
Arguments o_NullChildIsFault {S}.
Arguments o_Tolerant {S}.
Arguments o_OnFault {S}.

(** The loop over a leaf's extents, [k] of them from position [i]. *)
Fixpoint leaf_extents (buf : list Z) (i k : nat) (prev : Z) : res btree_fault (list Extent) :=
  match k with
  | O => Ret []
  | Datatypes.S k =>
      ext ← ReadBtreeLeafExtent buf i;
      if (0 <? Z.of_nat i) && (ext_Offset ext <=? prev)
      then Err (ErrBtreeUnsorted (ext_Offset ext) prev)
      else rest ← leaf_extents buf (Datatypes.S i) k (ext_Offset ext); Ret (ext :: rest)
  end.

Section walk.
Context {S V : Type}.
(** [r off]: what [file.ReadAt] puts in a buffer of [BlockSize] bytes. *)
Context (r : Z -> option (list Z)) (opts : BtreeWalkOptions S) (v : BtreeNodeVisitor S V).

(** The walk's state: the visited blocks and the caller's state. *)
Definition WM : Type := gset Z * S -> (gset Z * S) * res (walk_error V) unit.

Definition wdone : WM := fun s => (s, Ret tt).
Definition wfail (e : walk_error V) : WM := fun s => (s, Err e).
Definition wpanic : WM := fun s => (s, Panic).

Definition wseq (m k : WM) : WM := fun s =>
  match m s with
  | (s', Ret _) => k s'
  | (s', x) => (s', x)
  end.

Definition wcall (f : S -> S * option V) : WM := fun '(vis, s) =>
  match f s with
  | (s', None) => ((vis, s'), Ret tt)
  | (s', Some e) => ((vis, s'), Err (WalkVisitor e))
  end.

Definition visit_node (info : BtreeNodeInfo) : WM :=
  match VisitNode v with Some f => wcall (f info) | None => wdone end.

Definition visit_leaf (info : BtreeNodeInfo) (exts : list Extent) : WM :=
  match VisitLeaf v with Some f => wcall (f info exts) | None => wdone end.

Definition fault (b : Z) (f : btree_fault) : WM := fun '(vis, s) =>
  if o_Tolerant opts
  then ((vis, match o_OnFault opts with Some g => g b f s | None => s end), Ret tt)
  else ((vis, s), Err (WalkFault b f)).

(** The loop over the [k] index entries from [i] on, then the trailing child. *)
Fixpoint walk_children (call : Z -> WM) (buf : list Z) (i k : nat) : WM :=
  match k with
  | O =>
      match BtreeTrailingChild (E := unit) buf with
      | Ret child => call child
      | _ => wpanic
      end
  | Datatypes.S k =>
      match ReadBtreeIdxEntry (E := unit) buf i with
      | Ret e => wseq (call (bi_Child e)) (walk_children call buf (Datatypes.S i) k)
      | _ => wpanic
      end
  end.

(** What [walkBtreeNode] does with the buffer it read. *)
Definition walk_node (call : Z -> Z -> WM) (block depth expectedLevel : Z) (isRoot : bool)
    (buf : list Z) : WM :=
  let hdr := UnmarshalBtreeHeader buf in
  if negb (bn_Magic hdr =? BtreeMagic) then fault block (ErrBtreeBadMagic (bn_Magic hdr)) else
  match (if o_VerifyCRC opts then VerifyBtreeNodeChecksum buf (o_BlockSize opts) else Ret tt) with
  | Err _ => fault block ErrBtreeBadChecksum
  | Panic => wpanic
  | Ret _ =>
      let info := mkNodeInfo block hdr buf depth isRoot expectedLevel in
      if IsLeaf hdr then
        if BtreeLeafFanout <? bn_NumKeys hdr
        then fault block (ErrBtreeCountOverflow true (bn_NumKeys hdr)) else
        match leaf_extents buf 0 (Z.to_nat (bn_NumKeys hdr)) 0 with
        | Err f => fault block f
        | Panic => wpanic
        | Ret exts => wseq (visit_node info) (visit_leaf info exts)
        end
      else if BtreeIdxFanout <? bn_NumKeys hdr
      then fault block (ErrBtreeCountOverflow false (bn_NumKeys hdr))
      else wseq (visit_node info)
             (walk_children (call (u16 (bn_Level hdr - 1))) buf 0 (Z.to_nat (bn_NumKeys hdr)))
  end.

(** [fuel] bounds the recursion; [WalkBtree] gives it more than the depth guard
    allows, see [WalkBtree_total]. *)
Fixpoint walkBtreeNode (fuel : nat) (block depth expectedLevel : Z) (isRoot : bool) : WM :=
  match fuel with
  | O => wfail WalkOutOfFuel
  | Datatypes.S fuel =>
      if block =? 0 then
        if o_NullChildIsFault opts then fault block ErrBtreeBadChild else wdone
      else if BtreeMaxDepth <? depth then fault block ErrBtreeDepth
      else fun '(vis, s) =>
        if decide (block ∈ vis) then fault block ErrBtreeCycle (vis, s) else
        let st := ({[block]} ∪ vis, s) in
        match r (int64 (u64 (block * o_BlockSize opts))) with
        | None => fault block ErrBtreeRead st
        | Some buf =>
            walk_node (fun level child => walkBtreeNode fuel child (depth + 1) level false)
              block depth expectedLevel isRoot buf st
        end
  end.

Definition WalkBtree (root : Z) (s : S) : S * res (walk_error V) unit :=
  match walkBtreeNode 18 root 0 0 true (∅, s) with
  | ((_, s'), x) => (s', x)
  end.

End walk.

(** ** The extents of an inode *)
Record InodeExtentVisitor (S V : Type) := mkExtentVisitor {
  iv_VisitNode : option (Z -> S -> S * option V);
  iv_VisitExtent : option (Extent -> S -> S * option V);
  iv_VisitLeafChunk : option (Z -> list Extent -> S -> S * option V);
}.
Arguments mkExtentVisitor {S V}.
Arguments iv_VisitNode {S V}.
Arguments iv_VisitExtent {S V}.
Arguments iv_VisitLeafChunk {S V}.

Section iterate.
Context {S V : Type}.
Context (r : Z -> option (list Z)) (v : InodeExtentVisitor S V).

(** [for _, ext := range extents { if err := v.VisitExtent(ext) ... }] *)
Fixpoint visit_extents (f : Extent -> S -> S * option V) (exts : list Extent) (s : S) : S * option V :=
  match exts with
  | [] => (s, None)
  | e :: exts =>
      match f e s with
      | (s', None) => visit_extents f exts s'
      | (s', Some err) => (s', Some err)
      end
  end.

Definition visit_all_extents (exts : list Extent) (s : S) : S * option V :=
  match iv_VisitExtent v with Some f => visit_extents f exts s | None => (s, None) end.

(** The visitor of the tree-backed case. *)
Definition tree_visitor : BtreeNodeVisitor S V :=
  mkVisitor
    (Some (fun info s => match iv_VisitNode v with Some f => f (ni_Block info) s | None => (s, None) end))
    (Some (fun info exts s =>
       match (match iv_VisitLeafChunk v with Some f => f (ni_Block info) exts s | None => (s, None) end) with
       | (s', None) => visit_all_extents exts s'
       | (s', Some err) => (s', Some err)
       end)).

Definition IterateInodeExtents (in_ : Inode) (blockSize : Z) (s : S) : S * res (walk_error V) unit :=
  if negb (Z.land (ino_Flags in_) InodeFlagInlineData =? 0) then (s, Ret tt) else
  if Z.land (ino_Flags in_) InodeFlagIndexed =? 0 then
    let maxExtents := if 8 <? ino_NumExtentsInline in_ then 8 else ino_NumExtentsInline in_ in
    match visit_all_extents (take (Z.to_nat maxExtents) (InlineExtents in_)) s with
    | (s', None) => (s', Ret tt)
    | (s', Some err) => (s', Err (WalkVisitor err))
    end
  else
    let root := ino_ExtentInlineBase in_ in
    if root =? 0 then (s, Ret tt) else
    WalkBtree r (mkWalkOptions blockSize true false false None) tree_visitor root s.

End iterate.

(** ** The walk returns *)
Section totality.
Context {S V : Type} (r : Z -> option (list Z)) (opts : BtreeWalkOptions S) (v : BtreeNodeVisitor S V).
Context (Hr : forall off buf, r off = Some buf -> Z.of_nat (length buf) = o_BlockSize opts).
Context (Hbs : 4096 <= o_BlockSize opts \/ (o_VerifyCRC opts = true /\ o_BlockSize opts < 4080)).

(** What the caller has seen of the walk: [seen] projects the list of nodes
    reported so far out of the caller's state. *)
Context (seen : S -> list Z).
Context (Hnode : forall f i s, VisitNode v = Some f -> seen (fst (f i s)) = seen s ++ [ni_Block i]).
Context (Hleaf : forall f i l s, VisitLeaf v = Some f -> seen (fst (f i l s)) = seen s).
Context (Hfault : forall f b e s, o_OnFault opts = Some f -> seen (f b e s) = seen s).

(** [m] does not panic or run out of fuel, fails with a fault only under the
    strict policy, and extends the list of nodes seen by nodes that were not
    visited before. *)
Definition good_error (e : walk_error V) : Prop :=
  match e with WalkFault _ _ => o_Tolerant opts = false | WalkVisitor _ => True | WalkOutOfFuel => False end.

Definition safe (m : @WM S V) : Prop := forall vis s,
  let '((vis', s'), x) := m (vis, s) in
  (match x with Ret _ => True | Err e => good_error e | Panic => False end) /\
  vis ⊆ vis' /\
  exists new, seen s' = seen s ++ new /\ NoDup new /\ (forall b, b ∈ new -> (b ∉ vis) /\ b ∈ vis').

Lemma safe_done : safe wdone.
Proof using.
  clear. intros vis s. simpl. split_and!; [done|done|]. exists []. rewrite app_nil_r.
  split_and!; [done|constructor|]. intros b Hb. by apply elem_of_nil in Hb.
Qed.

Lemma safe_fault b f : safe (fault opts b f).
Proof using Hfault.
  intros vis s. unfold fault. destruct (o_Tolerant opts) eqn:Et; simpl.
  - split_and!; [done..|]. exists []. rewrite app_nil_r. split_and!.
    + destruct (o_OnFault opts) as [g|]; [by apply Hfault|done].
    + constructor.
    + intros x Hx. by apply elem_of_nil in Hx.
  - split_and!; [done..|]. exists []. rewrite app_nil_r. split_and!; [done|constructor|].
    intros x Hx. by apply elem_of_nil in Hx.
Qed.

Lemma safe_wseq m k : safe m -> safe k -> safe (wseq m k).
Proof using.
  clear r v Hr Hbs Hnode Hleaf Hfault.
  intros Hm Hk vis s. unfold wseq. specialize (Hm vis s).
  destruct (m (vis, s)) as [[vis1 s1] x1]. destruct Hm as (Hx & Hv & n1 & E1 & N1 & B1).
  destruct x1 as [[]|e|]; [|split_and!; [done|done|by exists n1]..].
  specialize (Hk vis1 s1). destruct (k (vis1, s1)) as [[vis2 s2] x2].
  destruct Hk as (Hx2 & Hv2 & n2 & E2 & N2 & B2). split_and!; [done|set_solver|].
  exists (n1 ++ n2). rewrite E2, E1, app_assoc. split_and!; [done| |].
  - apply NoDup_app. split_and!; [done| |done]. intros b Hb1 Hb2.
    destruct (B1 b Hb1), (B2 b Hb2). done.
  - intros b [Hb|Hb]%elem_of_app; [destruct (B1 b Hb)|destruct (B2 b Hb)]; set_solver.
Qed.

Lemma safe_visit_leaf info exts : safe (visit_leaf v info exts).
Proof using Hleaf.
  clear r Hr Hbs Hnode Hfault.
  unfold visit_leaf. destruct (VisitLeaf v) as [f|]; [|apply safe_done].
  intros vis s. unfold wcall. pose proof (Hleaf f info exts s eq_refl) as Hs.
  destruct (f info exts s) as [s' [e|]]; simpl in *; (split_and!; [done..|]); exists [];
    rewrite app_nil_r; (split_and!; [done|constructor|]); intros b Hb; by apply elem_of_nil in Hb.
Qed.

(** The step of a node: its block is in [vis] already when it is reported. *)
Lemma safe_visit_node info k : safe k -> forall vis s,
  ni_Block info ∉ vis ->
  let '((vis', s'), x) := wseq (visit_node v info) k ({[ni_Block info]} ∪ vis, s) in
  (match x with Ret _ => True | Err e => good_error e | Panic => False end) /\
  vis ⊆ vis' /\
  exists new, seen s' = seen s ++ new /\ NoDup new /\ (forall b, b ∈ new -> (b ∉ vis) /\ b ∈ vis').
Proof using Hnode.
  clear r Hr Hbs Hleaf Hfault.
  intros Hk vis s Hb. unfold wseq, visit_node. set (b0 := ni_Block info) in *.
  destruct (VisitNode v) as [f|] eqn:Ef.
  - unfold wcall. pose proof (Hnode f info s eq_refl) as Hs.
    destruct (f info s) as [s1 [e|]]; simpl in Hs.
    + split_and!; [done|set_solver|]. exists [b0]. split_and!; [done|apply NoDup_singleton|].
      intros x ->%list_elem_of_singleton. set_solver.
    + specialize (Hk ({[b0]} ∪ vis) s1). destruct (k _) as [[vis2 s2] x2].
      destruct Hk as (Hx & Hv & new & E & N & B). split_and!; [done|set_solver|].
      exists (b0 :: new). rewrite E, Hs, <- app_assoc. split_and!; [done| |].
      * constructor; [|done]. intros Hin. destruct (B b0 Hin). set_solver.
      * intros x [->|Hx']%elem_of_cons; [set_solver|]. destruct (B x Hx'). set_solver.
  - simpl. specialize (Hk ({[b0]} ∪ vis) s). destruct (k _) as [[vis2 s2] x2].
    destruct Hk as (Hx & Hv & new & E & N & B). split_and!; [done|set_solver|].
    exists new. split_and!; [done|done|]. intros x Hx'. destruct (B x Hx'). set_solver.
Qed.

Lemma leaf_extents_total buf : (4096 <= length buf)%nat -> forall k i prev,
  (i + k <= 126)%nat -> leaf_extents buf i k prev <> Panic.
Proof using.
  clear. intros Hl. induction k as [|k IH]; intros i prev Hk; [done|]. cbn [leaf_extents].
  unfold ReadBtreeLeafExtent, tail_at. rewrite decide_True by (unfold BtreeHeaderSize; lia).
  cbn [mbind res_bind]. case_match; [done|]. specialize (IH (Datatypes.S i) (ext_Offset (unmarshal_into zero_extent (drop (BtreeHeaderSize + i * 32) buf)))).
  destruct (leaf_extents buf (Datatypes.S i) k _); [done|done|]. exfalso. apply IH; [lia|done].
Qed.

Lemma safe_children call buf : (4096 <= length buf)%nat -> (forall c, safe (call c)) -> forall k i,
  (i + k <= 253)%nat -> safe (walk_children call buf i k).
Proof using.
  clear r v Hr Hbs Hnode Hleaf Hfault. intros Hl Hc. induction k as [|k IH]; intros i Hk; cbn [walk_children].
  - unfold BtreeTrailingChild. rewrite decide_True by (unfold BtreeTrailingChildOffset; lia). apply Hc.
  - unfold ReadBtreeIdxEntry, tail_at. rewrite decide_True by (unfold BtreeHeaderSize; lia).
    cbn [mbind res_bind]. apply safe_wseq; [apply Hc|apply IH; lia].
Qed.

Lemma VerifyBtreeNodeChecksum_total buf :
  Z.of_nat (length buf) = o_BlockSize opts -> VerifyBtreeNodeChecksum buf (o_BlockSize opts) <> Panic.
Proof using Hbs.
  intros Hl. unfold VerifyBtreeNodeChecksum. rewrite checksum_offset. case_match; [done|].
  apply orb_false_iff in H as [_ H]. apply Z.ltb_ge in H. unfold ReadChainChecksum.
  rewrite checksum_offset, decide_True by lia. cbn [mbind res_bind]. by repeat case_match.
Qed.

Lemma safe_walk_node call block depth lvl isRoot buf : (forall l c, safe (call l c)) ->
  Z.of_nat (length buf) = o_BlockSize opts -> forall vis s, block ∉ vis ->
  let '((vis', s'), x) := walk_node opts v call block depth lvl isRoot buf ({[block]} ∪ vis, s) in
  (match x with Ret _ => True | Err e => good_error e | Panic => False end) /\
  vis ⊆ vis' /\
  exists new, seen s' = seen s ++ new /\ NoDup new /\
    (forall b, b ∈ new -> (b ∉ vis) /\ b ∈ vis').
Proof using Hbs Hnode Hleaf Hfault.
  clear r Hr. intros Hc Hl vis s Hb. unfold walk_node. set (hdr := UnmarshalBtreeHeader buf).
  assert (Hf : forall f,
    let '((vis', s'), x) := fault opts block f ({[block]} ∪ vis, s) in
    (match x with Ret _ => True | Err e => good_error e | Panic => False end) /\
    vis ⊆ vis' /\
    exists new, seen s' = seen s ++ new /\ NoDup new /\
      (forall b, b ∈ new -> (b ∉ vis) /\ b ∈ vis')).
  { intros f. pose proof (safe_fault block f ({[block]} ∪ vis) s) as Hs.
    destruct (fault opts block f _) as [[vis' s'] x]. destruct Hs as (Hx & Hv & new & E & N & B).
    split_and!; [done|set_solver|]. exists new. split_and!; [done..|]. intros b Hin.
    destruct (B b Hin). set_solver. }
  destruct (negb _); [apply Hf|]. pose proof (VerifyBtreeNodeChecksum_total buf Hl) as Hv0.
  assert (Hv : (if o_VerifyCRC opts then VerifyBtreeNodeChecksum buf (o_BlockSize opts) else Ret tt)
               <> Panic) by (by destruct (o_VerifyCRC opts)).
  assert (H4 : (if o_VerifyCRC opts then VerifyBtreeNodeChecksum buf (o_BlockSize opts) else Ret tt)
               = Ret tt -> (4096 <= length buf)%nat).
  { clear - Hbs Hl. destruct Hbs as [?|[-> Hlt]]; [intros; lia|]. unfold VerifyBtreeNodeChecksum.
    rewrite checksum_offset, (proj2 (Z.ltb_lt (o_BlockSize opts) _)), orb_true_r by lia. done. }
  destruct (if o_VerifyCRC opts then _ else _) as [[]|e|]; [|apply Hf|done].
  specialize (H4 eq_refl).
  set (info := mkNodeInfo block hdr buf depth isRoot lvl). change block with (ni_Block info).
  destruct (IsLeaf hdr).
  - destruct (BtreeLeafFanout <? bn_NumKeys hdr) eqn:El; [apply Hf|]. apply Z.ltb_ge in El.
    pose proof (leaf_extents_total buf H4 (Z.to_nat (bn_NumKeys hdr)) 0 0) as Ht.
    destruct (leaf_extents _ _ _ _) as [exts|f|]; [|apply Hf|].
    + apply safe_visit_node; [apply safe_visit_leaf|done].
    + exfalso. apply Ht; [unfold BtreeLeafFanout in El; lia|done].
  - destruct (BtreeIdxFanout <? bn_NumKeys hdr) eqn:El; [apply Hf|]. apply Z.ltb_ge in El.
    apply safe_visit_node; [|done]. apply safe_children; [done|done|unfold BtreeIdxFanout in El; lia].
Qed.

Lemma safe_walkBtreeNode fuel : forall block depth lvl isRoot,
  0 <= depth <= 17 -> 17 - depth < Z.of_nat fuel ->
  safe (walkBtreeNode r opts v fuel block depth lvl isRoot).
Proof using Hr Hbs Hnode Hleaf Hfault.
  induction fuel as [|fuel IH]; intros block depth lvl isRoot Hd Hfu; [lia|].
  cbn [walkBtreeNode]. destruct (block =? 0).
  { destruct (o_NullChildIsFault opts); [apply safe_fault|apply safe_done]. }
  destruct (BtreeMaxDepth <? depth) eqn:Ed; [apply safe_fault|].
  apply Z.ltb_ge in Ed. unfold BtreeMaxDepth in Ed.
  intros vis s. destruct (decide (block ∈ vis)) as [Hb|Hb].
  { apply (safe_fault block ErrBtreeCycle vis s). }
  destruct (r _) as [buf|] eqn:Er.
  - apply safe_walk_node; [|by apply Hr in Er|done]. intros l c. apply IH; lia.
  - pose proof (safe_fault block ErrBtreeRead ({[block]} ∪ vis) s) as Hs.
    destruct (fault opts block _ _) as [[vis' s'] x]. destruct Hs as (Hx & Hv & new & E & N & B).
    split_and!; [done|set_solver|]. exists new. split_and!; [done..|]. intros b Hin.
    destruct (B b Hin). set_solver.
Qed.

(** The nodes reported by a walk are pairwise distinct. *)
Lemma WalkBtree_safe root s :
  let '(s', x) := WalkBtree r opts v root s in
  (match x with Ret _ => True | Err e => good_error e | Panic => False end) /\
  exists new, seen s' = seen s ++ new /\ NoDup new.
Proof using Hr Hbs Hnode Hleaf Hfault.
  unfold WalkBtree. pose proof (safe_walkBtreeNode 18 root 0 0 true ltac:(lia) ltac:(lia) ∅ s) as H.
  destruct (walkBtreeNode _ _ _ _ _ _ _ _ _) as [[vis' s'] x].
  destruct H as (Hx & _ & new & E & N & _). split; [done|]. by exists new.
Qed.

End totality.

(** ** Trees on the device

    [tree h] is a tree whose leaves are [h] levels below the root. *)
Record leaf := mkLeaf { lf_block : Z; lf_next : Z; lf_exts : list Extent }.

Fixpoint tree (h : nat) : Type :=
  match h with O => leaf | Datatypes.S h => Z * list (tree h) end.

Definition t_block {h} : tree h -> Z :=
  match h with O => lf_block | Datatypes.S h => fst end.

(** The smallest key: the offset of the leftmost extent. *)
Fixpoint t_key {h} : tree h -> Z :=
  match h with
  | O => fun l => match lf_exts l with [] => 0 | e :: _ => ext_Offset e end
  | Datatypes.S h => fun t => match snd t with [] => 0 | k :: _ => t_key k end
  end.

(** The blocks of the nodes, parents first, and the leaves from left to right. *)
Fixpoint t_nodes {h} : tree h -> list Z :=
  match h with
  | O => fun l => [lf_block l]
  | Datatypes.S h => fun t => fst t :: concat (t_nodes <$> snd t)
  end.

Fixpoint t_leaves {h} : tree h -> list leaf :=
  match h with
  | O => fun l => [l]
  | Datatypes.S h => fun t => concat (t_leaves <$> snd t)
  end.

Definition t_extents {h} (t : tree h) : list Extent := concat (lf_exts <$> t_leaves t).

(** What a buffer says when it is read as a leaf or as an index node. *)
Definition leaf_header (n next : Z) : BtreeNodeHeader :=
  mkBtreeNodeHeader BtreeMagic BtreeFlagLeaf 0 n 0 next.
Definition index_header (level n : Z) : BtreeNodeHeader :=
  mkBtreeNodeHeader BtreeMagic 0 level n 0 0.

Definition reads_leaf (buf : list Z) (next : Z) (exts : list Extent) : Prop :=
  UnmarshalBtreeHeader buf = leaf_header (Z.of_nat (length exts)) next /\
  VerifyBtreeNodeChecksum buf 4096 = Ret tt /\
  (length exts <= 126)%nat /\
  leaf_extents buf 0 (length exts) 0 = Ret exts.

(** Entry [i] holds child [i] and the key of child [i+1]. *)
Definition reads_index (buf : list Z) (level : Z) (kids keys : list Z) : Prop :=
  UnmarshalBtreeHeader buf = index_header level (Z.of_nat (length kids) - 1) /\
  VerifyBtreeNodeChecksum buf 4096 = Ret tt /\
  (1 <= length kids <= 254)%nat /\ length keys = length kids /\
  (forall i c k, kids !! i = Some c -> keys !! Datatypes.S i = Some k ->
     forall E, ReadBtreeIdxEntry (E := E) buf i = Ret (mkBtreeIdxEntry c k)) /\
  (forall c E, last kids = Some c -> BtreeTrailingChild (E := E) buf = Ret c).

Section stored.
Context {S V : Type} (r : Z -> option (list Z)) (opts : BtreeWalkOptions S) (v : BtreeNodeVisitor S V).
Context (Hbs : o_BlockSize opts = 4096).

Definition at_block (b : Z) : option (list Z) := r (int64 (u64 (b * 4096))).

Fixpoint stored {h} : tree h -> Prop :=
  match h with
  | O => fun l => exists buf, at_block (lf_block l) = Some buf /\ reads_leaf buf (lf_next l) (lf_exts l)
  | Datatypes.S h => fun t =>
      (exists buf, at_block (fst t) = Some buf /\
         reads_index buf (Z.of_nat (Datatypes.S h)) (t_block <$> snd t) (t_key <$> snd t)) /\
      Forall stored (snd t)
  end.

(** What the visitor sees of a stored tree, in order. *)
Inductive event :=
| EvNode (i : BtreeNodeInfo)
| EvLeaf (i : BtreeNodeInfo) (exts : list Extent).

Definition run_event (e : event) (s : S) : S * option V :=
  match e with
  | EvNode i => match VisitNode v with Some f => f i s | None => (s, None) end
  | EvLeaf i exts => match VisitLeaf v with Some f => f i exts s | None => (s, None) end
  end.

Fixpoint run_events (es : list event) (s : S) : S * option V :=
  match es with
  | [] => (s, None)
  | e :: es =>
      match run_event e s with
      | (s', None) => run_events es s'
      | (s', Some x) => (s', Some x)
      end
  end.

Fixpoint t_events {h} : tree h -> Z -> Z -> bool -> list event :=
  match h with
  | O => fun l depth lvl isRoot =>
      let i := mkNodeInfo (lf_block l) (leaf_header (Z.of_nat (length (lf_exts l))) (lf_next l))
                 (default [] (at_block (lf_block l))) depth isRoot lvl in
      [EvNode i; EvLeaf i (lf_exts l)]
  | Datatypes.S h => fun t depth lvl isRoot =>
      let level := Z.of_nat (Datatypes.S h) in
      let i := mkNodeInfo (fst t) (index_header level (Z.of_nat (length (snd t)) - 1))
                 (default [] (at_block (fst t))) depth isRoot lvl in
      EvNode i :: concat ((fun k => t_events k (depth + 1) (u16 (level - 1)) false) <$> snd t)
  end.

Lemma run_events_app es es' s :
  run_events (es ++ es') s
  = match run_events es s with
    | (s', None) => run_events es' s'
    | (s', Some x) => (s', Some x)
    end.
Proof using.
  clear. revert s. induction es as [|e es IH]; intros s; [done|]. simpl.
  destruct (run_event e s) as [s' [x|]]; [done|apply IH].
Qed.

(** [m] does what the events [es] do, and marks the blocks [bs]. *)
Definition performs (m : WM) (vis : gset Z) (s : S) (es : list event) (bs : gset Z) : Prop :=
  match run_events es s with
  | (s', None) => m (vis, s) = ((bs ∪ vis, s'), Ret tt)
  | (s', Some x) => exists vis', m (vis, s) = ((vis', s'), Err (WalkVisitor x))
  end.

Lemma performs_wseq m k vis s es es' bs bs' :
  performs m vis s es bs -> (forall s', performs k (bs ∪ vis) s' es' bs') ->
  performs (wseq m k) vis s (es ++ es') (bs ∪ bs').
Proof using.
  clear. unfold performs, wseq. rewrite run_events_app. intros Hm Hk.
  destruct (run_events es s) as [s1 [x|]].
  - destruct Hm as [vis' ->]. by exists vis'.
  - rewrite Hm. specialize (Hk s1). destruct (run_events es' s1) as [s2 [x|]]; [done|].
    rewrite Hk. do 2 f_equal. set_solver.
Qed.

Lemma performs_node i vis s : performs (visit_node v i) vis s [EvNode i] ∅.
Proof using.
  clear. unfold performs, visit_node, wcall. simpl.
  destruct (VisitNode v) as [f|]; [|by rewrite (left_id_L ∅ (∪))].
  destruct (f i s) as [s' [x|]]; [by eexists|]. by rewrite (left_id_L ∅ (∪)).
Qed.

Lemma performs_leaf i exts vis s : performs (visit_leaf v i exts) vis s [EvLeaf i exts] ∅.
Proof using.
  clear. unfold performs, visit_leaf, wcall. simpl.
  destruct (VisitLeaf v) as [f|]; [|by rewrite (left_id_L ∅ (∪))].
  destruct (f i exts s) as [s' [x|]]; [by eexists|]. by rewrite (left_id_L ∅ (∪)).
Qed.

(** A node that passes the checks, entered for the first time. *)
Lemma walk_enter fuel block depth lvl isRoot buf vis s :
  block <> 0 -> depth <= 16 -> block ∉ vis -> at_block block = Some buf ->
  walkBtreeNode r opts v (Datatypes.S fuel) block depth lvl isRoot (vis, s)
  = walk_node opts v (fun level child => walkBtreeNode r opts v fuel child (depth + 1) level false)
      block depth lvl isRoot buf ({[block]} ∪ vis, s).
Proof using Hbs.
  intros H0 Hd Hv Hr. cbn [walkBtreeNode].
  rewrite (proj2 (Z.eqb_neq _ _) H0), (proj2 (Z.ltb_ge _ _)) by (unfold BtreeMaxDepth; lia).
  rewrite decide_False by done. unfold at_block in Hr. by rewrite Hbs, Hr.
Qed.

Lemma crc_passes buf : VerifyBtreeNodeChecksum buf 4096 = Ret tt ->
  (if o_VerifyCRC opts then VerifyBtreeNodeChecksum buf (o_BlockSize opts) else Ret tt) = Ret tt.
Proof using Hbs. intros E. rewrite Hbs, E. by destruct (o_VerifyCRC opts). Qed.

Lemma walk_node_leaf call block depth lvl isRoot buf next exts vis s :
  reads_leaf buf next exts ->
  let i := mkNodeInfo block (leaf_header (Z.of_nat (length exts)) next) buf depth isRoot lvl in
  performs (walk_node opts v call block depth lvl isRoot buf) vis s [EvNode i; EvLeaf i exts] ∅.
Proof using Hbs.
  intros (Hh & Hc & Hl & Hx) i. unfold walk_node. rewrite Hh. cbn [leaf_header bn_Magic bn_NumKeys].
  rewrite Z.eqb_refl, crc_passes by done. cbn [negb].
  change (IsLeaf (leaf_header _ _)) with true. cbv iota.
  rewrite (proj2 (Z.ltb_ge _ _)) by (unfold BtreeLeafFanout; lia). rewrite Nat2Z.id, Hx.
  change [EvNode i; EvLeaf i exts] with ([EvNode i] ++ [EvLeaf i exts]).
  replace (∅ : gset Z) with (∅ ∪ ∅ : gset Z) by set_solver.
  apply performs_wseq; [apply performs_node|intros; apply performs_leaf].
Qed.

(** An index node that passes the checks. *)
Lemma walk_node_index call blk depth lvl isRoot buf level kids keys :
  reads_index buf level kids keys ->
  let i := mkNodeInfo blk (index_header level (Z.of_nat (length kids) - 1)) buf depth isRoot lvl in
  walk_node opts v call blk depth lvl isRoot buf
  = wseq (visit_node v i) (walk_children (call (u16 (level - 1))) buf 0 (length kids - 1)).
Proof using Hbs.
  intros (Hh & Hc & Hlen & _) i. unfold walk_node. rewrite Hh.
  cbn [index_header bn_Magic bn_NumKeys bn_Level]. rewrite Z.eqb_refl, crc_passes by done.
  cbn [negb]. change (IsLeaf (index_header _ _)) with false. cbv iota.
  rewrite (proj2 (Z.ltb_ge _ _)) by (unfold BtreeIdxFanout; lia).
  by replace (Z.to_nat (Z.of_nat (length kids) - 1)) with (length kids - 1)%nat by lia.
Qed.

Lemma performs_children {h} (call : Z -> WM) buf level (kids : list (tree h)) (es : tree h -> list event) :
  reads_index buf level (t_block <$> kids) (t_key <$> kids) ->
  (forall k vis s, k ∈ kids -> NoDup (t_nodes k) -> (forall b, b ∈ t_nodes k -> b ∉ vis) ->
     performs (call (t_block k)) vis s (es k) (list_to_set (t_nodes k))) ->
  forall rest pre vis s, kids = pre ++ rest -> rest <> [] ->
  NoDup (concat (t_nodes <$> rest)) -> (forall b, b ∈ concat (t_nodes <$> rest) -> b ∉ vis) ->
  performs (walk_children call buf (length pre) (length rest - 1)) vis s
    (concat (es <$> rest)) (list_to_set (concat (t_nodes <$> rest))).
Proof using.
  clear r opts Hbs. intros (_ & _ & _ & _ & Hent & Htr) Hcall.
  induction rest as [|k rest IH]; intros pre vis s Hk Hne Hnd Hv; [done|].
  csimpl in *. apply NoDup_app in Hnd as (Hnd1 & Hdis & Hnd2).
  assert (Hin : k ∈ kids) by (rewrite Hk; set_solver).
  assert (Hv1 : forall b, b ∈ t_nodes k -> b ∉ vis) by (intros b Hb; apply Hv; set_solver).
  destruct rest as [|k2 rest].
  - simpl. rewrite !app_nil_r. rewrite (Htr (t_block k)); [by apply Hcall|].
    rewrite Hk, fmap_app. simpl. by rewrite last_snoc.
  - cbn [length]. rewrite ?Nat.sub_succ, ?Nat.sub_0_r. cbn [walk_children].
    rewrite (Hent (length pre) (t_block k) (t_key k2)).
    + cbn [bi_Child]. rewrite list_to_set_app_L. apply performs_wseq; [by apply Hcall|].
      intros s'. specialize (IH (pre ++ [k]) (list_to_set (t_nodes k) ∪ vis) s').
      rewrite length_app, Nat.add_1_r in IH. cbn [length] in IH.
      rewrite ?Nat.sub_succ, ?Nat.sub_0_r in IH. apply IH; [by rewrite Hk, <- app_assoc|done|done|].
      intros b Hb. rewrite elem_of_union, elem_of_list_to_set. intros [Hb'|Hb'].
      * by apply (Hdis b).
      * apply (Hv b); [|done]. apply elem_of_app. by right.
    + rewrite Hk, fmap_app, lookup_app_r, length_fmap, Nat.sub_diag; [done|by rewrite length_fmap].
    + rewrite Hk, fmap_app, lookup_app_r, length_fmap by (rewrite length_fmap; lia).
      by replace (Datatypes.S (length pre) - length pre)%nat with 1%nat by lia.
Qed.

(** A walk of a stored tree is its preorder traversal. *)
Lemma walk_stored {h} : forall (t : tree h) fuel depth lvl isRoot vis s,
  stored t -> NoDup (t_nodes t) -> (forall b, b ∈ t_nodes t -> b <> 0 /\ b ∉ vis) ->
  0 <= depth -> depth + Z.of_nat h <= 16 -> (h < fuel)%nat ->
  performs (walkBtreeNode r opts v fuel (t_block t) depth lvl isRoot) vis s
    (t_events t depth lvl isRoot) (list_to_set (t_nodes t)).
Proof using Hbs.
  induction h as [|h IH]; intros t fuel depth lvl isRoot vis s Hst Hnd Hb Hd0 Hd Hf;
    (destruct fuel as [|fuel]; [lia|]).
  - destruct Hst as (buf & Hr & Hl). simpl in t. destruct (Hb (lf_block t)) as [H0 Hvis]; [set_solver|].
    unfold performs. cbn [t_block]. rewrite (walk_enter fuel _ depth lvl isRoot buf) by (done || lia).
    pose proof (walk_node_leaf (fun level child => walkBtreeNode r opts v fuel child (depth + 1) level false)
      (lf_block t) depth lvl isRoot buf _ _ ({[lf_block t]} ∪ vis) s Hl) as P.
    unfold performs in P. cbn [t_events]. rewrite Hr. cbn [default].
    destruct (run_events _ s) as [s' [x|]]; [done|]. rewrite P. do 2 f_equal. simpl. set_solver.
  - destruct t as [blk kids]. destruct Hst as ((buf & Hr & Hi) & Hst). cbn [fst snd t_nodes t_block] in *.
    destruct (Hb blk) as [H0 Hvis]; [set_solver|]. apply NoDup_cons in Hnd as [Hblk Hnd].
    set (i := mkNodeInfo blk (index_header (Z.of_nat (Datatypes.S h)) (Z.of_nat (length kids) - 1))
                buf depth isRoot lvl).
    set (call := fun level child => walkBtreeNode r opts v fuel child (depth + 1) level false).
    pose proof (walk_node_index call blk depth lvl isRoot buf _ _ _ Hi) as E.
    rewrite length_fmap in E. cbv zeta in E. fold i in E.
    assert (Hne : kids <> []) by (intros ->; destruct Hi as (_ & _ & Hlen & _); simpl in Hlen; lia).
    assert (P : performs (walk_node opts v call blk depth lvl isRoot buf) ({[blk]} ∪ vis) s
      (EvNode i :: concat ((fun k => t_events k (depth + 1) (u16 (Z.of_nat (Datatypes.S h) - 1)) false) <$> kids))
      (list_to_set (concat (t_nodes <$> kids)))).
    { rewrite E, <- (left_id_L ∅ (∪) (list_to_set _)).
      apply (performs_wseq _ _ _ _ [EvNode i]); [apply performs_node|].
      intros s'. apply performs_children with (pre := []) (level := Z.of_nat (Datatypes.S h)) (kids := kids);
        [done| |done|done|done|].
      - intros k vis' s2 Hk Hndk Hvk. rewrite Forall_forall in Hst.
        apply IH; [by apply Hst|done| |lia|lia|lia]. intros b Hbk. split; [|by apply Hvk].
        apply (Hb b). right. apply elem_of_concat. exists (t_nodes k).
        split; [done|]. by apply list_elem_of_fmap_2.
      - intros b Hbk. rewrite (left_id_L ∅ (∪)), elem_of_union, elem_of_singleton. intros [->|Hv']; [done|].
        by apply (Hb b); [right|]. }
    unfold performs in *. rewrite (walk_enter fuel _ depth lvl isRoot buf) by (done || lia). fold call.
    cbn [t_events fst snd]. rewrite Hr. cbn [default]. fold i.
    destruct (run_events _ s) as [s' [x|]]; [done|]. rewrite P. do 2 f_equal. set_solver.
Qed.

End stored.

(** ** Facts about stored trees *)

(** [stored] depends only on the blocks of the tree. *)
Lemma stored_ext (r r' : Z -> option (list Z)) {h} : forall t : tree h,
  (forall b, b ∈ t_nodes t -> at_block r' b = at_block r b) -> stored r t -> stored r' t.
Proof.
  induction h as [|h IH]; intros t Ha Hs.
  - destruct Hs as (buf & Hr & Hl). exists buf. split; [|done]. rewrite Ha; [done|]. simpl. set_solver.
  - destruct t as [b kids]. destruct Hs as ((buf & Hr & Hi) & Hk). cbn [t_nodes fst snd] in *. split.
    + exists buf. split; [|done]. cbn [fst]. rewrite Ha; [done|]. set_solver.
    + cbn [snd] in *. rewrite Forall_forall in *. intros k Hin. apply IH; [|by apply Hk].
      intros x Hx. apply Ha. right. apply elem_of_concat. exists (t_nodes k). split; [done|].
      by apply list_elem_of_fmap_2.
Qed.

Lemma t_block_node {h} (t : tree h) : t_block t ∈ t_nodes t.
Proof. destruct h; simpl; set_solver. Qed.

Lemma t_leaves_nodes {h} : forall (t : tree h) l, l ∈ t_leaves t -> lf_block l ∈ t_nodes t.
Proof.
  induction h as [|h IH]; intros t l Hl; cbn [t_leaves t_nodes] in *.
  - apply list_elem_of_singleton in Hl as ->. set_solver.
  - apply elem_of_concat in Hl as (ls & Hl & (k & -> & Hk)%list_elem_of_fmap). right.
    apply elem_of_concat. exists (t_nodes k). split; [by apply IH|by apply list_elem_of_fmap_2].
Qed.

(** The index nodes of a tree. *)
Fixpoint t_idx {h} : tree h -> list Z :=
  match h with
  | O => fun _ => []
  | Datatypes.S h => fun t => fst t :: concat (t_idx <$> snd t)
  end.

Lemma t_nodes_split {h} : forall t : tree h, t_nodes t ≡ₚ t_idx t ++ (lf_block <$> t_leaves t).
Proof.
  induction h as [|h IH]; intros t; [done|]. cbn [t_nodes t_idx t_leaves app]. constructor.
  generalize (snd t) as F. intros F. induction F as [|k F IHF]; [done|].
  rewrite !fmap_cons. cbn [concat]. rewrite fmap_app, IHF, (IH k), <- !app_assoc. f_equiv.
  rewrite !app_assoc. f_equiv. apply Permutation_app_comm.
Qed.

Lemma stored_leaves (r : Z -> option (list Z)) {h} : forall t : tree h,
  stored r t -> Forall (stored (h := 0) r) (t_leaves t).
Proof.
  induction h as [|h IH]; intros t Hs; [by constructor|].
  destruct Hs as [_ Hk]. cbn [t_leaves]. apply Forall_concat, Forall_fmap.
  eapply Forall_impl; [exact Hk|]. intros k. apply IH.
Qed.

(** A tree that a walk from [root] accepts. *)
Definition tree_at (r : Z -> option (list Z)) {h} (root : Z) (t : tree h) : Prop :=
  t_block t = root /\ stored r t /\ NoDup (t_nodes t) /\ Forall (fun b => b <> 0) (t_nodes t) /\
  (h <= 16)%nat.

Lemma WalkBtree_stored {S V} r (opts : BtreeWalkOptions S) (v : BtreeNodeVisitor S V) {h} (t : tree h) root s :
  o_BlockSize opts = 4096 -> tree_at r root t ->
  WalkBtree r opts v root s
  = match run_events v (t_events r t 0 0 true) s with
    | (s', None) => (s', Ret tt)
    | (s', Some x) => (s', Err (WalkVisitor x))
    end.
Proof.
  intros Hbs (<- & Hst & Hnd & Hnz & Hh). rewrite Forall_forall in Hnz.
  pose proof (walk_stored r opts v Hbs t 18 0 0 true ∅ s Hst Hnd) as P.
  unfold performs in P. unfold WalkBtree.
  destruct (run_events v (t_events r t 0 0 true) s) as [s' [x|]].
  - destruct P as [vis' ->]; [|lia|lia|lia|done]. intros b Hb. split; [by apply Hnz|set_solver].
  - rewrite P; [done| |lia|lia|lia]. intros b Hb. split; [by apply Hnz|set_solver].
Qed.

(** C35: On any device, whatever it holds, a walk returns: it neither panics nor
    exhausts the recursion bound of the model, it fails with a structural fault
    only under the strict policy, and the nodes it reports are pairwise
    distinct, so cyclic and overlapping trees end too.  The reader returns
    whole blocks; blocks shorter than 4080 bytes are refused by the checksum
    test before any entry is read. *)
Theorem WalkBtree_total {S V} r (opts : BtreeWalkOptions S) (v : BtreeNodeVisitor S V) (seen : S -> list Z) root s :
  (forall off buf, r off = Some buf -> Z.of_nat (length buf) = o_BlockSize opts) ->
  4096 <= o_BlockSize opts \/ (o_VerifyCRC opts = true /\ o_BlockSize opts < 4080) ->
  (forall f i s, VisitNode v = Some f -> seen (fst (f i s)) = seen s ++ [ni_Block i]) ->
  (forall f i l s, VisitLeaf v = Some f -> seen (fst (f i l s)) = seen s) ->
  (forall f b e s, o_OnFault opts = Some f -> seen (f b e s) = seen s) ->
  let '(s', x) := WalkBtree r opts v root s in
  (x = Ret tt \/ (exists b f, x = Err (WalkFault b f) /\ o_Tolerant opts = false) \/ exists e, x = Err (WalkVisitor e)) /\
  exists new, seen s' = seen s ++ new /\ NoDup new.
Proof.
  intros Hr Hbs Hn Hl Hf. pose proof (WalkBtree_safe r opts v Hr Hbs seen Hn Hl Hf root s) as H.
  destruct (WalkBtree r opts v root s) as [s' x]. destruct H as [Hx Hnew]. split; [|done].
  destruct x as [[]|[b f|e|]|]; [by left|right; left; by exists b, f|right; right; by exists e|done|done].
Qed.

(** A node whose first child is the node itself. *)
Definition loop_node : list Z :=
  blit BtreeHeaderSize (encode (mkBtreeIdxEntry 7 5)) (blit 0 (encode (index_header 1 1)) (zeros 4096)).

Definition loop_visitor : BtreeNodeVisitor (list Z) unit :=
  mkVisitor (Some (fun i s => (s ++ [ni_Block i], None))) None.

Definition loop_options : BtreeWalkOptions (list Z) := mkWalkOptions 4096 false false true None.

Lemma WalkBtree_total_witness :
  WalkBtree (fun _ => Some loop_node) loop_options loop_visitor 7 [] = ([7], Ret tt) /\
  exists new : list Z, [7] = [] ++ new /\ NoDup new.
Proof.
  assert (Hl : Z.of_nat (length loop_node) = 4096) by (vm_compute; reflexivity).
  assert (E : WalkBtree (fun _ => Some loop_node) loop_options loop_visitor 7 [] = ([7], Ret tt))
    by (vm_compute; reflexivity).
  split; [exact E|].
  pose proof (WalkBtree_total (fun _ => Some loop_node) loop_options loop_visitor (fun s => s) 7 []
    ltac:(intros ? ? [= <-]; exact Hl) ltac:(left; simpl; lia) ltac:(intros ? ? ? [= <-]; reflexivity)
    ltac:(discriminate) ltac:(discriminate)) as H.
  rewrite E in H. exact (proj2 H).
Defined.
