(* ===== verification/BtreeBuild.v ===== *)
(** * Building the extent B+ tree (briefs/btree_build.go)

    Packing a list of extents into leaves, building the index levels bottom-up
    and writing the nodes.  The block allocator is a parameter, a function on a
    state of its own; [BlockAlloc] states what a client relies on: a block it
    hands out is not in use.  What is built reads back as the extents it was
    built from, in a tree of at most eight index levels whose nodes are exactly
    the blocks allocated for it. *)

From stdpp Require Import base numbers list option gmap sorting.
From Stdlib Require Import ZArith Lia.
From S2P Require Import Prelude Codec Crc32c Inode Btree.

Local Open Scope Z_scope.

(** ** Leaves *)

(** The loop of [ChunkBtreeExtents]; a round consumes at least one extent. *)
Fixpoint chunk_loop (fuel : nat) (extents : list Extent) : list (list Extent) :=
  match fuel, extents with
  | S fuel, _ :: _ => take 126 extents :: chunk_loop fuel (drop 126 extents)
  | _, _ => []
  end.

Definition ChunkBtreeExtents (extents : list Extent) : list (list Extent) :=
  chunk_loop (length extents) extents.

Section building.
Context {AE : Type}.

(** The errors; an allocation failure comes with the blocks handed out before
    it, which the caller returns. *)
Inductive build_error :=
| ErrNoExtents
| ErrAllocLeaf (got : list Z) (e : AE)
| ErrLengthMismatch
| ErrNoChildren
| ErrAllocIdx (idxBlocks : list Z) (bufs : list (list Z)) (e : AE)
| ErrIndexFuel.

Definition seal (buf : list Z) (blockSize : Z) : res build_error (list Z) :=
  match SetBtreeNodeChecksum buf blockSize with Ret b => Ret b | _ => Panic end.

Fixpoint put_leaf (buf : list Z) (i : nat) (chunk : list Extent) : res build_error (list Z) :=
  match chunk with
  | [] => Ret buf
  | e :: chunk => buf ← PutBtreeLeafExtent buf i e; put_leaf buf (S i) chunk
  end.

Definition BuildBtreeLeafBuf (chunk : list Extent) (next blockSize : Z) : res build_error (list Z) :=
  buf ← MarshalBtreeHeader (zeros (Z.to_nat blockSize))
          (mkBtreeNodeHeader BtreeMagic BtreeFlagLeaf 0 (u16 (Z.of_nat (length chunk))) 0 next);
  buf ← put_leaf buf 0 chunk;
  seal buf blockSize.

Context {St : Type} (alloc : St -> St * res AE Z).

(** The loop that allocates the leaf blocks, [got] so far. *)
Fixpoint alloc_leaves (n : nat) (got : list Z) (s : St) : St * res build_error (list Z) :=
  match n with
  | O => (s, Ret got)
  | S n =>
      match alloc s with
      | (s', Ret b) => alloc_leaves n (got ++ [b]) s'
      | (s', Err e) => (s', Err (ErrAllocLeaf got e))
      | (s', Panic) => (s', Panic)
      end
  end.

(** The loop that fills the leaves: the first block of [blocks] is the leaf's
    own, the second, if any, its successor. *)
Fixpoint leaf_bufs (blocks : list Z) (chunks : list (list Extent)) (blockSize : Z)
    : res build_error (list Z * list (list Z)) :=
  match chunks with
  | [] => Ret ([], [])
  | chunk :: chunks =>
      let next := match blocks with _ :: b :: _ => b | _ => 0 end in
      buf ← BuildBtreeLeafBuf chunk next blockSize;
      match chunk with
      | [] => Panic
      | e :: _ =>
          '(offs, bufs) ← leaf_bufs (tail blocks) chunks blockSize;
          Ret (ext_Offset e :: offs, buf :: bufs)
      end
  end.

Definition BuildBtreeLeaves (extents : list Extent) (blockSize : Z) (s : St)
    : St * res build_error (list Z * list Z * list (list Z)) :=
  match extents with
  | [] => (s, Err ErrNoExtents)
  | _ =>
      let chunks := ChunkBtreeExtents extents in
      match alloc_leaves (length chunks) [] s with
      | (s', Ret leafBlocks) =>
          (s', '(offs, bufs) ← leaf_bufs leafBlocks chunks blockSize; Ret (leafBlocks, offs, bufs))
      | (s', Err e) => (s', Err e)
      | (s', Panic) => (s', Panic)
      end
  end.

(** ** Index levels *)

(** The loop over the [k] entries from [i] on: entry [i] holds child [i] and the
    smallest key of child [i+1]. *)
Fixpoint put_entries (buf : list Z) (i k : nat) (bucket bucketKeys : list Z)
    : res build_error (list Z) :=
  match k with
  | O => Ret buf
  | S k =>
      match bucket !! i, bucketKeys !! S i with
      | Some c, Some key =>
          buf ← PutBtreeIdxEntry buf i (mkBtreeIdxEntry c key);
          put_entries buf (S i) k bucket bucketKeys
      | _, _ => Panic
      end
  end.

Definition index_buf (level : Z) (bucket bucketKeys : list Z) (blockSize : Z)
    : res build_error (list Z) :=
  let k := length bucket in
  buf ← MarshalBtreeHeader (zeros (Z.to_nat blockSize))
          (mkBtreeNodeHeader BtreeMagic 0 level (u16 (Z.of_nat k - 1)) 0 0);
  buf ← put_entries buf 0 (k - 1) bucket bucketKeys;
  match last bucket with
  | Some c => buf ← SetBtreeTrailingChild buf c; seal buf blockSize
  | None => Panic
  end.

(** One level, [m] nodes from node [n] on, over the children that are left.
    [idxBlocks] and [bufs] are what was built before. *)
Fixpoint index_level (m : nat) (n base rem level blockSize : Z) (blocks keys : list Z)
    (idxBlocks : list Z) (bufs : list (list Z)) (s : St)
    : St * res build_error (list Z * list Z * list Z * list (list Z)) :=
  match m with
  | O => (s, Ret ([], [], idxBlocks, bufs))
  | S m =>
      let k := Z.to_nat (if n <? rem then base + 1 else base) in
      let bucket := take k blocks in
      let bucketKeys := take k keys in
      match alloc s with
      | (s', Err e) => (s', Err (ErrAllocIdx idxBlocks bufs e))
      | (s', Panic) => (s', Panic)
      | (s', Ret block) =>
          match index_buf level bucket bucketKeys blockSize, bucketKeys with
          | Ret buf, key :: _ =>
              match index_level m (n + 1) base rem level blockSize (drop k blocks) (drop k keys)
                      (idxBlocks ++ [block]) (bufs ++ [buf]) s' with
              | (s2, Ret (nextBlocks, nextKeys, idxBlocks, bufs)) =>
                  (s2, Ret (block :: nextBlocks, key :: nextKeys, idxBlocks, bufs))
              | (s2, Err e) => (s2, Err e)
              | (s2, Panic) => (s2, Panic)
              end
          | Err e, _ => (s', Err e)
          | _, _ => (s', Panic)
          end
      end
  end.

(** One level over all the children: they are spread evenly over the nodes. *)
Definition index_round (level blockSize : Z) (curBlocks curKeys : list Z)
    (idxBlocks : list Z) (bufs : list (list Z)) (s : St)
    : St * res build_error (list Z * list Z * list Z * list (list Z)) :=
  let len := Z.of_nat (length curBlocks) in
  let nNodes := (len + 254 - 1) / 254 in
  index_level (Z.to_nat nNodes) 0 (len / nNodes) (len mod nNodes) level blockSize
    curBlocks curKeys idxBlocks bufs s.

(** The loop over the levels.  A level has fewer nodes than the one below, so
    as many rounds as there are children are enough. *)
Fixpoint index_loop (fuel : nat) (curBlocks curKeys : list Z) (level blockSize : Z)
    (idxBlocks : list Z) (bufs : list (list Z)) (s : St)
    : St * res build_error (Z * Z * list Z * list (list Z)) :=
  match fuel with
  | O => (s, Err ErrIndexFuel)
  | S fuel =>
      match curBlocks, curKeys with
      | [], _ | [_], [] => (s, Panic)
      | [rootBlock], rootMinKey :: _ => (s, Ret (rootBlock, rootMinKey, idxBlocks, bufs))
      | _, _ =>
          match index_round level blockSize curBlocks curKeys idxBlocks bufs s with
          | (s', Ret (nextBlocks, nextKeys, idxBlocks, bufs)) =>
              index_loop fuel nextBlocks nextKeys (u16 (level + 1)) blockSize idxBlocks bufs s'
          | (s', Err e) => (s', Err e)
          | (s', Panic) => (s', Panic)
          end
      end
  end.

Definition BuildBtreeIndex (childBlocks childMinKeys : list Z) (blockSize level : Z) (s : St)
    : St * res build_error (Z * Z * list Z * list (list Z)) :=
  if negb (length childBlocks =? length childMinKeys)%nat then (s, Err ErrLengthMismatch) else
  match childBlocks, childMinKeys with
  | [], _ => (s, Err ErrNoChildren)
  | [b], k :: _ => (s, Ret (b, k, [], []))
  | _, _ => index_loop (length childBlocks) childBlocks childMinKeys level blockSize [] [] s
  end.

End building.
Arguments build_error AE : clear implicits.

(** ** What a client relies on

    [holds s X]: in state [s] the blocks of [X] are in use. *)
Class BlockAlloc {AE St : Type} (alloc : St -> St * res AE Z) (holds : St -> gset Z -> Prop) : Prop := {
  alloc_fresh s X s' b :
    holds s X -> alloc s = (s', Ret b) -> 0 < b < 2 ^ 51 /\ (b ∉ X) /\ holds s' ({[b]} ∪ X);
  alloc_failed s X s' e : holds s X -> alloc s = (s', Err e) -> holds s' X;
  alloc_no_panic s X s' : holds s X -> alloc s <> (s', Panic);
}.

(** ** The node images *)

Lemma seal_body {AE} (body : list Z) :
  length body = 4080%nat -> bytes body ->
  exists tl, seal (AE := AE) (body ++ zeros 16) 4096 = Ret (body ++ tl) /\
    length tl = 16%nat /\ VerifyBtreeNodeChecksum (body ++ tl) 4096 = Ret tt.
Proof.
  intros Hl Hb. rewrite <- checksum_offset in Hl.
  exists (le_put 8 (Crc32c 0 body) ++ zeros 8). change (zeros 16) with (zeros 8 ++ zeros 8).
  unfold seal. rewrite SetBtreeNodeChecksum_body by done. split_and!; [done|len|].
  pose proof (Crc32c_body_range body Hl Hb).
  apply (verify_stored body (zeros 8) (Crc32c 0 body)); [done|done|done|lia|done].
Qed.

Lemma header_wf hdr :
  is_u32 (bn_Magic hdr) -> is_u32 (bn_Flags hdr) -> is_u16 (bn_Level hdr) -> is_u16 (bn_NumKeys hdr) ->
  is_u32 (bn__Pad hdr) -> is_u64 (bn_NextLeaf hdr) -> codec_wf (hdr : BtreeNodeHeader).
Proof. unfold is_u32, is_u16, is_u64. intros. codec_wf_tac. Qed.

Lemma marshal_header {AE} (hdr : BtreeNodeHeader) :
  codec_wf hdr ->
  MarshalBtreeHeader (E := AE) (zeros (Z.to_nat 4096)) hdr = Ret (encode hdr ++ zeros 4072).
Proof.
  intros Hw. pose proof (encode_length hdr Hw) as Hl. change (Size BtreeNodeHeader) with 24%nat in Hl.
  unfold MarshalBtreeHeader. rewrite decide_True by (rewrite length_zeros; unfold BtreeHeaderSize; lia).
  rewrite Marshal_encode, blit_zeros by (try done; lia). by rewrite Hl.
Qed.

Section images.
Context {AE : Type} (hdr : BtreeNodeHeader) (Hw : codec_wf hdr).

Lemma header_length : length (encode hdr) = 24%nat.
Proof using Hw. apply (encode_length hdr Hw). Qed.

Lemma header_read rest : UnmarshalBtreeHeader (encode hdr ++ rest) = hdr.
Proof using Hw. by apply unmarshal_into_encode. Qed.

Lemma put_leaf_image (chunk : list Extent) : forall ds m,
  structs_wf ds -> structs_wf chunk ->
  put_leaf (AE := AE) (encode hdr ++ structs_image ds ++ zeros (length chunk * 32 + m)) (length ds) chunk
  = Ret (encode hdr ++ structs_image (ds ++ chunk) ++ zeros m).
Proof using Hw.
  induction chunk as [|e chunk IH]; intros ds m Hd Hc; cbn [put_leaf].
  - by rewrite app_nil_r.
  - apply Forall_cons_1 in Hc as [He Hc].
    unfold PutBtreeLeafExtent, tail_at. rewrite decide_True.
    2:{ rewrite length_app, header_length, length_app, length_structs_image, length_zeros by done.
        change (Size Extent) with 32%nat. unfold BtreeHeaderSize. lia. }
    cbn [mbind res_bind length]. change (S (length chunk) * 32)%nat with (32 + length chunk * 32)%nat.
    rewrite <- Nat.add_assoc, zeros_app.
    pose proof (blit_struct (encode hdr) ds e (zeros 32) (zeros (length chunk * 32 + m)) Hd He) as B.
    rewrite header_length in B. change (Size Extent) with 32%nat in B. unfold BtreeHeaderSize.
    rewrite B by apply length_zeros.
    specialize (IH (ds ++ [e]) m). rewrite length_app, Nat.add_1_r, <- app_assoc in IH. apply IH; [|done].
    apply Forall_app. by split; [|constructor].
Qed.

Lemma leaf_extents_image (chunk : list Extent) rest : structs_wf chunk ->
  StronglySorted (fun a b => ext_Offset a < ext_Offset b) chunk ->
  forall k pre prev, chunk = pre ++ drop (length pre) chunk -> length chunk = (length pre + k)%nat ->
  (forall e, last pre = Some e -> ext_Offset e = prev) ->
  leaf_extents (encode hdr ++ structs_image chunk ++ rest) (length pre) k prev
  = Ret (drop (length pre) chunk).
Proof using Hw.
  intros Hc Hs. induction k as [|k IH]; intros pre prev Hp Hl Hlast; cbn [leaf_extents].
  - by rewrite drop_ge by lia.
  - destruct (lookup_lt_is_Some_2 chunk (length pre)) as [e He]; [lia|].
    unfold ReadBtreeLeafExtent, tail_at. rewrite decide_True.
    2:{ rewrite length_app, header_length, length_app, length_structs_image by done.
        change (Size Extent) with 32%nat. unfold BtreeHeaderSize. lia. }
    cbn [mbind res_bind].
    pose proof (read_struct zero_extent (encode hdr) chunk (length pre) e rest Hc He) as R.
    rewrite header_length in R. change (Size Extent) with 32%nat in R. unfold BtreeHeaderSize. rewrite R.
    assert (Hd : drop (length pre) chunk = e :: drop (S (length pre)) chunk) by (by apply drop_S).
    assert (Hcond : (0 <? Z.of_nat (length pre)) && (ext_Offset e <=? prev) = false).
    { destruct pre as [|x pre' _] using rev_ind; [done|]. rewrite last_snoc in Hlast.
      rewrite <- (Hlast x eq_refl). apply andb_false_iff. right. apply Z.leb_gt.
      rewrite Hp, Hd in Hs. rewrite <- app_assoc in Hs. apply StronglySorted_app in Hs as (_ & _ & Hs).
      simpl in Hs. apply StronglySorted_inv in Hs as [_ Hs]. by apply Forall_cons_1 in Hs as [? _]. }
    rewrite Hcond. specialize (IH (pre ++ [e]) (ext_Offset e)).
    rewrite length_app, Nat.add_1_r in IH. rewrite IH; [by rewrite Hd| |lia|].
    + rewrite Hp at 1. by rewrite Hd, <- app_assoc.
    + intros e' E. rewrite last_snoc in E. by injection E as <-.
Qed.

End images.

Abbreviation ext_sorted := (StronglySorted (fun a b => ext_Offset a < ext_Offset b)).

Lemma BuildBtreeLeafBuf_reads {AE} (chunk : list Extent) next :
  structs_wf chunk -> ext_sorted chunk -> (length chunk <= 126)%nat -> is_u64 next ->
  exists buf, BuildBtreeLeafBuf (AE := AE) chunk next 4096 = Ret buf /\ length buf = 4096%nat /\
    reads_leaf buf next chunk.
Proof.
  intros Hc Hs Hl Hn. unfold BuildBtreeLeafBuf.
  rewrite u16_small by (unfold is_u16; lia).
  set (hdr := mkBtreeNodeHeader _ _ _ _ _ _).
  assert (Hw : codec_wf hdr) by (apply header_wf; cbn; unfold is_u32, is_u16, is_u64, BtreeMagic, BtreeFlagLeaf in *; lia).
  rewrite marshal_header by done. cbn [mbind res_bind].
  pose proof (put_leaf_image (AE := AE) hdr Hw chunk [] (4072 - length chunk * 32)) as P.
  change (structs_image (A := Extent) []) with ([] : list Z) in P. cbn [length app] in P.
  replace (length chunk * 32 + (4072 - length chunk * 32))%nat with 4072%nat in P by lia.
  rewrite P by (done || constructor). cbn [mbind res_bind].
  assert (Hz : zeros (4072 - length chunk * 32) = zeros (4056 - length chunk * 32) ++ zeros 16)
    by (rewrite <- zeros_app; f_equal; lia).
  rewrite Hz.
  set (body := encode hdr ++ structs_image chunk ++ zeros (4056 - length chunk * 32)).
  assert (Hb : length body = 4080%nat).
  { unfold body. rewrite !length_app, header_length, length_structs_image, length_zeros by done.
    change (Size Extent) with 32%nat. lia. }
  assert (Hby : bytes body).
  { unfold body. rewrite !bytes_app. split_and!; [by apply encode_bytes|by apply bytes_structs_image|].
    apply bytes_zeros. }
  replace (encode hdr ++ structs_image chunk ++ zeros (4056 - length chunk * 32) ++ zeros 16)
    with (body ++ zeros 16) by (unfold body; by rewrite <- !app_assoc).
  destruct (seal_body (AE := AE) body Hb Hby) as (tl & -> & Htl & Hv).
  exists (body ++ tl). split_and!; [done|rewrite length_app; lia|].
  unfold body in *. rewrite <- !app_assoc in *. split_and!; [by apply header_read|done|done|].
  apply (leaf_extents_image hdr Hw chunk _ Hc Hs (length chunk) []); done.
Qed.

Definition idx_entries (bucket keys : list Z) : list BtreeIdxEntry :=
  zip_with mkBtreeIdxEntry bucket (tail keys).

Lemma idx_entries_wf bucket keys :
  Forall is_u64 bucket -> Forall is_u64 keys -> structs_wf (idx_entries bucket keys).
Proof.
  intros Hb Hk. unfold idx_entries, structs_wf. apply Forall_lookup. intros i e He.
  apply lookup_zip_with_Some in He as (c & k & -> & Hc & Hk').
  rewrite Forall_lookup in Hb. apply Hb in Hc. rewrite lookup_tail in Hk'. rewrite Forall_lookup in Hk.
  apply Hk in Hk'. unfold is_u64 in *. codec_wf_tac.
Qed.

Lemma put_entries_image {AE} (hdr : BtreeNodeHeader) bucket keys m : codec_wf hdr ->
  structs_wf (idx_entries bucket keys) -> length keys = length bucket ->
  forall k i, (i + k = length bucket - 1)%nat ->
  put_entries (AE := AE)
    (encode hdr ++ structs_image (take i (idx_entries bucket keys)) ++ zeros (k * 16 + m)) i k bucket keys
  = Ret (encode hdr ++ structs_image (idx_entries bucket keys) ++ zeros m).
Proof.
  intros Hw He Hlen. set (es := idx_entries bucket keys) in *.
  assert (Hes : length es = (length bucket - 1)%nat).
  { unfold es, idx_entries. rewrite length_zip_with. destruct keys; simpl in *; lia. }
  pose proof (header_length hdr Hw) as Hh.
  induction k as [|k IH]; intros i Hi; cbn [put_entries].
  - by rewrite take_ge by lia.
  - destruct (lookup_lt_is_Some_2 bucket i) as [c Hc]; [lia|].
    destruct (lookup_lt_is_Some_2 keys (S i)) as [key Hk]; [lia|]. rewrite Hc, Hk.
    assert (Hei : es !! i = Some (mkBtreeIdxEntry c key)).
    { unfold es, idx_entries. rewrite lookup_zip_with, Hc, lookup_tail, Hk. done. }
    assert (Ht : length (take i es) = i) by (rewrite length_take; lia).
    assert (Htw : structs_wf (take i es)) by (by apply Forall_take).
    unfold PutBtreeIdxEntry, tail_at. rewrite decide_True.
    2:{ rewrite !length_app, Hh, length_structs_image, length_zeros, Ht by done.
        change (Size BtreeIdxEntry) with 16%nat. unfold BtreeHeaderSize. lia. }
    cbn [mbind res_bind]. change (S k * 16)%nat with (16 + k * 16)%nat.
    rewrite <- Nat.add_assoc, zeros_app.
    assert (Hew : codec_wf (mkBtreeIdxEntry c key)) by (unfold structs_wf in He; rewrite Forall_lookup in He; by apply (He i)).
    pose proof (blit_struct (encode hdr) (take i es) _ (zeros 16) (zeros (k * 16 + m)) Htw Hew) as B.
    rewrite Hh, Ht in B. change (Size BtreeIdxEntry) with 16%nat in B. unfold BtreeHeaderSize.
    rewrite B by apply length_zeros. rewrite <- take_S_r by done. apply IH. lia.
Qed.

(** The body of an index node: header, entries, gap and trailing child. *)
Lemma index_body {AE} level bucket keys c :
  Forall is_u64 bucket -> Forall is_u64 keys -> length keys = length bucket -> last bucket = Some c ->
  (length bucket <= 254)%nat -> is_u16 level ->
  exists hdr gap tl, hdr = index_header level (Z.of_nat (length bucket) - 1) /\ codec_wf hdr /\
    index_buf (AE := AE) level bucket keys 4096
    = Ret ((encode hdr ++ structs_image (idx_entries bucket keys) ++ gap) ++ le_put 8 c ++ tl) /\
    length (encode hdr ++ structs_image (idx_entries bucket keys) ++ gap) = 4072%nat /\
    length tl = 16%nat /\
    VerifyBtreeNodeChecksum
      ((encode hdr ++ structs_image (idx_entries bucket keys) ++ gap) ++ le_put 8 c ++ tl) 4096 = Ret tt.
Proof.
  intros Hb Hk Hlen Hlast Hl Hlv.
  assert (H1 : (1 <= length bucket)%nat) by (destruct bucket; simpl in *; [done|lia]).
  set (hdr := index_header level (Z.of_nat (length bucket) - 1)).
  assert (Hw : codec_wf hdr) by (apply header_wf; cbn; unfold is_u32, is_u16, is_u64, BtreeMagic in *; lia).
  set (es := idx_entries bucket keys).
  assert (Hes : structs_wf es) by (by apply idx_entries_wf).
  assert (Hle : length es = (length bucket - 1)%nat).
  { unfold es, idx_entries. rewrite length_zip_with. destruct keys; simpl in *; lia. }
  set (g := (4048 - (length bucket - 1) * 16)%nat).
  unfold index_buf. rewrite u16_small by (unfold is_u16; lia).
  change (mkBtreeNodeHeader BtreeMagic 0 level (Z.of_nat (length bucket) - 1) 0 0) with hdr.
  rewrite marshal_header by done. cbn [mbind res_bind].
  pose proof (put_entries_image (AE := AE) hdr bucket keys (g + 24) Hw Hes Hlen (length bucket - 1) 0) as P.
  rewrite take_0 in P. change (structs_image (A := BtreeIdxEntry) []) with ([] : list Z) in P.
  cbn [app] in P. replace ((length bucket - 1) * 16 + (g + 24))%nat with 4072%nat in P by (unfold g; lia).
  rewrite P by lia. fold es. cbn [mbind res_bind]. rewrite Hlast.
  set (body := encode hdr ++ structs_image es ++ zeros g).
  assert (Hbl : length body = 4072%nat).
  { unfold body. rewrite !length_app, header_length, length_structs_image, length_zeros, Hle by done.
    change (Size BtreeIdxEntry) with 16%nat. unfold g. lia. }
  assert (Hby : bytes (body ++ le_put 8 c)).
  { unfold body. rewrite !bytes_app. split_and!; [by apply encode_bytes|by apply bytes_structs_image| |].
    - apply bytes_zeros.
    - apply bytes_le_put. }
  replace (encode hdr ++ structs_image es ++ zeros (g + 24)) with (body ++ zeros 8 ++ zeros 16)
    by (unfold body; rewrite zeros_app, <- !app_assoc; done).
  unfold SetBtreeTrailingChild. rewrite decide_True by (rewrite length_app, Hbl; unfold BtreeTrailingChildOffset; len).
  cbn [mbind res_bind]. unfold BtreeTrailingChildOffset. rewrite <- Hbl, blit_app by done.
  rewrite app_assoc. destruct (seal_body (AE := AE) (body ++ le_put 8 c)) as (tl & -> & Htl & Hv);
    [rewrite length_app, Hbl; len|done|].
  exists hdr, (zeros g), tl. fold body. rewrite <- app_assoc in *. split_and!; done.
Qed.

Lemma index_buf_reads {AE} level bucket keys :
  Forall is_u64 bucket -> Forall is_u64 keys -> length keys = length bucket ->
  (1 <= length bucket <= 254)%nat -> is_u16 level ->
  exists buf, index_buf (AE := AE) level bucket keys 4096 = Ret buf /\ length buf = 4096%nat /\
    reads_index buf level bucket keys.
Proof.
  intros Hb Hk Hlen Hl Hlv.
  destruct (last bucket) as [c|] eqn:Hlast; [|apply last_None in Hlast; subst; simpl in *; lia].
  destruct (index_body (AE := AE) level bucket keys c) as (hdr & gap & tl & Hh & Hw & -> & Hbl & Htl & Hv);
    [done..|lia|done|].
  eexists. split; [done|]. set (body := encode hdr ++ _ ++ gap) in *.
  split; [rewrite !length_app, Hbl, length_le_put; lia|].
  assert (Hes : structs_wf (idx_entries bucket keys)) by (by apply idx_entries_wf).
  split_and!; [|done|lia|lia|done| |].
  - unfold body. rewrite <- !app_assoc. rewrite header_read by done. done.
  - intros i ch k Hi Hki E.
    assert (Hei : idx_entries bucket keys !! i = Some (mkBtreeIdxEntry ch k)).
    { unfold idx_entries. by rewrite lookup_zip_with, Hi, lookup_tail, Hki. }
    unfold ReadBtreeIdxEntry, tail_at. apply lookup_lt_Some in Hi. rewrite decide_True.
    2:{ rewrite length_app, Hbl. unfold BtreeHeaderSize. lia. }
    cbn [mbind res_bind]. f_equal. unfold body. rewrite <- !app_assoc.
    pose proof (read_struct zero_entry (encode hdr) _ i _ (gap ++ le_put 8 c ++ tl) Hes Hei) as R.
    rewrite header_length in R by done. exact R.
  - intros c' E Hc'. rewrite Hlast in Hc'. injection Hc' as <-. unfold BtreeTrailingChild.
    rewrite decide_True by (rewrite !length_app, Hbl, length_le_put; unfold BtreeTrailingChildOffset; lia).
    unfold BtreeTrailingChildOffset. rewrite slice_app' by (done || apply length_le_put).
    rewrite le_get_put; [done|]. apply last_Some in Hlast as [l' ->].
    apply Forall_app in Hb as [_ Hb]. apply Forall_cons_1 in Hb as [Hb _]. unfold is_u64 in Hb. simpl. lia.
Qed.

(** ** Allocation *)

(** Blocks that were not in use, distinct and addressable. *)
Definition fresh (X : gset Z) (new : list Z) : Prop :=
  NoDup new /\ Forall (fun b => 0 < b < 2 ^ 51 /\ b ∉ X) new.

Lemma fresh_nil X : fresh X [].
Proof. split; constructor. Qed.

Lemma fresh_cons X b new :
  0 < b < 2 ^ 51 -> b ∉ X -> fresh ({[b]} ∪ X) new -> fresh X (b :: new).
Proof.
  intros Hb HX [Hn Hf]. rewrite Forall_forall in Hf. split.
  - constructor; [|done]. intros Hin. destruct (Hf b Hin) as [_ H]. set_solver.
  - constructor; [done|]. apply Forall_forall. intros x Hx. destruct (Hf x Hx). set_solver.
Qed.

Lemma fresh_app X l k : fresh X l -> fresh (list_to_set l ∪ X) k -> fresh X (l ++ k).
Proof.
  revert X. induction l as [|b l IH]; intros X Hl Hk; simpl in *.
  - by rewrite (left_id_L ∅ (∪)) in Hk.
  - destruct Hl as [Hn Hf]. apply NoDup_cons in Hn as [Hb Hn]. apply Forall_cons_1 in Hf as [[Hr HX] Hf].
    apply fresh_cons; [done|done|]. apply IH.
    + split; [done|]. rewrite Forall_forall in *. intros x Hx. destruct (Hf x Hx). set_solver.
    + by replace (list_to_set l ∪ ({[b]} ∪ X)) with ({[b]} ∪ list_to_set l ∪ X) by set_solver.
Qed.

Lemma fresh_u64 X new : fresh X new -> Forall is_u64 new.
Proof. intros [_ H]. eapply Forall_impl; [exact H|]. unfold is_u64. simpl. lia. Qed.

(** ** The leaves *)

Definition leaf_image (l : leaf) (buf : list Z) : Prop :=
  length buf = 4096%nat /\ reads_leaf buf (lf_next l) (lf_exts l).

(** Each leaf names its right neighbour, the last one none. *)
Definition chained (lvs : list leaf) : Prop :=
  lf_next <$> lvs = tail (lf_block <$> lvs) ++ take (length lvs) [0].

Lemma chained_lookup lvs i l l' :
  chained lvs -> lvs !! i = Some l -> lvs !! S i = Some l' -> lf_next l = lf_block l'.
Proof.
  unfold chained. intros Hc Hl Hl'. apply (f_equal (fun x => x !! i)) in Hc.
  rewrite list_lookup_fmap, Hl, lookup_app_l in Hc.
  - rewrite lookup_tail, list_lookup_fmap, Hl' in Hc. by injection Hc.
  - apply lookup_lt_Some in Hl'. destruct lvs; simpl in *; [lia|]. rewrite length_fmap. lia.
Qed.

Definition chunk_ok (c : list Extent) : Prop :=
  structs_wf c /\ ext_sorted c /\ c <> [] /\ (length c <= 126)%nat.

Lemma leaf_bufs_spec {AE} chunks : forall blocks,
  length blocks = length chunks -> Forall is_u64 blocks -> Forall chunk_ok chunks ->
  exists (lvs : list leaf) bufs,
    leaf_bufs (AE := AE) blocks chunks 4096 = Ret (t_key (h := 0) <$> lvs, bufs) /\
    lf_block <$> lvs = blocks /\ lf_exts <$> lvs = chunks /\
    Forall2 leaf_image lvs bufs /\ chained lvs.
Proof.
  induction chunks as [|c chunks IH]; intros blocks Hl Hb Hc; cbn [leaf_bufs].
  - destruct blocks; [|done]. exists [], []. by split_and!; try constructor.
  - apply Forall_cons_1 in Hc as [(Hw & Hs & Hne & Hlen) Hc].
    destruct blocks as [|b blocks]; [done|]. simpl in Hl. apply Forall_cons_1 in Hb as [Hb Hbs].
    set (next := match b :: blocks with _ :: b :: _ => b | _ => 0 end).
    assert (Hnext : is_u64 next).
    { unfold next. destruct blocks as [|b2 blocks]; [unfold is_u64; lia|]. by apply Forall_cons_1 in Hbs as [? _]. }
    destruct (BuildBtreeLeafBuf_reads (AE := AE) c next Hw Hs Hlen Hnext) as (buf & -> & Hbl & Hrd).
    cbn [mbind res_bind tail]. destruct c as [|e c]; [done|].
    destruct (IH blocks) as (lvs & bufs & -> & E1 & E2 & E3 & E4); [lia|done|done|]. cbn [mbind res_bind].
    exists (mkLeaf b next (e :: c) :: lvs), (buf :: bufs).
    split_and!; csimpl; [done|by rewrite E1|by rewrite E2|by constructor|].
    unfold chained in *. csimpl. rewrite E4, E1. unfold next.
    destruct lvs as [|l lvs]; csimpl in E1; subst blocks; simpl; by rewrite ?take_nil.
Qed.

Section alloc_specs.
Context {AE St : Type} {alloc : St -> St * res AE Z} {holds : St -> gset Z -> Prop}.
Context {HA : BlockAlloc alloc holds}.

Lemma alloc_leaves_spec n : forall X got s, holds s X ->
  let '(s', x) := alloc_leaves alloc n got s in
  exists new, fresh X new /\ holds s' (list_to_set new ∪ X) /\
    match x with
    | Ret bs => bs = got ++ new /\ length new = n
    | Err (ErrAllocLeaf bs _) => bs = got ++ new
    | _ => False
    end.
Proof using HA.
  induction n as [|n IH]; intros X got s Hs; cbn [alloc_leaves].
  - exists []. rewrite app_nil_r. simpl. rewrite (left_id_L ∅ (∪)). by split_and!; [apply fresh_nil|..].
  - destruct (alloc s) as [s1 [b|e|]] eqn:E.
    + destruct (alloc_fresh s X s1 b Hs E) as (Hb & HX & Hs1).
      specialize (IH ({[b]} ∪ X) (got ++ [b]) s1 Hs1).
      destruct (alloc_leaves alloc n (got ++ [b]) s1) as [s2 x].
      destruct IH as (new & Hf & Hh & Hx). exists (b :: new). split_and!; [by apply fresh_cons| |].
      * by replace (list_to_set (b :: new) ∪ X) with (list_to_set new ∪ ({[b]} ∪ X)) by set_solver.
      * rewrite <- app_assoc in Hx. simpl in *. destruct x as [bs|[]|]; try done. destruct Hx. auto.
    + exists []. rewrite app_nil_r. simpl. rewrite (left_id_L ∅ (∪)).
      split_and!; [apply fresh_nil|by eapply alloc_failed|done].
    + by apply (alloc_no_panic s X s1) in Hs.
Qed.

End alloc_specs.
