(* ===== verification/BtreeIndex.v ===== *)
(** * The trees that are built are stored (briefs/btree_build.go)

    The invariant of [BuildBtreeIndex]: at every level the children are a forest
    of trees of one height, and the blocks allocated since the leaves are the
    index nodes of that forest.  Each round groups the forest under new nodes,
    so the loop ends with one tree. *)

From stdpp Require Import base numbers list option gmap sorting.
From Stdlib Require Import ZArith Lia.
From S2P Require Import Prelude Codec Crc32c Inode Btree BtreeBuild.

Local Open Scope Z_scope.

Definition index_image {h} (t : tree (S h)) (buf : list Z) : Prop :=
  length buf = 4096%nat /\
  reads_index buf (Z.of_nat (S h)) (t_block <$> snd t) (t_key <$> snd t).

Definition forest_u64 {h} (F : list (tree h)) : Prop :=
  Forall (fun t => is_u64 (t_block t) /\ is_u64 (t_key t)) F.

Lemma forest_blocks {h} (F : list (tree h)) : forest_u64 F -> Forall is_u64 (t_block <$> F).
Proof. intros H. apply Forall_fmap. eapply Forall_impl; [exact H|]. by intros t [? _]. Qed.

Lemma forest_keys {h} (F : list (tree h)) : forest_u64 F -> Forall is_u64 (t_key <$> F).
Proof. intros H. apply Forall_fmap. eapply Forall_impl; [exact H|]. by intros t [_ ?]. Qed.

Lemma nodes_of_level len : 2 <= len ->
  let nNodes := (len + 254 - 1) / 254 in
  let base := len / nNodes in
  let rem := len mod nNodes in
  1 <= nNodes < len /\ 1 <= base <= 254 /\ (0 < rem -> base < 254) /\ rem <= nNodes /\ 0 <= rem /\
  len = nNodes * base + rem.
Proof.
  intros Hl nNodes base rem.
  assert (H1 : 1 <= nNodes < len).
  { unfold nNodes. split; [apply Z.div_le_lower_bound; lia|apply Z.div_lt_upper_bound; lia]. }
  assert (H2 : len <= 254 * nNodes).
  { unfold nNodes. pose proof (Z.mod_pos_bound (len + 254 - 1) 254). pose proof (Z.div_mod (len + 254 - 1) 254). lia. }
  pose proof (Z.div_mod len nNodes ltac:(lia)) as Hd. fold base rem in Hd.
  pose proof (Z.mod_pos_bound len nNodes ltac:(lia)) as Hm. fold rem in Hm.
  split_and!; nia.
Qed.

Lemma level_shrinks len k : 2 <= len -> len <= 254 ^ Z.of_nat (S k) -> (len + 254 - 1) / 254 <= 254 ^ Z.of_nat k.
Proof.
  intros H2 Hl. rewrite Nat2Z.inj_succ, Z.pow_succ_r in Hl by lia.
  apply Z.lt_succ_r, Z.div_lt_upper_bound; lia.
Qed.

Lemma forest_nodes {h} (F' : list (tree (S h))) :
  concat (t_nodes <$> F') ≡ₚ (t_block <$> F') ++ concat (t_nodes <$> concat (snd <$> F')).
Proof.
  induction F' as [|[b kids] F' IH]; [done|].
  rewrite !fmap_cons. cbn [concat snd]. rewrite fmap_app, concat_app, IH. cbn [t_nodes t_block fst snd app].
  constructor. rewrite !app_assoc. f_equiv. apply Permutation_app_comm.
Qed.

Lemma forest_leaves {h} (F' : list (tree (S h))) :
  concat (t_leaves <$> F') = concat (t_leaves <$> concat (snd <$> F')).
Proof.
  induction F' as [|[b kids] F' IH]; [done|].
  rewrite !fmap_cons. cbn [concat snd]. by rewrite fmap_app, concat_app, IH.
Qed.

(** The blocks [bs] of the device hold the buffers [bufs]. *)
Definition written (r : Z -> option (list Z)) (bs : list Z) (bufs : list (list Z)) : Prop :=
  Forall2 (fun b buf => at_block r b = Some buf) bs bufs.

Lemma written_app r bs bs' bufs bufs' :
  length bs = length bufs -> written r (bs ++ bs') (bufs ++ bufs') -> written r bs bufs /\ written r bs' bufs'.
Proof. intros Hl H. apply Forall2_app_inv in H; [done|done]. Qed.

Lemma stored_level {h} r (F' : list (tree (S h))) newbufs :
  Forall2 index_image F' newbufs -> written r (t_block <$> F') newbufs ->
  Forall (stored r) (concat (snd <$> F')) -> Forall (stored r) F'.
Proof.
  intros HI. induction HI as [|[b kids] buf F' newbufs [Hl Hi] _ IH]; intros Hw Hs; [constructor|].
  rewrite !fmap_cons in *. cbn [concat snd] in *. apply Forall_app in Hs as [Hs1 Hs2].
  apply Forall2_cons_1 in Hw as [Hw1 Hw2]. constructor; [|by apply IH].
  split; [|done]. by exists buf.
Qed.

Lemma forest_u64_level {h} (F' : list (tree (S h))) :
  Forall is_u64 (t_block <$> F') -> forest_u64 (concat (snd <$> F')) -> forest_u64 F'.
Proof.
  unfold forest_u64. induction F' as [|[b kids] F' IH]; intros Hb Hk; [constructor|].
  rewrite !fmap_cons in *. cbn [concat snd] in *. apply Forall_app in Hk as [Hk1 Hk2].
  apply Forall_cons_1 in Hb as [Hb1 Hb2]. constructor; [|by apply IH]. split; [done|].
  cbn [t_key snd]. destruct kids as [|t kids]; [unfold is_u64; lia|]. by apply Forall_cons_1 in Hk1 as [[_ ?] _].
Qed.

Section levels.
Context {AE St : Type} {alloc : St -> St * res AE Z} {holds : St -> gset Z -> Prop}.
Context {HA : BlockAlloc alloc holds}.

(** One level: [m] nodes over the forest [F], the [k]-th of them with [base]
    children, or one more when [k < rem]. *)
Lemma index_level_spec h m : forall (F : list (tree h)) n base rem X idx bufs s,
  holds s X -> forest_u64 F -> Z.of_nat (S h) < 2 ^ 16 ->
  0 <= n -> 1 <= base <= 254 -> (n < rem -> base < 254) -> rem - n <= Z.of_nat m ->
  Z.of_nat (length F) = Z.of_nat m * base + Z.max 0 (rem - n) ->
  let '(s', x) := index_level alloc m n base rem (Z.of_nat (S h)) 4096 (t_block <$> F) (t_key <$> F) idx bufs s in
  exists new, fresh X new /\ holds s' (list_to_set new ∪ X) /\
    match x with
    | Ret (nextBlocks, nextKeys, idx', bufs') =>
        exists (F' : list (tree (S h))) newbufs,
          nextBlocks = new /\ t_block <$> F' = new /\ t_key <$> F' = nextKeys /\
          idx' = idx ++ new /\ bufs' = bufs ++ newbufs /\ length F' = m /\
          concat (snd <$> F') = F /\ Forall2 index_image F' newbufs
    | Err (ErrAllocIdx idx' bufs' _) => idx' = idx ++ new
    | _ => False
    end.
Proof using HA.
  induction m as [|m IH]; intros F n base rem X idx bufs s Hs HF Hh Hn Hba Hrem Hm Hlen; cbn [index_level].
  - exists []. simpl. rewrite (left_id_L ∅ (∪)). split_and!; [apply fresh_nil|done|].
    exists [], []. rewrite !app_nil_r. destruct F; [|simpl in Hlen; lia].
    by split_and!; try constructor.
  - set (k := Z.to_nat (if n <? rem then base + 1 else base)).
    assert (Hk : (1 <= k <= 254)%nat /\ (k <= length F)%nat /\
      Z.of_nat (length (drop k F)) = Z.of_nat m * base + Z.max 0 (rem - (n + 1))).
    { rewrite length_drop. unfold k. destruct (Z.ltb_spec n rem); nia. }
    destruct Hk as (Hk1 & Hk2 & Hk3).
    destruct (alloc s) as [s1 [b|e|]] eqn:E.
    + destruct (alloc_fresh s X s1 b Hs E) as (Hb & HX & Hs1).
      rewrite <- !fmap_take, <- !fmap_drop.
      assert (HFt : forest_u64 (take k F)) by (by apply Forall_take).
      assert (Hkl : length (take k F) = k) by (rewrite length_take; lia).
      destruct (index_buf_reads (AE := AE) (Z.of_nat (S h)) (t_block <$> take k F) (t_key <$> take k F))
        as (buf & -> & Hbl & Hrd); [by apply forest_blocks|by apply forest_keys|by rewrite !length_fmap| | |].
      { rewrite length_fmap, Hkl. done. }
      { unfold is_u16. lia. }
      destruct (t_key <$> take k F) as [|key keys] eqn:Ek.
      { apply (f_equal length) in Ek. rewrite length_fmap, Hkl in Ek. simpl in Ek. lia. }
      specialize (IH (drop k F) (n + 1) base rem ({[b]} ∪ X) (idx ++ [b]) (bufs ++ [buf]) s1 Hs1).
      specialize (IH ltac:(by apply Forall_drop) Hh ltac:(lia) Hba ltac:(lia) ltac:(lia) Hk3).
      destruct (index_level alloc m (n + 1) _ _ _ _ _ _ _ _ s1) as [s2 x].
      destruct IH as (new & Hf & Hh2 & Hx).
      assert (Hset : list_to_set (b :: new) ∪ X = list_to_set new ∪ ({[b]} ∪ X)) by set_solver.
      destruct x as [[[[nb nk] idx'] bufs']|e|]; [exists (b :: new)..|done].
      * split_and!; [by apply fresh_cons|by rewrite Hset|].
        destruct Hx as (F' & newbufs & -> & E1 & E2 & -> & -> & E3 & E4 & E5).
        exists ((b, take k F) :: F'), (buf :: newbufs). rewrite !fmap_cons, E1, E2, <- !app_assoc.
        split_and!; [done|done| |done|done|by rewrite <- E3|cbn [snd concat]; by rewrite E4, take_drop|].
        -- f_equal. cbn [t_key snd]. destruct (take k F); [done|]. by injection Ek as -> _.
        -- constructor; [|done]. split; [done|]. cbn [snd]. by rewrite Ek.
      * split_and!; [by apply fresh_cons|by rewrite Hset|]. destruct e; try done.
        by rewrite Hx, <- app_assoc.
    + exists []. simpl. rewrite (left_id_L ∅ (∪)), app_nil_r.
      split_and!; [apply fresh_nil|by eapply alloc_failed|done].
    + by apply (alloc_no_panic s X s1) in Hs.
Qed.

Lemma index_round_spec h (F : list (tree h)) k X idx bufs s :
  holds s X -> forest_u64 F -> (2 <= length F)%nat -> Z.of_nat (length F) <= 254 ^ Z.of_nat (S k) ->
  Z.of_nat (S h) < 2 ^ 16 ->
  let '(s', x) := index_round alloc (Z.of_nat (S h)) 4096 (t_block <$> F) (t_key <$> F) idx bufs s in
  exists new, fresh X new /\ holds s' (list_to_set new ∪ X) /\
    match x with
    | Ret (nextBlocks, nextKeys, idx', bufs') =>
        exists (F' : list (tree (S h))) newbufs,
          nextBlocks = t_block <$> F' /\ nextKeys = t_key <$> F' /\ new = t_block <$> F' /\
          idx' = idx ++ new /\ bufs' = bufs ++ newbufs /\
          (1 <= length F' < length F)%nat /\ Z.of_nat (length F') <= 254 ^ Z.of_nat k /\
          concat (snd <$> F') = F /\ Forall2 index_image F' newbufs
    | Err (ErrAllocIdx idx' bufs' _) => idx' = idx ++ new
    | _ => False
    end.
Proof using HA.
  intros Hs HF H2 Hk Hh. unfold index_round. rewrite length_fmap.
  destruct (nodes_of_level (Z.of_nat (length F))) as (N1 & N2 & N3 & N4 & N5 & N6); [lia|].
  pose proof (level_shrinks (Z.of_nat (length F)) k ltac:(lia) Hk) as N7.
  set (nNodes := (Z.of_nat (length F) + 254 - 1) / 254) in *.
  pose proof (index_level_spec h (Z.to_nat nNodes) F 0 (Z.of_nat (length F) / nNodes)
    (Z.of_nat (length F) mod nNodes) X idx bufs s Hs HF Hh) as L.
  specialize (L ltac:(lia) N2 N3 ltac:(lia) ltac:(lia)).
  destruct (index_level _ _ _ _ _ _ _ _ _ _ _ s) as [s' x]. destruct L as (new & Hf & Hh' & Hx).
  exists new. split_and!; [done|done|]. destruct x as [[[[nb nk] idx'] bufs']|e|]; [|done|done].
  destruct Hx as (F' & newbufs & -> & E1 & <- & -> & -> & E2 & E3 & E4).
  exists F', newbufs. rewrite E1. split_and!; try done; lia.
Qed.

(** The loop over the levels, from a forest of height [h] that [k] more levels
    are enough for. *)
Lemma index_loop_spec fuel : forall h (F : list (tree h)) k X idx bufs s,
  holds s X -> forest_u64 F -> (1 <= length F <= fuel)%nat ->
  Z.of_nat (length F) <= 254 ^ Z.of_nat k -> Z.of_nat (h + k) < 2 ^ 15 ->
  let '(s', x) := index_loop alloc fuel (t_block <$> F) (t_key <$> F) (Z.of_nat (S h)) 4096 idx bufs s in
  exists new, fresh X new /\ holds s' (list_to_set new ∪ X) /\
    match x with
    | Ret (root, key, idx', bufs') =>
        exists h' (t : tree h') newbufs, (h <= h' <= h + k)%nat /\
          t_block t = root /\ t_key t = key /\ t_leaves t = concat (t_leaves <$> F) /\
          t_nodes t ≡ₚ new ++ concat (t_nodes <$> F) /\
          idx' = idx ++ new /\ bufs' = bufs ++ newbufs /\ length new = length newbufs /\
          Forall (fun buf => length buf = 4096%nat) newbufs /\
          (forall r, Forall (stored r) F -> written r new newbufs -> stored r t)
    | Err (ErrAllocIdx idx' bufs' _) => idx' = idx ++ new
    | _ => False
    end.
Proof using HA.
  induction fuel as [|fuel IH]; intros h F k X idx bufs s Hs HF Hl Hk Hh; [lia|].
  destruct F as [|t1 F]; [simpl in Hl; lia|]. destruct F as [|t2 F].
  { cbn [index_loop fmap list_fmap]. exists []. cbn [list_to_set]. rewrite (left_id_L ∅ (∪)).
    split_and!; [apply fresh_nil|done|].
    exists h, t1, []. cbn [concat]. rewrite !app_nil_r. split_and!; try done; try lia.
    intros r Hr _. by apply Forall_cons_1 in Hr as [? _]. }
  set (G := t1 :: t2 :: F) in *. assert (HG : (2 <= length G)%nat) by (unfold G; simpl; lia).
  destruct k as [|k]; [simpl in Hk; lia|].
  change (index_loop alloc (S fuel) (t_block <$> G) (t_key <$> G) (Z.of_nat (S h)) 4096 idx bufs s) with
    (match index_round alloc (Z.of_nat (S h)) 4096 (t_block <$> G) (t_key <$> G) idx bufs s with
     | (s', Ret (nextBlocks, nextKeys, idxBlocks, bufs)) =>
         index_loop alloc fuel nextBlocks nextKeys (u16 (Z.of_nat (S h) + 1)) 4096 idxBlocks bufs s'
     | (s', Err e) => (s', Err e)
     | (s', Panic) => (s', Panic)
     end).
  pose proof (index_round_spec h G k X idx bufs s Hs HF HG Hk ltac:(lia)) as R. clearbody G.
  destruct (index_round _ _ _ _ _ _ _ s) as [s1 x1]. destruct R as (new & Hf & Hs1 & Hx).
  destruct x1 as [[[[nb nk] idx1] bufs1]|e|]; [|by exists new|done].
  destruct Hx as (F' & nbufs & -> & -> & -> & -> & -> & Hl' & Hk' & HF' & HI).
  assert (Hu : forest_u64 F') by (apply forest_u64_level; [by eapply fresh_u64|by rewrite HF']).
  rewrite u16_small by (unfold is_u16; lia).
  replace (Z.of_nat (S h) + 1) with (Z.of_nat (S (S h))) by lia.
  specialize (IH (S h) F' k _ (idx ++ (t_block <$> F')) (bufs ++ nbufs) s1 Hs1 Hu ltac:(lia) Hk' ltac:(lia)).
  destruct (index_loop _ _ _ _ _ _ _ _ s1) as [s2 x2]. destruct IH as (new2 & Hf2 & Hs2 & Hx2).
  exists ((t_block <$> F') ++ new2). split_and!; [by apply fresh_app|by rewrite list_to_set_app_L, (comm_L (∪) _ (list_to_set new2)), <- (assoc_L (∪))|].
  rewrite <- !app_assoc in Hx2. destruct x2 as [[[[root key] idx2] bufs2]|e|]; [|done|done].
  destruct Hx2 as (h' & t & nb2 & B1 & B2 & B3 & B4 & B5 & B6 & B7 & B8 & B9 & B10).
  exists h', t, (nbufs ++ nb2). rewrite <- HF', <- forest_leaves.
  pose proof (Forall2_length _ _ _ HI) as HIl.
  split_and!; [lia|lia|done|done|done| |done|by rewrite B7, <- app_assoc|rewrite !length_app, length_fmap; lia| |].
  - by rewrite B5, forest_nodes, (Permutation_app_comm (t_block <$> F') new2), <- app_assoc.
  - apply Forall_app. split; [|done]. clear - HI. induction HI as [|? ? ? ? [? _]]; by constructor.
  - intros r Hr Hw. apply written_app in Hw as [Hw1 Hw2]; [|by rewrite length_fmap].
    apply B10; [|done]. by apply stored_level with nbufs.
Qed.

End levels.

(** ** Chunks *)

Lemma chunk_loop_concat fuel : forall l, (length l <= fuel)%nat -> concat (chunk_loop fuel l) = l.
Proof.
  induction fuel as [|fuel IH]; intros [|e l] Hl; [done|simpl in Hl; lia|done|].
  cbn [chunk_loop concat]. rewrite IH; [by rewrite take_drop|]. rewrite length_drop. simpl in *. lia.
Qed.

Lemma ChunkBtreeExtents_concat l : concat (ChunkBtreeExtents l) = l.
Proof. by apply chunk_loop_concat. Qed.

Lemma chunk_loop_ok fuel : forall l,
  structs_wf l -> ext_sorted l -> Forall chunk_ok (chunk_loop fuel l).
Proof.
  induction fuel as [|fuel IH]; intros [|e l] Hw Hs; [constructor..|]. cbn [chunk_loop].
  rewrite <- (take_drop 126 (e :: l)) in Hs. apply StronglySorted_app in Hs as (_ & Hs1 & Hs2).
  constructor; [|apply IH; [by apply Forall_drop|done]].
  split_and!; [by apply Forall_take|done|done|]. rewrite length_take. lia.
Qed.

Lemma chunk_loop_length fuel : forall l, (length (chunk_loop fuel l) <= fuel)%nat.
Proof. induction fuel as [|fuel IH]; intros [|e l]; cbn [chunk_loop length]; try lia. specialize (IH (drop 126 (e :: l))). lia. Qed.

Lemma ChunkBtreeExtents_length l :
  l <> [] -> (1 <= length (ChunkBtreeExtents l) <= length l)%nat.
Proof.
  intros Hl. unfold ChunkBtreeExtents. pose proof (chunk_loop_length (length l) l).
  destruct l as [|e l]; [done|]. cbn [length chunk_loop] in *. lia.
Qed.

(** What can be packed into a tree. *)
Definition packable (exts : list Extent) : Prop :=
  structs_wf exts /\ ext_sorted exts /\ exts <> [] /\ Z.of_nat (length exts) < 2 ^ 63.

Lemma packable_chunks exts : packable exts -> Forall chunk_ok (ChunkBtreeExtents exts).
Proof. intros (Hw & Hs & _). by apply chunk_loop_ok. Qed.

(** ** The two builders *)

Definition leaves_u64 (lvs : list leaf) : Prop := forest_u64 (h := 0) lvs.

Lemma leaves_forest_u64 (lvs : list leaf) :
  Forall is_u64 (lf_block <$> lvs) -> Forall chunk_ok (lf_exts <$> lvs) -> leaves_u64 lvs.
Proof.
  unfold leaves_u64, forest_u64. induction lvs as [|l lvs IH]; intros Hb Hc; [constructor|].
  csimpl in *. apply Forall_cons_1 in Hb as [Hb Hbs]. apply Forall_cons_1 in Hc as [(Hw & _) Hcs].
  constructor; [|by apply IH]. split; [done|]. simpl. destruct (lf_exts l) as [|e es]; [unfold is_u64; lia|].
  apply Forall_cons_1 in Hw as [[Hf _] _]. apply Forall_cons_1 in Hf as [Hf _]. simpl in Hf. unfold is_u64. lia.
Qed.

Section builders.
Context {AE St : Type} {alloc : St -> St * res AE Z} {holds : St -> gset Z -> Prop}.
Context {HA : BlockAlloc alloc holds}.

Lemma BuildBtreeLeaves_spec exts X s : packable exts -> holds s X ->
  let '(s', x) := BuildBtreeLeaves alloc exts 4096 s in
  exists new, fresh X new /\ holds s' (list_to_set new ∪ X) /\
    match x with
    | Ret (blocks, offs, bufs) =>
        blocks = new /\ exists lvs : list leaf,
          lf_block <$> lvs = new /\ offs = t_key (h := 0) <$> lvs /\
          lf_exts <$> lvs = ChunkBtreeExtents exts /\ Forall2 leaf_image lvs bufs /\ chained lvs
    | Err (ErrAllocLeaf got _) => got = new
    | _ => False
    end.
Proof using HA.
  intros Hp Hs. pose proof (packable_chunks exts Hp) as Hc. destruct Hp as (_ & _ & Hne & _).
  unfold BuildBtreeLeaves. destruct exts as [|e0 es]; [done|]. set (exts := e0 :: es) in *.
  pose proof (alloc_leaves_spec (length (ChunkBtreeExtents exts)) X [] s Hs) as A.
  destruct (alloc_leaves alloc _ [] s) as [s1 x1]. destruct A as (new & Hf & Hs1 & Hx).
  destruct x1 as [bs|e|]; [|by exists new|done]. destruct Hx as [-> Hl]. cbn [app].
  destruct (leaf_bufs_spec (AE := AE) (ChunkBtreeExtents exts) new) as (lvs & bufs & -> & E1 & E2 & E3 & E4);
    [done|by eapply fresh_u64|done|].
  cbn [mbind res_bind]. exists new. split_and!; [done..|]. by exists lvs.
Qed.

Lemma BuildBtreeIndex_spec (lvs : list leaf) X s :
  leaves_u64 lvs -> (1 <= length lvs)%nat -> Z.of_nat (length lvs) < 2 ^ 63 -> holds s X ->
  let '(s', x) := BuildBtreeIndex alloc (lf_block <$> lvs) (t_key (h := 0) <$> lvs) 4096 1 s in
  exists new, fresh X new /\ holds s' (list_to_set new ∪ X) /\
    match x with
    | Ret (root, key, idxBlocks, bufs) =>
        exists h (t : tree h), (h <= 8)%nat /\ t_block t = root /\ t_leaves t = lvs /\
          t_nodes t ≡ₚ new ++ (lf_block <$> lvs) /\ idxBlocks = new /\ length new = length bufs /\
          Forall (fun buf => length buf = 4096%nat) bufs /\
          (forall r, Forall (stored (h := 0) r) lvs -> written r new bufs -> stored r t)
    | Err (ErrAllocIdx idxBlocks _ _) => idxBlocks = new
    | _ => False
    end.
Proof using HA.
  intros Hu Hl1 Hl2 Hs. unfold BuildBtreeIndex. rewrite !length_fmap, Nat.eqb_refl. cbn [negb].
  destruct lvs as [|l1 lvs]; [simpl in Hl1; lia|]. destruct lvs as [|l2 lvs].
  { exists []. simpl. rewrite (left_id_L ∅ (∪)). split_and!; [apply fresh_nil|done|].
    exists 0%nat, l1. split_and!; try done; try lia. intros r Hr _. by apply Forall_cons_1 in Hr as [? _]. }
  set (G := l1 :: l2 :: lvs) in *.
  change (match lf_block <$> G with
    | [] => (s, Err ErrNoChildren)
    | [b] => match t_key (h := 0) <$> G with
             | k :: _ => (s, Ret (b, k, [], []))
             | [] => index_loop alloc (length G) (lf_block <$> G) (t_key (h := 0) <$> G) 1 4096 [] [] s
             end
    | _ => index_loop alloc (length G) (lf_block <$> G) (t_key (h := 0) <$> G) 1 4096 [] [] s end)
    with (index_loop alloc (length G) (lf_block <$> G) (t_key (h := 0) <$> G) 1 4096 [] [] s).
  pose proof (index_loop_spec (length G) 0 G 8 X [] [] s Hs Hu
    ltac:(split; [exact Hl1|done]) ltac:(change (254 ^ Z.of_nat 8) with (254 ^ 8); change (tree 0) with leaf; lia)
    ltac:(lia)) as L.
  change (Z.of_nat 1) with 1 in L. change (t_block (h := 0)) with lf_block in L. clearbody G.
  destruct (index_loop _ _ _ _ _ _ _ _ s) as [s' x]. destruct L as (new & Hf & Hs' & Hx).
  exists new. split_and!; [done..|]. destruct x as [[[[root key] idx'] bufs']|e|]; [|done|done].
  destruct Hx as (h' & t & nb & B1 & B2 & B3 & B4 & B5 & B6 & B7 & B8 & B9 & B10).
  exists h', t. simpl in B6, B7. subst idx' bufs'.
  assert (C1 : concat (t_leaves (h := 0) <$> G) = G) by (clear; induction G; csimpl; by f_equal).
  assert (C2 : concat (t_nodes (h := 0) <$> G) = lf_block <$> G) by (clear; induction G; csimpl; by f_equal).
  rewrite C1 in B4. rewrite C2 in B5. split_and!; try done. lia.
Qed.

End builders.
