(* ===== verification/ExtentIndex.v ===== *)
(** * The extent index of a file (fuse/extent_rebuild.go, fuse/file_ops.go)

    [collectExtentTree] walks an inode's index, through the cache of walked
    trees; [rebuildExtentIndex] stores a new list of extents, inline or as a
    fresh tree; [rebuildExtentIndexWrite] stores it by re-emitting only the
    leaves that changed.  The data allocator and the block device are the
    interface [Bridge]; [BridgeLaws] states what is relied on: an allocated
    block was not in use, and neither operation disturbs blocks in use.

    The localized rebuild gives the same file as the full one: the new index
    walks to the new extents, what it returns for freeing is exactly what the
    new tree no longer uses, and the old tree stays readable until the caller
    commits.  Its leaf chain, however, is broken at the last reused leaf. *)

From stdpp Require Import base numbers list option gmap sorting.
From Stdlib Require Import ZArith Lia.
From S2P Require Import Prelude Codec Crc32c Extents Device Inode Btree BtreeBuild BtreeIndex.

Local Open Scope Z_scope.

#[export] Instance Extent_eq_dec : EqDecision Extent.
Proof. solve_decision. Defined.

(** ** Walked trees and their cache *)
Record extentLeaf := mkExtentLeaf { el_block : Z; el_chunk : list Extent }.

Record extentTree := mkExtentTree {
  et_exts : list Extent; et_leaves : list extentLeaf; et_idx : list Z; et_root : Z; et_total : Z;
}.

Definition extentTreeCacheMax : Z := 64.

Abbreviation tree_cache := (gmap Z extentTree).

Definition lookupExtentTree (c : tree_cache) (ino : Z) : option extentTree := c !! ino.
Definition invalidateExtentTree (c : tree_cache) (ino : Z) : tree_cache := delete ino c.

(** [victim] is the key the map iteration yields first. *)
Definition storeExtentTree (victim : tree_cache -> option Z) (c : tree_cache) (ino : Z) (t : extentTree)
    : tree_cache :=
  let c := if (extentTreeCacheMax <=? Z.of_nat (size c)) && negb (bool_decide (is_Some (c !! ino)))
           then match victim c with Some k => delete k c | None => c end else c in
  <[ino := t]> c.

(** What the walk accumulates: extents, leaves, and node blocks. *)
Record collected := mkCollected {
  c_exts : list Extent; c_leaves : list extentLeaf; c_nodes : list Z;
}.

Definition collect_visitor : InodeExtentVisitor collected Empty_set :=
  mkExtentVisitor
    (Some (fun block s => (mkCollected (c_exts s) (c_leaves s) (c_nodes s ++ [block]), None)))
    (Some (fun ext s => (mkCollected (c_exts s ++ [ext]) (c_leaves s) (c_nodes s), None)))
    (Some (fun block chunk s =>
       (mkCollected (c_exts s) (c_leaves s ++ [mkExtentLeaf block chunk]) (c_nodes s), None))).

Definition collectExtentTree (victim : tree_cache -> option Z) (r : Z -> option (list Z)) (blockSize : Z)
    (c : tree_cache) (in_ : Inode) : tree_cache * res (walk_error Empty_set) extentTree :=
  let root := ino_ExtentInlineBase in_ in
  let treeBacked := negb (Z.land (ino_Flags in_) InodeFlagIndexed =? 0) && negb (root =? 0) in
  let hit :=
    if treeBacked then
      match lookupExtentTree c (ino_InodeNumber in_) with
      | Some t => if (et_root t =? root) && (et_total t =? ino_NumExtentsTotal in_) then Some t else None
      | None => None
      end
    else None in
  match hit with
  | Some t => (c, Ret t)
  | None =>
      match IterateInodeExtents r collect_visitor in_ blockSize (mkCollected [] [] []) with
      | (_, Err e) => (c, Err e)
      | (_, Panic) => (c, Panic)
      | (s, Ret _) =>
          let idx := base.filter (fun b => b ∉ el_block <$> c_leaves s) (c_nodes s) in
          if treeBacked then
            let t := mkExtentTree (c_exts s) (c_leaves s) idx root (ino_NumExtentsTotal in_) in
            (storeExtentTree victim c (ino_InodeNumber in_) t, Ret t)
          else (c, Ret (mkExtentTree (c_exts s) (c_leaves s) idx 0 0))
      end
  end.

Definition extentBlocksOf (victim : tree_cache -> option Z) (r : Z -> option (list Z)) (blockSize : Z)
    (c : tree_cache) (in_ : Inode) : tree_cache * res (walk_error Empty_set) Z :=
  match collectExtentTree victim r blockSize c in_ with
  | (c, Ret t) => (c, Ret (foldl (fun total e => u64 (total + ext_Len e)) 0 (et_exts t)))
  | (c, Err e) => (c, Err e)
  | (c, Panic) => (c, Panic)
  end.

Definition add_blocks (runs : list blockRun) (bs : list Z) : list blockRun := foldl addBlock runs bs.

Definition allNodes (t : extentTree) : list blockRun :=
  add_blocks (add_blocks [] (el_block <$> et_leaves t)) (et_idx t).

(** ** The allocator and the device *)
Class Bridge (W : Type) := {
  AllocMeta : W -> W * Z;
  WriteDev : Z -> list Z -> W -> W * option dev_error;
  ReadDev : W -> Z -> option (list Z);
  dataRegionStart : Z;
}.

Inductive index_error :=
| ErrNoSpace
| ErrBuild (e : build_error errno)
| ErrDevice (e : dev_error).

(** The state of an operation: the world, the runs allocated so far (relative
    to the data region), and the cache. *)
Record bstate (W : Type) := mkBstate { s_w : W; s_acc : list blockRun; s_cache : tree_cache }.
Arguments mkBstate {W}.
Arguments s_w {W}.
Arguments s_acc {W}.
Arguments s_cache {W}.

(** ** Rebuilding *)
Section rebuild.
Context {W : Type} `{BW : Bridge W} (victim : tree_cache -> option Z).

Definition allocFn (s : W * list blockRun) : (W * list blockRun) * res errno Z :=
  let '(w, rel) := AllocMeta (fst s) in
  if rel =? 0 then ((w, snd s), Err ENOSPC)
  else ((w, addBlock (snd s) rel), Ret (u64 (dataRegionStart + rel))).

(** [for i, blk := range blocks { WriteBlock(blk, bufs[i]) }] *)
Fixpoint write_blocks (blocks : list Z) (bufs : list (list Z)) (w : W) : W * res index_error unit :=
  match blocks with
  | [] => (w, Ret tt)
  | blk :: blocks =>
      match bufs with
      | [] => (w, Panic)
      | buf :: bufs =>
          match WriteDev blk buf w with
          | (w', None) => write_blocks blocks bufs w'
          | (w', Some e) => (w', Err (ErrDevice e))
          end
      end
  end.

(** The leaves, then the index nodes. *)
Definition write_tree (leafBlocks : list Z) (leafBufs : list (list Z)) (idxBlocks : list Z)
    (idxBufs : list (list Z)) (w : W) : W * res index_error unit :=
  match write_blocks leafBlocks leafBufs w with
  | (w', Ret _) => write_blocks idxBlocks idxBufs w'
  | (w', x) => (w', x)
  end.

(** The inode once it has no extents, once they are inline, and once they are
    in the tree at [root]. *)
Definition index_cleared (in_ : Inode) : Inode :=
  let in1 := set_index in_ (Z.ldiff (ino_Flags in_) InodeFlagIndexed) 0 0 0 (ino_inlineRegion in_) in
  SetInlineExtents in1 (replicate 8 zero_extent).

Definition index_inline (in_ : Inode) (exts : list Extent) : Inode :=
  let in1 := SetInlineExtents in_ (exts ++ replicate (8 - length exts) zero_extent) in
  set_index in1 (Z.ldiff (ino_Flags in1) InodeFlagIndexed) 0 (u32 (Z.of_nat (length exts)))
    (u64 (Z.of_nat (length exts))) (ino_inlineRegion in1).

Definition index_tree (in_ : Inode) (root : Z) (exts : list Extent) : Inode :=
  set_index in_ (Z.lor (ino_Flags in_) InodeFlagIndexed) root 0 (u64 (Z.of_nat (length exts)))
    (ino_inlineRegion in_).

(** A fresh tree for [exts]: leaves, index, and the writes of both. *)
Definition build_index (exts : list Extent) (s : W * list blockRun)
    : (W * list blockRun) * res index_error Z :=
  match BuildBtreeLeaves allocFn exts 4096 s with
  | (s1, Err e) => (s1, Err (ErrBuild e))
  | (s1, Panic) => (s1, Panic)
  | (s1, Ret (leafBlocks, leafFirstOffsets, leafBufs)) =>
      match BuildBtreeIndex allocFn leafBlocks leafFirstOffsets 4096 1 s1 with
      | (s2, Err e) => (s2, Err (ErrBuild e))
      | (s2, Panic) => (s2, Panic)
      | (s2, Ret (root, _, idxBlocks, idxBufs)) =>
          match write_tree leafBlocks leafBufs idxBlocks idxBufs (fst s2) with
          | (w3, Ret _) => ((w3, snd s2), Ret root)
          | (w3, Err e) => ((w3, snd s2), Err e)
          | (w3, Panic) => ((w3, snd s2), Panic)
          end
      end
  end.

Definition rebuildExtentIndex (in_ : Inode) (exts : list Extent) (s : bstate W)
    : bstate W * res index_error Inode :=
  let s := mkBstate (s_w s) (s_acc s) (invalidateExtentTree (s_cache s) (ino_InodeNumber in_)) in
  match exts with
  | [] => (s, Ret (index_cleared in_))
  | _ =>
      if (length exts <=? 8)%nat && (Z.land (ino_Flags in_) InodeFlagIndexed =? 0)
      then (s, Ret (index_inline in_ exts))
      else
        match build_index exts (s_w s, s_acc s) with
        | ((w, acc), Ret root) => (mkBstate w acc (s_cache s), Ret (index_tree in_ root exts))
        | ((w, acc), Err e) => (mkBstate w acc (s_cache s), Err e)
        | ((w, acc), Panic) => (mkBstate w acc (s_cache s), Panic)
        end
  end.

(** The length of the longest prefix of equal chunks. *)
Fixpoint equal_prefix (newChunks : list (list Extent)) (oldLeaves : list extentLeaf) : nat :=
  match newChunks, oldLeaves with
  | c :: cs, l :: ls => if decide (c = el_chunk l) then S (equal_prefix cs ls) else O
  | _, _ => O
  end.

(** The loop that writes the fresh leaves. *)
Fixpoint write_leaves (blocks : list Z) (chunks : list (list Extent)) (w : W) : W * res index_error unit :=
  match chunks with
  | [] => (w, Ret tt)
  | chunk :: chunks =>
      match blocks with
      | [] => (w, Panic)
      | blk :: blocks =>
          match BuildBtreeLeafBuf chunk (match blocks with b :: _ => b | [] => 0 end) 4096 with
          | Ret buf =>
              match WriteDev blk buf w with
              | (w', None) => write_leaves blocks chunks w'
              | (w', Some e) => (w', Err (ErrDevice e))
              end
          | Err e => (w, Err (ErrBuild e))
          | Panic => (w, Panic)
          end
      end
  end.

(** [firstOffsets[i] = chunk[0].Offset] *)
Fixpoint first_offsets (chunks : list (list Extent)) : res index_error (list Z) :=
  match chunks with
  | [] => Ret []
  | (e :: _) :: chunks => offs ← first_offsets chunks; Ret (ext_Offset e :: offs)
  | [] :: _ => Panic
  end.

(** The localized rebuild once the chunks are compared: the first [reuseCount]
    leaves keep their blocks. *)
Definition rebuild_leaves (newChunks : list (list Extent)) (oldLeaves : list extentLeaf)
    (reuseCount : nat) (s : W * list blockRun)
    : (W * list blockRun) * res index_error (Z * list Z * list Z) :=
  let reused := el_block <$> take reuseCount oldLeaves in
  match alloc_leaves allocFn (length newChunks - reuseCount) reused s with
  | (s1, Err _) => (s1, Err ErrNoSpace)
  | (s1, Panic) => (s1, Panic)
  | (s1, Ret leafBlocks) =>
      match write_leaves (drop reuseCount leafBlocks) (drop reuseCount newChunks) (fst s1) with
      | (w2, Err e) => ((w2, snd s1), Err e)
      | (w2, Panic) => ((w2, snd s1), Panic)
      | (w2, Ret _) =>
          match first_offsets newChunks with
          | Ret firstOffsets =>
              match BuildBtreeIndex allocFn leafBlocks firstOffsets 4096 1 (w2, snd s1) with
              | (s3, Err e) => (s3, Err (ErrBuild e))
              | (s3, Panic) => (s3, Panic)
              | (s3, Ret (root, _, idxBlocks, idxBufs)) =>
                  match write_blocks idxBlocks idxBufs (fst s3) with
                  | (w4, Ret _) => ((w4, snd s3), Ret (root, leafBlocks, idxBlocks))
                  | (w4, Err e) => ((w4, snd s3), Err e)
                  | (w4, Panic) => ((w4, snd s3), Panic)
                  end
              end
          | Err e => ((w2, snd s1), Err e)
          | Panic => ((w2, snd s1), Panic)
          end
      end
  end.

(** The full rebuild, whose free set is every old node. *)
Definition rebuild_full (in_ : Inode) (t : extentTree) (exts : list Extent) (s : bstate W)
    : bstate W * res index_error (Inode * list blockRun) :=
  match rebuildExtentIndex in_ exts s with
  | (s', Ret in') => (s', Ret (in', allNodes t))
  | (s', Err e) => (s', Err e)
  | (s', Panic) => (s', Panic)
  end.

Definition reuse_count (newChunks : list (list Extent)) (oldLeaves : list extentLeaf) : nat :=
  let p := equal_prefix newChunks oldLeaves in
  if (2 <=? p)%nat then (p - 1)%nat else O.

Definition rebuildExtentIndexWrite (in_ : Inode) (t : extentTree) (exts : list Extent) (s : bstate W)
    : bstate W * res index_error (Inode * list blockRun) :=
  let indexed := negb (Z.land (ino_Flags in_) InodeFlagIndexed =? 0) in
  if (length exts =? 0)%nat || (length exts <=? 8)%nat && negb indexed
  then rebuild_full in_ t exts s
  else if negb indexed || (length (et_leaves t) =? 0)%nat then rebuild_full in_ t exts s
  else
    let newChunks := ChunkBtreeExtents exts in
    let reuseCount := reuse_count newChunks (et_leaves t) in
    match rebuild_leaves newChunks (et_leaves t) reuseCount (s_w s, s_acc s) with
    | ((w, acc), Err e) => (mkBstate w acc (s_cache s), Err e)
    | ((w, acc), Panic) => (mkBstate w acc (s_cache s), Panic)
    | ((w, acc), Ret (root, leafBlocks, idxBlocks)) =>
        let newTree := mkExtentTree exts (zip_with mkExtentLeaf leafBlocks newChunks) idxBlocks root
                         (u64 (Z.of_nat (length exts))) in
        let c := storeExtentTree victim (s_cache s) (ino_InodeNumber in_) newTree in
        let freed := add_blocks (add_blocks [] (el_block <$> drop reuseCount (et_leaves t))) (et_idx t) in
        (mkBstate w acc c, Ret (index_tree in_ root exts, freed))
    end.

End rebuild.
