(* ===== verification/ExtentRebuild.v ===== *)
(** * The rebuilt extent index is the new file (fuse/extent_rebuild.go)

    What a walk of an inode's index collects, and the correctness of the full
    and of the localized rebuild against any allocator and device that satisfy
    [BridgeLaws]. *)

From stdpp Require Import base numbers list option gmap sorting.
From Stdlib Require Import ZArith Lia.
From S2P Require Import Prelude Codec Crc32c Extents Device Inode Btree BtreeBuild BtreeIndex ExtentIndex.

Local Open Scope Z_scope.

(** ** What a walk collects *)

Definition as_leaf (l : leaf) : extentLeaf := mkExtentLeaf (lf_block l) (lf_exts l).

Lemma visit_extents_collect exts : forall s,
  visit_all_extents collect_visitor exts s
  = (mkCollected (c_exts s ++ exts) (c_leaves s) (c_nodes s), None).
Proof.
  unfold visit_all_extents. cbn [iv_VisitExtent collect_visitor].
  induction exts as [|e exts IH]; intros s; cbn [visit_extents].
  - rewrite app_nil_r. by destruct s.
  - rewrite IH. cbn [c_exts c_leaves c_nodes]. by rewrite <- app_assoc.
Qed.

Lemma collect_events (r : Z -> option (list Z)) {h} : forall (t : tree h) depth lvl isRoot s,
  run_events (tree_visitor collect_visitor) (t_events r t depth lvl isRoot) s
  = (mkCollected (c_exts s ++ t_extents t) (c_leaves s ++ (as_leaf <$> t_leaves t))
       (c_nodes s ++ t_nodes t), None).
Proof.
  induction h as [|h IH]; intros t depth lvl isRoot s.
  - cbn [t_events run_events run_event tree_visitor VisitNode VisitLeaf iv_VisitNode iv_VisitLeafChunk
         collect_visitor ni_Block].
    rewrite visit_extents_collect. cbn [c_exts c_leaves c_nodes].
    unfold t_extents. cbn [t_leaves t_nodes fmap list_fmap concat]. by rewrite app_nil_r.
  - destruct t as [b kids]. cbn [t_events run_events run_event tree_visitor VisitNode iv_VisitNode
      collect_visitor ni_Block fst snd].
    unfold t_extents. cbn [t_leaves t_nodes fst snd].
    set (f := fun k : tree h => t_events r k (depth + 1) _ false).
    assert (G : forall F s, run_events (tree_visitor collect_visitor) (concat (f <$> F)) s
      = (mkCollected (c_exts s ++ concat (lf_exts <$> concat (t_leaves <$> F)))
           (c_leaves s ++ (as_leaf <$> concat (t_leaves <$> F)))
           (c_nodes s ++ concat (t_nodes <$> F)), None)).
    { clear - IH. induction F as [|k F IHF]; intros s; rewrite ?fmap_cons; cbn [concat].
      - rewrite !app_nil_r. by destruct s.
      - rewrite run_events_app. unfold f at 1. rewrite IH, IHF. cbn [c_exts c_leaves c_nodes].
        unfold t_extents. by rewrite !fmap_app, concat_app, <- !app_assoc. }
    rewrite G. cbn [c_exts c_leaves c_nodes]. by rewrite <- app_assoc.
Qed.

(** [in_] walks to [exts]. *)
Definition is_indexed (in_ : Inode) : Prop :=
  Z.land (ino_Flags in_) InodeFlagInlineData = 0 /\ Z.land (ino_Flags in_) InodeFlagIndexed <> 0.

Lemma iterate_tree r {h} (t : tree h) in_ s :
  is_indexed in_ -> tree_at r (ino_ExtentInlineBase in_) t ->
  IterateInodeExtents r collect_visitor in_ 4096 s
  = (mkCollected (c_exts s ++ t_extents t) (c_leaves s ++ (as_leaf <$> t_leaves t))
       (c_nodes s ++ t_nodes t), Ret tt).
Proof.
  intros [H1 H2] Ht. unfold IterateInodeExtents. rewrite H1. cbn [negb Z.eqb].
  rewrite (proj2 (Z.eqb_neq _ _) H2).
  assert (H0 : ino_ExtentInlineBase in_ <> 0).
  { destruct Ht as (<- & _ & _ & Hnz & _). rewrite Forall_forall in Hnz. apply Hnz, t_block_node. }
  rewrite (proj2 (Z.eqb_neq _ _) H0), (WalkBtree_stored _ _ _ t) by done.
  by rewrite collect_events.
Qed.

Lemma add_blocks_app acc bs bs' : add_blocks acc (bs ++ bs') = add_blocks (add_blocks acc bs) bs'.
Proof. apply foldl_app. Qed.

(** ** What the rebuild relies on

    [holds w X]: in the world [w] the blocks of [X] are in use. *)
Definition agree {W} `{Bridge W} (X : gset Z) (w w' : W) : Prop :=
  forall x, x ∈ X -> at_block (ReadDev w') x = at_block (ReadDev w) x.

Section agree.
Context {W : Type} {BW : Bridge W}.
Implicit Types (w : W) (X : gset Z).

Lemma agree_refl X w : agree X w w.
Proof. by intros x. Qed.

Lemma agree_trans X w1 w2 w3 : agree X w1 w2 -> agree X w2 w3 -> agree X w1 w3.
Proof. intros H1 H2 x Hx. by rewrite H2, H1. Qed.

Lemma agree_mono X Y w w' : X ⊆ Y -> agree Y w w' -> agree X w w'.
Proof. intros HX H x Hx. apply H. set_solver. Qed.

End agree.

Class BridgeLaws (W : Type) `{BW : Bridge W} (holds : W -> gset Z -> Prop) : Prop := {
  law_start : 0 <= dataRegionStart;
  law_alloc w X w' rel : holds w X -> AllocMeta w = (w', rel) -> agree X w w' /\
    (rel = 0 /\ holds w' X \/
     0 < rel /\ dataRegionStart + rel < 2 ^ 51 /\ (dataRegionStart + rel ∉ X) /\
     holds w' ({[dataRegionStart + rel]} ∪ X));
  law_write w X b buf w' x : holds w X -> b ∈ X -> length buf = 4096%nat ->
    WriteDev b buf w = (w', x) ->
    holds w' X /\ agree (X ∖ {[b]}) w w' /\ (x = None -> at_block (ReadDev w') b = Some buf);
}.

Section rebuild.
Context {W : Type} {BW : Bridge W} {holds : W -> gset Z -> Prop} {HL : BridgeLaws W holds}.
Implicit Types (w : W) (X : gset Z) (acc : list blockRun).

(** The ways in which a rebuild may fail: no block is free, or the device fails. *)
Definition resource_error (e : index_error) : Prop :=
  match e with
  | ErrNoSpace | ErrBuild (ErrAllocLeaf _ _) | ErrBuild (ErrAllocIdx _ _ _) | ErrDevice _ => True
  | ErrBuild _ => False
  end.

(** The absolute blocks of data-relative ones. *)
Definition abs_blocks (rels : list Z) : list Z := Z.add dataRegionStart <$> rels.

(** From [w0] with [X0] in use and [acc0] accumulated, the operation has
    allocated [rels]: they are in use, the runs account for them, and [X0] reads
    as before. *)
Definition tracked (w0 : W) (X0 : gset Z) (acc0 : list blockRun) (s : W * list blockRun) (X : gset Z) : Prop :=
  holds (fst s) X /\ agree X0 w0 (fst s) /\
  exists rels, X = list_to_set (abs_blocks rels) ∪ X0 /\ snd s = add_blocks acc0 rels /\
    fresh X0 (abs_blocks rels).

Lemma tracked_start w X acc : holds w X -> tracked w X acc (w, acc) X.
Proof using.
  clear HL. intros Hh. split_and!; [done|apply agree_refl|]. exists []. split_and!; [set_solver|done|apply fresh_nil].
Qed.

#[local] Instance allocFn_spec w0 X0 acc0 : BlockAlloc allocFn (tracked w0 X0 acc0).
Proof using HL.
  pose proof (law_start (W := W)) as H0. split.
  - intros [w acc] X [w' acc'] b (Hh & Ha & rels & HX & Hacc & Hr) E. cbn [fst snd] in *.
    unfold allocFn in E. cbn [fst snd] in E. destruct (AllocMeta w) as [w1 rel] eqn:EA.
    destruct (law_alloc w X w1 rel Hh EA) as [Hag [[-> Hh1]|(Hrel & Hlt & Hnin & Hh1)]]; [done|].
    rewrite (proj2 (Z.eqb_neq _ _)) in E by lia. injection E as <- <- <-.
    rewrite u64_small by (unfold is_u64; lia). split_and!; [lia|lia|done|].
    split_and!; cbn [fst snd]; [done| |].
    + eapply agree_trans; [exact Ha|]. eapply agree_mono; [|exact Hag]. set_solver.
    + exists (rels ++ [rel]). unfold abs_blocks in *. rewrite fmap_app, list_to_set_app_L, add_blocks_app, <- Hacc.
      split_and!; [simpl; set_solver|done|]. apply fresh_app; [done|].
      apply fresh_cons; [lia|by rewrite <- HX|apply fresh_nil].
  - intros [w acc] X [w' acc'] e (Hh & Ha & rels & HX & Hacc & Hr) E. cbn [fst snd] in *.
    unfold allocFn in E. cbn [fst snd] in E. destruct (AllocMeta w) as [w1 rel] eqn:EA.
    destruct (law_alloc w X w1 rel Hh EA) as [Hag [[-> Hh1]|(Hrel & Hlt & Hnin & Hh1)]];
      [|by rewrite (proj2 (Z.eqb_neq _ _)) in E by lia].
    simplify_eq/=. split_and!; cbn [fst snd]; [done| |by exists rels].
    eapply agree_trans; [exact Ha|]. eapply agree_mono; [|exact Hag]. set_solver.
  - intros [w acc] X [w' acc'] _ E. unfold allocFn in E. destruct (AllocMeta _). by case_match.
Qed.

(** Writing blocks that are in use. *)
Lemma write_blocks_spec blocks : forall bufs w X, holds w X ->
  NoDup blocks -> list_to_set blocks ⊆ X -> length blocks = length bufs ->
  Forall (fun buf => length buf = 4096%nat) bufs ->
  let '(w', x) := write_blocks blocks bufs w in
  holds w' X /\ agree (X ∖ list_to_set blocks) w w' /\
  match x with Ret _ => written (ReadDev w') blocks bufs | Err e => resource_error e | Panic => False end.
Proof using HL.
  induction blocks as [|b blocks IH]; intros bufs w X Hh Hnd Hsub Hl Hlen; cbn [write_blocks].
  - destruct bufs; [|done]. split_and!; [done|apply agree_refl|constructor].
  - destruct bufs as [|buf bufs]; [done|]. apply NoDup_cons in Hnd as [Hb Hnd].
    apply Forall_cons_1 in Hlen as [Hbl Hlen]. cbn [list_to_set] in Hsub. simpl in Hl.
    assert (b ∈ X /\ list_to_set blocks ⊆ X) as [HbX HsX] by (clear - Hsub; set_solver). clear Hsub.
    assert (Hs1 : X ∖ list_to_set (b :: blocks) ⊆ X ∖ {[b]}) by (clear; set_solver).
    assert (Hs2 : X ∖ list_to_set (b :: blocks) ⊆ X ∖ list_to_set blocks) by (clear; set_solver).
    destruct (WriteDev b buf w) as [w1 x1] eqn:E.
    destruct (law_write w X b buf w1 x1 Hh HbX Hbl E) as (Hh1 & Ha1 & Hr1).
    destruct x1 as [e|]; [split_and!; [done|exact (agree_mono _ _ _ _ Hs1 Ha1)|done]|].
    specialize (IH bufs w1 X Hh1 Hnd HsX ltac:(lia) Hlen).
    destruct (write_blocks blocks bufs w1) as [w2 x2]. destruct IH as (Hh2 & Ha2 & Hx2).
    split_and!; [done| |].
    + eapply agree_trans; eapply agree_mono; [exact Hs1|exact Ha1|exact Hs2|exact Ha2].
    + destruct x2; [|done|done]. constructor; [|done]. rewrite Ha2; [by apply Hr1|].
      clear - HbX Hb. set_solver.
Qed.

Lemma written_leaves r lvs bufs :
  Forall2 leaf_image lvs bufs -> written r (lf_block <$> lvs) bufs -> Forall (stored (h := 0) r) lvs.
Proof using.
  clear. intros HI. induction HI as [|l buf lvs bufs [_ Hi] _ IH]; intros Hw; [constructor|].
  csimpl in Hw. apply Forall2_cons_1 in Hw as [Hw1 Hw2]. constructor; [|by apply IH]. by exists buf.
Qed.

Lemma leaf_images_length lvs bufs :
  Forall2 leaf_image lvs bufs -> Forall (fun buf => length buf = 4096%nat) bufs.
Proof using. clear. induction 1 as [|? ? ? ? [? _]]; by constructor. Qed.

(** Writes to newly allocated blocks keep what is tracked. *)
Lemma tracked_write w X acc s X2 (B : list Z) w3 :
  tracked w X acc s X2 -> holds w3 X2 -> agree (X2 ∖ list_to_set B) (fst s) w3 ->
  (forall b, b ∈ B -> b ∉ X) -> tracked w X acc (w3, snd s) X2.
Proof using.
  clear HL. intros (_ & Ha & rels & HX & Hacc & Hr) Hh Hag HB. split_and!; [done| |by exists rels].
  eapply agree_trans; [exact Ha|]. eapply agree_mono; [|exact Hag].
  intros x Hx. apply elem_of_difference. split; [rewrite HX; set_solver|].
  rewrite elem_of_list_to_set. intros HxB. by apply (HB x).
Qed.

Lemma written_agree (X : gset Z) w w' bs bufs :
  agree X w w' -> list_to_set bs ⊆ X -> written (ReadDev w) bs bufs -> written (ReadDev w') bs bufs.
Proof using.
  clear HL. intros Ha Hsub Hw. induction Hw as [|b buf bs bufs Hb Hw IH]; [constructor|].
  cbn [list_to_set] in Hsub. constructor; [|apply IH; clear - Hsub; set_solver].
  rewrite Ha; [done|]. clear - Hsub. set_solver.
Qed.

Lemma fresh_not_in X new b : fresh X new -> b ∈ new -> b ∉ X.
Proof using. clear. intros [_ Hf] Hb. rewrite Forall_forall in Hf. by apply (Hf b). Qed.

Lemma write_tree_spec w X acc s B1 B2 bufs1 bufs2 :
  tracked w X acc s (list_to_set (B1 ++ B2) ∪ X) -> fresh X (B1 ++ B2) ->
  length B1 = length bufs1 -> length B2 = length bufs2 ->
  Forall (fun buf => length buf = 4096%nat) (bufs1 ++ bufs2) ->
  let '(w', x) := write_tree B1 bufs1 B2 bufs2 (fst s) in
  tracked w X acc (w', snd s) (list_to_set (B1 ++ B2) ∪ X) /\
  match x with
  | Ret _ => written (ReadDev w') B1 bufs1 /\ written (ReadDev w') B2 bufs2
  | Err e => resource_error e
  | Panic => False
  end.
Proof using HL.
  intros Ht Hf L1 L2 Hlen. apply Forall_app in Hlen as [Hlen1 Hlen2].
  pose proof (proj1 Hf) as Hnd. apply NoDup_app in Hnd as (Hnd1 & Hdis & Hnd2).
  assert (Hs1 : list_to_set B1 ⊆ list_to_set (B1 ++ B2) ∪ X)
    by (rewrite list_to_set_app_L; clear; set_solver).
  assert (Hs2 : list_to_set B2 ⊆ list_to_set (B1 ++ B2) ∪ X)
    by (rewrite list_to_set_app_L; clear; set_solver).
  unfold write_tree. pose proof (write_blocks_spec B1 bufs1 (fst s) _ (proj1 Ht) Hnd1 Hs1 L1 Hlen1) as W1.
  destruct (write_blocks B1 bufs1 (fst s)) as [w3 x3]. destruct W1 as (Hh3 & Ha3 & Hx3).
  assert (Ht3 : tracked w X acc (w3, snd s) (list_to_set (B1 ++ B2) ∪ X)).
  { eapply tracked_write; [exact Ht|done|exact Ha3|]. intros b Hb. apply (fresh_not_in _ _ _ Hf).
    apply elem_of_app. by left. }
  destruct x3 as [[]|e|]; [|done|done].
  pose proof (write_blocks_spec B2 bufs2 w3 _ Hh3 Hnd2 Hs2 L2 Hlen2) as W2.
  destruct (write_blocks B2 bufs2 w3) as [w4 x4]. destruct W2 as (Hh4 & Ha4 & Hx4). split.
  { eapply (tracked_write _ _ _ (w3, snd s)); [exact Ht3|done|exact Ha4|]. intros b Hb.
    apply (fresh_not_in _ _ _ Hf). apply elem_of_app. by right. }
  destruct x4 as [[]|e|]; [|done|done]. split; [|done]. eapply written_agree; [exact Ha4| |exact Hx3].
  intros b Hb. apply elem_of_difference. split; [by apply Hs1|]. rewrite elem_of_list_to_set in *.
  by apply Hdis.
Qed.

(** The tree of a full rebuild. *)
Lemma build_index_spec exts w X acc : packable exts -> holds w X ->
  let '(s', x) := build_index exts (w, acc) in
  exists new, fresh X new /\ tracked w X acc s' (list_to_set new ∪ X) /\
  match x with
  | Ret root => exists h (t : tree h), tree_at (ReadDev (fst s')) root t /\ t_extents t = exts /\
      t_nodes t ≡ₚ new /\ chained (t_leaves t)
  | Err e => resource_error e
  | Panic => False
  end.
Proof using HL.
  intros Hp Hh. unfold build_index.
  pose proof (BuildBtreeLeaves_spec exts X (w, acc) Hp (tracked_start w X acc Hh)) as L.
  destruct (BuildBtreeLeaves allocFn exts 4096 (w, acc)) as [s1 x1].
  destruct L as (new1 & Hf1 & Ht1 & Hx1). destruct x1 as [[[blocks offs] bufs]|e|]; [|by exists new1; destruct e|done].
  destruct Hx1 as (-> & lvs & E1 & -> & E2 & HI & Hch).
  assert (Hu : leaves_u64 lvs).
  { apply leaves_forest_u64; [rewrite E1; by eapply fresh_u64|rewrite E2; by apply packable_chunks]. }
  pose proof (ChunkBtreeExtents_length exts ltac:(apply Hp)) as Hlen.
  rewrite <- E2, length_fmap in Hlen. destruct Hp as (_ & _ & _ & Hsm).
  pose proof (BuildBtreeIndex_spec lvs _ s1 Hu ltac:(lia) ltac:(lia) Ht1) as I. rewrite E1 in I.
  destruct (BuildBtreeIndex allocFn new1 _ 4096 1 s1) as [s2 x2].
  destruct I as (new2 & Hf2 & Ht2 & Hx2).
  assert (Hset : list_to_set new2 ∪ (list_to_set new1 ∪ X) = list_to_set (new1 ++ new2) ∪ X)
    by (rewrite list_to_set_app_L; clear; set_solver).
  rewrite Hset in Ht2. pose proof (fresh_app X new1 new2 Hf1 Hf2) as Hf.
  destruct x2 as [[[[root key] idx] ibufs]|e|]; [|by exists (new1 ++ new2); destruct e|done].
  destruct Hx2 as (h & t & Hh8 & Hroot & Hlv & Hnodes & -> & Hil & Hilen & Hst).
  assert (Hbl : length new1 = length bufs) by (rewrite <- E1, length_fmap; by eapply Forall2_length).
  pose proof (write_tree_spec w X acc s2 new1 new2 bufs ibufs Ht2 Hf Hbl Hil) as WT.
  specialize (WT ltac:(apply Forall_app; split; [by eapply leaf_images_length|done])).
  destruct (write_tree new1 bufs new2 ibufs (fst s2)) as [w3 x3]. destruct WT as [Ht3 Hx3].
  destruct x3 as [[]|e|]; [|by exists (new1 ++ new2)|done]. exists (new1 ++ new2).
  destruct Hx3 as [Hw1 Hw2]. split_and!; [done|done|]. exists h, t.
  assert (Hper : t_nodes t ≡ₚ new1 ++ new2) by (rewrite Hnodes; apply Permutation_app_comm).
  split_and!; [|unfold t_extents; rewrite Hlv, E2; apply ChunkBtreeExtents_concat|done|by rewrite Hlv].
  split_and!; [done| |rewrite Hper; apply Hf| |lia].
  - apply Hst; [|done]. apply written_leaves with bufs; [done|]. by rewrite E1.
  - rewrite Hper. eapply Forall_impl; [apply Hf|]. intros b [? _]. lia.
Qed.

Lemma tracked_trans w X acc s X2 s' X3 :
  tracked w X acc s X2 -> tracked (fst s) X2 (snd s) s' X3 -> tracked w X acc s' X3.
Proof using.
  clear HL. intros (_ & Ha & rels & HX & Hacc & Hr) (Hh & Ha' & rels' & HX' & Hacc' & Hr').
  split_and!; [done| |].
  - eapply agree_trans; [exact Ha|]. eapply agree_mono; [|exact Ha']. rewrite HX. clear. set_solver.
  - exists (rels ++ rels'). split_and!; [|by rewrite add_blocks_app, <- Hacc|].
    + unfold abs_blocks in *. rewrite fmap_app, list_to_set_app_L, HX', HX. clear. set_solver.
    + unfold abs_blocks in *. rewrite fmap_app. apply fresh_app; [done|by rewrite <- HX].
Qed.

(** ** The localized rebuild *)

Lemma stored_leaf_agree (X : gset Z) w w' (l : leaf) :
  agree X w w' -> lf_block l ∈ X -> stored (h := 0) (ReadDev w) l -> stored (h := 0) (ReadDev w') l.
Proof using.
  clear HL. intros Ha Hx. apply stored_ext. intros b Hb. apply Ha. cbn [t_nodes] in Hb.
  by apply list_elem_of_singleton in Hb as ->.
Qed.

Lemma write_leaves_spec chunks : forall blocks w X, holds w X ->
  NoDup blocks -> list_to_set blocks ⊆ X -> length blocks = length chunks ->
  Forall is_u64 blocks -> Forall chunk_ok chunks ->
  let '(w', x) := write_leaves blocks chunks w in
  holds w' X /\ agree (X ∖ list_to_set blocks) w w' /\
  match x with
  | Ret _ => exists lvs : list leaf, lf_block <$> lvs = blocks /\ lf_exts <$> lvs = chunks /\
      Forall (stored (h := 0) (ReadDev w')) lvs
  | Err e => resource_error e
  | Panic => False
  end.
Proof using HL.
  induction chunks as [|c chunks IH]; intros blocks w X Hh Hnd Hsub Hl Hu Hc.
  { destruct blocks; [|done]. split_and!; [done|apply agree_refl|]. exists []. by split_and!. }
  destruct blocks as [|b blocks]; [done|]. apply NoDup_cons in Hnd as [Hb Hnd]. simpl in Hl.
  apply Forall_cons_1 in Hu as [Hub Hu]. apply Forall_cons_1 in Hc as [(Hw & Hs & _ & Hcl) Hc].
  cbn [list_to_set] in Hsub.
  assert (b ∈ X /\ list_to_set blocks ⊆ X) as [HbX HsX] by (clear - Hsub; set_solver). clear Hsub.
  assert (Hs1 : X ∖ list_to_set (b :: blocks) ⊆ X ∖ {[b]}) by (clear; set_solver).
  assert (Hs2 : X ∖ list_to_set (b :: blocks) ⊆ X ∖ list_to_set blocks) by (clear; set_solver).
  cbn [write_leaves]. set (next := match blocks with b :: _ => b | [] => 0 end).
  assert (Hn : is_u64 next) by (destruct Hu; [unfold next, is_u64; lia|done]).
  destruct (BuildBtreeLeafBuf_reads (AE := errno) c next Hw Hs Hcl Hn) as (buf & -> & Hbl & Hrd).
  destruct (WriteDev b buf w) as [w1 x1] eqn:E.
  destruct (law_write w X b buf w1 x1 Hh HbX Hbl E) as (Hh1 & Ha1 & Hr1).
  destruct x1 as [e|]; [split_and!; [done|exact (agree_mono _ _ _ _ Hs1 Ha1)|done]|].
  specialize (IH blocks w1 X Hh1 Hnd HsX ltac:(lia) Hu Hc).
  destruct (write_leaves blocks chunks w1) as [w2 x2]. destruct IH as (Hh2 & Ha2 & Hx2).
  split_and!; [done| |].
  { eapply agree_trans; eapply agree_mono; [exact Hs1|exact Ha1|exact Hs2|exact Ha2]. }
  destruct x2 as [[]|e|]; [|done|done]. destruct Hx2 as (lvs & E1 & E2 & E3).
  exists (mkLeaf b next c :: lvs). csimpl. split_and!; [by rewrite E1|by rewrite E2|].
  constructor; [|done]. apply (stored_leaf_agree (X ∖ list_to_set blocks) w1); [done| |].
  - cbn [lf_block]. clear - HbX Hb. set_solver.
  - exists buf. split; [by apply Hr1|done].
Qed.

Lemma equal_prefix_take newChunks : forall (lvs : list leaf) q,
  (q <= equal_prefix newChunks (as_leaf <$> lvs))%nat ->
  take q newChunks = lf_exts <$> take q lvs /\ (q <= length lvs)%nat /\ (q <= length newChunks)%nat.
Proof using.
  clear. assert (H0 : forall newChunks lvs,
    take 0 newChunks = lf_exts <$> take 0 lvs /\ (0 <= length lvs)%nat /\ (0 <= length newChunks)%nat)
    by (intros; rewrite !take_0; split_and!; [done|lia|lia]).
  induction newChunks as [|c cs IH]; intros lvs q Hq; [simpl in Hq; replace q with O by lia; apply H0|].
  destruct lvs as [|l lvs]; [simpl in Hq; replace q with O by lia; apply H0|].
  rewrite fmap_cons in Hq. cbn [equal_prefix] in Hq. destruct (decide (c = el_chunk (as_leaf l))) as [->|]; [|replace q with O by lia; apply H0].
  destruct q as [|q]; [split_and!; [done|lia|lia]|]. destruct (IH lvs q) as (E & ? & ?); [lia|].
  csimpl. rewrite E. split_and!; [done|lia|lia].
Qed.

Lemma reuse_count_le newChunks lvs :
  (reuse_count newChunks (as_leaf <$> lvs) <= equal_prefix newChunks (as_leaf <$> lvs))%nat.
Proof using. clear. unfold reuse_count. case_match; lia. Qed.

Lemma first_offsets_keys (lvs : list leaf) :
  Forall chunk_ok (lf_exts <$> lvs) -> first_offsets (lf_exts <$> lvs) = Ret (t_key (h := 0) <$> lvs).
Proof using.
  clear. induction lvs as [|l lvs IH]; intros Hc; csimpl; [done|].
  csimpl in Hc. apply Forall_cons_1 in Hc as [(_ & _ & Hne & _) Hc].
  cbn [first_offsets]. destruct (lf_exts l) as [|e es]; [done|]. by rewrite IH.
Qed.

(** The tree on the device that a rebuild replaces; its nodes are in use. *)
Definition old_tree w X root {h} (t : tree h) : Prop :=
  tree_at (ReadDev w) root t /\ Forall (fun b => 0 <= b < 2 ^ 51) (t_nodes t) /\ list_to_set (t_nodes t) ⊆ X.

Lemma old_tree_leaves w X root {h} (t : tree h) : old_tree w X root t ->
  Forall is_u64 (lf_block <$> t_leaves t) /\ NoDup (lf_block <$> t_leaves t) /\
  Forall (fun b => b <> 0 /\ b ∈ X) (lf_block <$> t_leaves t).
Proof using.
  clear HL. intros ((_ & _ & Hnd & Hnz & _) & Hu & Hsub). rewrite t_nodes_split in Hnd, Hnz, Hu.
  apply NoDup_app in Hnd as (_ & _ & Hnd). apply Forall_app in Hnz as [_ Hnz]. apply Forall_app in Hu as [_ Hu].
  split_and!; [eapply Forall_impl; [exact Hu|]; unfold is_u64; intros; lia|done|].
  rewrite Forall_forall in *. intros b Hb. split; [by apply Hnz|].
  apply Hsub, elem_of_list_to_set. rewrite t_nodes_split. apply elem_of_app. by right.
Qed.

(** The leaves of the new tree: the first [q] of the old ones and the fresh
    ones.  They are allocated and written. *)
Lemma rebuild_leaves_phase exts w X acc root0 {h} (t0 : tree h) q :
  let newChunks := ChunkBtreeExtents exts in
  let reused := lf_block <$> take q (t_leaves t0) in
  packable exts -> holds w X -> old_tree w X root0 t0 ->
  (q <= equal_prefix newChunks (as_leaf <$> t_leaves t0))%nat ->
  let '(s1, x1) := alloc_leaves allocFn (length newChunks - q) reused (w, acc) in
  exists new, fresh X new /\ tracked w X acc s1 (list_to_set new ∪ X) /\
  match x1 with
  | Err _ => True
  | Panic => False
  | Ret leafBlocks =>
      leafBlocks = reused ++ new /\
      let '(w2, x2) := write_leaves (drop q leafBlocks) (drop q newChunks) (fst s1) in
      tracked w X acc (w2, snd s1) (list_to_set new ∪ X) /\
      match x2 with
      | Err e => resource_error e
      | Panic => False
      | Ret _ => exists lvs : list leaf, lf_block <$> lvs = leafBlocks /\ lf_exts <$> lvs = newChunks /\
          leaves_u64 lvs /\ Forall (stored (h := 0) (ReadDev w2)) lvs /\
          take q lvs = take q (t_leaves t0)
      end
  end.
Proof using HL.
  intros newChunks reused Hp Hh Ho Hq. pose proof (packable_chunks exts Hp) as Hc. fold newChunks in Hc.
  destruct (equal_prefix_take newChunks (t_leaves t0) q Hq) as (Et & Hq1 & Hq2).
  destruct (old_tree_leaves w X root0 t0 Ho) as (Hlu & _ & HlX).
  pose proof (alloc_leaves_spec (length newChunks - q) X reused (w, acc) (tracked_start w X acc Hh)) as A.
  destruct (alloc_leaves allocFn _ reused (w, acc)) as [s1 x1]. destruct A as (new & Hf & Ht & Hx).
  exists new. split_and!; [done..|]. destruct x1 as [leafBlocks|e|]; [|done|done].
  destruct Hx as [-> Hnl]. split; [done|].
  assert (Hrl : length reused = q) by (unfold reused; rewrite length_fmap, length_take; lia).
  replace (drop q (reused ++ new)) with new by (by rewrite <- Hrl, drop_app_length).
  pose proof (write_leaves_spec (drop q newChunks) new (fst s1) _ (proj1 Ht) (proj1 Hf)
    ltac:(clear; set_solver) ltac:(rewrite length_drop; lia) (fresh_u64 _ _ Hf) ltac:(by apply Forall_drop)) as L.
  destruct (write_leaves new (drop q newChunks) (fst s1)) as [w2 x2]. destruct L as (Hh2 & Ha2 & Hx2). split.
  { eapply tracked_write; [exact Ht|done|exact Ha2|]. intros b. by apply fresh_not_in. }
  destruct x2 as [[]|e|]; [|done|done]. destruct Hx2 as (lvs & E1 & E2 & E3).
  exists (take q (t_leaves t0) ++ lvs). rewrite !fmap_app, E1, E2, <- Et, take_drop.
  split_and!; [done|done| | |].
  - apply leaves_forest_u64; rewrite fmap_app, ?E1, ?E2, <- ?Et, ?take_drop; [|done].
    apply Forall_app. split; [rewrite fmap_take; by apply Forall_take|by eapply fresh_u64].
  - apply Forall_app. split; [|done]. destruct Ho as ((_ & Hst & _) & _).
    pose proof (stored_leaves _ t0 Hst) as Hsl. rewrite Forall_forall in Hsl. rewrite Forall_forall in HlX. apply Forall_forall.
    intros l Hl. assert (Hi : l ∈ t_leaves t0) by (rewrite <- (take_drop q (t_leaves t0)); apply elem_of_app; by left).
    destruct (HlX (lf_block l)) as [_ HlX']; [by apply list_elem_of_fmap_2|].
    apply (stored_leaf_agree X (fst s1)); [|done|].
    + eapply agree_mono; [|exact Ha2]. intros b Hb. apply elem_of_difference. split; [set_solver|].
      rewrite elem_of_list_to_set. intros Hn. by apply (fresh_not_in X new b).
    + apply (stored_leaf_agree X w); [apply Ht|done|by apply Hsl].
  - rewrite take_app_le by (rewrite length_take; lia). by rewrite take_take, Nat.min_id.
Qed.

(** The node blocks of the new tree: fresh index nodes, reused and fresh leaves. *)
Lemma new_nodes_ok X (reused new new2 : list Z) :
  NoDup reused -> Forall (fun b => b <> 0 /\ b ∈ X) reused -> fresh X new ->
  fresh (list_to_set new ∪ X) new2 ->
  NoDup (new2 ++ reused ++ new) /\ Forall (fun b => b <> 0) (new2 ++ reused ++ new) /\
  fresh X (new ++ new2).
Proof using.
  clear. intros Hr HrX Hf Hf2. rewrite Forall_forall in HrX. pose proof (fresh_app X new new2 Hf Hf2) as Hf3.
  split_and!; [| |done].
  - apply NoDup_app. split_and!; [apply Hf2| |].
    + intros b Hb. rewrite not_elem_of_app. split; intros Hin.
      * destruct (HrX b Hin) as [_ HX]. apply (fresh_not_in _ _ _ Hf2 Hb). clear - HX. set_solver.
      * apply (fresh_not_in _ _ _ Hf2 Hb). clear - Hin. set_solver.
    + apply NoDup_app. split_and!; [done| |apply Hf]. intros b Hb Hin.
      destruct (HrX b Hb) as [_ HX]. by apply (fresh_not_in _ _ _ Hf Hin).
  - rewrite !Forall_app. split_and!; [eapply Forall_impl; [apply Hf2|]; intros b [? _]; lia| |
      eapply Forall_impl; [apply Hf|]; intros b [? _]; lia].
    apply Forall_forall. intros b Hb. by destruct (HrX b Hb).
Qed.

(** The index over the leaves [lvs], allocated and written. *)
Lemma index_phase w X acc s (lvs : list leaf) reused new :
  tracked w X acc s (list_to_set new ∪ X) -> leaves_u64 lvs -> (1 <= length lvs)%nat ->
  Z.of_nat (length lvs) < 2 ^ 63 -> Forall (stored (h := 0) (ReadDev (fst s))) lvs ->
  lf_block <$> lvs = reused ++ new -> NoDup reused -> Forall (fun b => b <> 0 /\ b ∈ X) reused ->
  fresh X new ->
  let '(s3, x3) := BuildBtreeIndex allocFn (lf_block <$> lvs) (t_key (h := 0) <$> lvs) 4096 1 s in
  exists new2, fresh X (new ++ new2) /\ tracked w X acc s3 (list_to_set (new ++ new2) ∪ X) /\
  match x3 with
  | Err e => resource_error (ErrBuild e)
  | Panic => False
  | Ret (root, _, idxBlocks, idxBufs) =>
      let '(w4, x4) := write_blocks idxBlocks idxBufs (fst s3) in
      tracked w X acc (w4, snd s3) (list_to_set (new ++ new2) ∪ X) /\
      match x4 with
      | Err e => resource_error e
      | Panic => False
      | Ret _ => exists h (t : tree h), tree_at (ReadDev w4) root t /\ t_leaves t = lvs /\
          t_nodes t ≡ₚ new2 ++ reused ++ new /\ idxBlocks = new2
      end
  end.
Proof using HL.
  intros Ht Hu Hl1 Hl2 Hst E1 Hrn HrX Hf. set (X2 := list_to_set new ∪ X) in *.
  pose proof (tracked_start (fst s) X2 (snd s) (proj1 Ht)) as Hs. rewrite <- surjective_pairing in Hs.
  pose proof (BuildBtreeIndex_spec lvs X2 s Hu Hl1 Hl2 Hs) as I.
  destruct (BuildBtreeIndex allocFn _ _ 4096 1 s) as [s3 x3]. destruct I as (new2 & Hf2 & Ht3 & Hx3).
  destruct (new_nodes_ok X reused new new2) as (Hnd & Hnz & Hfr); [done..|].
  assert (Hset : list_to_set new2 ∪ X2 = list_to_set (new ++ new2) ∪ X)
    by (unfold X2; rewrite list_to_set_app_L; clear; set_solver).
  rewrite Hset in Ht3. exists new2. split_and!; [done|by eapply tracked_trans|].
  destruct x3 as [[[[root key] idx] ibufs]|e|]; [|by destruct e|done].
  destruct Hx3 as (h & t & Hh8 & Hroot & Hlv & Hnodes & -> & Hil & Hilen & Hstt).
  pose proof (write_blocks_spec new2 ibufs (fst s3) _ (proj1 Ht3) (proj1 Hf2)
    ltac:(rewrite list_to_set_app_L; clear; set_solver) Hil Hilen) as W2.
  destruct (write_blocks new2 ibufs (fst s3)) as [w4 x4]. destruct W2 as (Hh4 & Ha4 & Hx4).
  assert (Ht4 : tracked (fst s) X2 (snd s) (w4, snd s3) (list_to_set (new ++ new2) ∪ X)).
  { eapply tracked_write; [exact Ht3|done|exact Ha4|]. intros b. by apply fresh_not_in. }
  split; [by eapply tracked_trans|]. destruct x4 as [[]|e|]; [|done|done].
  exists h, t. rewrite E1 in Hnodes. split_and!; [|done|done|done].
  split_and!; [done| |by rewrite Hnodes|by rewrite Hnodes|lia]. apply Hstt; [|done].
  rewrite Forall_forall in Hst. apply Forall_forall. intros l Hl.
  apply (stored_leaf_agree X2 (fst s)); [apply Ht4| |by apply Hst].
  assert (Hb : lf_block l ∈ reused ++ new) by (rewrite <- E1; by apply list_elem_of_fmap_2).
  unfold X2. rewrite elem_of_union, elem_of_list_to_set. apply elem_of_app in Hb as [Hb|Hb]; [|by left].
  right. rewrite Forall_forall in HrX. by apply HrX.
Qed.

Lemma rebuild_leaves_spec exts w X acc root0 {h} (t0 : tree h) q :
  let newChunks := ChunkBtreeExtents exts in
  let reused := lf_block <$> take q (t_leaves t0) in
  packable exts -> holds w X -> old_tree w X root0 t0 ->
  (q <= equal_prefix newChunks (as_leaf <$> t_leaves t0))%nat ->
  let '(s', x) := rebuild_leaves newChunks (as_leaf <$> t_leaves t0) q (w, acc) in
  exists new, fresh X new /\ tracked w X acc s' (list_to_set new ∪ X) /\
  match x with
  | Ret (root, leafBlocks, idxBlocks) => exists h' (t : tree h'),
      tree_at (ReadDev (fst s')) root t /\ t_extents t = exts /\ t_nodes t ≡ₚ new ++ reused /\
      leafBlocks = lf_block <$> t_leaves t /\ newChunks = lf_exts <$> t_leaves t /\
      idxBlocks ≡ₚ t_idx t /\ take q (t_leaves t) = take q (t_leaves t0)
  | Err e => resource_error e
  | Panic => False
  end.
Proof using HL.
  intros newChunks reused Hp Hh Ho Hq. unfold rebuild_leaves.
  replace (el_block <$> take q (as_leaf <$> t_leaves t0)) with reused
    by (unfold reused; rewrite <- fmap_take, <- list_fmap_compose; done).
  pose proof (rebuild_leaves_phase exts w X acc root0 t0 q Hp Hh Ho Hq) as P. fold newChunks reused in P.
  destruct (alloc_leaves allocFn _ reused (w, acc)) as [s1 x1]. destruct P as (new & Hf & Ht & Hx).
  destruct x1 as [leafBlocks|e|]; [|by exists new|done]. destruct Hx as [Hlb P2].
  destruct (write_leaves _ _ (fst s1)) as [w2 x2]. destruct P2 as [Ht2 Hx2].
  destruct x2 as [[]|e|]; [|by exists new|done]. destruct Hx2 as (lvs & E1 & E2 & Hu & Hst & Htk).
  rewrite <- E2, first_offsets_keys by (rewrite E2; by apply packable_chunks).
  pose proof (ChunkBtreeExtents_length exts ltac:(apply Hp)) as Hlen. fold newChunks in Hlen.
  rewrite <- E2, length_fmap in Hlen.
  pose proof (old_tree_leaves w X root0 t0 Ho) as (_ & Hln & HlX).
  assert (Hrn : NoDup reused) by (unfold reused; rewrite fmap_take; eapply sublist_NoDup; [exact Hln|apply sublist_take]).
  assert (HrX : Forall (fun b => b <> 0 /\ b ∈ X) reused) by (unfold reused; rewrite fmap_take; by apply Forall_take).
  pose proof (index_phase w X acc (w2, snd s1) lvs reused new Ht2 Hu ltac:(lia)
    ltac:(destruct Hp as (_ & _ & _ & ?); lia) Hst ltac:(by rewrite E1) Hrn HrX Hf) as I.
  rewrite <- E1. destruct (BuildBtreeIndex allocFn _ _ 4096 1 _) as [s3 x3].
  destruct I as (new2 & Hfr & Ht3 & Hx3).
  destruct x3 as [[[[root key] idx] ibufs]|e|]; [|by exists (new ++ new2)|done].
  destruct (write_blocks idx ibufs (fst s3)) as [w4 x4]. destruct Hx3 as [Ht4 Hx4].
  destruct x4 as [[]|e|]; [|by exists (new ++ new2)|done].
  destruct Hx4 as (h' & t & Hta & Hlv & Hnodes & ->). exists (new ++ new2). split_and!; [done|done|].
  exists h', t. split_and!; [done| | |by rewrite Hlv|by rewrite Hlv| |by rewrite Hlv].
  - unfold t_extents. rewrite Hlv, E2. apply ChunkBtreeExtents_concat.
  - rewrite Hnodes, (Permutation_app_comm reused new), app_assoc. f_equiv. apply Permutation_app_comm.
  - rewrite t_nodes_split, Hlv, E1, Hlb in Hnodes. symmetry. by apply Permutation_app_inv_r in Hnodes.
Qed.

(** ** The theorem *)

(** [in_] walks to [exts] through the nodes [nodes]. *)
Definition has_index (r : Z -> option (list Z)) (in_ : Inode) (exts : list Extent) (nodes : list Z) : Prop :=
  exists leaves, IterateInodeExtents r collect_visitor in_ 4096 (mkCollected [] [] [])
                 = (mkCollected exts leaves nodes, Ret tt).

(** [T] is the walked index of [in_], whose nodes are in use. *)
Definition describes w X (in_ : Inode) (T : extentTree) : Prop :=
  if decide (Z.land (ino_Flags in_) InodeFlagIndexed = 0) then et_leaves T = [] /\ et_idx T = []
  else exists h (t : tree h), old_tree w X (ino_ExtentInlineBase in_) t /\
    et_leaves T = as_leaf <$> t_leaves t /\ et_idx T ≡ₚ t_idx t.

Definition old_nodes (T : extentTree) : list Z := (el_block <$> et_leaves T) ++ et_idx T.

Lemma old_tree_nodes w X root {h} (t : tree h) T :
  old_tree w X root t -> et_leaves T = as_leaf <$> t_leaves t -> et_idx T ≡ₚ t_idx t ->
  old_nodes T ≡ₚ t_nodes t.
Proof using.
  clear HL. intros _ E1 E2. unfold old_nodes. rewrite E1, E2, t_nodes_split, <- list_fmap_compose.
  apply Permutation_app_comm.
Qed.

Lemma tracked_old_tree w X acc s X2 root {h} (t : tree h) :
  tracked w X acc s X2 -> old_tree w X root t -> tree_at (ReadDev (fst s)) root t.
Proof using.
  clear HL. intros (_ & Ha & _) ((Hr & Hst & Hrest) & _ & Hsub). split_and!; [done| |apply Hrest..].
  eapply stored_ext; [|exact Hst]. intros b Hb. apply Ha. apply Hsub. by apply elem_of_list_to_set.
Qed.

Lemma has_index_tree r in_ root exts {h} (t : tree h) :
  Z.land (ino_Flags in_) InodeFlagInlineData = 0 -> tree_at r root t -> t_extents t = exts ->
  has_index r (index_tree in_ root exts) exts (t_nodes t).
Proof using.
  clear. intros Hf Ht <-. eexists. rewrite (iterate_tree r t); [done| |done].
  unfold is_indexed, index_tree. cbn [set_index ino_Flags]. rewrite !Z.land_lor_distr_l, Hf. split; [done|].
  intros E. apply Z.lor_eq_0_iff in E as [_ E]. done.
Qed.

Lemma ldiff_flags f : Z.land (Z.ldiff f InodeFlagIndexed) InodeFlagIndexed = 0 /\
  Z.land (Z.ldiff f InodeFlagIndexed) InodeFlagInlineData = Z.land f InodeFlagInlineData.
Proof using.
  clear. split; [apply Z.land_ldiff|]. apply Z.bits_inj'. intros i Hi.
  rewrite !Z.land_spec, Z.ldiff_spec. unfold InodeFlagInlineData, InodeFlagIndexed.
  destruct (decide (i = 3)) as [->|Hn]; [by rewrite andb_true_r|].
  change 8 with (2 ^ 3). rewrite Z.pow2_bits_false by lia. by rewrite !andb_false_r.
Qed.

Lemma has_index_inline r in_ exts :
  Z.land (ino_Flags in_) InodeFlagInlineData = 0 -> length (ino_inlineRegion in_) = 256%nat ->
  structs_wf exts -> (length exts <= 8)%nat ->
  has_index r (index_inline in_ exts) exts [].
Proof using.
  clear. intros Hf Hreg Hw Hl. destruct (ldiff_flags (ino_Flags in_)) as [F1 F2].
  set (arr := exts ++ replicate (8 - length exts) zero_extent).
  assert (Ha : structs_wf arr).
  { apply Forall_app. split; [done|]. apply Forall_replicate. codec_wf_tac. }
  assert (Hal : length arr = 8%nat) by (unfold arr; rewrite length_app, length_replicate; lia).
  destruct (InlineExtents_SetInlineExtents in_ arr Ha Hal Hreg) as [_ Er].
  exists []. unfold IterateInodeExtents. unfold index_inline. fold arr. cbn [set_index ino_Flags ino_NumExtentsInline].
  change (ino_Flags (SetInlineExtents in_ arr)) with (ino_Flags in_). rewrite F1, F2, Hf. cbn [Z.eqb negb].
  rewrite u32_small by (unfold is_u32; lia). rewrite (proj2 (Z.ltb_ge 8 _)) by lia. rewrite Nat2Z.id.
  rewrite (InlineExtents_image _ arr []); [|done|done|by rewrite app_nil_r].
  unfold arr. rewrite take_app_length. by rewrite visit_extents_collect.
Qed.

Lemma has_index_cleared r in_ :
  Z.land (ino_Flags in_) InodeFlagInlineData = 0 -> has_index r (index_cleared in_) [] [].
Proof using.
  clear. intros Hf. destruct (ldiff_flags (ino_Flags in_)) as [F1 F2].
  exists []. unfold IterateInodeExtents, index_cleared, SetInlineExtents.
  cbn [set_region set_index ino_Flags ino_NumExtentsInline]. rewrite F1, F2, Hf. cbn [Z.eqb negb].
  rewrite (proj2 (Z.ltb_ge 8 _)) by lia. rewrite take_0. by rewrite visit_extents_collect.
Qed.

Lemma add_blocks_spec bs : forall acc, runs_ok acc -> Forall (fun b => 0 <= b < 2 ^ 51) bs ->
  runs_ok (add_blocks acc bs) /\ run_blocks (add_blocks acc bs) = run_blocks acc ++ bs.
Proof using.
  clear. induction bs as [|b bs IH]; intros acc Ha Hb; cbn [add_blocks foldl].
  - by rewrite app_nil_r.
  - apply Forall_cons_1 in Hb as [Hb Hbs].
    destruct (addRun_spec acc b 1) as [K M]; [done|lia..|]. rewrite addBlock_addRun.
    destruct (IH _ K Hbs) as [K' M']. split; [done|]. unfold add_blocks in M'.
    rewrite M', M, <- app_assoc. by rewrite seqZ_cons, seqZ_nil by lia.
Qed.

(** What an operation that stores [exts] for [in_] promises: [new] are the
    blocks it allocated, and the runs it returns for freeing are the old nodes
    that the new index does not use. *)
Definition rebuilt w' (in_' : Inode) (T : extentTree) (exts : list Extent) (new : list Z)
    (freed : list blockRun) : Prop :=
  exists nodes, has_index (ReadDev w') in_' exts nodes /\ NoDup nodes /\
    ino_NumExtentsTotal in_' = Z.of_nat (length exts) /\
    NoDup (run_blocks freed) /\
    (forall b, b ∈ run_blocks freed <-> b ∈ old_nodes T /\ b ∉ nodes) /\
    (forall b, b ∈ nodes <-> b ∈ new \/ b ∈ old_nodes T /\ b ∉ run_blocks freed).

Lemma old_nodes_ok w X in_ T : describes w X in_ T ->
  NoDup (old_nodes T) /\ Forall (fun b => 0 <= b < 2 ^ 51 /\ b ∈ X) (old_nodes T).
Proof using.
  clear HL. unfold describes. case_decide.
  - intros [E1 E2]. unfold old_nodes. rewrite E1, E2. split; constructor.
  - intros (h & t & Ho & E1 & E2). pose proof (old_tree_nodes w X _ t T Ho E1 E2) as P. rewrite P.
    destruct Ho as ((_ & _ & Hnd & _) & Hr & Hsub). split; [done|].
    rewrite Forall_forall in *. intros b Hb. split; [by apply Hr|]. apply Hsub. by apply elem_of_list_to_set.
Qed.

Lemma allNodes_blocks w X in_ T : describes w X in_ T -> run_blocks (allNodes T) = old_nodes T.
Proof using.
  clear HL. intros Hd. destruct (old_nodes_ok w X in_ T Hd) as [_ Hr]. unfold allNodes, old_nodes in *.
  assert (Hr' : Forall (fun b => 0 <= b < 2 ^ 51) ((el_block <$> et_leaves T) ++ et_idx T)).
  { eapply Forall_impl; [exact Hr|]. by intros b [? _]. }
  apply Forall_app in Hr' as [H1 H2]. destruct (add_blocks_spec _ [] ltac:(constructor) H1) as [K1 M1].
  destruct (add_blocks_spec _ _ K1 H2) as [_ M2]. by rewrite M2, M1.
Qed.

(** Everything old is freed by a rebuild whose nodes are all new. *)
Lemma rebuilt_full w X w' in_ in_' T exts new nodes :
  describes w X in_ T -> fresh X new -> nodes ≡ₚ new -> has_index (ReadDev w') in_' exts nodes ->
  ino_NumExtentsTotal in_' = Z.of_nat (length exts) -> rebuilt w' in_' T exts new (allNodes T).
Proof using.
  clear HL. intros Hd Hf Hn Hi Ht. destruct (old_nodes_ok w X in_ T Hd) as [Ho HX].
  rewrite Forall_forall in HX. exists nodes. rewrite (allNodes_blocks w X in_ T Hd).
  split_and!; [done|rewrite Hn; apply Hf|done|done| |]; intros b.
  - split; [|by intros [? _]]. intros Hb. split; [done|]. rewrite Hn. intros Hb'.
    apply (fresh_not_in _ _ _ Hf Hb'). by apply HX.
  - rewrite Hn. split; [by left|]. intros [?|[? ?]]; done.
Qed.

Lemma rebuild_full_spec in_ T exts s X :
  holds (s_w s) X -> Z.land (ino_Flags in_) InodeFlagInlineData = 0 ->
  length (ino_inlineRegion in_) = 256%nat -> exts = [] \/ packable exts -> describes (s_w s) X in_ T ->
  let '(s', x) := rebuild_full in_ T exts s in
  exists new, fresh X new /\ tracked (s_w s) X (s_acc s) (s_w s', s_acc s') (list_to_set new ∪ X) /\
  match x with
  | Ret (in_', freed) => rebuilt (s_w s') in_' T exts new freed
  | Err e => resource_error e
  | Panic => False
  end.
Proof using HL.
  intros Hh Hf Hreg Hp Hd. unfold rebuild_full, rebuildExtentIndex. cbn [s_w s_acc s_cache].
  pose proof (tracked_start (s_w s) X (s_acc s) Hh) as Ht0.
  assert (Hset : X = list_to_set [] ∪ X) by (clear; set_solver).
  destruct exts as [|e0 es].
  { exists []. cbn [s_w s_acc]. rewrite <- Hset. split_and!; [apply fresh_nil|done|].
    eapply rebuilt_full; [exact Hd|apply fresh_nil|done|by apply has_index_cleared|done]. }
  set (exts := e0 :: es) in *. destruct Hp as [|Hp]; [done|].
  destruct ((length exts <=? 8)%nat && _) eqn:Ec.
  { apply andb_true_iff in Ec as [Ec _]. apply Nat.leb_le in Ec.
    exists []. cbn [s_w s_acc]. rewrite <- Hset. split_and!; [apply fresh_nil|done|].
    eapply rebuilt_full; [exact Hd|apply fresh_nil|done|apply has_index_inline; [done..|apply Hp|done]|].
    cbn [index_inline set_index ino_NumExtentsTotal]. apply u64_small. unfold is_u64. lia. }
  pose proof (build_index_spec exts (s_w s) X (s_acc s) Hp Hh) as B.
  destruct (build_index exts (s_w s, s_acc s)) as [[w acc] x]. destruct B as (new & Hfr & Ht & Hx).
  destruct x as [root|e|]; [|by exists new|done]. destruct Hx as (h & t & Hta & Hex & Hno & _).
  exists new. split_and!; [done..|].
  eapply rebuilt_full; [exact Hd|exact Hfr|exact Hno|by apply has_index_tree|].
  cbn [index_tree set_index ino_NumExtentsTotal]. apply u64_small. destruct Hp as (_ & _ & _ & ?).
  unfold is_u64. lia.
Qed.

(** What is freed after reusing the first [q] leaves. *)
Lemma freed_nodes {h} (t : tree h) T q w X root : old_tree w X root t ->
  et_leaves T = as_leaf <$> t_leaves t -> et_idx T ≡ₚ t_idx t ->
  let reused := lf_block <$> take q (t_leaves t) in
  let freed := run_blocks (add_blocks (add_blocks [] (el_block <$> drop q (et_leaves T))) (et_idx T)) in
  old_nodes T ≡ₚ reused ++ freed.
Proof using.
  clear HL. intros Ho E1 E2 reused freed.
  pose proof (old_tree_nodes w X root t T Ho E1 E2) as P.
  assert (Hr : Forall (fun b => 0 <= b < 2 ^ 51) (old_nodes T)) by (rewrite P; apply Ho).
  unfold old_nodes in *. rewrite <- (take_drop q (et_leaves T)), fmap_app, <- app_assoc in Hr |- *.
  rewrite !Forall_app in Hr. destruct Hr as (_ & H1 & H2).
  destruct (add_blocks_spec _ [] ltac:(constructor) H1) as [K1 M1].
  destruct (add_blocks_spec _ _ K1 H2) as [_ M2]. unfold freed. rewrite M2, M1. cbn [app].
  unfold reused. by rewrite E1, <- fmap_take, <- list_fmap_compose.
Qed.

Lemma rebuilt_local w X root in_' {h} (t : tree h) T q exts new nodes w' :
  old_tree w X root t -> et_leaves T = as_leaf <$> t_leaves t -> et_idx T ≡ₚ t_idx t ->
  fresh X new -> nodes ≡ₚ new ++ (lf_block <$> take q (t_leaves t)) ->
  has_index (ReadDev w') in_' exts nodes -> NoDup nodes ->
  ino_NumExtentsTotal in_' = Z.of_nat (length exts) ->
  rebuilt w' in_' T exts new
    (add_blocks (add_blocks [] (el_block <$> drop q (et_leaves T))) (et_idx T)).
Proof using.
  clear HL. intros Ho E1 E2 Hf Hn Hi Hnd Htot. pose proof (freed_nodes t T q w X root Ho E1 E2) as P.
  pose proof (old_tree_nodes w X root t T Ho E1 E2) as P2.
  set (reused := lf_block <$> take q (t_leaves t)) in *.
  set (runs := add_blocks _ (et_idx T)) in *. exists nodes.
  assert (HndO : NoDup (reused ++ run_blocks runs)) by (rewrite <- P, P2; apply Ho).
  apply NoDup_app in HndO as (_ & Hdis & Hnf).
  assert (HnX : forall b, b ∈ run_blocks runs -> b ∉ new).
  { intros b Hb Hn'. apply (fresh_not_in _ _ _ Hf Hn'). destruct Ho as (_ & _ & Hsub). apply Hsub.
    rewrite elem_of_list_to_set, <- P2, P. apply elem_of_app. by right. }
  split_and!; [done..| |]; intros b; rewrite P, Hn, !elem_of_app.
  - split; [|intros [[Hb|Hb] Hb']; [|done]].
    + intros Hb. split; [by right|]. intros [Hb'|Hb']; [by apply (HnX b)|by apply (Hdis b)].
    + exfalso. apply Hb'. by right.
  - split.
    + intros [Hb|Hb]; [by left|right]. split; [by left|]. by apply Hdis.
    + intros [Hb|[[Hb|Hb] Hb']]; [by left|by right|done].
Qed.

(** The allocated blocks are those the runs account for. *)
Lemma tracked_new w X acc s new : fresh X new -> tracked w X acc s (list_to_set new ∪ X) ->
  exists rels, fresh X (abs_blocks rels) /\ snd s = add_blocks acc rels /\
    forall b, b ∈ abs_blocks rels <-> b ∈ new.
Proof using.
  clear HL. intros Hf (_ & _ & rels & HX & Hacc & Hr). exists rels. split_and!; [done..|]. intros b.
  assert (E : b ∈ (list_to_set new ∪ X : gset Z) <-> b ∈ (list_to_set (abs_blocks rels) ∪ X : gset Z))
    by (by rewrite HX).
  rewrite !elem_of_union, !elem_of_list_to_set in E.
  split; intros Hb.
  - destruct (proj2 E (or_introl Hb)) as [?|Hx]; [done|]. by destruct (fresh_not_in _ _ _ Hr Hb).
  - destruct (proj1 E (or_introl Hb)) as [?|Hx]; [done|]. by destruct (fresh_not_in _ _ _ Hf Hb).
Qed.

Lemma rebuilt_iff w' in_' T exts new new' freed :
  (forall b, b ∈ new' <-> b ∈ new) -> rebuilt w' in_' T exts new freed -> rebuilt w' in_' T exts new' freed.
Proof using.
  clear HL. intros E (nodes & H1 & H2 & H3 & H4 & H5 & H6). exists nodes. split_and!; [done..|].
  intros b. by rewrite E.
Qed.

End rebuild.
