(* ===== verification/ExtentBridge.v ===== *)
(** * The rebuild over the real allocator and device

    The theorems about the extent index, and the instance of the interface
    [Bridge] by the data allocator of fuse/fs.go and the block device of
    fuse/device.go, whose own theorems discharge [BridgeLaws]. *)

From stdpp Require Import base numbers list option gmap sorting.
From Stdlib Require Import ZArith Lia.
From S2P Require Import Prelude Codec Crc32c Bits AllocCore Allocator Extents AllocRuntime Device.
From S2P Require Import Inode Btree BtreeBuild BtreeIndex ExtentIndex ExtentRebuild.

Local Open Scope Z_scope.

(** ** The instance

    The world: the data allocator, the blocks whose frees wait for a commit
    (data-relative), and the device.  [reclaim P] is the allocator's hook: it
    commits the journal and frees blocks of [P]. *)
Abbreviation disk := (gmap Z (list Z)).

Definition disk_reader (d : disk) (off : Z) : option (list Z) :=
  if decide (0 <= off) then d !! (off / 4096) else None.

Lemma at_block_disk d b : 0 <= b < 2 ^ 51 -> at_block (disk_reader d) b = d !! b.
Proof.
  intros Hb. unfold at_block, disk_reader. rewrite u64_small by (unfold is_u64; lia).
  unfold int64. rewrite (proj2 (Z.ltb_lt _ _)) by lia. rewrite decide_True by lia.
  by rewrite Z.div_mul by lia.
Qed.

Record bridge_world := mkWorld { bw_alloc : Allocator; bw_pending : gset Z; bw_disk : disk }.

Section instance.
Context (reclaim : gset Z -> Allocator -> option Allocator) (os : Z -> option (list Z)) (start : Z).

(** Whether an allocation runs the hook. *)
Definition reclaimed (P : gset Z) (a : Allocator) : bool :=
  let '(a1, rel) := tryAllocBlock a true in (rel =? 0) && bool_decide (is_Some (reclaim P a1)).

#[local] Instance real_bridge : Bridge bridge_world := {|
  AllocMeta w :=
    let P := bw_pending w in
    let '(a, rel) := AllocBlockMeta (reclaim P) (bw_alloc w) in
    (mkWorld a (if reclaimed P (bw_alloc w) then ∅ else P) (bw_disk w), rel);
  WriteDev b buf w :=
    let '(d, e) := WriteBlock os (bw_disk w) b buf in (mkWorld (bw_alloc w) (bw_pending w) d, e);
  ReadDev w := disk_reader (bw_disk w);
  dataRegionStart := start;
|}.

Definition reclaim_ok : Prop := forall P a a', rt_ok a -> reclaim P a = Some a' ->
  rt_ok a' /\ BlockCount (a_pyr a') = BlockCount (a_pyr a) /\
  free_set (a_pyr a') ⊆ free_set (a_pyr a) ∪ P.

(** The blocks of [X] are addressable, not free, and not waiting to be freed. *)
Definition in_use (w : bridge_world) (X : gset Z) : Prop :=
  rt_ok (bw_alloc w) /\ start + BlockCount (a_pyr (bw_alloc w)) < 2 ^ 51 /\
  bw_pending w ## free_set (a_pyr (bw_alloc w)) /\
  forall x, x ∈ X -> 0 <= x < 2 ^ 51 /\ (x - start ∉ free_set (a_pyr (bw_alloc w))) /\
                   (x - start ∉ bw_pending w).

(** One allocation: block [b] of the allocator [s] that the last attempt saw. *)
Lemma AllocMeta_spec w w' rel : reclaim_ok -> rt_ok (bw_alloc w) -> AllocMeta w = (w', rel) ->
  rt_ok (bw_alloc w') /\ bw_disk w' = bw_disk w /\
  BlockCount (a_pyr (bw_alloc w')) = BlockCount (a_pyr (bw_alloc w)) /\
  exists F, (F ⊆ free_set (a_pyr (bw_alloc w)) /\ bw_pending w' ⊆ bw_pending w \/
             F ⊆ free_set (a_pyr (bw_alloc w)) ∪ bw_pending w /\ bw_pending w' = ∅) /\
    (rel = 0 /\ free_set (a_pyr (bw_alloc w')) = F \/
     0 < rel < BlockCount (a_pyr (bw_alloc w)) /\ rel ∈ F /\
     free_set (a_pyr (bw_alloc w')) = F ∖ {[rel]}).
Proof using.
  intros Hrc Ha E. destruct w as [a P d]. cbn [AllocMeta real_bridge bw_alloc bw_pending bw_disk] in *.
  destruct (AllocBlockMeta (reclaim P) a) as [a' b] eqn:EA. injection E as <- <-.
  cbn [bw_alloc bw_pending bw_disk].
  destruct (allocBlock_spec (reclaim P) a true a' b Ha) as (Ha' & s & Hs & Hres); [|done|].
  { intros x y Hx Hy. by apply (Hrc P x y). }
  assert (Hbc : BlockCount (a_pyr s) = BlockCount (a_pyr a)).
  { destruct Hs as [->|[_ Hs]]; [done|]. by destruct (Hrc P a s Ha Hs) as (_ & ? & _). }
  split_and!; [done|done| |].
  { destruct Hres as [(_ & -> & _)|(_ & _ & (_ & Hb & _) & _)]; [done|]. by rewrite Hb. }
  exists (free_set (a_pyr s)). split.
  - destruct Hs as [->|[Hav Hs]].
    + left. split; [done|]. destruct (reclaimed P a); set_solver.
    + right. split; [apply (Hrc P a s Ha Hs)|]. unfold reclaimed.
      destruct (tryAllocBlock_spec a true Ha) as [[_ ->]|[? _]]; [|done].
      cbn [Z.eqb andb]. rewrite bool_decide_true by (rewrite Hs; eauto). done.
  - destruct Hres as [(-> & -> & _)|(Hn & [Hin _] & (_ & _ & Hf & _) & _)]; [by left|right].
    pose proof (free_set_range _ _ Hin). split_and!; [lia|lia|done|done].
Qed.

Lemma real_bridge_laws : 0 <= start -> reclaim_ok -> BridgeLaws bridge_world in_use.
Proof using.
  intros H0 Hrc. split; [done| |].
  - intros w X w' rel (Ha & Hbc & Hdis & HX) E.
    destruct (AllocMeta_spec w w' rel Hrc Ha E) as (Ha' & Hd & Hbc' & F & HF & Hres). split.
    { intros x Hx. unfold ReadDev, real_bridge. by rewrite Hd. }
    assert (HXF : forall x, x ∈ X -> (x - start ∉ F) /\ (x - start ∉ bw_pending w')).
    { intros x Hx. destruct (HX x Hx) as (_ & H1 & H2). destruct HF as [[HF HP]|[HF HP]]; clear - H1 H2 HF HP; set_solver. }
    assert (HPF : bw_pending w' ## F) by (destruct HF as [[HF HP]|[HF HP]]; set_solver).
    destruct Hres as [[-> Hf]|(Hr & Hin & Hf)]; [left|right].
    + split; [done|]. split_and!; [done|lia|set_solver|]. intros x Hx. rewrite Hf.
      destruct (HX x Hx) as (? & _). destruct (HXF x Hx). auto.
    + cbn [dataRegionStart real_bridge]. split_and!; [lia|lia| |].
      { intros Hx. destruct (HXF _ Hx) as [Hx' _]. apply Hx'. by replace (start + rel - start) with rel by lia. }
      split_and!; [done|lia|set_solver|]. intros x [->%elem_of_singleton|Hx]%elem_of_union; rewrite Hf.
      * replace (start + rel - start) with rel by lia. split_and!; [lia|lia|set_solver|set_solver].
      * destruct (HX x Hx) as (? & _). destruct (HXF x Hx). split_and!; [lia|lia|set_solver|done].
  - intros w X b buf w' x (Ha & Hbc & Hdis & HX) Hb Hl E. unfold WriteDev, real_bridge in E.
    pose proof (WriteBlock_other os (bw_disk w) b buf) as Ho.
    destruct (WriteBlock os (bw_disk w) b buf) as [d e] eqn:EW. injection E as <- <-. split_and!; [by split_and!| |].
    + intros y Hy. apply elem_of_difference in Hy as [Hy Hn]. destruct (HX y Hy) as (Hr & _).
      unfold ReadDev, real_bridge. cbn [bw_disk]. rewrite !at_block_disk by done. apply Ho. set_solver.
    + intros ->. destruct (HX b Hb) as (Hr & _). unfold ReadDev, real_bridge. cbn [bw_disk].
      rewrite at_block_disk by done. unfold WriteBlock in EW. rewrite Hl in EW. cbn [negb Z.eqb] in EW.
      change (Z.of_nat 4096 =? BlockSize) with true in EW. cbn [negb] in EW. case_match; simplify_eq.
      apply lookup_insert_eq.
Qed.

End instance.

(** ** The properties *)

Lemma indexed_bool in_ : Z.land (ino_Flags in_) InodeFlagIndexed <> 0 ->
  negb (Z.land (ino_Flags in_) InodeFlagIndexed =? 0) = true.
Proof. intros H. by rewrite (proj2 (Z.eqb_neq _ _) H). Qed.

Section theorems.
Context {W : Type} {BW : Bridge W} {holds : W -> gset Z -> Prop} {HL : BridgeLaws W holds}.
Context (victim : tree_cache -> option Z).

(** The localized path. *)
Lemma rebuild_local_spec in_ T exts s X {h} (t0 : tree h) :
  holds (s_w s) X -> Z.land (ino_Flags in_) InodeFlagInlineData = 0 ->
  Z.land (ino_Flags in_) InodeFlagIndexed <> 0 -> packable exts -> et_leaves T <> [] ->
  old_tree (s_w s) X (ino_ExtentInlineBase in_) t0 ->
  et_leaves T = as_leaf <$> t_leaves t0 -> et_idx T ≡ₚ t_idx t0 ->
  let '(s', x) := rebuildExtentIndexWrite victim in_ T exts s in
  let q := reuse_count (ChunkBtreeExtents exts) (et_leaves T) in
  exists new, fresh X new /\ tracked (holds := holds) (s_w s) X (s_acc s) (s_w s', s_acc s') (list_to_set new ∪ X) /\
  match x with
  | Ret (in_', freed) =>
      freed = add_blocks (add_blocks [] (el_block <$> drop q (et_leaves T))) (et_idx T) /\
      exists h' (t : tree h'), tree_at (ReadDev (s_w s')) (ino_ExtentInlineBase in_') t /\
        in_' = index_tree in_ (ino_ExtentInlineBase in_') exts /\
        t_extents t = exts /\ t_nodes t ≡ₚ new ++ (lf_block <$> take q (t_leaves t0)) /\
        take q (t_leaves t) = take q (t_leaves t0) /\ ChunkBtreeExtents exts = lf_exts <$> t_leaves t
  | Err e => resource_error e
  | Panic => False
  end.
Proof using HL.
  intros Hh Hf Hi Hp Hne Ho E1 E2. unfold rebuildExtentIndexWrite. rewrite (indexed_bool _ Hi).
  assert (Hl : (length exts =? 0)%nat = false) by (apply Nat.eqb_neq; destruct Hp as (_ & _ & ? & _); by destruct exts).
  assert (Hl2 : (length (et_leaves T) =? 0)%nat = false) by (apply Nat.eqb_neq; by destruct (et_leaves T)).
  rewrite Hl, Hl2, andb_false_r. cbn [orb negb]. rewrite E1.
  set (q := reuse_count _ _).
  pose proof (rebuild_leaves_spec exts (s_w s) X (s_acc s) _ t0 q Hp Hh Ho (reuse_count_le _ _)) as R.
  destruct (rebuild_leaves _ _ q _) as [[w acc] x]. destruct R as (new & Hfr & Ht & Hx).
  destruct x as [[[root lb] idx]|e|]; [|by exists new|done].
  destruct Hx as (h' & t & Hta & Hex & Hno & _ & Hck & _ & Htk). exists new. cbn [s_w s_acc].
  split_and!; [done..|]. exists h', t. by split_and!.
Qed.

Lemma rebuild_write_spec in_ T exts s X :
  holds (s_w s) X -> Z.land (ino_Flags in_) InodeFlagInlineData = 0 ->
  length (ino_inlineRegion in_) = 256%nat -> exts = [] \/ packable exts -> describes (s_w s) X in_ T ->
  let '(s', x) := rebuildExtentIndexWrite victim in_ T exts s in
  exists new, fresh X new /\ tracked (holds := holds) (s_w s) X (s_acc s) (s_w s', s_acc s') (list_to_set new ∪ X) /\
  match x with
  | Ret (in_', freed) => rebuilt (s_w s') in_' T exts new freed
  | Err e => resource_error e
  | Panic => False
  end.
Proof using HL.
  intros Hh Hf Hreg He Hd. pose proof (rebuild_full_spec in_ T exts s X Hh Hf Hreg He Hd) as Full.
  destruct (decide (Z.land (ino_Flags in_) InodeFlagIndexed = 0)) as [Hi|Hi].
  { unfold rebuildExtentIndexWrite. rewrite Hi. cbn [Z.eqb negb orb]. by destruct (_ || _). }
  destruct (decide (exts = [])) as [->|Hne]; [exact Full|].
  destruct (decide (et_leaves T = [])) as [Hl|Hl].
  { unfold rebuildExtentIndexWrite. rewrite Hl. cbn [length Nat.eqb]. rewrite orb_true_r. by destruct (_ || _). }
  pose proof Hd as Hd'. unfold describes in Hd'. rewrite decide_False in Hd' by done.
  destruct Hd' as (h & t0 & Ho & E1 & E2). destruct He as [|Hp]; [done|].
  pose proof (rebuild_local_spec in_ T exts s X t0 Hh Hf Hi Hp Hl Ho E1 E2) as L.
  destruct (rebuildExtentIndexWrite victim in_ T exts s) as [s' x].
  destruct L as (new & Hfr & Ht & Hx). exists new. split_and!; [done..|].
  destruct x as [[in_' freed]|e|]; [|done|done].
  destruct Hx as (-> & h' & t & Hta & Hin' & Hex & Hno & _).
  eapply rebuilt_local; [exact Ho|exact E1|exact E2|exact Hfr|exact Hno| |apply Hta|].
  - rewrite Hin'. by apply has_index_tree.
  - rewrite Hin'. cbn [index_tree set_index ino_NumExtentsTotal]. apply u64_small.
    destruct Hp as (_ & _ & _ & ?). unfold is_u64. lia.
Qed.

(** C34 Storing a new list of extents through the localized rebuild.  Whatever
    the outcome, only newly allocated blocks were written: every tree whose
    nodes were in use, the file's old one included, still reads as before, and
    the runs recorded for roll-back account for what was allocated.  On success
    a walk of the new inode yields exactly the new extents; its nodes are the
    new blocks and the reused leaves, and the runs returned for freeing are
    exactly the old nodes the new index no longer uses.  It fails only when no
    block is free or the device fails, and it never panics. *)
Theorem rebuildExtentIndexWrite_correct (in_ : Inode) (T : extentTree) (exts : list Extent)
    (s : bstate W) (X : gset Z)
    (Hh : holds (s_w s) X) (Hin : Z.land (ino_Flags in_) InodeFlagInlineData = 0)
    (Hreg : length (ino_inlineRegion in_) = 256%nat)
    (Hexts : exts = [] \/ packable exts) (HT : describes (s_w s) X in_ T) :
  let '(s', x) := rebuildExtentIndexWrite victim in_ T exts s in
  (forall h root (t : tree h), old_tree (s_w s) X root t -> tree_at (ReadDev (s_w s')) root t) /\
  exists rels, fresh X (abs_blocks rels) /\ s_acc s' = add_blocks (s_acc s) rels /\
  match x with
  | Ret (in_', freed) => rebuilt (s_w s') in_' T exts (abs_blocks rels) freed
  | Err e => resource_error e
  | Panic => False
  end.
Proof using HL.
  pose proof (rebuild_write_spec in_ T exts s X Hh Hin Hreg Hexts HT) as R.
  destruct (rebuildExtentIndexWrite victim in_ T exts s) as [s' x]. destruct R as (new & Hfr & Ht & Hx). split.
  - intros h root t Ho. exact (tracked_old_tree _ _ _ _ _ root t Ht Ho).
  - destruct (tracked_new _ _ _ _ _ Hfr Ht) as (rels & H1 & H2 & H3). exists rels. split_and!; [done..|].
    destruct x as [[in_' freed]|e|]; [|done|done]. by eapply rebuilt_iff.
Qed.

(** A leaf is kept only if the next one is equal too. *)
Lemma reuse_count_lt chunks (lvs : list leaf) :
  (0 < reuse_count chunks (as_leaf <$> lvs))%nat ->
  (reuse_count chunks (as_leaf <$> lvs) < length lvs)%nat /\ (reuse_count chunks (as_leaf <$> lvs) < length chunks)%nat.
Proof using.
  clear. pose proof (equal_prefix_take chunks lvs _ (le_n _)) as (_ & H1 & H2). unfold reuse_count.
  destruct (2 <=? _)%nat eqn:E2; [|lia]. apply Nat.leb_le in E2. lia.
Qed.

(** In a list without duplicates, a later element is not among the first ones. *)
Lemma not_in_take {A} (l : list A) q x : NoDup l -> l !! q = Some x -> x ∉ take q l.
Proof using. clear. intros Hnd Hx (i & Hi & Hiq)%elem_of_take. pose proof (NoDup_lookup _ _ _ _ Hnd Hi Hx). lia. Qed.

Lemma tree_leaf_blocks (r : Z -> option (list Z)) {h} root (t : tree h) : tree_at r root t -> NoDup (lf_block <$> t_leaves t).
Proof using. clear. intros (_ & _ & Hnd & _). rewrite t_nodes_split in Hnd. by apply NoDup_app in Hnd as (_ & _ & ?). Qed.

Lemma leaf_after_kept (r : Z -> option (list Z)) {h} root (t : tree h) X new q n :
  tree_at r root t -> fresh X new -> t_nodes t ≡ₚ new ++ (lf_block <$> take q (t_leaves t)) ->
  t_leaves t !! q = Some n -> lf_block n ∉ X.
Proof using.
  clear. intros Hta Hfr Hno Hn. assert (Hnn : lf_block n ∈ new ++ (lf_block <$> take q (t_leaves t))).
  { rewrite <- Hno, t_nodes_split. apply elem_of_app. right. apply list_elem_of_fmap_2. by eapply list_elem_of_lookup_2. }
  apply elem_of_app in Hnn as [Hnn|Hnn]; [exact (fresh_not_in _ _ _ Hfr Hnn)|].
  rewrite fmap_take in Hnn. destruct (not_in_take _ q (lf_block n) (tree_leaf_blocks _ _ t Hta)); [|done].
  by rewrite list_lookup_fmap, Hn.
Qed.

(** C36 The localized rebuild does not re-link the chain of leaves.  When it keeps
    a leaf, the last leaf [l] that it keeps is left as it was, its [next_leaf]
    included.  The leaf [n] that now follows it lives on a newly allocated block;
    the leaf [l'] that followed it before is handed back for freeing and is not
    part of the new tree.  So if the old leaves were chained, as a full rebuild
    leaves them, [l] still names a block that the same operation frees; and
    whatever block in use [l] names, the new leaves are not chained. *)
Theorem rebuildExtentIndexWrite_breaks_chain (in_ : Inode) (T : extentTree) (exts : list Extent)
    (s : bstate W) (X : gset Z) {h} (t0 : tree h) s' in_' freed
    (Hh : holds (s_w s) X) (Hin : Z.land (ino_Flags in_) InodeFlagInlineData = 0)
    (Hidx : Z.land (ino_Flags in_) InodeFlagIndexed <> 0) (Hp : packable exts)
    (Ho : old_tree (s_w s) X (ino_ExtentInlineBase in_) t0)
    (HT1 : et_leaves T = as_leaf <$> t_leaves t0) (HT2 : et_idx T ≡ₚ t_idx t0)
    (Hreuse : (0 < reuse_count (ChunkBtreeExtents exts) (et_leaves T))%nat)
    (Hrun : rebuildExtentIndexWrite victim in_ T exts s = (s', Ret (in_', freed))) :
  let q := reuse_count (ChunkBtreeExtents exts) (et_leaves T) in
  exists h' (t : tree h') (l l' n : leaf),
    tree_at (ReadDev (s_w s')) (ino_ExtentInlineBase in_') t /\
    t_leaves t0 !! (q - 1)%nat = Some l /\ t_leaves t !! (q - 1)%nat = Some l /\
    t_leaves t0 !! q = Some l' /\ t_leaves t !! q = Some n /\
    lf_block l' ∈ run_blocks freed /\ (lf_block l' ∉ t_nodes t) /\ (lf_block n ∉ X) /\
    (chained (t_leaves t0) -> lf_next l = lf_block l') /\
    (lf_next l ∈ X -> ~ chained (t_leaves t)).
Proof using HL.
  assert (Hl : et_leaves T <> []) by (intros E; rewrite E in Hreuse; unfold reuse_count in Hreuse;
    destruct (ChunkBtreeExtents exts); simpl in Hreuse; lia).
  pose proof (rebuild_local_spec in_ T exts s X t0 Hh Hin Hidx Hp Hl Ho HT1 HT2) as L.
  rewrite Hrun in L. destruct L as (new & Hfr & Ht & -> & h' & t & Hta & _ & _ & Hno & Htk & Hck).
  pose proof (reuse_count_lt (ChunkBtreeExtents exts) (t_leaves t0)) as Hq. rewrite <- HT1 in Hq.
  set (q := reuse_count (ChunkBtreeExtents exts) (et_leaves T)) in *. intros q'. subst q'.
  destruct (Hq Hreuse) as [Hq0 Hqc]. rewrite Hck, length_fmap in Hqc.
  destruct (lookup_lt_is_Some_2 (t_leaves t0) (q - 1)) as [l Hlk]; [lia|].
  destruct (lookup_lt_is_Some_2 (t_leaves t0) q Hq0) as [l' Hlk'].
  destruct (lookup_lt_is_Some_2 (t_leaves t) q Hqc) as [n Hln].
  assert (Hlt : t_leaves t !! (q - 1)%nat = Some l)
    by (rewrite <- (lookup_take_lt (t_leaves t) q), Htk, lookup_take_lt by lia; done).
  pose proof (old_tree_leaves _ _ _ t0 Ho) as (_ & Hnd & HX). rewrite Forall_forall in HX.
  assert (Hb : lf_block l' ∈ lf_block <$> t_leaves t0) by (apply list_elem_of_fmap_2; by eapply list_elem_of_lookup_2).
  assert (Hr : lf_block l' ∉ lf_block <$> take q (t_leaves t0))
    by (rewrite fmap_take; apply not_in_take; [done|by rewrite list_lookup_fmap, Hlk']).
  assert (HnX : lf_block n ∉ X) by (eapply leaf_after_kept; [exact Hta|exact Hfr|by rewrite Htk|exact Hln]).
  exists h', t, l, l', n. do 5 (split; [done|]). split_and!; [| |done| |].
  - pose proof (freed_nodes t0 T q _ X _ Ho HT1 HT2) as P. cbv zeta in P.
    assert (Hn : lf_block l' ∈ old_nodes T).
    { unfold old_nodes. rewrite HT1, <- list_fmap_compose. apply elem_of_app. by left. }
    rewrite P in Hn. by apply elem_of_app in Hn as [?|?].
  - rewrite Hno. intros [Hn|?]%elem_of_app; [|done]. apply (fresh_not_in _ _ _ Hfr Hn). by apply HX.
  - intros Hc. apply (chained_lookup (t_leaves t0) (q - 1)); [done|done|]. by replace (S (q - 1)) with q by lia.
  - intros HlX Hc. destruct HnX. rewrite <- (chained_lookup (t_leaves t) (q - 1) l n); [done|done|done|].
    by replace (S (q - 1)) with q by lia.
Qed.

(** A full rebuild as a tree: the leaves are chained from left to right. *)
Lemma rebuild_full_chained in_ exts s X s' in_' :
  holds (s_w s) X -> packable exts -> (8 < length exts)%nat ->
  rebuildExtentIndex in_ exts s = (s', Ret in_') ->
  exists new h (t : tree h), fresh X new /\ holds (s_w s') (list_to_set new ∪ X) /\
    old_tree (s_w s') (list_to_set new ∪ X) (ino_ExtentInlineBase in_') t /\
    in_' = index_tree in_ (ino_ExtentInlineBase in_') exts /\ chained (t_leaves t).
Proof using HL.
  intros Hh Hp Hl E. unfold rebuildExtentIndex in E. cbn [s_w s_acc s_cache] in E.
  pose proof (build_index_spec exts (s_w s) X (s_acc s) Hp Hh) as B.
  destruct exts as [|e0 es]; [simpl in Hl; lia|]. set (exts := e0 :: es) in *.
  rewrite (proj2 (Nat.leb_gt _ _) Hl) in E. cbn [andb] in E.
  destruct (build_index exts _) as [[w acc] x]. destruct B as (new & Hfr & Ht & Hx).
  destruct x as [root|e|]; simplify_eq. destruct Hx as (h & t & Hta & Hex & Hno & Hch).
  exists new, h, t. cbn [s_w fst] in *. split_and!; [done|apply Ht| |done|done].
  split_and!; [done| |].
  - rewrite Hno. eapply Forall_impl; [apply Hfr|]. intros b [? _]. lia.
  - intros b. rewrite elem_of_list_to_set, Hno, elem_of_union, elem_of_list_to_set. by left.
Qed.

End theorems.

(** What [collectExtentTree] returns on a cache miss. *)
Lemma collectExtentTree_spec victim r c in_ {h} (t : tree h) :
  is_indexed in_ -> tree_at r (ino_ExtentInlineBase in_) t -> c !! ino_InodeNumber in_ = None ->
  exists T, snd (collectExtentTree victim r 4096 c in_) = Ret T /\
    et_exts T = t_extents t /\ et_leaves T = as_leaf <$> t_leaves t /\ et_idx T ≡ₚ t_idx t /\
    et_root T = ino_ExtentInlineBase in_ /\ et_total T = ino_NumExtentsTotal in_.
Proof.
  intros Hi Ht Hc. unfold collectExtentTree, lookupExtentTree. rewrite Hc.
  assert (H0 : ino_ExtentInlineBase in_ <> 0).
  { destruct Ht as (<- & _ & _ & Hnz & _). rewrite Forall_forall in Hnz. apply Hnz, t_block_node. }
  rewrite (indexed_bool in_ (proj2 Hi)), (proj2 (Z.eqb_neq _ _) H0). cbn [andb negb].
  rewrite (iterate_tree r t) by done. cbn [c_exts c_leaves c_nodes app].
  eexists. split_and!; [done..| |done|done]. cbn [et_idx].
  rewrite <- list_fmap_compose. change (el_block ∘ as_leaf) with lf_block.
  destruct Ht as (_ & _ & Hnd & _). pose proof Hnd as Hnd2. rewrite t_nodes_split in Hnd.
  apply NoDup_app in Hnd as (Hn1 & Hdis & _).
  apply NoDup_Permutation; [by apply NoDup_filter|done|]. intros b.
  rewrite list_elem_of_filter, t_nodes_split, elem_of_app. split; [by intros [? [?|?]]|].
  intros Hb. split; [by apply Hdis|by left].
Qed.

(** ** A concrete device

    200 data blocks from block 1000 on, of which 0 and 3 are taken. *)
Section sample.

Definition no_reclaim (P : gset Z) (a : Allocator) : option Allocator := None.
#[local] Instance sample_bridge : Bridge bridge_world := real_bridge no_reclaim (fun _ => None) 1000.

Lemma sample_laws : BridgeLaws bridge_world (in_use 1000).
Proof. apply real_bridge_laws; [lia|]. intros P a a' _ E. done. Qed.

Definition sample_world : bridge_world := mkWorld sample_alloc ∅ ∅.
Definition sample_inode : Inode := NewInode 0 0 7 0x81A4.
Definition sample_state : bstate bridge_world := mkBstate sample_world [] ∅.
Definition sample_exts (n : Z) : list Extent :=
  (fun i => mkExtent (2 * i) (5000 + 2 * i) 1 0 0) <$> seqZ 0 n.
Definition empty_tree : extentTree := mkExtentTree [] [] [] 0 0.

Lemma sample_in_use : in_use 1000 sample_world ∅.
Proof.
  unfold in_use, sample_world. cbn [bw_alloc bw_pending]. split_and!; [exact sample_alloc_ok| | |].
  - vm_compute. reflexivity.
  - apply disjoint_empty_l.
  - intros x Hx. by apply not_elem_of_empty in Hx.
Qed.

Lemma sample_sorted (n : nat) : forall a,
  ext_sorted ((fun i => mkExtent (2 * i) (5000 + 2 * i) 1 0 0) <$> seqZ a (Z.of_nat n)).
Proof.
  induction n as [|n IH]; intros a; [constructor|]. rewrite seqZ_cons by lia.
  replace (Z.pred (Z.of_nat (S n))) with (Z.of_nat n) by lia. csimpl. constructor; [apply IH|].
  apply Forall_fmap, Forall_forall. intros i Hi. apply elem_of_seqZ in Hi. simpl. lia.
Qed.

Lemma sample_packable n : 0 < n < 2 ^ 30 -> packable (sample_exts n).
Proof.
  intros Hn. unfold sample_exts. split_and!.
  - apply Forall_fmap, Forall_forall. intros i Hi. apply elem_of_seqZ in Hi. simpl. codec_wf_tac.
  - replace n with (Z.of_nat (Z.to_nat n)) by lia. apply sample_sorted.
  - rewrite seqZ_cons by lia. done.
  - rewrite length_fmap, length_seqZ. lia.
Qed.

Definition ret_or {E A} (d : A) (x : res E A) : A := match x with Ret a => a | _ => d end.
Definition is_ret {E A} (x : res E A) : bool := match x with Ret _ => true | _ => false end.

(** Nine extents, one more than fit in the inode. *)
Lemma rebuildExtentIndexWrite_correct_witness :
  exists s' in_' freed, 
    rebuildExtentIndexWrite (fun _ => None) sample_inode empty_tree (sample_exts 9) sample_state
      = (s', Ret (in_', freed)) /\
    exists rels, rebuilt (s_w s') in_' empty_tree (sample_exts 9) (abs_blocks rels) freed.
Proof.
  pose proof (rebuildExtentIndexWrite_correct (HL := sample_laws) (fun _ => None) sample_inode empty_tree
    (sample_exts 9) sample_state ∅ sample_in_use eq_refl eq_refl (or_intror (sample_packable 9 ltac:(lia)))
    ltac:(split; reflexivity)) as H.
  assert (Hr : is_ret (snd (rebuildExtentIndexWrite (fun _ => None) sample_inode empty_tree
    (sample_exts 9) sample_state)) = true) by (vm_compute; reflexivity).
  destruct (rebuildExtentIndexWrite _ _ _ _ _) as [s' [[in_' freed]|e|]]; [|discriminate..].
  destruct H as (_ & rels & _ & _ & H). exists s', in_', freed. split; [reflexivity|]. exists rels. exact H.
Defined.

Lemma ret_eta {S E A} (d : A) (x : S * res E A) :
  is_ret (snd x) = true -> x = (fst x, Ret (ret_or d (snd x))).
Proof. by destruct x as [s [a|e|]]. Qed.

Lemma ret_eta_pair {S E A B} (d : A * B) (x : S * res E (A * B)) :
  is_ret (snd x) = true -> x = (fst x, Ret (fst (ret_or d (snd x)), snd (ret_or d (snd x)))).
Proof. by destruct x as [s [[a b]|e|]]. Qed.

#[local] Opaque rebuildExtentIndex rebuildExtentIndexWrite collectExtentTree.

(** A file of 300 extents in three leaves, to which one more is appended. *)
Definition sample_file : bstate bridge_world * res index_error Inode :=
  rebuildExtentIndex sample_inode (sample_exts 300) sample_state.
Definition sample_indexed : Inode := ret_or sample_inode (snd sample_file).
Definition sample_walked : extentTree :=
  ret_or empty_tree
    (snd (collectExtentTree (fun _ => None) (ReadDev (s_w (fst sample_file))) 4096 ∅ sample_indexed)).
Definition sample_append : bstate bridge_world * res index_error (Inode * list blockRun) :=
  rebuildExtentIndexWrite (fun _ => None) sample_indexed sample_walked (sample_exts 301) (fst sample_file).

Definition sample_out : Inode := fst (ret_or (sample_inode, []) (snd sample_append)).
Definition sample_freed : list blockRun := snd (ret_or (sample_inode, []) (snd sample_append)).

Lemma rebuildExtentIndexWrite_breaks_chain_witness :
  exists s' in_' freed, sample_append = (s', Ret (in_', freed)) /\
  run_blocks freed = [1002; 1004; 1005] /\
  exists h' (t : tree h') (l : leaf),
    tree_at (ReadDev (s_w s')) (ino_ExtentInlineBase in_') t /\
    t_leaves t !! (reuse_count (ChunkBtreeExtents (sample_exts 301)) (et_leaves sample_walked) - 1)%nat = Some l /\
    lf_next l ∈ run_blocks freed /\ lf_next l ∉ t_nodes t.
Proof.
  assert (Hr : is_ret (snd sample_file) = true) by (vm_compute; reflexivity).
  assert (Hr2 : is_ret (snd sample_append) = true) by (vm_compute; reflexivity).
  assert (Hr3 : bool_decide (run_blocks sample_freed = [1002; 1004; 1005]) = true) by (vm_compute; reflexivity).
  assert (Hq : bool_decide (0 < reuse_count (ChunkBtreeExtents (sample_exts 301)) (et_leaves sample_walked))%nat
    = true) by (vm_compute; reflexivity).
  apply bool_decide_eq_true in Hr3, Hq.
  pose proof (ret_eta sample_inode sample_file Hr) as Hf. fold sample_indexed in Hf.
  pose proof (ret_eta_pair (sample_inode, []) sample_append Hr2) as Ha.
  destruct (rebuild_full_chained (HL := sample_laws) sample_inode (sample_exts 300) sample_state ∅ (fst sample_file)
    sample_indexed sample_in_use (sample_packable 300 ltac:(lia))
    ltac:(unfold sample_exts; rewrite length_fmap, length_seqZ; lia) Hf)
    as (new & h & t0 & _ & Hh & Ho & Hin & Hch).
  assert (Hidx : is_indexed sample_indexed) by (rewrite Hin; split; [reflexivity|discriminate]).
  destruct (collectExtentTree_spec (fun _ => None) (ReadDev (s_w (fst sample_file))) ∅ sample_indexed t0 Hidx
    (proj1 Ho) (lookup_empty _)) as (T & HT & _ & HT1 & HT2 & _).
  assert (HTw : T = sample_walked) by (unfold sample_walked; rewrite HT; reflexivity). subst T.
  exists (fst sample_append), sample_out, sample_freed.
  split; [exact Ha|]. split; [exact Hr3|].
  destruct (rebuildExtentIndexWrite_breaks_chain (HL := sample_laws) (fun _ => None) sample_indexed sample_walked
    (sample_exts 301) (fst sample_file) (list_to_set new ∪ ∅) t0 (fst sample_append) sample_out sample_freed
    Hh (proj1 Hidx) (proj2 Hidx) (sample_packable 301 ltac:(lia)) Ho HT1 HT2 Hq Ha)
    as (h' & t & l & l' & n & Hta & _ & Hl & _ & _ & Hfr & Hnt & _ & Hnx & _).
  specialize (Hnx Hch). exists h', t, l. rewrite Hnx. exact (conj Hta (conj Hl (conj Hfr Hnt))).
Defined.

End sample.
